(* ===== verification/_CoqProject ===== *)
-Q . S2P
Prelude.v
Gf2.v
Bits.v
Crc16.v
IridiumBch.v
IridiumFrame.v
IdaDecode.v
IdaEncode.v
IdaChase.v
IdaChaseCorrect.v
BchRa.v
BchSoft.v
IdaReassembler.v
SbdReassembler.v
Vdl2Header.v
Avlc.v
Gf256.v
Locators.v
Recurrence.v
RsVdl2.v
RsDecode.v
Vdl2L2.v
UsbRing.v
FrameQueue.v
FeedPipeline.v
FeedInvariant.v
FrameLink.v
MsgRing.v
FrameDecoder.v
DecoderTrust.v
DecoderDelivery.v
SignalBuffer.v
SeqLock.v
HotBins.v
WorkerQueue.v
WorkerEmit.v
Broadcast.v
BandHealth.v
Scanner.v
DecodeSurvey.v
BurstTagger.v
TaggerFloor.v
TaggerBursts.v
