(* ===== verification/Prelude.v ===== *)
(** Verification of an Iridium and VDL Mode 2 ACARS receiver.

    The program is the C firmware of an ESP32-P4 receiver.  A USB tuner fills
    a ring of raw samples; a feed task converts them and hands them to the
    signal chain, which keeps a ring of samples behind its burst detector;
    detected bursts wait in a priority queue for a worker, which demodulates
    them and passes frames through a queue to a decoder task; that task
    classifies Iridium frames, repairs and decodes them, reassembles their
    fragments into messages, or runs the VDL2 link layer, and hands messages to
    libacars; alternatively a receiver board ships its frames over a serial
    link to an aggregator board, which feeds its own decoder task.  Signal
    processing in floating point and vector assembly, drivers, the network side
    and the vendored libraries (libacars, librtlsdr and the reference receivers)
    are outside the model.

    * Files

    Shared:
    - [Prelude]: machine words, bytes, buffers, loops ([forN]), list lemmas,
      hints and tactics.  C arrays are lists, [rd] reads an octet, [blit] is
      [memcpy] into a buffer, [slice] a sub-array.
    - [Gf2]: shift registers over GF(2), the reference for all the codes.
    - [Bits]: pair swaps, de-interleavers and bit packing, as gathers.

    Iridium path (src/common/iridium_decoder):
    - [Crc16]: crc16.c.  Tables equal the bit-serial registers; the residue
      checks are exact; what damage is always noticed.
    - [IridiumBch]: iridium_bch.c.  The syndrome-table repair equals the
      brute-force repair and corrects what the code allows.  The cache of
      syndrome tables ([syn_state]) is threaded through every caller.
    - [IridiumFrame]: iridium_frame.c, the classifier and its harder mode.
    - [IdaDecode], [IdaEncode]: ida_decode.c, ida_encode.c.  Decoding block by
      block, field bounds, CRC semantics, and the round trip under bit errors.
    - [IdaChase], [IdaChaseCorrect]: ida_chase.c, the soft-decision fallback:
      the search is the first accepted element of a lexicographic product; what
      is accepted; what is certain to be recovered.
    - [IdaReassembler]: ida_reassembler.c, fragments of one transmission.
    - [SbdReassembler]: sbd_reassembler.c, messages of several envelopes, and
      the salvage parse.
    - [BchRa], [BchSoft]: bch_decoder.c, the two-block front porch: the nearest
      codeword, hard and soft (Chase-2), and the de-interleavers.
    - [Broadcast]: ira_decode.c, ibc_decode.c, ims_decode.c and tl_decode.c, the
      frames that carry no ACARS, with round trips under bit errors.

    VDL2 path (src/common/vdl2):
    - [Vdl2Header]: vdl2_hdr.c, the burst header code, hard and soft.
    - [Avlc]: avlc.c, flags, stuffing, check sequence, addresses.
    - [Gf256], [Locators], [Recurrence]: field, locator and recurrence theory.
    - [RsVdl2], [RsDecode]: rs_vdl2.c and its exactness.
    - [Vdl2L2]: vdl2_l2.c, the whole transmission and its erasure ladder.

    Tasks and queues (src/p4-usb-host/main and src/common/iridium_decoder):
    - [UsbRing]: usbring.c and usbring.h, the octet ring between USB and feed.
    - [FrameQueue]: frame_queue.c and [frame_decoder_push], the burst queue.
    - [FeedPipeline], [FeedInvariant]: ingest_core1.c and [dsp_feed_task] of
      class_driver.c over the ring.
    - [FrameDecoder]: frame_decoder.c, the handler of one burst from the queue
      to libacars, the sweeps and the salvage drain.  [DecoderTrust] traces the
      bytes handed over back to the frames received; [DecoderDelivery] follows
      an encoded message through the handler.
    - [MsgRing]: msg_ring.c, the ring of recent messages and its pollers.
    - [FrameLink]: frame_pdu.c, frame_link.c and aggregator_ingest.c, the serial
      link between boards.
    - [SignalBuffer], [SeqLock]: signal_buffer.c and signal_buffer_ring.h, the
      sample ring filled by DMA, and the sequence lock on its counter.
    - [BurstTagger]: fft_burst_tagger.c, the burst detector on the transform's
      output; [TaggerFloor]: its noise floor against recomputing it;
      [TaggerBursts]: which bursts it opens, follows and ends.
    - [HotBins]: hot_bin_table.c, the lock-free table of detection bins to
      prefer.
    - [WorkerQueue]: the priority queue of worker_core1.c; [WorkerEmit]: its
      frame sinks and counters, the first stage of the decoding pipeline and the
      source of the PDUs of [FrameLink].

    Policies (src/p4-usb-host/main):
    - [BandHealth]: band_health.c and band_health_core.h, the hourly staleness
      monitor, across reboots.
    - [Scanner]: scanner.c and scanner_map.c, burst density over a grid of
      frequencies.
    - [DecodeSurvey]: decode_survey.c and decode_survey_core.h, the survey that
      ranks frequencies by frames decoded, with its termination and what it
      parks on.

    * Modelling

    Each C function is a definition of the same name.  Module-level variables
    are records threaded through the calls; output parameters are results, a
    buffer that is partly written being passed in and returned.  Integers are
    [Z] reduced at the width the C types give ([u8], [u16], [u32], [u64],
    [sN]); sizes are 32 bits wide, as on the target.  A float that is only
    copied is its bit pattern; one that is computed with is a [spec_float] of
    the Standard Library at the C type's precision.  Memory errors that the code
    can commit make the result [None] where they are possible ([IdaEncode]);
    elsewhere the bounds are theorems.  NULL arguments are not modelled except where the code gives
    them a meaning (soft bits).  Loops run on [forN] with the bound of the C
    loop; where the C loop has no fixed bound the function is structurally
    recursive on what it consumes (bits in [Avlc], fuel equal to the cap of the
    check loop in [IdaChase], 255 Chien positions, at most 4 reaps in
    [IdaReassembler]), so no fuel is a restriction on inputs.

    Tasks that share state are interleavings of steps, one shared access per
    step, with the configuration a record and the trace a list of events
    ([UsbRing], [FrameQueue], [FeedPipeline], [SignalBuffer], [SeqLock],
    [WorkerQueue]).  A 64-bit counter read by another core is two words in
    [SeqLock], an entry of [HotBins] two atomics; the DMA channel moves samples
    in any order between submission and completion.  Atomics and critical
    sections are assumed sequentially consistent, and resets and
    deinitialisation to happen when the other side is quiet, as the code's
    comments require.
    Semaphores and message queues of the kernel are the classes
    [BinarySemaphore] and [MessageQueue] with their documented laws; the
    theorems hold for every instance, and the witnesses use a concrete one.
    libacars is the class [AcarsLibrary], of which no law is assumed but what
    the theorem at hand names.  Flash survives a reboot and the rest of the
    state does not ([BandHealth]); a flash write may fail.

    * What the theorems show

    - Codes: equivalence of optimised routines with references (CRC tables, BCH
      repair, Reed-Solomon), exact correction capability, exact detection.
    - Frames: round trips of encoders and decoders under channel errors;
      functional characterisation of the decoders on every branch; field
      bounds; gates that a frame must pass.
    - Sessions: invariants of the tables, in-order reassembly, freshness of
      matches, timeouts, agreement of the strict and the salvage parse.
    - Queues and tasks: refinement of bounded FIFOs under every interleaving,
      progress, absence of deadlock, in-order delivery end to end; what a
      reader of the sample ring may rely on; what the priority queue sheds.
    - Detection: the incremental noise floor is the sum over a window of
      spectra; bursts never crowd each other and none is lost inside a step;
      the vector pre-screen hides no peak.
    - The whole receiver: a message encoded into bursts, damaged within the
      codes' reach, comes out of the decoder task at libacars, and nothing is
      handed to libacars on the Iridium path that was not received with valid
      check sequences; the two-board receiver behaves as the one-board one,
      less what the link does not carry.
    - Policies: the band monitor is its abstract specification, and spaces its
      recommendations across reboots; the surveys end, tally what was measured
      and park on a best frequency.

    * Not modelled

    Signal processing (transform, correlators, filters, demodulators):
    numerical behaviour in floating point or vector assembly, whose outputs
    enter the model as spectra, bits and soft metrics; a functional contract
    for them would be a statement about signal statistics.  Device
    drivers, sockets, HTTP, files and logging: effects outside the kernel's
    reach, with little logic of their own; the JSON of the feed is snprintf.
    The gain, tuning and calibration loops that act on measured levels.  The
    release and acquire orders of the C11 atomics, taken as sequentially
    consistent.  The retired split path of the ingest task: its share is the
    constant 0.  The vendored libraries and the tests. *)

From Stdlib Require Export ZArith Lia ZifyNat.
From Stdlib Require Export Btauto.
From stdpp Require Export base numbers list option tactics.

#[global] Open Scope Z_scope.

(** [lia] also reasons about division and modulo by constants. *)
Ltac Zify.zify_post_hook ::= Z.to_euclidean_division_equations.

(** ** Machine words

    A [w]-bit unsigned C integer is a [Z]; the conversion that a C assignment
    or cast performs is written out. *)

Definition u8 (z : Z) : Z := z mod 2 ^ 8.
Definition u16 (z : Z) : Z := z mod 2 ^ 16.
Definition u32 (z : Z) : Z := z mod 2 ^ 32.
Definition u64 (z : Z) : Z := z mod 2 ^ 64.
(** Two's-complement reinterpretation of a [w]-bit pattern. *)
Definition sN (w z : Z) : Z := (z + 2 ^ (w - 1)) mod 2 ^ w - 2 ^ (w - 1).

Definition is_u (w z : Z) : Prop := 0 <= z < 2 ^ w.
Notation is_byte := (is_u 8).
Notation is_bytes := (Forall (is_u 8)).

Lemma u8_small z : 0 <= z < 256 -> u8 z = z.
Proof. apply Z.mod_small. Qed.
Lemma u16_small z : 0 <= z < 65536 -> u16 z = z.
Proof. apply Z.mod_small. Qed.
Lemma u32_small z : 0 <= z < 2 ^ 32 -> u32 z = z.
Proof. apply Z.mod_small. Qed.
Lemma u64_small z : 0 <= z < 2 ^ 64 -> u64 z = z.
Proof. apply Z.mod_small. Qed.

Lemma u32_add_u32 a b : u32 (u32 a + b) = u32 (a + b).
Proof. unfold u32. apply Zplus_mod_idemp_l. Qed.

(** Bits of bounded numbers. *)
Lemma b2z_range b : 0 <= Z.b2z b <= 1.
Proof. destruct b; cbn; lia. Qed.

Lemma testbit_high n x i : 0 <= x < 2 ^ n -> n <= i -> Z.testbit x i = false.
Proof.
  intros Hx Hi. destruct (Z.neg_nonneg_cases n) as [Hn|Hn].
  - rewrite Z.pow_neg_r in Hx by done. lia.
  - rewrite <- (Z.mod_small x (2 ^ n)) by done. apply Z.mod_pow2_bits_high. lia.
Qed.

Lemma bound_of_testbit n x :
  0 <= n -> 0 <= x -> (forall i, n <= i -> Z.testbit x i = false) -> 0 <= x < 2 ^ n.
Proof.
  intros Hn Hx Hb.
  replace x with (x mod 2 ^ n); [apply Z.mod_pos_bound; lia|].
  apply Z.bits_inj'. intros i Hi. destruct (Z.lt_ge_cases i n).
  - by rewrite Z.mod_pow2_bits_low.
  - by rewrite Z.mod_pow2_bits_high, Hb by lia.
Qed.

Lemma testbit_top x d :
  2 ^ Z.of_nat d <= x < 2 ^ (Z.of_nat d + 1) -> Z.testbit x (Z.of_nat d) = true.
Proof.
  intros Hx. rewrite Z.testbit_true by lia.
  rewrite Z.pow_add_r in Hx by lia.
  replace (x / 2 ^ Z.of_nat d) with 1; [done|].
  apply Z.div_unique with (r := x - 2 ^ Z.of_nat d); lia.
Qed.

Lemma lxor_mod_pow2 n a b :
  0 <= n -> Z.lxor a b mod 2 ^ n = Z.lxor (a mod 2 ^ n) (b mod 2 ^ n).
Proof.
  intros Hn. rewrite <- !Z.land_ones by done. apply Z.bits_inj'. intros i Hi.
  rewrite !Z.land_spec, !Z.lxor_spec, !Z.land_spec.
  destruct (Z.testbit a i), (Z.testbit b i), (Z.testbit (Z.ones n) i); done.
Qed.

Lemma is_u_mod w z : 0 <= w -> is_u w (z mod 2 ^ w).
Proof. intros. apply Z.mod_pos_bound. lia. Qed.

Lemma is_u_lxor w a b : 0 <= w -> is_u w a -> is_u w b -> is_u w (Z.lxor a b).
Proof.
  intros Hw Ha Hb. apply bound_of_testbit; [done|apply Z.lxor_nonneg; unfold is_u in *; lia|].
  intros i Hi. by rewrite Z.lxor_spec, !(testbit_high w).
Qed.

Lemma is_u_land_ones w x : 0 <= w -> is_u w (Z.land x (Z.ones w)).
Proof. intros. rewrite Z.land_ones by done. by apply is_u_mod. Qed.

Lemma is_u_shiftr w k z : 0 <= k <= w -> is_u w z -> is_u (w - k) (Z.shiftr z k).
Proof.
  unfold is_u. intros Hk Hz. rewrite Z.shiftr_div_pow2 by lia. split.
  - apply Z.div_pos; lia.
  - apply Z.div_lt_upper_bound; [lia|]. rewrite <- Z.pow_add_r by lia.
    replace (k + (w - k)) with w by lia. lia.
Qed.

(** Bytes of a 16-bit number. *)
Definition lo8 (z : Z) : Z := Z.land z 0xFF.
Definition hi8 (z : Z) : Z := Z.shiftr z 8.

Lemma lo8_byte z : is_byte (lo8 z).
Proof. apply (is_u_land_ones 8). lia. Qed.

Lemma hi8_byte z : is_u 16 z -> is_byte (hi8 z).
Proof. apply (is_u_shiftr 16 8). lia. Qed.

Lemma land_255_byte z : is_byte z -> Z.land z 0xFF = z.
Proof. intros. change 0xFF with (Z.ones 8). rewrite Z.land_ones by lia. by apply Z.mod_small. Qed.

Lemma split8 z : Z.lxor (Z.shiftl (hi8 z) 8) (lo8 z) = z.
Proof.
  apply Z.bits_inj'. intros i Hi. unfold hi8, lo8. change 0xFF with (Z.ones 8).
  rewrite Z.lxor_spec, Z.shiftl_spec, Z.land_spec by done.
  destruct (Z.lt_ge_cases i 8).
  - rewrite Z.testbit_neg_r, Z.ones_spec_low by lia. by rewrite andb_true_r, xorb_false_l.
  - rewrite Z.shiftr_spec, Z.ones_spec_high by lia. rewrite andb_false_r, xorb_false_r.
    f_equal. lia.
Qed.

Lemma lxor_cancel_r a b c : Z.lxor a c = Z.lxor b c -> a = b.
Proof.
  intros H. apply (f_equal (fun z => Z.lxor z c)) in H.
  by rewrite !Z.lxor_assoc, Z.lxor_nilpotent, !Z.lxor_0_r in H.
Qed.

Lemma lxor_cancel_l a b c : Z.lxor c a = Z.lxor c b -> a = b.
Proof. rewrite !(Z.lxor_comm c). apply lxor_cancel_r. Qed.

Lemma lxor_eqb_0 a b : (Z.lxor a b =? 0) = (a =? b).
Proof.
  destruct (Z.eqb_spec a b) as [->|H]; [by rewrite Z.lxor_nilpotent|].
  apply Z.eqb_neq. intros E. by apply Z.lxor_eq in E.
Qed.

Lemma lxor_eqb_move a b c : (Z.lxor a b =? c) = (a =? Z.lxor b c).
Proof. by rewrite <- (lxor_eqb_0 (Z.lxor a b)), <- (lxor_eqb_0 a), Z.lxor_assoc. Qed.

Lemma shiftl_inj a b k : 0 <= k -> Z.shiftl a k = Z.shiftl b k -> a = b.
Proof.
  intros Hk. rewrite !Z.shiftl_mul_pow2 by done. intros H.
  apply Z.mul_cancel_r in H; [done|lia].
Qed.

Lemma lo8_lxor_shift a b : lo8 (Z.lxor (Z.shiftl a 8) b) = lo8 b.
Proof.
  unfold lo8. change 0xFF with (Z.ones 8). apply Z.bits_inj'. intros i Hi.
  rewrite !Z.land_spec, Z.lxor_spec, Z.shiftl_spec by done.
  destruct (Z.lt_ge_cases i 8).
  - by rewrite (Z.testbit_neg_r a) by lia.
  - by rewrite Z.ones_spec_high, !andb_false_r by lia.
Qed.

Lemma hi8_lxor_byte a b : is_byte a -> hi8 (Z.lxor a b) = hi8 b.
Proof.
  intros Ha. unfold hi8. rewrite Z.shiftr_lxor.
  rewrite (Z.shiftr_div_pow2 a), Z.div_small by (unfold is_u in *; lia). done.
Qed.

Lemma is_u_shiftl8 z : is_byte z -> is_u 16 (Z.shiftl z 8).
Proof. unfold is_u. rewrite Z.shiftl_mul_pow2 by lia. lia. Qed.

(** [x & 1] *)
Definition bit (x : Z) : Z := Z.land x 1.

Lemma bit_odd x : bit x = Z.b2z (Z.odd x).
Proof. unfold bit. change 1 with (Z.ones 1). rewrite Z.land_ones by lia. apply Zmod_odd. Qed.

Lemma odd_lxor_1 x : Z.odd (Z.lxor x 1) = xorb (Z.odd x) true.
Proof. by rewrite <- Z.bit0_odd, Z.lxor_spec, Z.bit0_odd. Qed.

Lemma lor_shiftl1_bit v x : Z.lor (Z.shiftl v 1) (bit x) = 2 * v + Z.b2z (Z.odd x).
Proof.
  rewrite bit_odd, Z.shiftl_mul_pow2 by lia. change (2 ^ 1) with 2. rewrite (Z.mul_comm v).
  apply Z.bits_inj'. intros i Hi. rewrite Z.lor_spec.
  destruct (Z.eq_dec i 0) as [->|Hi0].
  - rewrite Z.testbit_0_r, Z.testbit_even_0. by destruct (Z.odd x).
  - replace i with (Z.succ (i - 1)) by lia.
    rewrite Z.testbit_succ_r, Z.testbit_even_succ by lia.
    destruct (Z.odd x); cbn [Z.b2z]; [|by rewrite Z.testbit_0_l, orb_false_r].
    rewrite (testbit_high 1 1) by lia. by rewrite orb_false_r.
Qed.

Lemma lxor_shift_add a b c k :
  0 <= k -> 0 <= c < 2 ^ k ->
  Z.lxor (a * 2 ^ k + c) (Z.shiftl b k) = Z.lxor a b * 2 ^ k + c.
Proof.
  intros Hk Hc.
  assert (Hadd : forall z, z * 2 ^ k + c = Z.lxor (Z.shiftl z k) c).
  { intros z. rewrite <- Z.shiftl_mul_pow2 by done. apply Z.add_nocarry_lxor.
    apply Z.bits_inj'. intros i Hi. rewrite Z.land_spec, Z.shiftl_spec, Z.bits_0 by done.
    destruct (Z.lt_ge_cases i k); [by rewrite Z.testbit_neg_r by lia|].
    by rewrite (testbit_high k c), andb_false_r. }
  rewrite !Hadd, Z.shiftl_lxor. apply Z.bits_inj'. intros i Hi.
  rewrite !Z.lxor_spec. btauto.
Qed.

(** 64-bit time differences. *)
Lemma u64_sub now last : is_u 64 now -> is_u 64 last -> last <= now -> u64 (now - last) = now - last.
Proof. intros H1 H2 H. apply Z.mod_small. unfold is_u in *. lia. Qed.

(** ** Arrays

    A C array is a [list]; [rd] is an in-range read (out of range it yields
    0; the bounds theorems say where reads stay in range), [blit] is
    [memcpy (dst + off, src, length src)] and [slice] a sub-array. *)

Definition rd (l : list Z) (i : nat) : Z := nth i l 0.
Definition blit {A} (dst : list A) (off : nat) (src : list A) : list A :=
  take off dst ++ src ++ drop (off + length src) dst.
Definition slice {A} (l : list A) (off n : nat) : list A := take n (drop off l).

Section arrays.
Context {A : Type}.
Implicit Types (l src : list A).

Lemma length_blit l off src :
  (off + length src <= length l)%nat -> length (blit l off src) = length l.
Proof. intros. unfold blit. rewrite !length_app, length_take, length_drop. lia. Qed.

Lemma length_slice l off n : (off + n <= length l)%nat -> length (slice l off n) = n.
Proof. intros. unfold slice. rewrite length_take, length_drop. lia. Qed.

Lemma lookup_slice l off n i :
  slice l off n !! i = if decide (i < n)%nat then l !! (off + i)%nat else None.
Proof.
  unfold slice. case_decide.
  - by rewrite lookup_take_lt, lookup_drop by done.
  - by rewrite lookup_take_ge by lia.
Qed.

Lemma lookup_blit l off src i :
  (off <= length l)%nat ->
  blit l off src !! i =
  if decide (off <= i < off + length src)%nat then src !! (i - off)%nat else l !! i.
Proof.
  intros Hoff. unfold blit.
  assert (Ht : length (take off l) = off) by (rewrite length_take; lia).
  destruct (Nat.lt_ge_cases i off) as [Hi|Hi].
  - rewrite lookup_app_l, lookup_take_lt, decide_False by lia. done.
  - rewrite lookup_app_r, Ht by lia. case_decide.
    + by rewrite lookup_app_l by lia.
    + rewrite lookup_app_r, lookup_drop by lia. f_equal. lia.
Qed.

Lemma slice_blit l off src :
  (off <= length l)%nat -> slice (blit l off src) off (length src) = src.
Proof.
  intros Hoff. apply list_eq. intros i. rewrite lookup_slice. case_decide.
  - rewrite lookup_blit, decide_True by lia. f_equal. lia.
  - symmetry. apply lookup_ge_None. lia.
Qed.

Lemma slice_blit_before l off src o n :
  (off <= length l)%nat -> (o + n <= off)%nat -> slice (blit l off src) o n = slice l o n.
Proof.
  intros Hoff Ho. apply list_eq. intros i. rewrite !lookup_slice. case_decide; [|done].
  by rewrite lookup_blit, decide_False by lia.
Qed.

Lemma slice_blit_after l off src o n :
  (off <= length l)%nat -> (off + length src <= o)%nat ->
  slice (blit l off src) o n = slice l o n.
Proof.
  intros Hoff Ho. apply list_eq. intros i. rewrite !lookup_slice. case_decide; [|done].
  by rewrite lookup_blit, decide_False by lia.
Qed.
End arrays.

Lemma slice_app_at {A} (l pre x post : list A) o n :
  l = pre ++ x ++ post -> length pre = o -> length x = n -> slice l o n = x.
Proof. intros -> <- <-. unfold slice. by rewrite drop_app_length, take_app_length. Qed.

Lemma rd_byte l i : is_bytes l -> is_byte (rd l i).
Proof.
  intros H. unfold rd. rewrite nth_lookup. destruct (l !! i) as [x|] eqn:E.
  - exact (Forall_lookup_1 _ _ _ _ H E).
  - unfold is_u. cbn. lia.
Qed.

Lemma slice_bytes l off n : is_bytes l -> is_bytes (slice l off n).
Proof. intros H. by apply Forall_take, Forall_drop. Qed.

Lemma rd_slice l off n i : (i < n)%nat -> rd (slice l off n) i = rd l (off + i).
Proof. intros Hi. unfold rd. by rewrite !nth_lookup, lookup_slice, decide_True. Qed.

Lemma list_lookup_fmap' {A B} (f : A -> B) (l : list A) i : map f l !! i = f <$> l !! i.
Proof. apply list_lookup_fmap. Qed.

Lemma nth_lookup_total {A} (d : A) (l : list A) i x : l !! i = Some x -> nth i l d = x.
Proof. intros H. by rewrite nth_lookup, H. Qed.

Lemma map_nth_seq {A} (d : A) (l : list A) : map (fun i => nth i l d) (seq 0 (length l)) = l.
Proof.
  apply list_eq. intros i. rewrite list_lookup_fmap'.
  destruct (Nat.lt_ge_cases i (length l)) as [Hi|Hi].
  - rewrite lookup_seq_lt by done. cbn.
    destruct (lookup_lt_is_Some_2 l i Hi) as [x Hx]. rewrite Hx. f_equal. by apply nth_lookup_total.
  - rewrite !lookup_ge_None_2; [done|done|by rewrite length_seq].
Qed.

(** [for (i = 0; i < n; i++) a = f(i, a)] *)
Definition forN {A} (n : nat) (f : nat -> A -> A) (a : A) : A :=
  fold_left (fun a i => f i a) (seq 0 n) a.

Section forN.
Context {A : Type}.
Implicit Types (f : nat -> A -> A) (a : A).

Lemma forN_0 f a : forN 0 f a = a.
Proof. reflexivity. Qed.

Lemma forN_S n f a : forN (S n) f a = f n (forN n f a).
Proof. unfold forN. rewrite seq_S, fold_left_app. reflexivity. Qed.

(** Rule of invariants for counted loops. *)
Lemma forN_ext n (f g : nat -> A -> A) a :
  (forall i x, (i < n)%nat -> f i x = g i x) -> forN n f a = forN n g a.
Proof. induction n as [|n IH]; intros H; [done|]. rewrite !forN_S, IH by auto. auto. Qed.

Lemma forN_inv (P : nat -> A -> Prop) n f a :
  P 0%nat a ->
  (forall i x, (i < n)%nat -> P i x -> P (S i) (f i x)) ->
  P n (forN n f a).
Proof.
  intros H0 HS. induction n as [|n IH]; [exact H0|].
  rewrite forN_S. apply HS; [lia|]. apply IH. intros; apply HS; [lia|done].
Qed.
End forN.

(** A counted loop that writes consecutive cells. *)
Lemma write_run n off (f : nat -> Z) (m : list Z) :
  (off + n <= length m)%nat ->
  forN n (fun k m => <[(off + k)%nat := f k]> m) m = blit m off (map f (seq 0 n)).
Proof.
  intros Hn. induction n as [|n IH].
  - unfold blit. cbn. by rewrite Nat.add_0_r, take_drop.
  - rewrite forN_S, IH by lia. apply list_eq. intros i.
    rewrite seq_S, map_app. cbn [map Nat.add].
    rewrite lookup_blit by lia. rewrite length_app, length_map, length_seq. cbn [length].
    destruct (decide (i = (off + n)%nat)) as [->|Hne].
    + rewrite list_lookup_insert_eq, decide_True
        by (rewrite ?length_blit; rewrite ?length_map, ?length_seq; lia).
      rewrite lookup_app_r by (rewrite length_map, length_seq; lia).
      rewrite length_map, length_seq. by replace (off + n - off - n)%nat with 0%nat by lia.
    + rewrite list_lookup_insert_ne, lookup_blit by lia. rewrite length_map, length_seq.
      destruct (decide _), (decide _); try lia; [|done].
      by rewrite lookup_app_l by (rewrite length_map, length_seq; lia).
Qed.

Lemma blit_blit_adj (m a b : list Z) off :
  (off + length a + length b <= length m)%nat ->
  blit (blit m off a) (off + length a) b = blit m off (a ++ b).
Proof.
  intros H. apply list_eq. intros i.
  rewrite !lookup_blit by (rewrite ?length_blit; lia). rewrite length_app.
  destruct (decide (off + length a <= i < off + length a + length b)%nat).
  - rewrite decide_True by lia. rewrite lookup_app_r by lia. f_equal. lia.
  - destruct (decide (off <= i < off + length a)%nat).
    + rewrite decide_True by lia. by rewrite lookup_app_l by lia.
    + by rewrite decide_False by lia.
Qed.

(** ** Finite checks *)

Lemma forall_below (P : nat -> bool) n :
  forallb P (seq 0 n) = true -> forall i, (i < n)%nat -> P i = true.
Proof.
  intros H i Hi. rewrite forallb_forall in H. apply H. apply in_seq. lia.
Qed.

Lemma forall_below_eqb (f g : nat -> Z) n :
  forallb (fun i => f i =? g i) (seq 0 n) = true -> forall i, (i < n)%nat -> f i = g i.
Proof. intros H i Hi. apply Z.eqb_eq. exact (forall_below _ n H i Hi). Qed.

(** ** Searching lists *)

Section find.
Context {A : Type}.
Implicit Types (P : A -> bool).

Lemma find_app P (l k : list A) :
  find P (l ++ k) = match find P l with Some x => Some x | None => find P k end.
Proof. induction l as [|x l IH]; [done|]. cbn. by destruct (P x). Qed.

Lemma find_ext P Q (l : list A) : (forall x, P x = Q x) -> find P l = find Q l.
Proof. intros H. induction l as [|x l IH]; [done|]. cbn. by rewrite H, IH. Qed.

Lemma find_row {B} (P : B * A -> bool) (i : B) (l : list A) :
  find P (j ← l; [(i, j)]) =
  match find (fun j => P (i, j)) l with Some j => Some (i, j) | None => None end.
Proof. induction l as [|x l IH]; [done|]. cbn. rewrite IH. by destruct (P (i, x)). Qed.
End find.

(** The unique index that satisfies a test is found. *)
Lemma find_unique (P : nat -> bool) l i :
  In i l -> P i = true -> (forall j, In j l -> j <> i -> P j = false) -> find P l = Some i.
Proof.
  intros Hin Hi Hj. destruct (find P l) as [k|] eqn:E.
  - apply find_some in E as [Hk Pk]. f_equal. destruct (Nat.eq_dec k i); [done|].
    by rewrite (Hj k) in Pk.
  - by rewrite (find_none _ _ E i Hin) in Hi.
Qed.

(** ** Power-of-two sizes *)

Lemma is_pow2_spec c : is_u 32 c -> negb (c =? 0) && (Z.land c (u32 (c - 1)) =? 0) = true -> exists k, 0 <= k <= 31 /\ c = 2 ^ k.
Proof.
  unfold is_u. intros Hc H. apply andb_true_iff in H as [H0 H1].
  apply negb_true_iff, Z.eqb_neq in H0. apply Z.eqb_eq in H1. rewrite u32_small in H1 by lia.
  pose proof (Z.log2_spec c ltac:(lia)) as Hl. pose proof (Z.log2_nonneg c) as Hn. set (k := Z.log2 c) in *.
  assert (Hk : k <= 31).
  { destruct (Z.le_gt_cases k 31); [done|]. assert (2 ^ 32 <= 2 ^ k) by (apply Z.pow_le_mono_r; lia). lia. }
  exists k. split; [lia|]. destruct (Z.eq_dec c (2 ^ k)) as [|Hne]; [done|exfalso].
  assert (Hb : Z.testbit (Z.land c (c - 1)) k = true).
  { rewrite Z.land_spec. rewrite Z.pow_succ_r in Hl by lia.
    assert (Ht : forall x, 2 ^ k <= x < 2 * 2 ^ k -> Z.testbit x k = true).
    { intros x Hx. rewrite Z.testbit_true by lia. replace (x / 2 ^ k) with 1; [done|]. apply Z.div_unique with (r := x - 2 ^ k); lia. }
    rewrite !Ht by lia. done. }
  by rewrite H1, Z.bits_0 in Hb.
Qed.

Lemma land_mask x k : 0 <= k -> Z.land x (2 ^ k - 1) = x mod 2 ^ k.
Proof. intros Hk. replace (2 ^ k - 1) with (Z.ones k) by (rewrite Z.ones_equiv; lia). by apply Z.land_ones. Qed.

Lemma u32_mod_pow2 x k : 0 <= k <= 31 -> u32 x mod 2 ^ k = x mod 2 ^ k.
Proof.
  intros Hk. unfold u32. apply Z.mod_mod_divide. exists (2 ^ (32 - k)). rewrite <- Z.pow_add_r by lia. f_equal. lia.
Qed.

(** An index of a ring advanced by at most its size. *)
Lemma wrap_mod n h d : 0 <= h < n -> 0 <= d <= n -> (h + d) mod n = if h + d <? n then h + d else h + d - n.
Proof.
  intros Hh Hd. destruct (Z.ltb_spec (h + d) n); [apply Z.mod_small; lia|].
  symmetry. apply Z.mod_unique with (q := 1); lia.
Qed.
