(* ===== verification/Gf2.v ===== *)
(** Polynomials over GF(2) as shift registers.

    The frame codes of the program (BCH words, both CRC-16 variants) are all
    remainders of GF(2) polynomials.  This file holds the common reference
    definition, a shift register clocked one bit at a time ([lfsr]), and the
    two facts every client needs: the register is linear in its input, and a
    word whose value is below [2 ^ d] is its own remainder. *)

From S2P Require Import Prelude.

(** Value of a bit string, most significant bit first. *)
Definition val (bs : list bool) : Z := fold_left (fun v b => 2 * v + Z.b2z b) bs 0.

(** One clock of the register of a degree-[d] polynomial [g] (whose bit [d]
    is set): shift the next bit in, subtract [g] when bit [d] appears. *)
Definition lfsr_step (g : Z) (d : nat) (r : Z) (b : bool) : Z :=
  let r' := 2 * r + Z.b2z b in
  if Z.testbit r' (Z.of_nat d) then Z.lxor r' g else r'.

Definition lfsr (g : Z) (d : nat) (r : Z) (bs : list bool) : Z :=
  fold_left (lfsr_step g d) bs r.

(** Pointwise exclusive or of two words. *)
Definition xorl (a b : list bool) : list bool := zip_with xorb a b.

(** The word of length [n] whose only set bit is at index [i]. *)
Definition unit_word (n i : nat) : list bool := <[i := true]> (replicate n false).

(** ** Values *)

Section val.
Implicit Types (bs : list bool).

Lemma val_from v bs :
  fold_left (fun v b => 2 * v + Z.b2z b) bs v = v * 2 ^ Z.of_nat (length bs) + val bs.
Proof.
  unfold val. revert v. induction bs as [|b bs IH]; intros v; simpl fold_left.
  - simpl length. lia.
  - rewrite IH. cbn [fold_left]. rewrite (IH (2 * 0 + Z.b2z b)). simpl length.
    rewrite Nat2Z.inj_succ, Z.pow_succ_r by lia. ring.
Qed.

Lemma val_app a b : val (a ++ b) = val a * 2 ^ Z.of_nat (length b) + val b.
Proof. unfold val at 1. rewrite fold_left_app. apply val_from. Qed.

Lemma val_cons x b : val (x :: b) = Z.b2z x * 2 ^ Z.of_nat (length b) + val b.
Proof. apply (val_app [x] b). Qed.

Lemma val_bound bs : 0 <= val bs < 2 ^ Z.of_nat (length bs).
Proof.
  induction bs as [|x bs IH]; [done|].
  rewrite val_cons. simpl length. rewrite Nat2Z.inj_succ, Z.pow_succ_r by lia.
  destruct x; cbn [Z.b2z]; lia.
Qed.

Lemma val_falses n : val (replicate n false) = 0.
Proof. induction n as [|n IH]; [done|]. simpl replicate. by rewrite val_cons, IH. Qed.

(** A nonzero value shows where its leading one is. *)
Lemma val_leading bs :
  val bs <> 0 ->
  exists z s, bs = replicate z false ++ true :: s.
Proof.
  induction bs as [|b bs IH]; [done|]. rewrite val_cons. intros Hv.
  destruct b.
  - exists 0%nat, bs. done.
  - destruct IH as (z & s & ->); [simpl in Hv; lia|].
    exists (S z), s. done.
Qed.
End val.

(** Bit [i] of a value is the [i]-th bit from the end. *)
Lemma val_testbit bs i :
  (i < length bs)%nat ->
  Z.testbit (val bs) (Z.of_nat i) = nth (length bs - 1 - i) bs false.
Proof.
  revert i. induction bs as [|b bs IH] using rev_ind; intros i Hi; [cbn in Hi; lia|].
  rewrite length_app in *. cbn [length] in *. rewrite val_app.
  change (2 ^ Z.of_nat (length [b])) with 2. change (val [b]) with (Z.b2z b).
  rewrite Z.mul_comm. destruct i as [|i].
  - rewrite app_nth2 by lia. replace (_ - _ - _ - _)%nat with 0%nat by lia. cbn [nth].
    apply Z.testbit_0_r.
  - rewrite Nat2Z.inj_succ, Z.testbit_succ_r, IH by lia. rewrite app_nth1 by lia. f_equal. lia.
Qed.

Lemma xorl_falses_r a n : length a = n -> xorl a (replicate n false) = a.
Proof. intros <-. unfold xorl. induction a as [|x a IH]; [done|]. cbn. by rewrite IH, xorb_false_r. Qed.

Lemma xorl_falses_l a n : length a = n -> xorl (replicate n false) a = a.
Proof. intros <-. unfold xorl. induction a as [|x a IH]; [done|]. cbn. by rewrite IH. Qed.

(** ** Linearity *)

Lemma double_lxor r s b c :
  2 * Z.lxor r s + Z.b2z (xorb b c) = Z.lxor (2 * r + Z.b2z b) (2 * s + Z.b2z c).
Proof.
  apply Z.bits_inj'. intros n Hn.
  destruct (Z.eq_dec n 0) as [->|Hn0].
  - rewrite Z.lxor_spec, !Z.testbit_0_r. done.
  - replace n with (Z.succ (n - 1)) by lia.
    rewrite Z.lxor_spec, !Z.testbit_succ_r by lia. by rewrite Z.lxor_spec.
Qed.

Section lfsr.
Context (g : Z) (d : nat).

Lemma lfsr_step_lxor r s b c :
  lfsr_step g d (Z.lxor r s) (xorb b c) = Z.lxor (lfsr_step g d r b) (lfsr_step g d s c).
Proof.
  unfold lfsr_step. rewrite double_lxor, Z.lxor_spec.
  set (x := 2 * r + Z.b2z b). set (y := 2 * s + Z.b2z c).
  destruct (Z.testbit x (Z.of_nat d)), (Z.testbit y (Z.of_nat d)); cbn [xorb].
  - rewrite <- Z.lxor_assoc, (Z.lxor_assoc x g y), (Z.lxor_comm g y).
    by rewrite <- Z.lxor_assoc, Z.lxor_assoc, Z.lxor_nilpotent, Z.lxor_0_r.
  - by rewrite Z.lxor_assoc, (Z.lxor_comm y g), <- Z.lxor_assoc.
  - by rewrite Z.lxor_assoc.
  - done.
Qed.

Lemma lfsr_app r a b : lfsr g d r (a ++ b) = lfsr g d (lfsr g d r a) b.
Proof. apply fold_left_app. Qed.

Lemma lfsr_xorl r s a b :
  length a = length b ->
  lfsr g d (Z.lxor r s) (xorl a b) = Z.lxor (lfsr g d r a) (lfsr g d s b).
Proof.
  unfold lfsr, xorl. revert r s b.
  induction a as [|x a IH]; intros r s [|y b] Hl; try done.
  cbn [zip_with fold_left]. rewrite lfsr_step_lxor. apply IH. naive_solver.
Qed.

(** The remainder map is linear. *)
Lemma lfsr_linear a b :
  length a = length b ->
  lfsr g d 0 (xorl a b) = Z.lxor (lfsr g d 0 a) (lfsr g d 0 b).
Proof. intros. by rewrite <- lfsr_xorl. Qed.

(** Below [2 ^ d] nothing is subtracted. *)
Lemma lfsr_small r bs :
  0 <= r -> r * 2 ^ Z.of_nat (length bs) + val bs < 2 ^ Z.of_nat d ->
  lfsr g d r bs = r * 2 ^ Z.of_nat (length bs) + val bs.
Proof.
  unfold lfsr. revert r. induction bs as [|b bs IH]; intros r Hr Hlt.
  - cbn in *. lia.
  - cbn [fold_left length]. rewrite val_cons in *. cbn [length] in *.
    rewrite Nat2Z.inj_succ, Z.pow_succ_r in * by lia.
    pose proof (val_bound bs). pose proof (b2z_range b).
    assert (Hst : lfsr_step g d r b = 2 * r + Z.b2z b).
    { unfold lfsr_step. rewrite (testbit_high (Z.of_nat d)); [done| |lia]. nia. }
    rewrite Hst, IH; [ring|lia|nia].
Qed.

Hypothesis Hg : 2 ^ Z.of_nat d <= g < 2 ^ (Z.of_nat d + 1).

Lemma lfsr_step_bound r b :
  0 <= r < 2 ^ Z.of_nat d -> 0 <= lfsr_step g d r b < 2 ^ Z.of_nat d.
Proof.
  intros Hr. unfold lfsr_step. pose proof (b2z_range b).
  set (x := 2 * r + Z.b2z b).
  assert (Hx : 0 <= x < 2 ^ (Z.of_nat d + 1)).
  { rewrite Z.pow_add_r by lia. subst x. lia. }
  destruct (Z.testbit x (Z.of_nat d)) eqn:E.
  - apply bound_of_testbit; [lia|apply Z.lxor_nonneg; lia|].
    intros i Hi. rewrite Z.lxor_spec.
    destruct (Z.eq_dec i (Z.of_nat d)) as [->|].
    + rewrite E. by rewrite (testbit_top g d).
    + by rewrite !(testbit_high (Z.of_nat d + 1)) by lia.
  - apply bound_of_testbit; [lia|lia|].
    intros i Hi. destruct (Z.eq_dec i (Z.of_nat d)) as [->|]; [done|].
    by rewrite (testbit_high (Z.of_nat d + 1)) by lia.
Qed.

(** A remainder has degree below [d]. *)
Lemma lfsr_bound r bs :
  0 <= r < 2 ^ Z.of_nat d -> 0 <= lfsr g d r bs < 2 ^ Z.of_nat d.
Proof.
  unfold lfsr. revert r. induction bs as [|b bs IH]; intros r Hr; [done|].
  cbn [fold_left]. by apply IH, lfsr_step_bound.
Qed.
End lfsr.
