(* ===== verification/Bits.v ===== *)
(** Bit arrays: interleaving, packing and unpacking.

    The decoders work on 0/1-per-byte arrays.  Three families of loops recur in
    src/common/iridium_decoder: pair swaps, de-interleavers that walk 2-bit
    symbols downwards, and MSB-first packing.  Every de-interleaver is shown to
    be a [gather] along a fixed index list, every inverse a [scatter], so that
    facts about them reduce to facts about index lists. *)

From S2P Require Import Prelude Gf2.

(** ** Loops over symbols *)

(** The values of [s] in [for (s = start; s >= 0; s -= k)]. *)
Definition down_by (k start : nat) : list nat :=
  map (fun i => (start - k * i)%nat) (seq 0 (S (start / k))).

(** [out[idx++] = in[2s+1] & 1; out[idx++] = in[2s] & 1] for each [s]. *)
Definition take_symbols (l : list Z) (ss : list nat) : list Z :=
  flat_map (fun s => [bit (rd l (2 * s + 1)); bit (rd l (2 * s))]) ss.

(** ** Gather and scatter *)

Definition gather (l : list Z) (idx : list nat) : list Z := map (fun i => bit (rd l i)) idx.

Definition symbol_idx (ss : list nat) : list nat :=
  flat_map (fun s => [(2 * s + 1)%nat; (2 * s)%nat]) ss.

(** [a[i] = v] for each pair in turn. *)
Definition scatter (a : list Z) (ivs : list (nat * Z)) : list Z :=
  fold_left (fun a '(i, v) => <[i := v]> a) ivs a.

Definition is_bits : list Z -> Prop := Forall (fun x => x = 0 \/ x = 1).

Lemma take_symbols_gather l ss : take_symbols l ss = gather l (symbol_idx ss).
Proof.
  induction ss as [|s ss IH]; [done|].
  change (take_symbols l (s :: ss)) with
    ([bit (rd l (2 * s + 1)); bit (rd l (2 * s))] ++ take_symbols l ss).
  by rewrite IH.
Qed.

Lemma gather_app l i j : gather l (i ++ j) = gather l i ++ gather l j.
Proof. apply map_app. Qed.

Lemma gather_slice l idx o n : slice (gather l idx) o n = gather l (slice idx o n).
Proof. unfold slice, gather. by rewrite skipn_map, firstn_map. Qed.

Lemma length_gather l idx : length (gather l idx) = length idx.
Proof. apply length_map. Qed.

Lemma bit_01 x : bit x = 0 \/ bit x = 1.
Proof. rewrite bit_odd. destruct (Z.odd x); cbn; lia. Qed.

Lemma bit_bit x : x = 0 \/ x = 1 -> bit x = x.
Proof. by intros [-> | ->]. Qed.

Lemma gather_bits l idx : is_bits (gather l idx).
Proof. apply Forall_map, Forall_true. intros. apply bit_01. Qed.

Lemma rd_bits l i : is_bits l -> rd l i = 0 \/ rd l i = 1.
Proof.
  intros H. unfold rd. rewrite nth_lookup. destruct (l !! i) as [x|] eqn:E; [|by left].
  exact (Forall_lookup_1 _ _ _ _ H E).
Qed.

Lemma rd_gather l idx k : (k < length idx)%nat ->
  rd (gather l idx) k = bit (rd l (nth k idx 0%nat)).
Proof.
  intros Hk. unfold rd at 1, gather.
  rewrite (nth_indep _ 0 (bit (rd l 0%nat))) by (by rewrite length_map).
  apply (map_nth (fun i => bit (rd l i))).
Qed.

Lemma is_bits_map_bit l : is_bits l -> map bit l = l.
Proof. induction 1 as [|x l Hx _ IH]; [done|]. cbn. by rewrite IH, bit_bit. Qed.

(** Two arrays with equal length and equal elements. *)
Lemma rd_ext (a b : list Z) :
  length a = length b -> (forall i, (i < length a)%nat -> rd a i = rd b i) -> a = b.
Proof.
  intros Hl H. apply (nth_ext a b 0 0 Hl H).
Qed.

Lemma length_scatter a ivs : length (scatter a ivs) = length a.
Proof.
  unfold scatter. revert a. induction ivs as [|[i v] ivs IH]; intros a; [done|].
  cbn [fold_left]. by rewrite IH, length_insert.
Qed.

Lemma rd_insert (l : list Z) i j v :
  rd (<[i := v]> l) j = if decide (i = j /\ (j < length l)%nat) then v else rd l j.
Proof.
  unfold rd. rewrite !nth_lookup. case_decide as H.
  - destruct H as [-> H]. by rewrite list_lookup_insert_eq.
  - destruct (decide (i = j)) as [->|]; [|by rewrite list_lookup_insert_ne].
    rewrite list_insert_ge; [done|]. lia.
Qed.

Lemma rd_scatter_ne a ivs j : ~ In j (map fst ivs) -> rd (scatter a ivs) j = rd a j.
Proof.
  unfold scatter. revert a. induction ivs as [|[i v] ivs IH]; intros a Hj; [done|].
  cbn [fold_left]. rewrite IH by (intros H; apply Hj; by right).
  rewrite rd_insert, decide_False; [done|]. intros [-> _]. apply Hj. by left.
Qed.

(** Scattering values to distinct in-range places and gathering them again. *)
Lemma gather_scatter a idx vs :
  List.NoDup idx -> length idx = length vs -> Forall (fun i => (i < length a)%nat) idx ->
  gather (scatter a (zip idx vs)) idx = map bit vs.
Proof.
  intros Hnd. revert a vs. induction Hnd as [|i idx Hi Hnd IH]; intros a [|v vs] Hl Hb; try done.
  apply Forall_cons_1 in Hb as [Hb1 Hb]. cbn [gather map]. f_equal.
  - f_equal. change (scatter a (zip (i :: idx) (v :: vs))) with (scatter (<[i:=v]> a) (zip idx vs)).
    rewrite rd_scatter_ne; [by rewrite rd_insert, decide_True|].
    intros H. apply Hi. apply in_map_iff in H as ([x y] & <- & H). exact (in_combine_l _ _ _ _ H).
  - apply (IH (<[i:=v]> a)); [naive_solver|by rewrite length_insert].
Qed.

Lemma scatter_app a x y : scatter a (x ++ y) = scatter (scatter a x) y.
Proof. apply fold_left_app. Qed.

Lemma zip_app {A B} (a1 a2 : list A) (b1 b2 : list B) :
  length a1 = length b1 -> zip (a1 ++ a2) (b1 ++ b2) = zip a1 b1 ++ zip a2 b2.
Proof.
  revert b1. induction a1 as [|x a1 IH]; intros [|y b1] H; try done. cbn. f_equal. apply IH.
  naive_solver.
Qed.

(** ** Pair swap

    [for (i = 0; i + 1 < n; i += 2) swap(bits[i], bits[i+1])] *)

Fixpoint pair_swap (bits : list Z) : list Z :=
  match bits with
  | a :: b :: bits => b :: a :: pair_swap bits
  | bits => bits
  end.

(** Two-step induction. *)
Lemma list_ind2 {A} (P : list A -> Prop) :
  P [] -> (forall a, P [a]) -> (forall a b l, P l -> P (a :: b :: l)) -> forall l, P l.
Proof.
  intros H0 H1 H2. assert (H : forall l, P l /\ forall a, P (a :: l)); [|apply H].
  induction l as [|x l [IH1 IH2]]; split; eauto.
Qed.

Lemma pair_swap_involutive l : pair_swap (pair_swap l) = l.
Proof. induction l as [|a|a b l IH] using list_ind2; [done..|]. cbn. by rewrite IH. Qed.

Lemma length_pair_swap l : length (pair_swap l) = length l.
Proof. induction l as [|a|a b l IH] using list_ind2; [done..|]. cbn. by rewrite IH. Qed.

Lemma pair_swap_bits l : is_bits l -> is_bits (pair_swap l).
Proof.
  unfold is_bits. induction l as [|a|a b l IH] using list_ind2; [done..|]. cbn.
  intros [Ha [Hb Hl]%Forall_cons_1]%Forall_cons_1. auto using Forall_cons_2.
Qed.

Lemma pair_swap_app a b : Nat.even (length a) = true ->
  pair_swap (a ++ b) = pair_swap a ++ pair_swap b.
Proof.
  induction a as [|x|x y a IH] using list_ind2; [done..|]. cbn. intros H. by rewrite IH.
Qed.

(** Where index [i] of a swapped array of even length comes from. *)
Definition swap_idx (i : nat) : nat := if Nat.even i then S i else Nat.pred i.

Lemma rd_pair_swap l i :
  Nat.even (length l) = true -> rd (pair_swap l) i = rd l (swap_idx i).
Proof.
  revert i. induction l as [|a|a b l IH] using list_ind2; intros i Hl; [..|].
  - unfold rd. cbn. by destruct i, (swap_idx _).
  - done.
  - destruct i as [|[|i]]; [done..|]. change (rd (pair_swap (a :: b :: l)) (S (S i)))
      with (rd (pair_swap l) i). rewrite IH by done.
    unfold swap_idx. cbn [Nat.even]. destruct (Nat.even i) eqn:E; [done|].
    destruct i as [|i]; [done|]. done.
Qed.

(** ** MSB-first packing *)

(** [v = (v << 1) | (b[off + k] & 1)], [n] rounds on a [uint32_t]. *)
Definition packbits (b : list Z) (off n : nat) : Z :=
  forN n (fun k v => u32 (Z.lor (Z.shiftl v 1) (bit (rd b (off + k))))) 0.

Definition odds (l : list Z) : list bool := map Z.odd l.

Lemma packbits_val b off n :
  (n <= 32)%nat -> (off + n <= length b)%nat -> packbits b off n = val (odds (slice b off n)).
Proof.
  intros Hn Hl. unfold packbits.
  apply (forN_inv (fun i v => v = val (odds (slice b off i)))); [done|].
  intros i v Hi ->.
  assert (E : slice b off (S i) = slice b off i ++ [rd b (off + i)]).
  { unfold slice. destruct (lookup_lt_is_Some_2 b (off + i) ltac:(lia)) as [x Hx].
    rewrite (take_S_r _ _ x) by (by rewrite lookup_drop). unfold rd. by rewrite nth_lookup, Hx. }
  rewrite E. unfold odds. rewrite map_app, val_app. cbn [map length].
  rewrite lor_shiftl1_bit. pose proof (val_bound (map Z.odd (slice b off i))) as Hb.
  rewrite length_map, length_slice in Hb by lia.
  pose proof (b2z_range (Z.odd (rd b (off + i)))).
  assert (2 ^ Z.of_nat i <= 2 ^ 31) by (apply Z.pow_le_mono_r; lia).
  unfold u32. rewrite Z.mod_small by lia. cbn. lia.
Qed.

Lemma packbits_range b off n :
  (n <= 32)%nat -> (off + n <= length b)%nat -> 0 <= packbits b off n < 2 ^ Z.of_nat n.
Proof.
  intros Hn Hl. rewrite packbits_val by done.
  pose proof (val_bound (odds (slice b off n))) as H. unfold odds in H at 3.
  by rewrite length_map, length_slice in H.
Qed.

(** The [n] low bits of [v], most significant first: the inverse loops'
    [out[k] = (v >> (n - 1 - k)) & 1]. *)
Definition unpack (n : nat) (v : Z) : list Z :=
  map (fun k => bit (Z.shiftr v (Z.of_nat n - 1 - Z.of_nat k))) (seq 0 n).

Lemma length_unpack n v : length (unpack n v) = n.
Proof. unfold unpack. by rewrite length_map, length_seq. Qed.

Lemma unpack_bits n v : is_bits (unpack n v).
Proof. apply Forall_map, Forall_true. intros. apply bit_01. Qed.

Lemma odd_bit x : Z.odd (bit x) = Z.odd x.
Proof. rewrite bit_odd. by destruct (Z.odd x). Qed.

Lemma unpack_S n v : unpack (S n) v = unpack n (Z.shiftr v 1) ++ [bit v].
Proof.
  unfold unpack. rewrite seq_S, map_app. cbn [map]. f_equal.
  - apply map_ext_in. intros k Hk. apply in_seq in Hk.
    rewrite Z.shiftr_shiftr by lia. do 2 f_equal. lia.
  - f_equal. f_equal. replace (_ - _ - _) with 0 by lia. apply Z.shiftr_0_r.
Qed.

Lemma val_unpack n v : 0 <= v < 2 ^ Z.of_nat n -> val (odds (unpack n v)) = v.
Proof.
  revert v. induction n as [|n IH]; intros v Hv; [cbn in *; lia|].
  rewrite unpack_S. unfold odds. rewrite map_app, val_app.
  rewrite Nat2Z.inj_succ, Z.pow_succ_r in Hv by lia.
  change (map Z.odd (unpack n (Z.shiftr v 1))) with (odds (unpack n (Z.shiftr v 1))).
  rewrite IH by (rewrite Z.shiftr_div_pow2 by lia; lia).
  cbn [map length]. rewrite odd_bit, Z.shiftr_div_pow2 by lia.
  change (val [Z.odd v]) with (Z.b2z (Z.odd v)). pose proof (Zmod_odd v) as Hm.
  change (2 ^ Z.of_nat 1) with 2. change (2 ^ 1) with 2. destruct (Z.odd v); cbn [Z.b2z]; lia.
Qed.

Lemma packbits_unpack pre n v post :
  (n <= 32)%nat -> 0 <= v < 2 ^ Z.of_nat n ->
  packbits (pre ++ unpack n v ++ post) (length pre) n = v.
Proof.
  intros Hn Hv. rewrite packbits_val; [|done|rewrite !length_app, length_unpack; lia].
  rewrite <- (val_unpack n v) at 2 by done. do 2 f_equal.
  unfold slice. rewrite drop_app_length, take_app_length'; [done|by rewrite length_unpack].
Qed.
