(* ===== verification/Crc16.v ===== *)
(** CRC-16 (src/common/iridium_decoder/crc16.c).

    The two byte-wise, table-driven checksums of the program: CCITT-FALSE
    (LW.DA payloads and the SPI wire frames) and X-25 (the AVLC frame check).
    The tables are the source's literals.  The theorems relate each routine to
    the bit-serial register that the source's comments give as the origin of
    its table, prove the receive-side residues, and bound the errors that the
    checksums are certain to detect. *)

From S2P Require Import Prelude Gf2.

(** ** Tables and routines *)

Definition crc16_ccitt_table : list Z :=
  [0x0000; 0x1021; 0x2042; 0x3063; 0x4084; 0x50A5; 0x60C6; 0x70E7;
   0x8108; 0x9129; 0xA14A; 0xB16B; 0xC18C; 0xD1AD; 0xE1CE; 0xF1EF;
   0x1231; 0x0210; 0x3273; 0x2252; 0x52B5; 0x4294; 0x72F7; 0x62D6;
   0x9339; 0x8318; 0xB37B; 0xA35A; 0xD3BD; 0xC39C; 0xF3FF; 0xE3DE;
   0x2462; 0x3443; 0x0420; 0x1401; 0x64E6; 0x74C7; 0x44A4; 0x5485;
   0xA56A; 0xB54B; 0x8528; 0x9509; 0xE5EE; 0xF5CF; 0xC5AC; 0xD58D;
   0x3653; 0x2672; 0x1611; 0x0630; 0x76D7; 0x66F6; 0x5695; 0x46B4;
   0xB75B; 0xA77A; 0x9719; 0x8738; 0xF7DF; 0xE7FE; 0xD79D; 0xC7BC;
   0x48C4; 0x58E5; 0x6886; 0x78A7; 0x0840; 0x1861; 0x2802; 0x3823;
   0xC9CC; 0xD9ED; 0xE98E; 0xF9AF; 0x8948; 0x9969; 0xA90A; 0xB92B;
   0x5AF5; 0x4AD4; 0x7AB7; 0x6A96; 0x1A71; 0x0A50; 0x3A33; 0x2A12;
   0xDBFD; 0xCBDC; 0xFBBF; 0xEB9E; 0x9B79; 0x8B58; 0xBB3B; 0xAB1A;
   0x6CA6; 0x7C87; 0x4CE4; 0x5CC5; 0x2C22; 0x3C03; 0x0C60; 0x1C41;
   0xEDAE; 0xFD8F; 0xCDEC; 0xDDCD; 0xAD2A; 0xBD0B; 0x8D68; 0x9D49;
   0x7E97; 0x6EB6; 0x5ED5; 0x4EF4; 0x3E13; 0x2E32; 0x1E51; 0x0E70;
   0xFF9F; 0xEFBE; 0xDFDD; 0xCFFC; 0xBF1B; 0xAF3A; 0x9F59; 0x8F78;
   0x9188; 0x81A9; 0xB1CA; 0xA1EB; 0xD10C; 0xC12D; 0xF14E; 0xE16F;
   0x1080; 0x00A1; 0x30C2; 0x20E3; 0x5004; 0x4025; 0x7046; 0x6067;
   0x83B9; 0x9398; 0xA3FB; 0xB3DA; 0xC33D; 0xD31C; 0xE37F; 0xF35E;
   0x02B1; 0x1290; 0x22F3; 0x32D2; 0x4235; 0x5214; 0x6277; 0x7256;
   0xB5EA; 0xA5CB; 0x95A8; 0x8589; 0xF56E; 0xE54F; 0xD52C; 0xC50D;
   0x34E2; 0x24C3; 0x14A0; 0x0481; 0x7466; 0x6447; 0x5424; 0x4405;
   0xA7DB; 0xB7FA; 0x8799; 0x97B8; 0xE75F; 0xF77E; 0xC71D; 0xD73C;
   0x26D3; 0x36F2; 0x0691; 0x16B0; 0x6657; 0x7676; 0x4615; 0x5634;
   0xD94C; 0xC96D; 0xF90E; 0xE92F; 0x99C8; 0x89E9; 0xB98A; 0xA9AB;
   0x5844; 0x4865; 0x7806; 0x6827; 0x18C0; 0x08E1; 0x3882; 0x28A3;
   0xCB7D; 0xDB5C; 0xEB3F; 0xFB1E; 0x8BF9; 0x9BD8; 0xABBB; 0xBB9A;
   0x4A75; 0x5A54; 0x6A37; 0x7A16; 0x0AF1; 0x1AD0; 0x2AB3; 0x3A92;
   0xFD2E; 0xED0F; 0xDD6C; 0xCD4D; 0xBDAA; 0xAD8B; 0x9DE8; 0x8DC9;
   0x7C26; 0x6C07; 0x5C64; 0x4C45; 0x3CA2; 0x2C83; 0x1CE0; 0x0CC1;
   0xEF1F; 0xFF3E; 0xCF5D; 0xDF7C; 0xAF9B; 0xBFBA; 0x8FD9; 0x9FF8;
   0x6E17; 0x7E36; 0x4E55; 0x5E74; 0x2E93; 0x3EB2; 0x0ED1; 0x1EF0].

Definition crc16_ccitt_step (crc d : Z) : Z :=
  u16 (Z.lxor (Z.shiftl crc 8)
              (rd crc16_ccitt_table (Z.to_nat (Z.land (Z.lxor (Z.shiftr crc 8) d) 0xFF)))).

Definition crc16_ccitt_false (data : list Z) : Z :=
  fold_left crc16_ccitt_step data 0xFFFF.

Definition crc16_x25_table : list Z :=
  [0x0000; 0x1189; 0x2312; 0x329B; 0x4624; 0x57AD; 0x6536; 0x74BF;
   0x8C48; 0x9DC1; 0xAF5A; 0xBED3; 0xCA6C; 0xDBE5; 0xE97E; 0xF8F7;
   0x1081; 0x0108; 0x3393; 0x221A; 0x56A5; 0x472C; 0x75B7; 0x643E;
   0x9CC9; 0x8D40; 0xBFDB; 0xAE52; 0xDAED; 0xCB64; 0xF9FF; 0xE876;
   0x2102; 0x308B; 0x0210; 0x1399; 0x6726; 0x76AF; 0x4434; 0x55BD;
   0xAD4A; 0xBCC3; 0x8E58; 0x9FD1; 0xEB6E; 0xFAE7; 0xC87C; 0xD9F5;
   0x3183; 0x200A; 0x1291; 0x0318; 0x77A7; 0x662E; 0x54B5; 0x453C;
   0xBDCB; 0xAC42; 0x9ED9; 0x8F50; 0xFBEF; 0xEA66; 0xD8FD; 0xC974;
   0x4204; 0x538D; 0x6116; 0x709F; 0x0420; 0x15A9; 0x2732; 0x36BB;
   0xCE4C; 0xDFC5; 0xED5E; 0xFCD7; 0x8868; 0x99E1; 0xAB7A; 0xBAF3;
   0x5285; 0x430C; 0x7197; 0x601E; 0x14A1; 0x0528; 0x37B3; 0x263A;
   0xDECD; 0xCF44; 0xFDDF; 0xEC56; 0x98E9; 0x8960; 0xBBFB; 0xAA72;
   0x6306; 0x728F; 0x4014; 0x519D; 0x2522; 0x34AB; 0x0630; 0x17B9;
   0xEF4E; 0xFEC7; 0xCC5C; 0xDDD5; 0xA96A; 0xB8E3; 0x8A78; 0x9BF1;
   0x7387; 0x620E; 0x5095; 0x411C; 0x35A3; 0x242A; 0x16B1; 0x0738;
   0xFFCF; 0xEE46; 0xDCDD; 0xCD54; 0xB9EB; 0xA862; 0x9AF9; 0x8B70;
   0x8408; 0x9581; 0xA71A; 0xB693; 0xC22C; 0xD3A5; 0xE13E; 0xF0B7;
   0x0840; 0x19C9; 0x2B52; 0x3ADB; 0x4E64; 0x5FED; 0x6D76; 0x7CFF;
   0x9489; 0x8500; 0xB79B; 0xA612; 0xD2AD; 0xC324; 0xF1BF; 0xE036;
   0x18C1; 0x0948; 0x3BD3; 0x2A5A; 0x5EE5; 0x4F6C; 0x7DF7; 0x6C7E;
   0xA50A; 0xB483; 0x8618; 0x9791; 0xE32E; 0xF2A7; 0xC03C; 0xD1B5;
   0x2942; 0x38CB; 0x0A50; 0x1BD9; 0x6F66; 0x7EEF; 0x4C74; 0x5DFD;
   0xB58B; 0xA402; 0x9699; 0x8710; 0xF3AF; 0xE226; 0xD0BD; 0xC134;
   0x39C3; 0x284A; 0x1AD1; 0x0B58; 0x7FE7; 0x6E6E; 0x5CF5; 0x4D7C;
   0xC60C; 0xD785; 0xE51E; 0xF497; 0x8028; 0x91A1; 0xA33A; 0xB2B3;
   0x4A44; 0x5BCD; 0x6956; 0x78DF; 0x0C60; 0x1DE9; 0x2F72; 0x3EFB;
   0xD68D; 0xC704; 0xF59F; 0xE416; 0x90A9; 0x8120; 0xB3BB; 0xA232;
   0x5AC5; 0x4B4C; 0x79D7; 0x685E; 0x1CE1; 0x0D68; 0x3FF3; 0x2E7A;
   0xE70E; 0xF687; 0xC41C; 0xD595; 0xA12A; 0xB0A3; 0x8238; 0x93B1;
   0x6B46; 0x7ACF; 0x4854; 0x59DD; 0x2D62; 0x3CEB; 0x0E70; 0x1FF9;
   0xF78F; 0xE606; 0xD49D; 0xC514; 0xB1AB; 0xA022; 0x92B9; 0x8330;
   0x7BC7; 0x6A4E; 0x58D5; 0x495C; 0x3DE3; 0x2C6A; 0x1EF1; 0x0F78].

Definition crc16_x25_step (crc d : Z) : Z :=
  u16 (Z.lxor (Z.shiftr crc 8)
              (rd crc16_x25_table (Z.to_nat (Z.land (Z.lxor crc d) 0xFF)))).

Definition crc16_x25_raw (data : list Z) : Z :=
  fold_left crc16_x25_step data 0xFFFF.

Definition crc16_x25 (data : list Z) : Z :=
  u16 (Z.lxor (crc16_x25_raw data) 0xFFFF).

Definition CRC16_X25_GOOD_RESIDUE : Z := 0xF0B8.

(** ** Bit-serial references

    The generating loops quoted in crc16.c, run on the whole message. *)

Definition ccitt_bit (c : Z) : Z :=
  if Z.testbit c 15 then u16 (Z.lxor (Z.shiftl c 1) 0x1021) else u16 (Z.shiftl c 1).
Definition ccitt_byte (c d : Z) : Z := Nat.iter 8 ccitt_bit (Z.lxor c (Z.shiftl d 8)).
Definition ccitt_serial (data : list Z) : Z := fold_left ccitt_byte data 0xFFFF.

Definition x25_bit (c : Z) : Z :=
  if Z.testbit c 0 then Z.lxor (Z.shiftr c 1) 0x8408 else Z.shiftr c 1.
Definition x25_byte (c d : Z) : Z := Nat.iter 8 x25_bit (Z.lxor c d).
Definition x25_serial (data : list Z) : Z := fold_left x25_byte data 0xFFFF.

(** ** Facts about the tables, by evaluation *)

Lemma ccitt_table_spec i : (i < 256)%nat ->
  rd crc16_ccitt_table i = Nat.iter 8 ccitt_bit (Z.shiftl (Z.of_nat i) 8).
Proof.
  revert i. apply (forall_below_eqb
    (fun i => rd crc16_ccitt_table i)
    (fun i => Nat.iter 8 ccitt_bit (Z.shiftl (Z.of_nat i) 8))). vm_compute. reflexivity.
Qed.

Lemma ccitt_low_spec i : (i < 256)%nat ->
  Nat.iter 8 ccitt_bit (Z.of_nat i) = Z.shiftl (Z.of_nat i) 8.
Proof.
  revert i. apply (forall_below_eqb
    (fun i => Nat.iter 8 ccitt_bit (Z.of_nat i))
    (fun i => Z.shiftl (Z.of_nat i) 8)). vm_compute. reflexivity.
Qed.

Lemma x25_table_spec i : (i < 256)%nat ->
  rd crc16_x25_table i = Nat.iter 8 x25_bit (Z.of_nat i).
Proof.
  revert i. apply (forall_below_eqb
    (fun i => rd crc16_x25_table i)
    (fun i => Nat.iter 8 x25_bit (Z.of_nat i))). vm_compute. reflexivity.
Qed.

Lemma x25_high_spec i : (i < 256)%nat ->
  Nat.iter 8 x25_bit (Z.shiftl (Z.of_nat i) 8) = Z.of_nat i.
Proof.
  revert i. apply (forall_below_eqb
    (fun i => Nat.iter 8 x25_bit (Z.shiftl (Z.of_nat i) 8))
    (fun i => Z.of_nat i)). vm_compute. reflexivity.
Qed.

(** The tables are injective, in their low (CCITT) and high (X-25) bytes
    already. *)
Definition inj_below (f : nat -> Z) (n : nat) : bool :=
  forallb (fun i => forallb (fun j => negb (f i =? f j) || (i =? j)%nat) (seq 0 n)) (seq 0 n).

Lemma inj_below_spec f n i j :
  inj_below f n = true -> (i < n)%nat -> (j < n)%nat -> f i = f j -> i = j.
Proof.
  intros H Hi Hj Hf. pose proof (forall_below _ _ (forall_below _ _ H i Hi) j Hj) as Hb.
  apply orb_prop in Hb as [Hb|Hb]; [|by apply Nat.eqb_eq].
  rewrite Hf, Z.eqb_refl in Hb. done.
Qed.

Lemma ccitt_table_low_inj i j : (i < 256)%nat -> (j < 256)%nat ->
  lo8 (rd crc16_ccitt_table i) = lo8 (rd crc16_ccitt_table j) -> i = j.
Proof.
  apply (inj_below_spec (fun i => lo8 (rd crc16_ccitt_table i)) 256).
  vm_compute. reflexivity.
Qed.

Lemma x25_table_high_inj i j : (i < 256)%nat -> (j < 256)%nat ->
  hi8 (rd crc16_x25_table i) = hi8 (rd crc16_x25_table j) -> i = j.
Proof.
  apply (inj_below_spec (fun i => hi8 (rd crc16_x25_table i)) 256).
  vm_compute. reflexivity.
Qed.

Lemma ccitt_table_u16 i : (i < 256)%nat -> is_u 16 (rd crc16_ccitt_table i).
Proof.
  intros Hi. pose proof (forall_below (fun i => let z := rd crc16_ccitt_table i in
    (0 <=? z) && (z <? 2 ^ 16)) 256 ltac:(vm_compute; reflexivity) i Hi) as H.
  unfold is_u. cbv beta zeta in H. lia.
Qed.

Lemma x25_table_u16 i : (i < 256)%nat -> is_u 16 (rd crc16_x25_table i).
Proof.
  intros Hi. pose proof (forall_below (fun i => let z := rd crc16_x25_table i in
    (0 <=? z) && (z <? 2 ^ 16)) 256 ltac:(vm_compute; reflexivity) i Hi) as H.
  unfold is_u. cbv beta zeta in H. lia.
Qed.

(** ** One table step is eight serial steps *)

Lemma byte_index z : is_byte z -> (Z.to_nat z < 256)%nat.
Proof. unfold is_u. lia. Qed.

Lemma ccitt_bit_lxor a b : ccitt_bit (Z.lxor a b) = Z.lxor (ccitt_bit a) (ccitt_bit b).
Proof.
  unfold ccitt_bit, u16. rewrite Z.lxor_spec, Z.shiftl_lxor.
  destruct (Z.testbit a 15), (Z.testbit b 15); cbn [xorb];
    rewrite !lxor_mod_pow2 by lia; apply Z.bits_inj'; intros i Hi;
    rewrite !Z.lxor_spec; repeat case_match; done || btauto.
Qed.

Lemma x25_bit_lxor a b : x25_bit (Z.lxor a b) = Z.lxor (x25_bit a) (x25_bit b).
Proof.
  unfold x25_bit. rewrite Z.lxor_spec, Z.shiftr_lxor.
  destruct (Z.testbit a 0), (Z.testbit b 0); cbn [xorb];
    apply Z.bits_inj'; intros i Hi; rewrite !Z.lxor_spec; btauto.
Qed.

Lemma iter_lxor f n a b :
  (forall a b, f (Z.lxor a b) = Z.lxor (f a) (f b)) ->
  Nat.iter n f (Z.lxor a b) = Z.lxor (Nat.iter n f a) (Nat.iter n f b).
Proof. intros Hf. induction n as [|n IH]; [done|]. by rewrite !Nat.iter_succ, IH, Hf. Qed.

(** Each step on a state [c] and a byte [d], in terms of the bytes of [c]. *)
Lemma ccitt_step_bytes c d : is_u 16 c -> is_byte d ->
  crc16_ccitt_step c d =
  Z.lxor (Z.shiftl (lo8 c) 8) (rd crc16_ccitt_table (Z.to_nat (Z.lxor (hi8 c) d))).
Proof.
  intros Hc Hd. unfold crc16_ccitt_step.
  assert (Hx : is_byte (Z.lxor (hi8 c) d)) by (apply is_u_lxor; [lia|by apply hi8_byte|done]).
  change (Z.shiftr c 8) with (hi8 c). rewrite land_255_byte by done.
  unfold u16. rewrite lxor_mod_pow2 by lia. f_equal.
  - apply Z.bits_inj'. intros i Hi. unfold lo8. change 0xFF with (Z.ones 8).
    rewrite <- Z.land_ones, Z.land_spec, !Z.shiftl_spec, Z.land_spec by lia.
    destruct (Z.lt_ge_cases i 16) as [H1|H1], (Z.lt_ge_cases i 8) as [H2|H2]; try lia.
    + by rewrite !Z.testbit_neg_r by lia.
    + by rewrite !Z.ones_spec_low by lia.
    + by rewrite !Z.ones_spec_high, !andb_false_r by lia.
  - apply Z.mod_small. by apply ccitt_table_u16, byte_index.
Qed.

Lemma x25_step_bytes c d : is_u 16 c -> is_byte d ->
  crc16_x25_step c d =
  Z.lxor (hi8 c) (rd crc16_x25_table (Z.to_nat (Z.lxor (lo8 c) d))).
Proof.
  intros Hc Hd. unfold crc16_x25_step. change (Z.shiftr c 8) with (hi8 c).
  assert (E : Z.land (Z.lxor c d) 0xFF = Z.lxor (lo8 c) d).
  { rewrite <- (land_255_byte d) at 2 by done. unfold lo8.
    apply Z.bits_inj'. intros i Hi. rewrite Z.land_spec, !Z.lxor_spec, !Z.land_spec. btauto. }
  rewrite E. apply Z.mod_small.
  assert (Hx : is_byte (Z.lxor (lo8 c) d)) by (apply is_u_lxor; [lia|apply lo8_byte|done]).
  apply is_u_lxor; [lia| |by apply x25_table_u16, byte_index].
  pose proof (hi8_byte c Hc). unfold is_u in *. lia.
Qed.

Lemma ccitt_step_serial c d : is_u 16 c -> is_byte d ->
  crc16_ccitt_step c d = ccitt_byte c d.
Proof.
  intros Hc Hd. rewrite ccitt_step_bytes by done. unfold ccitt_byte.
  assert (Hx : is_byte (Z.lxor (hi8 c) d)) by (apply is_u_lxor; [lia|by apply hi8_byte|done]).
  pose proof (lo8_byte c) as Hl.
  replace (Z.lxor c (Z.shiftl d 8))
    with (Z.lxor (lo8 c) (Z.shiftl (Z.lxor (hi8 c) d) 8)).
  2:{ rewrite <- (split8 c) at 3. rewrite Z.shiftl_lxor.
      apply Z.bits_inj'; intros i Hi; rewrite !Z.lxor_spec; btauto. }
  rewrite iter_lxor by apply ccitt_bit_lxor.
  rewrite <- (Z2Nat.id (lo8 c)) at 2 by (unfold is_u in *; lia).
  rewrite ccitt_low_spec by (by apply byte_index).
  rewrite <- (Z2Nat.id (Z.lxor (hi8 c) d)) at 2 by (unfold is_u in *; lia).
  rewrite <- ccitt_table_spec by (by apply byte_index).
  by rewrite Z2Nat.id by (unfold is_u in *; lia).
Qed.

Lemma x25_step_serial c d : is_u 16 c -> is_byte d ->
  crc16_x25_step c d = x25_byte c d.
Proof.
  intros Hc Hd. rewrite x25_step_bytes by done. unfold x25_byte.
  assert (Hx : is_byte (Z.lxor (lo8 c) d)) by (apply is_u_lxor; [lia|apply lo8_byte|done]).
  pose proof (hi8_byte c Hc) as Hh.
  replace (Z.lxor c d) with (Z.lxor (Z.shiftl (hi8 c) 8) (Z.lxor (lo8 c) d)).
  2:{ rewrite <- (split8 c) at 3. by rewrite Z.lxor_assoc. }
  rewrite iter_lxor by apply x25_bit_lxor.
  rewrite <- (Z2Nat.id (hi8 c)) at 2 by (unfold is_u in *; lia).
  rewrite x25_high_spec by (by apply byte_index).
  rewrite <- (Z2Nat.id (Z.lxor (lo8 c) d)) at 2 by (unfold is_u in *; lia).
  rewrite <- x25_table_spec by (by apply byte_index).
  by rewrite Z2Nat.id by (unfold is_u in *; lia).
Qed.

Lemma ccitt_step_u16 c d : is_u 16 (crc16_ccitt_step c d).
Proof. apply is_u_mod. lia. Qed.

Lemma x25_step_u16 c d : is_u 16 (crc16_x25_step c d).
Proof. apply is_u_mod. lia. Qed.

Lemma crc16_ccitt_u16 data : is_u 16 (crc16_ccitt_false data).
Proof.
  unfold crc16_ccitt_false. induction data as [|d data IH] using rev_ind.
  - unfold is_u; cbn; lia.
  - rewrite fold_left_app. apply ccitt_step_u16.
Qed.

Lemma crc16_x25_raw_u16 data : is_u 16 (crc16_x25_raw data).
Proof.
  unfold crc16_x25_raw. induction data as [|d data IH] using rev_ind.
  - unfold is_u; cbn; lia.
  - rewrite fold_left_app. apply x25_step_u16.
Qed.

(** A step is injective in the data byte and in the state. *)
Lemma ccitt_step_inj c c' d d' :
  is_u 16 c -> is_u 16 c' -> is_byte d -> is_byte d' ->
  crc16_ccitt_step c d = crc16_ccitt_step c' d' ->
  lo8 c = lo8 c' /\ Z.lxor (hi8 c) d = Z.lxor (hi8 c') d'.
Proof.
  intros Hc Hc' Hd Hd'. rewrite !ccitt_step_bytes by done. intros H.
  assert (Hx : is_byte (Z.lxor (hi8 c) d)) by (apply is_u_lxor; [lia|by apply hi8_byte|done]).
  assert (Hx' : is_byte (Z.lxor (hi8 c') d')) by (apply is_u_lxor; [lia|by apply hi8_byte|done]).
  assert (Hi : Z.to_nat (Z.lxor (hi8 c) d) = Z.to_nat (Z.lxor (hi8 c') d')).
  { apply ccitt_table_low_inj; [by apply byte_index|by apply byte_index|].
    apply (f_equal lo8) in H. by rewrite !lo8_lxor_shift in H. }
  rewrite Hi in H. split; [|by apply Z2Nat.inj; unfold is_u in *; lia].
  apply lxor_cancel_r in H. by apply shiftl_inj in H; [|lia].
Qed.

Lemma x25_step_inj c c' d d' :
  is_u 16 c -> is_u 16 c' -> is_byte d -> is_byte d' ->
  crc16_x25_step c d = crc16_x25_step c' d' ->
  hi8 c = hi8 c' /\ Z.lxor (lo8 c) d = Z.lxor (lo8 c') d'.
Proof.
  intros Hc Hc' Hd Hd'. rewrite !x25_step_bytes by done. intros H.
  assert (Hx : is_byte (Z.lxor (lo8 c) d)) by (apply is_u_lxor; [lia|apply lo8_byte|done]).
  assert (Hx' : is_byte (Z.lxor (lo8 c') d')) by (apply is_u_lxor; [lia|apply lo8_byte|done]).
  assert (Hi : Z.to_nat (Z.lxor (lo8 c) d) = Z.to_nat (Z.lxor (lo8 c') d')).
  { apply x25_table_high_inj; [by apply byte_index|by apply byte_index|].
    apply (f_equal hi8) in H. by rewrite !hi8_lxor_byte in H by (by apply hi8_byte). }
  rewrite Hi in H. split; [|by apply Z2Nat.inj; unfold is_u in *; lia].
  by apply lxor_cancel_r in H.
Qed.

Lemma fold_ccitt_inj data c c' :
  is_bytes data -> is_u 16 c -> is_u 16 c' ->
  fold_left crc16_ccitt_step data c = fold_left crc16_ccitt_step data c' -> c = c'.
Proof.
  intros Hdata. revert c c'. induction Hdata as [|d data Hd Hdata IH]; intros c c' Hc Hc' H; [done|].
  apply IH in H; [|apply ccitt_step_u16..].
  apply ccitt_step_inj in H as [Hl Hh]; [|done..].
  apply lxor_cancel_r in Hh. rewrite <- (split8 c), <- (split8 c'). by rewrite Hl, Hh.
Qed.

Lemma fold_x25_inj data c c' :
  is_bytes data -> is_u 16 c -> is_u 16 c' ->
  fold_left crc16_x25_step data c = fold_left crc16_x25_step data c' -> c = c'.
Proof.
  intros Hdata. revert c c'. induction Hdata as [|d data Hd Hdata IH]; intros c c' Hc Hc' H; [done|].
  apply IH in H; [|apply x25_step_u16..].
  apply x25_step_inj in H as [Hl Hh]; [|done..].
  apply lxor_cancel_r in Hh. rewrite <- (split8 c), <- (split8 c'). by rewrite Hl, Hh.
Qed.

(** ** Properties *)

(** C36: both table-driven routines compute, on every byte string, the
    bit-serial checksum that generates their table. *)
Theorem crc16_table_is_serial data :
  is_bytes data ->
  crc16_ccitt_false data = ccitt_serial data /\ crc16_x25_raw data = x25_serial data.
Proof.
  intros Hd. split.
  - unfold crc16_ccitt_false, ccitt_serial.
    assert (H : is_u 16 0xFFFF) by (unfold is_u; lia). revert H. generalize 0xFFFF.
    induction Hd as [|d data Hd Hdata IH]; intros c Hc; [done|].
    cbn [fold_left]. rewrite <- ccitt_step_serial by done. apply IH, ccitt_step_u16.
  - unfold crc16_x25_raw, x25_serial.
    assert (H : is_u 16 0xFFFF) by (unfold is_u; lia). revert H. generalize 0xFFFF.
    induction Hd as [|d data Hd Hdata IH]; intros c Hc; [done|].
    cbn [fold_left]. rewrite <- x25_step_serial by done. apply IH, x25_step_u16.
Qed.

Lemma crc16_table_is_serial_witness :
  crc16_ccitt_false [0x31; 0x32] = ccitt_serial [0x31; 0x32] /\
  crc16_x25_raw [0x31; 0x32] = x25_serial [0x31; 0x32].
Proof. apply (crc16_table_is_serial [0x31; 0x32]). repeat constructor; cbn; lia. Defined.

(** Two consecutive bytes are determined by the state before and after them. *)
Lemma ccitt_step2_inj c a b a' b' :
  is_u 16 c -> is_byte a -> is_byte b -> is_byte a' -> is_byte b' ->
  crc16_ccitt_step (crc16_ccitt_step c a) b = crc16_ccitt_step (crc16_ccitt_step c a') b' ->
  a = a' /\ b = b'.
Proof.
  intros Hc Ha Hb Ha' Hb' H.
  apply ccitt_step_inj in H as [Hl Hh]; [|by try apply ccitt_step_u16..].
  rewrite !ccitt_step_bytes, !lo8_lxor_shift in Hl by done.
  assert (Ea : a = a').
  { apply ccitt_table_low_inj, Z2Nat.inj in Hl; [by apply lxor_cancel_l in Hl|..];
      first [apply byte_index | apply Z.lxor_nonneg];
      first [apply is_u_lxor; [lia|by apply hi8_byte|done]
            |pose proof (hi8_byte c Hc); unfold is_u in *; lia]. }
  subst a'. split; [done|]. by apply lxor_cancel_l in Hh.
Qed.

Lemma x25_step2_inj c a b a' b' :
  is_u 16 c -> is_byte a -> is_byte b -> is_byte a' -> is_byte b' ->
  crc16_x25_step (crc16_x25_step c a) b = crc16_x25_step (crc16_x25_step c a') b' ->
  a = a' /\ b = b'.
Proof.
  intros Hc Ha Hb Ha' Hb' H.
  apply x25_step_inj in H as [Hh Hl]; [|by try apply x25_step_u16..].
  rewrite !x25_step_bytes, !hi8_lxor_byte in Hh by (done || by apply hi8_byte).
  assert (Ea : a = a').
  { apply x25_table_high_inj, Z2Nat.inj in Hh; [by apply lxor_cancel_l in Hh|..];
      first [apply byte_index | apply Z.lxor_nonneg];
      first [apply is_u_lxor; [lia|apply lo8_byte|done]
            |pose proof (lo8_byte c); unfold is_u in *; lia]. }
  subst a'. split; [done|]. by apply lxor_cancel_l in Hl.
Qed.

(** The state after appending a checksum to the message it covers. *)
Lemma ccitt_good c : is_u 16 c ->
  crc16_ccitt_step (crc16_ccitt_step c (hi8 c)) (lo8 c) = 0.
Proof.
  intros Hc. pose proof (lo8_byte c) as Hl. pose proof (hi8_byte c Hc) as Hh.
  rewrite (ccitt_step_bytes c), Z.lxor_nilpotent by done.
  change (rd crc16_ccitt_table (Z.to_nat 0)) with 0. rewrite Z.lxor_0_r.
  assert (E : hi8 (Z.shiftl (lo8 c) 8) = lo8 c).
  { unfold hi8. rewrite Z.shiftr_shiftl_l by lia. apply Z.shiftl_0_r. }
  rewrite ccitt_step_bytes; [|apply is_u_shiftl8; done|done].
  rewrite E, Z.lxor_nilpotent. rewrite <- (Z.lxor_0_r (Z.shiftl (lo8 c) 8)), lo8_lxor_shift.
  reflexivity.
Qed.

Lemma x25_good c : is_u 16 c ->
  let f := Z.lxor c 0xFFFF in
  crc16_x25_step (crc16_x25_step c (lo8 f)) (hi8 f) = CRC16_X25_GOOD_RESIDUE.
Proof.
  intros Hc f. pose proof (hi8_byte c Hc) as Hh.
  assert (Hf : is_u 16 f) by (apply is_u_lxor; [lia|done|unfold is_u; lia]).
  pose proof (hi8_byte f Hf) as Hhf.
  assert (El : lo8 f = Z.lxor (lo8 c) 0xFF).
  { unfold f, lo8. apply Z.bits_inj'. intros i Hi.
    rewrite Z.land_spec, !Z.lxor_spec, Z.land_spec.
    change 0xFFFF with (Z.ones 16). change 0xFF with (Z.ones 8).
    destruct (Z.lt_ge_cases i 8); [rewrite !Z.ones_spec_low by lia|rewrite (Z.ones_spec_high 8) by lia];
      btauto. }
  assert (Eh : hi8 f = Z.lxor (hi8 c) 0xFF) by (unfold f, hi8; by rewrite Z.shiftr_lxor).
  rewrite (x25_step_bytes c) by (done || apply lo8_byte).
  rewrite El, <- Z.lxor_assoc, Z.lxor_nilpotent.
  change (rd crc16_x25_table (Z.to_nat (Z.lxor 0 0xFF))) with 0x0F78.
  rewrite x25_step_bytes; [|apply is_u_lxor; unfold is_u in *; lia|done].
  rewrite hi8_lxor_byte by done. rewrite Eh.
  assert (E : Z.lxor (lo8 (Z.lxor (hi8 c) 0x0F78)) (Z.lxor (hi8 c) 0xFF) = 0x87).
  { unfold lo8. rewrite <- (land_255_byte (hi8 c)) at 2 by done.
    apply Z.bits_inj'. intros i Hi.
    rewrite !Z.lxor_spec, !Z.land_spec, !Z.lxor_spec.
    change 0x87 with (Z.lxor (Z.land 0x0F78 0xFF) 0xFF).
    rewrite Z.lxor_spec, Z.land_spec. btauto. }
  rewrite E. reflexivity.
Qed.

(** The CCITT half of the residue property, for the clients. *)
Lemma crc_residue_ccitt data a b :
  is_bytes data -> is_byte a -> is_byte b ->
  crc16_ccitt_false (data ++ [a; b]) = 0 <->
  a = hi8 (crc16_ccitt_false data) /\ b = lo8 (crc16_ccitt_false data).
Proof.
  intros Hd Ha Hb. pose proof (crc16_ccitt_u16 data) as Hc.
  unfold crc16_ccitt_false in *. rewrite fold_left_app. cbn [fold_left]. split.
  - rewrite <- (ccitt_good _ Hc). apply ccitt_step2_inj; try done; [by apply hi8_byte|apply lo8_byte].
  - intros [-> ->]. by apply ccitt_good.
Qed.

Lemma crc_residue_x25 data a b :
  is_bytes data -> is_byte a -> is_byte b ->
  crc16_x25_raw (data ++ [a; b]) = CRC16_X25_GOOD_RESIDUE <->
  a = lo8 (crc16_x25 data) /\ b = hi8 (crc16_x25 data).
Proof.
  intros Hd Ha Hb. pose proof (crc16_x25_raw_u16 data) as Hx.
  assert (Hf : is_u 16 (Z.lxor (crc16_x25_raw data) 0xFFFF))
    by (apply is_u_lxor; [lia|done|unfold is_u; lia]).
  assert (E : crc16_x25 data = Z.lxor (crc16_x25_raw data) 0xFFFF) by (by apply Z.mod_small).
  rewrite E. unfold crc16_x25_raw in *. rewrite fold_left_app. cbn [fold_left]. split.
  - rewrite <- (x25_good _ Hx). apply x25_step2_inj; try done; [apply lo8_byte|by apply hi8_byte].
  - intros [-> ->]. by apply x25_good.
Qed.

(** The receive checks are exact.  Appending two bytes to a message gives
    residue 0 (CCITT-FALSE, high byte first) exactly when they are its
    checksum, and residue 0xF0B8 (X-25, low byte first) exactly when they are
    the frame check sequence [crc16_x25] of the message. *)
Theorem crc16_residue_iff data a b :
  is_bytes data -> is_byte a -> is_byte b ->
  (crc16_ccitt_false (data ++ [a; b]) = 0 <->
     a = hi8 (crc16_ccitt_false data) /\ b = lo8 (crc16_ccitt_false data)) /\
  (crc16_x25_raw (data ++ [a; b]) = CRC16_X25_GOOD_RESIDUE <->
     a = lo8 (crc16_x25 data) /\ b = hi8 (crc16_x25 data)).
Proof.
  intros Hd Ha Hb.
  split; [by apply crc_residue_ccitt|by apply crc_residue_x25].
Qed.

Lemma crc16_residue_iff_witness :
  crc16_ccitt_false [0x31; 0xC7; 0x82] = 0 <-> 0xC7 = 0xC7 /\ 0x82 = 0x82.
Proof.
  apply (crc16_residue_iff [0x31] 0xC7 0x82);
    [repeat constructor; cbn; lia|unfold is_u; lia..].
Defined.

(** The CRC is most significant bit first and sent low octet first, so one
    pattern across the last payload octet and the first CRC octet is a
    multiple of the generator. *)
Definition blind_hi : Z := 0x89.
Definition blind_lo : Z := 0xA1.

Definition table_pair (i j : nat) : bool :=
  negb (hi8 (rd crc16_ccitt_table i) =? hi8 (rd crc16_ccitt_table j)) || (i =? j)%nat ||
  ((Z.lxor (Z.of_nat i) (Z.of_nat j) =? blind_hi) &&
   (Z.lxor (lo8 (rd crc16_ccitt_table i)) (lo8 (rd crc16_ccitt_table j)) =? blind_lo)).

Lemma table_pair_ok : forallb (fun i => forallb (table_pair i) (seq 0 256)) (seq 0 256) = true.
Proof. vm_compute. reflexivity. Qed.

Lemma table_high i j :
  (i < 256)%nat -> (j < 256)%nat -> hi8 (rd crc16_ccitt_table i) = hi8 (rd crc16_ccitt_table j) ->
  i = j \/ (Z.lxor (Z.of_nat i) (Z.of_nat j) = blind_hi /\
            Z.lxor (lo8 (rd crc16_ccitt_table i)) (lo8 (rd crc16_ccitt_table j)) = blind_lo).
Proof.
  intros Hi Hj E. pose proof (forall_below _ _ (forall_below _ _ table_pair_ok i Hi) j Hj) as H.
  unfold table_pair in H. rewrite E, Z.eqb_refl in H. cbn [negb orb] in H.
  apply orb_prop in H as [H|H]; [left; by apply Nat.eqb_eq|right].
  apply andb_prop in H as [H1 H2]. by rewrite !Z.eqb_eq in *.
Qed.

(** Two last octets with the same high half of the checksum. *)
Lemma crc16_last_octet pre a a' :
  is_bytes pre -> is_byte a -> is_byte a' ->
  hi8 (crc16_ccitt_false (pre ++ [a])) = hi8 (crc16_ccitt_false (pre ++ [a'])) ->
  a = a' \/ (Z.lxor a a' = blind_hi /\
    Z.lxor (lo8 (crc16_ccitt_false (pre ++ [a]))) (lo8 (crc16_ccitt_false (pre ++ [a']))) = blind_lo).
Proof.
  intros Hp Ha Ha'. pose proof (crc16_ccitt_u16 pre) as Hc.
  assert (E : forall x, crc16_ccitt_false (pre ++ [x]) = crc16_ccitt_step (crc16_ccitt_false pre) x)
    by (intros; unfold crc16_ccitt_false; by rewrite fold_left_app).
  rewrite !E, !ccitt_step_bytes by done. rewrite !lo8_lxor_shift. set (c := crc16_ccitt_false pre) in *.
  assert (Hx : forall x, is_byte x -> is_byte (Z.lxor (hi8 c) x))
    by (intros; apply is_u_lxor; [lia|by apply hi8_byte|done]).
  set (i := Z.to_nat (Z.lxor (hi8 c) a)). set (j := Z.to_nat (Z.lxor (hi8 c) a')).
  assert (Hi : (i < 256)%nat) by (by apply byte_index, Hx). assert (Hj : (j < 256)%nat) by (by apply byte_index, Hx).
  unfold hi8 at 1 2. rewrite !Z.shiftr_lxor. intros H. apply lxor_cancel_l in H.
  pose proof (Hx a Ha) as Ba. pose proof (Hx a' Ha') as Ba'. unfold is_u in Ba, Ba'.
  destruct (table_high i j Hi Hj H) as [Eij|[E1 E2]].
  - left. unfold i, j in Eij. apply Z2Nat.inj in Eij; [|lia..]. by apply lxor_cancel_l in Eij.
  - right. split; [|done]. unfold i, j in E1. rewrite !Z2Nat.id in E1 by lia.
    rewrite <- E1, (Z.lxor_comm (hi8 c) a), Z.lxor_assoc, <- (Z.lxor_assoc (hi8 c)).
    by rewrite Z.lxor_nilpotent, Z.lxor_0_l.
Qed.

(** An error confined to two consecutive bytes always changes both
    checksums, whatever surrounds it. *)
Theorem crc16_detects_burst pre post a b a' b' :
  is_bytes pre -> is_bytes post ->
  is_byte a -> is_byte b -> is_byte a' -> is_byte b' ->
  (a, b) <> (a', b') ->
  crc16_ccitt_false (pre ++ [a; b] ++ post) <> crc16_ccitt_false (pre ++ [a'; b'] ++ post) /\
  crc16_x25_raw (pre ++ [a; b] ++ post) <> crc16_x25_raw (pre ++ [a'; b'] ++ post).
Proof.
  intros Hpre Hpost Ha Hb Ha' Hb' Hne.
  pose proof (crc16_ccitt_u16 pre) as Hc. pose proof (crc16_x25_raw_u16 pre) as Hx.
  unfold crc16_ccitt_false, crc16_x25_raw in *. rewrite !fold_left_app. cbn [fold_left].
  split; intros H; apply Hne.
  - apply fold_ccitt_inj in H; [|done|apply ccitt_step_u16..].
    apply ccitt_step2_inj in H as [-> ->]; done.
  - apply fold_x25_inj in H; [|done|apply x25_step_u16..].
    apply x25_step2_inj in H as [-> ->]; done.
Qed.

Lemma crc16_detects_burst_witness :
  crc16_ccitt_false [1; 2; 3; 4] <> crc16_ccitt_false [1; 2; 7; 4].
Proof.
  apply (crc16_detects_burst [1] [4] 2 3 2 7);
    first [congruence|repeat constructor; cbn; lia].
Defined.

(** The catalogue check values quoted in crc16.h. *)
Example crc16_check_values :
  let m := [0x31; 0x32; 0x33; 0x34; 0x35; 0x36; 0x37; 0x38; 0x39] in
  crc16_ccitt_false m = 0x29B1 /\ crc16_x25 m = 0x906E.
Proof. vm_compute. split; reflexivity. Qed.
