(* ===== verification/IridiumBch.v ===== *)
(** BCH words: polynomial remainder and error repair
    (src/common/iridium_decoder/iridium_bch.c).

    Words are 0/1-per-byte arrays.  The fast path looks a syndrome up in a
    table that is built on first use and kept in an arena shared by all
    codes; the reference path flips every bit and every pair of bits.  The
    theorems show that the two paths are the same function, whatever the state
    of the cache, and that the codes the decoders use correct every pattern of
    at most two errors. *)

From S2P Require Import Prelude Gf2 Bits.

(** ** Polynomial remainder *)

Definition bits_to_u32 (bits : list Z) (n_bits : nat) : Z :=
  let n_bits := if (32 <? n_bits)%nat then 32%nat else n_bits in
  forN n_bits (fun i v => u32 (Z.lor (Z.shiftl v 1) (bit (rd bits i)))) 0.

(** [while (x) { n++; x >>= 1; }]: 32 rounds empty a 32-bit word. *)
Fixpoint u32_bit_length_loop (fuel : nat) (n x : Z) : Z :=
  match fuel with
  | O => n
  | S fuel => if x =? 0 then n else u32_bit_length_loop fuel (n + 1) (Z.shiftr x 1)
  end.
Definition u32_bit_length (x : Z) : Z := u32_bit_length_loop 32 0 x.

(** [while (shift >= 0) { ... shift--; }]: [shift + 1] rounds. *)
Fixpoint poly_mod_loop (fuel : nat) (poly num pow shift : Z) : Z :=
  match fuel with
  | O => num
  | S fuel =>
    if 0 <=? shift then
      let num := if pow <=? num then Z.lxor num (u32 (Z.shiftl poly shift)) else num in
      poly_mod_loop fuel poly num (Z.shiftr pow 1) (shift - 1)
    else num
  end.

Definition poly_mod_u32 (num poly : Z) : Z :=
  if num =? 0 then 0 else
  let num_len := u32_bit_length num in
  let poly_len := u32_bit_length poly in
  let shift := num_len - poly_len in
  let pow := u32 (Z.shiftl 1 (num_len - 1)) in
  poly_mod_loop (Z.to_nat (shift + 1)) poly num pow shift.

Definition iridium_bch_ndivide (poly : Z) (bits : list Z) (n_bits : nat) : Z :=
  if (n_bits =? 0)%nat then 0 else poly_mod_u32 (bits_to_u32 bits n_bits) poly.

(** ** Reference repair: flip and divide again *)

(** [bits[i] ^= 1] *)
Definition flip (bits : list Z) (i : nat) : list Z := <[i := Z.lxor (rd bits i) 1]> bits.

(** Flip each index of [idx] in turn; stop at the first that divides cleanly,
    revert it otherwise.  [true] when one was found (its flip remains). *)
Fixpoint flip_pass (poly : Z) (n_bits : nat) (idx : list nat) (bits : list Z) : bool * list Z :=
  match idx with
  | [] => (false, bits)
  | i :: idx =>
    let bits := flip bits i in
    if iridium_bch_ndivide poly bits n_bits =? 0 then (true, bits)
    else flip_pass poly n_bits idx (flip bits i)
  end.

(** The two-bit pass: for each [i], flip it and run the pass over [j > i]. *)
Fixpoint flip_pair_pass (poly : Z) (n_bits : nat) (idx : list nat) (bits : list Z)
  : bool * list Z :=
  match idx with
  | [] => (false, bits)
  | i :: idx =>
    match flip_pass poly n_bits (seq (S i) (n_bits - S i)) (flip bits i) with
    | (true, bits) => (true, bits)
    | (false, bits) => flip_pair_pass poly n_bits idx (flip bits i)
    end
  end.

Definition iridium_bch_repair1_ref (poly : Z) (bits : list Z) (n_bits : nat) : Z * list Z :=
  if (n_bits =? 0)%nat then (-1, bits) else
  if iridium_bch_ndivide poly bits n_bits =? 0 then (0, bits) else
  match flip_pass poly n_bits (seq 0 n_bits) bits with
  | (true, bits) => (1, bits)
  | (false, bits) => (-1, bits)
  end.

Definition iridium_bch_repair2_ref (poly : Z) (bits : list Z) (n_bits : nat) : Z * list Z :=
  if (n_bits =? 0)%nat then (-1, bits) else
  if iridium_bch_ndivide poly bits n_bits =? 0 then (0, bits) else
  match flip_pass poly n_bits (seq 0 n_bits) bits with
  | (true, bits) => (1, bits)
  | (false, bits) =>
    match flip_pair_pass poly n_bits (seq 0 n_bits) bits with
    | (true, bits) => (2, bits)
    | (false, bits) => (-1, bits)
    end
  end.

(** ** Syndrome tables *)

Definition SYN_EMPTY : Z := 0xFFFF.
Definition SYN_SINGLE_FLAG : Z := 0x8000.
Definition SYN_MAX_SLOTS : nat := 8.
Definition SYN_ARENA_ENTRIES : Z := 4608.
Definition SYN_MAX_N_BITS : nat := 31.

(** [slot_tbl] is the offset of the slot's table in the arena. *)
Record syn_slot := SynSlot {
  slot_poly : Z; slot_n_bits : nat; slot_deg : Z; slot_tbl : nat }.

(** The module's statics; [s_syn_slots] holds the published slots, so
    [s_syn_nslots] is its length. *)
Record syn_state := SynState {
  s_syn_arena : list Z; s_syn_slots : list syn_slot; s_syn_arena_used : Z }.

Definition syn_init : syn_state := SynState (replicate (Z.to_nat SYN_ARENA_ENTRIES) 0) [] 0.

(** [if (tbl[s] == SYN_EMPTY) tbl[s] = v] *)
Definition syn_fill (tbl : list Z) (s v : Z) : list Z :=
  if rd tbl (Z.to_nat s) =? SYN_EMPTY then <[Z.to_nat s := v]> tbl else tbl.

(** Syndrome of the single error at bit [i] (MSB first). *)
Definition syn1 (poly : Z) (n_bits i : nat) : Z :=
  poly_mod_u32 (u32 (Z.shiftl 1 (Z.of_nat n_bits - 1 - Z.of_nat i))) poly.

Definition syn_build (poly : Z) (n_bits : nat) (tbl_len : Z) : list Z :=
  let tbl := replicate (Z.to_nat tbl_len) SYN_EMPTY in
  let tbl := fold_left (fun tbl i =>
    syn_fill tbl (syn1 poly n_bits i) (Z.lor SYN_SINGLE_FLAG (Z.of_nat i))) (seq 0 n_bits) tbl in
  fold_left (fun tbl i =>
    fold_left (fun tbl j =>
      syn_fill tbl (Z.lxor (syn1 poly n_bits i) (syn1 poly n_bits j))
                   (Z.lor (Z.shiftl (Z.of_nat i) 5) (Z.of_nat j)))
      (seq (S i) (n_bits - S i)) tbl) (seq 0 n_bits) tbl.

Definition syn_get_slot (poly : Z) (n_bits : nat) (st : syn_state) : option syn_slot * syn_state :=
  match find (fun k => (slot_poly k =? poly) && (slot_n_bits k =? n_bits)%nat) (s_syn_slots st) with
  | Some k => (Some k, st)
  | None =>
    let deg := u32_bit_length poly - 1 in
    if (deg <? 1) || (n_bits <? 1)%nat || (SYN_MAX_N_BITS <? n_bits)%nat then (None, st) else
    if (SYN_MAX_SLOTS <=? length (s_syn_slots st))%nat then (None, st) else
    let tbl_len := Z.shiftl 1 deg in
    if SYN_ARENA_ENTRIES - s_syn_arena_used st <? tbl_len then (None, st) else
    let tbl := Z.to_nat (s_syn_arena_used st) in
    let slot := SynSlot poly n_bits deg tbl in
    (Some slot,
     SynState (blit (s_syn_arena st) tbl (syn_build poly n_bits tbl_len))
              (s_syn_slots st ++ [slot])
              (s_syn_arena_used st + tbl_len))
  end.

(** [slot->tbl[syn]] *)
Definition slot_entry (st : syn_state) (slot : syn_slot) (syn : Z) : Z :=
  rd (s_syn_arena st) (slot_tbl slot + Z.to_nat syn).

(** [e & 0x1F] and [(e >> 5) & 0x1F] *)
Definition entry_lo (e : Z) : nat := Z.to_nat (Z.land e 0x1F).
Definition entry_hi (e : Z) : nat := Z.to_nat (Z.land (Z.shiftr e 5) 0x1F).

Definition iridium_bch_repair1 (poly : Z) (bits : list Z) (n_bits : nat) (st : syn_state)
  : (Z * list Z) * syn_state :=
  if (n_bits =? 0)%nat then ((-1, bits), st) else
  let syn := iridium_bch_ndivide poly bits n_bits in
  if syn =? 0 then ((0, bits), st) else
  match syn_get_slot poly n_bits st with
  | (None, st) => (iridium_bch_repair1_ref poly bits n_bits, st)
  | (Some slot, st) =>
    if negb (Z.shiftr syn (slot_deg slot) =? 0)
    then (iridium_bch_repair1_ref poly bits n_bits, st) else
    let e := slot_entry st slot syn in
    if negb (e =? SYN_EMPTY) && negb (Z.land e SYN_SINGLE_FLAG =? 0)
    then ((1, flip bits (entry_lo e)), st)
    else ((-1, bits), st)
  end.

Definition iridium_bch_repair2 (poly : Z) (bits : list Z) (n_bits : nat) (st : syn_state)
  : (Z * list Z) * syn_state :=
  if (n_bits =? 0)%nat then ((-1, bits), st) else
  let syn := iridium_bch_ndivide poly bits n_bits in
  if syn =? 0 then ((0, bits), st) else
  match syn_get_slot poly n_bits st with
  | (None, st) => (iridium_bch_repair2_ref poly bits n_bits, st)
  | (Some slot, st) =>
    if negb (Z.shiftr syn (slot_deg slot) =? 0)
    then (iridium_bch_repair2_ref poly bits n_bits, st) else
    let e := slot_entry st slot syn in
    if e =? SYN_EMPTY then ((-1, bits), st) else
    if negb (Z.land e SYN_SINGLE_FLAG =? 0)
    then ((1, flip bits (entry_lo e)), st)
    else ((2, flip (flip bits (entry_hi e)) (entry_lo e)), st)
  end.

(** ** The divider is the shift register *)

(** The bits of a 0/1-per-byte word, as the code's [& 1] reads them. *)
Definition word (bits : list Z) (n : nat) : list bool :=
  map (fun i => Z.odd (rd bits i)) (seq 0 n).

(** [poly] has degree [d], within 32 bits. *)
Definition degree (poly : Z) (d : nat) : Prop :=
  (1 <= d <= 31)%nat /\ 2 ^ Z.of_nat d <= poly < 2 ^ (Z.of_nat d + 1).

Lemma length_word bits n : length (word bits n) = n.
Proof. unfold word. by rewrite length_map, length_seq. Qed.

Lemma word_S bits n : word bits (S n) = word bits n ++ [Z.odd (rd bits n)].
Proof. unfold word. by rewrite seq_S, map_app. Qed.

Lemma bits_to_u32_val bits n : (n <= 32)%nat -> bits_to_u32 bits n = val (word bits n).
Proof.
  intros Hn. unfold bits_to_u32. replace (32 <? n)%nat with false by (symmetry; apply Nat.ltb_ge; lia).
  apply (forN_inv (fun i v => v = val (word bits i))); [done|].
  intros i v Hi ->. rewrite word_S, val_app, lor_shiftl1_bit.
  pose proof (val_bound (word bits i)) as Hb. rewrite length_word in Hb.
  pose proof (b2z_range (Z.odd (rd bits i))).
  assert (2 ^ Z.of_nat i <= 2 ^ 31) by (apply Z.pow_le_mono_r; lia).
  unfold u32. rewrite Z.mod_small by lia. cbn. lia.
Qed.

Lemma u32_bit_length_loop_spec fuel n x :
  0 <= x < 2 ^ Z.of_nat fuel ->
  u32_bit_length_loop fuel n x = n + (if x =? 0 then 0 else Z.log2 x + 1).
Proof.
  revert n x. induction fuel as [|fuel IH]; intros n x Hx.
  - replace x with 0 by (cbn in Hx; lia). cbn. lia.
  - cbn [u32_bit_length_loop]. destruct (Z.eqb_spec x 0) as [->|Hx0]; [lia|].
    rewrite Nat2Z.inj_succ, Z.pow_succ_r in Hx by lia.
    assert (Hsh : Z.shiftr x 1 = x / 2) by (by rewrite Z.shiftr_div_pow2 by lia).
    rewrite Hsh, IH by lia. destruct (Z.eqb_spec (x / 2) 0) as [H0|H0].
    + replace x with 1 by lia. cbn. lia.
    + pose proof (Z.log2_pos x ltac:(lia)).
      rewrite <- Hsh, Z.log2_shiftr by lia. lia.
Qed.

Lemma u32_bit_length_spec x l :
  0 < l <= 32 -> 2 ^ (l - 1) <= x < 2 ^ l -> u32_bit_length x = l.
Proof.
  intros Hl Hx. unfold u32_bit_length. rewrite u32_bit_length_loop_spec.
  - rewrite (Z.log2_unique x (l - 1)); [|lia|].
    + pose proof (Z.pow_pos_nonneg 2 (l - 1)). destruct (Z.eqb_spec x 0); lia.
    + by replace (Z.succ (l - 1)) with l by lia.
  - pose proof (Z.pow_pos_nonneg 2 (l - 1)).
    assert (2 ^ l <= 2 ^ 32) by (apply Z.pow_le_mono_r; lia). cbn in *. lia.
Qed.

Lemma u32_bit_length_degree poly d : degree poly d -> u32_bit_length poly = Z.of_nat d + 1.
Proof.
  intros [Hd Hp]. apply u32_bit_length_spec; [lia|].
  by replace (Z.of_nat d + 1 - 1) with (Z.of_nat d) by lia.
Qed.

(** Invariant of the division loop: the window above the unread bits is the
    register's state. *)
Lemma poly_mod_loop_lfsr poly d r s :
  degree poly d -> 0 <= r < 2 ^ Z.of_nat d -> (d + length s <= 32)%nat ->
  let m := Z.of_nat (length s) in
  poly_mod_loop (length s) poly (r * 2 ^ m + val s) (2 ^ (Z.of_nat d + m) / 2) (m - 1) =
  lfsr poly d r s.
Proof.
  intros Hdeg. revert r. induction s as [|b s IH]; intros r Hr Hm.
  { cbn. lia. }
  cbn [length] in Hm. cbn zeta. set (m := Z.of_nat (length s)).
  replace (Z.of_nat (length (b :: s))) with (m + 1) by (cbn [length]; lia).
  cbn [poly_mod_loop length]. replace (0 <=? m + 1 - 1) with true by lia.
  replace (m + 1 - 1) with m by lia.
  rewrite val_cons. fold m.
  pose proof (val_bound s) as Hs. fold m in Hs. pose proof (b2z_range b) as Hb.
  pose proof Hdeg as [Hd Hp].
  set (r' := 2 * r + Z.b2z b).
  assert (Hr' : 0 <= r' < 2 ^ (Z.of_nat d + 1)) by (rewrite Z.pow_add_r by lia; lia).
  replace (r * 2 ^ (m + 1) + (Z.b2z b * 2 ^ m + val s)) with (r' * 2 ^ m + val s)
    by (unfold r'; rewrite Z.pow_add_r by lia; lia).
  replace (2 ^ (Z.of_nat d + (m + 1)) / 2) with (2 ^ Z.of_nat d * 2 ^ m).
  2:{ rewrite Z.add_assoc, Z.pow_add_r, Z.div_mul by lia. by rewrite Z.pow_add_r by lia. }
  replace (Z.shiftr (2 ^ Z.of_nat d * 2 ^ m) 1) with (2 ^ (Z.of_nat d + m) / 2)
    by (rewrite Z.shiftr_div_pow2, Z.pow_add_r by lia; done).
  assert (Hpm : 0 < 2 ^ m) by (apply Z.pow_pos_nonneg; lia).
  unfold lfsr. cbn [fold_left]. unfold lfsr_step at 2. fold r'.
  assert (Hsh : u32 (Z.shiftl poly m) = Z.shiftl poly m).
  { apply Z.mod_small. rewrite Z.shiftl_mul_pow2 by lia.
    assert (2 ^ (Z.of_nat d + 1) * 2 ^ m <= 2 ^ 32); [|nia].
    rewrite <- Z.pow_add_r by lia. apply Z.pow_le_mono_r; lia. }
  rewrite Hsh.
  destruct (Z.leb_spec (2 ^ Z.of_nat d * 2 ^ m) (r' * 2 ^ m + val s)) as [Hle|Hlt].
  - assert (Hge : 2 ^ Z.of_nat d <= r') by nia.
    rewrite testbit_top by lia. rewrite lxor_shift_add by lia.
    apply IH; [|lia].
    pose proof (lfsr_step_bound poly d ltac:(lia) r b Hr) as HB.
    unfold lfsr_step in HB. fold r' in HB. by rewrite testbit_top in HB by lia.
  - assert (Hge : r' < 2 ^ Z.of_nat d) by nia.
    rewrite (testbit_high (Z.of_nat d)) by lia. apply IH; lia.
Qed.

Lemma lfsr_falses g d n : lfsr g d 0 (replicate n false) = 0.
Proof.
  rewrite lfsr_small; rewrite ?val_falses; [lia|lia|].
  pose proof (Z.pow_pos_nonneg 2 (Z.of_nat d)). lia.
Qed.

Lemma poly_mod_lfsr poly d bs :
  degree poly d -> (length bs <= 32)%nat -> poly_mod_u32 (val bs) poly = lfsr poly d 0 bs.
Proof.
  intros Hdeg Hlen. pose proof Hdeg as [Hd Hp]. unfold poly_mod_u32.
  assert (H2d : 0 < 2 ^ Z.of_nat d) by (apply Z.pow_pos_nonneg; lia).
  destruct (Z.eqb_spec (val bs) 0) as [H0|H0].
  { rewrite lfsr_small; rewrite ?H0; lia. }
  destruct (val_leading bs H0) as (z & s & ->).
  rewrite length_app, length_replicate in Hlen. cbn [length] in Hlen.
  rewrite lfsr_app, lfsr_falses, val_app, val_falses, Z.add_0_l.
  set (t := true :: s) in *.
  assert (Ht : 2 ^ Z.of_nat (length s) <= val t < 2 ^ (Z.of_nat (length s) + 1)).
  { unfold t. rewrite val_cons. cbn [Z.b2z]. pose proof (val_bound s).
    rewrite Z.pow_add_r by lia. lia. }
  rewrite (u32_bit_length_spec (val t) (Z.of_nat (length s) + 1))
    by (rewrite ?Z.add_simpl_r; lia).
  rewrite (u32_bit_length_degree poly d) by done.
  replace (Z.of_nat (length s) + 1 - 1) with (Z.of_nat (length s)) by lia.
  destruct (Nat.lt_ge_cases (length s) d) as [Hsd|Hsd].
  - replace (Z.to_nat _) with 0%nat by lia. cbn [poly_mod_loop].
    rewrite lfsr_small; [lia|lia|].
    assert (2 ^ (Z.of_nat (length s) + 1) <= 2 ^ Z.of_nat d) by (apply Z.pow_le_mono_r; lia).
    lia.
  - rewrite <- (take_drop d t). rewrite lfsr_app, val_app.
    set (p := take d t). set (q := drop d t).
    assert (Hlp : length p = d) by (unfold p; rewrite length_take; cbn [t length]; lia).
    assert (Hlq : length q = (S (length s) - d)%nat) by (unfold q; rewrite length_drop; done).
    pose proof (val_bound p) as Hbp. rewrite Hlp in Hbp.
    rewrite (lfsr_small poly d 0 p) by lia. rewrite Z.mul_0_l, Z.add_0_l.
    rewrite <- poly_mod_loop_lfsr by (done || lia).
    replace (Z.to_nat (Z.of_nat (length s) + 1 - (Z.of_nat d + 1) + 1)) with (length q) by lia.
    f_equal; [|lia].
    rewrite Hlq. replace (Z.of_nat d + Z.of_nat (S (length s) - d)) with (Z.of_nat (length s) + 1) by lia.
    rewrite Z.pow_add_r, Z.div_mul by lia. rewrite Z.shiftl_mul_pow2, Z.mul_1_l by lia.
    apply Z.mod_small. split; [lia|]. apply Z.pow_lt_mono_r; lia.
Qed.

Lemma ndivide_lfsr poly d bits n :
  degree poly d -> (1 <= n <= 32)%nat ->
  iridium_bch_ndivide poly bits n = lfsr poly d 0 (word bits n).
Proof.
  intros Hdeg Hn. unfold iridium_bch_ndivide.
  destruct (Nat.eqb_spec n 0); [lia|]. rewrite bits_to_u32_val by lia.
  apply poly_mod_lfsr; [done|]. rewrite length_word. lia.
Qed.

(** ** Flipping a bit adds its syndrome *)

Lemma length_flip bits i : length (flip bits i) = length bits.
Proof. apply length_insert. Qed.

Lemma word_flip bits i n :
  (i < n)%nat -> (n <= length bits)%nat ->
  word (flip bits i) n = xorl (word bits n) (unit_word n i).
Proof.
  intros Hi Hn. apply list_eq. intros j. unfold xorl, unit_word.
  rewrite lookup_zip_with. unfold word at 1 2. rewrite !list_lookup_fmap'.
  destruct (Nat.lt_ge_cases j n) as [Hj|Hj].
  - rewrite lookup_seq_lt by done. cbn. unfold flip. rewrite rd_insert.
    case_decide as H.
    + destruct H as [-> _]. rewrite list_lookup_insert_eq by (by rewrite length_replicate).
      cbn. f_equal. apply odd_lxor_1.
    + rewrite list_lookup_insert_ne, lookup_replicate_2 by (done || (intros ->; apply H; lia)).
      cbn. by rewrite xorb_false_r.
  - rewrite lookup_seq_ge by done. done.
Qed.

Lemma flip_flip bits i : flip (flip bits i) i = bits.
Proof.
  unfold flip at 1. unfold flip at 2. rewrite list_insert_insert_eq.
  destruct (Nat.lt_ge_cases i (length bits)) as [Hi|Hi].
  - apply list_insert_id. unfold flip. rewrite rd_insert, decide_True by done.
    rewrite Z.lxor_assoc, Z.lxor_nilpotent, Z.lxor_0_r.
    unfold rd. rewrite nth_lookup. destruct (lookup_lt_is_Some_2 bits i Hi) as [x ->]. done.
  - by apply list_insert_ge.
Qed.

(** [syn1] is the syndrome of a unit word. *)
Lemma val_unit_word n i : (i < n)%nat -> val (unit_word n i) = 2 ^ (Z.of_nat n - 1 - Z.of_nat i).
Proof.
  intros Hi. unfold unit_word.
  replace (replicate n false) with (replicate i false ++ false :: replicate (n - S i) false).
  2:{ change (false :: replicate (n - S i) false) with (replicate (S (n - S i)) false).
      rewrite <- replicate_add. f_equal. lia. }
  rewrite insert_app_r_alt by (by rewrite length_replicate).
  rewrite length_replicate, Nat.sub_diag. cbn [list_insert insert].
  rewrite val_app, val_falses, val_cons, val_falses, length_replicate. cbn [Z.b2z].
  replace (Z.of_nat (n - S i)) with (Z.of_nat n - 1 - Z.of_nat i) by lia. lia.
Qed.

Lemma syn1_lfsr poly d n i :
  degree poly d -> (n <= 32)%nat -> (i < n)%nat ->
  syn1 poly n i = lfsr poly d 0 (unit_word n i).
Proof.
  intros Hdeg Hn Hi. rewrite <- poly_mod_lfsr; [|done|].
  - unfold syn1. rewrite val_unit_word by done. f_equal.
    rewrite Z.shiftl_mul_pow2, Z.mul_1_l by lia. apply Z.mod_small.
    split; [lia|]. apply Z.pow_lt_mono_r; lia.
  - unfold unit_word. rewrite length_insert, length_replicate. lia.
Qed.

Lemma syn1_bound poly d n i :
  degree poly d -> (n <= 32)%nat -> (i < n)%nat -> 0 <= syn1 poly n i < 2 ^ Z.of_nat d.
Proof.
  intros Hdeg Hn Hi. rewrite (syn1_lfsr poly d) by done.
  apply lfsr_bound; [apply Hdeg|]. pose proof (Z.pow_pos_nonneg 2 (Z.of_nat d)). lia.
Qed.

Lemma ndivide_bound poly d bits n :
  degree poly d -> (1 <= n <= 32)%nat ->
  0 <= iridium_bch_ndivide poly bits n < 2 ^ Z.of_nat d.
Proof.
  intros Hdeg Hn. rewrite (ndivide_lfsr poly d) by done.
  apply lfsr_bound; [apply Hdeg|]. pose proof (Z.pow_pos_nonneg 2 (Z.of_nat d)). lia.
Qed.

Lemma ndivide_flip poly d bits n i :
  degree poly d -> (n <= 32)%nat -> (i < n)%nat -> (n <= length bits)%nat ->
  iridium_bch_ndivide poly (flip bits i) n =
  Z.lxor (iridium_bch_ndivide poly bits n) (syn1 poly n i).
Proof.
  intros Hdeg Hn Hi Hl. rewrite !(ndivide_lfsr poly d) by (done || lia).
  rewrite word_flip by done. rewrite (syn1_lfsr poly d) by done.
  apply lfsr_linear. unfold unit_word. by rewrite length_word, length_insert, length_replicate.
Qed.

(** ** The search order of the reference *)

(** The error positions the reference tries, in its order. *)
Definition pairs (n : nat) (idx : list nat) : list (nat * nat) :=
  i ← idx; j ← seq (S i) (n - S i); [(i, j)].

Lemma flip_pass_find poly d n idx bits :
  degree poly d -> (n <= 32)%nat -> (n <= length bits)%nat -> Forall (fun i => (i < n)%nat) idx ->
  flip_pass poly n idx bits =
  match find (fun i => iridium_bch_ndivide poly bits n =? syn1 poly n i) idx with
  | Some i => (true, flip bits i)
  | None => (false, bits)
  end.
Proof.
  intros Hdeg Hn Hl Hidx. induction Hidx as [|i idx Hi Hidx IH]; [done|].
  cbn [flip_pass find]. rewrite (ndivide_flip poly d), lxor_eqb_0, flip_flip by done.
  by destruct (Z.eqb _ _).
Qed.

Lemma flip_pair_pass_find poly d n idx bits :
  degree poly d -> (n <= 32)%nat -> (n <= length bits)%nat -> Forall (fun i => (i < n)%nat) idx ->
  flip_pair_pass poly n idx bits =
  match find (fun '(i, j) => iridium_bch_ndivide poly bits n =? Z.lxor (syn1 poly n i) (syn1 poly n j))
             (pairs n idx) with
  | Some (i, j) => (true, flip (flip bits i) j)
  | None => (false, bits)
  end.
Proof.
  intros Hdeg Hn Hl Hidx. induction Hidx as [|i idx Hi Hidx IH]; [done|].
  cbn [flip_pair_pass].
  rewrite (flip_pass_find poly d) by
    (rewrite ?length_flip; try done; apply Forall_seq; lia).
  rewrite (ndivide_flip poly d) by done.
  change (pairs n (i :: idx)) with ((j ← seq (S i) (n - S i); [(i, j)]) ++ pairs n idx).
  rewrite find_app, find_row.
  erewrite (find_ext _ (fun j => iridium_bch_ndivide poly bits n =? Z.lxor (syn1 poly n i) (syn1 poly n j)))
    by (intros j; apply lxor_eqb_move).
  destruct (find _ (seq _ _)); [done|]. rewrite flip_flip. apply IH.
Qed.

(** ** The tables hold the first match *)

Definition single_entry (i : nat) : Z := Z.lor SYN_SINGLE_FLAG (Z.of_nat i).
Definition pair_entry (i j : nat) : Z := Z.lor (Z.shiftl (Z.of_nat i) 5) (Z.of_nat j).

(** All (syndrome, entry) bindings, in the order the builder offers them. *)
Definition bindings (poly : Z) (n : nat) : list (Z * Z) :=
  map (fun i => (syn1 poly n i, single_entry i)) (seq 0 n) ++
  map (fun '(i, j) => (Z.lxor (syn1 poly n i) (syn1 poly n j), pair_entry i j))
      (pairs n (seq 0 n)).

Definition fill_all (tbl : list Z) (kvs : list (Z * Z)) : list Z :=
  fold_left (fun tbl '(k, v) => syn_fill tbl k v) kvs tbl.

Lemma fold_left_map {A B C} (f : A -> C -> A) (g : B -> C) l a :
  fold_left f (map g l) a = fold_left (fun a b => f a (g b)) l a.
Proof. revert a. induction l as [|b l IH]; intros a; [done|apply IH]. Qed.

Lemma fill_pairs poly n idx tbl :
  fold_left (fun tbl i =>
    fold_left (fun tbl j =>
      syn_fill tbl (Z.lxor (syn1 poly n i) (syn1 poly n j)) (pair_entry i j))
      (seq (S i) (n - S i)) tbl) idx tbl =
  fill_all tbl (map (fun '(i, j) => (Z.lxor (syn1 poly n i) (syn1 poly n j), pair_entry i j))
                    (pairs n idx)).
Proof.
  revert tbl. induction idx as [|i idx IH]; intros t; [done|].
  change (pairs n (i :: idx)) with ((j ← seq (S i) (n - S i); [(i, j)]) ++ pairs n idx).
  unfold fill_all. rewrite map_app, fold_left_app. cbn [fold_left]. rewrite IH. unfold fill_all.
  f_equal. generalize (seq (S i) (n - S i)). clear. intros l. revert t.
  induction l as [|j l IH]; intros t; [done|]. cbn. apply IH.
Qed.

Lemma syn_build_fill poly n len :
  syn_build poly n len = fill_all (replicate (Z.to_nat len) SYN_EMPTY) (bindings poly n).
Proof.
  unfold bindings, fill_all. rewrite fold_left_app.
  transitivity (fill_all (fill_all (replicate (Z.to_nat len) SYN_EMPTY)
      (map (fun i => (syn1 poly n i, single_entry i)) (seq 0 n)))
    (map (fun '(i, j) => (Z.lxor (syn1 poly n i) (syn1 poly n j), pair_entry i j))
         (pairs n (seq 0 n)))); [|done].
  unfold fill_all at 2. rewrite fold_left_map. apply fill_pairs.
Qed.

Lemma length_syn_fill tbl k v : length (syn_fill tbl k v) = length tbl.
Proof. unfold syn_fill. destruct (_ =? _); [apply length_insert|done]. Qed.

Lemma length_fill_all tbl kvs : length (fill_all tbl kvs) = length tbl.
Proof.
  revert tbl. induction kvs as [|[k v] kvs IH]; intros tbl; [done|].
  change (fill_all tbl ((k, v) :: kvs)) with (fill_all (syn_fill tbl k v) kvs).
  rewrite IH. apply length_syn_fill.
Qed.

Lemma fill_all_spec tbl kvs s :
  0 <= s < Z.of_nat (length tbl) ->
  Forall (fun '(k, v) => 0 <= k < Z.of_nat (length tbl) /\ v <> SYN_EMPTY) kvs ->
  rd (fill_all tbl kvs) (Z.to_nat s) =
  if rd tbl (Z.to_nat s) =? SYN_EMPTY then
    match find (fun kv => s =? kv.1) kvs with Some kv => kv.2 | None => SYN_EMPTY end
  else rd tbl (Z.to_nat s).
Proof.
  intros Hs Hkvs. revert tbl Hs Hkvs.
  induction kvs as [|[k v] kvs IH]; intros tbl Hs Hkvs.
  { cbn. destruct (Z.eqb_spec (rd tbl (Z.to_nat s)) SYN_EMPTY); done. }
  apply Forall_cons_1 in Hkvs as [[Hk Hv] Hkvs].
  change (fill_all tbl ((k, v) :: kvs)) with (fill_all (syn_fill tbl k v) kvs).
  rewrite IH; rewrite ?length_syn_fill; try done. cbn [find fst snd].
  unfold syn_fill. destruct (Z.eqb_spec (rd tbl (Z.to_nat k)) SYN_EMPTY) as [Ek|Ek].
  - rewrite rd_insert. destruct (Z.eqb_spec s k) as [<-|Hsk].
    + rewrite decide_True by lia. rewrite Ek. cbn.
      destruct (Z.eqb_spec v SYN_EMPTY); done.
    + rewrite decide_False by (intros [? ?]; lia). done.
  - destruct (Z.eqb_spec s k) as [<-|Hsk]; [|done].
    destruct (Z.eqb_spec (rd tbl (Z.to_nat s)) SYN_EMPTY); done.
Qed.

Lemma pairs_spec n i j : In (i, j) (pairs n (seq 0 n)) <-> (i < j < n)%nat.
Proof.
  unfold pairs. rewrite <- list_elem_of_In, list_elem_of_bind. split.
  - intros (i' & H & Hi). apply list_elem_of_bind in H as (j' & H & Hj).
    apply list_elem_of_singleton in H as [= -> ->].
    apply elem_of_seq in Hi. apply elem_of_seq in Hj. lia.
  - intros H. exists i. split; [|apply elem_of_seq; lia].
    apply list_elem_of_bind. exists j. split; [by apply list_elem_of_singleton|apply elem_of_seq; lia].
Qed.

(** What an entry says, for every position of a word of at most 31 bits. *)
Lemma single_entry_spec i : (i < 31)%nat ->
  (single_entry i =? SYN_EMPTY) = false /\
  (Z.land (single_entry i) SYN_SINGLE_FLAG =? 0) = false /\ entry_lo (single_entry i) = i.
Proof.
  intros Hi.
  pose proof (forall_below (fun i => negb (single_entry i =? SYN_EMPTY) &&
     negb (Z.land (single_entry i) SYN_SINGLE_FLAG =? 0) && (entry_lo (single_entry i) =? i)%nat)
     31 ltac:(vm_compute; reflexivity) i Hi) as H. cbv beta in H.
  apply andb_prop in H as [H H3]. apply andb_prop in H as [H1 H2].
  apply negb_true_iff in H1, H2. by apply Nat.eqb_eq in H3.
Qed.

Lemma pair_entry_spec i j : (i < j < 31)%nat ->
  (pair_entry i j =? SYN_EMPTY) = false /\
  (Z.land (pair_entry i j) SYN_SINGLE_FLAG =? 0) = true /\
  entry_hi (pair_entry i j) = i /\ entry_lo (pair_entry i j) = j.
Proof.
  intros Hij.
  pose proof (forall_below (fun i => forallb (fun j =>
     negb (pair_entry i j =? SYN_EMPTY) && (Z.land (pair_entry i j) SYN_SINGLE_FLAG =? 0) &&
     (entry_hi (pair_entry i j) =? i)%nat && (entry_lo (pair_entry i j) =? j)%nat) (seq 0 31))
     31 ltac:(vm_compute; reflexivity) i ltac:(lia)) as H.
  assert (Hj : (j < 31)%nat) by lia.
  apply (fun H => forall_below _ _ H j Hj) in H. cbv beta in H.
  apply andb_prop in H as [H H4]. apply andb_prop in H as [H H3]. apply andb_prop in H as [H1 H2].
  apply negb_true_iff in H1. apply Nat.eqb_eq in H3, H4. done.
Qed.

Lemma find_map {A B} (P : B -> bool) (f : A -> B) l :
  find P (map f l) = option_map f (find (fun x => P (f x)) l).
Proof. induction l as [|x l IH]; [done|]. cbn. by destruct (P (f x)). Qed.

(** The table entry of a syndrome. *)
Lemma syn_build_entry poly d n s :
  degree poly d -> (1 <= n <= 31)%nat -> 0 <= s < 2 ^ Z.of_nat d ->
  rd (syn_build poly n (2 ^ Z.of_nat d)) (Z.to_nat s) =
  match find (fun i => s =? syn1 poly n i) (seq 0 n) with
  | Some i => single_entry i
  | None =>
    match find (fun '(i, j) => s =? Z.lxor (syn1 poly n i) (syn1 poly n j)) (pairs n (seq 0 n)) with
    | Some (i, j) => pair_entry i j
    | None => SYN_EMPTY
    end
  end.
Proof.
  intros Hdeg Hn Hs. rewrite syn_build_fill, fill_all_spec.
  - unfold rd at 1. rewrite nth_lookup, lookup_replicate_2 by (apply Z2Nat.inj_lt; lia). cbn [default].
    replace (SYN_EMPTY =? SYN_EMPTY) with true by reflexivity.
    unfold bindings. rewrite find_app, !find_map. cbn [fst].
    destruct (find _ (seq 0 n)) as [i|]; [done|]. cbn [option_map].
    rewrite (find_ext _ (fun '(i, j) => s =? Z.lxor (syn1 poly n i) (syn1 poly n j)))
      by (by intros [i j]).
    destruct (find _ (pairs n (seq 0 n))) as [[i j]|]; done.
  - rewrite length_replicate, Z2Nat.id by lia. done.
  - rewrite length_replicate, Z2Nat.id by lia. unfold bindings. apply Forall_app. split.
    + apply Forall_map, Forall_seq. intros i Hi. split; [apply syn1_bound; [done|lia..]|].
      apply Z.eqb_neq, single_entry_spec. lia.
    + apply Forall_map, Forall_forall. intros [i j] Hij%pairs_spec. split.
      * apply is_u_lxor; [lia|apply syn1_bound; [done|lia..]..].
      * apply Z.eqb_neq, pair_entry_spec. lia.
Qed.

(** ** The cache *)

Definition slot_ok (st : syn_state) (k : syn_slot) : Prop :=
  exists d, degree (slot_poly k) d /\ slot_deg k = Z.of_nat d /\
    (1 <= slot_n_bits k <= 31)%nat /\
    Z.of_nat (slot_tbl k) + 2 ^ Z.of_nat d <= s_syn_arena_used st /\
    slice (s_syn_arena st) (slot_tbl k) (Z.to_nat (2 ^ Z.of_nat d)) =
      syn_build (slot_poly k) (slot_n_bits k) (2 ^ Z.of_nat d).

(** Every published slot owns a finished table inside the used arena. *)
Record syn_ok (st : syn_state) : Prop := {
  syn_ok_arena : Z.of_nat (length (s_syn_arena st)) = SYN_ARENA_ENTRIES;
  syn_ok_used : 0 <= s_syn_arena_used st <= SYN_ARENA_ENTRIES;
  syn_ok_nslots : (length (s_syn_slots st) <= SYN_MAX_SLOTS)%nat;
  syn_ok_slots : Forall (slot_ok st) (s_syn_slots st) }.

Lemma syn_init_ok : syn_ok syn_init.
Proof. split; cbn; [reflexivity|unfold SYN_ARENA_ENTRIES; lia|lia|constructor]. Qed.

Lemma length_syn_build poly n len : length (syn_build poly n len) = Z.to_nat len.
Proof. by rewrite syn_build_fill, length_fill_all, length_replicate. Qed.

Lemma u32_bit_length_log2 x : 0 < x < 2 ^ 32 -> u32_bit_length x = Z.log2 x + 1.
Proof.
  intros Hx. unfold u32_bit_length. rewrite u32_bit_length_loop_spec by (cbn; lia).
  destruct (Z.eqb_spec x 0); lia.
Qed.

Lemma degree_of_bit_length poly :
  is_u 32 poly -> 1 <= u32_bit_length poly - 1 ->
  degree poly (Z.to_nat (u32_bit_length poly - 1)).
Proof.
  intros Hp Hl. destruct (Z.eq_dec poly 0) as [->|Hp0]; [cbn in Hl; lia|].
  unfold is_u in Hp. rewrite u32_bit_length_log2 in * by lia.
  rewrite Z.add_simpl_r in *. pose proof (Z.log2_lt_pow2 poly 32 ltac:(lia)).
  split; [lia|]. rewrite Z2Nat.id by lia. apply Z.log2_spec. lia.
Qed.

Lemma syn_get_slot_ok poly n st :
  syn_ok st -> is_u 32 poly ->
  let '(slot, st') := syn_get_slot poly n st in
  syn_ok st' /\
  match slot with
  | Some k => slot_ok st' k /\ slot_poly k = poly /\ slot_n_bits k = n
  | None => True
  end.
Proof.
  intros Hok Hp. unfold syn_get_slot.
  destruct (find _ (s_syn_slots st)) as [k|] eqn:Ef.
  { apply find_some in Ef as [Hin Hk]. split; [done|].
    apply andb_prop in Hk as [H1 H2]. apply Z.eqb_eq in H1. apply Nat.eqb_eq in H2.
    split; [|done]. pose proof (syn_ok_slots _ Hok) as Hs. rewrite Forall_forall in Hs. by apply Hs. }
  destruct ((_ <? 1) || _ || _) eqn:E1; [done|].
  destruct (SYN_MAX_SLOTS <=? _)%nat eqn:E2; [done|].
  destruct (SYN_ARENA_ENTRIES - _ <? _) eqn:E3; [done|].
  apply orb_false_iff in E1 as [E1 En2]. apply orb_false_iff in E1 as [E1 En1].
  apply Z.ltb_ge in E1. apply Nat.ltb_ge in En1, En2. unfold SYN_MAX_N_BITS in En2.
  apply Nat.leb_gt in E2. apply Z.ltb_ge in E3.
  pose proof (degree_of_bit_length poly Hp E1) as Hdeg.
  set (d := Z.to_nat (u32_bit_length poly - 1)) in *.
  assert (Ed : u32_bit_length poly - 1 = Z.of_nat d) by (unfold d; lia).
  rewrite Ed in *. rewrite Z.shiftl_mul_pow2, Z.mul_1_l in * by lia.
  destruct Hok as [Ha Hu Hn Hs].
  assert (H2d : 0 < 2 ^ Z.of_nat d) by (apply Z.pow_pos_nonneg; lia).
  set (used := s_syn_arena_used st) in *.
  set (st' := SynState _ _ _).
  assert (Hnew : slot_ok st' (SynSlot poly n (Z.of_nat d) (Z.to_nat used))).
  { exists d. cbn. split; [done|]. split; [done|]. split; [lia|]. split; [lia|].
    rewrite <- (length_syn_build poly n (2 ^ Z.of_nat d)) at 1. apply slice_blit. lia. }
  split; [|done]. split; cbn.
  - rewrite length_blit; [done|]. rewrite length_syn_build. lia.
  - lia.
  - rewrite length_app. cbn. lia.
  - apply Forall_app. split; [|by constructor].
    eapply Forall_impl; [|exact Hs]. intros k (dk & H1 & H2 & H3 & H4 & H5).
    exists dk. do 3 (split; [done|]). cbn. fold used in H4. split; [lia|].
    rewrite <- H5. apply slice_blit_before; lia.
Qed.

Lemma slot_entry_build st k poly d n s :
  slot_ok st k -> slot_poly k = poly -> slot_n_bits k = n -> degree poly d ->
  0 <= s < 2 ^ Z.of_nat d ->
  slot_deg k = Z.of_nat d /\
  slot_entry st k s = rd (syn_build poly n (2 ^ Z.of_nat d)) (Z.to_nat s).
Proof.
  intros (d' & Hdeg' & Hkd & _ & _ & Htbl) <- <- Hdeg Hs.
  assert (d' = d) as ->.
  { pose proof (u32_bit_length_degree _ _ Hdeg'). pose proof (u32_bit_length_degree _ _ Hdeg). lia. }
  split; [done|]. rewrite <- Htbl. unfold slot_entry. by rewrite rd_slice by (apply Z2Nat.inj_lt; lia).
Qed.

Lemma slot_ok_degree st k poly n :
  slot_ok st k -> slot_poly k = poly -> slot_n_bits k = n ->
  exists d, degree poly d /\ (1 <= n <= 31)%nat.
Proof. intros (d & ? & _ & ? & _) <- <-. eauto. Qed.

(** ** The repairs *)

(** A usable slot's entry, read at the syndrome of [bits]. *)
Lemma slot_entry_ok st k poly n bits :
  slot_ok st k -> slot_poly k = poly -> slot_n_bits k = n ->
  exists d, degree poly d /\ (1 <= n <= 31)%nat /\
    let syn := iridium_bch_ndivide poly bits n in
    (Z.shiftr syn (slot_deg k) =? 0) = true /\
    slot_entry st k syn =
    match find (fun i => syn =? syn1 poly n i) (seq 0 n) with
    | Some i => single_entry i
    | None =>
      match find (fun '(i, j) => syn =? Z.lxor (syn1 poly n i) (syn1 poly n j))
                 (pairs n (seq 0 n)) with
      | Some (i, j) => pair_entry i j
      | None => SYN_EMPTY
      end
    end.
Proof.
  intros Hk Hp Hn. destruct (slot_ok_degree st k poly n Hk Hp Hn) as (d & Hdeg & Hn').
  exists d. split; [done|]. split; [done|]. cbv zeta.
  pose proof (ndivide_bound poly d bits n Hdeg ltac:(lia)) as Hs.
  destruct (slot_entry_build st k poly d n _ Hk Hp Hn Hdeg Hs) as [Ed Ee].
  split.
  - rewrite Ed, Z.shiftr_div_pow2, Z.div_small by lia. reflexivity.
  - rewrite Ee. by apply syn_build_entry.
Qed.

Lemma find_seq_bound P n i : find P (seq 0 n) = Some i -> (i < n)%nat.
Proof. intros [H _]%find_some. apply in_seq in H. lia. Qed.

Lemma Forall_lt_seq n : Forall (fun i => (i < n)%nat) (seq 0 n).
Proof. apply Forall_seq. lia. Qed.

(** The cache state after a call. *)
Definition after_lookup (poly : Z) (bits : list Z) (n : nat) (st : syn_state) : syn_state :=
  if (n =? 0)%nat || (iridium_bch_ndivide poly bits n =? 0) then st
  else (syn_get_slot poly n st).2.

Lemma after_lookup_ok poly bits n st :
  syn_ok st -> is_u 32 poly -> syn_ok (after_lookup poly bits n st).
Proof.
  intros Hok Hp. unfold after_lookup. destruct (_ || _); [done|].
  pose proof (syn_get_slot_ok poly n st Hok Hp) as H.
  destruct (syn_get_slot poly n st). apply H.
Qed.

Lemma repair1_eq poly bits n st :
  syn_ok st -> is_u 32 poly -> (n <= length bits)%nat ->
  iridium_bch_repair1 poly bits n st =
  (iridium_bch_repair1_ref poly bits n, after_lookup poly bits n st).
Proof.
  intros Hok Hp Hl. unfold iridium_bch_repair1, iridium_bch_repair1_ref, after_lookup.
  destruct (n =? 0)%nat; [done|]. cbn [orb].
  destruct (iridium_bch_ndivide poly bits n =? 0); [done|].
  pose proof (syn_get_slot_ok poly n st Hok Hp) as H.
  destruct (syn_get_slot poly n st) as [[k|] st']; [|done].
  destruct H as (_ & Hk & Hkp & Hkn). cbn [snd].
  destruct (slot_entry_ok st' k poly n bits Hk Hkp Hkn) as (d & Hdeg & Hn & -> & ->).
  cbn [negb]. rewrite (flip_pass_find poly d) by (try done; try lia; apply Forall_lt_seq).
  destruct (find _ (seq 0 n)) as [i|] eqn:Ei.
  - apply find_seq_bound in Ei. destruct (single_entry_spec i ltac:(lia)) as (-> & -> & ->). done.
  - destruct (find _ (pairs _ _)) as [[i j]|] eqn:Eij; [|done].
    apply find_some in Eij as [Hij%pairs_spec _].
    destruct (pair_entry_spec i j ltac:(lia)) as (-> & -> & _). done.
Qed.

Lemma repair2_eq poly bits n st :
  syn_ok st -> is_u 32 poly -> (n <= length bits)%nat ->
  iridium_bch_repair2 poly bits n st =
  (iridium_bch_repair2_ref poly bits n, after_lookup poly bits n st).
Proof.
  intros Hok Hp Hl. unfold iridium_bch_repair2, iridium_bch_repair2_ref, after_lookup.
  destruct (n =? 0)%nat; [done|]. cbn [orb].
  destruct (iridium_bch_ndivide poly bits n =? 0); [done|].
  pose proof (syn_get_slot_ok poly n st Hok Hp) as H.
  destruct (syn_get_slot poly n st) as [[k|] st']; [|done].
  destruct H as (_ & Hk & Hkp & Hkn). cbn [snd].
  destruct (slot_entry_ok st' k poly n bits Hk Hkp Hkn) as (d & Hdeg & Hn & -> & ->).
  cbn [negb]. rewrite (flip_pass_find poly d) by (try done; try lia; apply Forall_lt_seq).
  destruct (find _ (seq 0 n)) as [i|] eqn:Ei.
  - apply find_seq_bound in Ei. destruct (single_entry_spec i ltac:(lia)) as (-> & -> & ->). done.
  - rewrite (flip_pair_pass_find poly d) by (try done; try lia; apply Forall_lt_seq).
    destruct (find _ (pairs _ _)) as [[i j]|] eqn:Eij; [|done].
    apply find_some in Eij as [Hij%pairs_spec _].
    destruct (pair_entry_spec i j ltac:(lia)) as (-> & -> & -> & ->). done.
Qed.

(** ** Codes that correct two errors *)

Definition flips (es : list nat) (bits : list Z) : list Z := fold_left flip es bits.

Definition syn_of (poly : Z) (n : nat) (es : list nat) : Z :=
  fold_left (fun s i => Z.lxor s (syn1 poly n i)) es 0.

(** Every error pattern of weight at most [t] (1 or 2) has its own syndrome. *)
Definition patterns (t n : nat) : list (list nat) :=
  [] :: map (fun i => [i]) (seq 0 n) ++
  (if (t <=? 1)%nat then [] else map (fun '(i, j) => [i; j]) (pairs n (seq 0 n))).

Fixpoint nodupb (l : list Z) : bool :=
  match l with
  | [] => true
  | x :: l => negb (existsb (Z.eqb x) l) && nodupb l
  end.

Definition corrects (t : nat) (poly : Z) (n : nat) : bool :=
  nodupb (map (syn_of poly n) (patterns t n)).

(** The word lengths and generators the decoders use: 2-bit correction for
    ACCH, ring alert, messaging and the left LCW word; 1-bit correction for
    the middle LCW word and the broadcast header. *)
Definition codes2 : list (Z * nat) := [(3545, 31%nat); (1207, 31%nat); (1897, 31%nat); (465, 14%nat)].
Definition codes1 : list (Z * nat) := [(41, 26%nat); (29, 7%nat); (29, 6%nat)].

Lemma codes_correct :
  forallb (fun '(p, n) => corrects 2 p n) codes2 &&
  forallb (fun '(p, n) => corrects 1 p n) (codes1 ++ codes2) = true.
Proof. vm_compute. reflexivity. Qed.

Lemma flip_comm bits i j : i <> j -> flip (flip bits i) j = flip (flip bits j) i.
Proof.
  intros H. unfold flip.
  assert (E : forall a b v, a <> b -> rd (<[a := v]> bits) b = rd bits b).
  { intros a b v Hab. unfold rd. by rewrite !nth_lookup, list_lookup_insert_ne. }
  rewrite !E by done. by apply list_insert_insert_ne.
Qed.

Lemma nodupb_spec l : nodupb l = true -> NoDup l.
Proof.
  induction l as [|x l IH]; [constructor|]. cbn. intros [H1 H2]%andb_prop.
  constructor; [|by apply IH]. intros Hin. apply negb_true_iff in H1.
  assert (E : existsb (Z.eqb x) l = true).
  { apply existsb_exists. exists x. split; [by apply list_elem_of_In|apply Z.eqb_refl]. }
  congruence.
Qed.

Lemma patterns_inj t poly n e e' :
  corrects t poly n = true -> e ∈ patterns t n -> e' ∈ patterns t n ->
  syn_of poly n e = syn_of poly n e' -> e = e'.
Proof.
  intros Hc%nodupb_spec. revert Hc.
  generalize (patterns t n). clear. intros l Hc He He' Hs.
  apply list_elem_of_lookup in He as [a Ha]. apply list_elem_of_lookup in He' as [b Hb].
  assert (a = b) as ->; [|congruence].
  apply (NoDup_lookup (map (syn_of poly n) l) a b (syn_of poly n e)); [done|..];
    rewrite list_lookup_fmap', ?Ha, ?Hb; cbn; congruence.
Qed.

Lemma elem_patterns1 t n i : (i < n)%nat -> [i] ∈ patterns t n.
Proof.
  intros Hi. apply list_elem_of_In. right. apply in_app_iff. left.
  apply (in_map (fun i => [i])), in_seq. lia.
Qed.

Lemma elem_patterns2 n i j : (i < j < n)%nat -> [i; j] ∈ patterns 2 n.
Proof.
  intros Hij. apply list_elem_of_In. right. apply in_app_iff. right.
  apply (in_map (fun '(i, j) => [i; j]) _ (i, j)), pairs_spec. done.
Qed.

(** Any set of at most two error positions is one of the patterns. *)
Lemma flips_pattern t n es bits :
  (1 <= t <= 2)%nat -> NoDup es -> (length es <= t)%nat -> Forall (fun i => (i < n)%nat) es ->
  exists es', es' ∈ patterns t n /\ length es' = length es /\ flips es bits = flips es' bits /\
              Forall (fun i => (i < n)%nat) es'.
Proof.
  intros Ht Hnd Hl Hb. destruct es as [|i [|j [|k es]]].
  - exists []. split; [|done]. apply list_elem_of_In. by left.
  - exists [i]. split; [|done]. apply elem_patterns1. by inversion Hb.
  - assert (t = 2%nat) as -> by (cbn in Hl; lia).
    inversion Hnd as [|? ? Hij _]; subst. rewrite list_elem_of_singleton in Hij.
    apply Forall_cons_1 in Hb as [Hi Hj]. apply Forall_cons_1 in Hj as [Hj _].
    destruct (Nat.lt_ge_cases i j).
    + exists [i; j]. repeat split; [apply elem_patterns2; lia|by repeat constructor].
    + exists [j; i]. repeat split; [apply elem_patterns2; lia| |by repeat constructor].
      cbn. by apply flip_comm.
  - cbn in Hl. lia.
Qed.

Lemma length_flips es bits : length (flips es bits) = length bits.
Proof.
  unfold flips. revert bits. induction es as [|i es IH]; intros bits; [done|].
  cbn. by rewrite IH, length_flip.
Qed.

Lemma ndivide_flips poly d bits n es :
  degree poly d -> (n <= 32)%nat -> Forall (fun i => (i < n)%nat) es -> (n <= length bits)%nat ->
  iridium_bch_ndivide poly (flips es bits) n =
  Z.lxor (iridium_bch_ndivide poly bits n) (syn_of poly n es).
Proof.
  intros Hdeg Hn Hes Hl. induction es as [|i es IH] using rev_ind.
  - cbn. by rewrite Z.lxor_0_r.
  - apply Forall_app in Hes as [Hes Hi]. apply Forall_cons_1 in Hi as [Hi _].
    unfold flips, syn_of. rewrite !fold_left_app. cbn [fold_left].
    fold (flips es bits). fold (syn_of poly n es).
    rewrite (ndivide_flip poly d), IH by (rewrite ?length_flips; done). apply Z.lxor_assoc.
Qed.

Lemma repair1_ref_corrects poly d n cw es :
  degree poly d -> (1 <= n <= 31)%nat -> corrects 1 poly n = true -> (n <= length cw)%nat ->
  iridium_bch_ndivide poly cw n = 0 ->
  es ∈ patterns 1 n -> Forall (fun i => (i < n)%nat) es ->
  iridium_bch_repair1_ref poly (flips es cw) n = (Z.of_nat (length es), cw).
Proof.
  intros Hdeg Hn Hc Hl Hcw Hp Hes. unfold iridium_bch_repair1_ref.
  destruct (Nat.eqb_spec n 0); [lia|].
  rewrite (flip_pass_find poly d) by
    (rewrite ?length_flips; try done; try lia; apply Forall_lt_seq).
  rewrite (ndivide_flips poly d), Hcw, Z.lxor_0_l by (done || lia).
  destruct (Z.eqb_spec (syn_of poly n es) 0) as [E|E].
  { assert (es = []) as -> by (eapply patterns_inj; eauto; by apply list_elem_of_In; left). done. }
  destruct (find _ (seq 0 n)) as [i|] eqn:Ei.
  - apply find_some in Ei as [Hi E1%Z.eqb_eq]. apply in_seq in Hi.
    assert (es = [i]) as -> by (eapply patterns_inj; eauto; apply elem_patterns1; lia).
    cbn. by rewrite flip_flip.
  - apply list_elem_of_In in Hp as [<-|Hp]; [done|]. cbn [Nat.leb] in Hp.
    apply in_app_iff in Hp as [Hp|[]]. apply in_map_iff in Hp as (i & <- & Hi).
    pose proof (find_none _ _ Ei i Hi) as E1. cbn in E1.
    by rewrite Z.eqb_refl in E1.
Qed.

Lemma repair2_ref_corrects poly d n cw es :
  degree poly d -> (1 <= n <= 31)%nat -> corrects 2 poly n = true -> (n <= length cw)%nat ->
  iridium_bch_ndivide poly cw n = 0 ->
  es ∈ patterns 2 n -> Forall (fun i => (i < n)%nat) es ->
  iridium_bch_repair2_ref poly (flips es cw) n = (Z.of_nat (length es), cw).
Proof.
  intros Hdeg Hn Hc Hl Hcw Hp Hes. unfold iridium_bch_repair2_ref.
  destruct (Nat.eqb_spec n 0); [lia|].
  rewrite (flip_pass_find poly d) by
    (rewrite ?length_flips; try done; try lia; apply Forall_lt_seq).
  rewrite (ndivide_flips poly d), Hcw, Z.lxor_0_l by (done || lia).
  destruct (Z.eqb_spec (syn_of poly n es) 0) as [E|E].
  { assert (es = []) as -> by (eapply patterns_inj; eauto; by apply list_elem_of_In; left). done. }
  destruct (find _ (seq 0 n)) as [i|] eqn:Ei.
  { apply find_some in Ei as [Hi E1%Z.eqb_eq]. apply in_seq in Hi.
    assert (es = [i]) as -> by (eapply patterns_inj; eauto; apply elem_patterns1; lia).
    cbn. by rewrite flip_flip. }
  rewrite (flip_pair_pass_find poly d) by
    (rewrite ?length_flips; try done; try lia; apply Forall_lt_seq).
  rewrite (ndivide_flips poly d), Hcw, Z.lxor_0_l by (done || lia).
  destruct (find _ (pairs _ _)) as [[i j]|] eqn:Eij.
  - apply find_some in Eij as [Hij%pairs_spec E2%Z.eqb_eq].
    assert (es = [i; j]) as -> by (eapply patterns_inj; eauto; by apply elem_patterns2).
    cbn. rewrite (flip_comm (flip cw i) j i), flip_flip, flip_flip by lia. done.
  - apply list_elem_of_In in Hp as [<-|Hp]; [done|]. cbn [Nat.leb] in Hp.
    apply in_app_iff in Hp as [Hp|Hp]; apply in_map_iff in Hp.
    + destruct Hp as (i & <- & Hi). pose proof (find_none _ _ Ei i Hi) as E1. cbn in E1.
      by rewrite Z.eqb_refl in E1.
    + destruct Hp as ([i j] & <- & Hi). pose proof (find_none _ _ Eij _ Hi) as E1. cbn in E1.
      by rewrite Z.eqb_refl in E1.
Qed.

Lemma codes_degree poly n : In (poly, n) (codes1 ++ codes2) ->
  exists d, degree poly d /\ (1 <= n <= 31)%nat /\ is_u 32 poly.
Proof.
  intros Hin. pose proof (proj1 (forallb_forall (fun '(poly, n) =>
    let d := Z.log2 poly in
    (1 <=? d) && (d <=? 31) && (2 ^ d <=? poly) && (poly <? 2 ^ (d + 1)) &&
    (1 <=? n)%nat && (n <=? 31)%nat && (poly <? 2 ^ 32)) (codes1 ++ codes2)) eq_refl _ Hin) as H.
  cbv beta iota zeta in H. repeat (apply andb_prop in H as [H ?]).
  exists (Z.to_nat (Z.log2 poly)). unfold degree, is_u. rewrite Z2Nat.id by lia.
  repeat match goal with E : (_ <=? _)%nat = true |- _ => apply Nat.leb_le in E end. lia.
Qed.

Lemma repair2_ref_codes poly n cw es :
  In (poly, n) codes2 -> (n <= length cw)%nat -> iridium_bch_ndivide poly cw n = 0 ->
  NoDup es -> Forall (fun i => (i < n)%nat) es -> (length es <= 2)%nat ->
  iridium_bch_repair2_ref poly (flips es cw) n = (Z.of_nat (length es), cw).
Proof.
  intros Hin Hl Hcw Hnd Hb Hes.
  destruct (codes_degree poly n) as (d & Hdeg & Hn & _); [apply in_app_iff; by right|].
  destruct (flips_pattern 2 n es cw ltac:(lia) Hnd Hes Hb) as (es' & Hp' & Hl' & -> & Hb').
  rewrite <- Hl'. apply (repair2_ref_corrects poly d); try done.
  pose proof codes_correct as [Hc _]%andb_prop. rewrite forallb_forall in Hc.
  exact (Hc _ Hin).
Qed.

(** [iridium_bch_repair2] on a corrupted word of a code of the decoders. *)
Lemma repair2_codes poly n cw es st :
  syn_ok st -> In (poly, n) codes2 -> (n <= length cw)%nat ->
  iridium_bch_ndivide poly cw n = 0 ->
  NoDup es -> Forall (fun i => (i < n)%nat) es -> (length es <= 2)%nat ->
  (iridium_bch_repair2 poly (flips es cw) n st).1 = (Z.of_nat (length es), cw) /\
  syn_ok (iridium_bch_repair2 poly (flips es cw) n st).2.
Proof.
  intros Hok Hin Hl Hcw Hnd Hb Hes.
  destruct (codes_degree poly n) as (d & Hdeg & Hn & Hp); [apply in_app_iff; by right|].
  rewrite repair2_eq by (rewrite ?length_flips; done).
  split; [|by apply after_lookup_ok]. by apply repair2_ref_codes.
Qed.

Lemma repair1_codes poly n cw es st :
  syn_ok st -> In (poly, n) (codes1 ++ codes2) -> (n <= length cw)%nat ->
  iridium_bch_ndivide poly cw n = 0 ->
  NoDup es -> Forall (fun i => (i < n)%nat) es -> (length es <= 1)%nat ->
  (iridium_bch_repair1 poly (flips es cw) n st).1 = (Z.of_nat (length es), cw) /\
  syn_ok (iridium_bch_repair1 poly (flips es cw) n st).2.
Proof.
  intros Hok Hin Hl Hcw Hnd Hb Hes.
  destruct (codes_degree poly n Hin) as (d & Hdeg & Hn & Hp).
  rewrite repair1_eq by (rewrite ?length_flips; done).
  split; [|by apply after_lookup_ok]. cbn [fst].
  destruct (flips_pattern 1 n es cw ltac:(lia) Hnd Hes Hb) as (es' & Hp' & Hl' & -> & Hb').
  rewrite <- Hl'. apply (repair1_ref_corrects poly d); try done.
  pose proof codes_correct as [_ Hc]%andb_prop. rewrite forallb_forall in Hc.
  exact (Hc _ Hin).
Qed.

(** What the sign and zero of a two-bit repair say. *)
Lemma repair2_ref_zero poly bits n :
  (1 <= n)%nat -> ((iridium_bch_repair2_ref poly bits n).1 =? 0) = (iridium_bch_ndivide poly bits n =? 0).
Proof.
  intros Hn. unfold iridium_bch_repair2_ref. destruct (Nat.eqb_spec n 0); [lia|].
  destruct (iridium_bch_ndivide poly bits n =? 0); [done|].
  destruct (flip_pass _ _ _ _) as [[] ?]; [done|].
  by destruct (flip_pair_pass _ _ _ _) as [[] ?].
Qed.

Lemma repair2_ref_nonneg poly d n cw es :
  degree poly d -> (1 <= n <= 31)%nat -> (n <= length cw)%nat ->
  iridium_bch_ndivide poly cw n = 0 ->
  NoDup es -> Forall (fun i => (i < n)%nat) es -> (length es <= 2)%nat ->
  0 <= (iridium_bch_repair2_ref poly (flips es cw) n).1.
Proof.
  intros Hdeg Hn Hl Hcw Hnd Hb Hes.
  destruct (flips_pattern 2 n es cw ltac:(lia) Hnd Hes Hb) as (es' & Hp & _ & -> & Hb').
  unfold iridium_bch_repair2_ref. destruct (Nat.eqb_spec n 0); [lia|].
  rewrite (flip_pass_find poly d) by
    (rewrite ?length_flips; try done; try lia; apply Forall_lt_seq).
  rewrite (ndivide_flips poly d), Hcw, Z.lxor_0_l by (done || lia).
  destruct (Z.eqb_spec (syn_of poly n es') 0) as [E|E]; [done|].
  destruct (find _ (seq 0 n)) as [i|] eqn:Ei; [done|].
  rewrite (flip_pair_pass_find poly d) by
    (rewrite ?length_flips; try done; try lia; apply Forall_lt_seq).
  rewrite (ndivide_flips poly d), Hcw, Z.lxor_0_l by (done || lia).
  destruct (find _ (pairs _ _)) as [[i j]|] eqn:Eij; [done|]. exfalso.
  apply list_elem_of_In in Hp as [<-|Hp]; [done|]. cbn [Nat.leb] in Hp.
  apply in_app_iff in Hp as [Hp|Hp]; apply in_map_iff in Hp.
  - destruct Hp as (i & <- & Hi). pose proof (find_none _ _ Ei i Hi) as E1. cbn in E1.
    by rewrite Z.eqb_refl in E1.
  - destruct Hp as ([i j] & <- & Hi). pose proof (find_none _ _ Eij _ Hi) as E1. cbn in E1.
    by rewrite Z.eqb_refl in E1.
Qed.

Lemma length_flip_pass poly n idx bits : length (flip_pass poly n idx bits).2 = length bits.
Proof.
  revert bits. induction idx as [|i idx IH]; intros bits; [done|]. cbn [flip_pass].
  destruct (_ =? 0); [apply length_flip|]. by rewrite IH, !length_flip.
Qed.

(** ** Properties *)

(** C33: the syndrome-table repairs are the brute-force references: for every
    generator, word and word length and every state the cache can be in, both
    return the same count and leave the same bits (miscorrections of heavier
    errors included), and they keep the cache well formed. *)
Theorem iridium_bch_repair_is_ref poly bits n st :
  syn_ok st -> is_u 32 poly -> (n <= length bits)%nat ->
  (iridium_bch_repair1 poly bits n st).1 = iridium_bch_repair1_ref poly bits n /\
  (iridium_bch_repair2 poly bits n st).1 = iridium_bch_repair2_ref poly bits n /\
  syn_ok (iridium_bch_repair1 poly bits n st).2 /\
  syn_ok (iridium_bch_repair2 poly bits n st).2.
Proof.
  intros Hok Hp Hl. rewrite repair1_eq, repair2_eq by done.
  repeat split; by apply after_lookup_ok.
Qed.

Lemma iridium_bch_repair_is_ref_witness :
  (iridium_bch_repair2 3545 (replicate 31 1) 31 syn_init).1 =
  iridium_bch_repair2_ref 3545 (replicate 31 1) 31.
Proof.
  destruct (iridium_bch_repair_is_ref 3545 (replicate 31 1) 31 syn_init) as (_ & H & _).
  - apply syn_init_ok.
  - unfold is_u. lia.
  - cbn. lia.
  - exact H.
Defined.

(** C24: for every code the decoders use, the repairs undo any pattern of
    flipped bits up to the code's strength (two for ACCH, ring alert,
    messaging and the left LCW word, one for all of them) and return the exact
    number of bits that were wrong. *)
Theorem iridium_bch_repair_corrects poly n cw es st :
  syn_ok st -> (n <= length cw)%nat -> iridium_bch_ndivide poly cw n = 0 ->
  NoDup es -> Forall (fun i => (i < n)%nat) es ->
  (In (poly, n) codes2 -> (length es <= 2)%nat ->
     (iridium_bch_repair2 poly (flips es cw) n st).1 = (Z.of_nat (length es), cw)) /\
  (In (poly, n) (codes1 ++ codes2) -> (length es <= 1)%nat ->
     (iridium_bch_repair1 poly (flips es cw) n st).1 = (Z.of_nat (length es), cw)).
Proof.
  intros. split; intros; [by apply repair2_codes|by apply repair1_codes].
Qed.

Lemma iridium_bch_repair_corrects_witness :
  (iridium_bch_repair2 1207 (flips [3; 17]%nat (replicate 31 0)) 31 syn_init).1 =
  (Z.of_nat 2, replicate 31 0).
Proof.
  destruct (iridium_bch_repair_corrects 1207 31 (replicate 31 0) [3; 17]%nat syn_init)
    as [H _].
  - apply syn_init_ok.
  - cbn. lia.
  - reflexivity.
  - apply (bool_decide_unpack _). reflexivity.
  - repeat constructor.
  - apply H; cbn; auto.
Defined.
