(* ===== verification/IridiumFrame.v ===== *)
(** Top-level frame classification (src/common/iridium_decoder/iridium_frame.c).

    A demodulated burst is sorted into MS, TL, BC, LW or RA by fixed prefixes
    and BCH checks; a "harder" fallback repairs the link control word of frames
    the strict dispatch rejects and can only produce LW.DA.  The BCH cache is
    threaded through as state. *)

From S2P Require Import Prelude Gf2 Bits IridiumBch.
From Stdlib Require String.
Import (notations) String.

(** ** Data *)

Inductive ir_frame_type := IR_FRAME_UNKNOWN | IR_FRAME_MS | IR_FRAME_TL | IR_FRAME_BC
  | IR_FRAME_LW | IR_FRAME_RA.
Inductive ir_frame_direction := IR_FRM_DIR_DOWNLINK | IR_FRM_DIR_UPLINK.
Inductive ir_lw_subtype := IR_LW_VO | IR_LW_IP | IR_LW_DA | IR_LW_U3 | IR_LW_U4 | IR_LW_U5
  | IR_LW_U6 | IR_LW_SY | IR_LW_NONE.

#[export] Instance ir_frame_type_eq_dec : EqDecision ir_frame_type.
Proof. solve_decision. Defined.
#[export] Instance ir_frame_direction_eq_dec : EqDecision ir_frame_direction.
Proof. solve_decision. Defined.
#[export] Instance ir_lw_subtype_eq_dec : EqDecision ir_lw_subtype.
Proof. solve_decision. Defined.

(** The cast of the 3-bit frame type field. *)
Definition lw_subtype_of (ft : Z) : ir_lw_subtype :=
  match ft with
  | 0 => IR_LW_VO | 1 => IR_LW_IP | 2 => IR_LW_DA | 3 => IR_LW_U3 | 4 => IR_LW_U4
  | 5 => IR_LW_U5 | 6 => IR_LW_U6 | 7 => IR_LW_SY | _ => IR_LW_NONE
  end.

Record iridium_frame := IridiumFrame {
  fr_type : ir_frame_type; fr_direction : ir_frame_direction; fr_lw_subtype : ir_lw_subtype;
  fr_payload_off : nat; fr_bits : list Z; fr_n_bits : nat }.

Definition HEADER_MESSAGING : list Z :=
  [0; 0; 1; 1; 0; 0; 1; 1; 1; 1; 1; 1; 0; 0; 1; 1;
   0; 0; 1; 1; 0; 0; 1; 1; 1; 1; 1; 1; 0; 0; 1; 1].
Definition UW_DL : list Z :=
  [0; 0; 1; 1; 0; 0; 0; 0; 0; 0; 1; 1; 0; 0; 0; 0; 1; 1; 1; 1; 0; 0; 1; 1].
Definition UW_UL : list Z :=
  [1; 1; 0; 0; 1; 1; 0; 0; 0; 0; 1; 1; 1; 1; 0; 0; 1; 1; 1; 1; 1; 1; 0; 0].

Definition HEADER_TIME_LOCATION_LEN : nat := 96.
Definition MIN_PAYLOAD_BITS : nat := 32.
Definition UW_BITS : nat := 24.
Definition BC_HDR_LEN : nat := 6.
Definition BC_BLOCK_LEN : nat := 64.
Definition RA_HEAD_BITS : nat := 96.
Definition LW_LCW_BITS : nat := 46.

(** ** Dispatch tests *)

Definition bits_equal (a b : list Z) (n : nat) : bool :=
  forallb (fun i => bit (rd a i) =? bit (rd b i)) (seq 0 n).

Definition looks_like_time_location (p : list Z) (n : nat) : bool :=
  if (n <? HEADER_TIME_LOCATION_LEN)%nat then false
  else if negb (bit (rd p 0) =? 1) || negb (bit (rd p 1) =? 1) then false
  else forallb (fun i => bit (rd p i) =? 0) (seq 2 (HEADER_TIME_LOCATION_LEN - 2)).

(** The two outputs (odd, even). *)
Definition de_interleave_pair (l : list Z) (n_in : nat) : list Z * list Z :=
  let n_sym := (n_in / 2)%nat in
  (take_symbols l (down_by 2 (n_sym - 1)), take_symbols l (down_by 2 (n_sym - 2))).

(** The three outputs (first, second, third). *)
Definition de_interleave3 (l : list Z) (n_in : nat) : list Z * list Z * list Z :=
  let n_sym := (n_in / 2)%nat in
  let third := take_symbols l (down_by 3 (n_sym - 3)) in
  let second := take_symbols l (down_by 3 (n_sym - 2)) in
  let first := take_symbols l (down_by 3 (n_sym - 1)) in
  (first, second, third).

Definition classify_ra (p : list Z) (avail : nat) : bool :=
  if (avail <? RA_HEAD_BITS)%nat then false else
  let '(cw1, cw2, cw3) := de_interleave3 p RA_HEAD_BITS in
  (iridium_bch_ndivide 1207 cw1 31 =? 0) && (iridium_bch_ndivide 1207 cw2 31 =? 0) &&
  (iridium_bch_ndivide 1207 cw3 31 =? 0).

Definition classify_bc (p : list Z) (avail : nat) : bool :=
  if (avail <? BC_HDR_LEN + BC_BLOCK_LEN)%nat then false else
  if negb (iridium_bch_ndivide 29 p BC_HDR_LEN =? 0) then false else
  let '(odd, even) := de_interleave_pair (drop BC_HDR_LEN p) BC_BLOCK_LEN in
  (iridium_bch_ndivide 1207 odd 31 =? 0) && (iridium_bch_ndivide 1207 even 31 =? 0).

Definition LCW_TBL : list nat :=
  [39; 38; 35; 34; 31; 30; 27; 26; 23; 22; 19; 18; 15; 14; 11; 10; 7; 6; 3; 2;
   40; 37; 36; 33; 32; 29; 28; 25; 24; 21; 20; 17; 16; 13; 12; 9; 8; 5; 4; 1; 0;
   45; 44; 43; 42; 41]%nat.

(** The permuted link control word and its three sub-words
    (the middle one still without its trailing bit). *)
Definition lcw_permuted (p : list Z) : list Z := map (fun i => bit (rd p i)) LCW_TBL.
Definition lcw_words (p : list Z) : list Z * list Z * list Z :=
  let permuted := lcw_permuted p in
  (slice permuted 0 7, slice permuted 7 13, slice permuted 20 26).

(** [(lcw1[0] << 2) | (lcw1[1] << 1) | lcw1[2]] *)
Definition lcw_ft (lcw1 : list Z) : Z :=
  u8 (Z.lor (Z.lor (Z.shiftl (rd lcw1 0) 2) (Z.shiftl (rd lcw1 1) 1)) (rd lcw1 2)).

(** [None] is the C result 0; [Some s] is 1 with [*subtype_out = s]. *)
Definition classify_lw_harder (p : list Z) (avail : nat) (st : syn_state)
  : option ir_lw_subtype * syn_state :=
  if (avail <? LW_LCW_BITS)%nat then (None, st) else
  let '(lcw1, lcw2, lcw3) := lcw_words p in
  let '(e1, lcw1, st) := iridium_bch_repair1 29 lcw1 7 st in
  if e1 <? 0 then (None, st) else
  let '(e3, lcw3, st) := iridium_bch_repair2 41 lcw3 26 st in
  if e3 <? 0 then (None, st) else
  let '(e2, _, st) := iridium_bch_repair2 465 (lcw2 ++ [0]) 14 st in
  let '(e2, st) :=
    if e2 <? 0 then
      let '(e2, _, st) := iridium_bch_repair2 465 (lcw2 ++ [1]) 14 st in (e2, st)
    else (e2, st) in
  if e2 <? 0 then (None, st) else
  if bool_decide (lw_subtype_of (lcw_ft lcw1) = IR_LW_DA) then (Some IR_LW_DA, st)
  else (None, st).

Definition classify_lw (p : list Z) (avail : nat) (st : syn_state)
  : option ir_lw_subtype * syn_state :=
  if (avail <? LW_LCW_BITS)%nat then (None, st) else
  let '(lcw1, lcw2, lcw3) := lcw_words p in
  if negb (iridium_bch_ndivide 29 lcw1 7 =? 0) then (None, st) else
  if negb (iridium_bch_ndivide 41 lcw3 26 =? 0) then (None, st) else
  let '(e2, _, st) := iridium_bch_repair2 465 (lcw2 ++ [0]) 14 st in
  let '(e2, st) :=
    if e2 =? 1 then
      let '(e2, _, st) := iridium_bch_repair2 465 (lcw2 ++ [1]) 14 st in (e2, st)
    else (e2, st) in
  if negb (e2 =? 0) then (None, st) else
  (Some (lw_subtype_of (lcw_ft lcw1)), st).

(** ** The classifier *)

(** The pair-swapped payload prefix the dispatch reads ([swapped],
    [swap_len]). *)
Definition swap_len (avail : nat) : nat :=
  let n := Nat.min avail 128 in if Nat.odd n then (n - 1)%nat else n.
Definition swapped_prefix (p : list Z) (avail : nat) : list Z :=
  pair_swap (map bit (take (swap_len avail) p)).

(** Strict dispatch: the first test that accepts. *)
Definition strict_dispatch (s : list Z) (n : nat) (st : syn_state)
  : option (ir_frame_type * ir_lw_subtype) * syn_state :=
  if (32 <=? n)%nat && bits_equal s HEADER_MESSAGING 32 then (Some (IR_FRAME_MS, IR_LW_NONE), st)
  else if looks_like_time_location s n then (Some (IR_FRAME_TL, IR_LW_NONE), st)
  else if classify_bc s n then (Some (IR_FRAME_BC, IR_LW_NONE), st)
  else match classify_lw s n st with
       | (Some sub, st) => (Some (IR_FRAME_LW, sub), st)
       | (None, st) =>
         if classify_ra s n then (Some (IR_FRAME_RA, IR_LW_NONE), st) else (None, st)
       end.

(** [harder] is [s_classify_harder]; [out] is the caller's struct, which an
    argument error leaves alone. *)
Definition iridium_frame_classify (bits : list Z) (n_bits : nat) (direction : ir_frame_direction)
    (harder : bool) (out : iridium_frame) (st : syn_state) : Z * iridium_frame * syn_state :=
  if (n_bits <? UW_BITS)%nat then (-1, out, st) else
  let result ty sub := IridiumFrame ty direction sub UW_BITS bits n_bits in
  let uw_expected := match direction with IR_FRM_DIR_UPLINK => UW_UL | _ => UW_DL end in
  let uw_ok := bits_equal bits uw_expected UW_BITS in
  let p := drop UW_BITS bits in
  let avail := (n_bits - UW_BITS)%nat in
  if (avail <? MIN_PAYLOAD_BITS)%nat then (0, result IR_FRAME_UNKNOWN IR_LW_NONE, st) else
  let swapped := swapped_prefix p avail in
  let n := swap_len avail in
  let '(strict, st) := if uw_ok then strict_dispatch swapped n st else (None, st) in
  match strict with
  | Some (ty, sub) => (0, result ty sub, st)
  | None =>
    if harder then
      match classify_lw_harder swapped n st with
      | (Some sub, st) => (0, result IR_FRAME_LW sub, st)
      | (None, st) => (0, result IR_FRAME_UNKNOWN IR_LW_NONE, st)
      end
    else (0, result IR_FRAME_UNKNOWN IR_LW_NONE, st)
  end.

(** The toggle returns the previous value (first component). *)
Definition iridium_frame_classify_set_harder (enable s_classify_harder : bool) : bool * bool :=
  (s_classify_harder, enable).

Definition iridium_frame_type_name (type : ir_frame_type) : String.string :=
  match type with
  | IR_FRAME_MS => "MS" | IR_FRAME_TL => "TL" | IR_FRAME_BC => "BC" | IR_FRAME_LW => "LW"
  | IR_FRAME_RA => "RA" | IR_FRAME_UNKNOWN => "??"
  end%string.

Definition iridium_lw_subtype_name (subtype : ir_lw_subtype) : String.string :=
  match subtype with
  | IR_LW_VO => "VO" | IR_LW_IP => "IP" | IR_LW_DA => "DA" | IR_LW_U3 => "U3"
  | IR_LW_U4 => "U4" | IR_LW_U5 => "U5" | IR_LW_U6 => "U6" | IR_LW_SY => "SY"
  | IR_LW_NONE => "??"
  end%string.

(** ** The link control word *)

#[local] Opaque iridium_bch_ndivide iridium_bch_repair1 iridium_bch_repair2
  iridium_bch_repair1_ref iridium_bch_repair2_ref.

Lemma lcw_words_eq p :
  exists l1 l2 l3, lcw_words p = (l1, l2, l3) /\
    length l1 = 7%nat /\ length l2 = 13%nat /\ length l3 = 26%nat.
Proof. eexists _, _, _. split; [reflexivity|done]. Qed.

(** One flip of the trailing guess bit. *)
Lemma flip_last l b : length l = 13%nat -> b = 0 \/ b = 1 ->
  flips [13%nat] (l ++ [b]) = l ++ [1 - b].
Proof.
  intros Hl Hb. cbn. unfold flip, rd. rewrite app_nth2 by lia.
  rewrite Hl, Nat.sub_diag. cbn [nth].
  rewrite insert_app_r_alt by lia. rewrite Hl, Nat.sub_diag. cbn. by destruct Hb as [-> | ->].
Qed.

Lemma code465 : In (465, 14%nat) codes2.
Proof. cbn. auto. Qed.

(** The strict test accepts exactly the control words whose outer words
    divide and whose middle word divides with one of the two trailing bits. *)
Lemma classify_lw_eq p avail st :
  syn_ok st ->
  let '(l1, l2, l3) := lcw_words p in
  (classify_lw p avail st).1 =
  (if (LW_LCW_BITS <=? avail)%nat &&
      (iridium_bch_ndivide 29 l1 7 =? 0) && (iridium_bch_ndivide 41 l3 26 =? 0) &&
      ((iridium_bch_ndivide 465 (l2 ++ [0]) 14 =? 0) || (iridium_bch_ndivide 465 (l2 ++ [1]) 14 =? 0))
   then Some (lw_subtype_of (lcw_ft l1)) else None) /\
  syn_ok (classify_lw p avail st).2.
Proof.
  intros Hok. unfold classify_lw.
  destruct (lcw_words_eq p) as (l1 & l2 & l3 & -> & H1 & H2 & H3).
  assert (H14 : forall b, (14 <= length (l2 ++ [b]))%nat) by (intros; rewrite length_app, H2; cbn; lia).
  destruct (Nat.ltb_spec avail LW_LCW_BITS); [by rewrite (proj2 (Nat.leb_gt _ _)) by lia|].
  rewrite (proj2 (Nat.leb_le _ _)) by lia.
  destruct (iridium_bch_ndivide 29 l1 7 =? 0); [|done].
  destruct (iridium_bch_ndivide 41 l3 26 =? 0); [|done]. cbn [negb andb].
  rewrite repair2_eq by (unfold is_u; try done; lia).
  pose proof (after_lookup_ok 465 (l2 ++ [0]) 14 st Hok ltac:(unfold is_u; lia)) as Hok'.
  pose proof (repair2_ref_zero 465 (l2 ++ [0]) 14 ltac:(lia)) as Hz0.
  pose proof (repair2_ref_zero 465 (l2 ++ [1]) 14 ltac:(lia)) as Hz1.
  destruct (Z.eqb_spec (iridium_bch_ndivide 465 (l2 ++ [0]) 14) 0) as [E0|E0].
  { apply Z.eqb_eq in Hz0. destruct (iridium_bch_repair2_ref 465 (l2 ++ [0]) 14) as [e bs].
    cbn [fst] in Hz0. subst e. done. }
  destruct (iridium_bch_repair2_ref 465 (l2 ++ [0]) 14) as [e bs] eqn:Er. cbn [fst] in Hz0.
  destruct (Z.eqb_spec e 1) as [He|He].
  - rewrite repair2_eq by (unfold is_u; try done; lia).
    pose proof (after_lookup_ok 465 (l2 ++ [1]) 14 _ Hok' ltac:(unfold is_u; lia)).
    destruct (iridium_bch_repair2_ref 465 (l2 ++ [1]) 14) as [e1 bs1]. cbn [fst] in Hz1.
    rewrite Hz1. by destruct (iridium_bch_ndivide 465 (l2 ++ [1]) 14 =? 0).
  - rewrite Hz0. cbn [negb orb].
    destruct (Z.eqb_spec (iridium_bch_ndivide 465 (l2 ++ [1]) 14) 0) as [E1|E1]; [|done].
    exfalso. apply He.
    destruct (repair2_codes 465 14 (l2 ++ [1]) [13%nat] st Hok code465 ltac:(auto) E1
      (NoDup_singleton _) ltac:(apply Forall_cons_2; [lia|constructor]) ltac:(cbn; lia)) as [Hr _].
    rewrite repair2_eq in Hr; [|exact Hok|unfold is_u; lia|rewrite length_flips; apply H14].
    rewrite (flip_last l2 1 H2 ltac:(auto)) in Hr. change (1 - 1) with 0 in Hr.
    rewrite Er in Hr. exact (f_equal fst Hr).
Qed.

(** Side conditions of [repair1_eq] and [repair2_eq]. *)
Ltac solve_repair := first [assumption | apply after_lookup_ok; assumption | unfold is_u; lia | solve [auto]].

Lemma classify_lw_harder_ok p avail st :
  syn_ok st ->
  syn_ok (classify_lw_harder p avail st).2 /\
  ((classify_lw_harder p avail st).1 = None \/ (classify_lw_harder p avail st).1 = Some IR_LW_DA).
Proof.
  intros Hok. unfold classify_lw_harder.
  destruct (lcw_words_eq p) as (l1 & l2 & l3 & -> & H1 & H2 & H3).
  assert (H14 : forall b, (14 <= length (l2 ++ [b]))%nat) by (intros; rewrite length_app, H2; cbn; lia).
  destruct (avail <? LW_LCW_BITS)%nat; [by auto|].
  rewrite repair1_eq by solve_repair.
  pose proof (after_lookup_ok 29 l1 7 st Hok ltac:(unfold is_u; lia)) as Hok1.
  destruct (iridium_bch_repair1_ref 29 l1 7) as [e1 w1]. destruct (e1 <? 0); [by auto|].
  rewrite repair2_eq by solve_repair.
  pose proof (after_lookup_ok 41 l3 26 _ Hok1 ltac:(unfold is_u; lia)) as Hok3.
  destruct (iridium_bch_repair2_ref 41 l3 26) as [e3 w3]. destruct (e3 <? 0); [by auto|].
  rewrite repair2_eq by solve_repair.
  pose proof (after_lookup_ok 465 (l2 ++ [0]) 14 _ Hok3 ltac:(unfold is_u; lia)) as Hok2.
  destruct (iridium_bch_repair2_ref 465 (l2 ++ [0]) 14) as [e2 w2]. destruct (e2 <? 0) eqn:E2.
  - rewrite repair2_eq by solve_repair.
    pose proof (after_lookup_ok 465 (l2 ++ [1]) 14 _ Hok2 ltac:(unfold is_u; lia)) as Hok2'.
    destruct (iridium_bch_repair2_ref 465 (l2 ++ [1]) 14) as [e2' w2']. destruct (e2' <? 0); [by auto|].
    destruct (bool_decide _); (split; [assumption|by auto]).
  - rewrite E2. destruct (bool_decide _); (split; [assumption|by auto]).
Qed.

Lemma strict_dispatch_ok s n st :
  syn_ok st ->
  syn_ok (strict_dispatch s n st).2 /\
  (forall ty sub, (strict_dispatch s n st).1 = Some (ty, sub) ->
     ty <> IR_FRAME_UNKNOWN /\ (sub <> IR_LW_NONE -> ty = IR_FRAME_LW)).
Proof.
  intros Hok. unfold strict_dispatch.
  destruct ((32 <=? n)%nat && _); [split; [done|]; by intros ? ? [= <- <-]|].
  destruct (looks_like_time_location s n); [split; [done|]; by intros ? ? [= <- <-]|].
  destruct (classify_bc s n); [split; [done|]; by intros ? ? [= <- <-]|].
  pose proof (classify_lw_eq s n st Hok) as H. destruct (lcw_words s) as [[l1 l2] l3].
  destruct H as [_ H]. destruct (classify_lw s n st) as [[sub|] st'].
  - split; [done|]. by intros ? ? [= <- <-].
  - destruct (classify_ra s n); (split; [done|]); by intros ? ? [= <- <-].
Qed.

Lemma spare_bits : (1 <= 14 <= 31)%nat /\ degree 465 8 /\ degree 41 5.
Proof. unfold degree. cbn. lia. Qed.

(** Words with at most two flips pass the two-bit repair of any hosted code. *)
Lemma repair2_accepts poly d n cw es st :
  syn_ok st -> degree poly d -> is_u 32 poly -> (1 <= n <= 31)%nat -> (n <= length cw)%nat ->
  iridium_bch_ndivide poly cw n = 0 ->
  NoDup es -> Forall (fun i => (i < n)%nat) es -> (length es <= 2)%nat ->
  exists e w st', iridium_bch_repair2 poly (flips es cw) n st = ((e, w), st') /\
    (e <? 0) = false /\ syn_ok st'.
Proof.
  intros Hok Hdeg Hp Hn Hl Hcw Hnd Hb Hes.
  rewrite repair2_eq by (rewrite ?length_flips; done).
  pose proof (repair2_ref_nonneg poly d n cw es Hdeg Hn Hl Hcw Hnd Hb Hes) as H.
  pose proof (after_lookup_ok poly (flips es cw) n st Hok Hp) as Hok'.
  destruct (iridium_bch_repair2_ref poly (flips es cw) n) as [e w].
  exists e, w, (after_lookup poly (flips es cw) n st). split; [done|].
  split; [|exact Hok']. apply Z.ltb_ge. exact H.
Qed.

Lemma repair2_total poly bits n st :
  syn_ok st -> is_u 32 poly -> (n <= length bits)%nat ->
  exists e w st', iridium_bch_repair2 poly bits n st = ((e, w), st') /\ syn_ok st'.
Proof.
  intros Hok Hp Hl. rewrite repair2_eq by done.
  destruct (iridium_bch_repair2_ref poly bits n) as [e w] eqn:E.
  eexists e, w, _. split; [done|]. by apply after_lookup_ok.
Qed.

Lemma flips_app_l es a b : Forall (fun i => (i < length a)%nat) es ->
  flips es (a ++ b) = flips es a ++ b.
Proof.
  revert a. induction es as [|i es IH]; intros a H; [done|].
  apply Forall_cons_1 in H as [Hi H]. unfold flips. cbn [fold_left].
  assert (E : flip (a ++ b) i = flip a i ++ b).
  { unfold flip, rd. rewrite app_nth1 by done. by apply insert_app_l. }
  rewrite E. apply IH. by rewrite length_flip.
Qed.

(** Closes the clauses of [iridium_frame_classify_gate] for a result 0. *)
Ltac gate :=
  split; [assumption|]; split; [split; intros; lia|]; split; [done|]; intros _; cbn;
  do 4 (split; [reflexivity|]); split; [by auto|split; [intros; (done || lia)|by auto]].

(** ** Properties *)

(** What classification may conclude.  It fails exactly below 24 bits,
    otherwise fills the frame from its arguments; a frame whose unique word is
    not exact can only be typed LW.DA, and only in harder mode; a subtype is
    given only to LW frames; too short a payload is never typed. *)
Theorem iridium_frame_classify_gate bits n_bits dir harder out st :
  syn_ok st ->
  let '(r, f, st') := iridium_frame_classify bits n_bits dir harder out st in
  syn_ok st' /\
  (r = 0 <-> (24 <= n_bits)%nat) /\ (r <> 0 -> r = -1 /\ f = out) /\
  (r = 0 ->
     fr_bits f = bits /\ fr_n_bits f = n_bits /\ fr_direction f = dir /\ fr_payload_off f = 24%nat /\
     (fr_lw_subtype f <> IR_LW_NONE -> fr_type f = IR_FRAME_LW) /\
     ((n_bits < 56)%nat -> fr_type f = IR_FRAME_UNKNOWN) /\
     (bits_equal bits (match dir with IR_FRM_DIR_UPLINK => UW_UL | _ => UW_DL end) 24 = false ->
        fr_type f = IR_FRAME_UNKNOWN \/
        (harder = true /\ fr_type f = IR_FRAME_LW /\ fr_lw_subtype f = IR_LW_DA))).
Proof.
  intros Hok. unfold iridium_frame_classify, UW_BITS, MIN_PAYLOAD_BITS.
  destruct (Nat.ltb_spec n_bits 24); [split; [done|]; repeat split; intros; (done || lia)|].
  destruct (Nat.ltb_spec (n_bits - 24) 32); [gate|].
  set (s := swapped_prefix _ _). set (n := swap_len _). set (uw := match dir with IR_FRM_DIR_UPLINK => UW_UL | _ => UW_DL end).
  destruct (bits_equal bits uw 24) eqn:Euw.
  - pose proof (strict_dispatch_ok s n st Hok) as [Hok' Hst].
    destruct (strict_dispatch s n st) as [[[ty sub]|] st']; [destruct (Hst ty sub eq_refl); gate|].
    destruct harder; [|gate]. destruct (classify_lw_harder_ok s n st' Hok') as [Hok2 Hr].
    destruct (classify_lw_harder s n st') as [[sub|] st2]; gate.
  - destruct harder; [|gate]. destruct (classify_lw_harder_ok s n st Hok) as [Hok2 Hr].
    destruct (classify_lw_harder s n st) as [[sub|] st2]; [|gate].
    destruct Hr as [?|[= ->]]; [done|]. gate.
Qed.

(** A payload prefix whose control word says DA and is zero otherwise. *)
Definition sample_lcw : list Z :=
  scatter (replicate 46 0) (zip LCW_TBL ([0; 1; 0; 0; 1; 1; 1] ++ replicate 39 0)).

Lemma iridium_frame_classify_gate_witness :
  let '(r, f, st') :=
    iridium_frame_classify (replicate 382 0) 382 IR_FRM_DIR_DOWNLINK true
      (IridiumFrame IR_FRAME_UNKNOWN IR_FRM_DIR_DOWNLINK IR_LW_NONE 0 [] 0) syn_init in
  r = 0 /\ fr_n_bits f = 382%nat.
Proof.
  pose proof (iridium_frame_classify_gate (replicate 382 0) 382 IR_FRM_DIR_DOWNLINK true
    (IridiumFrame IR_FRAME_UNKNOWN IR_FRM_DIR_DOWNLINK IR_LW_NONE 0 [] 0) syn_init syn_init_ok) as H.
  revert H. destruct (iridium_frame_classify _ _ _ _ _ _) as [[r f] st'].
  intros (_ & Hr & _ & Hf). assert (r = 0) as H0 by (apply Hr; lia).
  split; [exact H0|]. destruct (Hf H0) as (_ & Hn & _). exact Hn.
Defined.

(** Strict LW classification is exact: it accepts precisely the payloads
    whose first and third control words are codewords and whose middle word
    becomes one with either value of the bit the burst does not carry, and the
    subtype is the frame-type field of the first word. *)
Theorem classify_lw_accepts p avail st sub :
  syn_ok st -> (46 <= avail)%nat ->
  let '(l1, l2, l3) := lcw_words p in
  (classify_lw p avail st).1 = Some sub <->
  iridium_bch_ndivide 29 l1 7 = 0 /\ iridium_bch_ndivide 41 l3 26 = 0 /\
  (exists b, (b = 0 \/ b = 1) /\ iridium_bch_ndivide 465 (l2 ++ [b]) 14 = 0) /\
  sub = lw_subtype_of (lcw_ft l1).
Proof.
  intros Hok Ha. pose proof (classify_lw_eq p avail st Hok) as H.
  destruct (lcw_words p) as [[l1 l2] l3]. destruct H as [-> _].
  rewrite (proj2 (Nat.leb_le _ _)) by (unfold LW_LCW_BITS; lia). cbn [andb].
  destruct (Z.eqb_spec (iridium_bch_ndivide 29 l1 7) 0) as [D1|D1];
    [|split; [done|intros (H & _); contradiction (D1 H)]].
  destruct (Z.eqb_spec (iridium_bch_ndivide 41 l3 26) 0) as [D3|D3];
    [|split; [done|intros (_ & H & _); contradiction (D3 H)]].
  assert (Acc : forall b, b = 0 \/ b = 1 -> iridium_bch_ndivide 465 (l2 ++ [b]) 14 = 0 ->
    Some (lw_subtype_of (lcw_ft l1)) = Some sub <->
    iridium_bch_ndivide 29 l1 7 = 0 /\ iridium_bch_ndivide 41 l3 26 = 0 /\
    (exists b, (b = 0 \/ b = 1) /\ iridium_bch_ndivide 465 (l2 ++ [b]) 14 = 0) /\
    sub = lw_subtype_of (lcw_ft l1)).
  { intros b Hb Db. split; [intros [= <-]|by intros (_ & _ & _ & ->)].
    split; [exact D1|]. split; [exact D3|]. split; [exists b; exact (conj Hb Db)|reflexivity]. }
  destruct (Z.eqb_spec (iridium_bch_ndivide 465 (l2 ++ [0]) 14) 0) as [E0|E0]; cbn [orb andb].
  { apply (Acc 0); auto. }
  destruct (Z.eqb_spec (iridium_bch_ndivide 465 (l2 ++ [1]) 14) 0) as [E1|E1].
  { apply (Acc 1); auto. }
  split; [done|]. intros (_ & _ & (b & [-> | ->] & H) & _);
    [contradiction (E0 H)|contradiction (E1 H)].
Qed.

Lemma classify_lw_accepts_witness : (classify_lw sample_lcw 46 syn_init).1 = Some IR_LW_DA.
Proof.
  pose proof (classify_lw_accepts sample_lcw 46 syn_init IR_LW_DA syn_init_ok ltac:(lia)) as H.
  destruct (lcw_words sample_lcw) as [[l1 l2] l3] eqn:E.
  vm_compute in E. injection E as <- <- <-. apply H. clear H.
  split; [vm_compute; reflexivity|]. split; [vm_compute; reflexivity|].
  split; [|reflexivity]. exists 0. split; [by left|vm_compute; reflexivity].
Defined.

(** Harder mode corrects.  If the three received control words differ from
    codewords of frame type DA in at most one, two and two places (the middle
    word's missing bit apart), the frame is classified LW.DA. *)
Theorem classify_lw_harder_recovers p avail st c1 c2 b c3 e1 e2 e3 :
  syn_ok st -> (46 <= avail)%nat ->
  lcw_words p = (flips e1 c1, flips e2 c2, flips e3 c3) ->
  length c1 = 7%nat -> length c2 = 13%nat -> length c3 = 26%nat -> (b = 0 \/ b = 1) ->
  iridium_bch_ndivide 29 c1 7 = 0 -> iridium_bch_ndivide 465 (c2 ++ [b]) 14 = 0 ->
  iridium_bch_ndivide 41 c3 26 = 0 -> lw_subtype_of (lcw_ft c1) = IR_LW_DA ->
  NoDup e1 -> Forall (fun i => (i < 7)%nat) e1 -> (length e1 <= 1)%nat ->
  NoDup e2 -> Forall (fun i => (i < 13)%nat) e2 -> (length e2 <= 2)%nat ->
  NoDup e3 -> Forall (fun i => (i < 26)%nat) e3 -> (length e3 <= 2)%nat ->
  (classify_lw_harder p avail st).1 = Some IR_LW_DA.
Proof.
  intros Hok Ha Hw L1 L2 L3 Hb D1 D2 D3 Hft N1 F1 S1 N2 F2 S2 N3 F3 S3.
  unfold classify_lw_harder. rewrite (proj2 (Nat.ltb_ge _ _)) by (unfold LW_LCW_BITS; lia).
  rewrite Hw. clear Hw.
  destruct (repair1_codes 29 7 c1 e1 st Hok ltac:(cbn; auto) ltac:(lia) D1 N1 F1 S1) as [R1 Ok1].
  destruct (iridium_bch_repair1 29 (flips e1 c1) 7 st) as [[r1 w1] st1].
  cbn in R1, Ok1. injection R1 as -> ->.
  rewrite (proj2 (Z.ltb_ge _ _)) by lia.
  destruct (repair2_accepts 41 5 26 c3 e3 st1 Ok1 ltac:(apply spare_bits) ltac:(unfold is_u; lia)
    ltac:(lia) ltac:(lia) D3 N3 F3 S3) as (r3 & w3 & st3 & -> & -> & Ok3).
  assert (F2' : Forall (fun i => (i < 14)%nat) e2) by (eapply Forall_impl; [|exact F2]; cbn; lia).
  assert (H14 : forall x, (14 <= length (c2 ++ [x]))%nat) by (intros; rewrite length_app, L2; cbn; lia).
  assert (Fl : forall x, flips e2 c2 ++ [x] = flips e2 (c2 ++ [x]))
    by (intros; symmetry; apply flips_app_l; by rewrite L2).
  assert (Acc : forall st, syn_ok st -> exists r2 w2 st2,
    iridium_bch_repair2 465 (flips e2 c2 ++ [b]) 14 st = (r2, w2, st2) /\ (r2 <? 0) = false /\ syn_ok st2).
  { intros s Hs. rewrite Fl. apply (repair2_accepts 465 8);
      [exact Hs|apply spare_bits|unfold is_u; lia|lia|apply H14|exact D2|exact N2|exact F2'|exact S2]. }
  assert (G : exists e st', (let '(e2', _, st') := iridium_bch_repair2 465 (flips e2 c2 ++ [0]) 14 st3 in
      if e2' <? 0 then let '(e2'', _, st'') := iridium_bch_repair2 465 (flips e2 c2 ++ [1]) 14 st' in (e2'', st'')
      else (e2', st')) = (e, st') /\ (e <? 0) = false).
  { destruct (repair2_total 465 (flips e2 c2 ++ [0]) 14 st3 Ok3 ltac:(unfold is_u; lia)
      ltac:(rewrite Fl, length_flips; auto)) as (r & w & s & E & Oks).
    rewrite E. destruct (r <? 0) eqn:Er; [|by eauto].
    destruct Hb as [-> | ->].
    - destruct (Acc st3 Ok3) as (? & ? & ? & E' & ? & _). congruence.
    - destruct (Acc s Oks) as (? & ? & ? & -> & ? & _). eauto. }
  destruct G as (e & st' & G & He).
  destruct (iridium_bch_repair2 465 (flips e2 c2 ++ [0]) 14 st3) as [[r2 w2] st2].
  rewrite G, He. by rewrite bool_decide_eq_true_2.
Qed.

Lemma classify_lw_harder_recovers_witness :
  (classify_lw_harder (flips [38; 12; 40]%nat sample_lcw) 46 syn_init).1 = Some IR_LW_DA.
Proof.
  apply (classify_lw_harder_recovers (flips [38; 12; 40]%nat sample_lcw) 46 syn_init
    [0; 1; 0; 0; 1; 1; 1] (replicate 13 0) 0 (replicate 26 0) [1]%nat [] [0; 14]%nat syn_init_ok);
    first [lia | reflexivity | by left | vm_compute; reflexivity
          | apply (bool_decide_unpack _); vm_compute; reflexivity].
Defined.
