(* ===== verification/IdaDecode.v ===== *)
(** The DA frame decoder (src/common/iridium_decoder/ida_decode.c).

    The 312-bit data section of an LW.DA frame is pair-swapped, de-interleaved
    into ten BCH(31,20) codewords, each codeword is repaired, and the header,
    payload and CRC fields are read from the 200 message bits. *)

From S2P Require Import Prelude Gf2 Bits Crc16 IridiumBch IridiumFrame.

Definition ACCH_BCH_POLY : Z := 3545.
Definition LCW_BITS : nat := 46.
Definition DATA_BITS_TOTAL : nat := 312.
Definition CHUNK_124 : nat := 124.
Definition END_64 : nat := 64.
Definition BCH_CW_BITS : nat := 31.
Definition BCH_MSG_BITS : nat := 20.

(** ** Codewords *)

(** The two outputs (odd, even). *)
Definition de_interleave (l : list Z) (n_in : nat) : list Z * list Z :=
  let n_sym := (n_in / 2)%nat in
  (take_symbols l (down_by 2 (n_sym - 1)), take_symbols l (down_by 2 (n_sym - 2))).

Definition chunk_124_to_codewords (chunk : list Z) : list Z :=
  let '(b1, b2) := de_interleave chunk CHUNK_124 in
  let cat := b1 ++ b2 in
  slice cat 93 31 ++ slice cat 31 31 ++ slice cat 62 31 ++ slice cat 0 31.

Definition tail_64_to_codewords (tail : list Z) : list Z :=
  let '(b1, b2) := de_interleave tail END_64 in
  slice b2 1 31 ++ slice b1 1 31.

Definition ida_decode_build_codewords (data_section : list Z) : list Z :=
  let data := pair_swap (take DATA_BITS_TOTAL data_section) in
  chunk_124_to_codewords data ++
  chunk_124_to_codewords (drop CHUNK_124 data) ++
  tail_64_to_codewords (drop (2 * CHUNK_124) data).

(** ** The decoded frame *)

Record ida_decoded := IdaDecoded {
  id_ok : bool; id_n_blocks : Z; id_blocks_ok : Z; id_total_errors : Z; id_n_bits : Z;
  id_bits : list Z;
  da_flags1 : Z; da_cont : Z; da_flag1b : Z; da_ctr : Z; da_flags2 : Z; da_len : Z;
  da_flags3 : Z; header_ok : bool;
  id_payload : list Z; id_payload_len : Z;
  da_crc_reported : Z; da_crc_computed : Z; crc_ok : bool;
  chase_used : bool; chase_checks : Z }.

(** [memset(out, 0, sizeof *out)] *)
Definition ida_zero : ida_decoded :=
  IdaDecoded false 0 0 0 0 (replicate 200 0) 0 0 0 0 0 0 0 false (replicate 24 0) 0 0 0 false
    false 0.

(** [crc_buf[dst / 8] |= (v & 1) << (7 - dst % 8)] *)
Definition set_stream_bit (buf : list Z) (dst : nat) (v : Z) : list Z :=
  <[(dst / 8)%nat := u8 (Z.lor (rd buf (dst / 8)) (Z.shiftl v (7 - Z.of_nat (dst mod 8))))]> buf.

(** The 26-byte stream the CRC covers: header, 12 zero bits, bits 20..195. *)
Definition crc_stream (bits : list Z) : list Z :=
  let buf := forN 20 (fun b buf => set_stream_bit buf b (bit (rd bits b))) (replicate 26 0) in
  forN 176 (fun b buf =>
    if rd bits (20 + b) =? 0 then buf else set_stream_bit buf (32 + b) 1) buf.

Definition payload_max_len (da_len bit_pos : Z) : Z :=
  let payload_bits := if 0 <? da_len then da_len * 8 else bit_pos - 20 in
  let payload_bits := if payload_bits <? 0 then 0 else payload_bits in
  let max_len := payload_bits / 8 in
  let max_len := if 24 <? max_len then 24 else max_len in
  let avail_len := (bit_pos - 20) / 8 in
  let avail_len := if avail_len <? 0 then 0 else avail_len in
  if avail_len <? max_len then avail_len else max_len.

Definition ida_decode_parse_fields (out : ida_decoded) : ida_decoded :=
  let bit_pos := id_n_bits out in
  if bit_pos <? 196 then out else
  let b := id_bits out in
  let len := packbits b 11 5 in
  let max_len := payload_max_len len bit_pos in
  let crc_computed := crc16_ccitt_false (crc_stream b) in
  IdaDecoded (id_ok out) (id_n_blocks out) (id_blocks_ok out) (id_total_errors out) bit_pos b
    (packbits b 0 3) (packbits b 3 1) (packbits b 4 1) (packbits b 5 3) (packbits b 8 3) len
    (packbits b 16 1) (packbits b 17 3 =? 0)
    (forN (Z.to_nat max_len) (fun i pl => <[i := packbits b (20 + i * 8) 8]> pl) (id_payload out))
    max_len
    (packbits b 180 16) crc_computed ((0 <? len) && (crc_computed =? 0))
    (chase_used out) (chase_checks out).

(** ** Decoding *)

(** One round of the block loop: (bits, blocks_ok, total_errors). *)
Definition decode_block (codewords : list Z) (i : nat)
    (s : (list Z * Z * Z) * syn_state) : (list Z * Z * Z) * syn_state :=
  let '((bits, blocks_ok, total_errors), st) := s in
  let cw := slice codewords (i * BCH_CW_BITS) BCH_CW_BITS in
  let '(errs, cw, st) := iridium_bch_repair2 ACCH_BCH_POLY cw BCH_CW_BITS st in
  if errs <? 0 then ((bits, blocks_ok, total_errors), st)
  else ((blit bits (i * BCH_MSG_BITS) (take BCH_MSG_BITS cw), blocks_ok + 1, total_errors + errs), st).

Definition ida_decode (frame : iridium_frame) (out : ida_decoded) (st : syn_state)
  : Z * ida_decoded * syn_state :=
  if negb (bool_decide (fr_type frame = IR_FRAME_LW)) ||
     negb (bool_decide (fr_lw_subtype frame = IR_LW_DA)) then (-1, out, st) else
  if (fr_n_bits frame <? UW_BITS + LCW_BITS + DATA_BITS_TOTAL)%nat then (-1, out, st) else
  let codewords := ida_decode_build_codewords (drop (UW_BITS + LCW_BITS) (fr_bits frame)) in
  let '((bits, blocks_ok, total_errors), st) :=
    forN 10 (decode_block codewords) ((replicate 200 0, 0, 0), st) in
  let bit_pos := blocks_ok * Z.of_nat BCH_MSG_BITS in
  let out := IdaDecoded (blocks_ok =? 10) 10 blocks_ok total_errors bit_pos bits
    0 0 0 0 0 0 0 false (replicate 24 0) 0 0 0 false false 0 in
  (0, ida_decode_parse_fields out, st).

(** ** Codewords are a gather *)

Definition de_interleave_idx (n_in : nat) : list nat * list nat :=
  let n_sym := (n_in / 2)%nat in
  (symbol_idx (down_by 2 (n_sym - 1)), symbol_idx (down_by 2 (n_sym - 2))).

Lemma de_interleave_gather l n :
  de_interleave l n = (gather l (de_interleave_idx n).1, gather l (de_interleave_idx n).2).
Proof. unfold de_interleave. by rewrite !take_symbols_gather. Qed.

Definition chunk_idx : list nat :=
  let cat := (de_interleave_idx CHUNK_124).1 ++ (de_interleave_idx CHUNK_124).2 in
  slice cat 93 31 ++ slice cat 31 31 ++ slice cat 62 31 ++ slice cat 0 31.
Definition tail_idx : list nat :=
  slice (de_interleave_idx END_64).2 1 31 ++ slice (de_interleave_idx END_64).1 1 31.

(** Data-section index (in pair-swapped order) of every codeword bit. *)
Definition codeword_idx : list nat :=
  chunk_idx ++ map (Nat.add CHUNK_124) chunk_idx ++ map (Nat.add (2 * CHUNK_124)) tail_idx.

Lemma chunk_gather l : chunk_124_to_codewords l = gather l chunk_idx.
Proof.
  unfold chunk_124_to_codewords. rewrite de_interleave_gather.
  unfold chunk_idx. by rewrite !gather_app, <- !gather_slice, gather_app.
Qed.

Lemma tail_gather l : tail_64_to_codewords l = gather l tail_idx.
Proof.
  unfold tail_64_to_codewords. rewrite de_interleave_gather.
  unfold tail_idx. by rewrite !gather_app, <- !gather_slice.
Qed.

Lemma rd_drop l k i : rd (drop k l) i = rd l (k + i).
Proof. unfold rd. by rewrite !nth_lookup, lookup_drop. Qed.

Lemma gather_drop l k idx : gather (drop k l) idx = gather l (map (Nat.add k) idx).
Proof. unfold gather. rewrite map_map. apply map_ext. intros i. by rewrite rd_drop. Qed.

Lemma build_codewords_gather data :
  ida_decode_build_codewords data = gather (pair_swap (take DATA_BITS_TOTAL data)) codeword_idx.
Proof.
  unfold ida_decode_build_codewords, codeword_idx.
  by rewrite !chunk_gather, tail_gather, !gather_drop, !gather_app.
Qed.

(** 310 distinct places of the data section. *)
Lemma codeword_idx_facts :
  length codeword_idx = 310%nat /\ List.NoDup codeword_idx /\
  Forall (fun i => (i < 312)%nat) codeword_idx.
Proof.
  split; [reflexivity|]. split.
  - apply NoDup_ListNoDup. apply (bool_decide_unpack _). vm_compute. reflexivity.
  - apply (bool_decide_unpack _). vm_compute. reflexivity.
Qed.

(** ** Bit streams *)

(** Bit [k] of a byte array, MSB first. *)
Definition stream_bit (buf : list Z) (k : nat) : bool :=
  Z.testbit (rd buf (k / 8)) (7 - Z.of_nat (k mod 8)).

(** A buffer of [n] bytes. *)
Definition buffer (n : nat) (buf : list Z) : Prop := length buf = n /\ is_bytes buf.

Lemma divmod8_inj j k : (j / 8 = k / 8)%nat -> (j mod 8 = k mod 8)%nat -> j = k.
Proof. intros H1 H2. pose proof (Nat.div_mod_eq j 8). pose proof (Nat.div_mod_eq k 8). lia. Qed.

Lemma set_stream_bit_spec n buf dst (v : bool) :
  buffer n buf -> (dst < 8 * n)%nat ->
  buffer n (set_stream_bit buf dst (Z.b2z v)) /\
  forall k, stream_bit (set_stream_bit buf dst (Z.b2z v)) k =
            stream_bit buf k || ((k =? dst)%nat && v).
Proof.
  intros [Hl Hb] Hdst. pose proof (rd_byte buf (dst / 8) Hb) as Hx.
  assert (Hi : (dst / 8 < length buf)%nat) by (rewrite Hl; apply Nat.Div0.div_lt_upper_bound; lia).
  assert (Hm : (dst mod 8 < 8)%nat) by (apply Nat.mod_upper_bound; lia).
  assert (Hbit : forall i, 0 <= i -> Z.testbit (Z.shiftl (Z.b2z v) (7 - Z.of_nat (dst mod 8))) i =
     (i =? 7 - Z.of_nat (dst mod 8)) && v).
  { intros i Hi'. rewrite Z.shiftl_spec by done. destruct (Z.eqb_spec i (7 - Z.of_nat (dst mod 8))) as [->|Hne].
    - rewrite Z.sub_diag. by destruct v.
    - destruct v; [|by rewrite Z.testbit_0_l]. cbn [andb Z.b2z].
      destruct (Z.lt_ge_cases i (7 - Z.of_nat (dst mod 8))); [by rewrite Z.testbit_neg_r by lia|].
      rewrite (testbit_high 1); [done|lia|lia]. }
  set (y := Z.lor (rd buf (dst / 8)) (Z.shiftl (Z.b2z v) (7 - Z.of_nat (dst mod 8)))).
  assert (Hy : is_byte y).
  { apply bound_of_testbit; [lia|apply Z.lor_nonneg; split; [unfold is_u in Hx; lia|]|].
    - apply Z.shiftl_nonneg. destruct v; cbn; lia.
    - intros i Hi'. unfold y. rewrite Z.lor_spec, (testbit_high 8 (rd buf (dst / 8))), Hbit by (done || lia).
      destruct (Z.eqb_spec i (7 - Z.of_nat (dst mod 8))); [lia|done]. }
  unfold set_stream_bit. fold y. unfold u8. rewrite Z.mod_small by done. split.
  { split; [by rewrite length_insert|]. by apply Forall_insert. }
  intros k. unfold stream_bit. rewrite rd_insert.
  assert (Hk : (k mod 8 < 8)%nat) by (apply Nat.mod_upper_bound; lia).
  destruct (decide _) as [[He _]|Hne].
  - rewrite <- He. unfold y. rewrite Z.lor_spec, Hbit by lia. f_equal. f_equal.
    destruct (Nat.eqb_spec k dst) as [->|Hne]; [by rewrite Z.eqb_refl|].
    apply Z.eqb_neq. intros E. apply Hne. apply divmod8_inj; lia.
  - destruct (Nat.eqb_spec k dst) as [->|?]; [|by rewrite orb_false_r].
    destruct Hne. done.
Qed.

(** A counted loop that sets consecutive bits of the stream. *)
Lemma stream_loop n off m (step : nat -> list Z -> list Z) (p : nat -> bool) buf :
  buffer n buf ->
  (forall b buf, (b < m)%nat -> buffer n buf ->
     buffer n (step b buf) /\
     forall k, stream_bit (step b buf) k = stream_bit buf k || ((k =? off + b)%nat && p b)) ->
  buffer n (forN m step buf) /\
  forall k, stream_bit (forN m step buf) k =
            stream_bit buf k || ((off <=? k)%nat && (k <? off + m)%nat && p (k - off)%nat).
Proof.
  intros Hbuf Hstep. apply (forN_inv (fun i b => buffer n b /\ forall k, stream_bit b k =
     stream_bit buf k || ((off <=? k)%nat && (k <? off + i)%nat && p (k - off)%nat))).
  - split; [done|]. intros k. destruct (Nat.leb_spec off k), (Nat.ltb_spec k (off + 0)); try lia;
      by rewrite orb_false_r.
  - intros i b Hi [Hb Hk]. destruct (Hstep i b Hi Hb) as [Hb' Hk']. split; [done|].
    intros k. rewrite Hk', Hk, <- orb_assoc. f_equal.
    destruct (Nat.eqb_spec k (off + i)) as [->|Hne].
    + replace (off + i - off)%nat with i by lia.
      rewrite (proj2 (Nat.leb_le _ _)), (proj2 (Nat.ltb_ge _ _)), (proj2 (Nat.ltb_lt _ _)) by lia. done.
    + cbn [andb]. rewrite orb_false_r. do 2 f_equal.
      destruct (Nat.ltb_spec k (off + i)), (Nat.ltb_spec k (off + S i)); try done; lia.
Qed.

Lemma buffer_zero n : buffer n (replicate n 0).
Proof. split; [apply length_replicate|]. apply Forall_replicate. unfold is_u. cbn. lia. Qed.

Lemma stream_bit_zero n k : stream_bit (replicate n 0) k = false.
Proof.
  unfold stream_bit, rd. rewrite nth_lookup.
  destruct (replicate n 0 !! (k / 8)%nat) as [x|] eqn:E; [|apply Z.testbit_0_l].
  apply lookup_replicate in E as [-> _]. apply Z.testbit_0_l.
Qed.

(** Byte buffers are equal when their streams are. *)
Lemma buffer_ext n a b :
  buffer n a -> buffer n b -> (forall k, (k < 8 * n)%nat -> stream_bit a k = stream_bit b k) -> a = b.
Proof.
  intros [Ha Ba] [Hb Bb] H. apply rd_ext; [lia|]. intros i Hi. apply Z.bits_inj'. intros j Hj.
  destruct (Z.lt_ge_cases j 8) as [Hj8|Hj8].
  - specialize (H (8 * i + Z.to_nat (7 - j))%nat ltac:(lia)). unfold stream_bit in H.
    rewrite (Nat.mul_comm 8), Nat.div_add_l, Nat.div_small, Nat.add_0_r in H by lia.
    rewrite Nat.add_comm, Nat.Div0.mod_add, Nat.mod_small in H by lia.
    by replace (7 - Z.of_nat (Z.to_nat (7 - j))) with j in H by lia.
  - by rewrite !(testbit_high 8) by (done || by apply rd_byte).
Qed.

Lemma bits_b2z bits i : is_bits bits -> rd bits i = Z.b2z (Z.odd (rd bits i)).
Proof. intros H. by destruct (rd_bits bits i H) as [-> | ->]. Qed.

(** The CRC stream: header bits, twelve zeros, bits 20 to 195. *)
Lemma crc_stream_spec bits :
  is_bits bits ->
  buffer 26 (crc_stream bits) /\
  forall k, stream_bit (crc_stream bits) k =
    ((k <? 20)%nat && Z.odd (rd bits k)) ||
    ((32 <=? k)%nat && (k <? 208)%nat && Z.odd (rd bits (k - 12))).
Proof.
  intros Hb. unfold crc_stream.
  set (f1 := fun b buf => set_stream_bit buf b (bit (rd bits b))).
  set (f2 := fun b buf => if rd bits (20 + b) =? 0 then buf else set_stream_bit buf (32 + b) 1).
  destruct (stream_loop 26 0 20 f1 (fun b => Z.odd (rd bits b)) (replicate 26 0) (buffer_zero 26))
    as [B1 S1].
  { intros b buf Hb' Hbuf. unfold f1. rewrite bit_odd. apply set_stream_bit_spec; [done|lia]. }
  destruct (stream_loop 26 32 176 f2 (fun b => Z.odd (rd bits (20 + b))) _ B1) as [B2 S2].
  { intros b buf Hb' Hbuf. unfold f2. cbv beta.
    destruct (rd_bits bits (20 + b) Hb) as [-> | ->].
    - split; [done|]. intros k. by rewrite andb_false_r, orb_false_r.
    - apply (set_stream_bit_spec 26 buf (32 + b) true); [done|lia]. }
  split; [done|]. intros k. rewrite S2, S1, stream_bit_zero. cbn [orb]. f_equal.
  - rewrite Nat.sub_0_r. done.
  - destruct (Nat.leb_spec 32 k); [|done]. cbn [andb]. do 3 f_equal. lia.
Qed.

#[local] Opaque crc_stream.

(** ** The block loop *)

Definition codeword (cws : list Z) (i : nat) : list Z := slice cws (i * BCH_CW_BITS) BCH_CW_BITS.
Definition block_repair (cws : list Z) (i : nat) : Z * list Z :=
  iridium_bch_repair2_ref ACCH_BCH_POLY (codeword cws i) BCH_CW_BITS.
Definition block_good (cws : list Z) (i : nat) : bool := 0 <=? (block_repair cws i).1.

(** The 20 bits block [i] contributes: its repaired message, or zeros. *)
Definition block_bits (cws : list Z) (i : nat) : list Z :=
  if block_good cws i then take BCH_MSG_BITS (block_repair cws i).2 else replicate BCH_MSG_BITS 0.

Definition sumZ (l : list Z) : Z := fold_right Z.add 0 l.

Lemma sumZ_app a b : sumZ (a ++ b) = sumZ a + sumZ b.
Proof. unfold sumZ. induction a as [|x a IH]; cbn; [done|]. rewrite IH. lia. Qed.

#[local] Opaque iridium_bch_ndivide iridium_bch_repair1 iridium_bch_repair2
  iridium_bch_repair1_ref iridium_bch_repair2_ref.

Lemma length_flip_pair_pass poly n idx bits :
  length (flip_pair_pass poly n idx bits).2 = length bits.
Proof.
  revert bits. induction idx as [|i idx IH]; intros bits; [done|]. cbn [flip_pair_pass].
  pose proof (length_flip_pass poly n (seq (S i) (n - S i)) (flip bits i)) as H.
  destruct (flip_pass _ _ _ _) as [[] b]; cbn in *; rewrite ?IH, ?length_flip in *; done.
Qed.

Lemma length_repair2_ref poly bits n : length (iridium_bch_repair2_ref poly bits n).2 = length bits.
Proof.
  Local Transparent iridium_bch_repair2_ref. unfold iridium_bch_repair2_ref.
  destruct (n =? 0)%nat; [done|]. destruct (iridium_bch_ndivide _ _ _ =? 0); [done|].
  pose proof (length_flip_pass poly n (seq 0 n) bits) as H.
  destruct (flip_pass _ _ _ _) as [[] b]; [done|].
  pose proof (length_flip_pair_pass poly n (seq 0 n) b) as H'.
  destruct (flip_pair_pass _ _ _ _) as [[] b']; cbn in *; congruence.
Qed.
#[local] Opaque iridium_bch_repair2_ref.

Lemma length_codeword cws i : length cws = 310%nat -> (i < 10)%nat -> length (codeword cws i) = 31%nat.
Proof. intros Hl Hi. unfold codeword, BCH_CW_BITS. apply length_slice. lia. Qed.

Lemma length_block_bits cws i : length cws = 310%nat -> (i < 10)%nat -> length (block_bits cws i) = 20%nat.
Proof.
  intros Hl Hi. unfold block_bits. destruct (block_good cws i); [|apply length_replicate].
  rewrite length_take. unfold block_repair. rewrite length_repair2_ref, length_codeword by done. done.
Qed.

Lemma poly_u32 : is_u 32 ACCH_BCH_POLY.
Proof. unfold is_u, ACCH_BCH_POLY. lia. Qed.

(** Blocks written so far, at their own positions. *)
Lemma decode_codewords cws n st :
  syn_ok st -> length cws = 310%nat -> (n <= 10)%nat ->
  exists st', syn_ok st' /\
    forN n (decode_block cws) ((replicate 200 0, 0, 0), st) =
    ((concat (map (block_bits cws) (seq 0 n)) ++ replicate (200 - 20 * n) 0,
      Z.of_nat (length (List.filter (block_good cws) (seq 0 n))),
      sumZ (map (fun i => (block_repair cws i).1) (List.filter (block_good cws) (seq 0 n)))), st').
Proof.
  intros Hok Hl. induction n as [|n IH]; intros Hn; [by exists st|].
  destruct IH as (st1 & Hok1 & E); [lia|]. rewrite forN_S, E. clear E.
  pose proof (length_codeword cws n Hl ltac:(lia)) as Hcw.
  unfold decode_block. fold (codeword cws n).
  rewrite repair2_eq; [|exact Hok1|apply poly_u32|rewrite Hcw; unfold BCH_CW_BITS; lia].
  fold (block_repair cws n).
  exists (after_lookup ACCH_BCH_POLY (codeword cws n) BCH_CW_BITS st1).
  split; [apply after_lookup_ok; [exact Hok1|apply poly_u32]|].
  pose proof (length_block_bits cws n Hl ltac:(lia)) as Hbb.
  assert (Hc : length (concat (map (block_bits cws) (seq 0 n))) = (20 * n)%nat).
  { assert (Hn' : (n <= 10)%nat) by lia. clear -Hl Hn'.
    induction n as [|n IH]; [done|]. rewrite seq_S, map_app, concat_app, length_app, IH by lia.
    cbn [map concat]. rewrite app_nil_r, length_block_bits by (done || lia). lia. }
  rewrite seq_S, map_app, concat_app, List.filter_app, length_app, map_app, sumZ_app.
  cbn [map concat List.filter Nat.add]. rewrite app_nil_r, <- app_assoc.
  replace (200 - 20 * n)%nat with (20 + (200 - 20 * S n))%nat by lia.
  assert (Eb : block_bits cws n = if block_good cws n then take 20 (block_repair cws n).2
                                  else replicate 20 0) by reflexivity.
  unfold block_good in Eb |- *.
  destruct (block_repair cws n) as [e w] eqn:Er; cbn [fst snd] in *.
  destruct (Z.leb_spec 0 e) as [He|He]; rewrite Eb in *.
  - rewrite (proj2 (Z.ltb_ge e 0)) by lia. f_equal. f_equal; [f_equal|].
    + unfold blit, BCH_MSG_BITS. replace (n * 20)%nat with
        (length (concat (map (block_bits cws) (seq 0 n)))) by lia.
      by rewrite take_app_length, drop_app_add, Hbb.
    + by rewrite Nat2Z.inj_add.
    + cbn [map]. rewrite Er. cbn. by rewrite Z.add_0_r.
  - rewrite (proj2 (Z.ltb_lt e 0)) by lia. cbn [length sumZ fold_right].
    rewrite replicate_add, Nat.add_0_r, Z.add_0_r. done.
Qed.

Lemma filter_length_all {A} (P : A -> bool) l :
  (length (List.filter P l) =? length l)%nat = forallb P l.
Proof.
  induction l as [|x l IH]; [done|]. cbn. destruct (P x); cbn; [done|].
  apply Nat.eqb_neq. pose proof (List.filter_length_le P l). lia.
Qed.

(** The parsed fields do not touch what the block loop produced. *)
Lemma parse_keeps o :
  let r := ida_decode_parse_fields o in
  id_ok r = id_ok o /\ id_n_blocks r = id_n_blocks o /\ id_blocks_ok r = id_blocks_ok o /\
  id_total_errors r = id_total_errors o /\ id_n_bits r = id_n_bits o /\ id_bits r = id_bits o /\
  chase_used r = chase_used o /\ chase_checks r = chase_checks o.
Proof. unfold ida_decode_parse_fields. by destruct (id_n_bits o <? 196). Qed.

(** ** The CRC field *)

Lemma stream_byte n buf i z :
  buffer n buf -> is_byte z ->
  (forall j, (j < 8)%nat -> stream_bit buf (8 * i + j) = Z.testbit z (7 - Z.of_nat j)) ->
  rd buf i = z.
Proof.
  intros [Hl Hb] Hz H. apply Z.bits_inj'. intros m Hm.
  destruct (Z.lt_ge_cases m 8) as [H8|H8].
  - specialize (H (Z.to_nat (7 - m)) ltac:(lia)). unfold stream_bit in H.
    rewrite (Nat.mul_comm 8), Nat.div_add_l, Nat.div_small, Nat.add_0_r in H by lia.
    rewrite Nat.add_comm, Nat.Div0.mod_add, Nat.mod_small in H by lia.
    by replace (7 - Z.of_nat (Z.to_nat (7 - m))) with m in H by lia.
  - by rewrite !(testbit_high 8) by (done || by apply rd_byte).
Qed.

(** Bit [j] (from the top) of a packed field. *)
Lemma packbits_testbit b off n j :
  (n <= 32)%nat -> (off + n <= length b)%nat -> (j < n)%nat ->
  Z.testbit (packbits b off n) (Z.of_nat n - 1 - Z.of_nat j) = Z.odd (rd b (off + j)).
Proof.
  intros Hn Hl Hj. rewrite packbits_val by done.
  replace (Z.of_nat n - 1 - Z.of_nat j) with (Z.of_nat (n - 1 - j)) by lia.
  assert (E : length (odds (slice b off n)) = n)
    by (unfold odds; rewrite length_map; by apply length_slice).
  rewrite val_testbit by lia. rewrite E. replace (n - 1 - (n - 1 - j))%nat with j by lia.
  unfold odds. rewrite (nth_indep _ false (Z.odd 0)) by (unfold odds in E; lia).
  rewrite map_nth. f_equal. by apply (rd_slice b off n j).
Qed.

Lemma crc_stream_split bits :
  is_bits bits -> length bits = 200%nat ->
  let rep := packbits bits 180 16 in
  crc_stream bits = take 24 (crc_stream bits) ++ [hi8 rep; lo8 rep].
Proof.
  intros Hb Hl rep. destruct (crc_stream_spec bits Hb) as [Hbuf Hs].
  pose proof (packbits_range bits 180 16 ltac:(lia) ltac:(lia)) as Hr. fold rep in Hr.
  assert (Hrep : forall i j, (i < 2)%nat -> (j < 8)%nat ->
    stream_bit (crc_stream bits) (8 * (24 + i) + j) = Z.testbit rep (15 - Z.of_nat (8 * i + j))).
  { intros i j Hi Hj. rewrite Hs.
    rewrite (proj2 (Nat.ltb_ge _ 20)), (proj2 (Nat.leb_le 32 _)), (proj2 (Nat.ltb_lt _ 208)) by lia.
    cbn [andb orb]. replace (8 * (24 + i) + j - 12)%nat with (180 + (8 * i + j))%nat by lia.
    rewrite <- (packbits_testbit bits 180 16 (8 * i + j)) by lia. done. }
  rewrite <- (take_drop 24 (crc_stream bits)) at 1. f_equal. destruct Hbuf as [Hlen Hby].
  assert (E : forall i, (i < 2)%nat -> drop 24 (crc_stream bits) !! i = Some (rd (crc_stream bits) (24 + i))).
  { intros i Hi. rewrite lookup_drop. unfold rd. rewrite nth_lookup.
    destruct (lookup_lt_is_Some_2 (crc_stream bits) (24 + i) ltac:(lia)) as [x ->]. done. }
  apply list_eq. intros [|[|i]].
  - rewrite E by lia. transitivity (Some (hi8 rep)); [f_equal|done].
    apply (stream_byte 26); [done|by apply hi8_byte|].
    intros j Hj. rewrite Hrep by lia. unfold hi8. rewrite Z.shiftr_spec by lia. f_equal. lia.
  - rewrite E by lia. transitivity (Some (lo8 rep)); [f_equal|done].
    apply (stream_byte 26); [done|apply lo8_byte|].
    intros j Hj. rewrite Hrep by lia. unfold lo8. rewrite Z.land_spec.
    change 0xFF with (Z.ones 8). rewrite Z.ones_spec_low, andb_true_r by lia. f_equal. lia.
  - rewrite lookup_ge_None_2 by (rewrite length_drop; lia). done.
Qed.

Lemma payload_max_len_bound l : 0 <= l < 32 ->
  payload_max_len l 200 = if (1 <=? l) && (l <=? 21) then l else 22.
Proof.
  intros Hl. unfold payload_max_len. change ((200 - 20) / 8) with 22.
  change (22 <? 0) with false. cbv beta iota zeta.
  destruct (Z.ltb_spec 0 l).
  - replace (l * 8 <? 0) with false by lia. rewrite Z.div_mul by lia.
    destruct (Z.ltb_spec 24 l); [|destruct (Z.ltb_spec 22 l)];
      destruct (Z.leb_spec 1 l), (Z.leb_spec l 21); cbn; lia.
  - replace l with 0 by lia. reflexivity.
Qed.

Lemma length_write_payload n f (pl : list Z) :
  length (forN n (fun i pl => <[i := f i]> pl) pl) = length pl.
Proof.
  apply (forN_inv (fun _ p => length p = length pl)); [done|]. intros i x _ H. by rewrite length_insert.
Qed.

Lemma rd_write_payload n f (pl : list Z) k :
  (n <= length pl)%nat ->
  rd (forN n (fun i pl => <[i := f i]> pl) pl) k = if (k <? n)%nat then f k else rd pl k.
Proof.
  induction n as [|n IH]; intros Hn; [done|]. rewrite forN_S, rd_insert, length_write_payload, IH by lia.
  destruct (decide _) as [[<- H]|H]; [by rewrite (proj2 (Nat.ltb_lt _ _)) by lia|].
  destruct (Nat.ltb_spec k n), (Nat.ltb_spec k (S n)); try done; try lia.
Qed.

(** What the block loop leaves, before the field parse. *)
Definition good_blocks (cws : list Z) : list nat := List.filter (block_good cws) (seq 0 10).
Definition decoded_of (cws : list Z) : ida_decoded :=
  let n := Z.of_nat (length (good_blocks cws)) in
  IdaDecoded (n =? 10) 10 n (sumZ (map (fun i => (block_repair cws i).1) (good_blocks cws)))
    (n * Z.of_nat BCH_MSG_BITS) (concat (map (block_bits cws) (seq 0 10)))
    0 0 0 0 0 0 0 false (replicate 24 0) 0 0 0 false false 0.

Lemma blocks_ok_all cws :
  (Z.of_nat (length (good_blocks cws)) =? 10) = forallb (block_good cws) (seq 0 10).
Proof.
  rewrite <- (filter_length_all (block_good cws) (seq 0 10)).
  change (List.filter (block_good cws) (seq 0 10)) with (good_blocks cws).
  destruct (Z.eqb_spec (Z.of_nat (length (good_blocks cws))) 10); symmetry;
    [apply Nat.eqb_eq|apply Nat.eqb_neq]; cbn [length seq]; lia.
Qed.

Lemma length_build_codewords data : length (ida_decode_build_codewords data) = 310%nat.
Proof. rewrite build_codewords_gather, length_gather. apply codeword_idx_facts. Qed.

(** The guard of the decoder. *)
Definition da_frame (frame : iridium_frame) : bool :=
  bool_decide (fr_type frame = IR_FRAME_LW) && bool_decide (fr_lw_subtype frame = IR_LW_DA) &&
  (382 <=? fr_n_bits frame)%nat.

Lemma ida_decode_refused frame out st :
  da_frame frame = false -> ida_decode frame out st = (-1, out, st).
Proof.
  unfold da_frame, ida_decode, UW_BITS, LCW_BITS, DATA_BITS_TOTAL. cbn [Nat.add].
  destruct (bool_decide (fr_type frame = IR_FRAME_LW)); [|done].
  destruct (bool_decide (fr_lw_subtype frame = IR_LW_DA)); [|done]. cbn [negb orb andb].
  intros H. by rewrite (proj2 (Nat.ltb_lt _ _)) by (apply Nat.leb_gt in H; lia).
Qed.

Lemma ida_decode_run frame out st :
  syn_ok st -> da_frame frame = true ->
  exists st', syn_ok st' /\ ida_decode frame out st =
    (0, ida_decode_parse_fields (decoded_of (ida_decode_build_codewords (drop 70 (fr_bits frame)))), st').
Proof.
  intros Hok Hg. unfold da_frame in Hg. apply andb_prop in Hg as [Hg Hn]. apply andb_prop in Hg as [Ht Hs].
  unfold ida_decode, UW_BITS, LCW_BITS, DATA_BITS_TOTAL. cbn [Nat.add].
  rewrite Ht, Hs. cbn [negb orb]. rewrite (proj2 (Nat.ltb_ge _ _)) by (apply Nat.leb_le in Hn; lia).
  set (cws := ida_decode_build_codewords (drop 70 (fr_bits frame))).
  destruct (decode_codewords cws 10 st Hok (length_build_codewords _) ltac:(lia)) as (st' & Hok' & ->).
  exists st'. split; [done|]. change (200 - 20 * 10)%nat with 0%nat. by rewrite app_nil_r.
Qed.

Lemma parse_payload o k :
  id_n_bits o = 200 -> length (id_payload o) = 24%nat -> length (id_bits o) = 200%nat ->
  let r := ida_decode_parse_fields o in
  (k < Z.to_nat (id_payload_len r))%nat -> rd (id_payload r) k = packbits (id_bits o) (20 + k * 8) 8.
Proof.
  intros Hn Hp Hb. unfold ida_decode_parse_fields. rewrite Hn. change (200 <? 196) with false.
  cbn [id_payload id_payload_len]. intros Hk.
  assert (Hr : 0 <= packbits (id_bits o) 11 5 < 32) by (apply (packbits_range _ 11 5); lia).
  pose proof (payload_max_len_bound (packbits (id_bits o) 11 5) ltac:(lia)) as Hm.
  rewrite rd_write_payload.
  - by rewrite (proj2 (Nat.ltb_lt _ _)).
  - rewrite Hp, Hm. clear -Hr. revert Hr. generalize (packbits (id_bits o) 11 5). intros l Hr.
    destruct (Z.leb_spec 1 l), (Z.leb_spec l 21); cbn; lia.
Qed.

(** ** Properties *)

(** A DA frame decodes block by block.  Frames that are not LW.DA or carry
    fewer than 382 bits are refused with the output untouched; otherwise every
    repaired block's 20 message bits stand at the block's own position, a
    block beyond repair leaves zeros there, the counters are the number of
    good blocks and the sum of their corrections, and unless all ten are good
    no header, payload or CRC field is reported. *)
Theorem ida_decode_blocks frame out st :
  syn_ok st ->
  let '(r, d, st') := ida_decode frame out st in
  let cws := ida_decode_build_codewords (drop 70 (fr_bits frame)) in
  let good := List.filter (block_good cws) (seq 0 10) in
  syn_ok st' /\
  (if bool_decide (fr_type frame = IR_FRAME_LW) && bool_decide (fr_lw_subtype frame = IR_LW_DA) &&
     (382 <=? fr_n_bits frame)%nat
  then r = 0 /\ id_bits d = concat (map (block_bits cws) (seq 0 10)) /\
       id_blocks_ok d = Z.of_nat (length good) /\
       id_total_errors d = sumZ (map (fun i => (block_repair cws i).1) good) /\
       id_n_bits d = 20 * id_blocks_ok d /\
       id_ok d = forallb (block_good cws) (seq 0 10) /\
       (id_ok d = false -> header_ok d = false /\ crc_ok d = false /\ id_payload_len d = 0)
  else r = -1 /\ d = out).
Proof.
  intros Hok. cbv zeta.
  destruct (bool_decide (fr_type frame = IR_FRAME_LW) && bool_decide (fr_lw_subtype frame = IR_LW_DA) &&
     (382 <=? fr_n_bits frame)%nat) eqn:Hg.
  2:{ rewrite ida_decode_refused by done. done. }
  destruct (ida_decode_run frame out st Hok Hg) as (st' & Hok' & ->). split; [done|].
  set (cws := ida_decode_build_codewords (drop 70 (fr_bits frame))).
  destruct (parse_keeps (decoded_of cws)) as (-> & _ & -> & -> & -> & -> & _).
  cbn [decoded_of id_ok id_bits id_blocks_ok id_total_errors id_n_bits].
  do 4 (split; [done|]). split; [unfold BCH_MSG_BITS; lia|]. split; [apply blocks_ok_all|].
  intros Hf. apply Z.eqb_neq in Hf.
  assert (Hle : (length (good_blocks cws) <= 10)%nat)
    by (apply (List.filter_length_le (block_good cws) (seq 0 10))).
  unfold ida_decode_parse_fields, decoded_of, BCH_MSG_BITS. cbn [id_n_bits].
  by rewrite (proj2 (Z.ltb_lt _ _)) by lia.
Qed.

Lemma ida_decode_blocks_witness :
  let '(r, d, st') := ida_decode
    (IridiumFrame IR_FRAME_LW IR_FRM_DIR_DOWNLINK IR_LW_DA 24 (replicate 382 0) 382) ida_zero syn_init in
  r = 0 /\ id_n_bits d = 20 * id_blocks_ok d.
Proof.
  pose proof (ida_decode_blocks
    (IridiumFrame IR_FRAME_LW IR_FRM_DIR_DOWNLINK IR_LW_DA 24 (replicate 382 0) 382) ida_zero
    syn_init syn_init_ok) as H.
  destruct (ida_decode _ _ _) as [[r d] st']. destruct H as [_ H]. cbn [fr_type fr_lw_subtype fr_n_bits] in H.
  rewrite !bool_decide_eq_true_2 in H by done. cbn [andb Nat.leb] in H.
  destruct H as (Hr & _ & _ & _ & Hn & _). split; [exact Hr|exact Hn].
Defined.

(** A completely decoded message of zeros. *)
Definition sample_decoded : ida_decoded :=
  IdaDecoded true 10 10 0 200 (replicate 200 0) 0 0 0 0 0 0 0 false (replicate 24 0) 0 0 0 false
    false 0.

(** The CRC verdict.  On a completely decoded message [crc_ok] holds
    exactly when the length field is nonzero and the reported CRC is the
    CCITT-FALSE checksum of the header, the twelve padding zeros and the
    payload region. *)
Theorem ida_parse_crc_ok o :
  id_n_bits o = 200 -> is_bits (id_bits o) -> length (id_bits o) = 200%nat ->
  let r := ida_decode_parse_fields o in
  crc_ok r = true <->
  0 < da_len r /\ da_crc_reported r = crc16_ccitt_false (take 24 (crc_stream (id_bits o))).
Proof.
  intros Hn Hb Hl. unfold ida_decode_parse_fields. rewrite Hn. change (200 <? 196) with false.
  cbn [crc_ok da_len da_crc_reported].
  pose proof (packbits_range (id_bits o) 180 16 ltac:(lia) ltac:(lia)) as Hr.
  set (rep := packbits (id_bits o) 180 16) in *. change (Z.of_nat 16) with 16 in Hr.
  destruct (crc_stream_spec (id_bits o) Hb) as [[_ Hby] _].
  pose proof (crc_stream_split (id_bits o) Hb Hl) as Hs. fold rep in Hs. cbv zeta in Hs.
  set (m := take 24 (crc_stream (id_bits o))) in *.
  assert (Hm : is_bytes m) by (by apply Forall_take).
  pose proof (crc_residue_ccitt m (hi8 rep) (lo8 rep) Hm (hi8_byte rep Hr) (lo8_byte rep)) as Hres.
  rewrite Hs, andb_true_iff, Z.ltb_lt, Z.eqb_eq, Hres.
  split; intros [H1 H2]; (split; [exact H1|]).
  - rewrite <- (split8 rep), <- (split8 (crc16_ccitt_false m)). destruct H2 as [-> ->]. done.
  - by rewrite H2.
Qed.

Lemma ida_parse_crc_ok_witness :
  crc_ok (ida_decode_parse_fields sample_decoded) = true <->
  0 < da_len (ida_decode_parse_fields sample_decoded) /\
  da_crc_reported (ida_decode_parse_fields sample_decoded) =
  crc16_ccitt_false (take 24 (crc_stream (id_bits sample_decoded))).
Proof.
  apply (ida_parse_crc_ok sample_decoded); [reflexivity| |reflexivity].
  apply Forall_replicate. by left.
Defined.

(** C37: field bounds.  Whatever 200 bits were received, the parsed fields fit
    their widths, and the reported payload never reaches past the decoded
    bits or the 24-byte buffer: its length is the length field from 1 to 21 and
    22 bytes otherwise.  The comment in ida_decode.h (line 92) says something
    else, the length field capped at 24: the code agrees with it exactly for
    length fields from 1 to 22, and not for 0 or from 23 on. *)
Theorem ida_parse_bounds o :
  id_n_bits o = 200 -> length (id_bits o) = 200%nat -> length (id_payload o) = 24%nat ->
  let r := ida_decode_parse_fields o in
  is_u 3 (da_flags1 r) /\ is_u 1 (da_cont r) /\ is_u 1 (da_flag1b r) /\ is_u 3 (da_ctr r) /\
  is_u 3 (da_flags2 r) /\ is_u 5 (da_len r) /\ is_u 1 (da_flags3 r) /\
  is_u 16 (da_crc_reported r) /\ is_u 16 (da_crc_computed r) /\
  length (id_payload r) = 24%nat /\
  id_payload_len r = (if (1 <=? da_len r) && (da_len r <=? 21) then da_len r else 22) /\
  (id_payload_len r = Z.min (da_len r) 24 <-> 1 <= da_len r <= 22) /\
  20 + 8 * id_payload_len r <= 200 /\
  (forall k, (k < Z.to_nat (id_payload_len r))%nat -> is_byte (rd (id_payload r) k)).
Proof.
  intros Hn Hl Hp r.
  assert (Hf : forall off w, (w <= 32)%nat -> (off + w <= 200)%nat ->
    is_u (Z.of_nat w) (packbits (id_bits o) off w)) by (intros; apply packbits_range; lia).
  assert (Hlen : id_payload_len r = (if (1 <=? da_len r) && (da_len r <=? 21) then da_len r else 22)).
  { unfold r, ida_decode_parse_fields. rewrite Hn. change (200 <? 196) with false.
    cbn [id_payload_len da_len]. apply payload_max_len_bound. apply (Hf 11%nat 5%nat); lia. }
  assert (Hlen' : 0 <= id_payload_len r <= 22).
  { rewrite Hlen. destruct (Z.leb_spec 1 (da_len r)), (Z.leb_spec (da_len r) 21); cbn; lia. }
  assert (Hpay : forall k, (k < Z.to_nat (id_payload_len r))%nat -> is_byte (rd (id_payload r) k)).
  { intros k Hk. unfold r. rewrite parse_payload by (done || lia). apply (Hf _ 8%nat); lia. }
  assert (Hdoc : id_payload_len r = Z.min (da_len r) 24 <-> 1 <= da_len r <= 22).
  { rewrite Hlen. destruct (Z.leb_spec 1 (da_len r)), (Z.leb_spec (da_len r) 21); cbn [andb]; lia. }
  repeat match goal with |- _ /\ _ => split end; try assumption; try lia;
    unfold r, ida_decode_parse_fields; rewrite Hn; change (200 <? 196) with false; cbn
      [da_flags1 da_cont da_flag1b da_ctr da_flags2 da_len da_flags3 da_crc_reported da_crc_computed
       id_payload]; try (apply Hf; lia).
  - apply crc16_ccitt_u16.
  - rewrite length_write_payload. exact Hp.
Qed.

Lemma ida_parse_bounds_witness : length (id_payload (ida_decode_parse_fields sample_decoded)) = 24%nat.
Proof. apply (ida_parse_bounds sample_decoded); reflexivity. Defined.
