(* ===== verification/IdaEncode.v ===== *)
(** The DA frame encoder (src/common/iridium_decoder/ida_encode.c) and the
    round trip through the classifier and the decoder.

    The encoder writes payload bits into a 200-element array; a write past its
    end is undefined behaviour in C and makes the model's result [None]. *)

From S2P Require Import Prelude Gf2 Bits Crc16 IridiumBch IridiumFrame IdaDecode.

Definition IDA_ENCODE_FRAME_BITS : nat := 382.
Definition N_BLOCKS : nat := 10.

(** [in[2s+1] = v[idx++]; in[2s] = v[idx++]] for each symbol of both runs. *)
Definition de_interleave_inverse (odd_out even_out : list Z) (n_in : nat) : list Z :=
  let n_sym := (n_in / 2)%nat in
  let arr := scatter (replicate n_in 0) (zip (symbol_idx (down_by 2 (n_sym - 1))) odd_out) in
  scatter arr (zip (symbol_idx (down_by 2 (n_sym - 2))) even_out).

Definition chunk_124_from_codewords (cw0 cw1 cw2 cw3 : list Z) : list Z :=
  let deA := cw3 ++ cw1 in
  let deB := cw2 ++ cw0 in
  de_interleave_inverse deA deB CHUNK_124.

Definition tail_64_from_codewords (cw8 cw9 : list Z) : list Z :=
  let b1 := 0 :: cw9 in
  let b2 := 0 :: cw8 in
  de_interleave_inverse b1 b2 END_64.

Definition bch_encode_block (poly : Z) (msg : list Z) (k : nat) : list Z :=
  let poly_len := Z.to_nat (u32_bit_length poly) in
  let n := (k + poly_len - 1)%nat in
  let out := map (fun i => bit (rd msg i)) (seq 0 k) ++ replicate (n - k) 0 in
  let r := iridium_bch_ndivide poly out n in
  take k out ++
  map (fun i => bit (Z.shiftr r (Z.of_nat poly_len - 2 - Z.of_nat i))) (seq 0 (poly_len - 1)).

Definition pack_bits_at (out : list Z) (out_bit_offset : nat) (bits : list Z) (n_bits : nat)
  : list Z :=
  forN n_bits (fun i out =>
    if negb (bit (rd bits i) =? 0) then set_stream_bit out (out_bit_offset + i) 1 else out) out.

(** The link control word section, frame type DA and otherwise zero. *)
Definition build_lcw_raw_bits : list Z :=
  let lcw1_cw := bch_encode_block 29 [0; 1; 0] 3 in
  let lcw2_cw := bch_encode_block 465 (replicate 6 0) 6 in
  let lcw3_cw := bch_encode_block 41 (replicate 21 0) 21 in
  let permuted := blit (blit (blit (replicate LW_LCW_BITS 0) 0 lcw1_cw) 7 (take 13 lcw2_cw)) 20 lcw3_cw in
  let data := scatter (replicate LW_LCW_BITS 0) (zip LCW_TBL permuted) in
  pair_swap data.

(** [msg[i] = v], undefined outside the array. *)
Definition msg_put (i : nat) (v : Z) (msg : list Z) : option (list Z) :=
  if (i <? length msg)%nat then Some (<[i := v]> msg) else None.

(** The header fields of the message. *)
Definition encode_header (da_cont da_ctr payload_len : Z) : list Z :=
  let msg := replicate (N_BLOCKS * BCH_MSG_BITS) 0 in
  let msg := <[3%nat := bit da_cont]> msg in
  let msg := forN 3 (fun k msg => <[(5 + k)%nat := bit (Z.shiftr da_ctr (2 - Z.of_nat k))]> msg) msg in
  forN 5 (fun k msg => <[(11 + k)%nat := bit (Z.shiftr payload_len (4 - Z.of_nat k))]> msg) msg.

Definition encode_payload (payload : list Z) (payload_len : Z) (msg : list Z) : option (list Z) :=
  forN (Z.to_nat payload_len) (fun byte_i om =>
    forN 8 (fun k om =>
      om ≫= msg_put (20 + byte_i * 8 + k) (bit (Z.shiftr (rd payload byte_i) (7 - Z.of_nat k)))) om)
    (Some msg).

Definition encode_crc (msg : list Z) : list Z :=
  let crc_buf := pack_bits_at (replicate 26 0) 0 msg 20 in
  let crc_buf := pack_bits_at crc_buf 32 (drop 20 msg) 160 in
  let crc_val := crc16_ccitt_false (take 24 crc_buf) in
  forN 16 (fun k msg => <[(180 + k)%nat := bit (Z.shiftr crc_val (15 - Z.of_nat k))]> msg) msg.

Definition encode_block (msg : list Z) (i : nat) : list Z :=
  bch_encode_block ACCH_BCH_POLY (drop (i * BCH_MSG_BITS) msg) BCH_MSG_BITS.

Definition encode_data (msg : list Z) : list Z :=
  let cw := encode_block msg in
  pair_swap (chunk_124_from_codewords (cw 0%nat) (cw 1%nat) (cw 2%nat) (cw 3%nat) ++
             chunk_124_from_codewords (cw 4%nat) (cw 5%nat) (cw 6%nat) (cw 7%nat) ++
             tail_64_from_codewords (cw 8%nat) (cw 9%nat)).

(** [Some (ret, out_bits)]; [None] when the C function would write outside
    [msg].  An argument error leaves [out_bits] alone. *)
Definition ida_encode_da_frame (da_cont da_ctr : Z) (payload : list Z) (payload_len : Z)
    (out_bits : list Z) : option (Z * list Z) :=
  if (payload_len =? 0) || (24 <? payload_len) then Some (-1, out_bits) else
  if 7 <? da_ctr then Some (-1, out_bits) else
  msg ← encode_payload payload payload_len (encode_header da_cont da_ctr payload_len);
  Some (0, UW_DL ++ build_lcw_raw_bits ++ encode_data (encode_crc msg)).

#[local] Opaque iridium_bch_ndivide iridium_bch_repair1 iridium_bch_repair2
  iridium_bch_repair1_ref iridium_bch_repair2_ref crc_stream.

(** ** Systematic BCH encoding *)

Lemma word_odds l n : length l = n -> word l n = odds l.
Proof.
  intros <-. unfold word, odds. apply (nth_ext _ _ (Z.odd 0) (Z.odd 0)).
  - by rewrite !length_map, length_seq.
  - intros i Hi. rewrite length_map, length_seq in Hi.
    rewrite (nth_indep _ _ (Z.odd (rd l 0))) by (by rewrite length_map, length_seq).
    rewrite (map_nth (fun i => Z.odd (rd l i))), seq_nth by done.
    rewrite map_nth. done.
Qed.

Lemma xorl_app a b c d : length a = length c -> xorl (a ++ b) (c ++ d) = xorl a c ++ xorl b d.
Proof.
  unfold xorl. revert c. induction a as [|x a IH]; intros [|y c] H; try done. cbn. f_equal.
  apply IH. naive_solver.
Qed.

Lemma odds_replicate n : odds (replicate n 0) = replicate n false.
Proof. induction n as [|n IH]; [done|]. unfold odds in *. cbn. by rewrite IH. Qed.

(** An encoded block is the message followed by the check bits that make it
    divide. *)
Lemma bch_encode_block_ok poly d msg k :
  degree poly d -> (1 <= k)%nat -> (k + d <= 32)%nat ->
  let out := bch_encode_block poly msg k in
  length out = (k + d)%nat /\ is_bits out /\
  take k out = map (fun i => bit (rd msg i)) (seq 0 k) /\
  iridium_bch_ndivide poly out (k + d) = 0.
Proof.
  intros Hdeg Hk Hkd out. set (M := map (fun i => bit (rd msg i)) (seq 0 k)).
  assert (HM : length M = k) by (unfold M; by rewrite length_map, length_seq).
  set (r := iridium_bch_ndivide poly (M ++ replicate d 0) (k + d)).
  assert (Eout : out = M ++ unpack d r).
  { unfold out, bch_encode_block. fold M. rewrite (u32_bit_length_degree poly d) by done.
    replace (Z.to_nat (Z.of_nat d + 1)) with (d + 1)%nat by lia.
    replace (k + (d + 1) - 1)%nat with (k + d)%nat by lia.
    replace (k + d - k)%nat with d by lia. rewrite take_app_length' by done. f_equal.
    unfold unpack. replace (d + 1 - 1)%nat with d by lia. apply map_ext. intros i.
    fold r. do 2 f_equal. lia. }
  rewrite Eout. split; [by rewrite length_app, length_unpack, HM|].
  split; [apply Forall_app; split; [apply Forall_map, Forall_true; intros; apply bit_01|apply unpack_bits]|].
  split; [by rewrite take_app_length'|].
  assert (Hr : 0 <= r < 2 ^ Z.of_nat d) by (apply ndivide_bound; [done|lia]).
  rewrite (ndivide_lfsr poly d) by (done || lia).
  rewrite word_odds by (by rewrite length_app, length_unpack, HM).
  assert (Hw : r = lfsr poly d 0 (odds M ++ replicate d false)).
  { unfold r. rewrite (ndivide_lfsr poly d) by (done || lia).
    rewrite word_odds by (by rewrite length_app, length_replicate, HM).
    unfold odds. rewrite map_app. f_equal. f_equal. apply odds_replicate. }
  assert (HoM : length (odds M) = k) by (unfold odds; by rewrite length_map).
  assert (Hou : length (odds (unpack d r)) = d) by (unfold odds; by rewrite length_map, length_unpack).
  assert (E : odds (M ++ unpack d r) =
    xorl (odds M ++ replicate d false) (replicate k false ++ odds (unpack d r))).
  { rewrite xorl_app by (by rewrite length_replicate). unfold odds at 1. rewrite map_app.
    by rewrite xorl_falses_r, xorl_falses_l. }
  rewrite E, lfsr_linear by (rewrite !length_app, !length_replicate; lia).
  rewrite <- Hw, lfsr_app, lfsr_falses, lfsr_small; rewrite ?val_unpack by done;
    [|lia|lia]. rewrite Z.mul_0_l, Z.add_0_l. apply Z.lxor_nilpotent.
Qed.

Lemma acch_degree : degree ACCH_BCH_POLY 11.
Proof. unfold degree, ACCH_BCH_POLY. cbn. lia. Qed.

Lemma encode_block_ok msg i :
  let cw := encode_block msg i in
  length cw = 31%nat /\ is_bits cw /\
  take 20 cw = map (fun k => bit (rd msg (i * 20 + k))) (seq 0 20) /\
  iridium_bch_ndivide ACCH_BCH_POLY cw 31 = 0.
Proof.
  destruct (bch_encode_block_ok ACCH_BCH_POLY 11 (drop (i * BCH_MSG_BITS) msg) 20 acch_degree
    ltac:(lia) ltac:(lia)) as (H1 & H2 & H3 & H4).
  split; [exact H1|]. split; [exact H2|]. split; [|exact H4]. unfold encode_block, BCH_MSG_BITS in *.
  rewrite H3. apply map_ext. intros k. by rewrite rd_drop.
Qed.

(** ** The interleavers are inverse *)

Definition inv_idx (n_in : nat) : list nat :=
  (de_interleave_idx n_in).1 ++ (de_interleave_idx n_in).2.

Lemma de_interleave_inverse_scatter a b n :
  length (de_interleave_idx n).1 = length a ->
  de_interleave_inverse a b n = scatter (replicate n 0) (zip (inv_idx n) (a ++ b)).
Proof.
  intros H. unfold de_interleave_inverse, inv_idx. by rewrite zip_app, scatter_app.
Qed.

Lemma inv_idx_facts n : n = 124%nat \/ n = 64%nat ->
  length (inv_idx n) = n /\ List.NoDup (inv_idx n) /\ Forall (fun i => (i < n)%nat) (inv_idx n) /\
  length (de_interleave_idx n).1 = (n / 2)%nat.
Proof.
  intros [-> | ->]; (split; [reflexivity|]); (split; [|split; [|reflexivity]]).
  - apply NoDup_ListNoDup, (bool_decide_unpack _). vm_compute. reflexivity.
  - apply (bool_decide_unpack _). vm_compute. reflexivity.
  - apply NoDup_ListNoDup, (bool_decide_unpack _). vm_compute. reflexivity.
  - apply (bool_decide_unpack _). vm_compute. reflexivity.
Qed.

Lemma de_interleave_inv a b n :
  n = 124%nat \/ n = 64%nat -> length a = (n / 2)%nat -> length b = (n / 2)%nat ->
  is_bits a -> is_bits b -> de_interleave (de_interleave_inverse a b n) n = (a, b).
Proof.
  intros Hn Ha Hb Ba Bb. destruct (inv_idx_facts n Hn) as (H1 & H2 & H3 & H4).
  rewrite de_interleave_inverse_scatter, de_interleave_gather by congruence.
  assert (Hl : (n / 2 + n / 2)%nat = n) by (destruct Hn as [-> | ->]; reflexivity).
  pose proof (gather_scatter (replicate n 0) (inv_idx n) (a ++ b) H2
    ltac:(rewrite length_app; lia) ltac:(by rewrite length_replicate)) as E.
  rewrite is_bits_map_bit in E by (by apply Forall_app). unfold inv_idx in E at 2.
  rewrite gather_app in E. apply app_inj_1 in E as [-> ->]; [done|].
  rewrite length_gather. congruence.
Qed.

Lemma length_de_interleave_inverse a b n : length (de_interleave_inverse a b n) = n.
Proof. unfold de_interleave_inverse. by rewrite !length_scatter, length_replicate. Qed.

Lemma chunk_inv c0 c1 c2 c3 :
  length c0 = 31%nat -> length c1 = 31%nat -> length c2 = 31%nat -> length c3 = 31%nat ->
  is_bits c0 -> is_bits c1 -> is_bits c2 -> is_bits c3 ->
  chunk_124_to_codewords (chunk_124_from_codewords c0 c1 c2 c3) = c0 ++ c1 ++ c2 ++ c3.
Proof.
  intros. unfold chunk_124_to_codewords, chunk_124_from_codewords, CHUNK_124.
  rewrite de_interleave_inv; [|auto|rewrite length_app; cbn; lia..|by apply Forall_app|by apply Forall_app].
  set (cat := (c3 ++ c1) ++ c2 ++ c0).
  rewrite (slice_app_at cat (c3 ++ c1 ++ c2) c0 []), (slice_app_at cat c3 c1 (c2 ++ c0)),
    (slice_app_at cat (c3 ++ c1) c2 c0), (slice_app_at cat [] c3 (c1 ++ c2 ++ c0));
    rewrite ?length_app; try (cbn; lia); try done; unfold cat; by rewrite <- ?app_assoc, ?app_nil_r.
Qed.

Lemma tail_inv c8 c9 :
  length c8 = 31%nat -> length c9 = 31%nat -> is_bits c8 -> is_bits c9 ->
  tail_64_to_codewords (tail_64_from_codewords c8 c9) = c8 ++ c9.
Proof.
  intros H8 H9 B8 B9. unfold tail_64_to_codewords, tail_64_from_codewords, END_64.
  rewrite de_interleave_inv;
    [|auto|cbn [length]; rewrite ?H8, ?H9; reflexivity..|apply Forall_cons; auto|apply Forall_cons; auto].
  unfold slice. cbn [skipn]. by rewrite (take_ge c8), (take_ge c9) by lia.
Qed.

(** ** Sent and received codewords *)

#[local] Opaque encode_block.

Lemma gather_app_low a b idx : Forall (fun i => (i < length a)%nat) idx ->
  gather (a ++ b) idx = gather a idx.
Proof.
  unfold gather. intros H. induction H as [|i idx Hi H IH]; [done|]. cbn [map]. rewrite IH.
  unfold rd. by rewrite app_nth1.
Qed.

Lemma chunk_idx_bound : Forall (fun i => (i < 124)%nat) chunk_idx.
Proof. apply (bool_decide_unpack _). vm_compute. reflexivity. Qed.

Lemma chunk_app a b : length a = 124%nat ->
  chunk_124_to_codewords (a ++ b) = chunk_124_to_codewords a.
Proof.
  intros H. rewrite !chunk_gather. apply gather_app_low. rewrite H. apply chunk_idx_bound.
Qed.

Definition sent_codewords (msg : list Z) : list Z := concat (map (encode_block msg) (seq 0 10)).

Lemma length_encode_data msg : length (encode_data msg) = 312%nat.
Proof.
  unfold encode_data. rewrite length_pair_swap, !length_app.
  unfold chunk_124_from_codewords, tail_64_from_codewords. by rewrite !length_de_interleave_inverse.
Qed.

Lemma encode_data_codewords msg : ida_decode_build_codewords (encode_data msg) = sent_codewords msg.
Proof.
  unfold ida_decode_build_codewords. rewrite take_ge by (rewrite length_encode_data; done).
  unfold encode_data. rewrite pair_swap_involutive.
  pose (e := encode_block msg).
  pose (c0 := chunk_124_from_codewords (e 0%nat) (e 1%nat) (e 2%nat) (e 3%nat)).
  pose (c1 := chunk_124_from_codewords (e 4%nat) (e 5%nat) (e 6%nat) (e 7%nat)).
  pose (t := tail_64_from_codewords (e 8%nat) (e 9%nat)).
  change (chunk_124_to_codewords (c0 ++ c1 ++ t) ++
    chunk_124_to_codewords (drop CHUNK_124 (c0 ++ c1 ++ t)) ++
    tail_64_to_codewords (drop (2 * CHUNK_124) (c0 ++ c1 ++ t)) = sent_codewords msg).
  assert (H0 : length c0 = CHUNK_124) by apply length_de_interleave_inverse.
  assert (H1 : length c1 = CHUNK_124) by apply length_de_interleave_inverse.
  rewrite (chunk_app c0) by exact H0. rewrite (drop_app_length' c0) by exact (eq_sym H0).
  rewrite (chunk_app c1) by exact H1.
  rewrite (app_assoc c0), (drop_app_length' (c0 ++ c1)) by (by rewrite length_app, H0, H1).
  assert (E : forall i, length (encode_block msg i) = 31%nat /\ is_bits (encode_block msg i))
    by (intros i; destruct (encode_block_ok msg i) as (? & ? & _); done).
  unfold c0, c1, t. rewrite !chunk_inv, tail_inv by apply E.
  unfold sent_codewords. cbn [seq map concat]. rewrite app_nil_r, <- !app_assoc. reflexivity.
Qed.

Lemma codeword_sent msg i : (i < 10)%nat -> codeword (sent_codewords msg) i = encode_block msg i.
Proof.
  intros Hi. assert (E : forall n o, length (concat (map (encode_block msg) (seq o n))) = (31 * n)%nat).
  { induction n as [|n IH]; intros o; [done|]. cbn [seq map concat]. rewrite length_app, IH.
    destruct (encode_block_ok msg o) as (-> & _). lia. }
  unfold codeword, sent_codewords, BCH_CW_BITS.
  replace (seq 0 10) with (seq 0 i ++ i :: seq (S i) (9 - i)).
  2:{ change (i :: seq (S i) (9 - i)) with (seq i (S (9 - i))).
      transitivity (seq 0 (i + S (9 - i))); [symmetry; apply seq_app|f_equal; lia]. }
  rewrite map_app, concat_app. cbn [map concat].
  eapply slice_app_at; [reflexivity|rewrite E; lia|apply encode_block_ok].
Qed.

(** ** Bit errors *)

Definition hit (es : list nat) (p : nat) : bool := existsb (Nat.eqb p) es.

Lemma hit_In es p : hit es p = true <-> In p es.
Proof.
  unfold hit. rewrite existsb_exists. split.
  - intros (x & Hx & ->%Nat.eqb_eq). done.
  - intros H. exists p. by rewrite Nat.eqb_refl.
Qed.

Lemma rd_flip l i p : rd (flip l i) p =
  if (p =? i)%nat && (p <? length l)%nat then Z.lxor (rd l p) 1 else rd l p.
Proof.
  unfold flip. rewrite rd_insert.
  destruct (decide _) as [[-> H]|H].
  - by rewrite Nat.eqb_refl, (proj2 (Nat.ltb_lt _ _)).
  - destruct (Nat.eqb_spec p i), (Nat.ltb_spec p (length l)); try done. destruct H. done.
Qed.

Lemma rd_flips es l p :
  NoDup es -> (p < length l)%nat ->
  rd (flips es l) p = if hit es p then Z.lxor (rd l p) 1 else rd l p.
Proof.
  unfold flips. intros Hnd. revert l. induction Hnd as [|i es Hi Hnd IH]; intros l Hp; [done|].
  cbn [fold_left]. rewrite IH by (by rewrite length_flip). rewrite rd_flip.
  rewrite (proj2 (Nat.ltb_lt _ _)) by done. rewrite andb_true_r.
  change (hit (i :: es) p) with ((p =? i)%nat || hit es p).
  destruct (Nat.eqb_spec p i) as [->|]; [|done]. cbn [orb].
  destruct (hit es i) eqn:E; [|done]. apply hit_In in E. rewrite <- list_elem_of_In in E. done.
Qed.

(** Where bit [k] of codeword [i] travels in the data section. *)
Definition data_pos (i k : nat) : nat := swap_idx (nth (31 * i + k) codeword_idx 0%nat).

(** The bits of codeword [i] that the errors [es] hit. *)
Definition hits (es : list nat) (i : nat) : list nat :=
  List.filter (fun k => hit es (data_pos i k)) (seq 0 31).

Lemma hits_spec es i :
  NoDup (hits es i) /\ Forall (fun k => (k < 31)%nat) (hits es i) /\
  forall k, (k < 31)%nat -> hit (hits es i) k = hit es (data_pos i k).
Proof.
  unfold hits. split; [|split].
  - apply NoDup_ListNoDup, List.NoDup_filter, seq_NoDup.
  - apply Forall_forall. intros k Hk. apply List.filter_In in Hk as [Hk _]. apply in_seq in Hk. lia.
  - intros k Hk. apply Bool.eq_iff_eq_true. rewrite hit_In, List.filter_In, in_seq.
    split; [by intros [_ ?]|]. split; [lia|done].
Qed.

Lemma swap_idx_bound i : (i < 312)%nat -> (swap_idx i < 312)%nat.
Proof.
  intros Hi. unfold swap_idx. destruct (Nat.even i) eqn:E; [|lia].
  apply Nat.even_spec in E as [k ->]. lia.
Qed.

Lemma codeword_bit data i k :
  length data = 312%nat -> (i < 10)%nat -> (k < 31)%nat ->
  rd (codeword (ida_decode_build_codewords data) i) k = bit (rd data (data_pos i k)).
Proof.
  intros Hl Hi Hk. unfold codeword, BCH_CW_BITS. rewrite rd_slice by done.
  rewrite build_codewords_gather, rd_gather by (destruct codeword_idx_facts as (-> & _); lia).
  unfold DATA_BITS_TOTAL. rewrite take_ge by lia. rewrite rd_pair_swap by (by rewrite Hl).
  unfold data_pos. do 4 f_equal. lia.
Qed.

Lemma data_pos_bound i k : (i < 10)%nat -> (k < 31)%nat -> (data_pos i k < 312)%nat.
Proof.
  intros Hi Hk. destruct codeword_idx_facts as (Hl & _ & Hb). apply swap_idx_bound.
  rewrite Forall_forall in Hb. apply Hb, nth_In. lia.
Qed.

(** Errors in the data section become errors of the codewords. *)
Lemma received_codeword data es i :
  length data = 312%nat -> NoDup es -> (i < 10)%nat ->
  codeword (ida_decode_build_codewords (flips es data)) i =
  flips (hits es i) (codeword (ida_decode_build_codewords data) i).
Proof.
  intros Hl Hnd Hi. destruct (hits_spec es i) as (Hn & Hb & Hh).
  assert (Hc : forall d, length (codeword (ida_decode_build_codewords d) i) = 31%nat)
    by (intros d; apply length_codeword; [apply length_build_codewords|done]).
  apply rd_ext; [by rewrite length_flips, !Hc|]. rewrite Hc. intros k Hk.
  rewrite rd_flips by (rewrite ?Hc; done). rewrite Hh by done.
  rewrite !codeword_bit by (rewrite ?length_flips; done).
  rewrite rd_flips by (rewrite ?Hl; auto using data_pos_bound).
  destruct (hit es (data_pos i k)); [|done].
  rewrite !bit_odd, odd_lxor_1. by destruct (Z.odd _).
Qed.

(** ** The message *)

Lemma encode_header_eq c r l :
  encode_header c r l =
  [0; 0; 0; bit c; 0] ++ unpack 3 r ++ [0; 0; 0] ++ unpack 5 l ++ replicate 184 0.
Proof. reflexivity. Qed.

Lemma msg_put_run n off (f : nat -> Z) (m : list Z) :
  (off + n <= length m)%nat ->
  forN n (fun k om => om ≫= msg_put (off + k) (f k)) (Some m) =
  Some (forN n (fun k m => <[(off + k)%nat := f k]> m) m).
Proof.
  intros Hn. induction n as [|n IH]; [done|]. rewrite !forN_S, IH by lia. cbn [mbind option_bind].
  unfold msg_put. rewrite (proj2 (Nat.ltb_lt _ _)); [done|].
  rewrite write_run by lia. rewrite length_blit; rewrite ?length_map, ?length_seq; lia.
Qed.

Definition payload_bits (payload : list Z) (n : nat) : list Z :=
  concat (map (fun b => unpack 8 (rd payload b)) (seq 0 n)).

Lemma length_payload_bits payload n : length (payload_bits payload n) = (8 * n)%nat.
Proof.
  unfold payload_bits. induction n as [|n IH]; [done|].
  rewrite seq_S, map_app, concat_app, length_app, IH. cbn [map concat].
  rewrite app_nil_r, length_unpack. lia.
Qed.

Lemma encode_payload_eq payload n m :
  (20 + 8 * n <= length m)%nat ->
  encode_payload payload (Z.of_nat n) m = Some (blit m 20 (payload_bits payload n)).
Proof.
  unfold encode_payload. rewrite Nat2Z.id. intros Hn. induction n as [|n IH].
  - unfold blit. cbn [payload_bits seq map concat length app]. by rewrite Nat.add_0_r, take_drop.
  - rewrite forN_S, IH by lia. pose proof (length_payload_bits payload n) as Hp.
    assert (Hl : length (blit m 20 (payload_bits payload n)) = length m) by (rewrite length_blit; lia).
    rewrite msg_put_run, write_run by (rewrite Hl; lia). f_equal.
    replace (20 + n * 8)%nat with (20 + length (payload_bits payload n))%nat by lia.
    rewrite blit_blit_adj by (rewrite length_map, length_seq; lia). f_equal.
    unfold payload_bits at 2. rewrite (seq_S n), (map_app _ (seq 0 n)), concat_app. cbn [map concat].
    rewrite app_nil_r. reflexivity.
Qed.

Lemma slice_payload_bits payload n k : (k < n)%nat ->
  slice (payload_bits payload n) (8 * k) 8 = unpack 8 (rd payload k).
Proof.
  intros Hk. replace n with (k + S (n - S k))%nat by lia. unfold payload_bits.
  rewrite seq_app, map_app, concat_app. cbn [seq map concat].
  eapply slice_app_at; [reflexivity|apply (length_payload_bits payload k)|apply length_unpack].
Qed.

Lemma pack_bits_at_spec n buf off bits m :
  buffer n buf -> (off + m <= 8 * n)%nat ->
  buffer n (pack_bits_at buf off bits m) /\
  forall k, stream_bit (pack_bits_at buf off bits m) k =
    stream_bit buf k || ((off <=? k)%nat && (k <? off + m)%nat && Z.odd (rd bits (k - off))).
Proof.
  intros Hb Hm. apply (stream_loop n off m _ (fun i => Z.odd (rd bits i))); [done|].
  intros b buf' Hbm Hbuf. rewrite bit_odd. destruct (Z.odd (rd bits b)); cbn [Z.b2z Z.eqb negb].
  - apply (set_stream_bit_spec n buf' (off + b) true); [done|lia].
  - split; [done|]. intros k. by rewrite andb_false_r, orb_false_r.
Qed.

Lemma stream_bit_take n buf k : (k < 8 * n)%nat -> stream_bit (take n buf) k = stream_bit buf k.
Proof.
  intros Hk. unfold stream_bit, rd. rewrite !nth_lookup, lookup_take_lt; [done|].
  apply Nat.Div0.div_lt_upper_bound. lia.
Qed.

(** The encoder's checksum input is the first 24 bytes of the decoder's. *)
Lemma encode_crc_eq m :
  is_bits m -> length m = 200%nat ->
  exists crc, is_u 16 crc /\ encode_crc m = blit m 180 (unpack 16 crc) /\
    crc = crc16_ccitt_false (take 24 (crc_stream (encode_crc m))).
Proof.
  intros Hb Hl. unfold encode_crc.
  set (buf := pack_bits_at (pack_bits_at (replicate 26 0) 0 m 20) 32 (drop 20 m) 160).
  set (crc := crc16_ccitt_false (take 24 buf)). exists crc.
  split; [apply crc16_ccitt_u16|].
  assert (Em : forN 16 (fun k m => <[(180 + k)%nat := bit (Z.shiftr crc (15 - Z.of_nat k))]> m) m =
    blit m 180 (unpack 16 crc)) by (apply write_run; lia).
  rewrite Em. split; [done|]. unfold crc. f_equal.
  set (M := blit m 180 (unpack 16 crc)).
  assert (HbM : is_bits M) by (unfold M, blit; apply Forall_app; split; [by apply Forall_take|];
    apply Forall_app; split; [apply unpack_bits|by apply Forall_drop]).
  destruct (pack_bits_at_spec 26 (replicate 26 0) 0 m 20 (buffer_zero 26) ltac:(lia)) as [B1 S1].
  destruct (pack_bits_at_spec 26 _ 32 (drop 20 m) 160 B1 ltac:(lia)) as [B2 S2]. fold buf in B2, S2.
  destruct (crc_stream_spec M HbM) as [B3 S3].
  assert (T : forall b, buffer 26 b -> buffer 24 (take 24 b)).
  { intros b [Hb1 Hb2]. split; [rewrite length_take; lia|by apply Forall_take]. }
  apply (buffer_ext 24); [by apply T..|]. intros k Hk.
  rewrite !stream_bit_take, S2, S1, S3, stream_bit_zero by done. cbn [orb]. rewrite Nat.sub_0_r, rd_drop.
  assert (R : forall j, (j < 180)%nat -> rd M j = rd m j).
  { intros j Hj. unfold rd, M. rewrite !nth_lookup, lookup_blit, decide_False by lia. done. }
  f_equal.
  - destruct (Nat.ltb_spec k 20); cbn [andb Nat.leb Nat.add]; [|by rewrite (proj2 (Nat.ltb_ge _ _)) by lia].
    rewrite (proj2 (Nat.ltb_lt _ _)) by lia. by rewrite R by lia.
  - destruct (Nat.leb_spec 32 k); [|done]. rewrite !(proj2 (Nat.ltb_lt _ _)) by lia. cbn [andb].
    rewrite R by lia. do 2 f_equal. lia.
Qed.

(** Fields are read back from the slices they were written to. *)
Lemma packbits_slice b off n v :
  (n <= 32)%nat -> (off + n <= length b)%nat -> 0 <= v < 2 ^ Z.of_nat n ->
  slice b off n = unpack n v -> packbits b off n = v.
Proof. intros Hn Hl Hv E. rewrite packbits_val by done. rewrite E. by apply val_unpack. Qed.

Definition message (c r : Z) (payload : list Z) (n : nat) : list Z :=
  encode_crc (blit (encode_header c r (Z.of_nat n)) 20 (payload_bits payload n)).

Lemma length_encode_header c r l : length (encode_header c r l) = 200%nat.
Proof. reflexivity. Qed.

Lemma blit_bits m off s : is_bits m -> is_bits s -> is_bits (blit m off s).
Proof.
  intros Hm Hs. unfold blit. apply Forall_app; split; [by apply Forall_take|].
  apply Forall_app; split; [done|by apply Forall_drop].
Qed.

Lemma encode_header_bits c r l : is_bits (encode_header c r l).
Proof.
  rewrite encode_header_eq.
  assert (Z0 : forall n, is_bits (replicate n 0)) by (intros; apply Forall_replicate; by left).
  apply Forall_app_2; [repeat (apply Forall_cons_2; [first [by left|apply bit_01]|]); constructor|].
  apply Forall_app_2; [apply unpack_bits|]. apply Forall_app_2; [apply (Z0 3%nat)|].
  apply Forall_app_2; [apply unpack_bits|apply Z0].
Qed.

Lemma payload_bits_bits payload n : is_bits (payload_bits payload n).
Proof.
  unfold payload_bits. apply Forall_concat, Forall_map, Forall_true. intros. apply unpack_bits.
Qed.

#[local] Opaque encode_crc crc16_ccitt_false encode_header.

Lemma message_spec c r payload n :
  0 <= r <= 7 -> (1 <= n <= 20)%nat -> (n <= length payload)%nat -> is_bytes payload ->
  let M := message c r payload n in
  length M = 200%nat /\ is_bits M /\
  packbits M 3 1 = bit c /\ packbits M 5 3 = r /\ packbits M 11 5 = Z.of_nat n /\
  packbits M 17 3 = 0 /\
  (forall k, (k < n)%nat -> packbits M (20 + k * 8) 8 = rd payload k) /\
  packbits M 180 16 = crc16_ccitt_false (take 24 (crc_stream M)).
Proof.
  intros Hr Hn Hlp Hby M. set (h := encode_header c r (Z.of_nat n)).
  pose proof (length_payload_bits payload n) as Hpl.
  assert (Hh : length h = 200%nat) by apply length_encode_header.
  assert (Hm0 : length (blit h 20 (payload_bits payload n)) = 200%nat) by (rewrite length_blit; lia).
  assert (Hb0 : is_bits (blit h 20 (payload_bits payload n)))
    by (apply blit_bits; [apply encode_header_bits|apply payload_bits_bits]).
  destruct (encode_crc_eq _ Hb0 Hm0) as (crc & Hcrc & E & Ecrc). fold M in E, Ecrc.
  change (encode_crc (blit h 20 (payload_bits payload n))) with M in E, Ecrc.
  assert (HM : length M = 200%nat) by (rewrite E, length_blit; rewrite ?length_unpack; lia).
  split; [exact HM|]. split; [rewrite E; apply blit_bits; [done|apply unpack_bits]|].
  assert (Hhdr : forall o w v, (o + w <= 20)%nat -> 0 <= v < 2 ^ Z.of_nat w ->
    slice h o w = unpack w v -> packbits M o w = v).
  { intros o w v Ho Hv Es. apply packbits_slice; [lia|lia|done|].
    rewrite E, slice_blit_before, slice_blit_before by lia. exact Es. }
  unfold h in Hhdr. rewrite encode_header_eq in Hhdr.
  split; [apply Hhdr; [lia|destruct (bit_01 c) as [-> | ->]; cbn; lia|]|].
  { change ([bit c] = [bit (Z.shiftr (bit c) 0)]). by rewrite Z.shiftr_0_r, (bit_bit (bit c)) by apply bit_01. }
  split; [apply Hhdr; [lia|cbn; lia|reflexivity]|].
  split; [apply Hhdr; [lia|cbn; lia|reflexivity]|].
  split; [apply Hhdr; [lia|cbn; lia|reflexivity]|].
  split.
  - intros k Hk. pose proof (rd_byte payload k Hby) as Hbk.
    apply packbits_slice; [lia|lia|exact Hbk|].
    rewrite E, slice_blit_before by (rewrite ?Hm0; lia).
    rewrite <- (slice_payload_bits payload n k Hk).
    apply list_eq. intros i. rewrite !lookup_slice. destruct (decide (i < 8)%nat); [|done].
    rewrite lookup_blit, decide_True by lia. f_equal. lia.
  - rewrite <- Ecrc. apply packbits_slice; [lia|lia|exact Hcrc|].
    rewrite E. rewrite <- (length_unpack 16 crc) at 2. apply slice_blit. lia.
Qed.

Lemma gather_all M : is_bits M -> map (fun i => bit (rd M i)) (seq 0 (length M)) = M.
Proof.
  intros HM. apply rd_ext; [by rewrite length_map, length_seq|].
  rewrite length_map, length_seq. intros i Hi.
  change (map (fun i => bit (rd M i)) (seq 0 (length M))) with (gather M (seq 0 (length M))).
  rewrite rd_gather, seq_nth by (rewrite ?length_seq; done). apply bit_bit, rd_bits, HM.
Qed.

(** What the decoder sees of a sent message with errors [es]. *)
Lemma received_blocks M es :
  length M = 200%nat -> is_bits M -> NoDup es ->
  (forall i, (i < 10)%nat -> (length (hits es i) <= 2)%nat) ->
  let cws := ida_decode_build_codewords (flips es (encode_data M)) in
  (forall i, (i < 10)%nat -> block_repair cws i = (Z.of_nat (length (hits es i)), encode_block M i)) /\
  concat (map (block_bits cws) (seq 0 10)) = M.
Proof.
  intros HM HbM Hnd Hh cws.
  assert (Hr : forall i, (i < 10)%nat ->
    block_repair cws i = (Z.of_nat (length (hits es i)), encode_block M i)).
  { intros i Hi. unfold block_repair, cws.
    rewrite received_codeword by (try done; apply length_encode_data).
    rewrite encode_data_codewords, codeword_sent by done.
    destruct (encode_block_ok M i) as (Hl & _ & _ & Hz). destruct (hits_spec es i) as (H1 & H2 & _).
    apply repair2_ref_codes; [cbn; auto|unfold BCH_CW_BITS; lia|exact Hz|exact H1|exact H2|by apply Hh]. }
  split; [exact Hr|].
  transitivity (concat (map (fun i => map (fun k => bit (rd M (i * 20 + k))) (seq 0 20)) (seq 0 10))).
  - f_equal. apply map_ext_in. intros i Hi. apply in_seq in Hi. unfold block_bits, block_good.
    rewrite Hr by lia. cbn [fst snd]. change BCH_MSG_BITS with 20%nat.
    rewrite (proj2 (Z.leb_le _ _)) by lia.
    by destruct (encode_block_ok M i) as (_ & _ & -> & _).
  - transitivity (map (fun i => bit (rd M i)) (seq 0 (length M))); [|by apply gather_all].
    rewrite HM. reflexivity.
Qed.

(** ** Classification of an encoded frame *)

(** The first 46 payload bits in the classifier's orientation. *)
Definition lcw_prefix : list Z := pair_swap build_lcw_raw_bits.

(** The even word of the broadcast test on an encoded frame: it depends on the
    header block alone. *)
Definition bc_even (cw0 : list Z) : list Z :=
  let z := replicate 31 0 in
  (de_interleave_pair (drop 6 (lcw_prefix ++ take 24 (chunk_124_from_codewords cw0 z z z))) 64).2.

(** No header makes it a ring-alert codeword. *)
Definition header_block (c r l : Z) : list Z :=
  bch_encode_block ACCH_BCH_POLY (encode_header c r l) BCH_MSG_BITS.

Lemma headers_not_bc :
  forallb (fun c => forallb (fun r => forallb (fun l =>
    negb (iridium_bch_ndivide 1207 (bc_even (header_block (Z.of_nat c) (Z.of_nat r) (Z.of_nat l))) 31 =? 0))
    (seq 0 32)) (seq 0 8)) (seq 0 2) = true.
Proof. vm_compute. reflexivity. Qed.

Lemma header_not_bc c r l :
  c = 0 \/ c = 1 -> 0 <= r <= 7 -> 0 <= l < 32 ->
  (iridium_bch_ndivide 1207 (bc_even (header_block c r l)) 31 =? 0) = false.
Proof.
  intros Hc Hr Hl. pose proof headers_not_bc as H.
  rewrite forallb_forall in H. specialize (H (Z.to_nat c) ltac:(apply in_seq; lia)).
  rewrite forallb_forall in H. specialize (H (Z.to_nat r) ltac:(apply in_seq; lia)).
  rewrite forallb_forall in H. specialize (H (Z.to_nat l) ltac:(apply in_seq; lia)).
  rewrite !Z2Nat.id in H by lia. by apply negb_true_iff in H.
Qed.

Lemma bc_even_indep c0 c1 c2 c3 rest :
  length c0 = 31%nat -> length c1 = 31%nat -> length c2 = 31%nat -> length c3 = 31%nat ->
  (de_interleave_pair (drop 6 (lcw_prefix ++ take 24 (chunk_124_from_codewords c0 c1 c2 c3) ++ rest)) 64).2
  = bc_even c0.
Proof.
  intros H0 H1 H2 H3.
  do 31 (destruct c0 as [|? c0]; [discriminate|]). destruct c0; [|discriminate].
  do 31 (destruct c1 as [|? c1]; [discriminate|]). destruct c1; [|discriminate].
  do 31 (destruct c2 as [|? c2]; [discriminate|]). destruct c2; [|discriminate].
  do 31 (destruct c3 as [|? c3]; [discriminate|]). destruct c3; [|discriminate].
  clear. vm_compute. reflexivity.
Qed.

#[local] Opaque classify_lw de_interleave_pair.

(** The strict dispatch on any payload that starts like an encoded frame. *)
Lemma strict_dispatch_encoded c0 c1 c2 c3 rest st :
  syn_ok st ->
  length c0 = 31%nat -> length c1 = 31%nat -> length c2 = 31%nat -> length c3 = 31%nat ->
  (iridium_bch_ndivide 1207 (bc_even c0) 31 =? 0) = false ->
  exists st', syn_ok st' /\
    strict_dispatch (lcw_prefix ++ take 24 (chunk_124_from_codewords c0 c1 c2 c3) ++ rest) 128 st =
    (Some (IR_FRAME_LW, IR_LW_DA), st').
Proof.
  intros Hok H0 H1 H2 H3 Hbc. set (T := take 24 (chunk_124_from_codewords c0 c1 c2 c3) ++ rest).
  assert (Ems : bits_equal (lcw_prefix ++ T) HEADER_MESSAGING 32 = false) by (vm_compute; reflexivity).
  assert (Etl : looks_like_time_location (lcw_prefix ++ T) 128 = false) by (vm_compute; reflexivity).
  assert (Ebc : classify_bc (lcw_prefix ++ T) 128 = false).
  { unfold classify_bc. change (128 <? BC_HDR_LEN + BC_BLOCK_LEN)%nat with false. cbv beta iota.
    destruct (negb _); [done|].
    pose proof (bc_even_indep c0 c1 c2 c3 rest H0 H1 H2 H3) as E. fold T in E. unfold BC_HDR_LEN, BC_BLOCK_LEN.
    destruct (de_interleave_pair (drop 6 (lcw_prefix ++ T)) 64) as [o e]. cbn [snd] in E. subst e.
    rewrite Hbc. apply andb_false_r. }
  pose proof (classify_lw_eq (lcw_prefix ++ T) 128 st Hok) as Hlw.
  assert (Ew : lcw_words (lcw_prefix ++ T) = lcw_words lcw_prefix) by (vm_compute; reflexivity).
  rewrite Ew in Hlw.
  destruct (classify_lw (lcw_prefix ++ T) 128 st) as [o st'] eqn:Eo.
  destruct (lcw_words lcw_prefix) as [[l1 l2] l3] eqn:El. vm_compute in El. injection El as <- <- <-.
  destruct Hlw as [Ho Hok']. vm_compute in Ho. cbn [snd] in Hok'.
  exists st'. split; [exact Hok'|]. unfold strict_dispatch. rewrite Ems, Etl, Ebc, Eo. by rewrite Ho.
Qed.

Lemma lcw_raw_bits : is_bits build_lcw_raw_bits /\ length build_lcw_raw_bits = 46%nat.
Proof.
  split; [|reflexivity]. eapply Forall_impl; [|apply (bool_decide_unpack (Forall (fun x => x ∈ [0; 1]) build_lcw_raw_bits)); vm_compute; reflexivity].
  intros x Hx. cbn beta in Hx. apply elem_of_cons in Hx as [->|Hx]; [by left|].
  apply list_elem_of_singleton in Hx. by right.
Qed.

Lemma chunk_bits c0 c1 c2 c3 :
  is_bits c0 -> is_bits c1 -> is_bits c2 -> is_bits c3 -> is_bits (chunk_124_from_codewords c0 c1 c2 c3).
Proof.
  intros B0 B1 B2 B3.
  assert (S : forall idx vs a, is_bits vs -> is_bits a -> is_bits (scatter a (zip idx vs))).
  { induction idx as [|i idx IH]; intros [|v vs] a Hv Ha; try done.
    apply Forall_cons_1 in Hv as [Hv Hvs]. apply (IH vs); [done|]. by apply Forall_insert. }
  unfold chunk_124_from_codewords, de_interleave_inverse.
  apply S; [by apply Forall_app|]. apply S; [by apply Forall_app|]. apply Forall_replicate. by left.
Qed.

Lemma classify_encoded M D harder dir_out st c r l :
  syn_ok st -> c = 0 \/ c = 1 -> 0 <= r <= 7 -> 0 <= l < 32 ->
  encode_block M 0 = header_block c r l ->
  take 24 D = take 24 (encode_data M) ->
  exists st', syn_ok st' /\
    iridium_frame_classify (UW_DL ++ build_lcw_raw_bits ++ D) 382 IR_FRM_DIR_DOWNLINK harder dir_out st =
    (0, IridiumFrame IR_FRAME_LW IR_FRM_DIR_DOWNLINK IR_LW_DA 24 (UW_DL ++ build_lcw_raw_bits ++ D) 382, st').
Proof.
  intros Hok Hc Hr Hl Hh HT.
  destruct lcw_raw_bits as [HbL HlL].
  assert (E : forall i, length (encode_block M i) = 31%nat /\ is_bits (encode_block M i))
    by (intros i; destruct (encode_block_ok M i) as (? & ? & _); done).
  set (ch := chunk_124_from_codewords (encode_block M 0) (encode_block M 1) (encode_block M 2) (encode_block M 3)).
  assert (Hch : length ch = 124%nat) by apply length_de_interleave_inverse.
  assert (Bch : is_bits ch) by (apply chunk_bits; apply E).
  assert (HT' : take 24 (encode_data M) = pair_swap (take 24 ch)).
  { unfold encode_data. fold ch. rewrite <- (take_drop 24 ch) at 1. rewrite <- app_assoc.
    rewrite pair_swap_app by (rewrite length_take, Hch; done).
    apply take_app_length'. by rewrite length_pair_swap, length_take, Hch. }
  assert (Esw : swapped_prefix (build_lcw_raw_bits ++ D) 358 =
    lcw_prefix ++ take 24 ch ++ pair_swap (map bit (drop 24 (take 82 D)))).
  { unfold swapped_prefix. change (swap_len 358) with (46 + 82)%nat. rewrite <- HlL at 1.
    rewrite take_app_add, map_app, is_bits_map_bit by done.
    rewrite pair_swap_app by (by rewrite HlL). f_equal.
    rewrite <- (take_drop 24 (take 82 D)) at 1. rewrite take_take. cbn [Nat.min].
    rewrite HT, HT', map_app, is_bits_map_bit by (apply pair_swap_bits; by apply Forall_take).
    rewrite pair_swap_app by (rewrite length_pair_swap, length_take, Hch; done).
    by rewrite pair_swap_involutive. }
  destruct (strict_dispatch_encoded (encode_block M 0) (encode_block M 1) (encode_block M 2) (encode_block M 3)
    (pair_swap (map bit (drop 24 (take 82 D)))) st Hok) as (st' & Hok' & Es); [apply E..| |].
  { rewrite Hh. by apply header_not_bc. }
  exists st'. split; [exact Hok'|]. unfold iridium_frame_classify.
  set (bits := UW_DL ++ build_lcw_raw_bits ++ D) in *.
  assert (Euw : bits_equal bits UW_DL UW_BITS = true) by (vm_compute; reflexivity).
  change (drop UW_BITS bits) with (build_lcw_raw_bits ++ D).
  change (382 <? UW_BITS)%nat with false. change (382 - UW_BITS)%nat with 358%nat.
  change (358 <? MIN_PAYLOAD_BITS)%nat with false. cbv zeta iota.
  rewrite Euw, Esw. change (swap_len 358) with 128%nat. fold ch in Es. by rewrite Es.
Qed.

Lemma flips_shift es a b : flips (map (Nat.add (length a)) es) (a ++ b) = a ++ flips es b.
Proof.
  unfold flips. revert b. induction es as [|i es IH]; intros b; [done|]. cbn [map fold_left].
  assert (E : flip (a ++ b) (length a + i) = a ++ flip b i).
  { unfold flip, rd. rewrite app_nth2_plus. by rewrite insert_app_r. }
  rewrite E. apply IH.
Qed.

Lemma take_flips es n b : Forall (fun p => (n <= p)%nat) es -> take n (flips es b) = take n b.
Proof.
  unfold flips. intros H. revert b. induction H as [|i es Hi H IH]; intros b; [done|].
  cbn [fold_left]. rewrite IH. unfold flip. by rewrite take_insert_ge.
Qed.

Lemma sumZ_map_eq {A} (f g : A -> Z) l : (forall x, In x l -> f x = g x) -> sumZ (map f l) = sumZ (map g l).
Proof. intros H. f_equal. by apply map_ext_in. Qed.

Lemma encode_block_header c r payload n :
  (1 <= n <= 20)%nat -> encode_block (message c r payload n) 0 = header_block c r (Z.of_nat n).
Proof.
  intros Hn. pose proof (length_payload_bits payload n) as Hpl.
  pose proof (length_encode_header c r (Z.of_nat n)) as Hh.
  Local Transparent encode_block. unfold encode_block, header_block, bch_encode_block. cbn [Nat.mul drop].
  assert (E : map (fun i => bit (rd (message c r payload n) i)) (seq 0 BCH_MSG_BITS) =
              map (fun i => bit (rd (encode_header c r (Z.of_nat n)) i)) (seq 0 BCH_MSG_BITS)).
  { apply map_ext_in. intros i Hi. apply in_seq in Hi. f_equal.
    unfold message.
    destruct (encode_crc_eq (blit (encode_header c r (Z.of_nat n)) 20 (payload_bits payload n)))
      as (crc & _ & -> & _).
    - apply blit_bits; [apply encode_header_bits|apply payload_bits_bits].
    - rewrite length_blit; lia.
    - unfold BCH_MSG_BITS in Hi. unfold rd.
      rewrite !nth_lookup, !lookup_blit, !decide_False by (rewrite ?length_blit; lia). done. }
  by rewrite drop_0, E.
Qed.
#[local] Opaque encode_block.

(** The decoder's fields on a received message. *)
Lemma round_trip_fields c r payload es :
  let n := length payload in
  0 <= r <= 7 -> (1 <= n <= 20)%nat -> is_bytes payload -> NoDup es ->
  (forall i, (i < 10)%nat -> (length (hits es i) <= 2)%nat) ->
  let d := ida_decode_parse_fields (decoded_of
    (ida_decode_build_codewords (flips es (encode_data (message c r payload n))))) in
  id_ok d = true /\ header_ok d = true /\ crc_ok d = true /\
  da_cont d = bit c /\ da_ctr d = r /\ da_len d = Z.of_nat n /\ id_payload_len d = Z.of_nat n /\
  take n (id_payload d) = payload /\
  id_total_errors d = sumZ (map (fun i => Z.of_nat (length (hits es i))) (seq 0 10)).
Proof.
  intros n Hr Hn Hby Hnd Hh d.
  destruct (message_spec c r payload n Hr Hn ltac:(lia) Hby) as (HM & HbM & F1 & F2 & F3 & F4 & F5 & F6).
  set (M := message c r payload n) in *.
  destruct (received_blocks M es HM HbM Hnd Hh) as [Hrep Hbits].
  set (cws := ida_decode_build_codewords (flips es (encode_data M))) in *.
  assert (Hgood : good_blocks cws = seq 0 10).
  { unfold good_blocks. rewrite (forallb_filter_id (block_good cws)); [done|].
    apply forallb_forall. intros i Hi. apply in_seq in Hi. unfold block_good. rewrite Hrep by lia.
    cbn [fst]. apply Z.leb_le. lia. }
  assert (Hdec : decoded_of cws = IdaDecoded true 10 10
    (sumZ (map (fun i => Z.of_nat (length (hits es i))) (seq 0 10))) 200 M
    0 0 0 0 0 0 0 false (replicate 24 0) 0 0 0 false false 0).
  { unfold decoded_of. rewrite Hgood, Hbits. f_equal. apply sumZ_map_eq. intros i Hi.
    apply in_seq in Hi. by rewrite Hrep by lia. }
  pose proof (parse_payload (decoded_of cws)) as Hpay. unfold d. rewrite Hdec in *.
  set (o := IdaDecoded _ _ _ _ _ _ _ _ _ _ _ _ _ _ _ _ _ _ _ _ _) in *.
  assert (Hlen : id_payload_len (ida_decode_parse_fields o) = Z.of_nat n).
  { unfold ida_decode_parse_fields. change (id_n_bits o <? 196) with false. cbn [id_payload_len].
    change (id_bits o) with M. change (id_n_bits o) with 200. rewrite F3, payload_max_len_bound by lia.
    by rewrite (proj2 (Z.leb_le _ _)), (proj2 (Z.leb_le _ _)) by lia. }
  assert (Hcrc : crc_ok (ida_decode_parse_fields o) = true).
  { unfold ida_decode_parse_fields. change (id_n_bits o <? 196) with false. cbn [crc_ok].
    change (id_bits o) with M. rewrite F3, (proj2 (Z.ltb_lt _ _)) by lia. cbn [andb].
    apply Z.eqb_eq. pose proof (crc_stream_split M HbM HM) as Hs. cbv zeta in Hs. rewrite Hs.
    destruct (crc_stream_spec M HbM) as [[_ Hbc] _].
    pose proof (packbits_range M 180 16 ltac:(lia) ltac:(lia)) as Hrg.
    apply crc_residue_ccitt; [by apply Forall_take|by apply hi8_byte|apply lo8_byte|].
    by rewrite <- F6. }
  assert (Hpl : length (id_payload (ida_decode_parse_fields o)) = 24%nat).
  { unfold ida_decode_parse_fields. change (id_n_bits o <? 196) with false. cbn [id_payload].
    by rewrite length_write_payload. }
  split; [by destruct (parse_keeps o) as (-> & _)|].
  split; [unfold ida_decode_parse_fields; change (id_n_bits o <? 196) with false; cbn [header_ok];
    change (id_bits o) with M; by rewrite F4|].
  split; [exact Hcrc|]. split; [exact F1|]. split; [exact F2|]. split; [exact F3|].
  split; [exact Hlen|]. split; [|by destruct (parse_keeps o) as (_ & _ & _ & -> & _)].
  apply rd_ext; [rewrite length_take; lia|]. rewrite length_take. intros k Hk.
  transitivity (rd (id_payload (ida_decode_parse_fields o)) k).
  { unfold rd. by rewrite !nth_lookup, lookup_take_lt by lia. }
  rewrite Hpay by (try done; rewrite Hlen; lia). apply F5. lia.
Qed.

(** The encoder's output, and where bit errors in its data section fall. *)
Lemma encode_frame_eq c r payload out :
  0 <= r <= 7 -> (1 <= length payload <= 20)%nat ->
  ida_encode_da_frame c r payload (Z.of_nat (length payload)) out =
  Some (0, UW_DL ++ build_lcw_raw_bits ++ encode_data (message (bit c) r payload (length payload))).
Proof.
  intros Hr Hn. set (n := length payload) in *.
  assert (EM : encode_payload payload (Z.of_nat n) (encode_header c r (Z.of_nat n)) =
    Some (blit (encode_header (bit c) r (Z.of_nat n)) 20 (payload_bits payload n))).
  { rewrite encode_payload_eq by (rewrite length_encode_header; lia).
    rewrite !encode_header_eq, (bit_bit (bit c)) by apply bit_01. done. }
  unfold ida_encode_da_frame. rewrite (proj2 (Z.eqb_neq _ _)), (proj2 (Z.ltb_ge 24 _)) by lia.
  cbn [orb]. rewrite (proj2 (Z.ltb_ge 7 _)) by lia. rewrite EM. reflexivity.
Qed.

Lemma frame_flips es data :
  flips (map (Nat.add 70) es) (UW_DL ++ build_lcw_raw_bits ++ data) = UW_DL ++ build_lcw_raw_bits ++ flips es data.
Proof.
  destruct lcw_raw_bits as [_ HlL]. rewrite !app_assoc. replace 70%nat with (length (UW_DL ++ build_lcw_raw_bits))
    by (rewrite length_app, HlL; reflexivity). apply flips_shift.
Qed.

(** ** Properties *)

(** C11: the DA round trip.  For every payload of 1 to 20 bytes the encoder
    produces a 382-bit frame which, received with any bit errors in its data
    section that put at most two into each of the ten codewords, decodes to
    exactly the fields and payload that were encoded, with the CRC and header
    checks passing and the number of corrected bits reported; and which the
    classifier types LW.DA provided the first 24 data bits are intact. *)
Theorem ida_encode_decode_round_trip c r payload es out out_frame st :
  syn_ok st -> 0 <= r <= 7 -> (1 <= length payload <= 20)%nat -> is_bytes payload ->
  NoDup es -> (forall i, (i < 10)%nat -> (length (hits es i) <= 2)%nat) ->
  exists bits,
    ida_encode_da_frame c r payload (Z.of_nat (length payload)) out = Some (0, bits) /\
    length bits = IDA_ENCODE_FRAME_BITS /\
    let received := flips (map (Nat.add 70) es) bits in
    (forall dir, let '(ret, d, _) :=
       ida_decode (IridiumFrame IR_FRAME_LW dir IR_LW_DA 24 received 382) ida_zero st in
     ret = 0 /\ id_ok d = true /\ header_ok d = true /\ crc_ok d = true /\
     da_cont d = bit c /\ da_ctr d = r /\ id_payload_len d = Z.of_nat (length payload) /\
     take (length payload) (id_payload d) = payload /\
     id_total_errors d = sumZ (map (fun i => Z.of_nat (length (hits es i))) (seq 0 10))) /\
    (Forall (fun p => (24 <= p)%nat) es ->
     let '(ret, f, _) := iridium_frame_classify received 382 IR_FRM_DIR_DOWNLINK true out_frame st in
     ret = 0 /\ fr_type f = IR_FRAME_LW /\ fr_lw_subtype f = IR_LW_DA).
Proof.
  intros Hok Hr Hn Hby Hnd Hh. set (n := length payload) in *.
  set (M := message (bit c) r payload n).
  exists (UW_DL ++ build_lcw_raw_bits ++ encode_data M). split; [by apply encode_frame_eq|].
  destruct lcw_raw_bits as [_ HlL].
  split; [rewrite !length_app, HlL, length_encode_data; reflexivity|]. cbv zeta.
  rewrite frame_flips. split.
  - intros dir. set (fr := IridiumFrame _ _ _ _ _ _).
    destruct (ida_decode_run fr ida_zero st Hok eq_refl) as (st' & _ & ->).
    change (drop 70 (fr_bits fr)) with (drop (24 + 46) (UW_DL ++ build_lcw_raw_bits ++ flips es (encode_data M))).
    rewrite app_assoc, drop_app_length' by (rewrite length_app, HlL; reflexivity).
    destruct (round_trip_fields (bit c) r payload es Hr Hn Hby Hnd Hh)
      as (? & ? & ? & Hc & ? & ? & ? & ? & ?).
    rewrite (bit_bit (bit c)) in Hc by apply bit_01. repeat (split; [done|]). done.
  - intros Hpre.
    destruct (classify_encoded M (flips es (encode_data M)) true out_frame st (bit c) r (Z.of_nat n) Hok
      (bit_01 c) Hr ltac:(lia) (encode_block_header (bit c) r payload n Hn))
      as (st' & _ & ->); [by apply take_flips|done].
Qed.

Definition sample_payload : list Z := [0x48; 0x45; 0x4C; 0x4C; 0x4F].
Definition no_frame : iridium_frame :=
  IridiumFrame IR_FRAME_UNKNOWN IR_FRM_DIR_DOWNLINK IR_LW_NONE 0 [] 0.

Lemma ida_encode_decode_round_trip_witness :
  exists bits,
    ida_encode_da_frame 1 5 sample_payload 5 [] = Some (0, bits) /\ length bits = 382%nat.
Proof.
  destruct (ida_encode_decode_round_trip 1 5 sample_payload [30; 31; 100; 200; 311]%nat [] no_frame
    syn_init syn_init_ok) as (bits & H1 & H2 & _).
  - lia.
  - cbn. lia.
  - apply (bool_decide_unpack (Forall (fun z => 0 <= z < 256) sample_payload)). vm_compute. reflexivity.
  - apply (bool_decide_unpack _). vm_compute. reflexivity.
  - intros i Hi.
    pose proof (forall_below (fun i => (length (hits [30; 31; 100; 200; 311]%nat i) <=? 2)%nat) 10
      ltac:(vm_compute; reflexivity) i Hi) as H. by apply Nat.leb_le in H.
  - exists bits. split; [exact H1|exact H2].
Defined.

(** Payloads the encoder accepts but cannot carry.  It takes lengths up to
    24, yet the message array holds 160 payload bits before the CRC: at 23 and
    24 bytes it writes outside the array, and a payload of 21 bytes comes back
    with a passing CRC and its last byte replaced by a CRC byte. *)
Theorem ida_encode_oversize c r payload out :
  0 <= r <= 7 ->
  ida_encode_da_frame c r payload 23 out = None /\
  ida_encode_da_frame c r payload 24 out = None /\
  exists long bits, length long = 21%nat /\
    ida_encode_da_frame 0 0 long 21 out = Some (0, bits) /\
    let '(ret, d, _) :=
      ida_decode (IridiumFrame IR_FRAME_LW IR_FRM_DIR_DOWNLINK IR_LW_DA 24 bits 382) ida_zero syn_init in
    ret = 0 /\ header_ok d = true /\ crc_ok d = true /\ id_payload_len d = 21 /\
    take 20 (id_payload d) = take 20 long /\ take 21 (id_payload d) <> long.
Proof.
  intros Hr. unfold ida_encode_da_frame. rewrite !(proj2 (Z.ltb_ge 7 r)) by lia.
  split; [vm_compute; reflexivity|]. split; [vm_compute; reflexivity|].
  exists (replicate 21 0x41). eexists. split; [reflexivity|].
  split; [vm_compute; reflexivity|]. vm_compute. repeat split; try reflexivity. congruence.
Qed.

Lemma ida_encode_oversize_witness : ida_encode_da_frame 0 0 (replicate 24 0x41) 24 [] = None.
Proof. destruct (ida_encode_oversize 0 0 (replicate 24 0x41) []) as (_ & H & _); [lia|exact H]. Defined.
