(* ===== verification/IdaChase.v ===== *)
(** The Chase-2 soft-decision fallback of the DA decoder
    (src/common/iridium_decoder/ida_chase.c).

    After a hard decode that left a codeword beyond repair, each such codeword
    is repaired again under every flip of its [L] least reliable bits; the
    distinct messages found are combined across codewords, and the first
    combination that passes the header check and the CRC is taken, within a
    cap on the number of CRC checks. *)

From stdpp Require Import sets sorting.
From S2P Require Import Prelude Gf2 Bits IridiumBch IridiumFrame IdaDecode.
#[local] Open Scope Z_scope.

Definition IDA_CHASE_MAX_L : nat := 6.
Definition IDA_CHASE_DEFAULT_L : nat := 5.
Definition IDA_CHASE_DEFAULT_MAX_CRC : nat := 256.
Definition IDA_DECODE_N_CW : nat := 10.
Definition IDA_DECODE_CW_BITS : nat := 31.
Definition IDA_DECODE_N_CW_BITS : nat := 310.
Definition IDA_DECODE_DATA_OFF : nat := 70.
Definition IDA_DECODE_DATA_BITS : nat := 312.
Definition FRAME_BITS_NEEDED : nat := 382.

(** ** Module state *)

Record ida_chase_stats := ChaseStats { attempts : Z; recovered : Z; crc_checks : Z }.

(** The index map is kept flat: [s_map[i][k]] is entry [31 * i + k]. *)
Record chase_state := ChaseState {
  s_enabled : bool; s_L : nat; s_max_crc : nat; s_stats : ida_chase_stats;
  s_map : list nat; s_map_built : bool }.

Definition chase_init : chase_state :=
  ChaseState false IDA_CHASE_DEFAULT_L IDA_CHASE_DEFAULT_MAX_CRC (ChaseStats 0 0 0)
    (replicate IDA_DECODE_N_CW_BITS 0%nat) false.

Definition with_stats (s : chase_state) (x : ida_chase_stats) : chase_state :=
  ChaseState (s_enabled s) (s_L s) (s_max_crc s) x (s_map s) (s_map_built s).

(** The codeword bit that one-hot input [p] lights, if any. *)
Definition probe (p : nat) : option nat :=
  let cw := ida_decode_build_codewords (<[p := 1]> (replicate IDA_DECODE_DATA_BITS 0)) in
  find (fun j => negb (rd cw j =? 0)) (seq 0 IDA_DECODE_N_CW_BITS).

Definition build_index_map (s : chase_state) : chase_state :=
  ChaseState (s_enabled s) (s_L s) (s_max_crc s) (s_stats s)
    (forN IDA_DECODE_DATA_BITS (fun p map =>
       match probe p with Some j => <[j := p]> map | None => map end) (s_map s))
    true.

Definition ida_chase_set_enabled (s : chase_state) (enable : bool) : bool * chase_state :=
  (s_enabled s, ChaseState enable (s_L s) (s_max_crc s) (s_stats s) (s_map s) (s_map_built s)).
Definition ida_chase_get_enabled (s : chase_state) : bool := s_enabled s.

Definition ida_chase_set_params (s : chase_state) (L max_crc_checks : Z) : chase_state :=
  let L := if L <? 1 then 1 else L in
  let L := if Z.of_nat IDA_CHASE_MAX_L <? L then Z.of_nat IDA_CHASE_MAX_L else L in
  let m := if max_crc_checks <? 1 then 1 else max_crc_checks in
  let m := if 4096 <? m then 4096 else m in
  ChaseState (s_enabled s) (Z.to_nat L) (Z.to_nat m) (s_stats s) (s_map s) (s_map_built s).
Definition ida_chase_get_params (s : chase_state) : nat * nat := (s_L s, s_max_crc s).
Definition ida_chase_get_stats (s : chase_state) : ida_chase_stats := s_stats s.

(** ** Helpers *)

Definition bit_conf (soft : list Z) (fb : nat) : Z :=
  let sym := (fb / 2)%nat in
  let m := rd soft (2 * sym) in
  let m := if m <? 0 then - m else m in
  if (0 <? sym)%nat then
    let mp := rd soft (2 * (sym - 1)) in
    let mp := if mp <? 0 then - mp else mp in
    if mp <? m then mp else m
  else m.

(** The message or -1, and the repaired word. *)
Definition hard_decode_cw (cw : list Z) (st : syn_state) : Z * list Z * syn_state :=
  let '(errs, cw, st) := iridium_bch_repair2 ACCH_BCH_POLY cw IDA_DECODE_CW_BITS st in
  if errs <? 0 then (-1, cw, st) else (packbits cw 0 20, cw, st).

(** [for (j = hi; j > lo; j--) l[j] = l[j - 1]] *)
Definition shift_up {A} (d : A) (l : list A) (lo hi : nat) : list A :=
  forN (hi - lo) (fun i l => <[(hi - i)%nat := nth (hi - i - 1) l d]> l) l.

(** [while (lo < n && list[lo] < v) lo++], [k] rounds left. *)
Fixpoint insert_pos (k : nat) (l : list Z) (lo : nat) (v : Z) : nat :=
  match k with
  | O => lo
  | S k => if rd l lo <? v then insert_pos k l (S lo) v else lo
  end.

Definition insert_unique (l : list Z) (n : nat) (v : Z) : list Z * nat :=
  let lo := insert_pos n l 0 v in
  if (lo <? n)%nat && (rd l lo =? v) then (l, n)
  else (<[lo := v]> (shift_up 0 l lo n), S n).

(** ** The least reliable positions *)

(** [while (pos > 0 && conf[k] < conf[lcb[pos - 1]]) pos--] *)
Fixpoint lcb_pos (conf : list Z) (lcb : list nat) (k pos : nat) : nat :=
  match pos with
  | O => O
  | S p => if rd conf k <? rd conf (nth p lcb 0%nat) then lcb_pos conf lcb k p else pos
  end.

Definition lcb_step (conf : list Z) (L : nat) (k : nat) (s : list nat * nat) : list nat * nat :=
  let '(lcb, n_lcb) := s in
  let pos := lcb_pos conf lcb k n_lcb in
  if (pos <? L)%nat then
    let n_lcb := if (n_lcb <? L)%nat then S n_lcb else n_lcb in
    (<[pos := k]> (shift_up 0%nat lcb pos (n_lcb - 1)), n_lcb)
  else (lcb, n_lcb).

(** The array is not initialised in C; entries below the count are the only
    ones read. *)
Definition least_confident (conf : list Z) (L : nat) : list nat * nat :=
  forN IDA_DECODE_CW_BITS (lcb_step conf L) (replicate IDA_CHASE_MAX_L 0%nat, 0%nat).

(** ** Candidates *)

Definition trial_word (cw : list Z) (lcb : list nat) (n_lcb mset : nat) : list Z :=
  forN n_lcb (fun j trial =>
    if Z.land (Z.of_nat mset) (Z.shiftl 1 (Z.of_nat j)) =? 0 then trial
    else flip trial (nth j lcb 0%nat)) cw.

(** One row of [cand] and its count; the row is scratch, rewritten from its
    start for every codeword. *)
Definition candidates (cw : list Z) (lcb : list nat) (n_lcb n_trial : nat) (st : syn_state)
  : (list Z * nat) * syn_state :=
  forN n_trial (fun mset '((cand, nc), st) =>
    let '(m, _, st) := hard_decode_cw (trial_word cw lcb n_lcb mset) st in
    if 0 <=? m then (insert_unique cand nc (u32 m), st) else ((cand, nc), st))
  ((replicate (2 ^ IDA_CHASE_MAX_L) 0, 0%nat), st).

(** [msgs] and [failed]. *)
Definition hard_pass (rcw : list Z) (st : syn_state) : (list Z * list nat) * syn_state :=
  forN IDA_DECODE_N_CW (fun i '((msgs, failed), st) =>
    let '(m, _, st) := hard_decode_cw (slice rcw (i * IDA_DECODE_CW_BITS) IDA_DECODE_CW_BITS) st in
    ((msgs ++ [m], if m <? 0 then failed ++ [i] else failed), st))
  (([], []), st).

(** The loop over the failed codewords, [None] for a codeword without
    candidates. *)
Fixpoint failed_pass (soft rcw : list Z) (map : list nat) (L : nat) (failed : list nat)
    (cand : list (list Z)) (n_cand : list nat) (st : syn_state)
  : option (list (list Z) * list nat) * syn_state :=
  match failed with
  | [] => (Some (cand, n_cand), st)
  | i :: failed =>
      let cw := slice rcw (i * IDA_DECODE_CW_BITS) IDA_DECODE_CW_BITS in
      let conf := List.map (fun k =>
        bit_conf soft (IDA_DECODE_DATA_OFF + nth (i * IDA_DECODE_CW_BITS + k) map 0%nat))
        (seq 0 IDA_DECODE_CW_BITS) in
      let '(lcb, n_lcb) := least_confident conf L in
      let '((row, nc), st) := candidates cw lcb n_lcb (2 ^ L) st in
      if (nc =? 0)%nat then (None, st)
      else failed_pass soft rcw map L failed (<[i := row]> cand) (<[i := nc]> n_cand) st
  end.

(** ** The search *)

(** The 200 message bits of a hypothesis. *)
Definition assemble (msgs : list Z) (cand : list (list Z)) (odo : list nat) : list Z :=
  forN IDA_DECODE_N_CW (fun i bits =>
    let m := if 0 <=? rd msgs i then u32 (rd msgs i) else rd (nth i cand []) (nth i odo 0%nat) in
    forN 20 (fun b bits =>
      <[(i * 20 + b)%nat := u8 (Z.land (Z.shiftr m (19 - Z.of_nat b)) 1)]> bits) bits)
  (replicate 200 0).

Definition trial_of (bits : list Z) : ida_decoded :=
  ida_decode_parse_fields
    (IdaDecoded true 10 10 0 (10 * 20) bits 0 0 0 0 0 0 0 false (replicate 24 0) 0 0 0 false false 0).

(** [*out = trial] after the three assignments. *)
Definition chased (trial out : ida_decoded) (checks : nat) : ida_decoded :=
  IdaDecoded (id_ok trial) (id_n_blocks trial) (id_blocks_ok trial) (id_total_errors out)
    (id_n_bits trial) (id_bits trial) (da_flags1 trial) (da_cont trial) (da_flag1b trial)
    (da_ctr trial) (da_flags2 trial) (da_len trial) (da_flags3 trial) (header_ok trial)
    (id_payload trial) (id_payload_len trial) (da_crc_reported trial) (da_crc_computed trial)
    (crc_ok trial) true (u16 (Z.of_nat checks)).

(** The odometer, from the last failed codeword backwards; [false] when every
    wheel has turned over. *)
Fixpoint odo_advance (rfailed : list nat) (n_cand odo : list nat) : bool * list nat :=
  match rfailed with
  | [] => (false, odo)
  | i :: rfailed =>
      let odo := <[i := S (nth i odo 0%nat)]> odo in
      if (nth i odo 0 <? nth i n_cand 0)%nat then (true, odo)
      else odo_advance rfailed n_cand (<[i := 0%nat]> odo)
  end.

(** The check loop with [fuel = s_max_crc - checks] rounds left. *)
Fixpoint chase_search (fuel : nat) (msgs : list Z) (failed : list nat) (cand : list (list Z))
    (n_cand odo : list nat) (checks : nat) (stats : ida_chase_stats) (out : ida_decoded)
  : Z * ida_decoded * ida_chase_stats :=
  match fuel with
  | O => (0, out, stats)
  | S fuel =>
      let trial := trial_of (assemble msgs cand odo) in
      let checks := S checks in
      let stats := ChaseStats (attempts stats) (recovered stats) (u32 (crc_checks stats + 1)) in
      if header_ok trial && crc_ok trial then
        (1, chased trial out checks,
         ChaseStats (attempts stats) (u32 (recovered stats + 1)) (crc_checks stats))
      else
        let '(more, odo) := odo_advance (rev failed) n_cand odo in
        if more then chase_search fuel msgs failed cand n_cand odo checks stats out
        else (0, out, stats)
  end.

(** ** Main entry *)

Definition ida_chase_decode (frame : iridium_frame) (soft_bits : option (list Z)) (n_soft : nat)
    (out : ida_decoded) (s : chase_state) (st : syn_state)
  : Z * ida_decoded * chase_state * syn_state :=
  if negb (s_enabled s) then (0, out, s, st) else
  if negb (bool_decide (fr_type frame = IR_FRAME_LW)) ||
     negb (bool_decide (fr_lw_subtype frame = IR_LW_DA)) then (-1, out, s, st) else
  if id_ok out then (0, out, s, st) else
  match soft_bits with
  | None => (0, out, s, st)
  | Some soft =>
      if (n_soft <? FRAME_BITS_NEEDED)%nat then (0, out, s, st) else
      if (fr_n_bits frame <? FRAME_BITS_NEEDED)%nat then (0, out, s, st) else
      let s := if s_map_built s then s else build_index_map s in
      let rcw := ida_decode_build_codewords (drop IDA_DECODE_DATA_OFF (fr_bits frame)) in
      let '((msgs, failed), st) := hard_pass rcw st in
      if (length failed =? 0)%nat then (0, out, s, st) else
      let stats := s_stats s in
      let s := with_stats s (ChaseStats (u32 (attempts stats + 1)) (recovered stats)
                               (crc_checks stats)) in
      let '(found, st) := failed_pass soft rcw (s_map s) (s_L s) failed
                            (replicate IDA_DECODE_N_CW []) (replicate IDA_DECODE_N_CW 0%nat) st in
      match found with
      | None => (0, out, s, st)
      | Some (cand, n_cand) =>
          let '(r, out, stats) := chase_search (s_max_crc s) msgs failed cand n_cand
                                    (replicate IDA_DECODE_N_CW 0%nat) 0 (s_stats s) out in
          (r, out, with_stats s stats, st)
      end
  end.

(** ** Arrays *)

Lemma length_shift_up {A} (d : A) l lo hi : length (shift_up d l lo hi) = length l.
Proof.
  unfold shift_up. apply (forN_inv (fun _ x => length x = length l)); [done|].
  intros i x _ H. by rewrite length_insert.
Qed.

Lemma lookup_shift_up {A} (d : A) l lo hi i :
  (hi < length l)%nat ->
  shift_up d l lo hi !! i = if decide (lo < i <= hi)%nat then l !! (i - 1)%nat else l !! i.
Proof.
  intros Hhi. unfold shift_up.
  enough (H : forall n, (n <= hi - lo)%nat -> forall i,
    forN n (fun i l => <[(hi - i)%nat := nth (hi - i - 1) l d]> l) l !! i =
    if decide (hi - n < i <= hi)%nat then l !! (i - 1)%nat else l !! i).
  { rewrite H by done. destruct (decide (lo < i <= hi)%nat), (decide (hi - (hi - lo) < i <= hi)%nat);
      done || lia. }
  induction n as [|n IH]; intros Hn j.
  { rewrite forN_0, decide_False by lia. done. }
  rewrite forN_S. set (x := forN n _ l) in *.
  assert (Hx : length x = length l).
  { unfold x. apply (forN_inv (fun _ y => length y = length l)); [done|].
    intros k y _ H. by rewrite length_insert. }
  destruct (decide (j = hi - n)%nat) as [->|Hj].
  - rewrite list_lookup_insert_eq by lia. rewrite decide_True by lia.
    destruct (lookup_lt_is_Some_2 l (hi - n - 1) ltac:(lia)) as [y Hy]. rewrite Hy. f_equal.
    apply nth_lookup_total. rewrite IH, decide_False by lia. done.
  - rewrite list_lookup_insert_ne by lia. rewrite IH by lia.
    destruct (decide (hi - n < j <= hi)%nat), (decide (hi - S n < j <= hi)%nat); done || lia.
Qed.

(** Opening a gap at [lo] in the first [hi] entries and filling it. *)
Lemma insert_shift_up {A} (d : A) l lo hi v :
  (lo <= hi < length l)%nat ->
  take (S hi) (<[lo := v]> (shift_up d l lo hi)) = take lo l ++ v :: take (hi - lo) (drop lo l).
Proof.
  intros H. apply list_eq. intros i.
  destruct (Nat.lt_ge_cases hi i) as [Hi|Hi].
  { rewrite !lookup_ge_None_2; [done| |rewrite length_take; lia].
    rewrite length_app, length_take. cbn [length]. rewrite length_take, length_drop. lia. }
  rewrite lookup_take_lt by lia.
  destruct (Nat.lt_trichotomy i lo) as [Hl|[->|Hl]].
  - rewrite list_lookup_insert_ne, lookup_shift_up, decide_False by lia.
    rewrite lookup_app_l by (rewrite length_take; lia). by rewrite lookup_take_lt.
  - rewrite list_lookup_insert_eq by (rewrite length_shift_up; lia).
    rewrite lookup_app_r, length_take by (rewrite length_take; lia).
    by replace (lo - min lo (length l))%nat with 0%nat by lia.
  - rewrite list_lookup_insert_ne, lookup_shift_up, decide_True by lia.
    rewrite lookup_app_r, length_take by (rewrite length_take; lia).
    replace (i - min lo (length l))%nat with (S (i - S lo))%nat by lia.
    change ((v :: take (hi - lo) (drop lo l)) !! S (i - S lo)) with (take (hi - lo) (drop lo l) !! (i - S lo)%nat).
    rewrite lookup_take_lt, lookup_drop by lia. f_equal. lia.
Qed.

(** ** Sorted insertion *)

Fixpoint ins (v : Z) (xs : list Z) : list Z :=
  match xs with
  | [] => [v]
  | x :: xs' => if x <? v then x :: ins v xs' else if x =? v then xs else v :: xs
  end.

Lemma ins_elem v xs m : m ∈ ins v xs <-> m = v \/ m ∈ xs.
Proof.
  induction xs as [|x xs IH]; [cbn; set_solver|]. cbn.
  destruct (x <? v); [|destruct (Z.eqb_spec x v) as [->|]]; set_solver.
Qed.

Lemma ins_sorted v xs : StronglySorted Z.lt xs -> StronglySorted Z.lt (ins v xs).
Proof.
  induction xs as [|x xs IH]; intros Hs; cbn; [by repeat constructor|].
  apply StronglySorted_inv in Hs as [Hs Hx].
  destruct (Z.ltb_spec x v) as [Hlt|Hge].
  - constructor; [by apply IH|]. apply List.Forall_forall. intros m Hm.
    apply list_elem_of_In, ins_elem in Hm as [->|Hm]; [done|].
    rewrite List.Forall_forall in Hx. by apply Hx, list_elem_of_In.
  - destruct (Z.eqb_spec x v) as [->|]; constructor; try done.
    + constructor; [done|]. done.
    + constructor; [lia|]. eapply List.Forall_impl; [|exact Hx]. cbn. intros; lia.
Qed.

Lemma length_ins v xs : (length (ins v xs) <= S (length xs))%nat.
Proof.
  induction xs as [|x xs IH]; cbn; [lia|]. destruct (x <? v); [cbn; lia|].
  destruct (x =? v); cbn; lia.
Qed.

Lemma insert_pos_spec k l lo v :
  (lo + k <= length l)%nat ->
  let p := insert_pos k l lo v in
  (lo <= p <= lo + k)%nat /\
  ins v (slice l lo k) =
    (if (p <? lo + k)%nat && (rd l p =? v) then slice l lo k
     else slice l lo (p - lo) ++ v :: slice l p (lo + k - p)).
Proof.
  revert lo. induction k as [|k IH]; intros lo Hl; cbn [insert_pos].
  - split; [lia|]. rewrite (proj2 (Nat.ltb_ge _ _)) by lia. cbn [andb].
    replace (lo - lo)%nat with 0%nat by lia. replace (lo + 0 - lo)%nat with 0%nat by lia. done.
  - destruct (lookup_lt_is_Some_2 l lo ltac:(lia)) as [x Hx].
    assert (Es : forall n, slice l lo (S n) = x :: slice l (S lo) n).
    { intros n. unfold slice. by rewrite (drop_S l x lo Hx). }
    assert (Er : rd l lo = x) by (by unfold rd; apply nth_lookup_total).
    rewrite Es, Er. cbn [ins]. destruct (Z.ltb_spec x v) as [Hlt|Hge].
    + specialize (IH (S lo) ltac:(lia)). cbv zeta in IH |- *.
      set (p := insert_pos k l (S lo) v) in *. destruct IH as [Hp E]. split; [lia|].
      rewrite E. replace (S lo + k)%nat with (lo + S k)%nat by lia.
      destruct ((p <? lo + S k)%nat && (rd l p =? v)); [done|].
      replace (p - lo)%nat with (S (p - S lo)) by lia. by rewrite Es.
    + cbv zeta. split; [lia|]. rewrite (proj2 (Nat.ltb_lt _ _)), Er by lia. cbn [andb].
      destruct (x =? v); [done|]. replace (lo - lo)%nat with 0%nat by lia.
      replace (lo + S k - lo)%nat with (S k) by lia. rewrite Es. done.
Qed.

(** The array routine on the first [n] entries is sorted insertion. *)
Lemma insert_unique_spec l n v :
  (n < length l)%nat ->
  let '(l', n') := insert_unique l n v in
  length l' = length l /\ take n' l' = ins v (take n l) /\ (n' <= S n)%nat /\
  n' = length (ins v (take n l)).
Proof.
  intros Hn. unfold insert_unique.
  destruct (insert_pos_spec n l 0 v ltac:(lia)) as [Hp E]. cbv zeta in *.
  set (p := insert_pos n l 0 v) in *. cbn [Nat.add] in *. unfold slice in E.
  rewrite drop_0 in E. rewrite E.
  destruct ((p <? n)%nat && (rd l p =? v)).
  { rewrite length_take. split_and!; try done; lia. }
  rewrite length_insert, length_shift_up, insert_shift_up, Nat.sub_0_r by lia.
  split_and!; try done. rewrite length_app, length_take. cbn [length].
  rewrite length_take, length_drop. lia.
Qed.

(** ** Flip patterns *)

Lemma flip_comm' bits i j : flip (flip bits i) j = flip (flip bits j) i.
Proof. destruct (decide (i = j)) as [->|H]; [done|by apply flip_comm]. Qed.

Lemma flips_cons i es bits : flips (i :: es) bits = flips es (flip bits i).
Proof. done. Qed.

Lemma flips_app a b bits : flips (a ++ b) bits = flips b (flips a bits).
Proof. apply fold_left_app. Qed.

Lemma flips_perm es es' bits : es ≡ₚ es' -> flips es bits = flips es' bits.
Proof.
  intros H. revert bits. induction H as [|i es es' _ IH|i j es|es es' es'' _ IH1 _ IH2]; intros bits.
  - done.
  - by rewrite !flips_cons, IH.
  - by rewrite !flips_cons, flip_comm'.
  - by rewrite IH1, IH2.
Qed.

Lemma flips_flips es bits : flips es (flips es bits) = bits.
Proof.
  revert bits. induction es as [|i es IH]; intros bits; [done|].
  rewrite !flips_cons. rewrite <- (IH bits) at 2. clear IH.
  rewrite <- flips_cons, <- flips_app, <- flips_cons, <- flips_app.
  rewrite (flips_perm ((i :: es) ++ i :: es) (i :: i :: es ++ es)).
  - by rewrite !flips_cons, flip_flip.
  - cbn. apply perm_skip. by rewrite <- Permutation_middle.
Qed.

(** The positions a pattern number selects. *)
Definition pattern_has (mset j : nat) : bool := Z.testbit (Z.of_nat mset) (Z.of_nat j).
Definition selected (xs : list nat) (mset : nat) : list nat :=
  forN (length xs) (fun j es => if pattern_has mset j then es ++ [nth j xs 0%nat] else es) [].

Lemma pattern_bit mset j :
  (Z.land (Z.of_nat mset) (Z.shiftl 1 (Z.of_nat j)) =? 0) = negb (pattern_has mset j).
Proof.
  unfold pattern_has. rewrite Z.shiftl_1_l.
  destruct (Z.eqb_spec (Z.land (Z.of_nat mset) (2 ^ Z.of_nat j)) 0) as [E|E].
  - symmetry. apply negb_true_iff.
    assert (H : Z.testbit (Z.land (Z.of_nat mset) (2 ^ Z.of_nat j)) (Z.of_nat j) = false)
      by (by rewrite E, Z.testbit_0_l).
    rewrite Z.land_spec, Z.pow2_bits_true, andb_true_r in H by lia. done.
  - symmetry. apply negb_false_iff. destruct (Z.testbit (Z.of_nat mset) (Z.of_nat j)) eqn:Hb; [done|].
    destruct E. apply Z.bits_inj'. intros i Hi. rewrite Z.land_spec, Z.testbit_0_l.
    rewrite Z.pow2_bits_eqb by lia. destruct (Z.eqb_spec (Z.of_nat j) i) as [<-|]; [by rewrite Hb|].
    by rewrite andb_false_r.
Qed.

Lemma trial_word_flips cw lcb n mset :
  (n <= length lcb)%nat -> trial_word cw lcb n mset = flips (selected (take n lcb) mset) cw.
Proof.
  intros Hn. unfold trial_word, selected. rewrite length_take, Nat.min_l by done.
  set (xs := take n lcb).
  enough (H : forall k, (k <= n)%nat ->
    forN k (fun j trial => if Z.land (Z.of_nat mset) (Z.shiftl 1 (Z.of_nat j)) =? 0 then trial
       else flip trial (nth j lcb 0%nat)) cw =
    flips (forN k (fun j es => if pattern_has mset j then es ++ [nth j xs 0%nat] else es) []) cw)
    by by apply H.
  induction k as [|k IH]; intros Hk; [done|]. rewrite !forN_S, IH by lia. rewrite pattern_bit.
  destruct (pattern_has mset k); [|done]. cbn [negb]. rewrite flips_app. cbn. f_equal.
  unfold xs. rewrite !nth_lookup, lookup_take_lt by lia. done.
Qed.

Lemma selected_snoc xs x mset :
  selected (xs ++ [x]) mset =
  if pattern_has mset (length xs) then selected xs mset ++ [x] else selected xs mset.
Proof.
  unfold selected. rewrite length_app, Nat.add_1_r, forN_S.
  assert (E : forall k, (k <= length xs)%nat ->
    forN k (fun j es => if pattern_has mset j then es ++ [nth j (xs ++ [x]) 0%nat] else es) [] =
    forN k (fun j es => if pattern_has mset j then es ++ [nth j xs 0%nat] else es) []).
  { induction k as [|k IH]; intros Hk; [done|]. rewrite !forN_S, IH, app_nth1 by lia. done. }
  rewrite E by lia. rewrite app_nth2, Nat.sub_diag by lia. done.
Qed.

Lemma selected_sublist xs mset : selected xs mset `sublist_of` xs.
Proof.
  induction xs as [|x xs IH] using rev_ind; [apply sublist_nil_l|]. rewrite selected_snoc.
  destruct (pattern_has mset (length xs)); [by apply sublist_app|by apply sublist_inserts_r].
Qed.

Lemma selected_low xs a b :
  (forall j, (j < length xs)%nat -> pattern_has a j = pattern_has b j) -> selected xs a = selected xs b.
Proof.
  induction xs as [|x xs IH] using rev_ind; intros H; [done|]. rewrite length_app in H. cbn in H.
  rewrite !selected_snoc, H, IH by (intros; rewrite ?H; done || lia). done.
Qed.

(** Every sublist is selected by a pattern number. *)
Lemma selected_all xs es :
  es `sublist_of` xs -> exists mset, (mset < 2 ^ length xs)%nat /\ selected xs mset = es.
Proof.
  revert es. induction xs as [|x xs IH] using rev_ind; intros es Hs.
  { apply sublist_nil_r in Hs as ->. exists 0%nat. split; [cbn; lia|done]. }
  rewrite length_app, Nat.add_1_r, Nat.pow_succ_r'.
  apply sublist_app_r in Hs as (e1 & e2 & -> & H1 & H2).
  destruct (IH e1 H1) as (m & Hm & E).
  assert (Hp : Z.of_nat (2 ^ length xs) = 2 ^ Z.of_nat (length xs)) by apply Nat2Z.inj_pow.
  assert (Hhigh : pattern_has m (length xs) = false) by (apply (testbit_high (Z.of_nat (length xs))); lia).
  apply sublist_cons_r in H2 as [H2|(e2' & -> & H2)]; apply sublist_nil_r in H2 as ->.
  - exists m. split; [lia|]. by rewrite selected_snoc, Hhigh, app_nil_r.
  - exists (m + 2 ^ length xs)%nat. split; [lia|]. rewrite selected_snoc.
    replace (pattern_has (m + 2 ^ length xs) (length xs)) with true.
    2:{ symmetry. apply testbit_top. rewrite Z.pow_add_r by lia. lia. }
    f_equal. rewrite <- E. apply selected_low. intros j Hj. unfold pattern_has.
    rewrite <- (Z.mod_pow2_bits_low (Z.of_nat (_ + _)) (Z.of_nat (length xs))) by lia.
    rewrite Nat2Z.inj_add, Hp.
    replace (Z.of_nat m + 2 ^ Z.of_nat (length xs)) with (Z.of_nat m + 1 * 2 ^ Z.of_nat (length xs)) by lia.
    rewrite Z.mod_add by lia.
    by rewrite Z.mod_pow2_bits_low by lia.
Qed.

(** ** The least reliable positions are those of least rank *)

(** Position [j] comes before [k]: less reliable, or as reliable and earlier. *)
Definition weaker (conf : list Z) (j k : nat) : bool :=
  (rd conf j <? rd conf k) || ((rd conf j =? rd conf k) && (j <? k)%nat).
Definition rank (conf : list Z) (k : nat) : nat :=
  length (List.filter (fun j => weaker conf j k) (seq 0 IDA_DECODE_CW_BITS)).

Lemma weaker_spec conf j k :
  weaker conf j k = true <-> rd conf j < rd conf k \/ (rd conf j = rd conf k /\ (j < k)%nat).
Proof. unfold weaker. rewrite orb_true_iff, andb_true_iff, Z.ltb_lt, Z.eqb_eq, Nat.ltb_lt. done. Qed.

Definition weaker_sorted (conf : list Z) : list nat -> Prop :=
  StronglySorted (fun j k => weaker conf j k = true).

Lemma StronglySorted_nodup {A} (R : A -> A -> Prop) l :
  (forall x, ~ R x x) -> StronglySorted R l -> NoDup l.
Proof.
  intros HR. induction 1 as [|x l _ IH Hx]; constructor; [|done].
  intros Hin. apply (HR x). rewrite List.Forall_forall in Hx. by apply Hx, list_elem_of_In.
Qed.

Lemma StronglySorted_take {A} (R : A -> A -> Prop) l n : StronglySorted R l -> StronglySorted R (take n l).
Proof.
  revert n. induction l as [|x l IH]; intros [|n] H; try done; [constructor|].
  apply StronglySorted_inv in H as [H Hx]. cbn. constructor; [by apply IH|].
  apply List.Forall_forall. intros y Hy. rewrite List.Forall_forall in Hx. apply Hx.
  rewrite <- (firstn_skipn n l). apply in_app_iff. by left.
Qed.

Lemma StronglySorted_insert {A} (R : A -> A -> Prop) l a p :
  StronglySorted R l -> (forall x, x ∈ take p l -> R x a) -> (forall x, x ∈ drop p l -> R a x) ->
  StronglySorted R (take p l ++ a :: drop p l).
Proof.
  revert p. induction l as [|x l IH]; intros p H H1 H2.
  - rewrite take_nil, drop_nil. repeat constructor.
  - destruct p as [|p].
    + cbn in *. constructor; [done|]. apply List.Forall_forall. intros y Hy. by apply H2, list_elem_of_In.
    + apply StronglySorted_inv in H as [H Hx]. cbn in *. constructor.
      * apply IH; [done| |done]. intros y Hy. apply H1. by right.
      * apply List.Forall_forall. intros y [Hy|[<-|Hy]]%in_app_iff.
        -- rewrite List.Forall_forall in Hx. apply Hx. rewrite <- (firstn_skipn p l).
           apply in_app_iff. by left.
        -- apply H1. by left.
        -- rewrite List.Forall_forall in Hx. apply Hx. rewrite <- (firstn_skipn p l).
           apply in_app_iff. by right.
Qed.

Lemma StronglySorted_lookup {A} (R : A -> A -> Prop) l i j x y :
  StronglySorted R l -> (i < j)%nat -> l !! i = Some x -> l !! j = Some y -> R x y.
Proof.
  intros H. revert i j. induction H as [|a l _ IH Ha]; intros i j Hij Hi Hj; [done|].
  destruct j as [|j]; [lia|]. destruct i as [|i]; cbn in *.
  - injection Hi as <-. rewrite List.Forall_forall in Ha. apply Ha, list_elem_of_In.
    by eapply list_elem_of_lookup_2.
  - apply (IH i j); [lia|done|done].
Qed.

(** Where the scan from the end stops. *)
Lemma lcb_pos_spec conf lcb k n :
  let p := lcb_pos conf lcb k n in
  (p <= n)%nat /\
  (forall i, (p <= i < n)%nat -> rd conf k < rd conf (nth i lcb 0%nat)) /\
  (p = 0%nat \/ rd conf (nth (p - 1) lcb 0%nat) <= rd conf k).
Proof.
  induction n as [|n IH]; cbn [lcb_pos]; [split_and!; [done|lia|by left]|].
  destruct (Z.ltb_spec (rd conf k) (rd conf (nth n lcb 0%nat))) as [H|H]; cbv zeta.
  - destruct IH as (H1 & H2 & H3). split_and!; [lia| |done].
    intros i Hi. destruct (decide (i = n)) as [->|]; [done|]. apply H2. lia.
  - split_and!; [lia|lia|]. right. by replace (S n - 1)%nat with n by lia.
Qed.

(** The positions below [k] seen so far: the [L] weakest, in order. *)
Definition lcb_inv (conf : list Z) (L k : nat) (xs : list nat) : Prop :=
  weaker_sorted conf xs /\ length xs = min k L /\ (forall x, x ∈ xs -> (x < k)%nat) /\
  (forall j, (j < k)%nat -> j ∉ xs -> length xs = L /\ forall x, x ∈ xs -> weaker conf x j = true).

Lemma weaker_trans conf a b c :
  weaker conf a b = true -> weaker conf b c = true -> weaker conf a c = true.
Proof. rewrite !weaker_spec. lia. Qed.

(** The scan splits a sorted prefix into what is weaker than [k] and what [k]
    is weaker than. *)
Lemma lcb_pos_split conf lcb k n :
  (n <= length lcb)%nat -> weaker_sorted conf (take n lcb) ->
  (forall x, x ∈ take n lcb -> (x < k)%nat) ->
  let p := lcb_pos conf lcb k n in
  (p <= n)%nat /\ (forall x, x ∈ take p (take n lcb) -> weaker conf x k = true) /\
  (forall x, x ∈ drop p (take n lcb) -> weaker conf k x = true).
Proof.
  intros Hn Hs Hlt p. destruct (lcb_pos_spec conf lcb k n) as (Hp & Hhi & Hlo). fold p in Hp, Hhi, Hlo.
  split; [done|]. split.
  - intros x Hx. apply list_elem_of_lookup in Hx as [i Hi].
    assert (Hip : (i < p)%nat).
    { apply lookup_lt_Some in Hi. rewrite length_take in Hi. lia. }
    rewrite lookup_take_lt in Hi by done.
    assert (x < k)%nat by (eapply Hlt, list_elem_of_lookup_2; exact Hi).
    destruct Hlo as [->|Hlo]; [lia|]. apply weaker_spec.
    destruct (lookup_lt_is_Some_2 (take n lcb) (p - 1)) as [y Hy]; [rewrite length_take; lia|].
    assert (Ey : nth (p - 1) lcb 0%nat = y).
    { apply nth_lookup_total. by rewrite lookup_take_lt in Hy by lia. }
    rewrite Ey in Hlo. destruct (decide (i = p - 1)%nat) as [->|Hne].
    + assert (x = y) as -> by congruence. lia.
    + pose proof (StronglySorted_lookup _ _ i (p - 1) x y Hs ltac:(lia) Hi Hy) as Hw.
      apply weaker_spec in Hw. lia.
  - intros x Hx. apply list_elem_of_lookup in Hx as [i Hi]. rewrite lookup_drop in Hi.
    assert (Hip : (p + i < n)%nat).
    { apply lookup_lt_Some in Hi. rewrite length_take in Hi. lia. }
    rewrite lookup_take_lt in Hi by done. apply weaker_spec. left.
    rewrite <- (nth_lookup_total 0%nat lcb (p + i) x Hi). apply Hhi. lia.
Qed.

(** Inserting [k] at its place and keeping the first [L]. *)
Lemma lcb_inv_insert conf L k xs p :
  lcb_inv conf L k xs -> (p < L)%nat -> (p <= length xs)%nat ->
  (forall x, x ∈ take p xs -> weaker conf x k = true) ->
  (forall x, x ∈ drop p xs -> weaker conf k x = true) ->
  lcb_inv conf L (S k) (take L (take p xs ++ k :: drop p xs)).
Proof.
  intros (Hs & Hlen & Hlt & Hout) HpL Hp Hbefore Hafter. set (full := take p xs ++ k :: drop p xs).
  assert (Hfull : weaker_sorted conf full) by (by apply StronglySorted_insert).
  assert (Hin : forall x, x ∈ full <-> x = k \/ x ∈ xs).
  { intros x. unfold full. rewrite <- (take_drop p xs) at 3. rewrite !elem_of_app, elem_of_cons. tauto. }
  assert (Hlf : length full = S (length xs)).
  { unfold full. rewrite length_app, length_take. cbn [length]. rewrite length_drop. lia. }
  assert (Hsub : forall x, x ∈ take L full -> x ∈ full).
  { intros x Hx. rewrite <- (take_drop L full). apply elem_of_app. by left. }
  unfold lcb_inv. rewrite length_take. split_and!.
  - by apply StronglySorted_take.
  - lia.
  - intros x [->|Hx]%Hsub%Hin; [lia|]. apply Hlt in Hx. lia.
  - intros j Hj Hnot. destruct (decide (j ∈ full)) as [Hjf|Hjf].
    + apply list_elem_of_lookup in Hjf as [i Hi].
      assert (HiL : (L <= i)%nat).
      { destruct (Nat.lt_ge_cases i L) as [HiL|]; [|done]. destruct Hnot.
        apply list_elem_of_lookup. exists i. by rewrite lookup_take_lt. }
      pose proof (lookup_lt_Some _ _ _ Hi). split; [lia|].
      intros x Hx. apply list_elem_of_lookup in Hx as [i' Hi'].
      pose proof (lookup_lt_Some _ _ _ Hi') as Hil. rewrite length_take in Hil.
      rewrite lookup_take_lt in Hi' by lia.
      apply (StronglySorted_lookup _ full i' i x j Hfull); [lia|done|done].
    + assert (j <> k) by (intros ->; apply Hjf, Hin; by left).
      assert (j ∉ xs) by (intros Hj'; apply Hjf, Hin; by right).
      destruct (Hout j ltac:(lia) ltac:(done)) as [HL' Hw]. split; [lia|].
      intros x [->|Hx]%Hsub%Hin; [|by apply Hw].
      destruct (lookup_lt_is_Some_2 xs p ltac:(lia)) as [y Hy].
      apply (weaker_trans conf k y j).
      * apply Hafter, list_elem_of_lookup. exists 0%nat. by rewrite lookup_drop, Nat.add_0_r.
      * apply Hw. by eapply list_elem_of_lookup_2.
Qed.

Lemma lcb_step_inv conf L k lcb n :
  (1 <= L <= 6)%nat -> length lcb = 6%nat -> (n <= L)%nat -> lcb_inv conf L k (take n lcb) ->
  let '(lcb', n') := lcb_step conf L k (lcb, n) in
  length lcb' = 6%nat /\ (n' <= L)%nat /\ lcb_inv conf L (S k) (take n' lcb').
Proof.
  intros HL Hl Hn Hinv. pose proof Hinv as (Hs & Hlen & Hlt & Hout). unfold lcb_step.
  destruct (lcb_pos_split conf lcb k n ltac:(lia) Hs Hlt) as (Hp & Hbefore & Hafter).
  set (p := lcb_pos conf lcb k n) in *. set (xs := take n lcb) in *.
  assert (Hxs : length xs = n) by (unfold xs; rewrite length_take; lia).
  destruct (Nat.ltb_spec p L) as [HpL|HpL].
  - set (n' := if (n <? L)%nat then S n else n).
    assert (Hn' : (n' = S n /\ n < L \/ n' = n /\ n = L)%nat)
      by (unfold n'; destruct (Nat.ltb_spec n L); lia).
    split; [by rewrite length_insert, length_shift_up|]. split; [lia|].
    replace n' with (S (n' - 1)) at 1 by lia. rewrite insert_shift_up by lia.
    replace (take p lcb ++ k :: take (n' - 1 - p) (drop p lcb))
      with (take L (take p xs ++ k :: drop p xs)).
    { apply lcb_inv_insert; [done|done|lia|done|done]. }
    assert (Hp6 : length (take p lcb) = p) by (rewrite length_take; lia).
    unfold xs. rewrite take_take, Nat.min_l by lia.
    rewrite take_app, Hp6, take_take, Nat.min_r by lia. f_equal.
    replace (L - p)%nat with (S (L - p - 1)) by lia. cbn [take]. f_equal.
    rewrite skipn_firstn_comm, take_take. f_equal. lia.
  - assert (n = L) by lia. assert (p = n) as Epn by lia. split; [done|]. split; [lia|].
    fold xs. unfold lcb_inv. split_and!; [done|lia|intros x Hx%Hlt; lia|].
    intros j Hj Hnot. destruct (decide (j = k)) as [->|Hne]; [|apply Hout; [lia|done]].
    split; [lia|]. intros x Hx. apply Hbefore. rewrite Epn. by rewrite take_ge by lia.
Qed.

Lemma lcb_loop_inv conf L k :
  (1 <= L <= 6)%nat ->
  let '(lcb, n) := forN k (lcb_step conf L) (replicate IDA_CHASE_MAX_L 0%nat, 0%nat) in
  length lcb = 6%nat /\ (n <= L)%nat /\ lcb_inv conf L k (take n lcb).
Proof.
  intros HL. induction k as [|k IH].
  - split; [done|]. split; [lia|]. rewrite take_0. split_and!; [constructor|done| |intros; lia].
    intros x Hx. by apply not_elem_of_nil in Hx.
  - rewrite forN_S. destruct (forN k _ _) as [lcb n]. destruct IH as (H1 & H2 & H3).
    by apply lcb_step_inv.
Qed.

(** Among all positions, the [L] weakest are those of rank below [L]. *)
Lemma lcb_inv_rank conf L xs :
  lcb_inv conf L IDA_DECODE_CW_BITS xs ->
  NoDup xs /\ forall k, k ∈ xs <->
    (k < IDA_DECODE_CW_BITS)%nat /\ (rank conf k < min IDA_DECODE_CW_BITS L)%nat.
Proof.
  unfold rank. generalize IDA_DECODE_CW_BITS as n. intros n (Hs & Hlen & Hlt & Hout).
  assert (Hirr : forall x, weaker conf x x <> true) by (intros x; rewrite weaker_spec; lia).
  assert (Hnd : NoDup xs) by (by apply (StronglySorted_nodup (fun j k => weaker conf j k = true) xs Hirr)).
  split; [done|]. intros k.
  set (before := List.filter (fun j => weaker conf j k) (seq 0 n)).
  assert (Hb : forall j, List.In j before <-> (j < n)%nat /\ weaker conf j k = true).
  { intros j. unfold before. rewrite filter_In, in_seq. split; intros [? ?]; (split; [lia|done]). }
  assert (Hndb : List.NoDup before) by apply List.NoDup_filter, seq_NoDup.
  rewrite <- Hlen. clearbody before.
  split.
  - intros Hk. split; [by apply Hlt|].
    change (length (k :: before) <= length xs)%nat.
    apply NoDup_incl_length.
    + constructor; [|done]. rewrite Hb. intros [_ H]. by apply Hirr in H.
    + intros j [<-|Hj]; [by apply list_elem_of_In|]. apply Hb in Hj as [Hj Hw].
      apply list_elem_of_In. destruct (decide (j ∈ xs)) as [|Hnot]; [done|].
      destruct (Hout j Hj Hnot) as [_ H]. specialize (H k Hk).
      destruct (Hirr j). by apply (weaker_trans conf j k j).
  - intros [Hk Hr]. destruct (decide (k ∈ xs)) as [|Hnot]; [done|].
    destruct (Hout k Hk Hnot) as [HL' Hw]. exfalso.
    assert (length xs <= length before)%nat; [|lia].
    apply NoDup_incl_length; [by apply NoDup_ListNoDup|].
    intros j Hj%list_elem_of_In. apply Hb. split; [by apply Hlt|by apply Hw].
Qed.

(** The array ends up holding the [L] positions of least rank. *)
Lemma least_confident_spec conf L :
  (1 <= L <= 6)%nat ->
  let '(lcb, n) := least_confident conf L in
  n = L /\ length lcb = 6%nat /\ NoDup (take n lcb) /\
  forall k, k ∈ take n lcb <-> (k < 31)%nat /\ (rank conf k < L)%nat.
Proof.
  intros HL. pose proof (lcb_loop_inv conf L IDA_DECODE_CW_BITS HL) as H. unfold least_confident.
  destruct (forN IDA_DECODE_CW_BITS _ _) as [lcb n]. destruct H as (Hl & Hn & Hinv).
  pose proof Hinv as (_ & Hlen & _). rewrite length_take in Hlen. unfold IDA_DECODE_CW_BITS in Hlen.
  apply lcb_inv_rank in Hinv as [Hnd Hin]. unfold IDA_DECODE_CW_BITS in Hin.
  rewrite Nat.min_r in Hin by lia.
  split_and!; [lia|done|done|done].
Qed.
