(* ===== verification/IdaChaseCorrect.v ===== *)
(** Correctness of the Chase-2 fallback
    (src/common/iridium_decoder/ida_chase.c).

    The array routines of [IdaChase] are related to sorted lists of reachable
    messages, the odometer to the lexicographic product of those lists, and the
    check loop to the first accepted element of the product.  From these follow
    what a call returns, what an accepted frame guarantees, and which error
    patterns are certain to be recovered. *)

From stdpp Require Import sets sorting.
From S2P Require Import Prelude Gf2 Bits IridiumBch IridiumFrame IdaDecode IdaEncode IdaChase.
#[local] Open Scope Z_scope.

(** ** Candidates of a codeword *)

#[local] Opaque iridium_bch_ndivide iridium_bch_repair1 iridium_bch_repair2
  iridium_bch_repair1_ref iridium_bch_repair2_ref.

(** The message a word decodes to, or -1. *)
Definition decode_word (cw : list Z) : Z :=
  let r := iridium_bch_repair2_ref ACCH_BCH_POLY cw IDA_DECODE_CW_BITS in
  if 0 <=? r.1 then packbits r.2 0 20 else -1.

Lemma decode_word_range cw :
  length cw = 31%nat -> 0 <= decode_word cw -> is_u 20 (decode_word cw).
Proof.
  intros Hl. unfold decode_word. destruct (0 <=? _); [|lia]. intros _.
  apply (packbits_range _ 0 20); [lia|]. rewrite length_repair2_ref. lia.
Qed.

Lemma hard_decode_cw_spec cw st :
  syn_ok st -> length cw = 31%nat ->
  exists w st', syn_ok st' /\ hard_decode_cw cw st = (decode_word cw, w, st').
Proof.
  intros Hok Hl. unfold hard_decode_cw.
  rewrite repair2_eq by (done || apply poly_u32 || (rewrite Hl; unfold IDA_DECODE_CW_BITS; lia)).
  unfold decode_word. destruct (iridium_bch_repair2_ref _ _ _) as [e w] eqn:E. cbn [fst snd].
  exists w, (after_lookup ACCH_BCH_POLY cw IDA_DECODE_CW_BITS st).
  split; [apply after_lookup_ok; [done|apply poly_u32]|].
  destruct (Z.ltb_spec e 0), (Z.leb_spec 0 e); try lia; done.
Qed.

(** A strictly ascending list of exactly the messages [P]. *)
Definition lists_messages (P : Z -> Prop) (l : list Z) : Prop :=
  StronglySorted Z.lt l /\ forall m, m ∈ l <-> P m.

Lemma lists_messages_ext P Q l :
  (forall m, P m <-> Q m) -> lists_messages P l -> lists_messages Q l.
Proof. intros H [Hs Hm]. split; [done|]. intros m. by rewrite Hm, H. Qed.

Lemma ex_lt_S (P : nat -> Prop) k :
  (exists j, (j < S k)%nat /\ P j) <-> P k \/ exists j, (j < k)%nat /\ P j.
Proof.
  split.
  - intros (j & Hj & H). destruct (Nat.eq_dec j k) as [<-|]; [by left|].
    right. exists j. split; [lia|done].
  - intros [H|(j & Hj & H)]; [exists k|exists j]; (split; [lia|done]).
Qed.

(** What a row holds after the first [k] patterns. *)
Definition pattern_message (cw : list Z) (xs : list nat) (k : nat) (m : Z) : Prop :=
  0 <= m /\ exists mset, (mset < k)%nat /\ m = decode_word (flips (selected xs mset) cw).
Definition row_inv (cw : list Z) (xs : list nat) (k : nat) (row : list Z) (nc : nat) : Prop :=
  length row = 64%nat /\ (nc <= k)%nat /\ length (take nc row) = nc /\
  lists_messages (pattern_message cw xs k) (take nc row).

Lemma pattern_message_S cw xs k m :
  pattern_message cw xs (S k) m <->
  (0 <= m /\ m = decode_word (flips (selected xs k) cw)) \/ pattern_message cw xs k m.
Proof.
  unfold pattern_message.
  rewrite (ex_lt_S (fun mset => m = decode_word (flips (selected xs mset) cw))). tauto.
Qed.

Lemma row_inv_step cw xs k row nc :
  (k < 64)%nat -> row_inv cw xs k row nc ->
  let m := decode_word (flips (selected xs k) cw) in
  let '(row', nc') := if 0 <=? m then insert_unique row nc m else (row, nc) in
  row_inv cw xs (S k) row' nc'.
Proof.
  intros Hk (Hrow & Hnc & Hlen & Hs & Hm) m.
  destruct (Z.leb_spec 0 m) as [Hm0|Hm0].
  - pose proof (insert_unique_spec row nc m ltac:(lia)) as Hi.
    destruct (insert_unique row nc m) as [row' nc']. destruct Hi as (H1 & H2 & H3 & H4).
    unfold row_inv. rewrite H2. split_and!; [lia|lia|done|]. split; [by apply ins_sorted|].
    intros x. rewrite ins_elem, Hm, pattern_message_S. fold m. split.
    + intros [->|?]; [by left|by right].
    + intros [[_ ->]|?]; [by left|by right].
  - unfold row_inv. split_and!; [done|lia|done|]. split; [done|].
    intros x. rewrite Hm, pattern_message_S. fold m. split; [by right|].
    intros [[? ->]|?]; [lia|done].
Qed.

Lemma candidates_spec cw lcb n L st :
  syn_ok st -> length cw = 31%nat -> (n <= length lcb)%nat -> (L <= 6)%nat ->
  exists row nc st', candidates cw lcb n (2 ^ L) st = ((row, nc), st') /\ syn_ok st' /\
    row_inv cw (take n lcb) (2 ^ L) row nc.
Proof.
  intros Hok Hl Hn HL. unfold candidates.
  assert (H64 : (2 ^ L <= 64)%nat) by (change 64%nat with (2 ^ 6)%nat; apply Nat.pow_le_mono_r; lia).
  match goal with |- context [forN ?a ?f ?x] => assert (H :
    (fun k (c : (list Z * nat) * syn_state) => syn_ok c.2 /\
       row_inv cw (take n lcb) k c.1.1 c.1.2) a (forN a f x)) end.
  { apply forN_inv.
    - split; [done|]. split_and!; [done|cbn; lia|done|]. split; [constructor|].
      intros m. split; [intros H; by apply not_elem_of_nil in H|]. intros (_ & j & Hj & _). lia.
    - intros k [[row nc] s] Hk [Hok' Hrow]. cbn [fst snd] in *.
      assert (Htl : length (trial_word cw lcb n k) = 31%nat)
        by (by rewrite trial_word_flips, length_flips).
      destruct (hard_decode_cw_spec (trial_word cw lcb n k) s Hok' Htl) as (w & s' & Hok2 & E).
      rewrite E. pose proof (decode_word_range _ Htl) as Hr.
      pose proof (row_inv_step cw (take n lcb) k row nc ltac:(lia) Hrow) as Hst. cbv zeta in Hst.
      rewrite trial_word_flips in Hr |- * by done.
      destruct (Z.leb_spec 0 (decode_word (flips (selected (take n lcb) k) cw))) as [Hm0|Hm0]; [|done].
      specialize (Hr Hm0). unfold is_u in Hr. rewrite u32_small by lia.
      by destruct (insert_unique _ _ _). }
  destruct (forN _ _ _) as [[row nc] st']. destruct H as [H1 H2].
  by exists row, nc, st'.
Qed.

(** A message the fallback can reach from a word: some of its [L] weakest bits
    flipped, then repaired. *)
Definition reachable (cw conf : list Z) (L : nat) (m : Z) : Prop :=
  0 <= m /\ exists es, NoDup es /\ Forall (fun k => (k < 31)%nat /\ (rank conf k < L)%nat) es /\
    m = decode_word (flips es cw).

Lemma sublist_of_subset (xs es : list nat) :
  NoDup xs -> NoDup es -> (forall k, k ∈ es -> k ∈ xs) ->
  exists es', es' `sublist_of` xs /\ es' ≡ₚ es.
Proof.
  intros Hxs Hes Hsub. exists (filter (fun k => k ∈ es) xs). split; [apply sublist_filter|].
  apply NoDup_Permutation; [by eapply sublist_NoDup, sublist_filter|done|].
  intros k. rewrite list_elem_of_filter. naive_solver.
Qed.

Lemma pattern_message_reachable cw conf L xs m :
  length xs = L -> NoDup xs -> (forall k, k ∈ xs <-> (k < 31)%nat /\ (rank conf k < L)%nat) ->
  pattern_message cw xs (2 ^ L) m <-> reachable cw conf L m.
Proof.
  intros Hl Hnd Hin. unfold pattern_message, reachable. split; intros [Hm H]; (split; [done|]).
  - destruct H as (mset & _ & ->). pose proof (selected_sublist xs mset) as Hs.
    exists (selected xs mset). split_and!; [by eapply sublist_NoDup| |done].
    apply Forall_forall. intros k Hk. apply Hin, (sublist_subseteq _ _ Hs), list_elem_of_In, Hk.
  - destruct H as (es & Hes & Hweak & ->).
    destruct (sublist_of_subset xs es Hnd Hes) as (es' & Hs & Hp).
    { intros k Hk. apply Hin. rewrite Forall_forall in Hweak. by apply Hweak, list_elem_of_In. }
    destruct (selected_all xs es' Hs) as (mset & Hms & E). exists mset. rewrite <- Hl.
    split; [done|]. rewrite E. f_equal. symmetry. by apply flips_perm.
Qed.

(** The reliabilities of codeword [i]'s bits under an index map. *)
Definition confidence (soft : list Z) (map : list nat) (i : nat) : list Z :=
  List.map (fun k => bit_conf soft (70 + nth (i * 31 + k) map 0%nat)) (seq 0 31).

(** ** The hard pass and the loop over failed codewords *)

Definition word_message (rcw : list Z) (i : nat) : Z := decode_word (codeword rcw i).

Lemma hard_pass_spec rcw st :
  syn_ok st -> length rcw = 310%nat ->
  exists st', syn_ok st' /\ hard_pass rcw st =
    ((map (word_message rcw) (seq 0 10),
      List.filter (fun i => word_message rcw i <? 0) (seq 0 10)), st').
Proof.
  intros Hok Hl. unfold hard_pass, IDA_DECODE_N_CW.
  enough (H : forall n, (n <= 10)%nat -> exists st', syn_ok st' /\
    forN n (fun i '((msgs, failed), st) =>
      let '(m, _, st) := hard_decode_cw (slice rcw (i * IDA_DECODE_CW_BITS) IDA_DECODE_CW_BITS) st in
      ((msgs ++ [m], if m <? 0 then failed ++ [i] else failed), st)) (([], []), st) =
    ((map (word_message rcw) (seq 0 n),
      List.filter (fun i => word_message rcw i <? 0) (seq 0 n)), st')) by (by apply H).
  induction n as [|n IH]; intros Hn; [by exists st|].
  destruct IH as (st1 & Hok1 & E); [lia|]. rewrite forN_S, E.
  change (slice rcw (n * IDA_DECODE_CW_BITS) IDA_DECODE_CW_BITS) with (codeword rcw n).
  destruct (hard_decode_cw_spec (codeword rcw n) st1 Hok1) as (w & st2 & Hok2 & ->).
  { by apply length_codeword. }
  exists st2. split; [done|]. rewrite seq_S, map_app, List.filter_app. cbn [map List.filter Nat.add].
  fold (word_message rcw n). destruct (word_message rcw n <? 0); by rewrite ?app_nil_r.
Qed.

(** What the loop leaves for a failed codeword. *)
Definition row_done (soft rcw : list Z) (map : list nat) (L i : nat) (row : list Z) (nc : nat) : Prop :=
  lists_messages (reachable (codeword rcw i) (confidence soft map i) L) (take nc row) /\
  length (take nc row) = nc /\ (0 < nc)%nat.

Lemma row_spec soft rcw map L i st :
  syn_ok st -> length rcw = 310%nat -> (i < 10)%nat -> (1 <= L <= 6)%nat ->
  let '(lcb, n_lcb) := least_confident (confidence soft map i) L in
  exists row nc st', candidates (codeword rcw i) lcb n_lcb (2 ^ L) st = ((row, nc), st') /\
    syn_ok st' /\ length (take nc row) = nc /\ (nc <= 2 ^ L)%nat /\
    lists_messages (reachable (codeword rcw i) (confidence soft map i) L) (take nc row).
Proof.
  intros Hok Hl Hi HL. pose proof (least_confident_spec (confidence soft map i) L HL) as H.
  destruct (least_confident _ _) as [lcb n]. destruct H as (-> & Hlcb & Hnd & Hin).
  destruct (candidates_spec (codeword rcw i) lcb L L st Hok) as (row & nc & st' & -> & Hok' & H);
    [by apply length_codeword|lia|lia|].
  destruct H as (_ & Hnc & Hlen & Hlist). exists row, nc, st'. split_and!; try done.
  eapply lists_messages_ext; [|exact Hlist]. intros m. apply pattern_message_reachable; [|done..].
  rewrite length_take. lia.
Qed.

Lemma failed_pass_spec soft rcw map L failed cand n_cand st :
  syn_ok st -> length rcw = 310%nat -> (1 <= L <= 6)%nat ->
  NoDup failed -> Forall (fun i => (i < 10)%nat) failed ->
  length cand = 10%nat -> length n_cand = 10%nat ->
  exists found st', failed_pass soft rcw map L failed cand n_cand st = (found, st') /\ syn_ok st' /\
  match found with
  | None => exists i, i ∈ failed /\
      forall m, ~ reachable (codeword rcw i) (confidence soft map i) L m
  | Some (cand', n_cand') =>
      length n_cand' = 10%nat /\
      (forall i, i ∈ failed -> row_done soft rcw map L i (nth i cand' []) (nth i n_cand' 0%nat)) /\
      (forall i, i ∉ failed -> nth i cand' [] = nth i cand [] /\ nth i n_cand' 0%nat = nth i n_cand 0%nat)
  end.
Proof.
  intros Hok Hl HL. revert cand n_cand st Hok.
  induction failed as [|i failed IH]; intros cand n_cand st Hok Hnd Hlt Hc Hn.
  { exists (Some (cand, n_cand)), st. cbn. split_and!; try done.
    intros i Hi. by apply not_elem_of_nil in Hi. }
  apply list.NoDup_cons in Hnd as [Hi Hnd]. apply Forall_cons_1 in Hlt as [Hi10 Hlt].
  cbn [failed_pass].
  change (slice rcw (i * IDA_DECODE_CW_BITS) IDA_DECODE_CW_BITS) with (codeword rcw i).
  change (List.map _ _) with (confidence soft map i).
  pose proof (row_spec soft rcw map L i st Hok Hl Hi10 HL) as H.
  destruct (least_confident _ _) as [lcb n_lcb]. destruct H as (row & nc & st' & -> & Hok' & Hlen & _ & Hrow).
  destruct (Nat.eqb_spec nc 0) as [->|Hnc].
  { exists None, st'. split_and!; [done|done|]. exists i. split; [by left|].
    intros m Hm. apply Hrow in Hm. by apply not_elem_of_nil in Hm. }
  destruct (IH (<[i:=row]> cand) (<[i:=nc]> n_cand) st' Hok' Hnd Hlt) as (found & st2 & E & Hok2 & H);
    [by rewrite length_insert..|].
  exists found, st2. split_and!; [done|done|].
  destruct found as [[cand' n_cand']|].
  - destruct H as (H1 & H2 & H3). split_and!; [done| |].
    + intros j [->|Hj]%elem_of_cons; [|by apply H2]. destruct (H3 i Hi) as [-> ->].
      rewrite !nth_lookup, !list_lookup_insert_eq by lia. cbn. split_and!; [done|done|lia].
    + intros j [Hji Hj]%not_elem_of_cons. destruct (H3 j Hj) as [-> ->].
      by rewrite !nth_lookup, !list_lookup_insert_ne.
  - destruct H as (j & Hj & Hm). exists j. split; [by right|done].
Qed.

(** ** Assembling a hypothesis *)

(** The message a hypothesis gives codeword [i]. *)
Definition choice (msgs : list Z) (cand : list (list Z)) (odo : list nat) (i : nat) : Z :=
  if 0 <=? rd msgs i then u32 (rd msgs i) else rd (nth i cand []) (nth i odo 0%nat).

Definition hyp_bits (h : list Z) : list Z := concat (map (unpack 20) h).

Lemma length_hyp_bits h : length (hyp_bits h) = (20 * length h)%nat.
Proof.
  unfold hyp_bits. induction h as [|m h IH]; [done|]. cbn [map concat length].
  rewrite length_app, length_unpack, IH. lia.
Qed.

Lemma assemble_hyp msgs cand odo :
  assemble msgs cand odo = hyp_bits (map (choice msgs cand odo) (seq 0 10)).
Proof.
  unfold assemble, IDA_DECODE_N_CW.
  enough (H : forall n, (n <= 10)%nat ->
    forN n (fun i bits =>
      let m := if 0 <=? rd msgs i then u32 (rd msgs i) else rd (nth i cand []) (nth i odo 0%nat) in
      forN 20 (fun b bits =>
        <[(i * 20 + b)%nat := u8 (Z.land (Z.shiftr m (19 - Z.of_nat b)) 1)]> bits) bits)
      (replicate 200 0) =
    hyp_bits (map (choice msgs cand odo) (seq 0 n)) ++ replicate (200 - 20 * n) 0).
  { rewrite H by done. by rewrite app_nil_r. }
  induction n as [|n IH]; intros Hn; [done|].
  rewrite forN_S, IH by lia. cbv zeta. fold (choice msgs cand odo n).
  set (pre := hyp_bits (map (choice msgs cand odo) (seq 0 n))).
  assert (Hpre : length pre = (n * 20)%nat).
  { unfold pre. rewrite length_hyp_bits, length_map, length_seq. lia. }
  rewrite (write_run 20 (n * 20) (fun b => u8 (Z.land (Z.shiftr (choice msgs cand odo n) (19 - Z.of_nat b)) 1)))
    by (rewrite length_app, length_replicate; lia).
  replace (map _ (seq 0 20)) with (unpack 20 (choice msgs cand odo n)).
  2:{ unfold unpack. apply map_ext. intros b. replace (Z.of_nat 20 - 1 - Z.of_nat b) with (19 - Z.of_nat b) by lia.
      fold (bit (Z.shiftr (choice msgs cand odo n) (19 - Z.of_nat b))).
      destruct (bit_01 (Z.shiftr (choice msgs cand odo n) (19 - Z.of_nat b))) as [-> | ->]; done. }
  unfold blit. rewrite length_unpack, <- Hpre, take_app_length, drop_app_add, drop_replicate.
  unfold hyp_bits in pre |- *. rewrite seq_S, !map_app, concat_app. cbn [map concat Nat.add].
  rewrite app_nil_r, <- app_assoc. do 3 f_equal. lia.
Qed.

(** ** The odometer walks the product of the candidate lists *)

Section Product.
Context {A : Type}.

(** All ways to pick one entry of each list, the last list fastest. *)
Definition extend (acc : list (list A)) (l : list A) : list (list A) :=
  flat_map (fun h => map (fun x => h ++ [x]) l) acc.
Definition product (ls : list (list A)) : list (list A) := fold_left extend ls [[]].

Lemma product_snoc ls l : product (ls ++ [l]) = extend (product ls) l.
Proof. unfold product. by rewrite fold_left_app. Qed.

Lemma length_extend acc l : length (extend acc l) = (length acc * length l)%nat.
Proof.
  induction acc as [|h acc IH]; [done|].
  change (extend (h :: acc) l) with (map (fun x => h ++ [x]) l ++ extend acc l).
  rewrite length_app, length_map, IH. cbn. lia.
Qed.

Lemma lookup_extend acc l q r :
  (r < length l)%nat ->
  extend acc l !! (q * length l + r)%nat = h ← acc !! q; x ← l !! r; Some (h ++ [x]).
Proof.
  intros Hr. revert q. induction acc as [|h acc IH]; intros q; [done|].
  change (extend (h :: acc) l) with (map (fun x => h ++ [x]) l ++ extend acc l).
  destruct q as [|q].
  - rewrite lookup_app_l by (rewrite length_map; lia). cbn. rewrite list_lookup_fmap'. by destruct (l !! r).
  - rewrite lookup_app_r by (rewrite length_map; lia). rewrite length_map.
    replace (S q * length l + r - length l)%nat with (q * length l + r)%nat by lia. apply IH.
Qed.

Lemma length_product_elem ls h : h ∈ product ls -> length h = length ls.
Proof.
  revert h. induction ls as [|l ls IH] using rev_ind; intros h.
  - cbn. intros ->%list_elem_of_singleton. done.
  - rewrite product_snoc. unfold extend. intros Hh. apply list_elem_of_In, in_flat_map in Hh as (g & Hg & Hh).
    apply in_map_iff in Hh as (x & <- & _). apply list_elem_of_In, IH in Hg.
    rewrite !length_app, Hg. done.
Qed.

Lemma elem_of_product ls h : h ∈ product ls <-> Forall2 (fun x l => x ∈ l) h ls.
Proof.
  revert h. induction ls as [|l ls IH] using rev_ind; intros h.
  - cbn. rewrite list_elem_of_singleton. split; [by intros ->|]. by inversion 1.
  - rewrite product_snoc. unfold extend. rewrite list_elem_of_In, in_flat_map. split.
    + intros (g & Hg & Hh). apply in_map_iff in Hh as (x & <- & Hx).
      apply Forall2_app; [by apply IH, list_elem_of_In|]. constructor; [by apply list_elem_of_In|done].
    + intros H. apply Forall2_app_inv_r in H as (g & [|x [|? ?]] & Hg & Hx & ->);
        [by inversion Hx| |by inversion Hx; inversion H4].
      exists g. split; [by apply list_elem_of_In, IH|]. apply in_map_iff. exists x.
      inversion Hx. split; [done|]. by apply list_elem_of_In.
Qed.
End Product.

(** Picking by index is picking the entry. *)
Lemma product_map {A B} (f : nat -> A -> B) (ls : nat -> list A) n :
  product (map (fun i => map (f i) (ls i)) (seq 0 n)) =
  map (fun h => zip_with f (seq 0 n) h) (product (map ls (seq 0 n))).
Proof.
  induction n as [|n IH]; [done|].
  rewrite seq_S, !map_app. cbn [map Nat.add]. rewrite !product_snoc, IH.
  assert (H : forall h, h ∈ product (map ls (seq 0 n)) -> length h = n).
  { intros h Hh. apply length_product_elem in Hh. by rewrite length_map, length_seq in Hh. }
  revert H. generalize (product (map ls (seq 0 n))). intros acc H.
  induction acc as [|h acc IHacc]; [done|].
  change (extend (h :: acc) (ls n)) with (map (fun x => h ++ [x]) (ls n) ++ extend acc (ls n)).
  cbn [map]. rewrite map_app, <- IHacc by (intros g Hg; apply H; by right).
  change (extend (?a :: ?b) ?c) with (map (fun x => a ++ [x]) c ++ extend b c).
  f_equal. rewrite !map_map. apply map_ext. intros x.
  rewrite (zip_with_app f (seq 0 n) [n] h [x]); [done|]. rewrite length_seq. symmetry. apply H. by left.
Qed.

(** The index vectors of [n] wheels with these counts. *)
Definition indices (cs : list nat) (n : nat) : list (list nat) :=
  product (map (fun i => seq 0 (nth i cs 0%nat)) (seq 0 n)).

Lemma indices_S cs n : indices cs (S n) = extend (indices cs n) (seq 0 (nth n cs 0%nat)).
Proof. unfold indices. rewrite seq_S, map_app. cbn [map Nat.add]. apply product_snoc. Qed.

Lemma indices_length cs n v : v ∈ indices cs n -> length v = n.
Proof. intros H. apply length_product_elem in H. by rewrite length_map, length_seq in H. Qed.

Lemma indices_bound cs n v i :
  v ∈ indices cs n -> (i < n)%nat -> (nth i v 0 < nth i cs 0)%nat.
Proof.
  intros H Hi. pose proof (indices_length _ _ _ H) as Hl. apply elem_of_product in H.
  destruct (lookup_lt_is_Some_2 v i ltac:(lia)) as [x Hx].
  destruct (Forall2_lookup_l _ _ _ i x H Hx) as (l & Hl' & Hxl).
  rewrite list_lookup_fmap', lookup_seq_lt in Hl' by done. cbn in Hl'. injection Hl' as <-.
  rewrite (nth_lookup_total 0%nat v i x Hx). apply list_elem_of_In, in_seq in Hxl. lia.
Qed.

(** Index 0 of every wheel comes first. *)
Lemma indices_zero cs n :
  (forall i, (i < n)%nat -> (0 < nth i cs 0)%nat) -> indices cs n !! 0%nat = Some (replicate n 0%nat).
Proof.
  induction n as [|n IH]; intros Hc; [done|]. rewrite indices_S.
  specialize (Hc n ltac:(lia)) as Hn. pose proof (lookup_extend (indices cs n) (seq 0 (nth n cs 0%nat)) 0 0) as E.
  rewrite length_seq in E. cbn [Nat.mul Nat.add] in E. rewrite E, IH by (done || (intros; apply Hc; lia)).
  rewrite lookup_seq_lt by done. cbn. f_equal. by rewrite <- replicate_cons_app.
Qed.

Lemma insert_middle {A} (w : list A) x y tl : <[length w := y]> (w ++ x :: tl) = w ++ y :: tl.
Proof. by rewrite insert_app_r_alt, Nat.sub_diag. Qed.

(** One advance of the odometer is the next index vector. *)
Lemma odo_advance_next cs n j v tl :
  (forall i, (i < n)%nat -> (0 < nth i cs 0)%nat) -> indices cs n !! j = Some v ->
  odo_advance (rev (seq 0 n)) cs (v ++ tl) =
  match indices cs n !! S j with
  | Some v' => (true, v' ++ tl)
  | None => (false, replicate n 0%nat ++ tl)
  end.
Proof.
  revert j v tl. induction n as [|n IH]; intros j v tl Hc Hv.
  { destruct j; [|done]. cbn in Hv. injection Hv as <-. done. }
  rewrite seq_S, rev_app_distr. cbn [rev app Nat.add odo_advance].
  rewrite indices_S in Hv |- *. set (c := nth n cs 0%nat) in *.
  assert (Hcpos : (0 < c)%nat) by (apply Hc; lia).
  pose proof (Nat.div_mod_eq j c) as Hj. pose proof (Nat.mod_upper_bound j c ltac:(lia)) as Hr.
  revert Hj Hr. generalize (j / c)%nat as q, (j mod c)%nat as r. intros q r -> Hr.
  rewrite (Nat.mul_comm c q) in Hv |- *.
  pose proof (lookup_extend (indices cs n) (seq 0 c)) as Hlook. rewrite length_seq in Hlook.
  rewrite Hlook in Hv by done. destruct (indices cs n !! q) as [w|] eqn:Hw; [|done].
  rewrite lookup_seq_lt in Hv by done. cbn in Hv. injection Hv as <-.
  assert (Hlw : length w = n) by (eapply indices_length, list_elem_of_lookup_2, Hw).
  rewrite <- (app_assoc w [r] tl). cbn [app].
  assert (Hmid : forall x, nth n (w ++ x :: tl) 0%nat = x) by (intros x; rewrite <- Hlw; apply nth_middle).
  assert (Hins : forall x y, <[n := y]> (w ++ x :: tl) = w ++ y :: tl)
    by (intros x y; rewrite <- Hlw; apply insert_middle).
  rewrite Hmid, Hins, Hmid.
  destruct (Nat.ltb_spec (S r) c) as [Hlt|Hge].
  - replace (S (q * c + r))%nat with (q * c + S r)%nat by lia.
    rewrite Hlook, Hw, lookup_seq_lt by done. cbn. by rewrite <- app_assoc.
  - rewrite Hins. replace (S (q * c + r))%nat with (S q * c + 0)%nat by lia.
    rewrite (IH q w (0%nat :: tl)) by (done || (intros; apply Hc; lia)).
    rewrite Hlook by done. destruct (indices cs n !! S q) as [v'|]; cbn.
    + rewrite lookup_seq_lt by done. cbn. by rewrite <- app_assoc.
    + change (0%nat :: replicate n 0%nat ++ tl) with ((0%nat :: replicate n 0%nat) ++ tl).
      by rewrite replicate_cons_app, <- app_assoc.
Qed.

(** Wheels with a single entry may be left out. *)
Lemma odo_advance_filter (p : nat -> bool) fs cs cs' odo :
  (forall i, In i fs -> (i < length odo)%nat /\
     if p i then nth i cs' 0%nat = nth i cs 0%nat else nth i cs' 0%nat = 1%nat /\ nth i odo 0%nat = 0%nat) ->
  odo_advance (List.filter p fs) cs odo = odo_advance fs cs' odo.
Proof.
  revert odo. induction fs as [|i fs IH]; intros odo H; [done|].
  destruct (H i (or_introl eq_refl)) as [Hi Hp]. cbn [List.filter odo_advance].
  assert (Hrest : forall x, (p i = true \/ x = 0%nat) -> forall k, In k fs ->
    (k < length (<[i:=x]> odo))%nat /\
    if p k then nth k cs' 0%nat = nth k cs 0%nat else nth k cs' 0%nat = 1%nat /\ nth k (<[i:=x]> odo) 0%nat = 0%nat).
  { intros x Hx k Hk. rewrite length_insert. destruct (H k (or_intror Hk)) as [Hk1 Hk2].
    split; [done|]. destruct (p k) eqn:Epk; [done|]. destruct Hk2 as [? Hz]. split; [done|].
    rewrite nth_lookup. destruct (Nat.eq_dec i k) as [->|Hne].
    - rewrite list_lookup_insert_eq by done. destruct Hx as [?| ->]; [congruence|done].
    - by rewrite list_lookup_insert_ne, <- nth_lookup. }
  destruct (p i) eqn:Ep.
  - cbn [odo_advance]. rewrite Hp. destruct (_ <? _)%nat; [done|].
    rewrite list_insert_insert_eq. apply IH, Hrest. by left.
  - destruct Hp as [Hone Hz]. rewrite Hz.
    assert (E : (nth i (<[i:=1%nat]> odo) 0 <? nth i cs' 0)%nat = false).
    { rewrite Hone, nth_lookup, list_lookup_insert_eq by done. done. }
    rewrite E.
    rewrite list_insert_insert_eq, list_insert_id.
    + apply IH. intros k Hk. apply (H k). by right.
    + destruct (lookup_lt_is_Some_2 odo i Hi) as [x Hx]. rewrite Hx. f_equal.
      by rewrite (nth_lookup_total 0%nat odo i x Hx) in Hz.
Qed.

(** ** The search *)

(** The arbiter's verdict on a hypothesis. *)
Definition hyp_ok (h : list Z) : bool :=
  let trial := trial_of (hyp_bits h) in header_ok trial && crc_ok trial.

(** The first accepted hypothesis of a list, with the checks spent. *)
Definition search_result (hs : list (list Z)) (checks : nat) (stats : ida_chase_stats)
    (out : ida_decoded) : Z * ida_decoded * ida_chase_stats :=
  match list_find (fun h => hyp_ok h = true) hs with
  | Some (k, h) =>
      (1, chased (trial_of (hyp_bits h)) out (checks + S k),
       ChaseStats (attempts stats) (u32 (recovered stats + 1)) (u32 (crc_checks stats + Z.of_nat (S k))))
  | None =>
      (0, out, ChaseStats (attempts stats) (recovered stats)
                 (u32 (crc_checks stats + Z.of_nat (length hs))))
  end.

Lemma search_result_nil checks stats out :
  is_u 32 (crc_checks stats) -> search_result [] checks stats out = (0, out, stats).
Proof.
  intros H. unfold search_result. cbn [list_find length]. rewrite Z.add_0_r, u32_small by done.
  by destruct stats.
Qed.

(** One more check in front. *)
Lemma search_result_cons h hs checks stats out :
  search_result (h :: hs) checks stats out =
  let stats' := ChaseStats (attempts stats) (recovered stats) (u32 (crc_checks stats + 1)) in
  if hyp_ok h then
    (1, chased (trial_of (hyp_bits h)) out (S checks),
     ChaseStats (attempts stats') (u32 (recovered stats' + 1)) (crc_checks stats'))
  else search_result hs (S checks) stats' out.
Proof.
  unfold search_result. cbn [list_find]. destruct (hyp_ok h) eqn:E.
  - rewrite decide_True by done. cbn [attempts recovered crc_checks]. by rewrite Nat.add_1_r.
  - rewrite decide_False by done. cbn [attempts recovered crc_checks length].
    destruct (list_find _ hs) as [[k g]|]; cbn; rewrite u32_add_u32; [|do 3 f_equal; lia].
    rewrite <- Nat.add_succ_comm. do 3 f_equal. lia.
Qed.

Section Search.
Variables (msgs : list Z) (cand : list (list Z)) (n_cand cs : list nat) (p : nat -> bool)
  (g : list nat -> list Z).
Hypothesis Hpos : forall i, (i < 10)%nat -> (0 < nth i cs 0)%nat.
Hypothesis Hcs : forall i, (i < 10)%nat ->
  if p i then nth i cs 0%nat = nth i n_cand 0%nat else nth i cs 0%nat = 1%nat.
Hypothesis Hg : forall v, v ∈ indices cs 10 -> map (choice msgs cand v) (seq 0 10) = g v.

Lemma advance_failed j v :
  indices cs 10 !! j = Some v ->
  let '(more, v') := odo_advance (rev (List.filter p (seq 0 10))) n_cand v in
  match indices cs 10 !! S j with
  | Some w => more = true /\ v' = w
  | None => more = false
  end.
Proof.
  intros Hv. pose proof (list_elem_of_lookup_2 _ _ _ Hv) as Hin.
  rewrite <- List.filter_rev, (odo_advance_filter p _ n_cand cs).
  - pose proof (odo_advance_next cs 10 j v [] Hpos Hv) as H. rewrite app_nil_r in H. rewrite H.
    destruct (indices cs 10 !! S j); [|done]. by rewrite app_nil_r.
  - intros i Hi. rewrite <- in_rev, in_seq in Hi. rewrite (indices_length _ _ _ Hin). split; [lia|].
    specialize (Hcs i ltac:(lia)). destruct (p i); [done|]. split; [done|].
    pose proof (indices_bound cs 10 v i Hin ltac:(lia)). lia.
Qed.

Lemma chase_search_spec fuel j v checks stats out :
  is_u 32 (crc_checks stats) -> indices cs 10 !! j = Some v ->
  chase_search fuel msgs (List.filter p (seq 0 10)) cand n_cand v checks stats out =
  search_result (take fuel (drop j (map g (indices cs 10)))) checks stats out.
Proof.
  revert j v checks stats. induction fuel as [|fuel IH]; intros j v checks stats Hs Hv.
  { cbn [chase_search]. rewrite take_0. by rewrite search_result_nil. }
  assert (Hd : drop j (map g (indices cs 10)) = g v :: drop (S j) (map g (indices cs 10))).
  { apply drop_S. by rewrite list_lookup_fmap', Hv. }
  rewrite Hd. cbn [take chase_search].
  rewrite assemble_hyp, Hg by (eapply list_elem_of_lookup_2, Hv).
  rewrite search_result_cons. unfold hyp_ok. cbv zeta.
  destruct (header_ok (trial_of (hyp_bits (g v))) && crc_ok (trial_of (hyp_bits (g v)))); [done|].
  pose proof (advance_failed j v Hv) as Ha. destruct (odo_advance _ _ _) as [more v'].
  assert (Hs' : is_u 32 (u32 (crc_checks stats + 1))) by (apply is_u_mod; lia).
  destruct (indices cs 10 !! S j) as [w|] eqn:Hw.
  - destruct Ha as [-> ->]. by apply IH.
  - subst more. assert (E : drop (S j) (map g (indices cs 10)) = []).
    { apply drop_ge. apply lookup_ge_None_1. by rewrite list_lookup_fmap', Hw. }
    by rewrite E, take_nil, search_result_nil.
Qed.
End Search.

(** ** The index map *)

(** The data-section bit behind every codeword bit. *)
Definition source_idx : list nat := map swap_idx codeword_idx.

Lemma build_map_spec :
  forN IDA_DECODE_DATA_BITS (fun p map =>
    match probe p with Some j => <[j := p]> map | None => map end)
    (replicate IDA_DECODE_N_CW_BITS 0%nat) = source_idx.
Proof. vm_compute. reflexivity. Qed.

Lemma codeword_source data j :
  length data = 312%nat -> (j < 310)%nat ->
  rd (ida_decode_build_codewords data) j = bit (rd data (nth j source_idx 0%nat)).
Proof.
  intros Hl Hj. pose proof codeword_idx_facts as (Hlen & _ & _).
  rewrite build_codewords_gather, take_ge by (rewrite Hl; unfold DATA_BITS_TOTAL; lia).
  rewrite rd_gather by lia. rewrite rd_pair_swap by (by rewrite Hl).
  do 2 f_equal. unfold source_idx. change 0%nat with (swap_idx 1) at 2. rewrite map_nth.
  f_equal. apply nth_indep. lia.
Qed.

(** ** The module's invariant *)

Record chase_ok (s : chase_state) : Prop := {
  ck_L : (1 <= s_L s <= 6)%nat;
  ck_max : (1 <= s_max_crc s <= 4096)%nat;
  ck_stats : is_u 32 (attempts (s_stats s)) /\ is_u 32 (recovered (s_stats s)) /\
             is_u 32 (crc_checks (s_stats s));
  ck_map : s_map s = if s_map_built s then source_idx else replicate 310 0%nat }.

Lemma chase_init_ok : chase_ok chase_init.
Proof. constructor; [cbv; lia|unfold chase_init, IDA_CHASE_DEFAULT_MAX_CRC; cbn [s_max_crc]; lia| |reflexivity].
  split_and!; by apply (bool_decide_unpack _). Qed.

Lemma clamp_spec lo hi x :
  lo <= hi ->
  let y := if x <? lo then lo else x in lo <= (if hi <? y then hi else y) <= hi.
Proof. intros H. cbv zeta. destruct (Z.ltb_spec x lo), (Z.ltb_spec hi lo), (Z.ltb_spec hi x); lia. Qed.

Lemma set_params_ok s L m : chase_ok s -> chase_ok (ida_chase_set_params s L m).
Proof.
  intros [_ _ Hs Hm]. unfold ida_chase_set_params, IDA_CHASE_MAX_L.
  constructor; cbn [s_L s_max_crc s_stats s_map s_map_built]; [| |done|done].
  - pose proof (clamp_spec 1 (Z.of_nat 6) L ltac:(lia)) as H. cbv zeta in H. lia.
  - pose proof (clamp_spec 1 4096 m ltac:(lia)) as H. cbv zeta in H. lia.
Qed.

Lemma set_enabled_ok s e : chase_ok s -> chase_ok (ida_chase_set_enabled s e).2.
Proof. intros [? ? ? ?]. by constructor. Qed.

Lemma with_stats_ok s x :
  chase_ok s -> is_u 32 (attempts x) -> is_u 32 (recovered x) -> is_u 32 (crc_checks x) ->
  chase_ok (with_stats s x).
Proof. intros [? ? ? ?] ? ? ?. by constructor. Qed.

Definition ensure_map (s : chase_state) : chase_state := if s_map_built s then s else build_index_map s.

Lemma ensure_map_spec s :
  chase_ok s -> chase_ok (ensure_map s) /\ s_map (ensure_map s) = source_idx /\
  s_L (ensure_map s) = s_L s /\ s_max_crc (ensure_map s) = s_max_crc s /\
  s_stats (ensure_map s) = s_stats s /\ s_enabled (ensure_map s) = s_enabled s.
Proof.
  intros Hok. pose proof (ck_map s Hok) as Hm. unfold ensure_map.
  destruct (s_map_built s) eqn:E; [by rewrite Hm|]. unfold build_index_map. cbn [s_map s_L s_max_crc s_stats s_enabled].
  rewrite Hm. fold IDA_DECODE_N_CW_BITS. rewrite build_map_spec. split_and!; try done.
  destruct Hok. by constructor.
Qed.

(** ** What a call does *)

(** The messages a hypothesis may give codeword [i]: the decoder's own where
    the hard decode succeeded, else every message the fallback can reach. *)
Definition is_options (cws soft : list Z) (L i : nat) (l : list Z) : Prop :=
  if block_good cws i then l = [word_message cws i]
  else lists_messages (reachable (codeword cws i) (confidence soft source_idx i) L) l.

Lemma word_message_good cws i : (word_message cws i <? 0) = negb (block_good cws i).
Proof.
  unfold word_message, decode_word, block_good, block_repair, BCH_CW_BITS, IDA_DECODE_CW_BITS.
  destruct (iridium_bch_repair2_ref _ _ _) as [e w]. cbn [fst snd].
  destruct (Z.leb_spec 0 e); [|done]. cbn [negb]. apply Z.ltb_ge.
  unfold packbits. apply (forN_inv (fun _ v => 0 <= v)); [lia|]. intros. by apply Z.mod_pos_bound.
Qed.

(** Such a list is determined by its messages. *)
Lemma lists_messages_unique P l l' : lists_messages P l -> lists_messages P l' -> l = l'.
Proof.
  intros [Hs Hm] [Hs' Hm'].
  assert (Hirr : forall x : Z, ~ x < x) by lia.
  apply (StronglySorted_unique_strong Z.lt); [lia|done|done|].
  apply NoDup_Permutation; [by eapply StronglySorted_nodup..|]. intros m. by rewrite Hm, Hm'.
Qed.

Lemma product_nil {A} (ls : list (list A)) : [] ∈ ls -> product ls = [].
Proof.
  intros H. apply elem_of_nil_inv. intros h Hh%elem_of_product.
  apply list_elem_of_lookup in H as [i Hi].
  destruct (Forall2_lookup_r _ _ _ i [] Hh Hi) as (x & _ & Hx). by apply not_elem_of_nil in Hx.
Qed.

(** Every codeword has its options. *)
Lemma options_exist cws soft L :
  length cws = 310%nat -> (1 <= L <= 6)%nat ->
  exists opts, length opts = 10%nat /\
    forall i, (i < 10)%nat -> is_options cws soft L i (nth i opts []).
Proof.
  intros Hl HL.
  enough (H : forall n, (n <= 10)%nat -> exists opts, length opts = n /\
    forall i, (i < n)%nat -> is_options cws soft L i (nth i opts [])) by (by apply H).
  induction n as [|n IH]; intros Hn; [by exists []; split; [|lia]|].
  destruct IH as (opts & Hlen & H); [lia|].
  assert (exists l, is_options cws soft L n l) as [l Hopt].
  { unfold is_options. destruct (block_good cws n); [by eexists|].
    pose proof (row_spec soft cws source_idx L n syn_init syn_init_ok Hl ltac:(lia) HL) as Hr.
    destruct (least_confident _ _) as [lcb n_lcb]. destruct Hr as (row & nc & _ & _ & _ & _ & _ & Hr).
    by exists (take nc row). }
  exists (opts ++ [l]). split; [rewrite length_app; cbn; lia|].
  intros i Hi. destruct (Nat.eq_dec i n) as [->|].
  - rewrite app_nth2, Hlen, Nat.sub_diag by lia. done.
  - rewrite app_nth1 by lia. apply H. lia.
Qed.

Lemma zip_with_seq {A} (f : nat -> nat -> A) n v :
  length v = n -> zip_with f (seq 0 n) v = map (fun i => f i (nth i v 0%nat)) (seq 0 n).
Proof.
  intros <-. rewrite <- (map_nth_seq 0%nat v) at 2.
  generalize (seq 0 (length v)) as l. intros l.
  induction l as [|i l IH]; [done|]. cbn [map zip_with]. by rewrite IH.
Qed.

(** Once the failed codewords' rows are in place, the search runs over the
    product of the options. *)
Section Options.
Variables (cws soft : list Z) (L : nat) (opts cand : list (list Z)) (n_cand : list nat).
Hypothesis Hcws : length cws = 310%nat.
Hypothesis Hlen : length opts = 10%nat.
Hypothesis Hopts : forall i, (i < 10)%nat -> is_options cws soft L i (nth i opts []).
Hypothesis Hrows : forall i, (i < 10)%nat -> block_good cws i = false ->
  row_done soft cws source_idx L i (nth i cand []) (nth i n_cand 0%nat).

Let cs : list nat := map length opts.
Let pick (i x : nat) : Z := nth x (nth i opts []) 0.
Let msgs : list Z := map (word_message cws) (seq 0 10).

Lemma nth_cs i : nth i cs 0%nat = length (nth i opts []).
Proof. unfold cs. change 0%nat with (length (@nil Z)) at 1. apply map_nth. Qed.

Lemma rd_msgs i : (i < 10)%nat -> rd msgs i = word_message cws i.
Proof.
  intros Hi. apply nth_lookup_total. unfold msgs. by rewrite list_lookup_fmap', lookup_seq_lt.
Qed.

(** A failed codeword's options are its row. *)
Lemma options_row i :
  (i < 10)%nat -> block_good cws i = false ->
  nth i opts [] = take (nth i n_cand 0%nat) (nth i cand []) /\
  length (nth i opts []) = nth i n_cand 0%nat /\ (0 < nth i n_cand 0)%nat.
Proof.
  intros Hi Hg. pose proof (Hopts i Hi) as Ho. unfold is_options in Ho. rewrite Hg in Ho.
  destruct (Hrows i Hi Hg) as (Hr & Hn & Hpos).
  assert (E : nth i opts [] = take (nth i n_cand 0%nat) (nth i cand []))
    by (by eapply lists_messages_unique).
  split_and!; [done|by rewrite E|done].
Qed.

Lemma options_good i : (i < 10)%nat -> block_good cws i = true -> nth i opts [] = [word_message cws i].
Proof. intros Hi Hg. specialize (Hopts i Hi). unfold is_options in Hopts. by rewrite Hg in Hopts. Qed.

Lemma choice_pick v i :
  v ∈ indices cs 10 -> (i < 10)%nat -> choice msgs cand v i = pick i (nth i v 0%nat).
Proof.
  intros Hv Hi. pose proof (indices_bound cs 10 v i Hv Hi) as Hb. rewrite nth_cs in Hb.
  unfold choice, pick. rewrite rd_msgs by done. pose proof (word_message_good cws i) as Hw.
  destruct (block_good cws i) eqn:Hg; cbn [negb] in Hw.
  - apply Z.ltb_ge in Hw. rewrite (proj2 (Z.leb_le _ _)) by done.
    rewrite options_good in Hb |- * by done. cbn [length] in Hb.
    replace (nth i v 0%nat) with 0%nat by lia. cbn [nth].
    pose proof (decode_word_range (codeword cws i) (length_codeword _ _ Hcws Hi) Hw) as Hr.
    apply u32_small. unfold is_u in Hr. unfold word_message. lia.
  - apply Z.ltb_lt in Hw. rewrite (proj2 (Z.leb_gt _ _)) by done.
    destruct (options_row i Hi Hg) as (E & Hn & _). rewrite Hn in Hb. rewrite E. unfold rd.
    revert Hb. generalize (nth i v 0%nat) (nth i cand []) (nth i n_cand 0%nat). intros k row n Hb.
    by rewrite !nth_lookup, lookup_take_lt.
Qed.

Lemma product_options : map (fun v => zip_with pick (seq 0 10) v) (indices cs 10) = product opts.
Proof.
  unfold indices. rewrite <- product_map.
  transitivity (product (map (fun i => nth i opts []) (seq 0 10))).
  - f_equal. apply map_ext. intros i. rewrite nth_cs. apply (map_nth_seq 0).
  - f_equal. rewrite <- Hlen. apply map_nth_seq.
Qed.

Lemma search_options fuel stats out :
  is_u 32 (crc_checks stats) ->
  chase_search fuel msgs (List.filter (fun i => negb (block_good cws i)) (seq 0 10)) cand n_cand
    (replicate 10 0%nat) 0 stats out =
  search_result (take fuel (product opts)) 0 stats out.
Proof.
  intros Hs. assert (Hpos : forall i, (i < 10)%nat -> (0 < nth i cs 0)%nat).
  { intros i Hi. rewrite nth_cs. destruct (block_good cws i) eqn:Hg.
    - rewrite options_good by done. cbn. lia.
    - destruct (options_row i Hi Hg) as (_ & -> & ?). done. }
  rewrite <- product_options.
  apply (chase_search_spec msgs cand n_cand cs _ (fun v => zip_with pick (seq 0 10) v)) with (j := 0%nat);
    [done| | |done|by apply indices_zero].
  - intros i Hi. rewrite nth_cs. destruct (block_good cws i) eqn:Hg; cbn [negb].
    + by rewrite options_good.
    + by destruct (options_row i Hi Hg) as (_ & -> & _).
  - intros v Hv. rewrite zip_with_seq by (by apply indices_length in Hv).
    apply map_ext_in. intros i [_ Hi]%in_seq. by apply choice_pick.
Qed.
End Options.

(** The received codewords of a frame. *)
Definition frame_codewords (frame : iridium_frame) : list Z :=
  ida_decode_build_codewords (drop 70 (fr_bits frame)).

Definition is_da (frame : iridium_frame) : bool :=
  bool_decide (fr_type frame = IR_FRAME_LW) && bool_decide (fr_lw_subtype frame = IR_LW_DA).

(** The conditions under which a call searches. *)
Definition chase_attempted (s : chase_state) (frame : iridium_frame) (soft : option (list Z))
    (n_soft : nat) (out : ida_decoded) : bool :=
  s_enabled s && is_da frame && negb (id_ok out) && bool_decide (is_Some soft) &&
  (382 <=? n_soft)%nat && (382 <=? fr_n_bits frame)%nat &&
  existsb (fun i => negb (block_good (frame_codewords frame) i)) (seq 0 10).

Lemma search_result_stats hs checks stats out :
  is_u 32 (attempts stats) -> is_u 32 (recovered stats) -> is_u 32 (crc_checks stats) ->
  let '(_, _, x) := search_result hs checks stats out in
  is_u 32 (attempts x) /\ is_u 32 (recovered x) /\ is_u 32 (crc_checks x).
Proof.
  intros Ha Hr Hc. unfold search_result. destruct (list_find _ hs) as [[k h]|];
    cbn [attempts recovered crc_checks]; split_and!; try done; apply is_u_mod; lia.
Qed.

Lemma failed_words cws :
  List.filter (fun i => word_message cws i <? 0) (seq 0 10) =
  List.filter (fun i => negb (block_good cws i)) (seq 0 10).
Proof. apply List.filter_ext. intros i. apply word_message_good. Qed.

Lemma failed_length cws :
  (length (List.filter (fun i => negb (block_good cws i)) (seq 0 10)) =? 0)%nat =
  negb (existsb (fun i => negb (block_good cws i)) (seq 0 10)).
Proof.
  generalize (seq 0 10) as l. induction l as [|i l IH]; [done|]. cbn [List.filter existsb].
  by destruct (block_good cws i).
Qed.

Lemma chase_run s st frame soft n_soft out :
  chase_ok s -> syn_ok st -> chase_attempted s frame (Some soft) n_soft out = true ->
  exists opts r out' s' st', length opts = 10%nat /\
    (forall i, (i < 10)%nat -> is_options (frame_codewords frame) soft (s_L s) i (nth i opts [])) /\
    ida_chase_decode frame (Some soft) n_soft out s st = (r, out', s', st') /\
    chase_ok s' /\ syn_ok st' /\
    (r, out', s_stats s') =
    search_result (take (s_max_crc s) (product opts)) 0
      (ChaseStats (u32 (attempts (s_stats s) + 1)) (recovered (s_stats s)) (crc_checks (s_stats s))) out.
Proof.
  intros Hok Hst Ha. unfold chase_attempted in Ha.
  repeat (apply andb_prop in Ha as [Ha ?]). rename Ha into Hen.
  unfold ida_chase_decode, FRAME_BITS_NEEDED. unfold is_da in *.
  repeat match goal with H : _ && _ = true |- _ => apply andb_prop in H as [? ?] end.
  repeat match goal with H : ?b = true |- context [negb ?b] => rewrite H; cbn [negb orb] end.
  repeat match goal with H : negb ?b = true |- context [if ?b then _ else _] =>
    apply negb_true_iff in H; rewrite H end.
  repeat match goal with H : (382 <=? ?n)%nat = true |- context [(?n <? 382)%nat] =>
    rewrite (proj2 (Nat.ltb_ge n 382)) by (by apply Nat.leb_le) end.
  fold (ensure_map s). destruct (ensure_map_spec s Hok) as (Hok1 & Hmap & HL & Hmax & Hstats & _).
  set (s1 := ensure_map s) in *. change (drop IDA_DECODE_DATA_OFF) with (@drop Z 70).
  fold (frame_codewords frame). set (cws := frame_codewords frame) in *.
  assert (Hlen : length cws = 310%nat) by apply length_build_codewords.
  destruct (hard_pass_spec cws st Hst Hlen) as (st1 & Hst1 & ->).
  rewrite failed_words, failed_length.
  match goal with H : existsb _ _ = true |- _ => rewrite H; cbn [negb] end.
  cbv zeta. cbn [with_stats s_map s_L s_max_crc s_stats]. rewrite Hmap, HL, Hmax, Hstats. pose proof (ck_L s Hok) as HLr.
  destruct (options_exist cws soft (s_L s) Hlen HLr) as (opts & Hol & Hopts).
  set (failed := List.filter (fun i => negb (block_good cws i)) (seq 0 10)).
  assert (Hfin : forall i, i ∈ failed <-> (i < 10)%nat /\ block_good cws i = false).
  { intros i. unfold failed. rewrite list_elem_of_In, filter_In, in_seq, negb_true_iff.
    split; intros [? ?]; (split; [lia|done]). }
  destruct (failed_pass_spec soft cws source_idx (s_L s) failed (replicate IDA_DECODE_N_CW [])
    (replicate IDA_DECODE_N_CW 0%nat) st1 Hst1 Hlen HLr) as (found & st2 & -> & Hst2 & Hfound); [|  |done..|].
  { apply NoDup_ListNoDup, List.NoDup_filter, seq_NoDup. }
  { apply List.Forall_forall. intros i Hi%list_elem_of_In. apply Hfin in Hi as [? _]. done. }
  destruct (ck_stats s Hok) as (_ & Hrec & Hchk).
  set (stats := ChaseStats _ _ _).
  assert (Hst3 : is_u 32 (attempts stats)) by (apply is_u_mod; lia).
  exists opts. destruct found as [[cand n_cand]|].
  - destruct Hfound as (_ & Hrows & _).
    assert (E : chase_search (s_max_crc s) (map (word_message cws) (seq 0 10)) failed cand n_cand
      (replicate IDA_DECODE_N_CW 0%nat) 0 stats out =
      search_result (take (s_max_crc s) (product opts)) 0 stats out).
    { apply (search_options cws soft (s_L s)); try done. intros i Hi Hg. apply Hrows. by apply Hfin. }
    rewrite E. clear E.
    pose proof (search_result_stats (take (s_max_crc s) (product opts)) 0 stats out Hst3 Hrec Hchk) as Hs.
    destruct (search_result _ _ _ _) as [[r out'] x]. destruct Hs as (X1 & X2 & X3).
    eexists _, _, _, _. split_and!; [done|done|reflexivity| |done|done].
    by apply with_stats_ok; [apply with_stats_ok|..].
  - destruct Hfound as (i & Hi & Hnone). apply Hfin in Hi as [Hi Hg].
    rewrite (product_nil opts), take_nil, search_result_nil; [| done |].
    + eexists _, _, _, _. split_and!; [done|done|reflexivity| |done|done]. by apply with_stats_ok.
    + specialize (Hopts i Hi). unfold is_options in Hopts. rewrite Hg in Hopts.
      assert (E : nth i opts [] = []).
      { apply elem_of_nil_inv. intros m Hm. apply (Hnone m). by apply Hopts. }
      rewrite <- E. apply list_elem_of_In, nth_In. lia.
Qed.

Lemma chase_skip s st frame soft n_soft out :
  chase_ok s -> syn_ok st -> chase_attempted s frame soft n_soft out = false ->
  exists s' st', ida_chase_decode frame soft n_soft out s st =
    (if s_enabled s && negb (is_da frame) then -1 else 0, out, s', st') /\
    chase_ok s' /\ syn_ok st' /\ s_stats s' = s_stats s.
Proof.
  intros Hok Hst Ha. unfold ida_chase_decode, FRAME_BITS_NEEDED. unfold chase_attempted in Ha.
  rewrite <- negb_andb. fold (is_da frame).
  destruct (s_enabled s); cbn [negb andb] in *; [|by eexists _, _].
  destruct (is_da frame); cbn [negb andb] in *; [|by eexists _, _].
  destruct (id_ok out); cbn [negb andb] in *; [by eexists _, _|].
  destruct soft as [soft|]; [|by eexists _, _]. rewrite bool_decide_true in Ha by done. cbn [andb] in Ha.
  destruct (Nat.ltb_spec n_soft 382) as [?|Hn1]; [by eexists _, _|].
  rewrite (proj2 (Nat.leb_le _ _) Hn1) in Ha. cbn [andb] in Ha.
  destruct (Nat.ltb_spec (fr_n_bits frame) 382) as [?|Hn2]; [by eexists _, _|].
  rewrite (proj2 (Nat.leb_le _ _) Hn2) in Ha. cbn [andb] in Ha.
  fold (ensure_map s). destruct (ensure_map_spec s Hok) as (Hok1 & Hmap & HL & Hmax & Hstats & _).
  change (drop IDA_DECODE_DATA_OFF) with (@drop Z 70). fold (frame_codewords frame).
  destruct (hard_pass_spec (frame_codewords frame) st Hst) as (st1 & Hst1 & ->);
    [apply length_build_codewords|].
  rewrite failed_words, failed_length, Ha. cbn [negb]. by eexists _, _.
Qed.

(** ** Accepted hypotheses *)

Lemma trial_keeps bits :
  let t := trial_of bits in
  id_ok t = true /\ id_blocks_ok t = 10 /\ id_n_bits t = 200 /\ id_bits t = bits.
Proof.
  unfold trial_of. destruct (parse_keeps (IdaDecoded true 10 10 0 (10 * 20) bits 0 0 0 0 0 0 0 false
    (replicate 24 0) 0 0 0 false false 0)) as (-> & _ & -> & _ & -> & -> & _). done.
Qed.

Lemma search_result_cases hs checks stats out :
  let '(r, out', x) := search_result hs checks stats out in
  attempts x = attempts stats /\
  ((r = 1 /\ exists k h, hs !! k = Some h /\ hyp_ok h = true /\
      out' = chased (trial_of (hyp_bits h)) out (checks + S k) /\
      recovered x = u32 (recovered stats + 1) /\ crc_checks x = u32 (crc_checks stats + Z.of_nat (S k))) \/
   (r = 0 /\ out' = out /\ (forall h, h ∈ hs -> hyp_ok h = false) /\
      recovered x = recovered stats /\ crc_checks x = u32 (crc_checks stats + Z.of_nat (length hs)))).
Proof.
  unfold search_result. destruct (list_find _ hs) as [[k h]|] eqn:E.
  - apply list_find_Some in E as (Hk & Hh & _). split; [done|]. left. split; [done|].
    by exists k, h.
  - apply list_find_None in E. split; [done|]. right. split_and!; try done.
    intros h Hh. rewrite List.Forall_forall in E. apply not_true_is_false, E. by apply list_elem_of_In.
Qed.

Lemma take_elem {A} n (l : list A) x : x ∈ take n l -> x ∈ l.
Proof. intros H. rewrite <- (take_drop n l). apply elem_of_app. by left. Qed.

(** Message [i] of an assembled hypothesis. *)
Lemma packbits_hyp h i m :
  Forall (is_u 20) h -> h !! i = Some m -> packbits (hyp_bits h) (20 * i) 20 = m.
Proof.
  intros Hb Hi. rewrite <- (take_drop_middle h i m Hi) at 1.
  unfold hyp_bits. rewrite map_app, concat_app. cbn [map concat].
  replace (20 * i)%nat with (length (concat (map (unpack 20) (take i h)))).
  - apply packbits_unpack; [lia|]. exact (Forall_lookup_1 _ _ _ _ Hb Hi).
  - change (concat (map (unpack 20) (take i h))) with (hyp_bits (take i h)).
    rewrite length_hyp_bits, length_take. apply lookup_lt_Some in Hi. lia.
Qed.

Lemma reachable_range cws conf L i m :
  length cws = 310%nat -> (i < 10)%nat -> reachable (codeword cws i) conf L m -> is_u 20 m.
Proof.
  intros Hl Hi (Hm & es & _ & _ & ->). apply decode_word_range; [|done].
  rewrite length_flips. by apply length_codeword.
Qed.

(** Every message of a hypothesis is one of its codeword's options. *)
Lemma product_options_spec cws soft L opts h :
  length cws = 310%nat -> length opts = 10%nat ->
  (forall i, (i < 10)%nat -> is_options cws soft L i (nth i opts [])) -> h ∈ product opts ->
  length h = 10%nat /\ Forall (is_u 20) h /\
  forall i, (i < 10)%nat -> block_good cws i = true -> h !! i = Some (word_message cws i).
Proof.
  intros Hl Hlen Hopts Hh. pose proof (length_product_elem _ _ Hh) as Hlh.
  apply elem_of_product in Hh. split; [lia|].
  assert (Hel : forall i m, h !! i = Some m -> (i < 10)%nat /\ m ∈ nth i opts []).
  { intros i m Hi. pose proof (lookup_lt_Some _ _ _ Hi). split; [lia|].
    destruct (Forall2_lookup_l _ _ _ i m Hh Hi) as (l & Hl' & Hm).
    by rewrite (nth_lookup_total [] _ _ _ Hl'). }
  split.
  - apply Forall_lookup_2. intros i m Hi. destruct (Hel i m Hi) as [Hi10 Hm].
    specialize (Hopts i Hi10). unfold is_options in Hopts.
    destruct (block_good cws i) eqn:Hg; [|by eapply reachable_range, Hopts].
    rewrite Hopts in Hm. apply list_elem_of_singleton in Hm as ->.
    apply decode_word_range; [by apply length_codeword|].
    pose proof (word_message_good cws i) as Hw. rewrite Hg in Hw. by apply Z.ltb_ge in Hw.
  - intros i Hi Hg. destruct (lookup_lt_is_Some_2 h i ltac:(lia)) as [m Hm].
    destruct (Hel i m Hm) as [_ Hin]. specialize (Hopts i Hi). unfold is_options in Hopts.
    rewrite Hg in Hopts. rewrite Hopts in Hin. apply list_elem_of_singleton in Hin as ->. done.
Qed.

(** ** Recovery *)

Lemma unpack_val bs : unpack (length bs) (val bs) = map Z.b2z bs.
Proof.
  induction bs as [|b bs IH] using rev_ind; [done|].
  rewrite length_app, Nat.add_1_r, unpack_S, map_app. cbn [map].
  rewrite val_app. cbn [length]. change (val [b]) with (Z.b2z b). change (2 ^ Z.of_nat 1) with 2.
  pose proof (b2z_range b). f_equal.
  - rewrite <- IH. f_equal. rewrite Z.shiftr_div_pow2 by lia. change (2 ^ 1) with 2. lia.
  - f_equal. rewrite bit_odd. f_equal. rewrite Z.add_comm, Z.mul_comm, Z.odd_add_mul_2. by destruct b.
Qed.

Lemma unpack_packbits w :
  is_bits w -> (20 <= length w)%nat -> unpack 20 (packbits w 0 20) = take 20 w.
Proof.
  intros Hb Hl. rewrite packbits_val by lia.
  assert (El : length (odds (slice w 0 20)) = 20%nat).
  { unfold odds. rewrite length_map. apply length_slice. lia. }
  rewrite <- El at 1. rewrite unpack_val. unfold odds, slice. rewrite drop_0, map_map.
  rewrite <- (is_bits_map_bit (take 20 w)) at 2 by (by apply Forall_take).
  apply map_ext. intros x. symmetry. apply bit_odd.
Qed.

Lemma flips_undo a b bits : flips a (flips (a ++ b) bits) = flips b bits.
Proof.
  rewrite flips_app. rewrite <- (flips_app b a), (flips_perm (b ++ a) (a ++ b)) by apply Permutation_app_comm.
  by rewrite flips_app, flips_flips.
Qed.

(** A word within two errors of a codeword decodes to its message. *)
Lemma decode_word_close tw es :
  length tw = 31%nat -> iridium_bch_ndivide ACCH_BCH_POLY tw 31 = 0 ->
  NoDup es -> Forall (fun k => (k < 31)%nat) es -> (length es <= 2)%nat ->
  decode_word (flips es tw) = packbits tw 0 20.
Proof.
  intros Hl Hcw Hnd Hb He. unfold decode_word, IDA_DECODE_CW_BITS.
  rewrite repair2_ref_codes by (done || lia || (left; done)). cbn [fst snd].
  by rewrite (proj2 (Z.leb_le _ _)) by lia.
Qed.

(** At most [2 ^ L] messages are reachable from a codeword. *)
Lemma options_length cws soft L i l :
  length cws = 310%nat -> (i < 10)%nat -> (1 <= L <= 6)%nat -> is_options cws soft L i l ->
  (length l <= if block_good cws i then 1 else 2 ^ L)%nat.
Proof.
  intros Hl Hi HL Ho. unfold is_options in Ho. destruct (block_good cws i); [by rewrite Ho|].
  pose proof (row_spec soft cws source_idx L i syn_init syn_init_ok Hl Hi HL) as Hr.
  destruct (least_confident _ _) as [lcb n]. destruct Hr as (row & nc & _ & _ & _ & Hlen & Hnc & Hr).
  rewrite (lists_messages_unique _ _ _ Ho Hr). lia.
Qed.

Definition failed_count (cws : list Z) : nat :=
  length (List.filter (fun i => negb (block_good cws i)) (seq 0 10)).

Lemma product_length cws soft L opts :
  length cws = 310%nat -> (1 <= L <= 6)%nat -> length opts = 10%nat ->
  (forall i, (i < 10)%nat -> is_options cws soft L i (nth i opts [])) ->
  (length (product opts) <= 2 ^ (L * failed_count cws))%nat.
Proof.
  intros Hl HL Hlen Hopts. rewrite <- (map_nth_seq [] opts), Hlen. unfold failed_count.
  enough (H : forall n, (n <= 10)%nat -> (length (product (map (fun i => nth i opts []) (seq 0 n))) <=
    2 ^ (L * length (List.filter (fun i => negb (block_good cws i)) (seq 0 n))))%nat) by (by apply H).
  induction n as [|n IH]; intros Hn; [cbn; lia|].
  rewrite seq_S, map_app, List.filter_app, length_app. cbn [map List.filter Nat.add].
  rewrite product_snoc, length_extend. specialize (IH ltac:(lia)).
  pose proof (options_length cws soft L n (nth n opts []) Hl ltac:(lia) HL (Hopts n ltac:(lia))) as Hb.
  rewrite Nat.mul_add_distr_l, Nat.pow_add_r.
  apply Nat.mul_le_mono; [done|]. destruct (block_good cws n); cbn [negb length]; [by rewrite Nat.mul_0_r|].
  by rewrite Nat.mul_1_r.
Qed.

(** A received codeword the fallback can bring back to [tw]: within two errors,
    or beyond repair with all but two of its errors among the [L] weakest bits. *)
Definition recoverable (cws soft : list Z) (L i : nat) (tw : list Z) : Prop :=
  length tw = 31%nat /\ is_bits tw /\ iridium_bch_ndivide ACCH_BCH_POLY tw 31 = 0 /\
  exists es, NoDup es /\ Forall (fun k => (k < 31)%nat) es /\ codeword cws i = flips es tw /\
    ((length es <= 2)%nat \/
     (block_good cws i = false /\ exists a b, es = a ++ b /\ (length b <= 2)%nat /\
        Forall (fun k => (rank (confidence soft source_idx i) k < L)%nat) a)).

Lemma recoverable_option cws soft L i tw l :
  recoverable cws soft L i tw -> is_options cws soft L i l -> packbits tw 0 20 ∈ l.
Proof.
  intros (Hl & _ & Hcw & es & Hnd & Hb & Hes & Hcase) Ho. unfold is_options in Ho.
  pose proof (packbits_range tw 0 20 ltac:(lia) ltac:(lia)) as Hr.
  destruct Hcase as [H2|(Hg & a & b & -> & H2 & Ha)].
  - assert (E : word_message cws i = packbits tw 0 20).
    { unfold word_message. rewrite Hes. by apply decode_word_close. }
    assert (Hg : block_good cws i = true).
    { pose proof (word_message_good cws i) as Hw. rewrite E in Hw.
      destruct (block_good cws i); [done|]. apply Z.ltb_lt in Hw. lia. }
    rewrite Hg in Ho. rewrite Ho, E. by apply list_elem_of_singleton.
  - rewrite Hg in Ho. apply Ho. split; [lia|]. exists a.
    apply Forall_app in Hb as [Hba Hbb]. apply list.NoDup_app in Hnd as (Hna & _ & Hnb).
    split_and!; [done|by apply Forall_and|].
    rewrite Hes, flips_undo. symmetry. by apply decode_word_close.
Qed.

(** ** Properties *)

#[local] Opaque packbits.

(** One message for every codeword, each within reach. *)
Definition is_hypothesis (cws soft : list Z) (L : nat) (ms : list Z) : Prop :=
  length ms = 10%nat /\ forall i, (i < 10)%nat ->
    if block_good cws i then nth i ms 0 = word_message cws i
    else reachable (codeword cws i) (confidence soft source_idx i) L (nth i ms 0).

Lemma product_hypothesis cws soft L opts h :
  length opts = 10%nat -> (forall i, (i < 10)%nat -> is_options cws soft L i (nth i opts [])) ->
  h ∈ product opts -> is_hypothesis cws soft L h.
Proof.
  intros Hlen Hopts Hh. pose proof (length_product_elem _ _ Hh) as Hlh. apply elem_of_product in Hh.
  split; [lia|]. intros i Hi. specialize (Hopts i Hi). unfold is_options in Hopts.
  destruct (lookup_lt_is_Some_2 h i ltac:(lia)) as [m Hm].
  destruct (Forall2_lookup_l _ _ _ i m Hh Hm) as (l & Hl & Hin).
  rewrite (nth_lookup_total [] _ _ _ Hl) in Hopts. rewrite (nth_lookup_total 0 _ _ _ Hm).
  destruct (block_good cws i); [|by apply Hopts].
  rewrite Hopts in Hin. by apply list_elem_of_singleton in Hin.
Qed.

(** What a call returns.  When the fallback runs (it is enabled, the frame
    is LW.DA with 382 bits and soft values, the hard decode left a codeword
    beyond repair), the hypotheses are the combinations, last codeword fastest,
    of each codeword's messages: the decoded one where the hard decode
    succeeded, otherwise all messages reachable by flipping some of its [L]
    least reliable bits and repairing, in ascending order and without repeats.
    The call returns the first of them that passes the header check and the
    CRC among the first [s_max_crc], with the number of checks spent, and
    otherwise 0 with the output untouched. *)
Theorem ida_chase_search s st frame soft n_soft out :
  chase_ok s -> syn_ok st -> chase_attempted s frame (Some soft) n_soft out = true ->
  exists opts, length opts = 10%nat /\
    (forall i, (i < 10)%nat -> is_options (frame_codewords frame) soft (s_L s) i (nth i opts [])) /\
    let '(r, out', s', st') := ida_chase_decode frame (Some soft) n_soft out s st in
    let tried := take (s_max_crc s) (product opts) in
    let stats := s_stats s in
    chase_ok s' /\ syn_ok st' /\
    match list_find (fun h => hyp_ok h = true) tried with
    | Some (k, h) =>
        r = 1 /\ out' = chased (trial_of (hyp_bits h)) out (S k) /\
        s_stats s' = ChaseStats (u32 (attempts stats + 1)) (u32 (recovered stats + 1))
                       (u32 (crc_checks stats + Z.of_nat (S k)))
    | None =>
        r = 0 /\ out' = out /\
        s_stats s' = ChaseStats (u32 (attempts stats + 1)) (recovered stats)
                       (u32 (crc_checks stats + Z.of_nat (length tried)))
    end.
Proof.
  intros Hok Hst Ha.
  destruct (chase_run s st frame soft n_soft out Hok Hst Ha)
    as (opts & r & out' & s' & st' & Hl & Hopts & -> & Hok' & Hst' & E).
  exists opts. split_and!; [done|done|]. cbv zeta. split_and!; [done|done|].
  unfold search_result in E. cbn [attempts recovered crc_checks] in E.
  destruct (list_find _ _) as [[k h]|]; by injection E as -> -> ->.
Qed.

(** The arbiter guards the output.  Whatever the inputs, a call that does
    not return 1 leaves the output as it was; one that returns 1 leaves a
    complete frame whose header and CRC hold, in which every codeword the hard
    decode repaired keeps its message, and marks it with the number of checks,
    at most the cap.  No call spends more CRC checks than the cap. *)
Theorem ida_chase_accept s st frame soft n_soft out :
  chase_ok s -> syn_ok st ->
  let '(r, out', s', st') := ida_chase_decode frame soft n_soft out s st in
  let cws := frame_codewords frame in
  chase_ok s' /\ syn_ok st' /\
  (r <> 1 -> out' = out /\ recovered (s_stats s') = recovered (s_stats s)) /\
  (r = 1 ->
     id_ok out' = true /\ header_ok out' = true /\ crc_ok out' = true /\ id_blocks_ok out' = 10 /\
     id_n_bits out' = 200 /\ id_total_errors out' = id_total_errors out /\
     chase_used out' = true /\ 1 <= chase_checks out' <= Z.of_nat (s_max_crc s) /\
     forall i, (i < 10)%nat -> block_good cws i = true ->
       packbits (id_bits out') (20 * i) 20 = word_message cws i) /\
  exists n, (n <= s_max_crc s)%nat /\
    crc_checks (s_stats s') = u32 (crc_checks (s_stats s) + Z.of_nat n).
Proof.
  intros Hok Hst. destruct (chase_attempted s frame soft n_soft out) eqn:Ha.
  2:{ destruct (chase_skip s st frame soft n_soft out Hok Hst Ha) as (s' & st' & -> & Hok' & Hst' & Es).
      cbv zeta. rewrite Es. split_and!; [done|done|done| |].
      - destruct (_ && _); done.
      - exists 0%nat. split; [lia|]. rewrite Z.add_0_r, u32_small; [done|]. apply (ck_stats s Hok). }
  destruct soft as [soft|].
  2:{ unfold chase_attempted in Ha. rewrite bool_decide_false in Ha by (by intros [? ?]).
      by rewrite andb_false_r in Ha. }
  destruct (chase_run s st frame soft n_soft out Hok Hst Ha)
    as (opts & r & out' & s' & st' & Hl & Hopts & -> & Hok' & Hst' & E).
  pose proof (search_result_cases (take (s_max_crc s) (product opts)) 0
    (ChaseStats (u32 (attempts (s_stats s) + 1)) (recovered (s_stats s)) (crc_checks (s_stats s))) out) as Hc.
  rewrite <- E in Hc. clear E. cbn [attempts recovered crc_checks] in Hc. cbv zeta.
  destruct Hc as [_ [(-> & k & h & Hk & Hh & -> & Hrec & Hchk)|(-> & -> & _ & Hrec & Hchk)]].
  - pose proof (lookup_lt_Some _ _ _ Hk) as Hkl. rewrite length_take in Hkl.
    pose proof (ck_max s Hok) as Hmax.
    destruct (product_options_spec (frame_codewords frame) soft (s_L s) opts h) as (Hlh & Hb & Hgood);
      [apply length_build_codewords|done|done| |].
    { eapply take_elem, list_elem_of_lookup_2, Hk. }
    destruct (trial_keeps (hyp_bits h)) as (T1 & T2 & T3 & T4).
    apply andb_prop in Hh as [Hh Hc]. split_and!; [done|done|done| |].
    + intros _. cbn [chased id_ok header_ok crc_ok id_blocks_ok id_n_bits id_total_errors chase_used
        chase_checks id_bits Nat.add]. rewrite T4. split_and!; try done.
      * unfold u16. rewrite Z.mod_small by lia. lia.
      * unfold u16. rewrite Z.mod_small by lia. lia.
      * intros i Hi Hg. apply packbits_hyp; [done|]. by apply Hgood.
    + exists (S k). split; [lia|done].
  - split_and!; [done|done|done|done|].
    exists (length (take (s_max_crc s) (product opts))). split; [rewrite length_take; lia|done].
Qed.

(** C8: recovery. Let the received codewords come from ten sent codewords, each
    within two bit errors or beyond repair with all but two of its errors among
    its [L] least reliable bits, and let the cap allow [2 ^ L] hypotheses for
    each codeword beyond repair in every combination, so that none is cut off.
    If the sent message passes the header check and the CRC the call returns 1;
    and if it is the only combination of reachable messages that does, the
    output is the decoded sent message. *)
Theorem ida_chase_recovers s st frame soft n_soft out tw :
  chase_ok s -> syn_ok st -> chase_attempted s frame (Some soft) n_soft out = true ->
  length tw = 10%nat ->
  (forall i, (i < 10)%nat -> recoverable (frame_codewords frame) soft (s_L s) i (nth i tw [])) ->
  (2 ^ (s_L s * failed_count (frame_codewords frame)) <= s_max_crc s)%nat ->
  let sent := concat (map (take 20) tw) in
  header_ok (trial_of sent) = true -> crc_ok (trial_of sent) = true ->
  let '(r, out', _, _) := ida_chase_decode frame (Some soft) n_soft out s st in
  r = 1 /\
  ((forall ms, is_hypothesis (frame_codewords frame) soft (s_L s) ms -> hyp_ok ms = true ->
      hyp_bits ms = sent) ->
   exists k, (k <= s_max_crc s)%nat /\ out' = chased (trial_of sent) out k).
Proof.
  intros Hok Hst Ha Hltw Htw Hcap sent Hh Hc. set (cws := frame_codewords frame) in *.
  assert (Hlen : length cws = 310%nat) by apply length_build_codewords.
  destruct (chase_run s st frame soft n_soft out Hok Hst Ha)
    as (opts & r & out' & s' & st' & Hl & Hopts & -> & Hok' & Hst' & E).
  fold cws in Hopts. set (h := map (fun w => packbits w 0 20) tw).
  assert (Hsent : hyp_bits h = sent).
  { unfold hyp_bits, h, sent. rewrite map_map. f_equal. apply map_ext_in. intros w Hw.
    apply list_elem_of_In, list_elem_of_lookup in Hw as [i Hi].
    pose proof (lookup_lt_Some _ _ _ Hi). destruct (Htw i ltac:(lia)) as (Hlw & Hb & _).
    rewrite (nth_lookup_total [] _ _ _ Hi) in Hlw, Hb. apply unpack_packbits; [done|lia]. }
  assert (Hin : h ∈ product opts).
  { apply elem_of_product, Forall2_same_length_lookup_2; [unfold h; rewrite length_map; lia|].
    intros i x l Hx Hli. unfold h in Hx. rewrite list_lookup_fmap' in Hx.
    destruct (tw !! i) as [w|] eqn:Hw; [|done]. injection Hx as <-. pose proof (lookup_lt_Some _ _ _ Hw).
    specialize (Htw i ltac:(lia)). specialize (Hopts i ltac:(lia)).
    rewrite (nth_lookup_total [] _ _ _ Hw) in Htw. rewrite (nth_lookup_total [] _ _ _ Hli) in Hopts.
    by eapply recoverable_option. }
  pose proof (product_length cws soft (s_L s) opts Hlen (ck_L s Hok) Hl Hopts) as Hpl.
  rewrite take_ge in E by lia.
  pose proof (search_result_cases (product opts) 0
    (ChaseStats (u32 (attempts (s_stats s) + 1)) (recovered (s_stats s)) (crc_checks (s_stats s))) out) as Hcase.
  rewrite <- E in Hcase. destruct Hcase as [_ [(-> & k & g & Hk & Hg & -> & _)|(_ & _ & Hnone & _)]].
  - split; [done|]. intros Huniq. pose proof (lookup_lt_Some _ _ _ Hk). exists (S k). split; [lia|].
    f_equal. f_equal. apply Huniq; [|done].
    by eapply product_hypothesis, list_elem_of_lookup_2.
  - exfalso. specialize (Hnone h Hin). unfold hyp_ok in Hnone. rewrite Hsent, Hh, Hc in Hnone. done.
Qed.

(** ** A sample

    An encoded frame with three errors in its fourth codeword, the symbol of the
    first of them weak. *)

Definition sample_bits : list Z :=
  match ida_encode_da_frame 1 5 sample_payload 5 [] with Some (_, b) => b | None => [] end.
Definition sample_flips : list nat := map (fun k => (70 + nth (31 * 3 + k) source_idx 0)%nat) [4; 9; 20]%nat.
Definition sample_frame : iridium_frame :=
  IridiumFrame IR_FRAME_LW IR_FRM_DIR_DOWNLINK IR_LW_DA 24 (flips sample_flips sample_bits) 382.
Definition sample_soft : list Z :=
  let weak := (2 * (nth 0 sample_flips 0 / 2))%nat in
  <[weak := -3]> (replicate 382 900).
Definition sample_chase : chase_state := (ida_chase_set_enabled chase_init true).2.
Definition sample_hard : ida_decoded := (ida_decode sample_frame ida_zero syn_init).1.2.
Definition sample_sent : list (list Z) :=
  map (codeword (ida_decode_build_codewords (drop 70 sample_bits))) (seq 0 10).
Definition sample_errors (i : nat) : list nat := if (i =? 3)%nat then [4; 9; 20]%nat else [].

Definition sample_sent_ok (i : nat) : bool :=
  let w := nth i sample_sent [] in
  (length w =? 31)%nat && bool_decide (Forall (fun x => x = 0 \/ x = 1) w) &&
  (iridium_bch_ndivide ACCH_BCH_POLY w 31 =? 0) &&
  bool_decide (codeword (frame_codewords sample_frame) i = flips (sample_errors i) w).

Lemma sample_chase_ok : chase_ok sample_chase.
Proof. apply set_enabled_ok, chase_init_ok. Qed.

Lemma sample_attempted :
  chase_attempted sample_chase sample_frame (Some sample_soft) 382 sample_hard = true.
Proof. vm_compute. reflexivity. Qed.

Lemma sample_recoverable i :
  (i < 10)%nat -> recoverable (frame_codewords sample_frame) sample_soft 5 i (nth i sample_sent []).
Proof.
  intros Hi. pose proof (forall_below sample_sent_ok 10 ltac:(vm_compute; reflexivity) i Hi) as H.
  unfold sample_sent_ok in H. cbv zeta in H.
  apply andb_prop in H as [H Hc]. apply andb_prop in H as [H Hs]. apply andb_prop in H as [Hl Hb].
  apply bool_decide_eq_true in Hc, Hb. apply Z.eqb_eq in Hs. apply Nat.eqb_eq in Hl.
  split_and!; [exact Hl|exact Hb|exact Hs|].
  exists (sample_errors i).
  unfold sample_errors in *. destruct (Nat.eqb_spec i 3) as [->|Hne].
  - split_and!; [by apply (bool_decide_unpack _)|repeat constructor; lia|done|].
    right. split; [vm_compute; reflexivity|]. exists [4%nat], [9; 20]%nat.
    split_and!; [done|done|]. repeat constructor.
  - split_and!; [constructor|constructor|done|left; cbn; lia].
Qed.

(** The messages within reach of the fourth codeword. *)
Definition sample_row : list Z :=
  let '(lcb, n) := least_confident (confidence sample_soft source_idx 3) 5 in
  let '((row, nc), _) := candidates (codeword (frame_codewords sample_frame) 3) lcb n (2 ^ 5) syn_init in
  take nc row.

Lemma sample_row_spec m :
  reachable (codeword (frame_codewords sample_frame) 3) (confidence sample_soft source_idx 3) 5 m ->
  In m sample_row.
Proof.
  intros Hm. unfold sample_row.
  pose proof (row_spec sample_soft (frame_codewords sample_frame) source_idx 5 3 syn_init syn_init_ok
    (length_build_codewords _)) as H. specialize (H ltac:(lia) ltac:(lia)). revert H.
  destruct (least_confident _ _) as [lcb n]. intros (row & nc & st' & -> & _ & _ & _ & H).
  apply list_elem_of_In. by apply H.
Qed.

(** With a single codeword beyond repair a hypothesis is one message. *)
Lemma hypothesis_single cws soft L j ms :
  (j < 10)%nat -> (forall i, (i < 10)%nat -> (i =? j)%nat || block_good cws i = true) ->
  is_hypothesis cws soft L ms ->
  ms = <[j := nth j ms 0]> (map (word_message cws) (seq 0 10)).
Proof.
  intros Hj Hg [Hl Hms].
  apply (nth_ext _ _ 0 0); [by rewrite length_insert, length_map, length_seq|].
  intros i Hi. rewrite Hl in Hi.
  fold (rd (<[j := nth j ms 0]> (map (word_message cws) (seq 0 10))) i).
  rewrite rd_insert, length_map, length_seq.
  destruct (decide _) as [[Eji _]|Hne]; [by rewrite Eji|]. rewrite rd_msgs by done.
  specialize (Hg i Hi). specialize (Hms i Hi).
  destruct (Nat.eqb_spec i j) as [Eij|_]; [by destruct Hne|]. cbn [orb] in Hg. by rewrite Hg in Hms.
Qed.

Definition sample_hypothesis (m : Z) : list Z :=
  <[3%nat := m]> (map (word_message (frame_codewords sample_frame)) (seq 0 10)).

Lemma sample_arbiter :
  forallb (fun m => negb (hyp_ok (sample_hypothesis m)) ||
    bool_decide (hyp_bits (sample_hypothesis m) = concat (map (take 20) sample_sent))) sample_row = true.
Proof. vm_compute. reflexivity. Qed.

Lemma sample_failed :
  block_good (frame_codewords sample_frame) 3 = false /\
  forall i, (i < 10)%nat -> (i =? 3)%nat || block_good (frame_codewords sample_frame) i = true.
Proof.
  split; [vm_compute; reflexivity|].
  exact (forall_below (fun i => (i =? 3)%nat || block_good (frame_codewords sample_frame) i) 10
    ltac:(vm_compute; reflexivity)).
Qed.

#[local] Opaque sample_frame sample_soft sample_row sample_sent.

Lemma sample_unique ms :
  is_hypothesis (frame_codewords sample_frame) sample_soft 5 ms -> hyp_ok ms = true ->
  hyp_bits ms = concat (map (take 20) sample_sent).
Proof.
  intros Hms Hok. destruct sample_failed as [H3 Hg].
  pose proof (hypothesis_single _ _ _ 3 ms ltac:(lia) Hg Hms) as E.
  fold (sample_hypothesis (nth 3 ms 0)) in E.
  destruct Hms as [_ Hms]. specialize (Hms 3%nat ltac:(lia)). rewrite H3 in Hms.
  pose proof sample_arbiter as Hall. rewrite forallb_forall in Hall.
  specialize (Hall _ (sample_row_spec _ Hms)). cbv beta in Hall. rewrite <- E, Hok in Hall.
  cbn [negb orb] in Hall. by apply bool_decide_eq_true in Hall.
Qed.

#[local] Transparent sample_frame sample_soft sample_row sample_sent.

Lemma ida_chase_search_witness :
  exists opts, length opts = 10%nat /\
    forall i, (i < 10)%nat -> is_options (frame_codewords sample_frame) sample_soft 5 i (nth i opts []).
Proof.
  destruct (ida_chase_search sample_chase syn_init sample_frame sample_soft 382 sample_hard
    sample_chase_ok syn_init_ok sample_attempted) as (opts & Hl & Hopts & _).
  exists opts. split; [exact Hl|exact Hopts].
Defined.

Lemma ida_chase_accept_witness :
  crc_ok (ida_chase_decode sample_frame (Some sample_soft) 382 sample_hard sample_chase syn_init).1.1.2 = true.
Proof.
  pose proof (ida_chase_accept sample_chase syn_init sample_frame (Some sample_soft) 382 sample_hard
    sample_chase_ok syn_init_ok) as H.
  assert (Hr : (ida_chase_decode sample_frame (Some sample_soft) 382 sample_hard sample_chase syn_init).1.1.1 = 1)
    by (vm_compute; reflexivity).
  destruct (ida_chase_decode _ _ _ _ _ _) as [[[r d] s'] st']. destruct H as (_ & _ & _ & H & _).
  exact (proj1 (proj2 (proj2 (H Hr)))).
Defined.

Lemma ida_chase_recovers_witness :
  let '(r, d, _, _) := ida_chase_decode sample_frame (Some sample_soft) 382 sample_hard sample_chase syn_init in
  r = 1 /\ exists k, (k <= 256)%nat /\
    d = chased (trial_of (concat (map (take 20) sample_sent))) sample_hard k.
Proof.
  pose proof (ida_chase_recovers sample_chase syn_init sample_frame sample_soft 382 sample_hard sample_sent
    sample_chase_ok syn_init_ok sample_attempted eq_refl sample_recoverable
    (proj1 (Nat.leb_le (2 ^ (5 * failed_count (frame_codewords sample_frame))) 256)
      ltac:(vm_compute; reflexivity)) ltac:(vm_compute; reflexivity)
    ltac:(vm_compute; reflexivity)) as H.
  destruct (ida_chase_decode _ _ _ _ _ _) as [[[r d] s'] st']. destruct H as [Hr H].
  split; [exact Hr|]. apply H. exact sample_unique.
Defined.
