(* ===== verification/BchRa.v ===== *)
(** The two-block BCH(31,21) front porch
    (src/common/iridium_decoder/bch_decoder.c).

    Hard decoding looks the syndrome up in a table of error patterns of weight
    one and two; the soft decoder (Chase-2) hard-decodes the received word
    under every flip of its [K] least reliable bits and keeps the codeword
    nearest in soft distance.  The theorems say what each returns in terms of
    the code alone: the nearest codeword, or none within reach. *)

From stdpp Require Import sets sorting.
From S2P Require Import Prelude Gf2 Bits IridiumBch IdaChase.
#[local] Open Scope Z_scope.

Definition BCH_POLY_RA : Z := 1207.
Definition BCH_RA_DATA : nat := 21.
Definition INT32_MAX : Z := 2 ^ 31 - 1.

(** ** Remainder and table *)

(** [__builtin_clz]; its argument is never 0 here. *)
Definition clz32 (x : Z) : Z := 31 - Z.log2 x.

(** [for (int i = 31; i >= poly_bits - 1; i--)] *)
Definition gf2_remainder (poly val : Z) : Z :=
  if val =? 0 then 0 else
  let poly_bits := 32 - clz32 poly in
  forN (Z.to_nat (33 - poly_bits)) (fun k val =>
    let i := 31 - Z.of_nat k in
    if negb (Z.land val (Z.shiftl 1 i) =? 0) then Z.lxor val (u32 (Z.shiftl poly (i - poly_bits + 1))) else val) val.

Record syn_entry := SynEntry { errs : Z; locator : Z }.

(** [syn_ra] and [s_bch_inited]. *)
Record ra_state := RaState { syn_ra : list syn_entry; s_bch_inited : bool }.

Definition ra_start : ra_state := RaState (replicate 1024 (SynEntry 0 0)) false.

Definition ra_single (tbl : list syn_entry) (b1 : nat) : list syn_entry :=
  let val := Z.shiftl 1 (Z.of_nat b1) in
  let r := gf2_remainder BCH_POLY_RA val in
  if r <? 1024 then <[Z.to_nat r := SynEntry 1 val]> tbl else tbl.

Definition ra_pair (tbl : list syn_entry) (b1 b2 : nat) : list syn_entry :=
  let val := Z.lor (Z.shiftl 1 (Z.of_nat b1)) (Z.shiftl 1 (Z.of_nat b2)) in
  let r := gf2_remainder BCH_POLY_RA val in
  if (r <? 1024) && (errs (nth (Z.to_nat r) tbl (SynEntry 0 0)) <? 0)
  then <[Z.to_nat r := SynEntry 2 val]> tbl else tbl.

Definition bch_decoder_init (st : ra_state) : ra_state :=
  let tbl := forN 1024 (fun i tbl => <[i := SynEntry (-1) 0]> tbl) (syn_ra st) in
  let tbl := forN 31 (fun b1 tbl => ra_single tbl b1) tbl in
  let tbl := forN 31 (fun b1 tbl => forN (30 - b1) (fun k tbl => ra_pair tbl b1 (b1 + 1 + k)) tbl) tbl in
  RaState tbl true.

(** ** Hard decoding *)

Definition bits_to_uint (bits : list Z) (n : nat) : Z :=
  forN n (fun i val => u32 (Z.lor (Z.shiftl val 1) (bit (rd bits i)))) 0.

(** [out_data[20 - i] = (data_val >> i) & 1] *)
Definition put_data (val : Z) (out_data : list Z) : list Z :=
  let data_val := Z.shiftr val 10 in
  forN BCH_RA_DATA (fun i out => <[(20 - i)%nat := u8 (Z.land (Z.shiftr data_val (Z.of_nat i)) 1)]> out) out_data.

Definition bch_decode_block (block31 out_data : list Z) (st : ra_state) : Z * list Z * ra_state :=
  let st := if s_bch_inited st then st else bch_decoder_init st in
  let val := bits_to_uint block31 31 in
  let syndrome := gf2_remainder BCH_POLY_RA val in
  if syndrome =? 0 then (0, put_data val out_data, st) else
  let e := nth (Z.to_nat syndrome) (syn_ra st) (SynEntry 0 0) in
  if (syndrome <? 1024) && (0 <=? errs e) then (errs e, put_data (Z.lxor val (locator e)) out_data, st)
  else (-1, out_data, st).

(** ** Soft decoding *)

Definition soft_hard (s : Z) : Z := if 0 <=? s then 0 else 1.
Definition soft_mag (s : Z) : Z := if s <? 0 then sN 16 (- s) else s.

(** The first slot that is empty or holds a more reliable position; entries
    are -1 while empty. *)
Fixpoint lcb_slot (soft_abs : list Z) (v : Z) (lcb_idx : list Z) : option nat :=
  match lcb_idx with
  | [] => None
  | x :: rest =>
      if (x <? 0) || (v <? rd soft_abs (Z.to_nat x)) then Some 0%nat else S <$> lcb_slot soft_abs v rest
  end.

Definition lcb_insert (soft_abs : list Z) (K i : nat) (lcb_idx : list Z) : list Z :=
  match lcb_slot soft_abs (rd soft_abs i) lcb_idx with
  | Some k => <[k := Z.of_nat i]> (shift_up 0 lcb_idx k (K - 1))
  | None => lcb_idx
  end.

(** The first [K] entries of [lcb_idx], which holds six. *)
Definition lcb_scan (soft_abs : list Z) (K : nat) : list Z :=
  forN 31 (fun i => lcb_insert soft_abs K i) (replicate K (-1)).

Definition popcount (p : Z) : Z := forN 32 (fun i n => n + Z.b2z (Z.testbit p (Z.of_nat i))) 0.

(** The codeword of 21 data bits, as 31 bits. *)
Definition ra_encode (data : list Z) : list Z :=
  let data_val := bits_to_uint data BCH_RA_DATA in
  let systematic := u32 (Z.shiftl data_val 10) in
  let parity := gf2_remainder BCH_POLY_RA systematic in
  let cw := Z.lor systematic parity in
  map (fun i => u8 (Z.land (Z.shiftr cw (30 - Z.of_nat i)) 1)) (seq 0 31).

Definition soft_distance (cw hard soft_abs : list Z) : Z :=
  forN 31 (fun i dist => if negb (rd cw i =? rd hard i) then dist + rd soft_abs i else dist) 0.

(** [best_dist], [best_errs], [best_out] and the scratch [trial_data]. *)
Record ra_best := RaBest { best_dist : Z; best_errs : Z; best_out : list Z; trial_data : list Z }.

Definition ra_trial (hard soft_abs : list Z) (lcb_idx : list Z) (K p : nat) (s : ra_best * ra_state) : ra_best * ra_state :=
  let '(b, st) := s in
  let flipped := trial_word hard (map Z.to_nat lcb_idx) K p in
  let '(e, data, st) := bch_decode_block flipped (trial_data b) st in
  if e <? 0 then (RaBest (best_dist b) (best_errs b) (best_out b) data, st) else
  let dist := soft_distance (ra_encode data) hard soft_abs in
  if dist <? best_dist b then (RaBest dist (e + popcount (Z.of_nat p)) data data, st)
  else (RaBest (best_dist b) (best_errs b) (best_out b) data, st).

(** The two scratch arrays are not initialised in C and are read only after
    they are written. *)
Definition bch_decode_block_soft (soft_in31 out_data : list Z) (K : Z) (st : ra_state) : Z * list Z * ra_state :=
  let K := if K <? 0 then 0 else K in
  let K := Z.to_nat (if 6 <? K then 6 else K) in
  let hard := map soft_hard (take 31 soft_in31) in
  let soft_abs := map soft_mag (take 31 soft_in31) in
  let lcb_idx := lcb_scan soft_abs K in
  let '(b, st) := forN (2 ^ K) (ra_trial hard soft_abs lcb_idx K)
                    (RaBest INT32_MAX (-1) (replicate 21 0) (replicate 21 0), st) in
  if best_errs b <? 0 then (-1, out_data, st) else (best_errs b, best_out b, st).

(** ** De-interleaving

    [for (s = first; s >= ...; s -= 2) { out[p++] = in[2 * s]; out[p++] = in[2 * s + 1]; }],
    sixteen rounds each. *)

Definition deinterleave_half {A} (d : A) (first : nat) (input out : list A) : list A :=
  forN 16 (fun k out =>
    let s := (first - 2 * k)%nat in
    <[(2 * k + 1)%nat := nth (2 * s + 1) input d]> (<[(2 * k)%nat := nth (2 * s) input d]> out)) out.

Definition iridium_deinterleave (input out1 out2 : list Z) : list Z * list Z :=
  (deinterleave_half 0 31 input out1, deinterleave_half 0 30 input out2).
Definition iridium_deinterleave_int16 (input out1 out2 : list Z) : list Z * list Z :=
  (deinterleave_half 0 31 input out1, deinterleave_half 0 30 input out2).

(** ** Single bits *)

Lemma land_pow2_testbit x n : 0 <= n -> (Z.land x (2 ^ n) =? 0) = negb (Z.testbit x n).
Proof.
  intros Hn. destruct (Z.eqb_spec (Z.land x (2 ^ n)) 0) as [E|E].
  - symmetry. apply negb_true_iff. apply (f_equal (fun z => Z.testbit z n)) in E.
    by rewrite Z.land_spec, Z.pow2_bits_true, andb_true_r, Z.testbit_0_l in E by lia.
  - symmetry. apply negb_false_iff. destruct (Z.testbit x n) eqn:Hb; [done|]. destruct E.
    apply Z.bits_inj'. intros i Hi. rewrite Z.land_spec, Z.testbit_0_l, Z.pow2_bits_eqb by lia.
    destruct (Z.eqb_spec n i) as [<-|]; [by rewrite Hb|]. by rewrite andb_false_r.
Qed.

(** ** The division loop is the shift register *)

Lemma gf2_remainder_lfsr poly d bs :
  degree poly d -> length bs = 32%nat -> gf2_remainder poly (val bs) = lfsr poly d 0 bs.
Proof.
  intros Hdeg Hl. pose proof Hdeg as [Hd Hp]. unfold gf2_remainder.
  destruct (Z.eqb_spec (val bs) 0) as [H0|H0].
  { rewrite lfsr_small; rewrite ?H0; [lia|lia|]. pose proof (Z.pow_pos_nonneg 2 (Z.of_nat d)). lia. }
  unfold clz32. rewrite (Z.log2_unique poly (Z.of_nat d)) by (rewrite <- ?Z.add_1_r; lia).
  replace (32 - (31 - Z.of_nat d)) with (Z.of_nat d + 1) by lia.
  replace (Z.to_nat (33 - (Z.of_nat d + 1))) with (32 - d)%nat by lia.
  set (f := fun (k : nat) (val : Z) => _).
  assert (H : forall k, (k <= 32 - d)%nat ->
    forN k f (val bs) = lfsr poly d 0 (take (d + k) bs) * 2 ^ Z.of_nat (32 - d - k) + val (drop (d + k) bs)).
  { induction k as [|k IH]; intros Hk.
    - rewrite forN_0, Nat.add_0_r. rewrite <- (take_drop d bs) at 1. rewrite val_app, length_drop.
      assert (Hlt : length (take d bs) = d) by (rewrite length_take; lia).
      pose proof (val_bound (take d bs)) as Hb. rewrite Hlt in Hb. rewrite lfsr_small by lia.
      replace (length bs - d)%nat with (32 - d - 0)%nat by lia. lia.
    - rewrite forN_S, IH by lia. unfold f.
      destruct (lookup_lt_is_Some_2 bs (d + k) ltac:(lia)) as [b Hb].
      rewrite Nat.add_succ_r, (take_S_r _ _ b Hb), (drop_S _ b _ Hb). rewrite lfsr_app, val_cons, length_drop, Hl.
      set (r := lfsr poly d 0 (take (d + k) bs)). set (m := Z.of_nat (32 - d - S k)).
      assert (Hr : 0 <= r < 2 ^ Z.of_nat d) by (apply lfsr_bound; [done|]; pose proof (Z.pow_pos_nonneg 2 (Z.of_nat d)); lia).
      pose proof (val_bound (drop (S (d + k)) bs)) as Hv. rewrite length_drop, Hl in Hv.
      replace (Z.of_nat (32 - S (d + k))) with m in * by (unfold m; lia).
      replace (Z.of_nat (32 - d - k)) with (m + 1) by (unfold m; lia).
      set (v := val (drop (S (d + k)) bs)) in *. set (r' := 2 * r + Z.b2z b).
      replace (r * 2 ^ (m + 1) + (Z.b2z b * 2 ^ m + v)) with (r' * 2 ^ m + v)
        by (unfold r'; rewrite Z.pow_add_r by (unfold m; lia); lia).
      replace (31 - Z.of_nat k) with (Z.of_nat d + m) by (unfold m; lia).
      replace (Z.of_nat d + m - (Z.of_nat d + 1) + 1) with m by lia.
      assert (Hpm : 0 < 2 ^ m) by (apply Z.pow_pos_nonneg; unfold m; lia).
      assert (Hsh : u32 (Z.shiftl poly m) = Z.shiftl poly m).
      { apply Z.mod_small. rewrite Z.shiftl_mul_pow2 by (unfold m; lia).
        assert (2 ^ (Z.of_nat d + 1) * 2 ^ m <= 2 ^ 32); [|nia].
        rewrite <- Z.pow_add_r by (unfold m; lia). apply Z.pow_le_mono_r; unfold m; lia. }
      assert (Ht : negb (Z.land (r' * 2 ^ m + v) (Z.shiftl 1 (Z.of_nat d + m)) =? 0) = Z.testbit r' (Z.of_nat d)).
      { rewrite Z.shiftl_1_l, land_pow2_testbit, negb_involutive by (unfold m; lia).
        rewrite Z.add_comm, <- (Z.div_pow2_bits _ m) by (unfold m; lia). f_equal.
        symmetry. apply (Z.div_unique_pos _ _ _ v); [done|lia]. }
      rewrite Ht, Hsh. unfold lfsr. cbn [fold_left]. fold (lfsr poly d r []). unfold lfsr_step. fold r'.
      destruct (Z.testbit r' (Z.of_nat d)); [|done]. rewrite lxor_shift_add; [done|unfold m; lia|lia]. }
  rewrite H by lia. replace (d + (32 - d))%nat with 32%nat by lia. rewrite (firstn_all2 bs), (drop_ge bs) by lia.
  replace (32 - d - (32 - d))%nat with 0%nat by lia. cbn. lia.
Qed.

Lemma ra_degree : degree BCH_POLY_RA 10.
Proof. unfold degree, BCH_POLY_RA. cbn. lia. Qed.

Lemma gf2_remainder_val ws : (length ws <= 32)%nat -> gf2_remainder BCH_POLY_RA (val ws) = lfsr BCH_POLY_RA 10 0 ws.
Proof.
  intros Hl. set (ws' := replicate (32 - length ws) false ++ ws).
  assert (Hv : val ws' = val ws) by (unfold ws'; by rewrite val_app, val_falses).
  rewrite <- Hv, (gf2_remainder_lfsr _ 10); [|apply ra_degree|unfold ws'; rewrite length_app, length_replicate; lia].
  unfold ws'. by rewrite lfsr_app, lfsr_falses.
Qed.

Lemma val_xorl a b : length a = length b -> val (xorl a b) = Z.lxor (val a) (val b).
Proof.
  intros Hl. assert (H : forall w : list bool, length w = length a -> lfsr 0 (length a) 0 w = val w).
  { intros w Hw. pose proof (val_bound w). rewrite lfsr_small; rewrite ?Hw in *; lia. }
  rewrite <- !H by (unfold xorl; rewrite ?length_zip_with; lia). by apply lfsr_linear.
Qed.

Lemma val_word_flip bits i : (i < 31)%nat -> (31 <= length bits)%nat ->
  val (word (flip bits i) 31) = Z.lxor (val (word bits 31)) (2 ^ (30 - Z.of_nat i)).
Proof.
  intros Hi Hl. rewrite word_flip by done. rewrite val_xorl by (unfold unit_word; by rewrite length_word, length_insert, length_replicate).
  by rewrite val_unit_word by done.
Qed.

(** ** The table *)

Definition loc_of (es : list nat) : Z := fold_left (fun v i => Z.lxor v (2 ^ (30 - Z.of_nat i))) es 0.

Lemma val_word_flips es bits : Forall (fun i => (i < 31)%nat) es -> (31 <= length bits)%nat ->
  val (word (flips es bits) 31) = Z.lxor (val (word bits 31)) (loc_of es).
Proof.
  intros He Hl. induction es as [|i es IH] using rev_ind.
  - cbn [flips fold_left]. unfold loc_of. cbn. by rewrite Z.lxor_0_r.
  - apply Forall_app in He as [He Hi]. apply Forall_cons_1 in Hi as [Hi _].
    unfold flips, loc_of. rewrite !fold_left_app. cbn [fold_left]. fold (flips es bits) (loc_of es).
    rewrite val_word_flip, IH by (rewrite ?length_flips; done). by rewrite Z.lxor_assoc.
Qed.

Definition ra_table : list syn_entry := syn_ra (bch_decoder_init ra_start).
Definition entry_of (s : Z) : syn_entry := nth (Z.to_nat s) ra_table (SynEntry 0 0).

Lemma forN_fill {A} (x : A) n l : (n <= length l)%nat -> forN n (fun i l => <[i := x]> l) l = replicate n x ++ drop n l.
Proof.
  induction n as [|n IH]; intros Hn; [done|]. rewrite forN_S, IH by lia.
  destruct (lookup_lt_is_Some_2 l n ltac:(lia)) as [y Hy]. rewrite (drop_S _ y n Hy).
  rewrite insert_app_r_alt by (rewrite length_replicate; lia). rewrite length_replicate, Nat.sub_diag.
  cbn [list_insert insert]. by rewrite replicate_S_end, <- app_assoc.
Qed.

(** What the table held before does not matter. *)
Lemma bch_decoder_init_table st : length (syn_ra st) = 1024%nat -> bch_decoder_init st = RaState ra_table true.
Proof.
  intros Hl. unfold ra_table, bch_decoder_init. cbn [syn_ra ra_start]. rewrite !forN_fill by (rewrite ?Hl, ?length_replicate; done).
  by rewrite !drop_ge by (rewrite ?Hl, ?length_replicate; done).
Qed.

(** The module's state is fresh or the table is built. *)
Definition ra_ok (st : ra_state) : Prop := length (syn_ra st) = 1024%nat /\ (s_bch_inited st = true -> syn_ra st = ra_table).

Lemma ra_start_ok : ra_ok ra_start.
Proof. split; [reflexivity|intros H; discriminate H]. Qed.

Lemma ra_inited st : ra_ok st ->
  (if s_bch_inited st then st else bch_decoder_init st) = RaState ra_table true.
Proof.
  intros [Hl Ht]. destruct st as [tbl i]. cbn [syn_ra s_bch_inited] in *. destruct i; [by rewrite Ht|]. apply (bch_decoder_init_table (RaState tbl false)), Hl.
Qed.

Lemma ra_table_ok : ra_ok (RaState ra_table true).
Proof. split; [vm_compute; reflexivity|intros _; reflexivity]. Qed.

Definition ra_syns : list (Z * (Z * Z)) :=
  map (fun es => (syn_of BCH_POLY_RA 31 es, (Z.of_nat (length es), loc_of es))) (patterns 2 31).

Definition same_syn (a b : Z * (Z * Z)) : bool := (a.1 =? b.1) && ((a.2.1 =? b.2.1) && (a.2.2 =? b.2.2)).

(** Each filled entry is a pattern with that syndrome, and each pattern fills
    the entry of its syndrome. *)
Lemma ra_table_checked :
  forallb (fun s => (errs (entry_of s) <? 0) ||
    existsb (same_syn (s, (errs (entry_of s), locator (entry_of s)))) ra_syns) (map Z.of_nat (seq 0 1024)) &&
  forallb (fun x => (x.1 =? 0) || ((x.1 <? 1024) && (0 <=? errs (entry_of x.1)))) ra_syns = true.
Proof. vm_compute. reflexivity. Qed.

#[local] Opaque ra_table iridium_bch_ndivide gf2_remainder syn_of.

Lemma ra_entry_pattern s : 0 <= s < 1024 -> 0 <= errs (entry_of s) ->
  exists es, es ∈ patterns 2 31 /\ syn_of BCH_POLY_RA 31 es = s /\ errs (entry_of s) = Z.of_nat (length es) /\
    locator (entry_of s) = loc_of es.
Proof.
  intros Hs He. pose proof ra_table_checked as [H _]%andb_prop. rewrite forallb_forall in H.
  specialize (H s). rewrite (proj2 (Z.ltb_ge _ _) He) in H. cbn [orb] in H.
  pose proof (H ltac:(apply in_map_iff; exists (Z.to_nat s); rewrite in_seq; lia)) as Hx.
  apply existsb_exists in Hx as (x & Hx & E). apply in_map_iff in Hx as (es & <- & Hes). exists es.
  unfold same_syn in E. cbn [fst snd] in E. split; [by apply list_elem_of_In|]. lia.
Qed.

Lemma ra_pattern_entry es : es ∈ patterns 2 31 -> syn_of BCH_POLY_RA 31 es <> 0 ->
  syn_of BCH_POLY_RA 31 es < 1024 /\ 0 <= errs (entry_of (syn_of BCH_POLY_RA 31 es)).
Proof.
  intros Hes Hn. pose proof ra_table_checked as [_ H]%andb_prop. rewrite forallb_forall in H.
  apply list_elem_of_In in Hes.
  assert (Hin : In (syn_of BCH_POLY_RA 31 es, (Z.of_nat (length es), loc_of es)) ra_syns)
    by (apply in_map_iff; by exists es).
  specialize (H _ Hin). cbn [fst] in H. lia.
Qed.

(** ** Words and distances *)

Definition ra_codeword (w : list Z) : Prop := length w = 31%nat /\ is_bits w /\ iridium_bch_ndivide BCH_POLY_RA w 31 = 0.

(** Where two words differ, and how often. *)
Definition diffs (a b : list Z) : list nat := List.filter (fun i => negb (rd a i =? rd b i)) (seq 0 31).
Definition hamming (a b : list Z) : Z := Z.of_nat (length (diffs a b)).

Definition places (es : list nat) : Prop := NoDup es /\ Forall (fun i => (i < 31)%nat) es.

Lemma elem_diffs a b i : i ∈ diffs a b <-> (i < 31)%nat /\ rd a i <> rd b i.
Proof.
  unfold diffs. rewrite list_elem_of_In, filter_In, in_seq, negb_true_iff, Z.eqb_neq. split; intros [? ?]; (split; [lia|done]).
Qed.

Lemma places_diffs a b : places (diffs a b).
Proof.
  split; [apply NoDup_ListNoDup, List.NoDup_filter, seq_NoDup|].
  apply List.Forall_forall. intros i Hi%list_elem_of_In. by apply elem_diffs in Hi as [Hi _].
Qed.

Lemma diffs_sym a b : diffs a b = diffs b a.
Proof. unfold diffs. apply List.filter_ext. intros i. by rewrite Z.eqb_sym. Qed.

Lemma hamming_sym a b : hamming a b = hamming b a.
Proof. unfold hamming. by rewrite diffs_sym. Qed.

Lemma rd_flip_in b j i : (i < length b)%nat -> rd (flip b j) i = if decide (i = j) then Z.lxor (rd b i) 1 else rd b i.
Proof.
  intros Hi. unfold flip. rewrite rd_insert. destruct (decide (i = j)) as [->|Hn]; [by rewrite decide_True|].
  by rewrite decide_False by (intros [-> _]; done).
Qed.

Lemma rd_flips_in es b i : NoDup es -> (i < length b)%nat ->
  rd (flips es b) i = if decide (i ∈ es) then Z.lxor (rd b i) 1 else rd b i.
Proof.
  revert b. induction es as [|j es IH]; intros b Hnd Hi; [by rewrite decide_False by apply not_elem_of_nil|].
  apply list.NoDup_cons in Hnd as [Hj Hnd]. rewrite flips_cons, IH by (rewrite ?length_flip; done). rewrite rd_flip_in by done.
  destruct (decide (i = j)) as [->|Hn].
  - by rewrite decide_False, decide_True by (done || by left).
  - destruct (decide (i ∈ es)).
    + by rewrite decide_True by (by right).
    + by rewrite decide_False by (by intros [?|?]%elem_of_cons).
Qed.

Lemma bit_flips a b : a = 0 \/ a = 1 -> b = 0 \/ b = 1 -> a <> b -> a = Z.lxor b 1.
Proof. intros [->| ->] [->| ->] H; done. Qed.

Lemma flips_bits es b : is_bits b -> is_bits (flips es b).
Proof.
  revert b. induction es as [|j es IH]; intros b Hb; [done|]. rewrite flips_cons. apply IH.
  apply Forall_insert; [done|]. destruct (rd_bits b j Hb) as [->| ->]; [by right|by left].
Qed.

Lemma flips_diffs a b : length a = 31%nat -> length b = 31%nat -> is_bits a -> is_bits b -> flips (diffs a b) b = a.
Proof.
  intros Ha Hb Ba Bb. apply rd_ext; [by rewrite length_flips, Ha|]. intros i Hi. rewrite length_flips, Hb in Hi.
  rewrite rd_flips_in by (rewrite ?Hb; done || apply places_diffs). case_decide as Hd.
  - apply elem_diffs in Hd as [_ Hd]. symmetry. apply bit_flips; [by apply rd_bits|by apply rd_bits|done].
  - destruct (Z.eq_dec (rd a i) (rd b i)) as [E|E]; [done|]. destruct Hd. by apply elem_diffs.
Qed.

Lemma diffs_flips es b : places es -> length b = 31%nat -> is_bits b -> diffs (flips es b) b ≡ₚ es.
Proof.
  intros [Hnd He] Hl Hb. apply NoDup_Permutation; [apply places_diffs|done|]. intros i. rewrite elem_diffs. split.
  - intros [Hi Hd]. rewrite rd_flips_in in Hd by (rewrite ?Hl; done). by case_decide.
  - intros Hi. assert (Hi' : (i < 31)%nat) by (rewrite List.Forall_forall in He; by apply He, list_elem_of_In). split; [done|].
    rewrite rd_flips_in, decide_True by (rewrite ?Hl; done). by destruct (rd_bits b i Hb) as [->| ->].
Qed.

Lemma hamming_flips es b : places es -> length b = 31%nat -> is_bits b -> hamming (flips es b) b = Z.of_nat (length es).
Proof. intros He Hl Hb. unfold hamming. by rewrite (diffs_flips es b). Qed.

(** ** Hard decoding *)

Lemma put_data_word ws out : length ws = 31%nat -> length out = 21%nat -> put_data (val ws) out = map Z.b2z (take 21 ws).
Proof.
  intros Hw Ho. unfold put_data. apply rd_ext.
  - rewrite length_map, length_take, Hw. apply (forN_inv (fun _ l => length l = 21%nat)); [done|].
    intros i l _ H. by rewrite length_insert.
  - assert (H : forall k, (k <= 21)%nat -> forall l, length l = 21%nat ->
      let r := forN k (fun i out => <[(20 - i)%nat := u8 (Z.land (Z.shiftr (Z.shiftr (val ws) 10) (Z.of_nat i)) 1)]> out) l in
      length r = 21%nat /\ forall j, (20 - k < j < 21)%nat \/ (k = 21%nat /\ j = 0%nat) -> rd r j = Z.b2z (nth j ws false)).
    { induction k as [|k IH]; intros Hk l Hl r; [split; [done|lia]|].
      destruct (IH ltac:(lia) l Hl) as [H1 H2]. unfold r. rewrite forN_S. rewrite length_insert. split; [done|].
      intros j Hj. rewrite rd_insert. case_decide as Hd; [|apply H2; lia]. destruct Hd as [<- _].
      rewrite Z.shiftr_shiftr by lia. change (Z.land ?x 1) with (bit x). rewrite bit_odd, <- Z.bit0_odd, Z.shiftr_spec by lia.
      replace (0 + (10 + Z.of_nat k)) with (Z.of_nat (10 + k)) by lia. rewrite val_testbit by lia.
      rewrite Hw. replace (31 - 1 - (10 + k))%nat with (20 - k)%nat by lia. by destruct (nth _ _ _). }
    destruct (H 21%nat ltac:(lia) out Ho) as [H1 H2]. intros j Hj. fold BCH_RA_DATA in H1, H2. cbv zeta in *.
    unfold BCH_RA_DATA in *. rewrite H1 in Hj. rewrite H2 by lia. unfold rd.
    transitivity (Z.b2z (nth j (take 21 ws) false)); [|symmetry; apply (map_nth Z.b2z _ false)].
    by rewrite !nth_lookup, lookup_take_lt by lia.
Qed.

#[local] Opaque patterns.

(** The word the decoder reads. *)
Definition received (block31 : list Z) : list Z := map bit (take 31 block31).

(** [r] is the codeword within two bits of [b], if there is one. *)
Definition ra_nearest (b : list Z) (r : option (list Z)) : Prop :=
  match r with
  | Some w => ra_codeword w /\ hamming w b <= 2
  | None => forall w, ra_codeword w -> 2 < hamming w b
  end.

Lemma map_bit_bits l : is_bits (map bit l).
Proof. apply Forall_map, Forall_true. intros. apply bit_01. Qed.

Lemma received_word block : (31 <= length block)%nat ->
  length (received block) = 31%nat /\ is_bits (received block) /\ word (received block) 31 = word block 31.
Proof.
  intros Hl. unfold received. split; [rewrite length_map, length_take; lia|]. split; [apply map_bit_bits|].
  unfold word. apply map_ext_in. intros i [_ Hi]%in_seq. unfold rd.
  rewrite (nth_indep _ 0 (bit 0)) by (rewrite length_map, length_take; lia). rewrite map_nth, odd_bit.
  by rewrite !nth_lookup, lookup_take_lt by lia.
Qed.

Lemma diffs_pattern w b : (length (diffs w b) <= 2)%nat ->
  exists es, es ∈ patterns 2 31 /\ length es = length (diffs w b) /\ flips (diffs w b) b = flips es b.
Proof.
  intros H. destruct (places_diffs w b) as [Hnd He].
  destruct (flips_pattern 2 31 (diffs w b) b (conj (le_S _ _ (le_n 1)) (le_n 2)) Hnd H He) as (es & Hes & Hl & E & _).
  exists es. split; [exact Hes|]. split; [exact Hl|exact E].
Qed.

(** A word within two bits of [b] is [b] with a pattern of the table. *)
Lemma close_pattern w b : length w = 31%nat -> is_bits w -> length b = 31%nat -> is_bits b -> hamming w b <= 2 ->
  exists es, es ∈ patterns 2 31 /\ b = flips es w /\ w = flips es b /\ Z.of_nat (length es) = hamming w b.
Proof.
  unfold hamming. intros Hw Bw Hb Bb Hh. destruct (diffs_pattern w b) as (es & Hes & Hl & E); [lia|].
  rewrite flips_diffs in E by assumption. exists es. split; [exact Hes|].
  split; [rewrite E at 1; symmetry; apply flips_flips|]. split; [exact E|]. f_equal. exact Hl.
Qed.

Lemma pattern_places es : es ∈ patterns 2 31 -> places es.
Proof.
  intros H. Transparent patterns. unfold patterns in H. Opaque patterns. apply list_elem_of_In in H as [<-|H]; [by split; constructor|]. cbn [Nat.leb] in H.
  apply in_app_iff in H as [H|H]; apply in_map_iff in H.
  - destruct H as (i & <- & [_ Hi]%in_seq). split; [apply NoDup_singleton|by apply Forall_cons_2; [lia|apply Forall_nil_2]].
  - destruct H as ([i j] & <- & H%pairs_spec). split.
    + apply list.NoDup_cons. split; [rewrite list_elem_of_singleton; lia|apply NoDup_singleton].
    + apply Forall_cons_2; [lia|]. by apply Forall_cons_2; [lia|apply Forall_nil_2].
Qed.

Lemma ndivide_pattern w es : ra_codeword w -> places es ->
  iridium_bch_ndivide BCH_POLY_RA (flips es w) 31 = syn_of BCH_POLY_RA 31 es.
Proof.
  intros (Hl & _ & Hw) [_ He]. rewrite (ndivide_flips _ 10) by (apply ra_degree || lia || done). by rewrite Hw, Z.lxor_0_l.
Qed.

(** Two codewords within two bits of one word are one codeword. *)
Lemma ra_unique w w' b : ra_codeword w -> ra_codeword w' -> length b = 31%nat -> is_bits b ->
  hamming w b <= 2 -> hamming w' b <= 2 -> w = w'.
Proof.
  intros Hw Hw' Hb Bb H1 H2.
  destruct (close_pattern w b) as (es & Hp & Eb & Ew & _); [apply Hw|apply Hw|done|done|done|].
  destruct (close_pattern w' b) as (es' & Hp' & Eb' & Ew' & _); [apply Hw'|apply Hw'|done|done|done|].
  assert (es = es') as ->; [|congruence].
  apply (patterns_inj 2 BCH_POLY_RA 31); [vm_compute; reflexivity|done|done|].
  rewrite <- (ndivide_pattern w), <- (ndivide_pattern w') by (done || by apply pattern_places). by rewrite <- Eb, <- Eb'.
Qed.

Lemma pattern_length es : es ∈ patterns 2 31 -> Z.of_nat (length es) <= 2.
Proof.
  intros H. apply list_elem_of_In in H as [<-|H]; [done|]. cbn [Nat.leb] in H.
  apply in_app_iff in H as [H|H]; apply in_map_iff in H; [by destruct H as (i & <- & _)|by destruct H as ([i j] & <- & _)].
Qed.

Lemma hamming_refl b : hamming b b = 0.
Proof. unfold hamming. destruct (diffs b b) as [|i l] eqn:E; [done|]. assert (Hi : i ∈ diffs b b) by (rewrite E; by left). by apply elem_diffs in Hi as [_ []]. Qed.

Lemma take_word w n : length w = 31%nat -> is_bits w -> map Z.b2z (take n (word w 31)) = take n w.
Proof.
  intros Hw Bw. rewrite <- firstn_map. f_equal. apply rd_ext; [by rewrite length_map, length_word|].
  intros i Hi. rewrite length_map, length_word in Hi. unfold rd. rewrite (nth_indep _ 0 (Z.b2z false)) by (rewrite length_map, length_word; done).
  rewrite map_nth. unfold word. rewrite (nth_indep _ false (Z.odd (rd w 0))) by (rewrite length_map, length_seq; done).
  rewrite (map_nth (fun i => Z.odd (rd w i)) (seq 0 31) 0%nat), seq_nth by done. cbn [Nat.add]. fold (rd w i).
  by destruct (rd_bits w i Bw) as [->| ->].
Qed.

Lemma bits_to_uint_val bits n : (n <= 32)%nat -> bits_to_uint bits n = val (word bits n).
Proof.
  intros Hn. rewrite <- bits_to_u32_val by done. unfold bits_to_u32, bits_to_uint.
  by rewrite (proj2 (Nat.ltb_ge _ _)).
Qed.

Lemma decode_block_spec block out st : ra_ok st -> (31 <= length block)%nat -> length out = 21%nat ->
  exists r, ra_nearest (received block) r /\
    bch_decode_block block out st =
    (match r with Some w => (hamming w (received block), take 21 w) | None => (-1, out) end, RaState ra_table true).
Proof.
  intros Hok Hl Ho. unfold bch_decode_block. rewrite ra_inited by done. cbn [syn_ra].
  destruct (received_word block Hl) as (Hb & Bb & Eb). set (b := received block) in *.
  rewrite bits_to_uint_val, <- Eb by lia.
  rewrite gf2_remainder_val by (rewrite length_word; lia).
  rewrite <- (ndivide_lfsr BCH_POLY_RA 10 b 31) by (apply ra_degree || lia). set (s := iridium_bch_ndivide BCH_POLY_RA b 31).
  assert (Hs : 0 <= s < 1024) by (apply (ndivide_bound BCH_POLY_RA 10 b 31); [apply ra_degree|lia]).
  assert (Hout : forall w, length w = 31%nat -> is_bits w -> put_data (val (word w 31)) out = take 21 w).
  { intros w Hw Bw. rewrite put_data_word by (rewrite ?length_word; done). by apply take_word. }
  destruct (Z.eqb_spec s 0) as [E0|E0].
  { exists (Some b). split; [|by rewrite hamming_refl, Hout]. by split; [split_and!|rewrite hamming_refl]. }
  fold (entry_of s). rewrite (proj2 (Z.ltb_lt s 1024)) by lia. cbn [andb].
  destruct (Z.leb_spec 0 (errs (entry_of s))) as [He|He].
  - destruct (ra_entry_pattern s Hs He) as (es & Hes & Es & -> & ->). pose proof (pattern_places es Hes) as [Hnd Hp].
    rewrite <- val_word_flips by (rewrite ?Hb; done || lia). exists (Some (flips es b)).
    assert (Hh : hamming (flips es b) b = Z.of_nat (length es)) by (by apply hamming_flips).
    split; [|rewrite Hout, Hh; [done|by rewrite length_flips|by apply flips_bits]].
    split; [|rewrite Hh; by apply pattern_length in Hes].
    split; [by rewrite length_flips|]. split; [by apply flips_bits|].
    rewrite (ndivide_flips _ 10) by (apply ra_degree || lia || done). fold s. by rewrite Es, Z.lxor_nilpotent.
  - exists None. split; [|done]. intros w (Hw & Bw & Cw). destruct (Z.lt_ge_cases 2 (hamming w b)) as [|Hh]; [done|]. exfalso.
    destruct (close_pattern w b Hw Bw Hb Bb Hh) as (es & Hes & Ebw & _).
    assert (Es : s = syn_of BCH_POLY_RA 31 es).
    { unfold s. rewrite Ebw. exact (ndivide_pattern w es (conj Hw (conj Bw Cw)) (pattern_places es Hes)). }
    destruct (ra_pattern_entry es Hes) as [_ H]; rewrite <- ?Es in *; [done|lia].
Qed.

(** C29: hard decoding finds the codeword within two bits of the word received,
    if there is one: its data bits, and the number of bits that were wrong;
    when there is none it fails and leaves the output alone.  It is the same before and
    after the table is built, and whatever the table held before. *)
Theorem bch_decode_block_nearest block out st : ra_ok st -> (31 <= length block)%nat -> length out = 21%nat ->
  let b := received block in
  (forall w, ra_codeword w -> hamming w b <= 2 -> (bch_decode_block block out st).1 = (hamming w b, take 21 w)) /\
  ((forall w, ra_codeword w -> 2 < hamming w b) -> (bch_decode_block block out st).1 = (-1, out)) /\
  ra_ok (bch_decode_block block out st).2.
Proof.
  intros Hok Hl Ho b. destruct (decode_block_spec block out st Hok Hl Ho) as (r & Hr & ->).
  destruct (received_word block Hl) as (Hb & Bb & _). fold b in Hr, Hb, Bb |- *. unfold ra_nearest in Hr. cbn [fst snd]. split; [|split; [|exact ra_table_ok]].
  - intros w Hw Hh. destruct r as [w'|]; [destruct Hr as [Hw' Hh']|specialize (Hr w Hw); lia].
    by rewrite (ra_unique w w' b Hw Hw' Hb Bb Hh Hh').
  - intros Hn. destruct r as [w'|]; [|done]. destruct Hr as [Hw' Hh']. specialize (Hn w' Hw'). lia.
Qed.

Lemma bch_decode_block_nearest_witness :
  (bch_decode_block (flips [3; 20]%nat (replicate 31 0)) (replicate 21 7) ra_start).1 = (2, replicate 21 0) /\
  (bch_decode_block (flips [3; 20; 27]%nat (replicate 31 0)) (replicate 21 7) ra_start).1 = (-1, replicate 21 7).
Proof.
  destruct (bch_decode_block_nearest (flips [3; 20]%nat (replicate 31 0)) (replicate 21 7) ra_start ra_start_ok
    ltac:(vm_compute; lia) ltac:(reflexivity)) as (H & _).
  split; [|vm_compute; reflexivity].
  apply (H (replicate 31 0)); [split; [reflexivity|split; [apply Forall_replicate; by left|vm_compute; reflexivity]]|vm_compute; intros E; discriminate E].
Defined.
