(* ===== verification/BchSoft.v ===== *)
(** Soft decoding of BCH(31,21)
    (src/common/iridium_decoder/bch_decoder.c, [bch_decode_block_soft]).

    The scan finds the positions of least rank, the re-encoder inverts the data
    extraction, and the trial loop keeps the first codeword of least soft
    distance.  That the first is kept is what makes the returned count exact:
    a pattern that flips a bit the decoder flips back is never the first. *)

From stdpp Require Import sets sorting.
From S2P Require Import Prelude Gf2 Bits IridiumBch IdaChase BchRa.
#[local] Open Scope Z_scope.

#[local] Opaque ra_table iridium_bch_ndivide gf2_remainder syn_of patterns bch_decode_block.

(** ** The least reliable positions *)

Definition pad (K : nat) (xs : list nat) : list Z := take K (map Z.of_nat xs ++ replicate K (-1)).

Lemma take_take_app {A} n (a r : list A) : take n (take n a ++ r) = take n (a ++ r).
Proof. rewrite !take_app, take_take, Nat.min_id, length_take. do 2 f_equal. lia. Qed.

(** Where the scan stops. *)
Definition slot_pos (conf : list Z) (v : Z) (xs : list nat) : nat :=
  match lcb_slot conf v (map Z.of_nat xs) with Some p => p | None => length xs end.

Lemma slot_pos_cons conf v x xs :
  slot_pos conf v (x :: xs) = if v <? rd conf x then 0%nat else S (slot_pos conf v xs).
Proof.
  unfold slot_pos. cbn [map lcb_slot]. rewrite (proj2 (Z.ltb_ge _ 0)) by lia. rewrite Nat2Z.id. cbn [orb].
  destruct (v <? rd conf x); [done|]. by destruct (lcb_slot _ _ _).
Qed.

Lemma lcb_slot_pad conf v K xs : (length xs <= K)%nat ->
  lcb_slot conf v (pad K xs) = if (slot_pos conf v xs <? K)%nat then Some (slot_pos conf v xs) else None.
Proof.
  unfold pad. revert K. induction xs as [|x xs IH]; intros K Hl.
  - destruct K; [done|]. done.
  - cbn [length] in Hl. destruct K as [|K]; [lia|]. cbn [map app take lcb_slot].
    rewrite (proj2 (Z.ltb_ge _ 0)), Nat2Z.id, slot_pos_cons by lia. cbn [orb].
    destruct (v <? rd conf x); [done|].
    assert (E : take K (map Z.of_nat xs ++ replicate (S K) (-1)) = take K (map Z.of_nat xs ++ replicate K (-1))).
    { rewrite !take_app, !take_replicate. do 2 f_equal. lia. }
    rewrite E, IH by lia. by destruct (Nat.ltb_spec (slot_pos conf v xs) K), (Nat.ltb_spec (S (slot_pos conf v xs)) (S K)); try lia.
Qed.

Lemma slot_pos_split conf k xs : weaker_sorted conf xs -> (forall x, x ∈ xs -> (x < k)%nat) ->
  let p := slot_pos conf (rd conf k) xs in
  (p <= length xs)%nat /\ (forall x, x ∈ take p xs -> weaker conf x k = true) /\
  (forall x, x ∈ drop p xs -> weaker conf k x = true).
Proof.
  induction xs as [|x xs IH]; intros Hs Hlt p; unfold p.
  - split; [done|]. split; intros y Hy; [rewrite take_nil in Hy|rewrite drop_nil in Hy]; by apply not_elem_of_nil in Hy.
  - rewrite slot_pos_cons. apply StronglySorted_inv in Hs as [Hs Hx]. rewrite List.Forall_forall in Hx.
    destruct (Z.ltb_spec (rd conf k) (rd conf x)) as [H|H].
    + split; [lia|]. cbn [take drop]. split; [intros y Hy; by apply not_elem_of_nil in Hy|].
      intros y [->|Hy%list_elem_of_In]%elem_of_cons; [apply weaker_spec; by left|].
      apply (weaker_trans conf k x y); [apply weaker_spec; by left|by apply Hx].
    + destruct IH as (H1 & H2 & H3); [done|intros y Hy; apply Hlt; by right|]. cbn [take drop length].
      split; [lia|]. split; [|done]. intros y [->|Hy]%elem_of_cons; [|by apply H2].
      assert (x < k)%nat by (apply Hlt; by left). apply weaker_spec. lia.
Qed.

Lemma lcb_insert_inv conf K k xs : (1 <= K)%nat -> lcb_inv conf K k xs ->
  exists xs', lcb_insert conf K k (pad K xs) = pad K xs' /\ lcb_inv conf K (S k) xs'.
Proof.
  intros HK Hinv. pose proof Hinv as (Hs & Hl & Hlt & Hout).
  destruct (slot_pos_split conf k xs Hs Hlt) as (Hp & Hbefore & Hafter).
  unfold lcb_insert. rewrite lcb_slot_pad by lia. set (p := slot_pos conf (rd conf k) xs) in *.
  destruct (Nat.ltb_spec p K) as [HpK|HpK].
  - exists (take K (take p xs ++ k :: drop p xs)). split; [|by apply lcb_inv_insert].
    assert (HL : length (pad K xs) = K) by (unfold pad; rewrite length_take, length_app, length_replicate; lia).
    transitivity (take (S (K - 1)) (<[p := Z.of_nat k]> (shift_up 0 (pad K xs) p (K - 1)))).
    { symmetry. apply take_ge. rewrite length_insert, length_shift_up, HL. lia. }
    rewrite insert_shift_up by lia. unfold pad. rewrite <- firstn_map, take_take_app, map_app. cbn [map].
    rewrite <- app_assoc. cbn [app]. rewrite take_take, Nat.min_l by lia.
    rewrite take_app_le by (rewrite length_map; lia).
    rewrite (take_app_ge (map Z.of_nat (take p xs))) by (rewrite length_map, length_take; lia).
    rewrite length_map, length_take, (Nat.min_l p), firstn_map by lia. f_equal.
    replace (K - p)%nat with (S (K - 1 - p)) by lia. cbn [take]. f_equal.
    rewrite skipn_firstn_comm, take_take, Nat.min_l by lia. rewrite skipn_app, skipn_map. do 2 f_equal.
    rewrite length_map. by replace (p - length xs)%nat with 0%nat by lia.
  - exists xs. split; [done|]. assert (Ep : p = length xs) by lia. split_and!; [done|lia|intros x Hx%Hlt; lia|].
    intros j Hj Hnot. destruct (decide (j = k)) as [->|Hne]; [|apply Hout; [lia|done]].
    split; [lia|]. intros x Hx. apply Hbefore. rewrite Ep. by rewrite take_ge by lia.
Qed.

(** The scan: the [K] positions of least rank. *)
Lemma lcb_scan_spec conf K : (K <= 6)%nat ->
  exists xs, map Z.to_nat (lcb_scan conf K) = xs /\ length xs = K /\ NoDup xs /\
    forall k, k ∈ xs <-> (k < 31)%nat /\ (rank conf k < K)%nat.
Proof.
  intros HK. destruct K as [|K0].
  { exists []. unfold lcb_scan. assert (E : forall n, forN n (fun i => lcb_insert conf 0 i) (replicate 0 (-1)) = []).
    { induction n as [|n IH]; [done|]. by rewrite forN_S, IH. }
    rewrite E. split; [reflexivity|]. split; [reflexivity|]. split; [constructor|]. intros k. split; [intros H; by apply not_elem_of_nil in H|lia]. }
  set (K := S K0) in *. assert (HK1 : (1 <= K)%nat) by (unfold K; lia).
  assert (H : forall n, exists xs, forN n (fun i => lcb_insert conf K i) (replicate K (-1)) = pad K xs /\ lcb_inv conf K n xs).
  { induction n as [|n (xs & E & IH)].
    - exists []. split; [unfold pad; cbn [map app]; rewrite take_ge by (rewrite length_replicate; lia); done|].
      split_and!; [constructor|done|intros x Hx; by apply not_elem_of_nil in Hx|intros; lia].
    - rewrite forN_S, E. by apply lcb_insert_inv. }
  destruct (H 31%nat) as (xs & E & Hinv). exists xs. pose proof Hinv as (_ & Hlen & _).
  apply (lcb_inv_rank conf K xs) in Hinv as [Hnd Hin]. unfold IDA_DECODE_CW_BITS in Hin. rewrite Nat.min_r in Hlen, Hin by lia.
  unfold lcb_scan. rewrite E. unfold pad. rewrite take_app_le by (rewrite length_map; lia).
  rewrite take_ge by (rewrite length_map; lia). rewrite map_map. split_and!; [|done|done|done].
  transitivity (map (fun i : nat => i) xs); [apply map_ext; apply Nat2Z.id|apply map_id].
Qed.

(** ** Re-encoding *)

Lemma map_bit_val ws n : length ws = n -> 
  map (fun i => u8 (Z.land (Z.shiftr (val ws) (Z.of_nat n - 1 - Z.of_nat i)) 1)) (seq 0 n) = map Z.b2z ws.
Proof.
  intros Hl. apply rd_ext; [by rewrite !length_map, length_seq|]. intros i Hi. rewrite length_map, length_seq in Hi. unfold rd.
  rewrite (nth_indep (map Z.b2z ws) 0 (Z.b2z false)) by (rewrite length_map; lia). rewrite map_nth.
  set (f := fun i : nat => _). rewrite (nth_indep _ 0 (f 0%nat)) by (rewrite length_map, length_seq; done).
  rewrite (map_nth f (seq 0 n) 0%nat), seq_nth by done. cbn [Nat.add]. unfold f. change (Z.land ?x 1) with (bit x).
  rewrite bit_odd, <- Z.bit0_odd, Z.shiftr_spec by lia.
  replace (0 + (Z.of_nat n - 1 - Z.of_nat i)) with (Z.of_nat (n - 1 - i)) by lia.
  rewrite val_testbit by lia. replace (length ws - 1 - (n - 1 - i))%nat with i by lia. by destruct (nth i ws false).
Qed.

(** A codeword is its data followed by their remainder. *)
Lemma ra_encode_codeword w : ra_codeword w -> ra_encode (take 21 w) = w.
Proof.
  intros (Hw & Bw & Cw). set (ws := word w 31). assert (Hls : length ws = 31%nat) by apply length_word.
  set (a := take 21 ws). set (c := drop 21 ws).
  assert (Ha : length a = 21%nat) by (unfold a; rewrite length_take; lia).
  assert (Hc : length c = 10%nat) by (unfold c; rewrite length_drop; lia).
  assert (Ed : bits_to_uint (take 21 w) BCH_RA_DATA = val a).
  { rewrite bits_to_uint_val by (unfold BCH_RA_DATA; lia). f_equal. unfold a, ws, word, BCH_RA_DATA. rewrite firstn_map.
    change (take 21 (seq 0 31)) with (seq 0 21). apply map_ext_in. intros i [_ Hi]%in_seq. unfold rd. by rewrite !nth_lookup, lookup_take_lt by lia. }
  assert (Ex : xorl (a ++ replicate 10 false) (replicate 21 false ++ c) = ws).
  { unfold xorl. rewrite zip_with_app by (by rewrite length_replicate). fold (xorl a (replicate 21 false)) (xorl (replicate 10 false) c).
    rewrite xorl_falses_r, xorl_falses_l by done. apply take_drop. }
  assert (Ep : gf2_remainder BCH_POLY_RA (val (a ++ replicate 10 false)) = val c).
  { rewrite gf2_remainder_val by (rewrite length_app, length_replicate; lia).
    rewrite (ndivide_lfsr _ 10) in Cw by (apply ra_degree || lia). fold ws in Cw. rewrite <- Ex in Cw.
    rewrite lfsr_linear in Cw by (rewrite !length_app, !length_replicate; lia). apply Z.lxor_eq in Cw. rewrite Cw.
    rewrite lfsr_app, lfsr_falses. pose proof (val_bound c) as Hb. rewrite Hc in Hb. rewrite lfsr_small; lia. }
  assert (Es : u32 (Z.shiftl (val a) 10) = val (a ++ replicate 10 false)).
  { rewrite val_app, val_falses, length_replicate, Z.add_0_r, Z.shiftl_mul_pow2 by lia. apply u32_small.
    pose proof (val_bound a) as Hb. rewrite Ha in Hb. lia. }
  assert (El : Z.lor (val (a ++ replicate 10 false)) (val c) = val ws).
  { assert (Ec : val c = val (replicate 21 false ++ c)) by (by rewrite val_app, val_falses).
    rewrite <- Ex, val_xorl, <- Ec by (rewrite !length_app, !length_replicate; lia). symmetry. apply Z.lxor_lor.
    rewrite val_app, val_falses, length_replicate, Z.add_0_r. rewrite <- Z.shiftl_mul_pow2 by lia.
    apply Z.bits_inj'. intros i Hi. rewrite Z.land_spec, Z.shiftl_spec, Z.testbit_0_l by done.
    destruct (Z.lt_ge_cases i (Z.of_nat 10)); [by rewrite Z.testbit_neg_r by lia|].
    pose proof (val_bound c) as Hb. rewrite Hc in Hb. by rewrite (testbit_high (Z.of_nat 10) (val c)), andb_false_r by lia. }
  unfold ra_encode. rewrite Ed, Es, Ep, El.
  transitivity (map Z.b2z ws); [|transitivity (map Z.b2z (take 31 ws)); [by rewrite take_ge by lia|unfold ws; rewrite take_word by done; apply take_ge; lia]].
  rewrite <- (map_bit_val ws 31 Hls). apply map_ext. intros i. reflexivity.
Qed.

(** ** Flip patterns *)

Lemma popcount_selected xs p : (length xs <= 32)%nat -> (p < 2 ^ length xs)%nat ->
  popcount (Z.of_nat p) = Z.of_nat (length (selected xs p)).
Proof.
  intros Hl Hp.
  assert (H1 : forall k, (k <= length xs)%nat ->
    forN k (fun i n => n + Z.b2z (Z.testbit (Z.of_nat p) (Z.of_nat i))) 0 = Z.of_nat (length (selected (take k xs) p))).
  { induction k as [|k IH]; intros Hk; [done|]. destruct (lookup_lt_is_Some_2 xs k ltac:(lia)) as [x Hx].
    rewrite forN_S, IH by lia. rewrite (take_S_r _ _ x Hx), selected_snoc, length_take, Nat.min_l by lia.
    unfold pattern_has. destruct (Z.testbit _ _); [rewrite length_app; cbn [length Z.b2z]; lia|cbn [Z.b2z]; lia]. }
  assert (H2 : forall k, forN (length xs + k) (fun i n => n + Z.b2z (Z.testbit (Z.of_nat p) (Z.of_nat i))) 0 =
    Z.of_nat (length (selected xs p))).
  { induction k as [|k IH]; [rewrite Nat.add_0_r, H1 by done; by rewrite take_ge|].
    rewrite Nat.add_succ_r, forN_S, IH. rewrite (testbit_high (Z.of_nat (length xs))); [cbn; lia| |lia].
    rewrite <- Nat2Z.inj_pow with (n := 2%nat). lia. }
  unfold popcount. specialize (H2 (32 - length xs)%nat). by replace (length xs + (32 - length xs))%nat with 32%nat in H2 by lia.
Qed.

(** Dropping positions from a pattern makes its number smaller. *)
Lemma selected_filter xs f p : (p < 2 ^ length xs)%nat ->
  exists p', (p' <= p)%nat /\ selected xs p' = List.filter f (selected xs p).
Proof.
  revert p. induction xs as [|x xs IH] using rev_ind; intros p Hp; [by exists p|].
  rewrite length_app, Nat.add_1_r, Nat.pow_succ_r' in Hp. set (n := length xs) in *.
  assert (Hz : Z.of_nat (2 ^ n) = 2 ^ Z.of_nat n) by apply Nat2Z.inj_pow.
  assert (Hhi : forall q, (q < 2 ^ n)%nat -> pattern_has q n = false)
    by (intros q Hq; apply (testbit_high (Z.of_nat n)); lia).
  assert (Htop : forall q, (q < 2 ^ n)%nat -> pattern_has (q + 2 ^ n) n = true).
  { intros q Hq. apply testbit_top. rewrite Z.pow_add_r by lia. lia. }
  assert (Hlow : forall q, selected xs (q + 2 ^ n) = selected xs q).
  { intros q. apply selected_low. intros j Hj. fold n in Hj. unfold pattern_has. rewrite Nat2Z.inj_add, Hz.
    rewrite <- (Z.mod_pow2_bits_low _ (Z.of_nat n)) by lia. rewrite <- (Z.mod_pow2_bits_low (Z.of_nat q) (Z.of_nat n)) by lia.
    rewrite <- (Z.mul_1_l (2 ^ Z.of_nat n)) at 1. by rewrite Z.mod_add by lia. }
  destruct (Nat.lt_ge_cases p (2 ^ n)) as [H|H].
  - destruct (IH p H) as (p' & Hle & E). exists p'. split; [done|]. rewrite !selected_snoc. fold n. by rewrite !Hhi by lia.
  - destruct (IH (p - 2 ^ n)%nat ltac:(lia)) as (p' & Hle & E).
    replace p with (p - 2 ^ n + 2 ^ n)%nat by lia. rewrite selected_snoc. fold n. rewrite Htop, Hlow, List.filter_app by lia.
    cbn [List.filter]. destruct (f x).
    + exists (p' + 2 ^ n)%nat. split; [lia|]. rewrite selected_snoc. fold n. by rewrite Htop, Hlow, E by lia.
    + exists p'. split; [lia|]. rewrite selected_snoc. fold n. by rewrite Hhi, E, app_nil_r by lia.
Qed.

(** ** Words within reach *)

(** How many of the bits that differ are not among the [K] least reliable. *)
Definition beyond (conf hard : list Z) (K : nat) (w : list Z) : nat :=
  length (List.filter (fun i => negb (rank conf i <? K)%nat) (diffs w hard)).

(** The codewords the decoder looks at: at most two bits away besides any
    number of the [K] least reliable ones. *)
Definition ra_reach (conf hard : list Z) (K : nat) (w : list Z) : Prop := ra_codeword w /\ (beyond conf hard K w <= 2)%nat.

Lemma filter_sublist {A} (f : A -> bool) l : List.filter f l `sublist_of` l.
Proof. induction l as [|x l IH]; [constructor|]. cbn. by destruct (f x); constructor. Qed.

Lemma elem_filter_in {A} (f : A -> bool) l x : x ∈ List.filter f l <-> x ∈ l /\ f x = true.
Proof. by rewrite !list_elem_of_In, filter_In. Qed.

Lemma incl_length (a b : list nat) : NoDup a -> (forall i, i ∈ a -> i ∈ b) -> (length a <= length b)%nat.
Proof.
  intros Ha H. apply NoDup_incl_length; [by apply NoDup_ListNoDup|]. intros i Hi. by apply list_elem_of_In, H, list_elem_of_In.
Qed.

Lemma elem_diffs_flips w hard es i : is_bits w -> is_bits hard -> length hard = 31%nat -> places es ->
  i ∈ diffs w (flips es hard) <-> (i < 31)%nat /\ ((i ∈ diffs w hard /\ i ∉ es) \/ (i ∉ diffs w hard /\ i ∈ es)).
Proof.
  intros Bw Bh Hh [Hnd He]. rewrite !elem_diffs. split.
  - intros [Hi Hd]. split; [done|]. rewrite rd_flips_in in Hd by (rewrite ?Hh; done).
    destruct (decide (i ∈ es)) as [Hin|Hin]; [right|by left]. split; [|done]. intros [_ Hn]. apply Hd, bit_flips; [by apply rd_bits|by apply rd_bits|done].
  - intros [Hi H]. split; [done|]. rewrite rd_flips_in by (rewrite ?Hh; done).
    destruct H as [[[_ Hn] Hin]|[Hn Hin]]; [by rewrite decide_False|]. rewrite decide_True by done.
    assert (E : rd w i = rd hard i) by (destruct (Z.eq_dec (rd w i) (rd hard i)); [done|by destruct Hn]).
    rewrite E. by destruct (rd_bits hard i Bh) as [->| ->].
Qed.

Lemma hamming_le_2 a b : hamming a b <= 2 <-> (length (diffs a b) <= 2)%nat.
Proof. unfold hamming. lia. Qed.

Lemma hamming_mono a b c d : (length (diffs a b) <= length (diffs c d))%nat -> hamming a b <= hamming c d.
Proof. unfold hamming. lia. Qed.

Lemma hamming_nonneg a b : 0 <= hamming a b.
Proof. unfold hamming. lia. Qed.

(** ** The trials *)

Section trials.
Context (hard conf : list Z) (K : nat) (xs : list nat).
Hypothesis Hhard : length hard = 31%nat /\ is_bits hard.
Hypothesis Hxs : length xs = K /\ NoDup xs /\ forall k, k ∈ xs <-> (k < 31)%nat /\ (rank conf k < K)%nat.

Notation F p := (flips (selected xs p) hard).
Notation sdist w := (soft_distance w hard conf).

Lemma selected_places p : places (selected xs p).
Proof.
  destruct Hxs as (_ & Hnd & Hin). pose proof (selected_sublist xs p) as Hs. split; [by eapply sublist_NoDup|].
  apply List.Forall_forall. intros i Hi%list_elem_of_In. pose proof (elem_of_sublist _ _ _ Hi Hs) as Hx. by apply Hin in Hx as [Hx _].
Qed.

Lemma F_word p : length (F p) = 31%nat /\ is_bits (F p).
Proof. split; [rewrite length_flips; apply Hhard|by apply flips_bits, Hhard]. Qed.

Lemma elem_diffs_F w p i : is_bits w ->
  i ∈ diffs w (F p) <-> (i < 31)%nat /\ ((i ∈ diffs w hard /\ i ∉ selected xs p) \/ (i ∉ diffs w hard /\ i ∈ selected xs p)).
Proof. intros Bw. apply elem_diffs_flips; [done|apply Hhard|apply Hhard|apply selected_places]. Qed.

Lemma near_reach p w : ra_codeword w -> hamming w (F p) <= 2 -> ra_reach conf hard K w.
Proof.
  intros Hw Hh. split; [done|]. apply hamming_le_2 in Hh. etransitivity; [|exact Hh].
  apply incl_length; [apply NoDup_ListNoDup, List.NoDup_filter, NoDup_ListNoDup, places_diffs|].
  intros i [Hi Hr]%elem_filter_in. apply elem_diffs_F; [apply Hw|]. pose proof (proj1 (elem_diffs _ _ _) Hi) as [Hlt _].
  split; [done|]. left. split; [done|]. intros Hs. pose proof (elem_of_sublist _ _ _ Hs (selected_sublist xs p)) as Hx.
  apply Hxs in Hx as [_ Hx]. apply negb_true_iff, Nat.ltb_ge in Hr. lia.
Qed.

Lemma reach_near w : ra_reach conf hard K w -> exists p, (p < 2 ^ K)%nat /\ hamming w (F p) <= 2.
Proof.
  intros [Hw Hb]. set (es := List.filter (fun i => bool_decide (i ∈ diffs w hard)) xs).
  destruct (selected_all xs es (filter_sublist _ _)) as (p & Hp & E). destruct Hxs as (Hl & Hnd & Hin).
  exists p. rewrite Hl in Hp. split; [done|]. apply hamming_le_2.
  etransitivity; [|exact Hb]. apply incl_length; [apply places_diffs|]. intros i Hi.
  apply elem_diffs_F in Hi as [Hlt Hi]; [|apply Hw]. rewrite E in Hi. unfold es in Hi. rewrite elem_filter_in, bool_decide_eq_true in Hi.
  apply elem_filter_in. destruct Hi as [[Hi Hn]|[Hn [_ Hi]]]; [|done]. split; [done|].
  apply negb_true_iff, Nat.ltb_ge. destruct (Nat.lt_ge_cases (rank conf i) K) as [H|H]; [|done]. destruct Hn. split; [by apply Hin|done].
Qed.

(** A pattern no flip of which is undone counts exactly. *)
Lemma exact_count w p : ra_codeword w -> (forall i, i ∈ selected xs p -> i ∈ diffs w hard) ->
  hamming w (F p) + Z.of_nat (length (selected xs p)) = hamming w hard.
Proof.
  intros Hw Hs. unfold hamming. rewrite <- Nat2Z.inj_add, <- length_app. f_equal. apply Permutation_length, NoDup_Permutation.
  - apply list.NoDup_app. split_and!; [apply places_diffs| |apply selected_places].
    intros i Hi Hin. apply elem_diffs_F in Hi as [_ [[_ ?]|[Hn _]]]; [done|by apply Hn, Hs|apply Hw].
  - apply places_diffs.
  - intros i. rewrite elem_of_app, elem_diffs_F by apply Hw. split; [intros [(_ & [[H _]|[_ H]])|H]; auto|].
    intros H. pose proof (proj1 (elem_diffs _ _ _) H) as [Hlt _]. destruct (decide (i ∈ selected xs p)); [by right|left]. auto.
Qed.

(** Otherwise a smaller pattern reaches the same codeword. *)
Lemma smaller_pattern w p : ra_codeword w -> (p < 2 ^ K)%nat -> hamming w (F p) <= 2 ->
  (forall i, i ∈ selected xs p -> i ∈ diffs w hard) \/ exists p', (p' < p)%nat /\ hamming w (F p') <= 2.
Proof.
  intros Hw Hp Hh. destruct Hxs as (Hl & _). rewrite <- Hl in Hp.
  destruct (selected_filter xs (fun i => bool_decide (i ∈ diffs w hard)) p Hp) as (p' & Hle & E).
  assert (Hf : forall i, i ∈ selected xs p' <-> i ∈ selected xs p /\ i ∈ diffs w hard)
    by (intros i; by rewrite E, elem_filter_in, bool_decide_eq_true).
  destruct (decide (p' = p)) as [->|Hne]; [left; intros i Hi; by apply Hf in Hi as [_ Hi]|].
  right. exists p'. split; [lia|]. etransitivity; [|exact Hh]. apply hamming_mono, incl_length; [apply places_diffs|].
  intros i Hi. apply elem_diffs_F in Hi as [Hlt Hi]; [|apply Hw]. apply elem_diffs_F; [apply Hw|]. split; [done|].
  destruct Hi as [[Hi Hn]|[Hn Hi]]; [left|by apply Hf in Hi as [_ Hi]]. split; [done|]. intros Hs. by apply Hn, Hf.
Qed.

Hypothesis Hconf : length conf = 31%nat /\ Forall (fun c => 0 <= c <= 32767) conf.
Hypothesis HK : (K <= 6)%nat.

Lemma soft_distance_range w : 0 <= sdist w <= 31 * 32767.
Proof.
  unfold soft_distance. apply (forN_inv (fun n d => 0 <= d <= Z.of_nat n * 32767)); [lia|].
  intros i d Hi Hd. destruct Hconf as [Hl Hc]. rewrite List.Forall_forall in Hc.
  assert (0 <= rd conf i <= 32767) by (apply Hc; unfold rd; apply nth_In; lia). destruct (negb _); lia.
Qed.

(** After [n] trials: nothing within reach of them, or the first of the
    nearest. *)
Definition trials_done (n : nat) (s : ra_best * ra_state) : Prop :=
  ra_ok s.2 /\ length (trial_data s.1) = 21%nat /\
  ((best_errs s.1 = -1 /\ best_dist s.1 = INT32_MAX /\
    forall p w, (p < n)%nat -> ra_codeword w -> 2 < hamming w (F p)) \/
   exists p w, (p < n)%nat /\ ra_codeword w /\ hamming w (F p) <= 2 /\ best_dist s.1 = sdist w /\
     best_errs s.1 = hamming w (F p) + popcount (Z.of_nat p) /\ best_out s.1 = take 21 w /\
     forall p' w', (p' < n)%nat -> ra_codeword w' -> hamming w' (F p') <= 2 ->
       sdist w <= sdist w' /\ ((p' < p)%nat -> sdist w < sdist w')).

Lemma received_F p : received (F p) = F p.
Proof. destruct (F_word p) as [Hl Hb]. unfold received. rewrite take_ge by lia. by apply is_bits_map_bit. Qed.

Lemma trial_step lcb n s : map Z.to_nat lcb = xs -> trials_done n s -> trials_done (S n) (ra_trial hard conf lcb K n s).
Proof.
  intros El (Hok & Htd & Hs). destruct s as [b st]. cbn [fst snd] in *. unfold ra_trial. rewrite El.
  destruct Hxs as (Hlx & _). rewrite trial_word_flips by lia. rewrite (take_ge xs) by lia. destruct (F_word n) as [HlF HbF].
  destruct (decode_block_spec (F n) (trial_data b) st Hok ltac:(lia) Htd) as (r & Hr & E). rewrite E, received_F in *.
  destruct r as [w|]; unfold ra_nearest in Hr.
  - destruct Hr as [Hw Hh]. pose proof (hamming_nonneg w (F n)) as H0. rewrite (proj2 (Z.ltb_ge _ _) H0), ra_encode_codeword by done.
    assert (Hlw : length (take 21 w) = 21%nat) by (destruct Hw as [Hlw _]; rewrite length_take; lia).
    assert (Hu : forall w', ra_codeword w' -> hamming w' (F n) <= 2 -> w' = w) by (intros w' Hw' Hh'; by apply (ra_unique w' w (F n))).
    destruct Hs as [(H1 & H2 & H3)|(p & v & Hp & Hv & Hhv & Ed & Ee & Eo & Hmin)].
    + rewrite H2. pose proof (soft_distance_range w) as Hd. rewrite (proj2 (Z.ltb_lt (sdist w) INT32_MAX)) by (unfold INT32_MAX; lia).
      split; [exact ra_table_ok|]. split; [exact Hlw|]. right. exists n, w. cbn [fst best_dist best_errs best_out].
      split_and!; try done; [lia|]. intros p' w' Hp' Hw' Hh'. destruct (decide (p' = n)) as [->|Hne].
      * rewrite (Hu w' Hw' Hh'). lia.
      * specialize (H3 p' w' ltac:(lia) Hw'). lia.
    + rewrite Ed. destruct (Z.ltb_spec (sdist w) (sdist v)) as [Hlt|Hge].
      * split; [exact ra_table_ok|]. split; [exact Hlw|]. right. exists n, w. cbn [fst best_dist best_errs best_out].
        split_and!; try done; [lia|]. intros p' w' Hp' Hw' Hh'. destruct (decide (p' = n)) as [->|Hne].
        -- rewrite (Hu w' Hw' Hh'). lia.
        -- destruct (Hmin p' w' ltac:(lia) Hw' Hh') as [Hm _]. lia.
      * split; [exact ra_table_ok|]. split; [exact Hlw|]. right. exists p, v. cbn [fst best_dist best_errs best_out].
        split_and!; try done; [lia|]. intros p' w' Hp' Hw' Hh'. destruct (decide (p' = n)) as [->|Hne].
        -- rewrite (Hu w' Hw' Hh'). lia.
        -- apply Hmin; [lia|done|done].
  - rewrite (proj2 (Z.ltb_lt (-1) 0)) by lia. split; [exact ra_table_ok|]. split; [exact Htd|]. cbn [fst best_dist best_errs best_out].
    destruct Hs as [(H1 & H2 & H3)|(p & v & Hp & Hv & Hhv & Ed & Ee & Eo & Hmin)]; [left|right].
    + split_and!; try done. intros p w Hp Hw. destruct (decide (p = n)) as [->|Hne]; [by apply Hr|apply H3; [lia|done]].
    + exists p, v. split_and!; try done; [lia|]. intros p' w' Hp' Hw' Hh'. destruct (decide (p' = n)) as [->|Hne].
      * specialize (Hr w' Hw'). lia.
      * apply Hmin; [lia|done|done].
Qed.
End trials.

(** ** Properties *)

Lemma soft_words soft : (31 <= length soft)%nat -> Forall (fun s => -32768 < s < 32768) soft ->
  (length (map soft_hard (take 31 soft)) = 31%nat /\ is_bits (map soft_hard (take 31 soft))) /\
  (length (map soft_mag (take 31 soft)) = 31%nat /\ Forall (fun c => 0 <= c <= 32767) (map soft_mag (take 31 soft))).
Proof.
  intros Hl Hs. rewrite !length_map, length_take. split; (split; [lia|]); apply Forall_map.
  - apply Forall_true. intros s. unfold soft_hard. destruct (0 <=? s); auto.
  - apply Forall_take. eapply Forall_impl; [|exact Hs]. intros s Hr. cbv beta in Hr. unfold soft_mag, sN.
    change (2 ^ (16 - 1)) with 32768. change (2 ^ 16) with 65536. destruct (Z.ltb_spec s 0); [|lia]. rewrite Z.mod_small; lia.
Qed.

Lemma trials_start hard conf xs st : ra_ok st ->
  trials_done hard conf xs 0 (RaBest INT32_MAX (-1) (replicate 21 0) (replicate 21 0), st).
Proof. intros Hok. split; [exact Hok|]. split; [reflexivity|]. left. split; [reflexivity|]. split; [reflexivity|]. lia. Qed.

(** What soft decoding returns: [None] for a failure. *)
Definition soft_choice (conf hard : list Z) (K : nat) (r : option (list Z)) : Prop :=
  match r with
  | Some w => ra_reach conf hard K w /\ forall w', ra_reach conf hard K w' -> soft_distance w hard conf <= soft_distance w' hard conf
  | None => forall w, ~ ra_reach conf hard K w
  end.

Lemma decode_soft_spec soft out K st :
  ra_ok st -> (31 <= length soft)%nat -> Forall (fun s => -32768 < s < 32768) soft ->
  let hard := map soft_hard (take 31 soft) in
  let conf := map soft_mag (take 31 soft) in
  let r := bch_decode_block_soft soft out K st in
  ra_ok r.2 /\ exists w, soft_choice conf hard (Z.to_nat (Z.max 0 (Z.min 6 K))) w /\
    r.1 = match w with Some w => (hamming w hard, take 21 w) | None => (-1, out) end.
Proof.
  intros Hok Hl Hs hard conf. destruct (soft_words soft Hl Hs) as [Hh Hc]. fold hard in Hh. fold conf in Hc.
  unfold bch_decode_block_soft. fold hard conf. set (k := Z.to_nat (if 6 <? _ then _ else _)).
  assert (Ek : Z.to_nat (Z.max 0 (Z.min 6 K)) = k)
    by (unfold k; destruct (Z.ltb_spec K 0); [rewrite (proj2 (Z.ltb_ge 6 0)) by lia|destruct (Z.ltb_spec 6 K)]; lia).
  rewrite Ek. assert (Hk : (k <= 6)%nat) by lia. clearbody k.
  destruct (lcb_scan_spec conf k Hk) as (xs & Ex & Hxs).
  assert (Hd : trials_done hard conf xs (2 ^ k) (forN (2 ^ k) (ra_trial hard conf (lcb_scan conf k) k)
    (RaBest INT32_MAX (-1) (replicate 21 0) (replicate 21 0), st))).
  { apply (forN_inv (trials_done hard conf xs)); [by apply trials_start|]. intros i s _ H. by apply trial_step. }
  destruct (forN (2 ^ k) _ _) as [b st']. destruct Hd as (Hok' & _ & H). cbn [fst snd] in Hok', H.
  destruct H as [(He & _ & Hnone)|(p & w & Hp & Hw & Hh2 & Ed & Ee & Eo & Hmin)].
  - rewrite He, (proj2 (Z.ltb_lt (-1) 0)) by lia. cbn [fst snd]. split; [done|]. exists None. split; [|done].
    intros w Hw. destruct (reach_near hard conf k xs Hh Hxs w Hw) as (p & Hp & Hn). destruct Hw as [Hw _].
    specialize (Hnone p w Hp Hw). lia.
  - destruct (smaller_pattern hard conf k xs Hh Hxs w p Hw Hp Hh2) as [Hsub|(p' & Hp' & Hn)].
    2:{ destruct (Hmin p' w ltac:(lia) Hw Hn) as [_ Hlt]. specialize (Hlt Hp'). lia. }
    rewrite (popcount_selected xs) in Ee by (destruct Hxs as [Hlx _]; rewrite Hlx; lia).
    rewrite (exact_count hard conf k xs Hh Hxs w p Hw Hsub) in Ee. pose proof (hamming_nonneg w hard) as H0.
    rewrite (proj2 (Z.ltb_ge (best_errs b) 0)) by lia. cbn [fst snd]. split; [done|]. exists (Some w).
    split; [|by rewrite Ee, Eo]. split; [by apply (near_reach hard conf k xs Hh Hxs p)|].
    intros w' Hw'. destruct (reach_near hard conf k xs Hh Hxs w' Hw') as (p' & Hp' & Hn). destruct Hw' as [Hw' _].
    by destruct (Hmin p' w' Hp' Hw' Hn).
Qed.

(** C10: soft decoding returns a codeword nearest to the soft metrics among all
    that differ from the hard decisions in at most two bits besides any of the
    [K] least reliable ones, and the exact number of bits in which it differs;
    when there is none it fails and leaves the output alone. *)
Theorem bch_decode_block_soft_best soft out K st :
  ra_ok st -> (31 <= length soft)%nat -> Forall (fun s => -32768 < s < 32768) soft ->
  let hard := map soft_hard (take 31 soft) in
  let conf := map soft_mag (take 31 soft) in
  let reach := ra_reach conf hard (Z.to_nat (Z.max 0 (Z.min 6 K))) in
  let r := bch_decode_block_soft soft out K st in
  ra_ok r.2 /\
  ((forall w, ~ reach w) -> r.1 = (-1, out)) /\
  ((exists w, reach w) -> exists w, reach w /\ r.1 = (hamming w hard, take 21 w) /\
     forall w', reach w' -> soft_distance w hard conf <= soft_distance w' hard conf).
Proof.
  intros Hok Hl Hs hard conf reach r. destruct (decode_soft_spec soft out K st Hok Hl Hs) as (Hok' & w & Hw & Er).
  fold hard conf in Hw. fold r in Hok', Er. split; [exact Hok'|]. unfold reach. destruct w as [w|].
  - destruct Hw as [Hw Hmin]. split; [intros Hn; by destruct (Hn w)|]. intros _. by exists w.
  - split; [done|]. intros (w & H). by destruct (Hw w).
Qed.

(** Three wrong bits, one of them unreliable: the hard decoder fails. *)
Definition sample_soft : list Z := replicate 3 100 ++ -90 :: replicate 16 100 ++ -90 :: replicate 6 100 ++ -1 :: replicate 3 100.

Lemma bch_decode_block_soft_best_witness :
  (bch_decode_block (map soft_hard sample_soft) (replicate 21 7) ra_start).1 = (-1, replicate 21 7) /\
  exists w, (bch_decode_block_soft sample_soft (replicate 21 7) 3 ra_start).1 = (3, take 21 w) /\ ra_codeword w /\ w = replicate 31 0.
Proof.
  assert (Hz : ra_codeword (replicate 31 0)) by (split; [reflexivity|split; [apply Forall_replicate; by left|vm_compute; reflexivity]]).
  split; [vm_compute; reflexivity|]. exists (replicate 31 0). split; [|split; [exact Hz|reflexivity]].
  destruct (bch_decode_block_soft_best sample_soft (replicate 21 7) 3 ra_start ra_start_ok ltac:(vm_compute; lia)
    ltac:(repeat (apply Forall_cons_2; [lia|]); apply Forall_nil_2)) as (_ & _ & H).
  destruct H as (w & Hw & E & _).
  { exists (replicate 31 0). split; [exact Hz|]. vm_compute. lia. }
  vm_compute. reflexivity.
Defined.

(** The most negative metric has a negative magnitude: it counts as the least
    reliable bit, though it is the most reliable one. *)
Example soft_mag_min : soft_mag (-32768) = -32768.
Proof. reflexivity. Qed.

(** ** De-interleaving *)

Definition half_idx (first : nat) : list nat :=
  concat (map (fun k => [2 * (first - 2 * k); 2 * (first - 2 * k) + 1]%nat) (seq 0 16)).

Lemma deinterleave_half_spec first input out : length out = 32%nat ->
  deinterleave_half 0 first input out = map (rd input) (half_idx first).
Proof.
  intros Hl. do 32 (destruct out as [|? out]; [discriminate Hl|]). destruct out; [reflexivity|discriminate Hl].
Qed.

(** De-interleaving sends each of the 64 payload bits to exactly one place
    of one block, and the soft metrics travel with their bits: the hard
    decisions of the de-interleaved metrics are the de-interleaved hard
    decisions. *)
Theorem iridium_deinterleave_permutes input soft out1 out2 s1 s2 :
  length out1 = 32%nat -> length out2 = 32%nat -> length s1 = 32%nat -> length s2 = 32%nat ->
  length input = 64%nat -> length soft = 64%nat ->
  let (b1, b2) := iridium_deinterleave input out1 out2 in
  let (m1, m2) := iridium_deinterleave_int16 soft s1 s2 in
  b1 = map (rd input) (half_idx 31) /\ b2 = map (rd input) (half_idx 30) /\ b1 ++ b2 ≡ₚ input /\
  (input = map soft_hard soft -> b1 = map soft_hard m1 /\ b2 = map soft_hard m2).
Proof.
  intros H1 H2 H3 H4 Hi Hs. unfold iridium_deinterleave, iridium_deinterleave_int16. rewrite !deinterleave_half_spec by assumption.
  split; [reflexivity|]. split; [reflexivity|]. split.
  - rewrite <- map_app. transitivity (map (rd input) (seq 0 64)).
    + apply fmap_Permutation. apply (bool_decide_unpack _). vm_compute. reflexivity.
    + enough (map (rd input) (seq 0 64) = input) as -> by reflexivity. apply rd_ext; [by rewrite length_map, length_seq|]. intros i Hlt. rewrite length_map, length_seq in Hlt.
      unfold rd. rewrite (nth_indep _ 0 (rd input 0)) by (rewrite length_map, length_seq; done).
      rewrite map_nth, seq_nth by done. reflexivity.
  - intros ->. assert (E : forall idx, Forall (fun i => (i < 64)%nat) idx -> map (rd (map soft_hard soft)) idx = map soft_hard (map (rd soft) idx)).
    { intros idx Hx. rewrite map_map. apply map_ext_in. intros i Hin. rewrite List.Forall_forall in Hx. specialize (Hx i Hin).
      unfold rd. rewrite (nth_indep _ 0 (soft_hard 0)) by (rewrite length_map; lia). apply map_nth. }
    split; apply E; apply (bool_decide_unpack _); vm_compute; reflexivity.
Qed.

Lemma iridium_deinterleave_permutes_witness :
  let (b1, b2) := iridium_deinterleave (map Z.of_nat (seq 0 64)) (replicate 32 0) (replicate 32 0) in
  b1 ++ b2 ≡ₚ map Z.of_nat (seq 0 64).
Proof.
  pose proof (iridium_deinterleave_permutes (map Z.of_nat (seq 0 64)) (replicate 64 0) (replicate 32 0) (replicate 32 0)
    (replicate 32 0) (replicate 32 0) eq_refl eq_refl eq_refl eq_refl eq_refl eq_refl) as H.
  destruct (iridium_deinterleave _ _ _) as [b1 b2]. destruct (iridium_deinterleave_int16 _ _ _) as [m1 m2]. exact (proj1 (proj2 (proj2 H))).
Defined.
