(* ===== verification/IdaReassembler.v ===== *)
(** Cross-burst fragment reassembly
    (src/common/iridium_decoder/ida_reassembler.c).

    Four sessions chain DA fragments by direction, sequence counter, frequency
    deadband and per-hop gap.  Times are microseconds on a 64-bit clock. *)

From S2P Require Import Prelude Bits IdaDecode.

Definition IDA_REASM_MAX_SESSIONS : nat := 4.
Definition IDA_REASM_MAX_BYTES : Z := 320.
Definition IDA_REASM_FREQ_DEADBAND_HZ : Z := 5000.
Definition IDA_REASM_FRAG_GAP_US : Z := 700 * 1000.
Definition IDA_REASM_SESSION_TIMEOUT_US : Z := 1000 * 1000.
Definition IDA_PARTS_BINS : Z := 8.

(** ** State *)

Record ida_reasm_session := IdaReasmSession {
  rs_active : bool; rs_uplink : bool; rs_freq_hz : Z; rs_next_ctr : Z; rs_last_time_us : Z;
  rs_payload : list Z; rs_payload_len : Z; rs_dirty : bool }.

Record ida_reassembler := IdaReassembler {
  ir_sessions : list ida_reasm_session;
  cnt_standalone : Z; cnt_opened : Z; cnt_merged : Z; cnt_completed : Z; cnt_orphan : Z;
  cnt_orphan_freq : Z; cnt_overflow : Z; cnt_expired : Z;
  parts_completed : list Z; parts_expired : list Z }.

(** A zeroed session and context. *)
Definition session_zero : ida_reasm_session :=
  IdaReasmSession false false 0 0 0 (replicate (Z.to_nat IDA_REASM_MAX_BYTES) 0) 0 false.
Definition ida_reassembler_init : ida_reassembler :=
  IdaReassembler (replicate IDA_REASM_MAX_SESSIONS session_zero) 0 0 0 0 0 0 0 0
    (replicate 8 0) (replicate 8 0).

(** [ctx->sessions[i]] *)
Definition session (ctx : ida_reassembler) (i : nat) : ida_reasm_session :=
  nth i (ir_sessions ctx) session_zero.

(** Field updates. *)
Definition set_session (ctx : ida_reassembler) (i : nat) (s : ida_reasm_session) : ida_reassembler :=
  IdaReassembler (<[i := s]> (ir_sessions ctx)) (cnt_standalone ctx) (cnt_opened ctx) (cnt_merged ctx)
    (cnt_completed ctx) (cnt_orphan ctx) (cnt_orphan_freq ctx) (cnt_overflow ctx) (cnt_expired ctx)
    (parts_completed ctx) (parts_expired ctx).
Definition set_active (s : ida_reasm_session) (b : bool) : ida_reasm_session :=
  IdaReasmSession b (rs_uplink s) (rs_freq_hz s) (rs_next_ctr s) (rs_last_time_us s) (rs_payload s)
    (rs_payload_len s) (rs_dirty s).
(** Adds to the counters, which are 32-bit. *)
Definition count (ctx : ida_reassembler) (standalone opened merged completed orphan orphan_freq
    overflow expired : Z) : ida_reassembler :=
  IdaReassembler (ir_sessions ctx) (u32 (cnt_standalone ctx + standalone))
    (u32 (cnt_opened ctx + opened)) (u32 (cnt_merged ctx + merged))
    (u32 (cnt_completed ctx + completed)) (u32 (cnt_orphan ctx + orphan))
    (u32 (cnt_orphan_freq ctx + orphan_freq)) (u32 (cnt_overflow ctx + overflow))
    (u32 (cnt_expired ctx + expired)) (parts_completed ctx) (parts_expired ctx).
(** [b = n; if (b >= IDA_PARTS_BINS) b = IDA_PARTS_BINS - 1; bins[b]++] *)
Definition bump_bin (bins : list Z) (n : Z) : list Z :=
  let b := Z.to_nat (if IDA_PARTS_BINS <=? n then IDA_PARTS_BINS - 1 else n) in
  <[b := u32 (rd bins b + 1)]> bins.
Definition bin_completed (ctx : ida_reassembler) (n : Z) : ida_reassembler :=
  IdaReassembler (ir_sessions ctx) (cnt_standalone ctx) (cnt_opened ctx) (cnt_merged ctx)
    (cnt_completed ctx) (cnt_orphan ctx) (cnt_orphan_freq ctx) (cnt_overflow ctx) (cnt_expired ctx)
    (bump_bin (parts_completed ctx) n) (parts_expired ctx).
Definition bin_expired (ctx : ida_reassembler) (n : Z) : ida_reassembler :=
  IdaReassembler (ir_sessions ctx) (cnt_standalone ctx) (cnt_opened ctx) (cnt_merged ctx)
    (cnt_completed ctx) (cnt_orphan ctx) (cnt_orphan_freq ctx) (cnt_overflow ctx) (cnt_expired ctx)
    (parts_completed ctx) (bump_bin (parts_expired ctx) n).

(** ** Searching *)

Definition find_free_session (ctx : ida_reassembler) : option nat :=
  find (fun i => negb (rs_active (session ctx i))) (seq 0 IDA_REASM_MAX_SESSIONS).

(** The tests of a session that do not look at the frequency, in order. *)
Definition matches_ignoring_freq (s : ida_reasm_session) (uplink : bool) (ctr now_us : Z) : bool :=
  rs_active s && Bool.eqb (rs_uplink s) uplink && (ctr =? rs_next_ctr s) &&
  negb (now_us <? rs_last_time_us s) &&
  negb (IDA_REASM_FRAG_GAP_US <? u64 (now_us - rs_last_time_us s)).

Definition in_deadband (s : ida_reasm_session) (freq_hz : Z) : bool :=
  let lo := if IDA_REASM_FREQ_DEADBAND_HZ <? rs_freq_hz s
            then rs_freq_hz s - IDA_REASM_FREQ_DEADBAND_HZ else 0 in
  let hi := u32 (rs_freq_hz s + IDA_REASM_FREQ_DEADBAND_HZ) in
  negb (freq_hz <? lo) && negb (hi <? freq_hz).

Definition find_matching_session (ctx : ida_reassembler) (uplink : bool) (freq_hz ctr now_us : Z)
  : option nat :=
  find (fun i => matches_ignoring_freq (session ctx i) uplink ctr now_us &&
                 in_deadband (session ctx i) freq_hz)
       (rev (seq 0 IDA_REASM_MAX_SESSIONS)).

Definition session_matches_ignoring_freq (ctx : ida_reassembler) (uplink : bool) (ctr now_us : Z)
  : bool :=
  existsb (fun i => matches_ignoring_freq (session ctx i) uplink ctr now_us)
          (rev (seq 0 IDA_REASM_MAX_SESSIONS)).

(** ** Expiry *)

Record ida_salvage := IdaSalvage {
  sv_payload : list Z; sv_payload_len : Z; sv_uplink : bool; sv_freq_hz : Z;
  sv_last_time_us : Z; sv_frags : Z; sv_dirty : bool }.

(** [now > last && now - last > SESSION_TIMEOUT], on an active session. *)
Definition session_stale (s : ida_reasm_session) (now_us : Z) : bool :=
  rs_active s && (rs_last_time_us s <? now_us) &&
  (IDA_REASM_SESSION_TIMEOUT_US <? u64 (now_us - rs_last_time_us s)).

(** [out] is the caller's struct. *)
Definition ida_reassembler_reap (ctx : ida_reassembler) (now_us : Z) (out : ida_salvage)
  : Z * ida_salvage * ida_reassembler :=
  match find (fun i => session_stale (session ctx i) now_us) (seq 0 IDA_REASM_MAX_SESSIONS) with
  | Some i =>
    let s := session ctx i in
    let n := rs_payload_len s in
    let n := if n <? 0 then 0 else n in
    let n := if IDA_REASM_MAX_BYTES <? n then IDA_REASM_MAX_BYTES else n in
    let out := IdaSalvage (blit (sv_payload out) 0 (take (Z.to_nat n) (rs_payload s))) n
                 (rs_uplink s) (rs_freq_hz s) (rs_last_time_us s) (rs_next_ctr s) (rs_dirty s) in
    let ctx := set_session ctx i (set_active s false) in
    let ctx := count ctx 0 0 0 0 0 0 0 1 in
    (1, out, bin_expired ctx (rs_next_ctr s))
  | None => (0, out, ctx)
  end.

(** ** Feeding *)

(** The call's results: return value and the caller's [out_payload],
    [*out_len] and [*out_dirty]. *)
Record feed_out := FeedOut { fo_ret : Z; fo_payload : list Z; fo_len : Z; fo_dirty : bool }.

Definition ida_reassembler_feed_ex (ctx : ida_reassembler) (ida : ida_decoded) (frag_crc_ok uplink : bool)
    (freq_hz now_us : Z) (out_payload : list Z) (out_cap : Z) : feed_out * ida_reassembler :=
  if (da_ctr ida =? 0) && (da_cont ida =? 0) then
    let n := id_payload_len ida in
    let n := if out_cap <? n then out_cap else n in
    (FeedOut 1 (blit out_payload 0 (take (Z.to_nat n) (id_payload ida))) n false,
     count ctx 1 0 0 0 0 0 0 0)
  else if (da_ctr ida =? 0) && negb (da_cont ida =? 0) then
    match find_free_session ctx with
    | None => (FeedOut (-1) out_payload 0 false, count ctx 0 0 0 0 0 0 1 0)
    | Some idx =>
      let n := id_payload_len ida in
      let n := if IDA_REASM_MAX_BYTES <? n then IDA_REASM_MAX_BYTES else n in
      let s := IdaReasmSession true uplink freq_hz 1 now_us
                 (blit (rs_payload session_zero) 0 (take (Z.to_nat n) (id_payload ida))) n false in
      (FeedOut 0 out_payload 0 false, count (set_session ctx idx s) 0 1 0 0 0 0 0 0)
    end
  else
    match find_matching_session ctx uplink freq_hz (da_ctr ida) now_us with
    | None =>
      let by_freq := session_matches_ignoring_freq ctx uplink (da_ctr ida) now_us in
      (FeedOut (-1) out_payload 0 false,
       count ctx 0 0 0 0 1 (if by_freq then 1 else 0) 0 0)
    | Some idx =>
      let s := session ctx idx in
      let avail := IDA_REASM_MAX_BYTES - rs_payload_len s in
      if avail <? id_payload_len ida then
        (FeedOut (-1) out_payload 0 false,
         count (set_session ctx idx (set_active s false)) 0 0 0 0 0 0 1 0)
      else
        let payload := blit (rs_payload s) (Z.to_nat (rs_payload_len s))
                         (take (Z.to_nat (id_payload_len ida)) (id_payload ida)) in
        let len := rs_payload_len s + id_payload_len ida in
        let dirty := if negb frag_crc_ok then true else rs_dirty s in
        if da_cont ida =? 0 then
          let n := if out_cap <? len then out_cap else len in
          let s := IdaReasmSession false (rs_uplink s) (rs_freq_hz s) (rs_next_ctr s) now_us
                     payload len dirty in
          (FeedOut 1 (blit out_payload 0 (take (Z.to_nat n) payload)) n dirty,
           bin_completed (count (set_session ctx idx s) 0 0 1 1 0 0 0 0) (da_ctr ida + 1))
        else
          let s := IdaReasmSession true (rs_uplink s) (rs_freq_hz s) ((da_ctr ida + 1) mod 8) now_us
                     payload len dirty in
          (FeedOut 0 out_payload 0 false, count (set_session ctx idx s) 0 0 1 0 0 0 0 0)
    end.

(** The clean-path wrapper. *)
Definition ida_reassembler_feed (ctx : ida_reassembler) (ida : ida_decoded) (uplink : bool)
    (freq_hz now_us : Z) (out_payload : list Z) (out_cap : Z) : feed_out * ida_reassembler :=
  ida_reassembler_feed_ex ctx ida true uplink freq_hz now_us out_payload out_cap.

(** ** Invariant *)

Record session_ok (s : ida_reasm_session) : Prop := {
  so_payload : length (rs_payload s) = 320%nat;
  so_len : 0 <= rs_payload_len s <= IDA_REASM_MAX_BYTES;
  so_freq : is_u 32 (rs_freq_hz s);
  so_ctr : 0 <= rs_next_ctr s < 8;
  so_time : is_u 64 (rs_last_time_us s) }.

Record ctx_ok (ctx : ida_reassembler) : Prop := {
  co_sessions : length (ir_sessions ctx) = IDA_REASM_MAX_SESSIONS;
  co_session : Forall session_ok (ir_sessions ctx);
  co_completed : length (parts_completed ctx) = 8%nat;
  co_expired : length (parts_expired ctx) = 8%nat }.

(** What the decoder guarantees of a fragment (see [ida_parse_bounds]). *)
Record fragment_ok (ida : ida_decoded) : Prop := {
  fk_payload : length (id_payload ida) = 24%nat;
  fk_len : 0 <= id_payload_len ida <= 24;
  fk_ctr : 0 <= da_ctr ida < 8 }.

Lemma session_zero_ok : session_ok session_zero.
Proof. split; cbn; unfold is_u, IDA_REASM_MAX_BYTES; try lia; done. Qed.

Lemma ida_reassembler_init_ok : ctx_ok ida_reassembler_init.
Proof. split; try done. apply Forall_replicate, session_zero_ok. Qed.

Lemma session_ok_at ctx i : ctx_ok ctx -> session_ok (session ctx i).
Proof.
  intros H. unfold session. rewrite nth_lookup.
  destruct (ir_sessions ctx !! i) as [s|] eqn:E; [|apply session_zero_ok].
  exact (Forall_lookup_1 _ _ _ _ (co_session _ H) E).
Qed.

Lemma set_session_ok ctx i s : ctx_ok ctx -> session_ok s -> ctx_ok (set_session ctx i s).
Proof.
  intros [H1 H2 H3 H4] Hs. split; cbn; [by rewrite length_insert|by apply Forall_insert|done..].
Qed.

Lemma count_ok ctx a b c d e f g h : ctx_ok ctx -> ctx_ok (count ctx a b c d e f g h).
Proof. by intros [H1 H2 H3 H4]. Qed.

Lemma length_bump_bin bins n : length (bump_bin bins n) = length bins.
Proof. apply length_insert. Qed.

Lemma bin_completed_ok ctx n : ctx_ok ctx -> ctx_ok (bin_completed ctx n).
Proof. intros [H1 H2 H3 H4]. split; cbn; rewrite ?length_bump_bin; done. Qed.

Lemma bin_expired_ok ctx n : ctx_ok ctx -> ctx_ok (bin_expired ctx n).
Proof. intros [H1 H2 H3 H4]. split; cbn; rewrite ?length_bump_bin; done. Qed.

Lemma set_active_ok s b : session_ok s -> session_ok (set_active s b).
Proof. by intros [H1 H2 H3 H4 H5]. Qed.

Create HintDb reasm.
#[export] Hint Resolve session_ok_at set_session_ok count_ok bin_completed_ok bin_expired_ok
  set_active_ok : reasm.

Lemma session_set ctx i j s :
  ctx_ok ctx -> (i < 4)%nat ->
  session (set_session ctx i s) j = if decide (i = j) then s else session ctx j.
Proof.
  intros H Hi. unfold session, set_session. cbn [ir_sessions]. rewrite !nth_lookup.
  destruct (decide (i = j)) as [->|Hne]; [|by rewrite list_lookup_insert_ne].
  rewrite list_lookup_insert_eq; [done|]. by rewrite (co_sessions _ H).
Qed.

Lemma session_count ctx a b c d e f g h j : session (count ctx a b c d e f g h) j = session ctx j.
Proof. done. Qed.
Lemma session_bin_completed ctx n j : session (bin_completed ctx n) j = session ctx j.
Proof. done. Qed.
Lemma session_bin_expired ctx n j : session (bin_expired ctx n) j = session ctx j.
Proof. done. Qed.

(** ** Searches *)

Lemma in_slots i : In i (rev (seq 0 IDA_REASM_MAX_SESSIONS)) <-> (i < 4)%nat.
Proof. rewrite <- in_rev, in_seq. unfold IDA_REASM_MAX_SESSIONS. lia. Qed.

Lemma matches_spec s uplink ctr now :
  session_ok s -> is_u 64 now ->
  matches_ignoring_freq s uplink ctr now = true <->
  rs_active s = true /\ rs_uplink s = uplink /\ rs_next_ctr s = ctr /\
  rs_last_time_us s <= now <= rs_last_time_us s + IDA_REASM_FRAG_GAP_US.
Proof.
  intros Hs Hnow. pose proof (so_time _ Hs) as Ht. unfold matches_ignoring_freq.
  rewrite !andb_true_iff, eqb_true_iff, Z.eqb_eq, !negb_true_iff, !Z.ltb_ge. split.
  - intros ((((-> & ->) & ->) & H1) & H2). rewrite u64_sub in H2 by done. repeat split; lia.
  - intros (-> & -> & -> & H1 & H2). rewrite u64_sub by done. repeat split; lia.
Qed.

Lemma in_deadband_spec s freq :
  is_u 32 (rs_freq_hz s) -> rs_freq_hz s + IDA_REASM_FREQ_DEADBAND_HZ < 2 ^ 32 -> 0 <= freq ->
  in_deadband s freq = true <-> Z.abs (freq - rs_freq_hz s) <= IDA_REASM_FREQ_DEADBAND_HZ.
Proof.
  unfold is_u, IDA_REASM_FREQ_DEADBAND_HZ. intros H1 H2 H3. unfold in_deadband, IDA_REASM_FREQ_DEADBAND_HZ.
  unfold u32. rewrite Z.mod_small by lia.
  rewrite andb_true_iff, !negb_true_iff, !Z.ltb_ge. destruct (Z.ltb_spec 5000 (rs_freq_hz s)); lia.
Qed.

Lemma session_stale_spec s now :
  session_ok s -> is_u 64 now ->
  session_stale s now = true <->
  rs_active s = true /\ rs_last_time_us s + IDA_REASM_SESSION_TIMEOUT_US < now.
Proof.
  intros Hs Hnow. pose proof (so_time _ Hs) as Ht. unfold session_stale.
  rewrite !andb_true_iff, !Z.ltb_lt. unfold IDA_REASM_SESSION_TIMEOUT_US. split.
  - intros ((-> & H1) & H2). rewrite u64_sub in H2 by (done || lia). split; [done|lia].
  - intros (-> & H1). rewrite u64_sub by (done || lia). repeat split; lia.
Qed.

(** ** One step *)

Lemma length_fragment ida n : fragment_ok ida -> 0 <= n <= id_payload_len ida ->
  length (take (Z.to_nat n) (id_payload ida)) = Z.to_nat n.
Proof. intros [H1 H2 H3] Hn. rewrite length_take. lia. Qed.

Lemma opened_ok ida uplink freq now :
  fragment_ok ida -> is_u 32 freq -> is_u 64 now ->
  session_ok (IdaReasmSession true uplink freq 1 now
    (blit (rs_payload session_zero) 0 (take (Z.to_nat (id_payload_len ida)) (id_payload ida)))
    (id_payload_len ida) false).
Proof.
  intros Hf Hfr Hnow. pose proof (fk_len _ Hf).
  split; cbn [rs_payload rs_payload_len rs_freq_hz rs_next_ctr rs_last_time_us];
    unfold IDA_REASM_MAX_BYTES; try done; try lia.
  rewrite length_blit; [done|]. rewrite length_fragment by (done || lia).
  change (length (rs_payload session_zero)) with 320%nat. lia.
Qed.

Lemma merged_ok s ida active ctr now dirty :
  session_ok s -> fragment_ok ida -> 0 <= ctr < 8 -> is_u 64 now ->
  id_payload_len ida <= IDA_REASM_MAX_BYTES - rs_payload_len s ->
  session_ok (IdaReasmSession active (rs_uplink s) (rs_freq_hz s) ctr now
    (blit (rs_payload s) (Z.to_nat (rs_payload_len s))
       (take (Z.to_nat (id_payload_len ida)) (id_payload ida)))
    (rs_payload_len s + id_payload_len ida) dirty).
Proof.
  intros [H1 H2 H3 H4 H5] Hf Hc Hnow Hl. pose proof (fk_len _ Hf). unfold IDA_REASM_MAX_BYTES in *.
  split; cbn [rs_payload rs_payload_len rs_freq_hz rs_next_ctr rs_last_time_us]; try done;
    try (unfold IDA_REASM_MAX_BYTES; lia).
  rewrite length_blit; [done|]. rewrite length_fragment by (done || lia). lia.
Qed.

(** What a feed does, one clause per path of the code. *)
Lemma feed_cases ctx ida ok uplink freq now buf cap :
  ctx_ok ctx -> fragment_ok ida ->
  ida_reassembler_feed_ex ctx ida ok uplink freq now buf cap =
  if da_ctr ida =? 0 then
    if da_cont ida =? 0 then
      let n := Z.min cap (id_payload_len ida) in
      (FeedOut 1 (blit buf 0 (take (Z.to_nat n) (id_payload ida))) n false, count ctx 1 0 0 0 0 0 0 0)
    else match find_free_session ctx with
      | None => (FeedOut (-1) buf 0 false, count ctx 0 0 0 0 0 0 1 0)
      | Some i => (FeedOut 0 buf 0 false,
          count (set_session ctx i (IdaReasmSession true uplink freq 1 now
            (blit (rs_payload session_zero) 0 (take (Z.to_nat (id_payload_len ida)) (id_payload ida)))
            (id_payload_len ida) false)) 0 1 0 0 0 0 0 0)
      end
  else match find_matching_session ctx uplink freq (da_ctr ida) now with
    | None => (FeedOut (-1) buf 0 false, count ctx 0 0 0 0 1
        (if session_matches_ignoring_freq ctx uplink (da_ctr ida) now then 1 else 0) 0 0)
    | Some i =>
      let s := session ctx i in
      if IDA_REASM_MAX_BYTES - rs_payload_len s <? id_payload_len ida then
        (FeedOut (-1) buf 0 false, count (set_session ctx i (set_active s false)) 0 0 0 0 0 0 1 0)
      else
        let payload := blit (rs_payload s) (Z.to_nat (rs_payload_len s))
          (take (Z.to_nat (id_payload_len ida)) (id_payload ida)) in
        let len := rs_payload_len s + id_payload_len ida in
        let dirty := negb ok || rs_dirty s in
        if da_cont ida =? 0 then
          let n := Z.min cap len in
          (FeedOut 1 (blit buf 0 (take (Z.to_nat n) payload)) n dirty,
           bin_completed (count (set_session ctx i (IdaReasmSession false (rs_uplink s) (rs_freq_hz s)
             (rs_next_ctr s) now payload len dirty)) 0 0 1 1 0 0 0 0) (da_ctr ida + 1))
        else (FeedOut 0 buf 0 false, count (set_session ctx i (IdaReasmSession true (rs_uplink s)
             (rs_freq_hz s) ((da_ctr ida + 1) mod 8) now payload len dirty)) 0 0 1 0 0 0 0 0)
    end.
Proof.
  intros Hok Hf. pose proof (fk_len _ Hf) as Hl. unfold ida_reassembler_feed_ex.
  assert (Emin : forall x, (if cap <? x then cap else x) = Z.min cap x)
    by (intros x; destruct (Z.ltb_spec cap x); lia).
  destruct (da_ctr ida =? 0); cbn [andb negb].
  - destruct (da_cont ida =? 0); cbn [negb]; [by rewrite Emin|].
    by rewrite (proj2 (Z.ltb_ge IDA_REASM_MAX_BYTES _)) by (unfold IDA_REASM_MAX_BYTES; lia).
  - destruct (find_matching_session _ _ _ _ _) as [i|]; [|done]. cbv zeta.
    destruct (_ <? id_payload_len ida); [done|]. rewrite Emin. by destruct ok.
Qed.

Lemma find_free_bound ctx i : find_free_session ctx = Some i -> (i < 4)%nat /\ rs_active (session ctx i) = false.
Proof.
  intros [Hi H]%find_some. apply in_seq in Hi. apply negb_true_iff in H.
  unfold IDA_REASM_MAX_SESSIONS in Hi. split; [lia|done].
Qed.

Lemma find_matching_bound ctx uplink freq ctr now i :
  find_matching_session ctx uplink freq ctr now = Some i ->
  (i < 4)%nat /\ matches_ignoring_freq (session ctx i) uplink ctr now = true /\
  in_deadband (session ctx i) freq = true.
Proof. intros [Hi H]%find_some. apply in_slots in Hi. apply andb_prop in H. done. Qed.

Lemma feed_ctx_ok ctx ida ok uplink freq now buf cap :
  ctx_ok ctx -> fragment_ok ida -> is_u 32 freq -> is_u 64 now ->
  ctx_ok (ida_reassembler_feed_ex ctx ida ok uplink freq now buf cap).2.
Proof.
  intros Hok Hf Hfr Hnow. rewrite feed_cases by done. cbv zeta.
  pose proof (fk_ctr _ Hf) as Hctr.
  destruct (da_ctr ida =? 0).
  - destruct (da_cont ida =? 0); [cbn [snd]; auto with reasm|].
    destruct (find_free_session ctx); cbn [snd]; auto with reasm.
    apply count_ok, set_session_ok; [done|]. by apply opened_ok.
  - destruct (find_matching_session _ _ _ _ _) as [i|]; [|cbn [snd]; auto with reasm].
    destruct (Z.ltb_spec (IDA_REASM_MAX_BYTES - rs_payload_len (session ctx i)) (id_payload_len ida));
      [cbn [snd]; auto with reasm|].
    destruct (da_cont ida =? 0); cbn [snd]; [apply bin_completed_ok|]; apply count_ok, set_session_ok;
      try done; apply merged_ok; auto with reasm; try lia; apply (so_ctr _ (session_ok_at ctx i Hok)).
Qed.

(** ** Following one chain *)

(** Session [i] holds an open chain of direction [up] opened at frequency
    [f0], awaiting counter [ctr], last fed at [t], with [bytes] so far. *)
Record holds (ctx : ida_reassembler) (i : nat) (up : bool) (f0 ctr t : Z) (bytes : list Z) (dirty : bool)
  : Prop := {
  hd_idx : (i < 4)%nat;
  hd_active : rs_active (session ctx i) = true;
  hd_uplink : rs_uplink (session ctx i) = up;
  hd_freq : rs_freq_hz (session ctx i) = f0;
  hd_ctr : rs_next_ctr (session ctx i) = ctr;
  hd_time : rs_last_time_us (session ctx i) = t;
  hd_len : rs_payload_len (session ctx i) = Z.of_nat (length bytes);
  hd_bytes : take (length bytes) (rs_payload (session ctx i)) = bytes;
  hd_dirty : rs_dirty (session ctx i) = dirty }.

(** No other active session of direction [up] has [f] in its deadband. *)
Definition alone (ctx : ida_reassembler) (i : nat) (up : bool) (f : Z) : Prop :=
  forall j, (j < 4)%nat -> j <> i -> rs_active (session ctx j) = true ->
    rs_uplink (session ctx j) = up -> in_deadband (session ctx j) f = false.

Definition fragment_bytes (ida : ida_decoded) : list Z :=
  take (Z.to_nat (id_payload_len ida)) (id_payload ida).

Lemma length_fragment_bytes ida : fragment_ok ida ->
  Z.of_nat (length (fragment_bytes ida)) = id_payload_len ida.
Proof. intros H. unfold fragment_bytes. pose proof (fk_len _ H). rewrite length_fragment by (done || lia). lia. Qed.

Lemma find_holds ctx i up f0 ctr t bytes dirty f now :
  ctx_ok ctx -> holds ctx i up f0 ctr t bytes dirty -> alone ctx i up f ->
  is_u 64 now -> t <= now <= t + IDA_REASM_FRAG_GAP_US -> in_deadband (session ctx i) f = true ->
  find_matching_session ctx up f ctr now = Some i.
Proof.
  intros Hok [Hi Ha Hu Hf Hc Ht Hl Hb Hd] Hal Hnow Hgap Hdb. apply find_unique.
  - by apply in_slots.
  - rewrite Hdb, andb_true_r. apply matches_spec; auto with reasm. rewrite Ht. done.
  - intros j Hj Hne. apply in_slots in Hj. apply andb_false_iff.
    destruct (matches_ignoring_freq (session ctx j) up ctr now) eqn:E; [right|by left].
    apply matches_spec in E as (E1 & E2 & _); auto with reasm.
Qed.

Lemma merged_bytes s bytes ida :
  session_ok s -> fragment_ok ida -> rs_payload_len s = Z.of_nat (length bytes) ->
  take (length bytes) (rs_payload s) = bytes ->
  rs_payload_len s + id_payload_len ida <= 320 ->
  take (length (bytes ++ fragment_bytes ida))
    (blit (rs_payload s) (Z.to_nat (rs_payload_len s)) (fragment_bytes ida)) = bytes ++ fragment_bytes ida.
Proof.
  intros Hs Hf Hl Hb Hle. pose proof (so_payload _ Hs) as Hp. pose proof (length_fragment_bytes ida Hf).
  rewrite Hl, Nat2Z.id. unfold blit. rewrite Hb, app_assoc. by rewrite take_app_length.
Qed.

(** One received fragment with its circumstances. *)
Record arrival := Arrival { ar_ida : ida_decoded; ar_crc_ok : bool; ar_freq : Z; ar_time : Z }.

Definition arrival_ok (a : arrival) : Prop :=
  fragment_ok (ar_ida a) /\ is_u 32 (ar_freq a) /\ is_u 64 (ar_time a).

Definition feed_arrival (up : bool) (buf : list Z) (cap : Z) (ctx : ida_reassembler) (a : arrival)
  : feed_out * ida_reassembler :=
  ida_reassembler_feed_ex ctx (ar_ida a) (ar_crc_ok a) up (ar_freq a) (ar_time a) buf cap.

(** Feed a list of fragments; the results in order. *)
Fixpoint feed_all (up : bool) (buf : list Z) (cap : Z) (ctx : ida_reassembler) (l : list arrival)
  : list feed_out * ida_reassembler :=
  match l with
  | [] => ([], ctx)
  | a :: l =>
    let '(o, ctx) := feed_arrival up buf cap ctx a in
    let '(os, ctx) := feed_all up buf cap ctx l in
    (o :: os, ctx)
  end.

(** Continuations with consecutive counters from [ctr], the last one final,
    each within the frequency deadband of [f0] and the hop gap of its
    predecessor. *)
Fixpoint in_order (f0 ctr t : Z) (l : list arrival) : Prop :=
  match l with
  | [] => False
  | a :: l =>
    arrival_ok a /\ da_ctr (ar_ida a) = ctr /\
    t <= ar_time a <= t + IDA_REASM_FRAG_GAP_US /\
    Z.abs (ar_freq a - f0) <= IDA_REASM_FREQ_DEADBAND_HZ /\
    match l with
    | [] => da_cont (ar_ida a) = 0
    | _ => da_cont (ar_ida a) <> 0 /\ in_order f0 (ctr + 1) (ar_time a) l
    end
  end.

Definition chain_bytes (l : list arrival) : list Z := concat (map (fun a => fragment_bytes (ar_ida a)) l).

Lemma alone_set ctx i up f s a b c d e g h k :
  ctx_ok ctx -> (i < 4)%nat -> alone ctx i up f ->
  alone (count (set_session ctx i s) a b c d e g h k) i up f.
Proof.
  intros Hok Hi Hal j Hj Hne. rewrite session_count, session_set by done.
  rewrite decide_False by done. by apply Hal.
Qed.

Lemma step_middle ctx i up f0 ctr t bytes dirty a buf cap :
  ctx_ok ctx -> holds ctx i up f0 ctr t bytes dirty -> alone ctx i up (ar_freq a) ->
  1 <= ctr < 7 -> f0 + IDA_REASM_FREQ_DEADBAND_HZ < 2 ^ 32 ->
  arrival_ok a -> da_ctr (ar_ida a) = ctr -> da_cont (ar_ida a) <> 0 ->
  t <= ar_time a <= t + IDA_REASM_FRAG_GAP_US ->
  Z.abs (ar_freq a - f0) <= IDA_REASM_FREQ_DEADBAND_HZ ->
  Z.of_nat (length (bytes ++ fragment_bytes (ar_ida a))) <= 320 ->
  exists ctx', feed_arrival up buf cap ctx a = (FeedOut 0 buf 0 false, ctx') /\ ctx_ok ctx' /\
    holds ctx' i up f0 (ctr + 1) (ar_time a) (bytes ++ fragment_bytes (ar_ida a))
      (negb (ar_crc_ok a) || dirty) /\
    (forall f, alone ctx i up f -> alone ctx' i up f).
Proof.
  intros Hok Hh Hal Hctr Hf32 (Hfo & Hfr & Hto) Hc Hcont Hgap Hdb Hlen.
  pose proof (length_fragment_bytes _ Hfo) as Hfl. rewrite length_app in Hlen.
  pose proof (session_ok_at ctx i Hok) as Hs. pose proof Hh as [Hi Ha Hu Hf0 Hnc Ht Hl Hb Hd].
  assert (Hm : find_matching_session ctx up (ar_freq a) ctr (ar_time a) = Some i).
  { eapply find_holds; try done. apply in_deadband_spec; rewrite ?Hf0; auto using so_freq.
    - rewrite <- Hf0. apply (so_freq _ Hs).
    - unfold is_u in Hfr. lia. }
  pose proof (feed_ctx_ok ctx (ar_ida a) (ar_crc_ok a) up (ar_freq a) (ar_time a) buf cap Hok Hfo Hfr Hto) as Hok'.
  unfold feed_arrival. rewrite feed_cases in * by done. cbv zeta in *.
  rewrite Hc, (proj2 (Z.eqb_neq ctr 0)), Hm in * by lia.
  rewrite (proj2 (Z.ltb_ge _ (id_payload_len _))) in * by (unfold IDA_REASM_MAX_BYTES; lia).
  rewrite (proj2 (Z.eqb_neq (da_cont (ar_ida a)) 0)) in * by done.
  eexists. split; [reflexivity|]. split; [exact Hok'|]. split; [|by intros f; apply alone_set].
  split; rewrite ?session_count, ?session_set, ?decide_True by done;
    cbn [rs_active rs_uplink rs_freq_hz rs_next_ctr rs_last_time_us rs_payload rs_payload_len rs_dirty];
    try done.
  - rewrite Z.mod_small; lia.
  - rewrite length_app. lia.
  - apply merged_bytes; try done. lia.
  - by rewrite Hd.
Qed.

Lemma step_final ctx i up f0 ctr t bytes dirty a buf cap :
  ctx_ok ctx -> holds ctx i up f0 ctr t bytes dirty -> alone ctx i up (ar_freq a) ->
  1 <= ctr -> f0 + IDA_REASM_FREQ_DEADBAND_HZ < 2 ^ 32 ->
  arrival_ok a -> da_ctr (ar_ida a) = ctr -> da_cont (ar_ida a) = 0 ->
  t <= ar_time a <= t + IDA_REASM_FRAG_GAP_US ->
  Z.abs (ar_freq a - f0) <= IDA_REASM_FREQ_DEADBAND_HZ ->
  let total := bytes ++ fragment_bytes (ar_ida a) in
  Z.of_nat (length total) <= 320 -> Z.of_nat (length total) <= cap ->
  exists ctx', feed_arrival up buf cap ctx a =
    (FeedOut 1 (blit buf 0 total) (Z.of_nat (length total)) (negb (ar_crc_ok a) || dirty), ctx') /\
    ctx_ok ctx' /\ rs_active (session ctx' i) = false.
Proof.
  intros Hok Hh Hal Hctr Hf32 (Hfo & Hfr & Hto) Hc Hcont Hgap Hdb total Hlen Hcap.
  pose proof (length_fragment_bytes _ Hfo) as Hfl. unfold total in *. rewrite length_app in Hlen, Hcap.
  pose proof (session_ok_at ctx i Hok) as Hs. pose proof Hh as [Hi Ha Hu Hf0 Hnc Ht Hl Hb Hd].
  assert (Hm : find_matching_session ctx up (ar_freq a) ctr (ar_time a) = Some i).
  { eapply find_holds; try done. apply in_deadband_spec; rewrite ?Hf0; auto using so_freq.
    - rewrite <- Hf0. apply (so_freq _ Hs).
    - unfold is_u in Hfr. lia. }
  pose proof (feed_ctx_ok ctx (ar_ida a) (ar_crc_ok a) up (ar_freq a) (ar_time a) buf cap Hok Hfo Hfr Hto) as Hok'.
  unfold feed_arrival. rewrite feed_cases in * by done. cbv zeta in *.
  rewrite Hc, (proj2 (Z.eqb_neq ctr 0)), Hm in * by lia.
  rewrite (proj2 (Z.ltb_ge _ (id_payload_len _))) in * by (unfold IDA_REASM_MAX_BYTES; lia).
  rewrite Hcont in *. cbn [Z.eqb] in *.
  assert (En : Z.min cap (rs_payload_len (session ctx i) + id_payload_len (ar_ida a)) =
    Z.of_nat (length (bytes ++ fragment_bytes (ar_ida a)))) by (rewrite length_app; lia).
  rewrite En, Nat2Z.id in *. eexists. split; [|split; [exact Hok'|]].
  - rewrite Hd. do 2 f_equal. f_equal. apply merged_bytes; try done. lia.
  - cbn [snd]. by rewrite session_bin_completed, session_count, session_set, decide_True by done.
Qed.

(** An opener takes a free session. *)
Lemma step_open ctx up a buf cap :
  ctx_ok ctx -> arrival_ok a -> da_ctr (ar_ida a) = 0 -> da_cont (ar_ida a) <> 0 ->
  (exists i, (i < 4)%nat /\ rs_active (session ctx i) = false) ->
  exists i ctx', feed_arrival up buf cap ctx a = (FeedOut 0 buf 0 false, ctx') /\ ctx_ok ctx' /\
    holds ctx' i up (ar_freq a) 1 (ar_time a) (fragment_bytes (ar_ida a)) false /\
    forall f, (forall j, (j < 4)%nat -> rs_active (session ctx j) = true -> rs_uplink (session ctx j) = up ->
      in_deadband (session ctx j) f = false) -> alone ctx' i up f.
Proof.
  intros Hok (Hfo & Hfr & Hto) Hc Hcont [k [Hk Hka]].
  destruct (find_free_session ctx) as [i|] eqn:Ef.
  2:{ assert (Hin4 : In k (seq 0 IDA_REASM_MAX_SESSIONS))
        by (apply in_seq; unfold IDA_REASM_MAX_SESSIONS; lia).
      pose proof (find_none _ _ Ef k Hin4) as Hn. cbv beta in Hn. rewrite Hka in Hn. discriminate Hn. }
  destruct (find_free_bound ctx i Ef) as [Hi Hia].
  pose proof (feed_ctx_ok ctx (ar_ida a) (ar_crc_ok a) up (ar_freq a) (ar_time a) buf cap Hok Hfo Hfr Hto) as Hok'.
  unfold feed_arrival. rewrite feed_cases in * by done.
  rewrite Hc, (proj2 (Z.eqb_neq (da_cont (ar_ida a)) 0)), Ef in * by done. cbn [Z.eqb] in *.
  cbv zeta in *. cbn [snd] in Hok'. set (ctx1 := count _ _ _ _ _ _ _ _ _) in *.
  pose proof (length_fragment_bytes _ Hfo) as Hfl. exists i, ctx1. split; [done|]. split; [done|]. split.
  - unfold ctx1. split; rewrite ?session_count, ?session_set, ?decide_True by done; try done.
    cbn [rs_payload]. unfold blit. rewrite take_0. cbn [app]. by rewrite take_app_length.
  - intros f Hal j Hj Hne. unfold ctx1. rewrite session_count, session_set by done.
    rewrite decide_False by done. by apply Hal.
Qed.

(** From an open chain to its completion. *)
Lemma chain_rest l up buf cap : forall ctx i f0 ctr t bytes dirty,
  ctx_ok ctx -> holds ctx i up f0 ctr t bytes dirty ->
  (forall a, In a l -> alone ctx i up (ar_freq a)) ->
  1 <= ctr -> f0 + IDA_REASM_FREQ_DEADBAND_HZ < 2 ^ 32 -> in_order f0 ctr t l ->
  let total := bytes ++ chain_bytes l in
  Z.of_nat (length total) <= 320 -> Z.of_nat (length total) <= cap ->
  exists ctx', feed_all up buf cap ctx l =
    (replicate (length l - 1) (FeedOut 0 buf 0 false) ++
     [FeedOut 1 (blit buf 0 total) (Z.of_nat (length total))
        (existsb (fun a => negb (ar_crc_ok a)) l || dirty)], ctx') /\ ctx_ok ctx'.
Proof.
  induction l as [|a l IH]; intros ctx i f0 ctr t bytes dirty Hok Hh Hal Hctr Hf32 Hin total Hlen Hcap;
    [done|].
  destruct Hin as (Ha & Hc & Hgap & Hdb & Hrest).
  destruct l as [|a' l].
  - unfold total, chain_bytes in *. cbn [map concat] in *. rewrite app_nil_r in *.
    destruct (step_final ctx i up f0 ctr t bytes dirty a buf cap) as (ctx' & E & Hok' & _); try done;
      [apply Hal; by left|].
    exists ctx'. cbn [feed_all]. rewrite E. cbn [length Nat.sub replicate app existsb].
    by rewrite orb_false_r.
  - destruct Hrest as [Hcont Hrest].
    assert (Hctr7 : ctr < 7).
    { destruct Hrest as ((Hfo & _) & Hc' & _). pose proof (fk_ctr _ Hfo). lia. }
    unfold total, chain_bytes in *. cbn [map concat] in *. fold (chain_bytes (a' :: l)) in *.
    rewrite app_assoc in Hlen, Hcap. rewrite length_app in Hlen, Hcap.
    destruct (step_middle ctx i up f0 ctr t bytes dirty a buf cap) as (ctx' & E & Hok' & Hh' & Hal'); try done;
      [apply Hal; by left|lia|].
    destruct (IH ctx' i f0 (ctr + 1) (ar_time a) _ _ Hok' Hh') as (ctx2 & E2 & Hok2); try done.
    + intros x Hx. apply Hal', Hal. by right.
    + lia.
    + rewrite length_app. unfold chain_bytes. cbn [map concat]. lia.
    + rewrite length_app. unfold chain_bytes. cbn [map concat]. lia.
    + exists ctx2. split; [|done]. cbn [feed_all] in *. rewrite E, E2.
      rewrite app_assoc. cbn [existsb length Nat.sub]. rewrite Nat.sub_0_r. cbn [replicate app].
      unfold chain_bytes. cbn [map concat].
      replace (negb (ar_crc_ok a) || (negb (ar_crc_ok a') || existsb (fun a => negb (ar_crc_ok a)) l) || dirty)
        with (negb (ar_crc_ok a') || existsb (fun a => negb (ar_crc_ok a)) l || (negb (ar_crc_ok a) || dirty))
        by btauto. by rewrite <- !app_assoc.
Qed.

(** ** Draining stale sessions *)

(** The driver's loop [while (ida_reassembler_reap(...)) ...]. *)
Fixpoint drain (fuel : nat) (ctx : ida_reassembler) (now : Z) (out : ida_salvage)
  : list ida_salvage * ida_reassembler :=
  match fuel with
  | O => ([], ctx)
  | S fuel =>
    match ida_reassembler_reap ctx now out with
    | (1, sv, ctx) => let '(svs, ctx) := drain fuel ctx now sv in (sv :: svs, ctx)
    | (_, _, ctx) => ([], ctx)
    end
  end.

Lemma reap_ctx_ok ctx now out : ctx_ok ctx -> ctx_ok (ida_reassembler_reap ctx now out).2.
Proof.
  intros Hok. unfold ida_reassembler_reap. destruct (find _ _); cbn [snd]; auto 6 with reasm.
Qed.

(** One reap: nothing due and nothing changed, or the lowest stale session is
    handed out and freed. *)
Lemma reap_spec ctx now out :
  ctx_ok ctx -> length (sv_payload out) = 320%nat ->
  let '(r, sv, ctx') := ida_reassembler_reap ctx now out in
  length (sv_payload sv) = 320%nat /\
  ((r = 0 /\ sv = out /\ ctx' = ctx /\
    forall i, (i < 4)%nat -> session_stale (session ctx i) now = false) \/
   (exists i, r = 1 /\ (i < 4)%nat /\ session_stale (session ctx i) now = true /\
      (forall j, (j < 4)%nat -> session ctx' j =
         if decide (i = j) then set_active (session ctx i) false else session ctx j) /\
      let s := session ctx i in
      sv_payload_len sv = rs_payload_len s /\ sv_uplink sv = rs_uplink s /\
      sv_freq_hz sv = rs_freq_hz s /\ sv_last_time_us sv = rs_last_time_us s /\
      sv_frags sv = rs_next_ctr s /\ sv_dirty sv = rs_dirty s /\
      take (Z.to_nat (rs_payload_len s)) (sv_payload sv) =
      take (Z.to_nat (rs_payload_len s)) (rs_payload s))).
Proof.
  intros Hok Hl. unfold ida_reassembler_reap.
  destruct (find _ _) as [i|] eqn:E.
  - apply find_some in E as [Hi Hst]. apply in_seq in Hi. unfold IDA_REASM_MAX_SESSIONS in Hi.
    destruct (session_ok_at ctx i Hok) as [H1 [H2 H3] _ _ _]. unfold IDA_REASM_MAX_BYTES in *.
    rewrite (proj2 (Z.ltb_ge _ 0)), (proj2 (Z.ltb_ge 320 _)) by lia.
    assert (Ht : length (take (Z.to_nat (rs_payload_len (session ctx i))) (rs_payload (session ctx i))) =
      Z.to_nat (rs_payload_len (session ctx i))) by (rewrite length_take; lia).
    split; [cbn [sv_payload]; rewrite length_blit; lia|]. right. exists i.
    split; [done|]. split; [lia|]. split; [done|]. split.
    { intros j Hj. rewrite session_bin_expired, session_count. apply session_set; [done|lia]. }
    cbn [sv_payload sv_payload_len sv_uplink sv_freq_hz sv_last_time_us sv_frags sv_dirty].
    repeat (split; [done|]). unfold blit. rewrite take_0. cbn [app].
    by rewrite take_app_length'.
  - split; [done|]. left. repeat (split; [done|]). intros i Hi.
    apply (find_none _ _ E). apply in_seq. unfold IDA_REASM_MAX_SESSIONS. lia.
Qed.

Definition stale_count (ctx : ida_reassembler) (now : Z) : nat :=
  length (List.filter (fun i => session_stale (session ctx i) now) (seq 0 4)).

Lemma filter_drop_one (P Q : nat -> bool) l i :
  List.NoDup l -> In i l -> P i = true -> Q i = false -> (forall j, In j l -> j <> i -> Q j = P j) ->
  S (length (List.filter Q l)) = length (List.filter P l).
Proof.
  intros Hnd Hin HP HQ Hj. induction Hnd as [|x l Hx Hnd IH]; [done|]. cbn.
  destruct (Nat.eq_dec x i) as [->|Hne].
  - rewrite HP, HQ. cbn. f_equal. f_equal. apply filter_ext_in. intros j Hjl. apply Hj; [by right|].
    intros ->. done.
  - destruct Hin as [->|Hin]; [done|]. rewrite (Hj x) by (done || by left).
    destruct (P x); cbn; [f_equal|]; apply IH; try done; intros j Hjl; apply Hj; by right.
Qed.

(** Sample inputs for the instances below: a fragment of [len] bytes of value
    [v], and a table in which one chain has been opened at time 0. *)
Definition sample_fragment (ctr cont len v : Z) : ida_decoded :=
  IdaDecoded true 10 10 0 200 (replicate 200 0) 0 cont 0 ctr 0 len 0 true (replicate 24 v) len
    0 0 true false 0.
Definition sample_open : ida_reassembler :=
  (ida_reassembler_feed_ex ida_reassembler_init (sample_fragment 0 1 20 0x41) true false 1626000000 0
     (replicate 320 0) 320).2.
Definition salvage_zero : ida_salvage := IdaSalvage (replicate 320 0) 0 false 0 0 0 false.

Lemma sample_fragment_ok ctr cont len v : 0 <= ctr < 8 -> 0 <= len <= 24 ->
  fragment_ok (sample_fragment ctr cont len v).
Proof. intros. by split. Qed.

Lemma sample_open_ok : ctx_ok sample_open.
Proof.
  apply feed_ctx_ok; [apply ida_reassembler_init_ok|apply sample_fragment_ok; lia|unfold is_u; lia..].
Qed.

(** ** Properties *)

(** C38: the table stays well formed.  Feeding any decoded fragment and reaping
    keep four sessions with lengths within their 320-byte buffers, counters
    modulo 8 and 64-bit times; a feed never reports more bytes than the
    caller's capacity and never grows the caller's buffer. *)
Theorem ida_reassembler_invariant ctx ida ok uplink freq now buf cap out :
  ctx_ok ctx -> fragment_ok ida -> is_u 32 freq -> is_u 64 now ->
  0 <= cap -> (Z.to_nat cap <= length buf)%nat ->
  let '(o, ctx') := ida_reassembler_feed_ex ctx ida ok uplink freq now buf cap in
  ctx_ok ctx' /\ ctx_ok (ida_reassembler_reap ctx now out).2 /\
  0 <= fo_len o <= cap /\ length (fo_payload o) = length buf /\
  (fo_ret o = 1 \/ fo_ret o = 0 \/ fo_ret o = -1) /\
  (fo_ret o <> 1 -> fo_payload o = buf /\ fo_len o = 0 /\ fo_dirty o = false).
Proof.
  intros Hok Hf Hfr Hnow Hcap Hbuf.
  pose proof (feed_ctx_ok ctx ida ok uplink freq now buf cap Hok Hf Hfr Hnow) as Hok'.
  pose proof (reap_ctx_ok ctx now out Hok) as Hre. rewrite feed_cases in * by done. cbv zeta in *.
  pose proof (fk_len _ Hf). pose proof (fk_payload _ Hf).
  destruct (da_ctr ida =? 0).
  - destruct (da_cont ida =? 0).
    + split; [done|]. split; [done|]. cbn [fo_len fo_payload fo_ret]. split; [lia|].
      split; [rewrite length_blit; rewrite ?length_take; lia|]. split; [by left|done].
    + destruct (find_free_session ctx); (split; [done|]); (split; [done|]);
        cbn [fo_len fo_payload fo_ret fo_dirty]; repeat split; (lia || auto).
  - destruct (find_matching_session _ _ _ _ _) as [i|].
    2:{ split; [done|]. split; [done|]. cbn [fo_len fo_payload fo_ret fo_dirty]. repeat split; (lia || auto). }
    destruct (session_ok_at ctx i Hok) as [H1 H2 _ _ _]. unfold IDA_REASM_MAX_BYTES in *.
    destruct (Z.ltb_spec (320 - rs_payload_len (session ctx i)) (id_payload_len ida)).
    { split; [done|]. split; [done|]. cbn [fo_len fo_payload fo_ret fo_dirty]. repeat split; (lia || auto). }
    destruct (da_cont ida =? 0); (split; [done|]); (split; [done|]);
      cbn [fo_len fo_payload fo_ret fo_dirty]; [|repeat split; (lia || auto)].
    split; [lia|]. split; [|split; [by left|done]].
    rewrite length_blit; [done|]. rewrite length_take, length_blit; rewrite ?length_fragment by (done || lia); lia.
Qed.

Lemma ida_reassembler_invariant_witness :
  let '(o, ctx') := ida_reassembler_feed_ex sample_open (sample_fragment 1 0 5 0x42) true false
    1626000100 90000 (replicate 320 0) 320 in ctx_ok ctx' /\ 0 <= fo_len o <= 320.
Proof.
  pose proof (ida_reassembler_invariant sample_open (sample_fragment 1 0 5 0x42) true false 1626000100 90000
    (replicate 320 0) 320 salvage_zero sample_open_ok ltac:(apply sample_fragment_ok; lia)
    ltac:(unfold is_u; lia) ltac:(unfold is_u; lia) ltac:(lia) ltac:(rewrite length_replicate; lia)) as H.
  destruct (ida_reassembler_feed_ex _ _ _ _ _ _ _ _) as [o ctx'].
  destruct H as (H1 & _ & H2 & _). split; [exact H1|exact H2].
Defined.

(** C22: in-order chains reassemble.  An opener and its continuations with
    consecutive counters, each inside the frequency deadband of the opener and
    within 700 ms of its predecessor, in any table with a free slot where no
    other open chain of that direction is near those frequencies, and with
    payloads that fit the session and the caller's buffer: every feed but the
    last is consumed silently, the last returns exactly the
    concatenated payload bytes, marked dirty exactly when some continuation
    failed its CRC. *)
Theorem ida_chain_reassembles ctx up buf cap a l :
  ctx_ok ctx -> arrival_ok a -> da_ctr (ar_ida a) = 0 -> da_cont (ar_ida a) <> 0 ->
  ar_freq a + IDA_REASM_FREQ_DEADBAND_HZ < 2 ^ 32 ->
  in_order (ar_freq a) 1 (ar_time a) l ->
  (exists i, (i < 4)%nat /\ rs_active (session ctx i) = false) ->
  (forall x i, In x l -> (i < 4)%nat -> rs_active (session ctx i) = true ->
     rs_uplink (session ctx i) = up -> in_deadband (session ctx i) (ar_freq x) = false) ->
  let total := chain_bytes (a :: l) in
  Z.of_nat (length total) <= 320 -> Z.of_nat (length total) <= cap ->
  exists ctx', feed_all up buf cap ctx (a :: l) =
    (replicate (length l) (FeedOut 0 buf 0 false) ++
     [FeedOut 1 (blit buf 0 total) (Z.of_nat (length total))
        (existsb (fun x => negb (ar_crc_ok x)) l)], ctx').
Proof.
  intros Hok Ha Hc Hcont Hf32 Hin Hfree Hal total Hlen Hcap.
  destruct (step_open ctx up a buf cap Hok Ha Hc Hcont Hfree) as (i & ctx1 & E1 & Hok1 & Hh & Hal1).
  cbn [feed_all]. rewrite E1. unfold total, chain_bytes in *. cbn [map concat] in *. fold (chain_bytes l) in *.
  destruct (chain_rest l up buf cap ctx1 i (ar_freq a) 1 (ar_time a) (fragment_bytes (ar_ida a)) false)
    as (ctx2 & E & _); try done.
  { intros x Hx. apply Hal1. intros j Hj. by apply Hal. }
  rewrite E, orb_false_r. exists ctx2. f_equal.
  destruct l as [|x l]; [done|]. cbn [length Nat.sub]. by rewrite Nat.sub_0_r.
Qed.

Lemma ida_chain_reassembles_witness :
  let a := Arrival (sample_fragment 0 1 20 0x41) true 1626000000 0 in
  let b := Arrival (sample_fragment 1 0 5 0x42) true 1626001000 90000 in
  exists ctx', feed_all false (replicate 320 0) 320 ida_reassembler_init [a; b] =
    ([FeedOut 0 (replicate 320 0) 0 false;
      FeedOut 1 (blit (replicate 320 0) 0 (chain_bytes [a; b])) 25 false], ctx').
Proof.
  intros a b.
  assert (Ha : forall x, x = a \/ x = b -> arrival_ok x).
  { intros x [-> | ->]; (split; [apply sample_fragment_ok; lia|unfold is_u; cbn; lia]). }
  destruct (ida_chain_reassembles ida_reassembler_init false (replicate 320 0) 320 a [b]) as (ctx' & E).
  - apply ida_reassembler_init_ok.
  - apply Ha. by left.
  - reflexivity.
  - cbn. lia.
  - vm_compute. reflexivity.
  - cbn. unfold IDA_REASM_FRAG_GAP_US, IDA_REASM_FREQ_DEADBAND_HZ.
    split; [apply Ha; by right|]. repeat split; lia.
  - exists 0%nat. split; [lia|reflexivity].
  - intros x i _ Hi Hact. exfalso. revert Hact.
    destruct i as [|[|[|[|i]]]]; cbn; [discriminate..|lia].
  - vm_compute. discriminate.
  - vm_compute. discriminate.
  - exists ctx'. exact E.
Defined.

(** A session that has gone stale can no longer capture fragments: what the
    search accepts is active, of the same direction and counter, within 5 kHz
    and at most 700 ms old, so nothing the reaper would take at that moment. *)
Theorem ida_match_is_fresh ctx uplink freq ctr now i :
  ctx_ok ctx -> is_u 64 now -> 0 <= freq ->
  Forall (fun s => rs_freq_hz s + IDA_REASM_FREQ_DEADBAND_HZ < 2 ^ 32) (ir_sessions ctx) ->
  find_matching_session ctx uplink freq ctr now = Some i ->
  let s := session ctx i in
  rs_active s = true /\ rs_uplink s = uplink /\ rs_next_ctr s = ctr /\
  Z.abs (freq - rs_freq_hz s) <= 5000 /\
  rs_last_time_us s <= now <= rs_last_time_us s + 700000 /\
  session_stale s now = false /\
  (forall j, (i < j < 4)%nat -> matches_ignoring_freq (session ctx j) uplink ctr now = true ->
     in_deadband (session ctx j) freq = false).
Proof.
  intros Hok Hnow Hfq H32 Hm. destruct (find_matching_bound _ _ _ _ _ _ Hm) as (Hi & Hmt & Hdb).
  pose proof (session_ok_at ctx i Hok) as Hs.
  apply in_deadband_spec in Hdb; [|apply (so_freq _ Hs)| |done].
  2:{ unfold session. rewrite nth_lookup. destruct (ir_sessions ctx !! i) as [s|] eqn:E; [|done].
      exact (Forall_lookup_1 _ _ _ _ H32 E). }
  pose proof Hmt as Hmt'. apply matches_spec in Hmt' as (H1 & H2 & H3 & H4); [|done..].
  unfold IDA_REASM_FRAG_GAP_US, IDA_REASM_FREQ_DEADBAND_HZ in *.
  do 4 (split; [done|]). split; [lia|]. split.
  - destruct (session_stale (session ctx i) now) eqn:E; [|done].
    apply session_stale_spec in E as [_ E]; [|done..]. unfold IDA_REASM_SESSION_TIMEOUT_US in E. lia.
  - intros j Hj Hmj. destruct (in_deadband (session ctx j) freq) eqn:Ej; [exfalso|done].
    unfold find_matching_session in Hm. change (rev (seq 0 IDA_REASM_MAX_SESSIONS)) with [3; 2; 1; 0]%nat in Hm.
    cbn [find] in Hm.
    assert (Hp : matches_ignoring_freq (session ctx j) uplink ctr now && in_deadband (session ctx j) freq = true)
      by (by rewrite Hmj, Ej).
    assert (j = 3 \/ j = 2 \/ j = 1)%nat as [-> | [-> | ->]] by lia; rewrite Hp in Hm;
      repeat (destruct (_ && _) in Hm); injection Hm as <-; lia.
Qed.

Lemma ida_match_is_fresh_witness : session_stale (session sample_open 0) 90000 = false.
Proof.
  apply (ida_match_is_fresh sample_open false 1626000100 1 90000 0).
  - apply sample_open_ok.
  - unfold is_u. lia.
  - lia.
  - apply (bool_decide_unpack _). vm_compute. reflexivity.
  - vm_compute. reflexivity.
Defined.

(** Draining terminates and is complete.  At most four reaps return 1;
    afterwards no session is stale, sessions that were not stale are untouched,
    and the number of salvaged payloads is the number of stale sessions. *)
Theorem ida_drain_complete ctx now out :
  ctx_ok ctx -> length (sv_payload out) = 320%nat ->
  let '(svs, ctx') := drain 4 ctx now out in
  (ida_reassembler_reap ctx' now out).1.1 = 0 /\ length svs = stale_count ctx now /\
  (forall i, (i < 4)%nat -> session_stale (session ctx' i) now = false) /\
  (forall i, (i < 4)%nat -> session_stale (session ctx i) now = false -> session ctx' i = session ctx i).
Proof.
  intros Hok Hl.
  assert (Hgen : forall n ctx out, (stale_count ctx now <= n)%nat -> ctx_ok ctx ->
    length (sv_payload out) = 320%nat ->
    let '(svs, ctx') := drain n ctx now out in
    ctx_ok ctx' /\ length svs = stale_count ctx now /\
    (forall i, (i < 4)%nat -> session_stale (session ctx' i) now = false) /\
    (forall i, (i < 4)%nat -> session_stale (session ctx i) now = false -> session ctx' i = session ctx i)).
  { clear. induction n as [|n IH]; intros ctx out Hn Hok Hl; cbn [drain].
    - split; [done|]. split; [symmetry; apply Nat.le_0_r; exact Hn|]. split; [|done]. intros i Hi.
      destruct (session_stale (session ctx i) now) eqn:E; [|done]. unfold stale_count in Hn.
      assert (Hin : In i (List.filter (fun i => session_stale (session ctx i) now) (seq 0 4)))
        by (apply List.filter_In; split; [apply in_seq; lia|done]).
      destruct (List.filter _ _); [done|cbn in Hn; lia].
    - pose proof (reap_spec ctx now out Hok Hl) as Hr. pose proof (reap_ctx_ok ctx now out Hok) as Hok1.
      destruct (ida_reassembler_reap ctx now out) as [[r sv] ctx1]. destruct Hr as [Hl1 Hr]. cbn [snd] in Hok1.
      destruct Hr as [(-> & -> & -> & Hnone)|(i & -> & Hi & Hst & Hses & _)].
      + split; [done|]. split; [|done]. unfold stale_count.
        destruct (List.filter _ _) as [|i l] eqn:E; [done|exfalso].
        assert (Hin : In i (i :: l)) by (by left). rewrite <- E in Hin.
        apply List.filter_In in Hin as [Hin Hs]. apply in_seq in Hin. rewrite Hnone in Hs; [done|lia].
      + assert (Hcnt : S (stale_count ctx1 now) = stale_count ctx now).
        { apply (filter_drop_one _ _ _ i); [apply seq_NoDup|apply in_seq; lia|done| |].
          - by rewrite Hses, decide_True by done.
          - intros j Hj Hne. apply in_seq in Hj. by rewrite Hses, decide_False by (done || lia). }
        specialize (IH ctx1 sv ltac:(lia) Hok1 Hl1).
        destruct (drain n ctx1 now sv) as [svs ctx'] eqn:Ed. destruct IH as (I1 & I2 & I3 & I4).
        split; [done|]. split; [cbn [length]; lia|]. split; [done|]. intros j Hj Hns.
        assert (Hne : i <> j) by congruence.
        rewrite I4; rewrite ?Hses, ?decide_False by done; done. }
  assert (H4 : (stale_count ctx now <= 4)%nat)
    by (apply (List.filter_length_le (fun i => session_stale (session ctx i) now) (seq 0 4))).
  specialize (Hgen 4%nat ctx out H4 Hok Hl). destruct (drain 4 ctx now out) as [svs ctx'].
  destruct Hgen as (Hok' & Hlen & Hn & Hk). split; [|done].
  pose proof (reap_spec ctx' now out Hok' Hl) as Hr.
  destruct (ida_reassembler_reap ctx' now out) as [[r sv] ctx2]. cbn [fst].
  destruct Hr as [_ [(-> & _)|(i & _ & Hi & Hst & _)]]; [done|]. by rewrite Hn in Hst.
Qed.

Lemma ida_drain_complete_witness :
  let '(svs, ctx') := drain 4 sample_open 2000000 salvage_zero in
  length svs = stale_count sample_open 2000000.
Proof.
  pose proof (ida_drain_complete sample_open 2000000 salvage_zero sample_open_ok eq_refl) as H.
  destruct (drain 4 sample_open 2000000 salvage_zero). apply H.
Defined.
