(* ===== verification/SbdReassembler.v ===== *)
(** SBD message reassembly and truncation-tolerant salvage
    (src/common/iridium_decoder/sbd_reassembler.c).

    An envelope is parsed (type bytes, pre-header, optional 0x10 sub-header)
    and then dispatched: short and single messages are emitted at once, the
    first frame of a longer message opens one of eight sessions, and further
    frames extend it.  [sbd_salvage_parse] repeats the parse without the
    dispatch and without rejecting truncated envelopes. *)

From S2P Require Import Prelude Bits.
From Stdlib Require String.
Import (notations) String.

Definition SBD_TIMEOUT_US : Z := 5 * 1000000.
Definition SBD_MSG_CNT_MAX : Z := 32.
Definition SBD_MAX_SESSIONS : nat := 8.
Definition SBD_MAX_PAYLOAD : Z := 320.

Inductive sbd_type :=
  | SBD_TYPE_UNKNOWN | SBD_TYPE_HELLO_0600
  | SBD_TYPE_DATA_DL_7608 | SBD_TYPE_DATA_DL_7609 | SBD_TYPE_DATA_DL_760A | SBD_TYPE_DATA_DL_760B
  | SBD_TYPE_DATA_UL_760C | SBD_TYPE_DATA_UL_760D | SBD_TYPE_DATA_UL_760E.

#[export] Instance sbd_type_eq_dec : EqDecision sbd_type.
Proof. solve_decision. Defined.

Definition sbd_type_wire_name (t : sbd_type) : String.string :=
  match t with
  | SBD_TYPE_UNKNOWN => "????" | SBD_TYPE_HELLO_0600 => "0600"
  | SBD_TYPE_DATA_DL_7608 => "7608" | SBD_TYPE_DATA_DL_7609 => "7609"
  | SBD_TYPE_DATA_DL_760A => "760a" | SBD_TYPE_DATA_DL_760B => "760b"
  | SBD_TYPE_DATA_UL_760C => "760c" | SBD_TYPE_DATA_UL_760D => "760d"
  | SBD_TYPE_DATA_UL_760E => "760e"
  end%string.

(** ** State *)

Record sbd_message := SbdMessage {
  m_type : sbd_type; m_uplink : bool; m_timestamp_us : Z; m_payload : list Z; m_payload_len : Z;
  m_msg_count : Z; m_msg_no : Z }.

Record sbd_session := SbdSession {
  ss_active : bool; ss_type : sbd_type; ss_uplink : bool; ss_msg_no_next : Z; ss_msg_cnt : Z;
  ss_last_update_us : Z; ss_msg : sbd_message }.

Record sbd_reassembler := SbdReassembler {
  sr_sessions : list sbd_session;
  cnt_short : Z; cnt_single : Z; cnt_assembled : Z; cnt_multi : Z; cnt_broken : Z;
  cnt_filtered : Z }.

Definition sbd_message_zero : sbd_message :=
  SbdMessage SBD_TYPE_UNKNOWN false 0 (replicate (Z.to_nat SBD_MAX_PAYLOAD) 0) 0 0 0.
Definition sbd_session_zero : sbd_session :=
  SbdSession false SBD_TYPE_UNKNOWN false 0 0 0 sbd_message_zero.
Definition sbd_reassembler_init : sbd_reassembler :=
  SbdReassembler (replicate SBD_MAX_SESSIONS sbd_session_zero) 0 0 0 0 0 0.

(** [ctx->sessions[i]] and its update; counters are 32-bit. *)
Definition sbd_at (ctx : sbd_reassembler) (i : nat) : sbd_session :=
  nth i (sr_sessions ctx) sbd_session_zero.
Definition sbd_set (ctx : sbd_reassembler) (i : nat) (s : sbd_session) : sbd_reassembler :=
  SbdReassembler (<[i := s]> (sr_sessions ctx)) (cnt_short ctx) (cnt_single ctx) (cnt_assembled ctx)
    (cnt_multi ctx) (cnt_broken ctx) (cnt_filtered ctx).
Definition sbd_count (ctx : sbd_reassembler) (short single assembled multi broken filtered : Z)
  : sbd_reassembler :=
  SbdReassembler (sr_sessions ctx) (u32 (cnt_short ctx + short)) (u32 (cnt_single ctx + single))
    (u32 (cnt_assembled ctx + assembled)) (u32 (cnt_multi ctx + multi))
    (u32 (cnt_broken ctx + broken)) (u32 (cnt_filtered ctx + filtered)).
Definition sbd_deactivate (s : sbd_session) : sbd_session :=
  SbdSession false (ss_type s) (ss_uplink s) (ss_msg_no_next s) (ss_msg_cnt s) (ss_last_update_us s)
    (ss_msg s).

(** ** Parsing *)

Definition classify (p : list Z) (len : Z) (uplink : bool) : sbd_type :=
  if len <? 2 then SBD_TYPE_UNKNOWN
  else if (rd p 0 =? 0x06) && (rd p 1 =? 0x00) then SBD_TYPE_HELLO_0600
  else if rd p 0 =? 0x76 then
    if uplink then
      if rd p 1 =? 0x0c then SBD_TYPE_DATA_UL_760C
      else if rd p 1 =? 0x0d then SBD_TYPE_DATA_UL_760D
      else if rd p 1 =? 0x0e then SBD_TYPE_DATA_UL_760E
      else SBD_TYPE_UNKNOWN
    else
      if rd p 1 =? 0x08 then SBD_TYPE_DATA_DL_7608
      else if rd p 1 =? 0x09 then SBD_TYPE_DATA_DL_7609
      else if rd p 1 =? 0x0a then SBD_TYPE_DATA_DL_760A
      else if rd p 1 =? 0x0b then SBD_TYPE_DATA_DL_760B
      else SBD_TYPE_UNKNOWN
  else SBD_TYPE_UNKNOWN.

(** A parsed envelope: type, declared count, message number, and the body as
    an offset ([p]) and a length ([n]) into the payload. *)
Record envelope := Envelope {
  ev_type : sbd_type; ev_msg_cnt : Z; ev_msg_no : Z; ev_off : nat; ev_len : Z }.

(** [p[k]] for [p = payload + off]. *)
Definition at_ (payload : list Z) (off k : nat) : Z := rd payload (off + k).

(** The pre-header length of a 0x7608 envelope. *)
Definition prehdr_len_7608 (payload : list Z) (off : nat) (n : Z) : Z :=
  if (1 <=? n) && (at_ payload off 0 =? 0x26) then 7
  else if (1 <=? n) && (at_ payload off 0 =? 0x20) then 5
  else 7.

(** The parse in [sbd_reassembler_feed]; [None] is [cnt_filtered++; return -1]. *)
Definition feed_parse (payload : list Z) (payload_len : Z) (uplink : bool) : option envelope :=
  if payload_len <? 5 then None else
  let typ := classify payload payload_len uplink in
  if decide (typ = SBD_TYPE_UNKNOWN) then None else
  let p := 2%nat in
  let n := payload_len - 2 in
  let cap n := if SBD_MAX_PAYLOAD <? n then SBD_MAX_PAYLOAD else n in
  if decide (typ = SBD_TYPE_HELLO_0600) then
    if (n <? 1) || negb (at_ payload p 0 =? 0x20) then None else
    if n <? 16 then None else
    let prehdr_len := if n <? 29 then n else 29 in
    let msg_cnt := at_ payload p 15 in
    let msg_no := if msg_cnt =? 0 then 0 else 1 in
    Some (Envelope typ msg_cnt msg_no (p + Z.to_nat prehdr_len) (cap (n - prehdr_len)))
  else
    let step1 :=
      if decide (typ = SBD_TYPE_DATA_DL_7608) then
        let prehdr_len := prehdr_len_7608 payload p n in
        if n <? prehdr_len then None
        else Some (at_ payload p 3, (p + Z.to_nat prehdr_len)%nat, n - prehdr_len)
      else Some (-1, p, n) in
    match step1 with
    | None => None
    | Some (msg_cnt, p, n) =>
      let '(p, n) :=
        if uplink && (3 <=? n) && ((at_ payload p 0 =? 0x50) || (at_ payload p 0 =? 0x51))
        then ((p + 3)%nat, n - 3) else (p, n) in
      if n =? 0 then Some (Envelope typ msg_cnt 0 p (cap n))
      else if (3 <? n) && (at_ payload p 0 =? 0x10) then
        let hdr_payload_len := at_ payload p 1 in
        let msg_no := at_ payload p 2 in
        let p := (p + 3)%nat in
        let n := n - 3 in
        if n <? hdr_payload_len then None
        else Some (Envelope typ msg_cnt msg_no p (cap (if hdr_payload_len <? n then hdr_payload_len else n)))
      else Some (Envelope typ msg_cnt 0 p (cap n))
    end.

(** The result struct of the salvage parse; [sg_body] is the offset of the body
    pointer, [None] for NULL. *)
Record sbd_salvage_info := SbdSalvageInfo {
  sg_type : sbd_type; sg_truncated : bool; sg_msg_no : Z; sg_msg_cnt : Z;
  sg_body : option nat; sg_body_len : Z }.

(** [memset(out, 0, sizeof *out); out->msg_cnt = -1] *)
Definition salvage_blank : sbd_salvage_info := SbdSalvageInfo SBD_TYPE_UNKNOWN false 0 (-1) None 0.

Definition salvage_finish (typ : sbd_type) (truncated : bool) (msg_no msg_cnt : Z) (p : nat) (n : Z)
  : Z * sbd_salvage_info :=
  let n := if n <? 0 then 0 else n in
  let n := if SBD_MAX_PAYLOAD <? n then SBD_MAX_PAYLOAD else n in
  (1, SbdSalvageInfo typ truncated msg_no msg_cnt (if 0 <? n then Some p else None) n).

Definition sbd_salvage_parse (payload : list Z) (payload_len : Z) (uplink : bool)
  : Z * sbd_salvage_info :=
  if payload_len <? 0 then (0, salvage_blank) else
  let typ := classify payload payload_len uplink in
  if decide (typ = SBD_TYPE_UNKNOWN) then (0, salvage_blank) else
  let p := 2%nat in
  let n := payload_len - 2 in
  if decide (typ = SBD_TYPE_HELLO_0600) then
    if n <? 1 then salvage_finish typ true 0 (-1) p 0
    else if negb (at_ payload p 0 =? 0x20) then (0, salvage_blank)
    else if n <? 16 then salvage_finish typ true 0 (-1) p 0
    else
      let prehdr_len := if n <? 29 then n else 29 in
      let msg_cnt := at_ payload p 15 in
      salvage_finish typ false (if msg_cnt =? 0 then 0 else 1) msg_cnt
        (p + Z.to_nat prehdr_len) (n - prehdr_len)
  else
    let '(truncated, msg_cnt, p, n) :=
      if decide (typ = SBD_TYPE_DATA_DL_7608) then
        let prehdr_len := prehdr_len_7608 payload p n in
        if prehdr_len <=? n then (false, at_ payload p 3, (p + Z.to_nat prehdr_len)%nat, n - prehdr_len)
        else (true, -1, p, 0)
      else (false, -1, p, n) in
    if truncated : bool then salvage_finish typ true 0 msg_cnt p n else
    let '(p, n) :=
      if uplink && (3 <=? n) && ((at_ payload p 0 =? 0x50) || (at_ payload p 0 =? 0x51))
      then ((p + 3)%nat, n - 3) else (p, n) in
    if n =? 0 then salvage_finish typ false 0 msg_cnt p n
    else if (3 <? n) && (at_ payload p 0 =? 0x10) then
      let hdr_payload_len := at_ payload p 1 in
      let msg_no := at_ payload p 2 in
      let p := (p + 3)%nat in
      let n := n - 3 in
      if n <? hdr_payload_len then salvage_finish typ true msg_no msg_cnt p n
      else salvage_finish typ false msg_no msg_cnt p (if hdr_payload_len <? n then hdr_payload_len else n)
    else salvage_finish typ false 0 msg_cnt p n.

(** ** Sessions *)

Definition sbd_find_free_session (ctx : sbd_reassembler) : option nat :=
  find (fun i => negb (ss_active (sbd_at ctx i))) (seq 0 SBD_MAX_SESSIONS).

Definition sbd_matches (s : sbd_session) (msgno : Z) (uplink : bool) (typ : sbd_type) : bool :=
  ss_active s && (ss_msg_no_next s =? msgno) && Bool.eqb (ss_uplink s) uplink &&
  bool_decide (ss_type s = typ).

Definition sbd_find_matching_session (ctx : sbd_reassembler) (msgno : Z) (uplink : bool) (typ : sbd_type)
  : option nat :=
  find (fun i => sbd_matches (sbd_at ctx i) msgno uplink typ) (rev (seq 0 SBD_MAX_SESSIONS)).

Definition sbd_stale (s : sbd_session) (now_us : Z) : bool :=
  ss_active s && (ss_last_update_us s <? now_us) &&
  (SBD_TIMEOUT_US <? u64 (now_us - ss_last_update_us s)).

Definition sbd_reassembler_tick (ctx : sbd_reassembler) (now_us : Z) : sbd_reassembler :=
  forN SBD_MAX_SESSIONS (fun i ctx =>
    let s := sbd_at ctx i in
    if sbd_stale s now_us then sbd_count (sbd_set ctx i (sbd_deactivate s)) 0 0 0 0 1 0 else ctx) ctx.

(** [out_msg] is the caller's struct; the body is copied to its start. *)
Definition message_of (out : sbd_message) (typ : sbd_type) (uplink : bool) (now n : Z) (body : list Z)
    (count no : Z) : sbd_message :=
  SbdMessage typ uplink now (blit (m_payload out) 0 body) (u16 n) count no.

(** Everything after the parse and the bound check. *)
Definition feed_dispatch (ctx : sbd_reassembler) (payload : list Z) (e : envelope) (uplink : bool)
    (now_us : Z) (out_msg : sbd_message) : Z * sbd_message * sbd_reassembler :=
  let '(Envelope typ msg_cnt msg_no off n) := e in
  let body := slice payload off (Z.to_nat n) in
  let ctx := sbd_reassembler_tick ctx now_us in
  if msg_no =? 0 then
    (1, message_of out_msg typ uplink now_us (if 0 <? n then n else 0) body
          (u8 (if 0 <? msg_cnt then msg_cnt else 1)) 0, sbd_count ctx 1 0 0 0 0 0)
  else if (msg_cnt =? 1) && (msg_no =? 1) then
    (1, message_of out_msg typ uplink now_us n body 1 1, sbd_count ctx 0 1 0 0 0 0)
  else if (1 <? msg_cnt) && (msg_cnt <=? SBD_MSG_CNT_MAX) && (msg_no =? 1) then
    match sbd_find_free_session ctx with
    | None => (0, out_msg, sbd_count ctx 0 0 0 0 1 0)
    | Some idx =>
      let s := SbdSession true typ uplink 2 (u8 msg_cnt) now_us
                 (message_of (ss_msg (sbd_at ctx idx)) typ uplink now_us n body (u8 msg_cnt) 1) in
      (0, out_msg, sbd_count (sbd_set ctx idx s) 0 0 1 0 0 0)
    end
  else if 1 <? msg_no then
    match sbd_find_matching_session ctx (u8 msg_no) uplink typ with
    | None => (0, out_msg, sbd_count ctx 0 0 0 0 1 0)
    | Some idx =>
      let s := sbd_at ctx idx in
      let m := ss_msg s in
      let avail := SBD_MAX_PAYLOAD - m_payload_len m in
      let copy := if n <? avail then n else avail in
      let '(payload', len') :=
        if 0 <? copy
        then (blit (m_payload m) (Z.to_nat (m_payload_len m)) (slice payload off (Z.to_nat copy)),
              u16 (m_payload_len m + copy))
        else (m_payload m, m_payload_len m) in
      let m := SbdMessage (m_type m) (m_uplink m) (m_timestamp_us m) payload' len' (m_msg_count m)
                 (u8 msg_no) in
      let s active := SbdSession active (ss_type s) (ss_uplink s) (u8 (msg_no + 1)) (ss_msg_cnt s) now_us m in
      if msg_no =? ss_msg_cnt (s true)
      then (1, m, sbd_count (sbd_set ctx idx (s false)) 0 0 1 1 0 0)
      else (0, out_msg, sbd_count (sbd_set ctx idx (s true)) 0 0 1 0 0 0)
    end
  else (-1, out_msg, sbd_count ctx 0 0 0 0 0 1).

Definition sbd_reassembler_feed (ctx : sbd_reassembler) (payload : list Z) (payload_len : Z)
    (uplink : bool) (now_us : Z) (out_msg : sbd_message) : Z * sbd_message * sbd_reassembler :=
  match feed_parse payload payload_len uplink with
  | None => (-1, out_msg, sbd_count ctx 0 0 0 0 0 1)
  | Some e => feed_dispatch ctx payload e uplink now_us out_msg
  end.

(** ** Parsing lemmas *)

(** The salvage result that an accepted envelope corresponds to. *)
Definition info_of (e : envelope) : sbd_salvage_info :=
  SbdSalvageInfo (ev_type e) false (ev_msg_no e) (ev_msg_cnt e)
    (if 0 <? ev_len e then Some (ev_off e) else None) (ev_len e).

Record envelope_ok (payload_len : Z) (e : envelope) : Prop := {
  ek_type : ev_type e <> SBD_TYPE_UNKNOWN;
  ek_no : 0 <= ev_msg_no e < 256;
  ek_cnt : -1 <= ev_msg_cnt e < 256;
  ek_off : (2 <= ev_off e)%nat;
  ek_len : 0 <= ev_len e <= SBD_MAX_PAYLOAD;
  ek_in : Z.of_nat (ev_off e) + ev_len e <= payload_len;
  ek_hello : ev_type e = SBD_TYPE_HELLO_0600 -> ev_msg_no e <= 1 }.

Lemma at_byte payload off k : is_bytes payload -> 0 <= at_ payload off k < 256.
Proof.
  intros H. unfold at_, rd. rewrite nth_lookup. destruct (payload !! (off + k)%nat) eqn:E; cbn; [|lia].
  exact (Forall_lookup_1 _ _ _ _ H E).
Qed.

Lemma prehdr_len_range payload off n : prehdr_len_7608 payload off n = 7 \/ prehdr_len_7608 payload off n = 5.
Proof. unfold prehdr_len_7608. repeat case_match; auto. Qed.

Lemma prehdr_len_local payload payload' off n :
  at_ payload off 0 = at_ payload' off 0 \/ n < 1 ->
  prehdr_len_7608 payload off n = prehdr_len_7608 payload' off n.
Proof.
  unfold prehdr_len_7608. intros [->|H]; [done|]. by rewrite (proj2 (Z.leb_gt 1 n)).
Qed.

Ltac env_ok_tac :=
  split; cbn [ev_type ev_msg_no ev_msg_cnt ev_off ev_len]; unfold SBD_MAX_PAYLOAD in *;
    (done || lia || congruence).

(** [feed]'s parse against the salvage parse, and the bounds of its result. *)
Lemma parse_agree payload len uplink :
  is_bytes payload ->
  match feed_parse payload len uplink with
  | Some e => 5 <= len /\ envelope_ok len e /\ sbd_salvage_parse payload len uplink = (1, info_of e)
  | None => len < 5 \/ (sbd_salvage_parse payload len uplink).1 = 0 \/
            sg_truncated (sbd_salvage_parse payload len uplink).2 = true
  end.
Proof.
  intros Hb. unfold feed_parse, sbd_salvage_parse.
  destruct (Z.ltb_spec len 5); [by left|]. rewrite (proj2 (Z.ltb_ge len 0)) by lia.
  cbv zeta. destruct (decide (classify payload len uplink = SBD_TYPE_UNKNOWN)) as [|Hu]; [by right; left|].
  destruct (decide (classify payload len uplink = SBD_TYPE_HELLO_0600)) as [Eh|Hh].
  - rewrite (proj2 (Z.ltb_ge (len - 2) 1)) by lia. cbn [orb]. pose proof (at_byte payload 2 15 Hb).
    unfold salvage_finish, info_of, SBD_MAX_PAYLOAD.
    destruct (at_ payload 2 0 =? 0x20); cbn [negb]; [|by right; left].
    destruct (Z.ltb_spec (len - 2) 16); [by right; right|].
    destruct (Z.ltb_spec (len - 2) 29).
    + split; [lia|]. rewrite Z.sub_diag. cbn [Z.ltb Z.compare].
      split; [|done]. destruct (at_ payload 2 15 =? 0) eqn:E; env_ok_tac.
    + rewrite (proj2 (Z.ltb_ge (len - 2 - 29) 0)) by lia. split; [lia|].
      split; [|by destruct (320 <? len - 2 - 29)].
      destruct (Z.ltb_spec 320 (len - 2 - 29)), (at_ payload 2 15 =? 0); env_ok_tac.
  - assert (Hrest : forall (cnt : Z) (p : nat) (n : Z), -1 <= cnt < 256 -> (2 <= p)%nat -> 0 <= n ->
      Z.of_nat p + n <= len ->
      let typ := classify payload len uplink in
      let cap n := if SBD_MAX_PAYLOAD <? n then SBD_MAX_PAYLOAD else n in
      match
        (let '(p, n) := if uplink && (3 <=? n) && ((at_ payload p 0 =? 0x50) || (at_ payload p 0 =? 0x51))
           then ((p + 3)%nat, n - 3) else (p, n) in
         if n =? 0 then Some (Envelope typ cnt 0 p (cap n))
         else if (3 <? n) && (at_ payload p 0 =? 0x10) then
           if n - 3 <? at_ payload p 1 then None
           else Some (Envelope typ cnt (at_ payload p 2) (p + 3)
                  (cap (if at_ payload p 1 <? n - 3 then at_ payload p 1 else n - 3)))
         else Some (Envelope typ cnt 0 p (cap n))),
        (let '(p, n) := if uplink && (3 <=? n) && ((at_ payload p 0 =? 0x50) || (at_ payload p 0 =? 0x51))
           then ((p + 3)%nat, n - 3) else (p, n) in
         if n =? 0 then salvage_finish typ false 0 cnt p n
         else if (3 <? n) && (at_ payload p 0 =? 0x10) then
           if n - 3 <? at_ payload p 1 then salvage_finish typ true (at_ payload p 2) cnt (p + 3) (n - 3)
           else salvage_finish typ false (at_ payload p 2) cnt (p + 3)
                  (if at_ payload p 1 <? n - 3 then at_ payload p 1 else n - 3)
         else salvage_finish typ false 0 cnt p n)
      with
      | Some e, sg => 5 <= len /\ envelope_ok len e /\ sg = (1, info_of e)
      | None, sg => len < 5 \/ sg.1 = 0 \/ sg_truncated sg.2 = true
      end).
    { intros cnt p n Hc Hp Hn Hin typ cap.
      assert (Hfin : forall no p' n', 0 <= no < 256 -> (2 <= p')%nat -> 0 <= n' -> Z.of_nat p' + n' <= len ->
        5 <= len /\ envelope_ok len (Envelope typ cnt no p' (cap n')) /\
        salvage_finish typ false no cnt p' n' = (1, info_of (Envelope typ cnt no p' (cap n')))).
      { intros no p' n' Hno Hp' Hn' Hi'. split; [lia|]. unfold cap, salvage_finish, info_of, SBD_MAX_PAYLOAD.
        rewrite (proj2 (Z.ltb_ge n' 0)) by lia. split; [|done].
        destruct (Z.ltb_spec 320 n'); env_ok_tac. }
      assert (Hstep : exists p1 n1, (if uplink && (3 <=? n) &&
          ((at_ payload p 0 =? 0x50) || (at_ payload p 0 =? 0x51))
           then ((p + 3)%nat, n - 3) else (p, n)) = (p1, n1) /\ (2 <= p1)%nat /\ 0 <= n1 /\ Z.of_nat p1 + n1 <= len).
      { destruct (uplink && (3 <=? n) && _) eqn:E; do 2 eexists; (split; [reflexivity|]); [|lia].
        apply andb_true_iff in E as [E _]. apply andb_true_iff in E as [_ E]. apply Z.leb_le in E. lia. }
      destruct Hstep as (p1 & n1 & E & Hp1 & Hn1 & Hi1). rewrite E.
      destruct (Z.eqb_spec n1 0); [by apply Hfin|].
      destruct (Z.ltb_spec 3 n1); cbn [andb]; [|by apply Hfin].
      destruct (at_ payload p1 0 =? 0x10); [|by apply Hfin].
      pose proof (at_byte payload p1 1 Hb). pose proof (at_byte payload p1 2 Hb).
      destruct (Z.ltb_spec (n1 - 3) (at_ payload p1 1)); [by right; right|].
      destruct (Z.ltb_spec (at_ payload p1 1) (n1 - 3)); apply Hfin; lia. }
    destruct (decide (classify payload len uplink = SBD_TYPE_DATA_DL_7608)).
    + pose proof (prehdr_len_range payload 2 (len - 2)) as Ep. pose proof (at_byte payload 2 3 Hb).
      destruct (Z.ltb_spec (len - 2) (prehdr_len_7608 payload 2 (len - 2))).
      { rewrite (proj2 (Z.leb_gt _ (len - 2))) by lia. cbn. by right; right. }
      rewrite (proj2 (Z.leb_le _ (len - 2))) by lia. cbv iota beta. apply Hrest; lia.
    + cbv iota beta. apply Hrest; lia.
Qed.

(** The parsers read only the declared bytes. *)
Section local.
Context (p p' : list Z) (len : Z).
Hypothesis same : forall i, Z.of_nat i < len -> rd p i = rd p' i.

Lemma at_local off k : Z.of_nat off + Z.of_nat k < len -> at_ p off k = at_ p' off k.
Proof. intros. unfold at_. apply same. lia. Qed.

Lemma classify_local up : classify p len up = classify p' len up.
Proof.
  unfold classify. destruct (Z.ltb_spec len 2); [done|].
  by rewrite (same 0), (same 1) by lia.
Qed.

Lemma ack_local (up : bool) off n : Z.of_nat off + n <= len ->
  up && (3 <=? n) && ((at_ p off 0 =? 0x50) || (at_ p off 0 =? 0x51)) =
  up && (3 <=? n) && ((at_ p' off 0 =? 0x50) || (at_ p' off 0 =? 0x51)).
Proof.
  intros. destruct (Z.leb_spec 3 n); [by rewrite at_local by lia|]. by rewrite andb_false_r.
Qed.

Lemma prehdr_local off n : Z.of_nat off + n <= len -> prehdr_len_7608 p off n = prehdr_len_7608 p' off n.
Proof.
  intros. apply prehdr_len_local. destruct (Z.lt_ge_cases n 1); [by right|left; apply at_local; lia].
Qed.

Lemma salvage_local up : sbd_salvage_parse p len up = sbd_salvage_parse p' len up.
Proof.
  unfold sbd_salvage_parse. destruct (len <? 0); [done|]. rewrite classify_local. cbv zeta.
  destruct (decide (classify p' len up = SBD_TYPE_UNKNOWN)) as [|Hu]; [done|].
  assert (H2 : 2 <= len) by (unfold classify in Hu; destruct (Z.ltb_spec len 2); [done|lia]).
  destruct (decide (classify p' len up = SBD_TYPE_HELLO_0600)) as [Eh|Eh].
  - destruct (Z.ltb_spec (len - 2) 1); [done|]. rewrite (at_local 2 0) by lia.
    destruct (negb _); [done|]. destruct (Z.ltb_spec (len - 2) 16); [done|].
    by rewrite (at_local 2 15) by lia.
  - assert (Hrest : forall cnt q n, Z.of_nat q + n <= len ->
      (let '(q, n) := if up && (3 <=? n) && ((at_ p q 0 =? 0x50) || (at_ p q 0 =? 0x51))
         then ((q + 3)%nat, n - 3) else (q, n) in
       if n =? 0 then salvage_finish (classify p' len up) false 0 cnt q n
       else if (3 <? n) && (at_ p q 0 =? 0x10) then
         if n - 3 <? at_ p q 1 then salvage_finish (classify p' len up) true (at_ p q 2) cnt (q + 3) (n - 3)
         else salvage_finish (classify p' len up) false (at_ p q 2) cnt (q + 3)
                (if at_ p q 1 <? n - 3 then at_ p q 1 else n - 3)
       else salvage_finish (classify p' len up) false 0 cnt q n) =
      (let '(q, n) := if up && (3 <=? n) && ((at_ p' q 0 =? 0x50) || (at_ p' q 0 =? 0x51))
         then ((q + 3)%nat, n - 3) else (q, n) in
       if n =? 0 then salvage_finish (classify p' len up) false 0 cnt q n
       else if (3 <? n) && (at_ p' q 0 =? 0x10) then
         if n - 3 <? at_ p' q 1 then salvage_finish (classify p' len up) true (at_ p' q 2) cnt (q + 3) (n - 3)
         else salvage_finish (classify p' len up) false (at_ p' q 2) cnt (q + 3)
                (if at_ p' q 1 <? n - 3 then at_ p' q 1 else n - 3)
       else salvage_finish (classify p' len up) false 0 cnt q n)).
    { intros cnt q n Hq. rewrite (ack_local up q n Hq). destruct (up && (3 <=? n) && _);
        cbv iota beta; destruct (Z.ltb_spec 3 n);
        try (destruct (Z.ltb_spec 3 (n - 3))); cbn [andb]; try done; by rewrite !at_local by lia. }
    rewrite (prehdr_local 2 (len - 2)) by lia.
    destruct (decide (classify p' len up = SBD_TYPE_DATA_DL_7608)); [|cbv iota beta; apply Hrest; lia].
    pose proof (prehdr_len_range p' 2 (len - 2)) as Ep.
    destruct (Z.leb_spec (prehdr_len_7608 p' 2 (len - 2)) (len - 2)); [|done].
    cbv iota beta. rewrite (at_local 2 3) by lia. apply Hrest. lia.
Qed.

Lemma parse_local up : feed_parse p len up = feed_parse p' len up.
Proof.
  unfold feed_parse. destruct (Z.ltb_spec len 5) as [|H5]; [done|]. rewrite classify_local. cbv zeta.
  destruct (decide (classify p' len up = SBD_TYPE_UNKNOWN)) as [|Hu]; [done|].
  destruct (decide (classify p' len up = SBD_TYPE_HELLO_0600)) as [Eh|Eh].
  - rewrite (at_local 2 0) by lia. destruct (_ || _); [done|]. destruct (Z.ltb_spec (len - 2) 16); [done|].
    by rewrite (at_local 2 15) by lia.
  - rewrite (prehdr_local 2 (len - 2)) by lia.
    assert (Hrest : forall cnt q n, Z.of_nat q + n <= len ->
      (let '(q, n) := if up && (3 <=? n) && ((at_ p q 0 =? 0x50) || (at_ p q 0 =? 0x51))
         then ((q + 3)%nat, n - 3) else (q, n) in
       if n =? 0 then Some (Envelope (classify p' len up) cnt 0 q (if SBD_MAX_PAYLOAD <? n then SBD_MAX_PAYLOAD else n))
       else if (3 <? n) && (at_ p q 0 =? 0x10) then
         if n - 3 <? at_ p q 1 then None
         else Some (Envelope (classify p' len up) cnt (at_ p q 2) (q + 3)
                (if SBD_MAX_PAYLOAD <? (if at_ p q 1 <? n - 3 then at_ p q 1 else n - 3) then SBD_MAX_PAYLOAD
                 else if at_ p q 1 <? n - 3 then at_ p q 1 else n - 3))
       else Some (Envelope (classify p' len up) cnt 0 q (if SBD_MAX_PAYLOAD <? n then SBD_MAX_PAYLOAD else n))) =
      (let '(q, n) := if up && (3 <=? n) && ((at_ p' q 0 =? 0x50) || (at_ p' q 0 =? 0x51))
         then ((q + 3)%nat, n - 3) else (q, n) in
       if n =? 0 then Some (Envelope (classify p' len up) cnt 0 q (if SBD_MAX_PAYLOAD <? n then SBD_MAX_PAYLOAD else n))
       else if (3 <? n) && (at_ p' q 0 =? 0x10) then
         if n - 3 <? at_ p' q 1 then None
         else Some (Envelope (classify p' len up) cnt (at_ p' q 2) (q + 3)
                (if SBD_MAX_PAYLOAD <? (if at_ p' q 1 <? n - 3 then at_ p' q 1 else n - 3) then SBD_MAX_PAYLOAD
                 else if at_ p' q 1 <? n - 3 then at_ p' q 1 else n - 3))
       else Some (Envelope (classify p' len up) cnt 0 q (if SBD_MAX_PAYLOAD <? n then SBD_MAX_PAYLOAD else n)))).
    { intros cnt q n Hq. rewrite (ack_local up q n Hq). destruct (up && (3 <=? n) && _);
        cbv iota beta; destruct (Z.ltb_spec 3 n);
        try (destruct (Z.ltb_spec 3 (n - 3))); cbn [andb]; try done; by rewrite !at_local by lia. }
    destruct (decide (classify p' len up = SBD_TYPE_DATA_DL_7608)); [|apply Hrest; lia].
    pose proof (prehdr_len_range p' 2 (len - 2)) as Ep.
    destruct (Z.ltb_spec (len - 2) (prehdr_len_7608 p' 2 (len - 2))); [done|].
    rewrite (at_local 2 3) by lia. apply Hrest. lia.
Qed.
End local.

(** ** Session-table lemmas *)

Record sbd_session_ok (s : sbd_session) : Prop := {
  sk_payload : length (m_payload (ss_msg s)) = 320%nat;
  sk_len : 0 <= m_payload_len (ss_msg s) <= 320;
  sk_time : is_u 64 (ss_last_update_us s);
  sk_active : ss_active s = true -> 2 <= ss_msg_cnt s <= 32;
  sk_type : m_type (ss_msg s) = ss_type s /\ m_uplink (ss_msg s) = ss_uplink s }.

Definition sbd_ok (ctx : sbd_reassembler) : Prop :=
  length (sr_sessions ctx) = 8%nat /\ Forall sbd_session_ok (sr_sessions ctx).

Lemma sbd_session_zero_ok : sbd_session_ok sbd_session_zero.
Proof. split; cbn; unfold is_u; (done || lia). Qed.

Lemma sbd_init_ok : sbd_ok sbd_reassembler_init.
Proof. split; [done|]. apply Forall_replicate, sbd_session_zero_ok. Qed.

Lemma sbd_at_ok ctx i : sbd_ok ctx -> sbd_session_ok (sbd_at ctx i).
Proof.
  intros [_ H]. unfold sbd_at. rewrite nth_lookup. destruct (sr_sessions ctx !! i) eqn:E; cbn.
  - exact (Forall_lookup_1 _ _ _ _ H E).
  - apply sbd_session_zero_ok.
Qed.

Lemma sbd_at_set ctx i s j : sbd_ok ctx -> (i < 8)%nat ->
  sbd_at (sbd_set ctx i s) j = if decide (i = j) then s else sbd_at ctx j.
Proof.
  intros [Hl _] Hi. unfold sbd_at, sbd_set. cbn [sr_sessions]. rewrite !nth_lookup. case_decide.
  - subst. by rewrite list_lookup_insert_eq by lia.
  - by rewrite list_lookup_insert_ne.
Qed.

Lemma sbd_at_count ctx a b c d e f j : sbd_at (sbd_count ctx a b c d e f) j = sbd_at ctx j.
Proof. done. Qed.

Lemma sbd_ok_count ctx a b c d e f : sbd_ok ctx -> sbd_ok (sbd_count ctx a b c d e f).
Proof. done. Qed.

Lemma sbd_ok_set ctx i s : sbd_ok ctx -> sbd_session_ok s -> sbd_ok (sbd_set ctx i s).
Proof.
  intros [Hl H] Hs. split; cbn; [by rewrite length_insert|]. by apply Forall_insert.
Qed.

Lemma sbd_deactivate_ok s : sbd_session_ok s -> sbd_session_ok (sbd_deactivate s).
Proof. intros [? ? ? _ ?]. by split. Qed.

Create HintDb sbd.
#[export] Hint Resolve sbd_at_ok sbd_ok_count sbd_ok_set sbd_deactivate_ok sbd_init_ok : sbd.

Definition stale_below (ctx : sbd_reassembler) (now : Z) (n : nat) : nat :=
  length (List.filter (fun i => sbd_stale (sbd_at ctx i) now) (seq 0 n)).

(** The sweep deactivates exactly the stale sessions and counts them. *)
Lemma tick_spec ctx now :
  sbd_ok ctx ->
  let ctx' := sbd_reassembler_tick ctx now in
  sbd_ok ctx' /\
  (forall j, sbd_at ctx' j =
     if decide (j < 8)%nat then
       if sbd_stale (sbd_at ctx j) now then sbd_deactivate (sbd_at ctx j) else sbd_at ctx j
     else sbd_at ctx j) /\
  (is_u 32 (cnt_broken ctx) -> cnt_broken ctx' = u32 (cnt_broken ctx + Z.of_nat (stale_below ctx now 8))).
Proof.
  intros Hok. unfold sbd_reassembler_tick, SBD_MAX_SESSIONS.
  pose (P := fun (n : nat) c => sbd_ok c /\
    (forall j, sbd_at c j = if decide (j < n)%nat then
       if sbd_stale (sbd_at ctx j) now then sbd_deactivate (sbd_at ctx j) else sbd_at ctx j
     else sbd_at ctx j) /\
    (is_u 32 (cnt_broken ctx) -> cnt_broken c = u32 (cnt_broken ctx + Z.of_nat (stale_below ctx now n)))).
  apply (forN_inv P).
  - split; [done|]. split; [intros j; by rewrite decide_False by lia|].
    intros Hu. unfold u32. rewrite Z.add_0_r, Z.mod_small; [done|exact Hu].
  - intros i c Hi (Hc & Hj & Hb). unfold P. cbv zeta. rewrite (Hj i), decide_False by lia.
    assert (Hf : stale_below ctx now (S i) =
      (stale_below ctx now i + (if sbd_stale (sbd_at ctx i) now then 1 else 0))%nat).
    { unfold stale_below. rewrite seq_S, List.filter_app, length_app. cbn.
      by destruct (sbd_stale (sbd_at ctx i) now). }
    rewrite Hf. destruct (sbd_stale (sbd_at ctx i) now) eqn:Est.
    + split; [auto with sbd|]. split.
      * intros j. rewrite sbd_at_count, sbd_at_set, Hj by done.
        destruct (decide (i = j)) as [<-|].
        { by rewrite decide_True, Est by lia. }
        destruct (decide (j < i)%nat); [by rewrite decide_True by lia|by rewrite decide_False by lia].
      * intros Hu. cbn [sbd_count cnt_broken sbd_set]. rewrite Hb by done. unfold u32. lia.
    + split; [done|]. split; [|intros; rewrite Nat.add_0_r; auto].
      intros j. rewrite Hj. destruct (decide (j < i)%nat); [by rewrite decide_True by lia|].
      destruct (decide (j < S i)%nat); [|done]. assert (j = i) as -> by lia. by rewrite Est.
Qed.

Lemma sbd_find_free_spec ctx i :
  sbd_find_free_session ctx = Some i -> (i < 8)%nat /\ ss_active (sbd_at ctx i) = false.
Proof.
  intros H. apply find_some in H as [H1 H2]. apply in_seq in H1. unfold SBD_MAX_SESSIONS in H1.
  split; [lia|]. by destruct (ss_active _).
Qed.

Lemma sbd_find_free_exists ctx i :
  (i < 8)%nat -> ss_active (sbd_at ctx i) = false -> exists j, sbd_find_free_session ctx = Some j.
Proof.
  intros Hi Ha. destruct (sbd_find_free_session ctx) as [j|] eqn:E; [eauto|exfalso].
  assert (Hin : In i (seq 0 SBD_MAX_SESSIONS)) by (apply in_seq; unfold SBD_MAX_SESSIONS; lia).
  pose proof (find_none _ _ E i Hin) as Hn. cbv beta in Hn. by rewrite Ha in Hn.
Qed.

Lemma sbd_in_slots i : In i (rev (seq 0 SBD_MAX_SESSIONS)) <-> (i < 8)%nat.
Proof. rewrite <- in_rev, in_seq. unfold SBD_MAX_SESSIONS. lia. Qed.

Lemma sbd_matches_spec s no up typ :
  sbd_matches s no up typ = true <->
  ss_active s = true /\ ss_msg_no_next s = no /\ ss_uplink s = up /\ ss_type s = typ.
Proof.
  unfold sbd_matches. rewrite !andb_true_iff, Z.eqb_eq, eqb_true_iff, bool_decide_eq_true. tauto.
Qed.

Lemma sbd_find_matching_spec ctx no up typ i :
  sbd_find_matching_session ctx no up typ = Some i ->
  (i < 8)%nat /\ sbd_matches (sbd_at ctx i) no up typ = true.
Proof. intros H. apply find_some in H as [H1 H2]. by apply sbd_in_slots in H1. Qed.

Lemma sbd_find_unique ctx no up typ i :
  (i < 8)%nat -> sbd_matches (sbd_at ctx i) no up typ = true ->
  (forall j, (j < 8)%nat -> j <> i -> sbd_matches (sbd_at ctx j) no up typ = false) ->
  sbd_find_matching_session ctx no up typ = Some i.
Proof.
  intros Hi Hm Hu. unfold sbd_find_matching_session. apply find_unique; [by apply sbd_in_slots|done|].
  intros j Hj. apply Hu. by apply sbd_in_slots.
Qed.

Lemma sbd_stale_spec s now : sbd_session_ok s -> is_u 64 now ->
  sbd_stale s now = true <-> ss_active s = true /\ ss_last_update_us s + 5000000 < now.
Proof.
  intros Hs Hn. pose proof (sk_time _ Hs) as Ht. unfold is_u in *. unfold sbd_stale, SBD_TIMEOUT_US, u64.
  rewrite !andb_true_iff, !Z.ltb_lt.
  split; [intros [[H1 H2] H3]; split; [done|]|intros [H1 H2]; split; [split; [done|lia]|]];
    rewrite Z.mod_small in * by lia; lia.
Qed.

Lemma message_of_ok out typ up now n body c no :
  length (m_payload out) = 320%nat -> 0 <= n <= 320 -> (length body <= 320)%nat ->
  let m := message_of out typ up now n body c no in
  length (m_payload m) = 320%nat /\ m_payload_len m = n.
Proof.
  intros Ho Hn Hb. cbn. split; [rewrite length_blit; lia|]. unfold u16. rewrite Z.mod_small; lia.
Qed.

Lemma sbd_body_length (payload : list Z) len e : envelope_ok len e -> len <= Z.of_nat (length payload) ->
  length (slice payload (ev_off e) (Z.to_nat (ev_len e))) = Z.to_nat (ev_len e).
Proof. intros [_ _ _ _ H1 H2 _] Hl. apply length_slice. lia. Qed.

(** A continuation's effect on the session it extends. *)
Definition extend (s : sbd_session) (payload : list Z) (e : envelope) (now : Z) : sbd_session :=
  let m := ss_msg s in
  let copy := Z.min (ev_len e) (320 - m_payload_len m) in
  SbdSession (negb (ev_msg_no e =? ss_msg_cnt s)) (ss_type s) (ss_uplink s) (u8 (ev_msg_no e + 1))
    (ss_msg_cnt s) now
    (SbdMessage (m_type m) (m_uplink m) (m_timestamp_us m)
       (blit (m_payload m) (Z.to_nat (m_payload_len m)) (slice payload (ev_off e) (Z.to_nat copy)))
       (m_payload_len m + copy) (m_msg_count m) (ev_msg_no e)).

Lemma blit_nil {A} (l : list A) off : (off <= length l)%nat -> blit l off [] = l.
Proof. intros. unfold blit. cbn. by rewrite Nat.add_0_r, take_drop. Qed.

(** The bounded append of a continuation. *)
Lemma extend_copy s payload e now :
  sbd_session_ok s -> 0 <= ev_len e <= 320 ->
  let m := ss_msg s in
  let avail := SBD_MAX_PAYLOAD - m_payload_len m in
  let copy := if ev_len e <? avail then ev_len e else avail in
  let '(p', l') :=
    if 0 <? copy
    then (blit (m_payload m) (Z.to_nat (m_payload_len m)) (slice payload (ev_off e) (Z.to_nat copy)),
          u16 (m_payload_len m + copy))
    else (m_payload m, m_payload_len m) in
  p' = m_payload (ss_msg (extend s payload e now)) /\ l' = m_payload_len (ss_msg (extend s payload e now)).
Proof.
  intros [K1 K2 _ _ _] Hn. cbv zeta. unfold extend, SBD_MAX_PAYLOAD. cbn [ss_msg m_payload m_payload_len].
  destruct (ss_msg s) as [ty u t pl len c no]. cbn [m_payload m_payload_len] in *.
  assert (Em : (if ev_len e <? 320 - len then ev_len e else 320 - len) = Z.min (ev_len e) (320 - len))
    by (destruct (Z.ltb_spec (ev_len e) (320 - len)); lia). rewrite Em.
  destruct (Z.ltb_spec 0 (Z.min (ev_len e) (320 - len))) as [Hc|Hc].
  - split; [done|]. apply u16_small. lia.
  - replace (Z.min (ev_len e) (320 - len)) with 0 by lia.
    change (slice payload (ev_off e) (Z.to_nat 0)) with (@nil Z). by rewrite blit_nil, Z.add_0_r by lia.
Qed.

(** The dispatch on an accepted envelope, with the session updates in closed
    form. *)
#[local] Opaque sbd_reassembler_tick u16 u8.

Lemma dispatch_cases ctx payload len e up now out :
  sbd_ok ctx -> envelope_ok len e ->
  let body := slice payload (ev_off e) (Z.to_nat (ev_len e)) in
  let ctx1 := sbd_reassembler_tick ctx now in
  feed_dispatch ctx payload e up now out =
  if ev_msg_no e =? 0 then
    (1, message_of out (ev_type e) up now (ev_len e) body (u8 (if 0 <? ev_msg_cnt e then ev_msg_cnt e else 1)) 0,
     sbd_count ctx1 1 0 0 0 0 0)
  else if (ev_msg_cnt e =? 1) && (ev_msg_no e =? 1) then
    (1, message_of out (ev_type e) up now (ev_len e) body 1 1, sbd_count ctx1 0 1 0 0 0 0)
  else if (1 <? ev_msg_cnt e) && (ev_msg_cnt e <=? 32) && (ev_msg_no e =? 1) then
    match sbd_find_free_session ctx1 with
    | None => (0, out, sbd_count ctx1 0 0 0 0 1 0)
    | Some i =>
      (0, out, sbd_count (sbd_set ctx1 i (SbdSession true (ev_type e) up 2 (ev_msg_cnt e) now
        (message_of (ss_msg (sbd_at ctx1 i)) (ev_type e) up now (ev_len e) body (ev_msg_cnt e) 1))) 0 0 1 0 0 0)
    end
  else if 1 <? ev_msg_no e then
    match sbd_find_matching_session ctx1 (ev_msg_no e) up (ev_type e) with
    | None => (0, out, sbd_count ctx1 0 0 0 0 1 0)
    | Some i =>
      let s' := extend (sbd_at ctx1 i) payload e now in
      if ev_msg_no e =? ss_msg_cnt (sbd_at ctx1 i)
      then (1, ss_msg s', sbd_count (sbd_set ctx1 i s') 0 0 1 1 0 0)
      else (0, out, sbd_count (sbd_set ctx1 i s') 0 0 1 0 0 0)
    end
  else (-1, out, sbd_count ctx1 0 0 0 0 0 1).
Proof.
  intros Hok He. destruct e as [typ cnt no off n]. pose proof He as [_ H1 H2 _ H3 _ _].
  cbn [ev_type ev_msg_cnt ev_msg_no ev_off ev_len] in *. cbv zeta. unfold feed_dispatch, SBD_MSG_CNT_MAX.
  assert (Hok1 : sbd_ok (sbd_reassembler_tick ctx now)) by (apply tick_spec, Hok).
  revert Hok1. generalize (sbd_reassembler_tick ctx now). intros ctx1 Hok1.
  assert (En : (if 0 <? n then n else 0) = n) by (destruct (Z.ltb_spec 0 n); lia). rewrite En.
  destruct (no =? 0); [reflexivity|]. destruct (_ && (no =? 1)); [reflexivity|].
  destruct ((1 <? cnt) && (cnt <=? 32) && (no =? 1)) eqn:E.
  { apply andb_true_iff in E as [E _]. apply andb_true_iff in E as [E _]. apply Z.ltb_lt in E.
    assert (Ec : u8 cnt = cnt) by (apply u8_small; lia). rewrite Ec. reflexivity. }
  destruct (Z.ltb_spec 1 no); [|reflexivity].
  assert (Ec : u8 no = no) by (apply u8_small; lia). rewrite Ec.
  destruct (sbd_find_matching_session _ _ _ _) as [i|]; [|reflexivity].
  pose proof (extend_copy (sbd_at ctx1 i) payload (Envelope typ cnt no off n) now (sbd_at_ok _ i Hok1) H3) as Hx.
  cbn [ev_type ev_msg_cnt ev_msg_no ev_off ev_len] in Hx. unfold extend. cbn [ss_msg ev_msg_no].
  cbv zeta in *. match type of Hx with context [let '(_, _) := ?x in _] => destruct x as [pl' len'] end.
  destruct Hx as [-> ->].
  cbn [ss_msg_cnt]. destruct (no =? ss_msg_cnt (sbd_at ctx1 i)); reflexivity.
Qed.

(** A continuation extends an active session, so the count bound survives. *)
Lemma extend_ok s payload len e now :
  ss_active s = true ->
  sbd_session_ok s -> envelope_ok len e -> len <= Z.of_nat (length payload) -> is_u 64 now ->
  sbd_session_ok (extend s payload e now).
Proof.
  intros Ha [K1 K2 K3 K4 [K5 K6]] [_ H1 H2 H3 H4 H5 _] Hl Hn. unfold extend, SBD_MAX_PAYLOAD in *.
  split; cbn [ss_msg m_payload m_payload_len ss_last_update_us ss_active ss_msg_cnt ss_type m_type ss_uplink m_uplink];
    auto; [|lia].
  rewrite length_blit; [done|]. rewrite length_slice; lia.
Qed.

(** What a feed leaves behind, and what it hands to the caller. *)
Lemma sbd_feed_ok ctx payload len up now out :
  sbd_ok ctx -> is_bytes payload -> len <= Z.of_nat (length payload) -> is_u 64 now ->
  length (m_payload out) = 320%nat ->
  let '(r, m, ctx') := sbd_reassembler_feed ctx payload len up now out in
  sbd_ok ctx' /\ length (m_payload m) = 320%nat /\
  (r = 1 /\ 0 <= m_payload_len m <= 320 /\ m_uplink m = up \/ (r = 0 \/ r = -1) /\ m = out).
Proof.
  intros Hok Hb Hl Hn Ho. unfold sbd_reassembler_feed. pose proof (parse_agree payload len up Hb) as Hp.
  destruct (feed_parse payload len up) as [e|]; [|cbv iota beta; auto 6 with sbd].
  destruct Hp as (H5 & He & _). rewrite (dispatch_cases _ _ len) by done. cbv zeta.
  assert (Hok1 : sbd_ok (sbd_reassembler_tick ctx now)) by (apply tick_spec, Hok).
  revert Hok1. generalize (sbd_reassembler_tick ctx now). intros ctx1 Hok1.
  pose proof (sbd_body_length payload len e He Hl) as Hbl. pose proof He as [_ K1 K2 K3 K4 K5 _].
  unfold SBD_MAX_PAYLOAD in *.
  assert (Hmsg : forall o c no, length (m_payload o) = 320%nat ->
    length (m_payload (message_of o (ev_type e) up now (ev_len e) (slice payload (ev_off e) (Z.to_nat (ev_len e))) c no))
      = 320%nat /\
    m_payload_len (message_of o (ev_type e) up now (ev_len e) (slice payload (ev_off e) (Z.to_nat (ev_len e))) c no)
      = ev_len e).
  { intros o c no Hol. apply message_of_ok; [done|lia|lia]. }
  destruct (ev_msg_no e =? 0).
  { destruct (Hmsg out (u8 (if 0 <? ev_msg_cnt e then ev_msg_cnt e else 1)) 0 Ho) as [M1 M2].
    rewrite M2. auto 8 with sbd. }
  destruct (_ && (ev_msg_no e =? 1)).
  { destruct (Hmsg out 1 1 Ho) as [M1 M2]. rewrite M2. auto 8 with sbd. }
  destruct ((1 <? ev_msg_cnt e) && _ && _) eqn:Eo.
  { destruct (sbd_find_free_session ctx1) as [i|]; [|auto 8 with sbd]. split; [|auto].
    apply sbd_ok_count, sbd_ok_set; [done|].
    destruct (Hmsg (ss_msg (sbd_at ctx1 i)) (ev_msg_cnt e) 1) as [M1 M2]; [apply sbd_at_ok, Hok1|].
    apply andb_true_iff in Eo as [Eo _]. apply andb_true_iff in Eo as [Eo1 Eo2].
    apply Z.ltb_lt in Eo1. apply Z.leb_le in Eo2.
    split; cbn [ss_msg ss_last_update_us ss_active ss_msg_cnt ss_type ss_uplink]; rewrite ?M1, ?M2; auto; lia. }
  destruct (1 <? ev_msg_no e); [|auto 8 with sbd].
  destruct (sbd_find_matching_session _ _ _ _) as [i|] eqn:Ef; [|auto 8 with sbd].
  apply sbd_find_matching_spec in Ef as [Hi Hm]. apply sbd_matches_spec in Hm as (A1 & A2 & A3 & A4).
  assert (Hx := extend_ok _ payload len e now A1 (sbd_at_ok _ i Hok1) He Hl Hn).
  destruct (ev_msg_no e =? ss_msg_cnt (sbd_at ctx1 i)); (split; [auto with sbd|]); [|auto].
  split; [apply Hx|]. left. split; [done|]. split; [apply Hx|]. by rewrite (proj2 (sk_type _ Hx)).
Qed.

(** ** Multi-frame messages *)

(** A received envelope. *)
Record sframe := SFrame { sf_payload : list Z; sf_len : Z; sf_time : Z }.

Definition sframe_ok (f : sframe) : Prop :=
  is_bytes (sf_payload f) /\ sf_len f <= Z.of_nat (length (sf_payload f)) /\ is_u 64 (sf_time f).

Definition sframe_body (f : sframe) (e : envelope) : list Z :=
  slice (sf_payload f) (ev_off e) (Z.to_nat (ev_len e)).

Definition feed_sframe (up : bool) (out : sbd_message) (ctx : sbd_reassembler) (f : sframe)
  : Z * sbd_message * sbd_reassembler :=
  sbd_reassembler_feed ctx (sf_payload f) (sf_len f) up (sf_time f) out.

Fixpoint feed_sframes (up : bool) (out : sbd_message) (ctx : sbd_reassembler) (l : list sframe)
  : list (Z * sbd_message) * sbd_reassembler :=
  match l with
  | [] => ([], ctx)
  | f :: l =>
    let '(o, ctx) := feed_sframe up out ctx f in
    let '(os, ctx) := feed_sframes up out ctx l in
    (o :: os, ctx)
  end.

(** Continuations number [no] to [cnt] of one type, at most 5 s apart. *)
Fixpoint sequel (up : bool) (typ : sbd_type) (cnt no t : Z) (l : list (sframe * envelope)) : Prop :=
  match l with
  | [] => no = cnt + 1
  | (f, e) :: l =>
    sframe_ok f /\ feed_parse (sf_payload f) (sf_len f) up = Some e /\
    ev_type e = typ /\ ev_msg_no e = no /\ t <= sf_time f <= t + SBD_TIMEOUT_US /\
    sequel up typ cnt (no + 1) (sf_time f) l
  end.

(** Session [i] is a partially received message. *)
Record sbd_holds (ctx : sbd_reassembler) (i : nat) (typ : sbd_type) (up : bool) (next cnt t0 t : Z)
    (bytes : list Z) : Prop := {
  sh_i : (i < 8)%nat;
  sh_active : ss_active (sbd_at ctx i) = true;
  sh_type : ss_type (sbd_at ctx i) = typ;
  sh_uplink : ss_uplink (sbd_at ctx i) = up;
  sh_next : ss_msg_no_next (sbd_at ctx i) = next;
  sh_cnt : ss_msg_cnt (sbd_at ctx i) = cnt;
  sh_time : ss_last_update_us (sbd_at ctx i) = t;
  sh_stamp : m_timestamp_us (ss_msg (sbd_at ctx i)) = t0;
  sh_count : m_msg_count (ss_msg (sbd_at ctx i)) = cnt;
  sh_len : m_payload_len (ss_msg (sbd_at ctx i)) = Z.min 320 (Z.of_nat (length bytes));
  sh_bytes : take (Z.to_nat (m_payload_len (ss_msg (sbd_at ctx i)))) (m_payload (ss_msg (sbd_at ctx i)))
             = take 320 bytes }.

(** No other active session of that type and direction. *)
Definition sbd_alone (ctx : sbd_reassembler) (i : nat) (typ : sbd_type) (up : bool) : Prop :=
  forall j, (j < 8)%nat -> j <> i -> ss_active (sbd_at ctx j) = true -> ss_uplink (sbd_at ctx j) = up ->
    ss_type (sbd_at ctx j) <> typ.

Lemma sbd_alone_matches ctx i typ up no : sbd_alone ctx i typ up ->
  forall j, (j < 8)%nat -> j <> i -> sbd_matches (sbd_at ctx j) no up typ = false.
Proof.
  intros Ha j Hj Hne. destruct (sbd_matches _ _ _ _) eqn:E; [exfalso|done].
  apply sbd_matches_spec in E as (E1 & _ & E3 & E4). by apply (Ha j).
Qed.

Lemma sbd_alone_tick ctx i typ up now : sbd_ok ctx -> sbd_alone ctx i typ up ->
  sbd_alone (sbd_reassembler_tick ctx now) i typ up.
Proof.
  intros Hok Ha j Hj Hne. destruct (tick_spec ctx now Hok) as (_ & Ht & _).
  rewrite Ht, decide_True by done. destruct (sbd_stale _ _); [done|]. by apply Ha.
Qed.

Lemma sbd_alone_set ctx i typ up s : sbd_ok ctx -> (i < 8)%nat -> sbd_alone ctx i typ up ->
  sbd_alone (sbd_set ctx i s) i typ up.
Proof. intros Hok Hi Ha j Hj Hne. rewrite sbd_at_set, decide_False by done. by apply Ha. Qed.

Lemma sbd_holds_tick ctx i typ up next cnt t0 t bytes now :
  sbd_ok ctx -> is_u 64 now -> now <= t + SBD_TIMEOUT_US ->
  sbd_holds ctx i typ up next cnt t0 t bytes ->
  sbd_holds (sbd_reassembler_tick ctx now) i typ up next cnt t0 t bytes.
Proof.
  intros Hok Hn Hle [H1 H2 H3 H4 H5 H6 H7 H8 H9 H10 H11]. destruct (tick_spec ctx now Hok) as (_ & Ht & _).
  assert (E : sbd_at (sbd_reassembler_tick ctx now) i = sbd_at ctx i).
  { rewrite Ht, decide_True by done. destruct (sbd_stale (sbd_at ctx i) now) eqn:Es; [exfalso|done].
    apply sbd_stale_spec in Es; auto with sbd. unfold SBD_TIMEOUT_US in Hle. lia. }
  by split; rewrite ?E.
Qed.

Lemma extended_bytes s payload len e bytes now :
  sbd_session_ok s -> envelope_ok len e -> len <= Z.of_nat (length payload) ->
  m_payload_len (ss_msg s) = Z.min 320 (Z.of_nat (length bytes)) ->
  take (Z.to_nat (m_payload_len (ss_msg s))) (m_payload (ss_msg s)) = take 320 bytes ->
  let bytes' := bytes ++ slice payload (ev_off e) (Z.to_nat (ev_len e)) in
  let m' := ss_msg (extend s payload e now) in
  m_payload_len m' = Z.min 320 (Z.of_nat (length bytes')) /\
  take (Z.to_nat (m_payload_len m')) (m_payload m') = take 320 bytes'.
Proof.
  intros [K1 K2 _ _ _] He Hl Hlen Hb. pose proof (sbd_body_length payload len e He Hl) as Hbl.
  pose proof He as [_ _ _ _ H3 H4 _]. unfold SBD_MAX_PAYLOAD in *. cbv zeta. unfold extend.
  cbn [ss_msg m_payload m_payload_len]. rewrite length_app, Hbl.
  split; [lia|]. unfold blit. rewrite Hb, app_assoc, (take_app bytes).
  set (copy := Z.min (ev_len e) (320 - m_payload_len (ss_msg s))).
  assert (Ec : slice payload (ev_off e) (Z.to_nat copy) =
    take (320 - length bytes) (slice payload (ev_off e) (Z.to_nat (ev_len e)))).
  { unfold slice. rewrite take_take. f_equal. lia. }
  rewrite Ec. apply take_app_length'. rewrite length_app, !length_take, Hbl. lia.
Qed.

(** One continuation. *)
Lemma sbd_step ctx i typ up cnt t0 t bytes f e out :
  sbd_ok ctx -> sbd_holds ctx i typ up (ev_msg_no e) cnt t0 t bytes -> sbd_alone ctx i typ up ->
  sframe_ok f -> feed_parse (sf_payload f) (sf_len f) up = Some e -> ev_type e = typ ->
  1 < ev_msg_no e -> t <= sf_time f <= t + SBD_TIMEOUT_US ->
  let bytes' := bytes ++ sframe_body f e in
  exists m ctx', sbd_ok ctx' /\
    if ev_msg_no e =? cnt then
      feed_sframe up out ctx f = (1, m, ctx') /\ m_type m = typ /\ m_uplink m = up /\
      m_timestamp_us m = t0 /\ m_msg_count m = cnt /\ m_msg_no m = cnt /\
      m_payload_len m = Z.min 320 (Z.of_nat (length bytes')) /\
      take (Z.to_nat (m_payload_len m)) (m_payload m) = take 320 bytes'
    else
      feed_sframe up out ctx f = (0, out, ctx') /\ sbd_alone ctx' i typ up /\
      sbd_holds ctx' i typ up (u8 (ev_msg_no e + 1)) cnt t0 (sf_time f) bytes'.
Proof.
  intros Hok Hh Hal (Hb & Hl & Hn) Hp Hty Hno Ht bytes'.
  pose proof (parse_agree _ (sf_len f) up Hb) as Hpa. rewrite Hp in Hpa. destruct Hpa as (_ & He & _).
  unfold feed_sframe, sbd_reassembler_feed. rewrite Hp, (dispatch_cases _ _ (sf_len f)) by done. cbv zeta.
  rewrite (proj2 (Z.eqb_neq (ev_msg_no e) 0)), (proj2 (Z.eqb_neq (ev_msg_no e) 1)), !andb_false_r by lia.
  rewrite (proj2 (Z.ltb_lt 1 (ev_msg_no e))) by lia.
  apply (sbd_holds_tick _ _ _ _ _ _ _ _ _ (sf_time f)) in Hh; [|done|done|lia].
  apply (sbd_alone_tick _ _ _ _ (sf_time f)) in Hal; [|done].
  assert (Hok1 : sbd_ok (sbd_reassembler_tick ctx (sf_time f))) by (apply tick_spec, Hok).
  revert Hok1 Hh Hal. generalize (sbd_reassembler_tick ctx (sf_time f)). intros ctx1 Hok1 Hh Hal.
  destruct Hh as [H1 H2 H3 H4 H5 H6 H7 H8 H9 H10 H11]. rewrite Hty.
  rewrite (sbd_find_unique ctx1 (ev_msg_no e) up typ i H1); [|by apply sbd_matches_spec|by apply sbd_alone_matches].
  pose proof (sbd_at_ok _ i Hok1) as Hs.
  assert (Hx := extend_ok _ (sf_payload f) (sf_len f) e (sf_time f) H2 Hs He Hl Hn).
  destruct (extended_bytes (sbd_at ctx1 i) (sf_payload f) (sf_len f) e bytes (sf_time f) Hs He Hl H10 H11) as [X1 X2].
  rewrite H6. destruct (Z.eqb_spec (ev_msg_no e) cnt) as [Ec|Ec]; cbv iota;
    [eexists (ss_msg _)|exists out]; eexists; (split; [|split; [reflexivity|]]).
  - auto with sbd.
  - destruct (sk_type _ Hs) as [T1 T2]. split; [etrans; [exact T1|done]|]. split; [etrans; [exact T2|done]|].
    split; [exact H8|]. split; [exact H9|]. split; [exact Ec|]. split; [exact X1|exact X2].
  - auto with sbd.
  - split; [by apply sbd_alone_set|].
    split; rewrite ?sbd_at_count, ?sbd_at_set, ?decide_True by done; try done.
    cbn. rewrite H6. by rewrite (proj2 (Z.eqb_neq _ _)).
Qed.

(** The first frame of a longer message opens a session. *)
Lemma sbd_opens ctx up out f e :
  sbd_ok ctx -> sframe_ok f -> feed_parse (sf_payload f) (sf_len f) up = Some e ->
  2 <= ev_msg_cnt e <= 32 -> ev_msg_no e = 1 ->
  (exists i, (i < 8)%nat /\ ss_active (sbd_at ctx i) = false) ->
  (forall j, (j < 8)%nat -> ss_active (sbd_at ctx j) = true -> ss_uplink (sbd_at ctx j) = up ->
     ss_type (sbd_at ctx j) <> ev_type e) ->
  exists i ctx2, feed_sframe up out ctx f = (0, out, ctx2) /\ sbd_ok ctx2 /\
    sbd_holds ctx2 i (ev_type e) up 2 (ev_msg_cnt e) (sf_time f) (sf_time f) (sframe_body f e) /\
    sbd_alone ctx2 i (ev_type e) up.
Proof.
  intros Hok (Hb & Hl & Hn) Hp Hcnt Hno (k & Hk & Hka) Hal.
  pose proof (parse_agree _ (sf_len f) up Hb) as Hpa. rewrite Hp in Hpa. destruct Hpa as (_ & He & _).
  unfold feed_sframe, sbd_reassembler_feed. rewrite Hp, (dispatch_cases _ _ (sf_len f)) by done. cbv zeta.
  rewrite Hno, (proj2 (Z.eqb_neq (ev_msg_cnt e) 1)), (proj2 (Z.ltb_lt 1 _)), (proj2 (Z.leb_le _ 32)) by lia.
  cbn [Z.eqb andb Pos.eqb]. destruct (tick_spec ctx (sf_time f) Hok) as (Hok1 & Ht & _).
  revert Hok1 Ht. generalize (sbd_reassembler_tick ctx (sf_time f)). intros ctx1 Hok1 Ht.
  destruct (sbd_find_free_exists ctx1 k Hk) as [i Hi].
  { rewrite Ht, decide_True by done. by destruct (sbd_stale _ _). }
  rewrite Hi. destruct (sbd_find_free_spec _ _ Hi) as [Hi8 Hia].
  pose proof (sbd_body_length _ _ e He Hl) as Hbl. pose proof He as [_ _ _ _ H3 _ _]. unfold SBD_MAX_PAYLOAD in H3.
  destruct (message_of_ok (ss_msg (sbd_at ctx1 i)) (ev_type e) up (sf_time f) (ev_len e) (sframe_body f e)
    (ev_msg_cnt e) 1) as [M1 M2]; [apply sbd_at_ok, Hok1|done|unfold sframe_body; lia|].
  fold (sframe_body f e). set (s := SbdSession true _ _ _ _ _ _). exists i. eexists. split; [reflexivity|].
  split; [|split].
  - apply sbd_ok_count, sbd_ok_set; [done|]. unfold s. split;
      cbn [ss_msg ss_last_update_us ss_active ss_msg_cnt ss_type ss_uplink]; rewrite ?M1, ?M2; auto.
  - split; rewrite ?sbd_at_count, ?sbd_at_set, ?decide_True by done; try done; unfold s; cbn [ss_msg].
    + etrans; [exact M2|]. unfold sframe_body. rewrite Hbl. lia.
    + rewrite M2. cbn [message_of m_payload]. unfold blit.
      rewrite take_0. cbn [app]. assert (Eb : length (sframe_body f e) = Z.to_nat (ev_len e)) by exact Hbl.
      rewrite take_app_length' by lia. symmetry. apply take_ge. lia.
  - intros j Hj Hne'. rewrite sbd_at_count, sbd_at_set, decide_False by done. rewrite Ht, decide_True by done.
    destruct (sbd_stale _ _); [done|]. by apply Hal.
Qed.

Definition sequel_bytes (l : list (sframe * envelope)) : list Z :=
  concat (map (fun x => sframe_body x.1 x.2) l).

(** From an open session to its completion. *)
Lemma sequel_runs up typ cnt t0 out l : forall ctx i no t bytes,
  sbd_ok ctx -> sbd_holds ctx i typ up no cnt t0 t bytes -> sbd_alone ctx i typ up ->
  1 < no -> cnt <= 32 -> l <> [] -> sequel up typ cnt no t l ->
  let bytes' := bytes ++ sequel_bytes l in
  exists m ctx', feed_sframes up out ctx (map fst l) = (replicate (length l - 1) (0, out) ++ [(1, m)], ctx') /\
    m_type m = typ /\ m_uplink m = up /\ m_timestamp_us m = t0 /\ m_msg_count m = cnt /\ m_msg_no m = cnt /\
    m_payload_len m = Z.min 320 (Z.of_nat (length bytes')) /\
    take (Z.to_nat (m_payload_len m)) (m_payload m) = take 320 bytes'.
Proof.
  induction l as [|[f e] l IH]; intros ctx i no t bytes Hok Hh Hal Hno Hcnt Hne Hs; [done|].
  destruct Hs as (Hf & Hp & Hty & Hn & Ht & Hs). subst no. cbv zeta in *.
  destruct (sbd_step ctx i typ up cnt t0 t bytes f e out Hok Hh Hal Hf Hp Hty Hno Ht) as (m & ctx' & Hok' & Hstep).
  unfold sequel_bytes. cbn [map concat fst snd]. fold (sequel_bytes l). rewrite app_assoc.
  destruct l as [|[f' e'] l].
  - cbn in Hs. assert (Ec : ev_msg_no e = cnt) by lia. rewrite (proj2 (Z.eqb_eq _ _) Ec) in Hstep.
    destruct Hstep as (E & Hm). exists m, ctx'. cbn [map feed_sframes fst]. rewrite E, app_nil_r. split; [done|exact Hm].
  - assert (Hlt : ev_msg_no e < cnt).
    { assert (Hge : forall l no t, sequel up typ cnt no t l -> no <= cnt + 1).
      { clear. induction l as [|[f e] l IH]; intros no t H; cbn in H; [lia|].
        destruct H as (_ & _ & _ & _ & _ & H). apply IH in H. lia. }
      destruct Hs as (_ & _ & _ & _ & _ & Hs). apply Hge in Hs. lia. }
    rewrite (proj2 (Z.eqb_neq _ cnt)) in Hstep by lia. destruct Hstep as (E & Hal' & Hh').
    rewrite u8_small in Hh' by lia.
    destruct (IH ctx' i (ev_msg_no e + 1) (sf_time f) _ Hok' Hh' Hal' ltac:(lia) Hcnt ltac:(done) Hs)
      as (m' & ctx2 & E2 & Hm). exists m', ctx2. split; [|exact Hm].
    cbn [map fst] in *. cbn [feed_sframes] in *. rewrite E, E2. cbn [length Nat.sub]. by rewrite Nat.sub_0_r.
Qed.

(** Sample envelopes: a downlink 0x7608 frame [no] of [cnt] carrying [body]. *)
Definition sample_7608 (cnt no : Z) (body : list Z) : list Z :=
  [0x76; 0x08; 0x26; 0; 0; cnt; 0; 0; 0; 0x10; Z.of_nat (length body); no] ++ body.
Definition sample_sframe (cnt no t : Z) (body : list Z) : sframe :=
  SFrame (sample_7608 cnt no body) (Z.of_nat (length (sample_7608 cnt no body))) t.
Definition sample_envelope (cnt no : Z) (body : list Z) : envelope :=
  Envelope SBD_TYPE_DATA_DL_7608 cnt no 12 (Z.of_nat (length body)).

(** ** Properties *)

(** C23: multi-frame reassembly.  The first frame of a [cnt]-frame message
    (2 to 32) and continuations 2..[cnt] of the same wire type, each at most
    5 s after its predecessor, fed into any table that has a free slot and no
    other open message of that type and direction: all frames but the last are
    absorbed, the last one returns the message whose payload is the first 320
    bytes of the concatenated bodies, with the opener's type and timestamp. *)
Theorem sbd_multi_frame ctx up out f e l :
  sbd_ok ctx -> sframe_ok f -> feed_parse (sf_payload f) (sf_len f) up = Some e ->
  2 <= ev_msg_cnt e <= 32 -> ev_msg_no e = 1 -> l <> [] ->
  sequel up (ev_type e) (ev_msg_cnt e) 2 (sf_time f) l ->
  (exists i, (i < 8)%nat /\ ss_active (sbd_at ctx i) = false) ->
  (forall j, (j < 8)%nat -> ss_active (sbd_at ctx j) = true -> ss_uplink (sbd_at ctx j) = up ->
     ss_type (sbd_at ctx j) <> ev_type e) ->
  let bytes := sequel_bytes ((f, e) :: l) in
  exists m ctx', feed_sframes up out ctx (f :: map fst l) =
      (replicate (length l) (0, out) ++ [(1, m)], ctx') /\
    m_type m = ev_type e /\ m_uplink m = up /\ m_timestamp_us m = sf_time f /\
    m_msg_count m = ev_msg_cnt e /\ m_msg_no m = ev_msg_cnt e /\
    m_payload_len m = Z.min 320 (Z.of_nat (length bytes)) /\
    take (Z.to_nat (m_payload_len m)) (m_payload m) = take 320 bytes.
Proof.
  intros Hok Hf Hp Hcnt Hno Hne Hs Hfree Hal bytes.
  destruct (sbd_opens ctx up out f e Hok Hf Hp Hcnt Hno Hfree Hal) as (i & ctx2 & E1 & Hok2 & Hh & Hal2).
  destruct (sequel_runs up (ev_type e) (ev_msg_cnt e) (sf_time f) out l ctx2 i 2 (sf_time f) (sframe_body f e)
    Hok2 Hh Hal2 ltac:(lia) (proj2 Hcnt) Hne Hs) as (m & ctx' & E & Hm).
  exists m, ctx'. split; [|exact Hm]. cbn [feed_sframes]. rewrite E1, E.
  destruct l as [|x l]; [done|]. cbn [length Nat.sub]. by rewrite Nat.sub_0_r.
Qed.

Lemma sbd_multi_frame_witness :
  let f := sample_sframe 2 1 0 [0x41; 0x42] in
  let g := sample_sframe 2 2 900000 [0x43] in
  exists m ctx', feed_sframes false sbd_message_zero sbd_reassembler_init [f; g] =
    ([(0, sbd_message_zero); (1, m)], ctx') /\ take (Z.to_nat (m_payload_len m)) (m_payload m) = [0x41; 0x42; 0x43].
Proof.
  intros f g.
  assert (Hb : forall x, x = f \/ x = g -> sframe_ok x).
  { intros x [-> | ->]; (split; [apply (bool_decide_unpack _); vm_compute; reflexivity|]; split;
      [vm_compute; discriminate|unfold is_u; cbn; lia]). }
  destruct (sbd_multi_frame sbd_reassembler_init false sbd_message_zero f (sample_envelope 2 1 [0x41; 0x42])
    [(g, sample_envelope 2 2 [0x43])]) as (m & ctx' & E & _ & _ & _ & _ & _ & _ & Hm).
  - apply sbd_init_ok.
  - apply Hb. by left.
  - reflexivity.
  - cbn. lia.
  - reflexivity.
  - discriminate.
  - cbn [sequel]. split; [apply Hb; by right|]. split; [reflexivity|]. unfold SBD_TIMEOUT_US.
    split; [reflexivity|]. split; [reflexivity|]. split; [cbn; lia|reflexivity].
  - exists 0%nat. split; [lia|reflexivity].
  - intros j Hj Ha. exfalso. revert Ha. do 8 (destruct j as [|j]; [discriminate|]). lia.
  - exists m, ctx'. split; [exact E|exact Hm].
Defined.

(** Strict and salvage parses agree.  On byte payloads [feed] accepts an
    envelope exactly when it has at least five bytes and the salvage parse
    recognises it untruncated, and then both report the same type, numbers,
    body and length; the body lies inside the payload, after the type bytes,
    and has at most 320 bytes. *)
Theorem sbd_feed_iff_salvage payload len uplink :
  is_bytes payload ->
  let sg := sbd_salvage_parse payload len uplink in
  ((exists e, feed_parse payload len uplink = Some e) <->
     5 <= len /\ sg.1 = 1 /\ sg_truncated sg.2 = false) /\
  (forall e, feed_parse payload len uplink = Some e ->
     sg.2 = info_of e /\ (2 <= ev_off e)%nat /\ 0 <= ev_len e <= 320 /\
     Z.of_nat (ev_off e) + ev_len e <= len /\
     (0 < ev_len e -> sg_body sg.2 = Some (ev_off e))).
Proof.
  intros Hb. pose proof (parse_agree payload len uplink Hb) as Hp. cbv zeta.
  destruct (feed_parse payload len uplink) as [e|].
  - destruct Hp as (H5 & [_ _ _ K3 K4 K5 _] & E). rewrite E. cbn [fst snd info_of sg_truncated sg_body].
    split; [split; [done|eauto]|]. intros e' [= <-]. repeat (split; [done|]).
    intros Hpos. by rewrite (proj2 (Z.ltb_lt 0 (ev_len e))).
  - split; [|done]. split; [intros [e He]; discriminate He|]. intros (H5 & H1 & Ht).
    destruct Hp as [Hp|[Hp|Hp]]; [lia|congruence|congruence].
Qed.

Lemma sbd_feed_iff_salvage_witness :
  sg_body (sbd_salvage_parse (sample_7608 2 1 [0x41; 0x42]) 14 false).2 = Some 12%nat.
Proof.
  refine (proj2 (proj2 (proj2 (proj2 (proj2 (sbd_feed_iff_salvage (sample_7608 2 1 [0x41; 0x42]) 14 false _)
    (sample_envelope 2 1 [0x41; 0x42]) _)))) _).
  - apply (bool_decide_unpack _). vm_compute. reflexivity.
  - reflexivity.
  - reflexivity.
Defined.

(** the salvage parse reads only the payload.  Its result depends on
    nothing beyond the first [len] bytes, also when the envelope is truncated. *)
Theorem sbd_salvage_reads_in_bounds p p' len uplink :
  (forall i, Z.of_nat i < len -> rd p i = rd p' i) ->
  sbd_salvage_parse p len uplink = sbd_salvage_parse p' len uplink.
Proof. intros H. by apply salvage_local. Qed.

Lemma sbd_salvage_reads_in_bounds_witness :
  sbd_salvage_parse [0x76; 0x08; 0x26] 3 false = sbd_salvage_parse [0x76; 0x08; 0x26; 0x10; 0x99] 3 false.
Proof.
  apply sbd_salvage_reads_in_bounds. intros i Hi.
  do 3 (destruct i as [|i]; [reflexivity|]). lia.
Defined.

(** Every feed keeps the table well formed (eight sessions, payload lengths
    within their 320-byte buffers, active sessions expecting 2 to 32 frames),
    hands the caller at most 320 bytes, and touches the caller's message only
    when it returns 1. *)
Theorem sbd_feed_invariant ctx payload len up now out :
  sbd_ok ctx -> is_bytes payload -> len <= Z.of_nat (length payload) -> is_u 64 now ->
  length (m_payload out) = 320%nat ->
  let '(r, m, ctx') := sbd_reassembler_feed ctx payload len up now out in
  sbd_ok ctx' /\ length (m_payload m) = 320%nat /\
  (r = 1 /\ 0 <= m_payload_len m <= 320 /\ m_uplink m = up \/ (r = 0 \/ r = -1) /\ m = out).
Proof. exact (sbd_feed_ok ctx payload len up now out). Qed.

Lemma sbd_feed_invariant_witness :
  let '(r, m, ctx') := sbd_reassembler_feed sbd_reassembler_init (sample_7608 2 1 [0x41]) 13 false 7
    sbd_message_zero in sbd_ok ctx'.
Proof.
  pose proof (sbd_feed_invariant sbd_reassembler_init (sample_7608 2 1 [0x41]) 13 false 7 sbd_message_zero
    sbd_init_ok ltac:(apply (bool_decide_unpack _); vm_compute; reflexivity)
    ltac:(vm_compute; discriminate) ltac:(unfold is_u; lia) eq_refl) as H.
  destruct (sbd_reassembler_feed _ _ _ _ _ _) as [[r m] ctx']. exact (proj1 H).
Defined.

(** The sweep drops exactly the stale sessions.  A tick deactivates the
    active sessions last touched more than 5 s ago and no others, changes
    nothing else of any session, counts each once as broken, and a second tick
    at the same time changes no session. *)
Theorem sbd_tick_exact ctx now :
  sbd_ok ctx -> is_u 64 now -> is_u 32 (cnt_broken ctx) ->
  let ctx' := sbd_reassembler_tick ctx now in
  (forall j, (j < 8)%nat ->
     (ss_active (sbd_at ctx j) = true /\ ss_last_update_us (sbd_at ctx j) + 5000000 < now ->
        sbd_at ctx' j = sbd_deactivate (sbd_at ctx j)) /\
     (ss_active (sbd_at ctx j) = false \/ now <= ss_last_update_us (sbd_at ctx j) + 5000000 ->
        sbd_at ctx' j = sbd_at ctx j) /\
     sbd_at (sbd_reassembler_tick ctx' now) j = sbd_at ctx' j) /\
  cnt_broken ctx' = u32 (cnt_broken ctx + Z.of_nat (stale_below ctx now 8)).
Proof.
  intros Hok Hn Hb. cbv zeta. destruct (tick_spec ctx now Hok) as (Hok1 & Ht & Hc).
  split; [|by apply Hc]. intros j Hj. destruct (tick_spec _ now Hok1) as (_ & Ht2 & _).
  rewrite Ht2, Ht, !decide_True by done. pose proof (sbd_stale_spec _ now (sbd_at_ok ctx j Hok) Hn) as Hst.
  split; [intros H; by rewrite (proj2 Hst)|]. split.
  - intros H. destruct (sbd_stale (sbd_at ctx j) now); [|done].
    destruct (proj1 Hst eq_refl) as [H1 H2]. destruct H as [H|H]; [congruence|lia].
  - destruct (sbd_stale (sbd_at ctx j) now) eqn:E; [done|]. by rewrite E.
Qed.

Definition sbd_sample_open : sbd_reassembler :=
  (sbd_reassembler_feed sbd_reassembler_init (sample_7608 2 1 [0x41]) 13 false 7 sbd_message_zero).2.

Lemma sbd_sample_open_ok : sbd_ok sbd_sample_open.
Proof.
  pose proof (sbd_feed_ok sbd_reassembler_init (sample_7608 2 1 [0x41]) 13 false 7 sbd_message_zero
    sbd_init_ok ltac:(apply (bool_decide_unpack _); vm_compute; reflexivity)
    ltac:(vm_compute; discriminate) ltac:(unfold is_u; lia) eq_refl) as H.
  unfold sbd_sample_open. destruct (sbd_reassembler_feed _ _ _ _ _ _) as [[r m] ctx']. exact (proj1 H).
Qed.

Lemma sbd_tick_exact_witness :
  sbd_at (sbd_reassembler_tick sbd_sample_open 6000000) 0 = sbd_deactivate (sbd_at sbd_sample_open 0).
Proof.
  refine (proj1 (proj1 (sbd_tick_exact sbd_sample_open 6000000 sbd_sample_open_ok _ _) 0%nat _) _).
  - unfold is_u. lia.
  - vm_compute. split; [discriminate|reflexivity].
  - lia.
  - split; reflexivity.
Defined.

(** A multi-frame message opened by a 0x0600 envelope never completes.  A
    continuation must have the opener's wire type, but a 0x0600 envelope's
    message number is always 0 or 1: no feed extends or completes such a
    session before it goes stale, and no message of that type with a number
    above 1 is ever returned. *)
Theorem sbd_hello_never_completes ctx payload len up now out :
  sbd_ok ctx -> is_bytes payload ->
  let '(r, m, ctx') := sbd_reassembler_feed ctx payload len up now out in
  (forall j, (j < 8)%nat -> ss_active (sbd_at ctx j) = true -> ss_type (sbd_at ctx j) = SBD_TYPE_HELLO_0600 ->
     sbd_stale (sbd_at ctx j) now = false -> sbd_at ctx' j = sbd_at ctx j) /\
  (r = 1 -> m_type m = SBD_TYPE_HELLO_0600 -> m_msg_no m <= 1).
Proof.
  intros Hok Hb. unfold sbd_reassembler_feed. pose proof (parse_agree payload len up Hb) as Hp.
  destruct (feed_parse payload len up) as [e|]; [|cbv iota beta; split; [done|lia]].
  destruct Hp as (_ & He & _). rewrite (dispatch_cases _ _ len) by done. cbv zeta.
  destruct (tick_spec ctx now Hok) as (Hok1 & Ht & _). revert Hok1 Ht.
  generalize (sbd_reassembler_tick ctx now). intros ctx1 Hok1 Ht.
  assert (Hsame : forall j, (j < 8)%nat -> sbd_stale (sbd_at ctx j) now = false -> sbd_at ctx1 j = sbd_at ctx j).
  { intros j Hj Hs. by rewrite Ht, decide_True, Hs by done. }
  assert (Hkeep : forall a b c d f g j, (j < 8)%nat -> ss_active (sbd_at ctx j) = true ->
    ss_type (sbd_at ctx j) = SBD_TYPE_HELLO_0600 -> sbd_stale (sbd_at ctx j) now = false ->
    sbd_at (sbd_count ctx1 a b c d f g) j = sbd_at ctx j).
  { intros a b c d f g j Hj _ _ Hs. rewrite sbd_at_count. auto. }
  destruct (ev_msg_no e =? 0); [split; [|cbn; lia]; auto|].
  destruct ((ev_msg_cnt e =? 1) && (ev_msg_no e =? 1)); [split; [|cbn; lia]; auto|].
  destruct ((1 <? ev_msg_cnt e) && (ev_msg_cnt e <=? 32) && (ev_msg_no e =? 1)).
  { destruct (sbd_find_free_session ctx1) as [i|] eqn:Ef; (split; [|lia]); [|auto].
    apply sbd_find_free_spec in Ef as [Hi Hia]. intros j Hj Ha Hty Hs. rewrite sbd_at_count, sbd_at_set by done.
    destruct (decide (i = j)) as [<-|]; [|auto]. rewrite Hsame in Hia by done. congruence. }
  destruct (Z.ltb_spec 1 (ev_msg_no e)) as [Hno|]; [|split; [auto|lia]].
  destruct (sbd_find_matching_session _ _ _ _) as [i|] eqn:Ef; [|split; [auto|lia]].
  apply sbd_find_matching_spec in Ef as [Hi Hm]. apply sbd_matches_spec in Hm as (_ & _ & _ & Hty).
  assert (Hnh : ss_type (sbd_at ctx1 i) <> SBD_TYPE_HELLO_0600).
  { intros Eh. pose proof (ek_hello _ _ He). rewrite Hty in Eh. lia. }
  assert (Hset : forall s j, (j < 8)%nat -> ss_type (sbd_at ctx j) = SBD_TYPE_HELLO_0600 ->
    sbd_stale (sbd_at ctx j) now = false -> sbd_at (sbd_set ctx1 i s) j = sbd_at ctx j).
  { intros s j Hj Ehj Hs. rewrite sbd_at_set by done. destruct (decide (i = j)) as [<-|]; [|auto].
    rewrite Hsame in Hnh by done. contradiction. }
  destruct (ev_msg_no e =? ss_msg_cnt (sbd_at ctx1 i)); (split; [intros j Hj Ha; rewrite sbd_at_count; by apply Hset|]); [|lia].
  intros _ Et. exfalso. apply Hnh. rewrite <- (proj1 (sk_type _ (sbd_at_ok _ i Hok1))). exact Et.
Qed.

Definition sample_hello (cnt : Z) : list Z :=
  [0x06; 0x00; 0x20; 0; 0; 0; 0; 0; 0; 0; 0; 0; 0; 0; 0; 0; 0; cnt; 0; 0].
Definition sbd_hello_open : sbd_reassembler :=
  (sbd_reassembler_feed sbd_reassembler_init (sample_hello 2) 20 true 7 sbd_message_zero).2.

Lemma sbd_hello_open_ok : sbd_ok sbd_hello_open.
Proof.
  pose proof (sbd_feed_ok sbd_reassembler_init (sample_hello 2) 20 true 7 sbd_message_zero
    sbd_init_ok ltac:(apply (bool_decide_unpack _); vm_compute; reflexivity)
    ltac:(vm_compute; discriminate) ltac:(unfold is_u; lia) eq_refl) as H.
  unfold sbd_hello_open. destruct (sbd_reassembler_feed _ _ _ _ _ _) as [[r m] ctx']. exact (proj1 H).
Qed.

Lemma sbd_hello_never_completes_witness :
  ss_active (sbd_at sbd_hello_open 0) = true /\
  let '(r, m, ctx') := sbd_reassembler_feed sbd_hello_open [0x76; 0x0c; 0x10; 1; 2; 0x41; 0; 0] 8 true 9
    sbd_message_zero in sbd_at ctx' 0 = sbd_at sbd_hello_open 0.
Proof.
  split; [reflexivity|].
  pose proof (sbd_hello_never_completes sbd_hello_open [0x76; 0x0c; 0x10; 1; 2; 0x41; 0; 0] 8 true 9
    sbd_message_zero sbd_hello_open_ok ltac:(apply (bool_decide_unpack _); vm_compute; reflexivity)) as H.
  destruct (sbd_reassembler_feed _ _ _ _ _ _) as [[r m] ctx'].
  refine (proj1 H 0%nat _ eq_refl eq_refl eq_refl). lia.
Defined.
