(* ===== verification/Vdl2Header.v ===== *)
(** The VDL2 burst header: the (25,20) block code of the transmission length,
    its hard and Chase-style soft decoders, the body-length arithmetic and the
    scrambler (src/common/vdl2_decoder/vdl2_demod.c). *)

From S2P Require Import Prelude.

Definition VDL2_HDR_RESERVED_BITS : Z := 3.
Definition VDL2_HDR_TRLEN_BITS : Z := 17.
Definition VDL2_HDR_FEC_BITS : Z := 5.
Definition VDL2_HDR_BITS : Z := VDL2_HDR_RESERVED_BITS + VDL2_HDR_TRLEN_BITS + VDL2_HDR_FEC_BITS.
Definition VDL2_LFSR_IV : Z := 0x6959.
Definition VDL2_MAX_FRAME_BITS : Z := 0x3FFF.
Definition VDL2_MAX_FRAME_BITS_CORRECTED : Z := 0x1FFF.

Definition s_hdr_h_rows : list Z := [0x001FFF0; 0x07E1FE8; 0x18E61E4; 0x1B6A662; 0x0D3CAA1].

Definition s_hdr_syndtable : list Z :=
  [0x0000000; 0x0000001; 0x0000002; 0x0800004; 0x0000004; 0x0800002; 0x1000000; 0x0800000;
   0x0000008; 0x0400000; 0x0200000; 0x0100000; 0x0080000; 0x1100000; 0x0040000; 0x0020000;
   0x0000010; 0x0010000; 0x0804000; 0x0008000; 0x0808000; 0x0004000; 0x0002000; 0x1010000;
   0x0001000; 0x0000800; 0x0000400; 0x0000200; 0x0000100; 0x0000080; 0x0000040; 0x0000020].

Definition s_hdr_synd_weight : list Z :=
  [0; 1; 1; 2; 1; 2; 1; 1; 1; 1; 1; 1; 1; 2; 1; 1; 1; 1; 2; 1; 2; 1; 1; 2; 1; 1; 1; 1; 1; 1; 1; 1].

(** [while (v) { p = !p; v &= v - 1; }]; a 32-bit word loses one of its at most
    32 set bits per iteration. *)
Fixpoint parity_loop (fuel : nat) (v p : Z) : Z :=
  match fuel with
  | O => p
  | S fuel => if v =? 0 then p else parity_loop fuel (Z.land v (v - 1)) (if p =? 0 then 1 else 0)
  end.
Definition parity32 (v : Z) : Z := parity_loop 32 v 0.

(** [r = (r << 1) | (v & 1); v >>= 1], [numbits] times. *)
Definition reverse_bits (v : Z) (numbits : nat) : Z :=
  (forN numbits (fun _ '(r, v) => (Z.lor (u32 (Z.shiftl r 1)) (bit v), Z.shiftr v 1)) (0, v)).1.

Definition vdl2_hdr_encode (datalen_bits : Z) : Z :=
  let field := reverse_bits (Z.land datalen_bits 0x1FFFF) 17 in
  let w := u32 (Z.shiftl field VDL2_HDR_FEC_BITS) in
  forN 5 (fun i w =>
    if parity32 (Z.land w (rd s_hdr_h_rows i)) =? 0 then w
    else Z.lor w (Z.shiftl 1 (VDL2_HDR_FEC_BITS - 1 - Z.of_nat i))) w.

(** [(1u << (TRLEN + FEC)) - 1u] *)
Definition HDR_MASK : Z := Z.shiftl 1 (VDL2_HDR_TRLEN_BITS + VDL2_HDR_FEC_BITS) - 1.

Definition hdr_syndrome (w : Z) : Z :=
  forN 5 (fun i s =>
    Z.lor s (Z.shiftl (parity32 (Z.land w (rd s_hdr_h_rows i))) (VDL2_HDR_FEC_BITS - 1 - Z.of_nat i))) 0.

(** Return value, [*hdr] and [*datalen_bits] afterwards. *)
Definition vdl2_hdr_decode (hdr datalen_bits : Z) : Z * Z * Z :=
  let w := Z.land hdr HDR_MASK in
  let syndrome := hdr_syndrome w in
  let w := Z.lxor w (rd s_hdr_syndtable (Z.to_nat syndrome)) in
  if negb (Z.land w HDR_MASK =? w) then (-1, hdr, datalen_bits)
  else (rd s_hdr_synd_weight (Z.to_nat syndrome), w,
        reverse_bits (Z.land (Z.shiftr w VDL2_HDR_FEC_BITS) 0x1FFFF) 17).

Definition vdl2_burst_body_bits (datalen_bits : Z) : Z :=
  if (datalen_bits =? 0) || (VDL2_MAX_FRAME_BITS <? datalen_bits) then -1 else
  let octets := (datalen_bits + 7) / 8 in
  let blocks := octets / 249 in
  let last := octets mod 249 in
  let fec := blocks * 6 +
    (if last =? 0 then 0 else if last <? 3 then 0 else if last <? 31 then 2 else if last <? 68 then 4 else 6) in
  if fec =? 0 then -1 else 8 * (octets + fec).

(** ** Chase-style soft decoding *)

Definition VDL2_HDR_SOFT_M : nat := 3.
Definition VDL2_HDR_DATA_BITS : nat := 22.
Definition LONG_MAX : Z := 2 ^ 31 - 1.

(** [while (ins > 0 && confp[p] < confp[weak[ins - 1]]) ins--;] *)
Fixpoint insertion_point (confp : list Z) (weak : list nat) (p ins : nat) : nat :=
  match ins with
  | O => O
  | S k => if rd confp p <? rd confp (nth k weak O) then insertion_point confp weak p k else ins
  end.

(** One step of the insertion sort; [weak] holds the [nweak] entries in use,
    and shifting the tail up drops the last one when the array is full. *)
Definition weak_step (confp : list Z) (p : nat) (weak : list nat) : list nat :=
  let ins := insertion_point confp weak p (length weak) in
  if (VDL2_HDR_SOFT_M <=? ins)%nat then weak
  else take VDL2_HDR_SOFT_M (take ins weak ++ p :: drop ins weak).

Definition weakest (confp : list Z) : list nat := forN VDL2_HDR_DATA_BITS (weak_step confp) [].

(** The bits selected by [mask] among the weak positions. *)
Definition flip_of (weak : list nat) (mask : Z) : Z :=
  forN (length weak) (fun i test =>
    if Z.testbit mask (Z.of_nat i) then Z.lor test (Z.shiftl 1 (Z.of_nat (nth i weak O))) else test) 0.

(** Confidence-weighted distance of the bits of [diff]. *)
Definition hdr_metric (confp : list Z) (diff : Z) : Z :=
  forN VDL2_HDR_DATA_BITS (fun p m => if Z.testbit diff (Z.of_nat p) then m + rd confp p else m) 0.

(** [best_w, best_len, best_metric, best_syndw] *)
Record soft_best := SoftBest { sb_w : Z; sb_len : Z; sb_metric : Z; sb_syndw : Z }.

Definition hdr_plausible (sw len : Z) : bool :=
  negb (negb (sw =? 0) && (VDL2_MAX_FRAME_BITS_CORRECTED <? len) || (VDL2_MAX_FRAME_BITS <? len)) &&
  negb (vdl2_burst_body_bits len <? 0).

Definition soft_try (confp : list Z) (w0 : Z) (weak : list nat) (mask : Z) (best : soft_best) : soft_best :=
  let '(sw, w, len) := vdl2_hdr_decode (Z.lxor w0 (flip_of weak mask)) 0 in
  if sw <? 0 then best
  else if negb (hdr_plausible sw len) then best
  else
    let metric := hdr_metric confp (Z.land (Z.lxor w w0) (Z.shiftl 1 22 - 1)) in
    if metric <? sb_metric best then SoftBest w len metric sw else best.

(** [confp[p] = conf_air ? conf_air[24 - p] : 24576] *)
Definition soft_confp (conf_air : option (list Z)) : list Z :=
  map (fun p => match conf_air with Some c => rd c (24 - p) | None => 24576 end) (seq 0 VDL2_HDR_DATA_BITS).

Definition vdl2_hdr_decode_soft (hdr : Z) (conf_air : option (list Z)) (datalen_bits : Z) : Z * Z * Z :=
  let w0 := Z.land hdr (Z.shiftl 1 22 - 1) in
  let confp := soft_confp conf_air in
  let weak := weakest confp in
  let masks := map Z.of_nat (seq 1 (Nat.pow 2 (length weak) - 1)) in
  let best := fold_left (fun b mask => soft_try confp w0 weak mask b) masks (SoftBest 0 0 LONG_MAX (-1)) in
  if sb_syndw best <? 0 then (-1, hdr, datalen_bits)
  else (sb_syndw best, sb_w best, sb_len best).

(** ** Scrambler *)

(** One keystream bit and the next register. *)
Definition lfsr_next (s : Z) : Z * Z :=
  let b := Z.land (Z.lxor s (Z.shiftr s 14)) 1 in
  (b, u16 (Z.lor (Z.shiftr s 1) (Z.shiftl b 14))).

(** Descrambles the vector; returns it with the final register. *)
Fixpoint vdl2_scramble (bits : list Z) (lfsr : Z) : list Z * Z :=
  match bits with
  | [] => ([], lfsr)
  | x :: bits =>
    let '(b, s) := lfsr_next lfsr in
    let '(out, s) := vdl2_scramble bits s in
    (Z.lxor x b :: out, s)
  end.

(** ** Parity *)

(** Parity of the low [n] bits. *)
Fixpoint bits_par (n : nat) (v : Z) : bool :=
  match n with O => false | S n => xorb (Z.odd v) (bits_par n (Z.div2 v)) end.

(** Number of set bits among the low [n]. *)
Fixpoint popc (n : nat) (v : Z) : nat :=
  match n with O => O | S n => ((if Z.odd v then 1 else 0) + popc n (Z.div2 v))%nat end.

Lemma div2_bound n v : 0 <= v < 2 ^ Z.of_nat (S n) -> 0 <= Z.div2 v < 2 ^ Z.of_nat n.
Proof. rewrite Z.div2_div, Nat2Z.inj_succ, Z.pow_succ_r by lia. intros. split; [apply Z.div_pos|apply Z.div_lt_upper_bound]; lia. Qed.

Lemma bits_par_lxor n a b : bits_par n (Z.lxor a b) = xorb (bits_par n a) (bits_par n b).
Proof.
  revert a b. induction n as [|n IH]; intros a b; [done|]. cbn [bits_par].
  rewrite <- !Z.bit0_odd, Z.lxor_spec, !Z.bit0_odd, !Z.div2_spec, Z.shiftr_lxor, <- !Z.div2_spec, IH. btauto.
Qed.

Lemma bits_par_0 n : bits_par n 0 = false.
Proof. induction n as [|n IH]; [done|]. cbn. by rewrite IH. Qed.

(** Clearing the lowest set bit. *)
Lemma land_pred_even h : 0 < h -> Z.land (2 * h) (2 * h - 1) = 2 * Z.land h (h - 1).
Proof.
  intros Hh. replace (2 * h - 1) with (2 * (h - 1) + 1) by lia. apply Z.bits_inj'. intros i Hi.
  rewrite Z.land_spec. destruct (Z.eq_dec i 0) as [->|Hi0].
  - by rewrite !Z.testbit_even_0.
  - replace i with (Z.succ (i - 1)) by lia.
    by rewrite !Z.testbit_even_succ, Z.testbit_odd_succ, Z.land_spec by lia.
Qed.

Lemma land_pred_odd h : Z.land (2 * h + 1) (2 * h + 1 - 1) = 2 * h.
Proof.
  replace (2 * h + 1 - 1) with (2 * h) by lia. apply Z.bits_inj'. intros i Hi.
  rewrite Z.land_spec. destruct (Z.eq_dec i 0) as [->|Hi0].
  - by rewrite Z.testbit_even_0, andb_false_r.
  - replace i with (Z.succ (i - 1)) by lia.
    rewrite Z.testbit_even_succ, Z.testbit_odd_succ by lia. apply andb_diag.
Qed.

Lemma div2_double h : Z.div2 (2 * h) = h.
Proof. rewrite Z.div2_div. lia. Qed.

Lemma clear_lowest n v : 0 < v < 2 ^ Z.of_nat n ->
  let v' := Z.land v (v - 1) in
  0 <= v' < 2 ^ Z.of_nat n /\ bits_par n v' = negb (bits_par n v) /\ S (popc n v') = popc n v.
Proof.
  revert v. induction n as [|n IH]; intros v Hv; cbn zeta.
  { change (2 ^ Z.of_nat 0) with 1 in Hv. lia. }
  rewrite Nat2Z.inj_succ, Z.pow_succ_r in * by lia.
  pose proof (Z.div2_odd v) as Hd. rewrite Z.div2_div in Hd. set (h := v / 2) in *.
  destruct (Z.odd v) eqn:Eo; cbn [Z.b2z] in Hd.
  - rewrite Hd, land_pred_odd. split; [lia|]. cbn [bits_par popc].
    rewrite div2_double, Z.odd_mul, Z.odd_add, Z.odd_mul. cbn.
    rewrite (Z.div2_div (2 * h + 1)). replace ((2 * h + 1) / 2) with h by lia.
    split; [by destruct (bits_par n h)|done].
  - rewrite Z.add_0_r in Hd. rewrite Hd, land_pred_even by lia. destruct (IH h) as (I1 & I2 & I3); [lia|].
    split; [lia|]. cbn [bits_par popc]. rewrite !div2_double, !Z.odd_mul. cbn. rewrite I2, I3. by destruct (bits_par n h).
Qed.

Lemma popc_0 n v : 0 <= v < 2 ^ Z.of_nat n -> popc n v = O -> v = 0.
Proof.
  intros Hv Hp. destruct (Z.eq_dec v 0) as [|Hne]; [done|].
  destruct (clear_lowest n v) as (_ & _ & H); [lia|]. lia.
Qed.

Lemma popc_le n v : (popc n v <= n)%nat.
Proof. revert v. induction n as [|n IH]; intros v; cbn; [lia|]. specialize (IH (Z.div2 v)). destruct (Z.odd v); lia. Qed.

Lemma parity_loop_spec n fuel : forall v p, 0 <= v < 2 ^ Z.of_nat n -> (popc n v <= fuel)%nat -> p = 0 \/ p = 1 ->
  parity_loop fuel v p = Z.b2z (xorb (bits_par n v) (p =? 1)).
Proof.
  induction fuel as [|fuel IH]; intros v p Hv Hf Hp; cbn [parity_loop].
  - assert (v = 0) as -> by (apply (popc_0 n); [done|lia]). rewrite bits_par_0.
    by destruct Hp as [-> | ->].
  - destruct (Z.eqb_spec v 0) as [->|Hne].
    { rewrite bits_par_0. by destruct Hp as [-> | ->]. }
    destruct (clear_lowest n v) as (I1 & I2 & I3); [lia|].
    rewrite IH; [|done|lia|destruct (p =? 0); auto]. rewrite I2.
    f_equal. destruct Hp as [-> | ->]; cbn; by destruct (bits_par n v).
Qed.

(** The loop computes the parity of the set bits. *)
Lemma parity32_spec v : is_u 32 v -> parity32 v = Z.b2z (bits_par 32 v).
Proof.
  intros Hv. unfold parity32. rewrite (parity_loop_spec 32); [by rewrite xorb_false_r|exact Hv|apply popc_le|by left].
Qed.

(** ** Syndrome *)

Definition row (i : nat) : Z := rd s_hdr_h_rows i.
Definition check (w : Z) (i : nat) : bool := bits_par 32 (Z.land w (row i)).

Lemma land_lxor_distr a b c : Z.land (Z.lxor a b) c = Z.lxor (Z.land a c) (Z.land b c).
Proof. apply Z.bits_inj'. intros i Hi. rewrite !Z.land_spec, !Z.lxor_spec, !Z.land_spec. btauto. Qed.

Lemma check_lxor a b i : check (Z.lxor a b) i = xorb (check a i) (check b i).
Proof. unfold check. by rewrite land_lxor_distr, bits_par_lxor. Qed.

Lemma is_u_land w a b : 0 <= w -> is_u w a -> is_u w (Z.land a b).
Proof.
  intros Hw Ha. apply bound_of_testbit; [done|apply Z.land_nonneg; unfold is_u in Ha; lia|].
  intros i Hi. by rewrite Z.land_spec, (testbit_high w).
Qed.

Lemma parity_row w i : is_u 32 w -> parity32 (Z.land w (rd s_hdr_h_rows i)) = Z.b2z (check w i).
Proof. intros Hw. rewrite parity32_spec; [done|]. apply is_u_land; [lia|done]. Qed.

Definition syndrome_of (s0 s1 s2 s3 s4 : bool) : Z :=
  16 * Z.b2z s0 + 8 * Z.b2z s1 + 4 * Z.b2z s2 + 2 * Z.b2z s3 + Z.b2z s4.

Lemma hdr_syndrome_spec w : is_u 32 w ->
  hdr_syndrome w = syndrome_of (check w 0) (check w 1) (check w 2) (check w 3) (check w 4).
Proof.
  intros Hw. unfold hdr_syndrome, forN. cbn [seq fold_left]. rewrite !parity_row by done.
  by destruct (check w 0), (check w 1), (check w 2), (check w 3), (check w 4).
Qed.

Lemma hdr_syndrome_lxor a b : is_u 32 a -> is_u 32 b ->
  hdr_syndrome (Z.lxor a b) = Z.lxor (hdr_syndrome a) (hdr_syndrome b).
Proof.
  intros Ha Hb. rewrite !hdr_syndrome_spec by (done || by apply is_u_lxor).
  rewrite !check_lxor.
  destruct (check a 0), (check a 1), (check a 2), (check a 3), (check a 4),
    (check b 0), (check b 1), (check b 2), (check b 3), (check b 4); reflexivity.
Qed.

Lemma hdr_syndrome_range w : is_u 32 w -> 0 <= hdr_syndrome w < 32.
Proof.
  intros Hw. rewrite hdr_syndrome_spec by done. unfold syndrome_of.
  pose proof (b2z_range (check w 0)). pose proof (b2z_range (check w 1)). pose proof (b2z_range (check w 2)).
  pose proof (b2z_range (check w 3)). pose proof (b2z_range (check w 4)). lia.
Qed.

(** The error pattern looked up for a syndrome has that syndrome. *)
Lemma syndtable_syndrome s : (s < 32)%nat -> hdr_syndrome (rd s_hdr_syndtable s) = Z.of_nat s.
Proof.
  apply (forall_below_eqb (fun s => hdr_syndrome (rd s_hdr_syndtable s)) Z.of_nat 32).
  vm_compute. reflexivity.
Qed.

Lemma syndtable_u s : is_u 25 (rd s_hdr_syndtable s).
Proof.
  unfold rd. destruct (Nat.lt_ge_cases s 32).
  - assert (Hf : Forall (is_u 25) s_hdr_syndtable) by (apply (bool_decide_unpack _); vm_compute; reflexivity).
    rewrite Forall_forall in Hf. apply Hf. apply nth_In. exact H.
  - rewrite nth_overflow by (cbn; lia). unfold is_u. lia.
Qed.

(** A word whose corrected form has its reserved bits clear is decoded to a
    code word. *)
Lemma corrected_syndrome w : is_u 32 w ->
  hdr_syndrome (Z.lxor w (rd s_hdr_syndtable (Z.to_nat (hdr_syndrome w)))) = 0.
Proof.
  intros Hw. pose proof (hdr_syndrome_range w Hw).
  assert (Ht : is_u 32 (rd s_hdr_syndtable (Z.to_nat (hdr_syndrome w)))).
  { pose proof (syndtable_u (Z.to_nat (hdr_syndrome w))). unfold is_u in *. lia. }
  rewrite hdr_syndrome_lxor by done. rewrite syndtable_syndrome, Z2Nat.id by lia. apply Z.lxor_nilpotent.
Qed.

(** ** Bit reversal *)

Lemma reverse_loop n : forall v, 0 <= v ->
  let '(r, v') := forN n (fun _ '(r, v) => (Z.lor (u32 (Z.shiftl r 1)) (bit v), Z.shiftr v 1)) (0, v) in
  (n <= 32)%nat -> v' = Z.shiftr v (Z.of_nat n) /\ is_u (Z.of_nat n) r /\
  (forall i, 0 <= i < Z.of_nat n -> Z.testbit r i = Z.testbit v (Z.of_nat n - 1 - i)).
Proof.
  intros v Hv. induction n as [|n IH].
  { rewrite forN_0. intros _. split; [by rewrite Z.shiftr_0_r|]. split; [unfold is_u; cbn; lia|]. lia. }
  rewrite forN_S. destruct (forN n _ (0, v)) as [r v']. intros Hn. destruct IH as (-> & Hr & Hb); [lia|].
  assert (Hs : u32 (Z.shiftl r 1) = Z.shiftl r 1).
  { apply u32_small. rewrite Z.shiftl_mul_pow2 by lia. unfold is_u in Hr.
    assert (2 ^ Z.of_nat n <= 2 ^ 31) by (apply Z.pow_le_mono_r; lia). lia. }
  rewrite Hs, lor_shiftl1_bit. unfold is_u in *. rewrite Nat2Z.inj_succ, Z.pow_succ_r by lia.
  split; [by rewrite Z.shiftr_shiftr by lia|]. split; [pose proof (b2z_range (Z.odd (Z.shiftr v (Z.of_nat n)))); lia|].
  intros i Hi. destruct (Z.eq_dec i 0) as [->|Hi0].
  - rewrite Z.testbit_0_r, <- Z.bit0_odd, Z.shiftr_spec by lia. f_equal. lia.
  - replace i with (Z.succ (i - 1)) at 1 by lia. rewrite Z.testbit_succ_r, Hb by lia. f_equal. lia.
Qed.

Lemma reverse_bits_spec n v : (n <= 32)%nat -> 0 <= v -> is_u (Z.of_nat n) (reverse_bits v n) /\
  (forall i, 0 <= i < Z.of_nat n -> Z.testbit (reverse_bits v n) i = Z.testbit v (Z.of_nat n - 1 - i)).
Proof.
  intros Hn Hv. unfold reverse_bits. pose proof (reverse_loop n v Hv) as H.
  destruct (forN n _ (0, v)) as [r v']. by destruct (H Hn) as (_ & H1 & H2).
Qed.

Lemma reverse_bits_involutive n v : (n <= 32)%nat -> is_u (Z.of_nat n) v ->
  reverse_bits (reverse_bits v n) n = v.
Proof.
  intros Hn Hv. assert (Hv0 : 0 <= v) by (unfold is_u in Hv; lia).
  destruct (reverse_bits_spec n v Hn Hv0) as [H1 H2].
  destruct (reverse_bits_spec n (reverse_bits v n)) as [H3 H4]; [done|unfold is_u in H1; lia|].
  apply Z.bits_inj'. intros i Hi. destruct (Z.lt_ge_cases i (Z.of_nat n)).
  - rewrite H4, H2 by lia. f_equal. lia.
  - by rewrite !(testbit_high (Z.of_nat n)).
Qed.

(** ** Encoder *)

Lemma lor_clear w k : 0 <= k -> Z.testbit w k = false -> Z.lor w (Z.shiftl 1 k) = Z.lxor w (Z.shiftl 1 k).
Proof.
  intros Hk Hb. symmetry. apply Z.lxor_lor, Z.bits_inj'. intros i Hi. rewrite Z.land_spec, Z.bits_0.
  rewrite Z.shiftl_spec by done. destruct (Z.eq_dec i k) as [->|]; [by rewrite Hb|].
  destruct (Z.lt_ge_cases i k); [by rewrite (Z.testbit_neg_r 1), andb_false_r by lia|].
  rewrite (testbit_high 1 1), andb_false_r by lia. done.
Qed.

Lemma check_unit i j : (i < 5)%nat -> (j < 5)%nat ->
  check (Z.shiftl 1 (5 - 1 - Z.of_nat i)) j = bool_decide (i = j).
Proof.
  intros Hi Hj. do 5 (destruct i as [|i]; [do 5 (destruct j as [|j]; [vm_compute; reflexivity|]); lia|]). lia.
Qed.

Lemma hdr_encode_spec d : 0 <= d < 2 ^ 17 ->
  let w := vdl2_hdr_encode d in
  is_u 22 w /\ Z.shiftr w 5 = reverse_bits d 17 /\ hdr_syndrome w = 0.
Proof.
  intros Hd. cbv zeta. unfold vdl2_hdr_encode, VDL2_HDR_FEC_BITS.
  assert (Em : Z.land d 0x1FFFF = d).
  { change 0x1FFFF with (Z.ones 17). rewrite Z.land_ones by lia. apply Z.mod_small. lia. }
  rewrite Em. destruct (reverse_bits_spec 17 d) as [Hf _]; [lia|lia|]. unfold is_u in Hf.
  change (Z.of_nat 17) with 17 in Hf. set (field := reverse_bits d 17) in *.
  assert (Ew : u32 (Z.shiftl field 5) = Z.shiftl field 5).
  { apply u32_small. rewrite Z.shiftl_mul_pow2 by lia. lia. }
  rewrite Ew. set (step := fun (i : nat) (w : Z) => _).
  assert (Hinv : forall k, (k <= 5)%nat -> let w := forN k step (Z.shiftl field 5) in
    is_u 22 w /\ Z.shiftr w 5 = field /\ (forall i, (i < k)%nat -> check w i = false) /\
    (forall b, 0 <= b < 5 - Z.of_nat k -> Z.testbit w b = false)).
  { intros k Hk. cbv zeta. apply (forN_inv (fun k w => is_u 22 w /\ Z.shiftr w 5 = field /\
      (forall i, (i < k)%nat -> check w i = false) /\ (forall b, 0 <= b < 5 - Z.of_nat k -> Z.testbit w b = false))).
    - split; [unfold is_u; rewrite Z.shiftl_mul_pow2 by lia; lia|]. split; [by rewrite Z.shiftr_shiftl_l, Z.shiftl_0_r by lia|].
      split; [lia|]. intros b Hb. rewrite Z.shiftl_spec by lia. apply Z.testbit_neg_r. lia.
    - intros i w Hi (H1 & H2 & H3 & H4). unfold step.
      assert (H32 : is_u 32 w) by (unfold is_u in *; lia). rewrite parity_row by done.
      destruct (check w i) eqn:Ec; cbn [Z.b2z Z.eqb].
      + rewrite lor_clear by (lia || apply H4; lia). set (u := Z.shiftl 1 _).
        assert (Hu : is_u 5 u).
        { unfold u, is_u. rewrite Z.shiftl_mul_pow2 by lia.
          assert (2 ^ (5 - 1 - Z.of_nat i) <= 2 ^ 4) by (apply Z.pow_le_mono_r; lia). lia. }
        split; [apply is_u_lxor; [lia|done|unfold is_u in *; lia]|]. split.
        { rewrite Z.shiftr_lxor, (Z.shiftr_div_pow2 u), Z.div_small, Z.lxor_0_r by (unfold is_u in Hu; lia). done. }
        split.
        * intros j Hj. rewrite check_lxor. unfold u. rewrite check_unit by lia. case_bool_decide.
          -- subst j. by rewrite Ec.
          -- rewrite H3 by lia. done.
        * intros b Hb. rewrite Z.lxor_spec, H4 by lia. unfold u. rewrite Z.shiftl_spec by lia.
          apply Z.testbit_neg_r. lia.
      + split; [done|]. split; [done|]. split; [|intros b Hb; apply H4; lia].
        intros j Hj. destruct (Nat.eq_dec j i) as [->|]; [done|]. apply H3. lia. }
  specialize (Hinv 5%nat ltac:(lia)). cbv zeta in Hinv. destruct Hinv as (H1 & H2 & H3 & _).
  split; [done|]. split; [done|]. rewrite hdr_syndrome_spec by (unfold is_u in *; lia).
  rewrite !H3 by lia. reflexivity.
Qed.

(** ** Decoder *)

Lemma hdr_mask_mod w : Z.land w HDR_MASK = w mod 2 ^ 22.
Proof. change HDR_MASK with (Z.ones 22). apply Z.land_ones. lia. Qed.

(** A word of 22 bits with zero syndrome is determined by its length field. *)
Lemma code_word_unique w w' : is_u 22 w -> is_u 22 w' -> hdr_syndrome w = 0 -> hdr_syndrome w' = 0 ->
  Z.shiftr w 5 = Z.shiftr w' 5 -> w = w'.
Proof.
  intros Hw Hw' Hs Hs' He. apply Z.lxor_eq. set (x := Z.lxor w w').
  assert (Hx : hdr_syndrome x = 0).
  { unfold x. rewrite hdr_syndrome_lxor by (unfold is_u in *; lia). by rewrite Hs, Hs'. }
  assert (Hx5 : 0 <= x < 2 ^ 5).
  { apply bound_of_testbit; [lia|apply Z.lxor_nonneg; unfold is_u in *; lia|].
    intros i Hi. unfold x. rewrite Z.lxor_spec. replace i with (i - 5 + 5) by lia.
    rewrite <- !Z.shiftr_spec, He by lia. apply xorb_nilpotent. }
  clearbody x. assert (Hall : forall n, (n < 32)%nat -> implb (hdr_syndrome (Z.of_nat n) =? 0) (n =? 0)%nat = true).
  { apply forall_below. vm_compute. reflexivity. }
  specialize (Hall (Z.to_nat x) ltac:(lia)). rewrite Z2Nat.id, Hx in Hall by lia. cbn in Hall.
  apply Nat.eqb_eq in Hall. lia.
Qed.

(** The corrected word before the reserved-bit test. *)
Definition hdr_corrected (hdr : Z) : Z :=
  Z.lxor (hdr mod 2 ^ 22) (rd s_hdr_syndtable (Z.to_nat (hdr_syndrome (hdr mod 2 ^ 22)))).

Lemma hdr_decode_cases hdr d :
  vdl2_hdr_decode hdr d =
  if hdr_corrected hdr <? 2 ^ 22
  then (rd s_hdr_synd_weight (Z.to_nat (hdr_syndrome (hdr mod 2 ^ 22))), hdr_corrected hdr,
        reverse_bits (Z.shiftr (hdr_corrected hdr) 5) 17)
  else (-1, hdr, d).
Proof.
  unfold vdl2_hdr_decode. rewrite !hdr_mask_mod. fold (hdr_corrected hdr). set (w := hdr_corrected hdr).
  assert (Hw : is_u 25 w).
  { unfold w, hdr_corrected. apply is_u_lxor; [lia| |apply syndtable_u].
    pose proof (Z.mod_pos_bound hdr (2 ^ 22)). unfold is_u. lia. }
  unfold is_u in Hw. destruct (Z.ltb_spec w (2 ^ 22)).
  - rewrite (Z.mod_small w), Z.eqb_refl by lia. cbn [negb].
    assert (Es : Z.land (Z.shiftr w VDL2_HDR_FEC_BITS) 0x1FFFF = Z.shiftr w 5).
    { change 0x1FFFF with (Z.ones 17). rewrite Z.land_ones by lia. apply Z.mod_small.
      unfold VDL2_HDR_FEC_BITS. rewrite Z.shiftr_div_pow2 by lia. split; [apply Z.div_pos; lia|].
      apply Z.div_lt_upper_bound; lia. }
    by rewrite Es.
  - destruct (Z.eqb_spec (w mod 2 ^ 22) w) as [E|]; [|done].
    pose proof (Z.mod_pos_bound w (2 ^ 22)). lia.
Qed.

(** The received word [c] with bit [k] in error, or none. *)
Lemma hdr_single_error d k : 0 <= d < 2 ^ 17 -> (k < 25)%nat ->
  hdr_corrected (Z.lxor (vdl2_hdr_encode d) (Z.shiftl 1 (Z.of_nat k))) = vdl2_hdr_encode d /\
  rd s_hdr_synd_weight (Z.to_nat (hdr_syndrome (Z.lxor (vdl2_hdr_encode d) (Z.shiftl 1 (Z.of_nat k)) mod 2 ^ 22))) =
    if (k <? 22)%nat then 1 else 0.
Proof.
  intros Hd Hk. destruct (hdr_encode_spec d Hd) as (Hu & _ & Hs). set (c := vdl2_hdr_encode d) in *.
  set (e := Z.shiftl 1 (Z.of_nat k)). unfold hdr_corrected. rewrite lxor_mod_pow2, (Z.mod_small c) by (lia || done).
  assert (He : is_u 32 (e mod 2 ^ 22)) by (pose proof (Z.mod_pos_bound e (2 ^ 22)); unfold is_u; lia).
  rewrite hdr_syndrome_lxor, Hs, Z.lxor_0_l by (unfold is_u in *; lia || done).
  assert (Hall : forall k, (k < 25)%nat -> let e := Z.shiftl 1 (Z.of_nat k) mod 2 ^ 22 in
    (rd s_hdr_syndtable (Z.to_nat (hdr_syndrome e)) =? e) &&
    (rd s_hdr_synd_weight (Z.to_nat (hdr_syndrome e)) =? if (k <? 22)%nat then 1 else 0) = true).
  { apply (forall_below (fun k => let e := Z.shiftl 1 (Z.of_nat k) mod 2 ^ 22 in
    (rd s_hdr_syndtable (Z.to_nat (hdr_syndrome e)) =? e) &&
    (rd s_hdr_synd_weight (Z.to_nat (hdr_syndrome e)) =? if (k <? 22)%nat then 1 else 0))). vm_compute. reflexivity. }
  specialize (Hall k Hk). cbv zeta in Hall. fold e in Hall. apply andb_true_iff in Hall as [H1 H2].
  apply Z.eqb_eq in H1, H2. rewrite H1, H2, Z.lxor_assoc, Z.lxor_nilpotent, Z.lxor_0_r. done.
Qed.

Lemma synd_weight_popc s : (s < 32)%nat -> (rd s_hdr_syndtable s <? 2 ^ 22) = true ->
  rd s_hdr_synd_weight s = Z.of_nat (popc 22 (rd s_hdr_syndtable s)) /\ 0 <= rd s_hdr_synd_weight s <= 2.
Proof.
  intros Hs Ht.
  assert (Hall : forall s, (s < 32)%nat -> implb (rd s_hdr_syndtable s <? 2 ^ 22)
    ((rd s_hdr_synd_weight s =? Z.of_nat (popc 22 (rd s_hdr_syndtable s))) && (0 <=? rd s_hdr_synd_weight s) &&
     (rd s_hdr_synd_weight s <=? 2)) = true).
  { apply (forall_below (fun s => implb (rd s_hdr_syndtable s <? 2 ^ 22)
    ((rd s_hdr_synd_weight s =? Z.of_nat (popc 22 (rd s_hdr_syndtable s))) && (0 <=? rd s_hdr_synd_weight s) &&
     (rd s_hdr_synd_weight s <=? 2)))). vm_compute. reflexivity. }
  specialize (Hall s Hs). rewrite Ht in Hall. cbn [implb] in Hall.
  rewrite !andb_true_iff, Z.eqb_eq, !Z.leb_le in Hall. tauto.
Qed.

(** What an accepted header looks like. *)
Lemma hdr_decode_sound hdr d r w len :
  vdl2_hdr_decode hdr d = (r, w, len) -> 0 <= r ->
  0 <= len < 2 ^ 17 /\ w = vdl2_hdr_encode len /\ 0 <= w < 2 ^ 22 /\
  r = Z.of_nat (popc 22 (Z.lxor (hdr mod 2 ^ 22) w)) /\ r <= 2.
Proof.
  rewrite hdr_decode_cases. pose proof (Z.mod_pos_bound hdr (2 ^ 22)) as Hm.
  assert (H32 : is_u 32 (hdr mod 2 ^ 22)) by (unfold is_u; lia).
  pose proof (hdr_syndrome_range _ H32) as Hs. pose proof (corrected_syndrome _ H32) as Hc.
  pose proof (syndtable_u (Z.to_nat (hdr_syndrome (hdr mod 2 ^ 22)))) as Ht.
  fold (hdr_corrected hdr) in Hc.
  destruct (Z.ltb_spec (hdr_corrected hdr) (2 ^ 22)) as [Hlt|]; intros [= <- <- <-]; [intros _|lia].
  assert (Hw0 : 0 <= hdr_corrected hdr).
  { apply Z.lxor_nonneg. unfold is_u in Ht. lia. }
  assert (Hf : is_u 17 (Z.shiftr (hdr_corrected hdr) 5)) by (apply (is_u_shiftr 22 5); [lia|by split]).
  destruct (reverse_bits_spec 17 (Z.shiftr (hdr_corrected hdr) 5)) as [Hr _]; [lia|unfold is_u in Hf; lia|].
  change (Z.of_nat 17) with 17 in Hr. destruct (hdr_encode_spec _ Hr) as (E1 & E2 & E3).
  rewrite reverse_bits_involutive in E2 by (lia || exact Hf).
  split; [exact Hr|]. split; [apply code_word_unique; try done|]. split; [lia|].
  assert (Ed : Z.lxor (hdr mod 2 ^ 22) (hdr_corrected hdr) =
    rd s_hdr_syndtable (Z.to_nat (hdr_syndrome (hdr mod 2 ^ 22)))).
  { unfold hdr_corrected. by rewrite <- Z.lxor_assoc, Z.lxor_nilpotent, Z.lxor_0_l. }
  rewrite Ed. destruct (synd_weight_popc (Z.to_nat (hdr_syndrome (hdr mod 2 ^ 22)))) as [P1 P2]; [lia| |].
  { apply Z.ltb_lt. rewrite <- Ed. apply (is_u_lxor 22); [lia|split; lia|by split]. }
  split; [exact P1|apply P2].
Qed.

(** ** The weakest positions *)

Section weakest.
Context (confp : list Z).
Notation conf := (rd confp).

Lemma insertion_point_spec weak p ins : (ins <= length weak)%nat ->
  let k := insertion_point confp weak p ins in
  (k <= ins)%nat /\
  (forall j, (k <= j < ins)%nat -> conf p < conf (nth j weak O)) /\
  (k = O \/ conf (nth (k - 1) weak O) <= conf p).
Proof.
  induction ins as [|ins IH]; intros Hl; cbn; [split; [lia|split; [lia|by left]]|].
  destruct (Z.ltb_spec (conf p) (conf (nth ins weak O))).
  - destruct IH as (I1 & I2 & I3); [lia|]. split; [lia|]. split; [|done]. intros j Hj.
    destruct (Nat.eq_dec j ins) as [->|]; [done|]. apply I2. lia.
  - split; [lia|]. split; [lia|]. right. cbn. by rewrite Nat.sub_0_r.
Qed.

(** The least reliable [min n 3] of the first [n] positions, weakest first. *)
Record weak_ok (n : nat) (weak : list nat) : Prop := {
  wk_len : length weak = Nat.min n 3;
  wk_nodup : List.NoDup weak;
  wk_below : forall p, In p weak -> (p < n)%nat;
  wk_sorted : forall i j, (i <= j < length weak)%nat -> conf (nth i weak O) <= conf (nth j weak O);
  wk_best : forall p q, (p < n)%nat -> ~ In p weak -> In q weak -> conf q <= conf p }.

Lemma nth_inserted (weak : list nat) ins p j : (ins <= length weak)%nat -> (j <= length weak)%nat ->
  nth j (take ins weak ++ p :: drop ins weak) O =
  if (j <? ins)%nat then nth j weak O else if (j =? ins)%nat then p else nth (j - 1) weak O.
Proof.
  intros Hi Hj. assert (Ht : length (take ins weak) = ins) by (rewrite length_take; lia).
  destruct (Nat.ltb_spec j ins).
  - rewrite app_nth1 by lia. rewrite !nth_lookup, lookup_take_lt by lia. done.
  - rewrite app_nth2, Ht by lia. destruct (Nat.eqb_spec j ins) as [->|]; [by rewrite Nat.sub_diag|].
    destruct (j - ins)%nat as [|m] eqn:Em; [lia|]. cbn [nth]. rewrite !nth_lookup, lookup_drop.
    do 2 f_equal. lia.
Qed.

(** All candidates in order, before the array is cut back to three. *)
Definition inserted (n : nat) (weak : list nat) : list nat :=
  let ins := insertion_point confp weak n (length weak) in take ins weak ++ n :: drop ins weak.

Lemma inserted_perm n weak : inserted n weak ≡ₚ n :: weak.
Proof. unfold inserted. by rewrite <- Permutation_middle, take_drop. Qed.

Lemma inserted_sorted n weak :
  (forall i j, (i <= j < length weak)%nat -> conf (nth i weak O) <= conf (nth j weak O)) ->
  forall i j, (i <= j < S (length weak))%nat -> conf (nth i (inserted n weak) O) <= conf (nth j (inserted n weak) O).
Proof.
  intros Hs i j Hij. destruct (insertion_point_spec weak n (length weak) (Nat.le_refl _)) as (I1 & I2 & I3).
  unfold inserted. cbv zeta. set (ins := insertion_point confp weak n (length weak)) in *.
  rewrite !nth_inserted by lia.
  destruct (Nat.ltb_spec i ins), (Nat.ltb_spec j ins), (Nat.eqb_spec i ins), (Nat.eqb_spec j ins);
    try lia; try (apply Hs; lia).
  - destruct I3 as [I3|I3]; [lia|]. etrans; [|exact I3]. apply Hs. lia.
  - pose proof (I2 (j - 1)%nat ltac:(lia)). lia.
Qed.

(** Nothing is dropped, or the last (least weak) candidate. *)
Lemma weak_step_eq n weak : (length weak <= 3)%nat -> weak_step confp n weak = take 3 (inserted n weak).
Proof.
  intros Hl. unfold weak_step, inserted, VDL2_HDR_SOFT_M.
  destruct (insertion_point_spec weak n (length weak) (Nat.le_refl _)) as (I1 & _ & _).
  destruct (Nat.leb_spec 3 (insertion_point confp weak n (length weak))); [|done].
  rewrite take_app_le by (rewrite length_take; lia). rewrite take_take, Nat.min_l by lia.
  symmetry. apply take_ge. lia.
Qed.

Lemma take3_ok n (full : list nat) :
  length full = Nat.min (S n) 4 -> List.NoDup full -> (forall p, In p full -> (p < S n)%nat) ->
  (forall i j, (i <= j < length full)%nat -> conf (nth i full O) <= conf (nth j full O)) ->
  (forall p q, (p < S n)%nat -> ~ In p full -> In q (take 3 full) -> conf q <= conf p) ->
  weak_ok (S n) (take 3 full).
Proof.
  intros Hl Hn Hb Hs Hbest.
  assert (Hnt : forall j, (j < 3)%nat -> nth j (take 3 full) O = nth j full O).
  { intros j Hj. by rewrite !nth_lookup, lookup_take_lt. }
  assert (Hfe : full = take 3 full ++ drop 3 full) by (symmetry; apply take_drop).
  assert (Hl3 : length (take 3 full) = Nat.min (S n) 3) by (rewrite length_take; lia).
  split.
  - done.
  - rewrite Hfe in Hn. by apply NoDup_app_remove_r in Hn.
  - intros p Hin. apply Hb. rewrite Hfe. apply in_app_iff. by left.
  - intros i j Hij. rewrite !Hnt by lia. apply Hs. lia.
  - intros p q Hp Hni Hq. destruct (in_dec Nat.eq_dec p full) as [Hpf|Hpf]; [|by apply Hbest].
    apply (In_nth _ _ O) in Hq as (j & Hj & <-). rewrite Hnt by lia.
    apply (In_nth _ _ O) in Hpf as (k & Hk & <-). apply Hs. split; [|done].
    destruct (Nat.lt_ge_cases k 3); [|lia]. exfalso. apply Hni. rewrite <- Hnt by done. apply nth_In. lia.
Qed.

Lemma weak_step_ok n weak : weak_ok n weak -> weak_ok (S n) (weak_step confp n weak).
Proof.
  intros [W1 W2 W3 W4 W5]. rewrite weak_step_eq by lia. pose proof (inserted_perm n weak) as Hp.
  assert (Hfl : length (inserted n weak) = S (length weak)) by (by rewrite Hp).
  assert (Hin : forall p, In p (inserted n weak) <-> p = n \/ In p weak).
  { intros p. split; intros H.
    - apply (Permutation_in _ Hp) in H. destruct H as [->|H]; auto.
    - apply (Permutation_in _ (symmetry Hp)). destruct H as [->|H]; [by left|by right]. }
  pose proof (inserted_sorted n weak W4) as Hs.
  apply take3_ok.
  - lia.
  - apply (Permutation_NoDup (symmetry Hp)). constructor; [|done]. intros H. apply W3 in H. lia.
  - intros p Hx. apply Hin in Hx as [->|Hx]; [lia|]. apply W3 in Hx. lia.
  - by rewrite Hfl.
  - intros p q Hpn Hni Hq. assert (Hpw : p <> n /\ ~ In p weak) by (rewrite Hin in Hni; tauto).
    assert (Hq' : In q (inserted n weak)).
    { rewrite <- (take_drop 3 (inserted n weak)). apply in_app_iff. by left. }
    apply Hin in Hq' as [->|Hq']; [|apply (W5 p q); [lia|tauto|done]].
    assert (Hlen : length weak = 3%nat).
    { destruct (Nat.eq_dec (length weak) 3%nat); [done|exfalso]. apply (proj2 Hpw).
      assert (Hincl : incl (seq 0 n) weak).
      { apply NoDup_length_incl; [done|rewrite length_seq; lia|]. intros y Hy. apply in_seq. apply W3 in Hy. lia. }
      apply Hincl, in_seq. lia. }
    apply (In_nth _ _ O) in Hq as (j & Hj & Ej). rewrite length_take in Hj.
    assert (Hj3 : nth j (inserted n weak) O = n) by (etrans; [|exact Ej]; rewrite !nth_lookup, lookup_take_lt by lia; done).
    assert (H3 : In (nth 3 (inserted n weak) O) (inserted n weak)) by (apply nth_In; lia).
    pose proof (Hs j 3%nat ltac:(lia)) as Hle. rewrite Hj3 in Hle.
    apply Hin in H3 as [H3|H3]; [|etrans; [exact Hle|apply (W5 p); [lia|tauto|done]]].
    assert (Hnd : List.NoDup (inserted n weak)).
    { apply (Permutation_NoDup (symmetry Hp)). constructor; [|done]. intros H. apply W3 in H. lia. }
    assert (j = 3%nat); [|lia]. apply (proj1 (NoDup_nth (inserted n weak) O) Hnd); [lia|lia|congruence].
Qed.

Lemma weakest_ok : weak_ok 22 (weakest confp).
Proof.
  unfold weakest, VDL2_HDR_DATA_BITS. apply (forN_inv weak_ok).
  - split; cbn; try done; [constructor|lia].
  - intros i x _ H. by apply weak_step_ok.
Qed.
End weakest.

(** ** The soft search *)

Definition is_int16 (z : Z) : Prop := -32768 <= z <= 32767.

Section soft.
Context (confp : list Z) (w0 : Z) (weak : list nat).
Hypothesis conf16 : Forall is_int16 confp.

(** The candidate of a flip mask, whether it passes the gates, and its
    reliability-weighted distance from the received word. *)
Definition candidate (mask : Z) : Z * Z * Z := vdl2_hdr_decode (Z.lxor w0 (flip_of weak mask)) 0.
Definition eligible (mask : Z) : bool :=
  let '(sw, w, len) := candidate mask in (0 <=? sw) && hdr_plausible sw len.
Definition distance (w : Z) : Z := hdr_metric confp (Z.land (Z.lxor w w0) (Z.shiftl 1 22 - 1)).

Lemma rd_int16 p : is_int16 (rd confp p).
Proof.
  unfold rd. rewrite nth_lookup. destruct (confp !! p) eqn:E; cbn; [|unfold is_int16; lia].
  exact (Forall_lookup_1 _ _ _ _ conf16 E).
Qed.

Lemma hdr_metric_small diff : hdr_metric confp diff < LONG_MAX.
Proof.
  unfold hdr_metric. assert (H : forN VDL2_HDR_DATA_BITS
    (fun p m => if Z.testbit diff (Z.of_nat p) then m + rd confp p else m) 0 <= 32767 * Z.of_nat 22).
  { apply (forN_inv (fun i m => m <= 32767 * Z.of_nat i)); [lia|]. intros i m _ Hm.
    pose proof (rd_int16 i) as Hi. unfold is_int16 in Hi. destruct (Z.testbit _ _); lia. }
  unfold LONG_MAX. lia.
Qed.

#[local] Opaque weakest vdl2_hdr_decode vdl2_hdr_encode hdr_metric flip_of hdr_plausible.

Lemma soft_try_spec mask b :
  soft_try confp w0 weak mask b =
  let '(sw, w, len) := candidate mask in
  if eligible mask && (distance w <? sb_metric b) then SoftBest w len (distance w) sw else b.
Proof.
  unfold soft_try, eligible, distance, candidate. destruct (vdl2_hdr_decode _ _) as [[sw w] len].
  destruct (Z.ltb_spec sw 0).
  - by rewrite (proj2 (Z.leb_gt 0 sw)).
  - rewrite (proj2 (Z.leb_le 0 sw)) by done. destruct (hdr_plausible sw len); cbn [negb andb]; [|done].
    by destruct (_ <? _).
Qed.

Lemma soft_fold masks b0 :
  let b := fold_left (fun b mask => soft_try confp w0 weak mask b) masks b0 in
  sb_metric b <= sb_metric b0 /\
  (forall mask, In mask masks -> eligible mask = true -> sb_metric b <= distance (candidate mask).1.2) /\
  (b = b0 \/ exists mask, In mask masks /\ eligible mask = true /\
     b = SoftBest (candidate mask).1.2 (candidate mask).2 (distance (candidate mask).1.2) (candidate mask).1.1).
Proof.
  revert b0. induction masks as [|k masks IH]; intros b0; cbn [fold_left]; cbv zeta.
  { split; [lia|]. split; [done|by left]. }
  specialize (IH (soft_try confp w0 weak k b0)). cbv zeta in IH. destruct IH as (I1 & I2 & I3).
  set (b := fold_left _ masks _) in *. clearbody b. rewrite soft_try_spec in I1, I3.
  destruct (candidate k) as [[sw w] len] eqn:Ek. destruct (eligible k) eqn:El; cbn [andb] in I1, I3.
  - destruct (Z.ltb_spec (distance w) (sb_metric b0)); cbn [sb_metric] in I1.
    + split; [lia|]. split.
      * intros m [<-|Hm] Hel; [rewrite Ek; cbn; lia|by apply I2].
      * right. destruct I3 as [->|(m & Hm & H1 & H2)]; [|exists m; split; [by right|done]].
        exists k. rewrite Ek. split; [by left|done].
    + split; [lia|]. split.
      * intros m [<-|Hm] Hel; [rewrite Ek; cbn; lia|by apply I2].
      * destruct I3 as [->|(m & Hm & H1 & H2)]; [by left|right; exists m; split; [by right|done]].
  - split; [lia|]. split.
    + intros m [<-|Hm] Hel; [congruence|by apply I2].
    + destruct I3 as [->|(m & Hm & H1 & H2)]; [by left|right; exists m; split; [by right|done]].
Qed.
End soft.

#[local] Opaque weakest vdl2_hdr_decode vdl2_hdr_encode hdr_metric flip_of hdr_plausible.

(** The masks tried: 1 to 7, as three weak positions are always found. *)
Lemma soft_masks confp mask :
  In mask (map Z.of_nat (seq 1 (Nat.pow 2 (length (weakest confp)) - 1))) <-> 1 <= mask <= 7.
Proof.
  rewrite (wk_len _ _ _ (weakest_ok confp)). change (Nat.pow 2 (Nat.min 22 3) - 1)%nat with 7%nat.
  rewrite in_map_iff. split.
  - intros (k & <- & Hk). apply in_seq in Hk. lia.
  - intros H. exists (Z.to_nat mask). split; [lia|]. apply in_seq. lia.
Qed.

Lemma soft_confp_int16 conf_air : match conf_air with Some c => Forall is_int16 c | None => True end ->
  Forall is_int16 (soft_confp conf_air).
Proof.
  intros H. unfold soft_confp. apply Forall_forall. intros x Hx.
  apply in_map_iff in Hx as (p & <- & _). destruct conf_air as [c|]; [by apply rd_int16|unfold is_int16; lia].
Qed.

(** ** Properties *)

Lemma hdr_encode_decodes d x : 0 <= d < 2 ^ 17 -> vdl2_hdr_decode (vdl2_hdr_encode d) x = (0, vdl2_hdr_encode d, d).
Proof.
  intros Hd. destruct (hdr_encode_spec d Hd) as (Hu & Hf & Hs).
  assert (Em : vdl2_hdr_encode d mod 2 ^ 22 = vdl2_hdr_encode d) by (apply Z.mod_small, Hu).
  assert (E0 : hdr_corrected (vdl2_hdr_encode d) = vdl2_hdr_encode d).
  { unfold hdr_corrected. rewrite Em, Hs. apply Z.lxor_0_r. }
  rewrite hdr_decode_cases, E0, Em, Hs, (proj2 (Z.ltb_lt _ _) (proj2 Hu)), Hf.
  by rewrite reverse_bits_involutive by (lia || exact Hd).
Qed.

(** The header code corrects every single-bit error.  For each 17-bit
    length the encoded header decodes to itself with weight 0, and with any one
    of its 25 bits inverted it decodes to the transmitted word and length, with
    weight 1 unless the error is in a reserved bit. *)
Theorem vdl2_hdr_round_trip d x k :
  0 <= d < 2 ^ 17 -> (k < 25)%nat ->
  vdl2_hdr_decode (vdl2_hdr_encode d) x = (0, vdl2_hdr_encode d, d) /\
  vdl2_hdr_decode (Z.lxor (vdl2_hdr_encode d) (Z.shiftl 1 (Z.of_nat k))) x =
    (if (k <? 22)%nat then 1 else 0, vdl2_hdr_encode d, d).
Proof.
  intros Hd Hk. split; [by apply hdr_encode_decodes|]. destruct (hdr_encode_spec d Hd) as (Hu & Hf & _).
  rewrite hdr_decode_cases. destruct (hdr_single_error d k Hd Hk) as [-> ->].
  rewrite (proj2 (Z.ltb_lt _ _) (proj2 Hu)), Hf. by rewrite reverse_bits_involutive by (lia || exact Hd).
Qed.

Lemma vdl2_hdr_round_trip_witness :
  vdl2_hdr_decode (Z.lxor (vdl2_hdr_encode 0x1234) (Z.shiftl 1 7)) 0 = (1, vdl2_hdr_encode 0x1234, 0x1234).
Proof. refine (proj2 (vdl2_hdr_round_trip 0x1234 0 7%nat _ _)); lia. Defined.

(** The header decoder returns only code words.  A header is accepted with
    the encoding of a 17-bit length, at the returned Hamming distance (at most
    two) from the received word's 22 used bits; a rejected one leaves the
    caller's variables alone. *)
Theorem vdl2_hdr_decode_sound hdr d :
  let '(r, w, len) := vdl2_hdr_decode hdr d in
  (r = -1 /\ w = hdr /\ len = d) \/
  (0 <= r <= 2 /\ 0 <= len < 2 ^ 17 /\ w = vdl2_hdr_encode len /\ 0 <= w < 2 ^ 22 /\
   r = Z.of_nat (popc 22 (Z.lxor (hdr mod 2 ^ 22) w))).
Proof.
  destruct (vdl2_hdr_decode hdr d) as [[r w] len] eqn:E.
  destruct (Z.lt_ge_cases r 0) as [Hr|Hr].
  - left. rewrite hdr_decode_cases in E. destruct (_ <? _); injection E as <- <- <-; [|done].
    exfalso. revert Hr. unfold rd. rewrite nth_lookup. destruct (s_hdr_synd_weight !! _) eqn:El; cbn; [|lia].
    assert (Hf : Forall (fun z => 0 <= z) s_hdr_synd_weight) by (apply (bool_decide_unpack _); vm_compute; reflexivity).
    pose proof (Forall_lookup_1 _ _ _ _ Hf El) as H0. cbv beta in H0. lia.
  - right. destruct (hdr_decode_sound hdr d r w len E Hr) as (H1 & H2 & H3 & H4 & H5). tauto.
Qed.

(** The soft decoder is a Chase search.  It flips the non-empty subsets of
    the three least reliable of the 22 used bits, rejects the header exactly
    when no flip passes the hard decoder and the length gates, and otherwise
    returns the encoding of a plausible length that comes from one of those
    flips and is nearest to the received word in total confidence. *)
Theorem vdl2_hdr_soft_optimal hdr conf_air d :
  match conf_air with Some c => Forall is_int16 c | None => True end ->
  let confp := soft_confp conf_air in
  let w0 := Z.land hdr (Z.shiftl 1 22 - 1) in
  let weak := weakest confp in
  weak_ok confp 22 weak /\
  let '(r, w, len) := vdl2_hdr_decode_soft hdr conf_air d in
  (r = -1 /\ w = hdr /\ len = d /\ (forall mask, 1 <= mask <= 7 -> eligible w0 weak mask = false)) \/
  (0 <= r <= 2 /\ w = vdl2_hdr_encode len /\ hdr_plausible r len = true /\
   (exists mask, 1 <= mask <= 7 /\ candidate w0 weak mask = (r, w, len)) /\
   (forall mask, 1 <= mask <= 7 -> eligible w0 weak mask = true ->
      distance confp w0 w <= distance confp w0 (candidate w0 weak mask).1.2)).
Proof.
  intros Hc confp w0 weak. split; [apply weakest_ok|]. unfold vdl2_hdr_decode_soft. cbv zeta.
  fold confp w0 weak. destruct (soft_fold confp w0 weak (map Z.of_nat (seq 1 (Nat.pow 2 (length weak) - 1)))
    (SoftBest 0 0 LONG_MAX (-1))) as (F1 & F2 & F3).
  set (b := fold_left _ _ _) in *. clearbody b.
  destruct F3 as [->|(mask & Hm & Hel & ->)].
  - cbn [sb_syndw]. cbv iota beta. left. do 3 (split; [done|]). intros mask Hm. apply soft_masks with (confp := confp) in Hm.
    destruct (eligible w0 weak mask) eqn:El; [exfalso|done]. specialize (F2 mask Hm El). cbn [sb_metric] in F2.
    pose proof (hdr_metric_small confp (soft_confp_int16 _ Hc)
      (Z.land (Z.lxor (candidate w0 weak mask).1.2 w0) (Z.shiftl 1 22 - 1))) as Hs.
    unfold distance in F2. lia.
  - cbn [sb_syndw sb_w sb_len sb_metric] in *. pose proof Hel as Hel'. unfold eligible in Hel'.
    destruct (candidate w0 weak mask) as [[sw w] len] eqn:Ec. cbn [fst snd] in *.
    apply andb_true_iff in Hel' as [H0 Hpl]. apply Z.leb_le in H0. rewrite (proj2 (Z.ltb_ge sw 0)) by done.
    cbv iota beta. destruct (hdr_decode_sound _ _ _ _ _ Ec H0) as (S1 & S2 & S3 & S4 & S5).
    right. split; [lia|]. split; [done|]. split; [done|]. split.
    + exists mask. split; [by apply (soft_masks confp)|done].
    + intros m Hm2 Hel2. apply F2; [by apply (soft_masks confp)|done].
Qed.

(** Two weak bits in error: rejected by the hard decoder, recovered softly. *)
Definition sample_hdr : Z := Z.lxor (vdl2_hdr_encode 256) 0x120.
Definition sample_conf : list Z :=
  map (fun k => if (k =? 16)%nat || (k =? 19)%nat then 10 else 20000) (seq 0 25).

Lemma sample_conf_ok : Forall is_int16 sample_conf.
Proof.
  unfold sample_conf, is_int16. apply Forall_forall. intros x Hx. apply in_map_iff in Hx as (k & <- & _).
  destruct (_ || _); lia.
Qed.

Lemma vdl2_hdr_soft_optimal_witness :
  (vdl2_hdr_decode sample_hdr 0).1.1 = -1 /\
  exists r w mask, vdl2_hdr_decode_soft sample_hdr (Some sample_conf) 0 = (r, w, 256) /\ 1 <= mask <= 7 /\
    candidate (Z.land sample_hdr (Z.shiftl 1 22 - 1)) (weakest (soft_confp (Some sample_conf))) mask = (r, w, 256).
Proof.
  split; [vm_compute; reflexivity|].
  pose proof (vdl2_hdr_soft_optimal sample_hdr (Some sample_conf) 0 sample_conf_ok) as H.
  cbv zeta in H. apply proj2 in H.
  assert (E : (vdl2_hdr_decode_soft sample_hdr (Some sample_conf) 0).1.1 <> -1 /\
    (vdl2_hdr_decode_soft sample_hdr (Some sample_conf) 0).2 = 256)
    by (vm_compute; split; [discriminate|reflexivity]).
  destruct (vdl2_hdr_decode_soft sample_hdr (Some sample_conf) 0) as [[r w] len]. cbn in E. destruct E as [E1 ->].
  destruct H as [(H & _)|(_ & _ & _ & (mask & Hm & Hc) & _)]; [contradiction|].
  exists r, w, mask. split; [reflexivity|]. split; [exact Hm|exact Hc].
Defined.

(** scrambling is its own inverse and streams.  Descrambling a scrambled
    vector from the same register restores it, the register after [n] bits does
    not depend on the data, and a vector may be processed in two pieces: the
    second continues from the register the first leaves. *)
Theorem vdl2_scramble_involutive bits more s :
  vdl2_scramble (vdl2_scramble bits s).1 s = (bits, (vdl2_scramble bits s).2) /\
  vdl2_scramble (bits ++ more) s =
    ((vdl2_scramble bits s).1 ++ (vdl2_scramble more (vdl2_scramble bits s).2).1,
     (vdl2_scramble more (vdl2_scramble bits s).2).2).
Proof.
  revert s. induction bits as [|x bits IH]; intros s; cbn [vdl2_scramble app].
  - split; [done|]. apply surjective_pairing.
  - destruct (lfsr_next s) as [b s1] eqn:E. destruct (IH s1) as [I1 I2]. rewrite I2.
    destruct (vdl2_scramble bits s1) as [out s2]. cbn [fst snd] in *. cbn [vdl2_scramble].
    rewrite E, I1. rewrite Z.lxor_assoc, Z.lxor_nilpotent, Z.lxor_0_r. done.
Qed.
