(* ===== verification/Avlc.v ===== *)
(** The AVLC (HDLC) deframer of VDL Mode 2: flag walk, bit unstuffing, frame
    check sequence, address and control fields (src/common/vdl2/avlc.c).

    The bits of a burst drive a state machine that assembles destuffed octets
    in the module's static buffer and parses each flag-delimited frame.  The
    frames handed to the callback are the list the model returns. *)

From S2P Require Import Prelude Bits Crc16.

Definition AVLC_MIN_FRAME_OCTETS : Z := 11.
Definition AVLC_MAX_FRAME_OCTETS : Z := 2048.

Inductive avlc_frame_kind :=
  | AVLC_KIND_ACARS | AVLC_KIND_X25 | AVLC_KIND_SUPERVISORY | AVLC_KIND_UNNUMBERED
  | AVLC_KIND_BAD_FCS | AVLC_KIND_TOO_SHORT.

#[export] Instance avlc_frame_kind_eq_dec : EqDecision avlc_frame_kind.
Proof. solve_decision. Defined.

(** A frame as the callback sees it: a pointer and a length are the octets
    they denote, NULL is [None]. *)
Record avlc_frame := AvlcFrame {
  af_kind : avlc_frame_kind; af_fcs_ok : bool; af_raw : list Z;
  af_dst_addr : Z; af_src_addr : Z; af_dst_type : Z; af_src_type : Z;
  af_response : bool; af_src_on_ground : bool; af_control : Z;
  af_info : option (list Z); af_acars : option (list Z) }.

Definition reverse28 (v : Z) : Z :=
  forN 28 (fun k r => Z.lor r (Z.shiftl (Z.land (Z.shiftr v (Z.of_nat k)) 1) (27 - Z.of_nat k))) 0.

Definition parse_dlc_addr (b : list Z) : Z :=
  reverse28 (Z.lor (Z.lor (Z.lor (Z.shiftr (rd b 0) 1) (Z.shiftl (rd b 1) 6)) (Z.shiftl (rd b 2) 13))
               (Z.shiftl (Z.land (rd b 3) 0xFE) 20)).

(** The frame with only its raw octets, as [memset] and the first two
    assignments leave it. *)
Definition invalid_frame (kind : avlc_frame_kind) (raw : list Z) : avlc_frame :=
  AvlcFrame kind false raw 0 0 0 0 false false 0 None None.

(** [parse_and_emit] on the first [len] octets of [buf]: the frame passed to
    the callback. *)
Definition parse_and_emit (buf : list Z) (len : nat) : avlc_frame :=
  let raw := take len buf in
  if Z.of_nat len <? AVLC_MIN_FRAME_OCTETS then invalid_frame AVLC_KIND_TOO_SHORT raw
  else if negb (crc16_x25_raw raw =? CRC16_X25_GOOD_RESIDUE) then invalid_frame AVLC_KIND_BAD_FCS raw
  else
    let plen := (len - 2)%nat in
    let dst := parse_dlc_addr buf in
    let src := parse_dlc_addr (drop 4 buf) in
    let control := rd buf 8 in
    let info := slice buf 9 (plen - 9) in
    let '(kind, info', acars) :=
      if Z.land control 0x01 =? 0 then
        if (3 <? length info)%nat && (rd info 0 =? 0xFF) && (rd info 1 =? 0xFF) && (rd info 2 =? 0x01)
        then (AVLC_KIND_ACARS, Some info, Some (drop 3 info))
        else (AVLC_KIND_X25, Some info, None)
      else if Z.land control 0x03 =? 0x01 then
        (AVLC_KIND_SUPERVISORY, (if (length info =? 0)%nat then None else Some info), None)
      else (AVLC_KIND_UNNUMBERED, Some info, None) in
    AvlcFrame kind true raw (Z.land dst 0xFFFFFF) (Z.land src 0xFFFFFF)
      (Z.land (Z.shiftr dst 24) 0x7) (Z.land (Z.shiftr src 24) 0x7)
      (negb (Z.land (Z.shiftr src 27) 1 =? 0)) (negb (Z.land (Z.shiftr dst 27) 1 =? 0))
      control info' acars.

(** ** Flag walk and unstuffing *)

(** Locals of [deframe_core]; the frames emitted so far stand for [n_frames]
    and the callback's calls. *)
Record deframe := Deframe {
  df_frame : list Z; df_ones : Z; df_j : nat; df_closed_at_end : bool; df_out : list avlc_frame }.

(** [s_frame[j >> 3] |= bit << (j & 7)], clearing the octet at its first bit. *)
Definition store_bit (buf : list Z) (j : nat) (b : Z) : list Z :=
  let o := (j / 8)%nat in
  let buf := if (j mod 8 =? 0)%nat then <[o := 0]> buf else buf in
  <[o := Z.lor (rd buf o) (Z.shiftl b (Z.of_nat (j mod 8)))]> buf.

(** One bit: the next state, and whether the scan goes on. *)
Definition deframe_step (st : deframe) (b : Z) (last : bool) : deframe * bool :=
  let '(Deframe frame ones j closed out) := st in
  if (b =? 0) && (ones =? 5) then (Deframe frame 0 j closed out, true)
  else
    let ones := if b =? 1 then ones + 1 else ones in
    if (b =? 1) && (6 <? ones) then (Deframe frame ones j closed out, false)
    else if (b =? 0) && (ones =? 6) then
      if (j =? 7)%nat then (Deframe frame 0 0 closed out, true)
      else if (j <? 7)%nat then (Deframe frame ones j closed out, false)
      else
        let j := (j - 7)%nat in
        if negb (j mod 8 =? 0)%nat then (Deframe frame 0 j closed out, false)
        else (Deframe frame 0 0 last (out ++ [parse_and_emit frame (j / 8)]), true)
    else
      let ones := if b =? 0 then 0 else ones in
      if AVLC_MAX_FRAME_OCTETS * 8 <=? Z.of_nat j then (Deframe frame ones j closed out, false)
      else (Deframe (store_bit frame j b) ones (S j) closed out, true).

Fixpoint deframe_loop (bits : list Z) (st : deframe) : deframe * bool :=
  match bits with
  | [] => (st, true)
  | b :: bits =>
    let '(st, go) := deframe_step st b (match bits with [] => true | _ => false end) in
    if go then deframe_loop bits st else (st, false)
  end.

(** After the scan: the residual frame, unless the last bit closed one. *)
Definition deframe_finish (st : deframe) : deframe :=
  if df_closed_at_end st then st
  else if negb (df_j st mod 8 =? 0)%nat then st
  else Deframe (df_frame st) (df_ones st) (df_j st) (df_closed_at_end st)
         (df_out st ++ [parse_and_emit (df_frame st) (df_j st / 8)]).

(** [s_frame] in and out; the frames in callback order. *)
Definition deframe_core (s_frame bits : list Z) : list avlc_frame * list Z :=
  match bits with
  | [] => ([], s_frame)
  | _ =>
    let '(st, go) := deframe_loop bits (Deframe s_frame 0 0 false []) in
    let st := if go then deframe_finish st else st in
    (df_out st, df_frame st)
  end.

(** Bit [i] of an octet stream, least significant first, or of a bit vector. *)
Definition stream_bits (packed : bool) (stream : list Z) (n_bits : nat) : list Z :=
  map (fun i => if packed then Z.land (Z.shiftr (rd stream (i / 8)) (Z.of_nat (i mod 8))) 1
                else Z.land (rd stream i) 1) (seq 0 n_bits).

Definition avlc_deframe_octets (s_frame octets : list Z) (n_bits : nat) : list avlc_frame * list Z :=
  deframe_core s_frame (stream_bits true octets n_bits).
Definition avlc_deframe (s_frame bits : list Z) (n_bits : nat) : list avlc_frame * list Z :=
  deframe_core s_frame (stream_bits false bits n_bits).

(** ** Reference transmitter *)

(** Octets to bits, least significant first. *)
Definition octet_bits (x : Z) : list Z := map (fun k => Z.b2z (Z.testbit x (Z.of_nat k))) (seq 0 8).
Definition octets_bits (l : list Z) : list Z := concat (map octet_bits l).

(** Insert a 0 after five consecutive 1s. *)
Fixpoint stuff (ones : Z) (bs : list Z) : list Z :=
  match bs with
  | [] => []
  | b :: bs =>
    if b =? 1 then (if ones =? 4 then 1 :: 0 :: stuff 0 bs else 1 :: stuff (ones + 1) bs)
    else 0 :: stuff 0 bs
  end.

Definition flag : list Z := [0; 1; 1; 1; 1; 1; 1; 0].
Definition flags (k : nat) : list Z := concat (replicate k flag).

(** A burst: each frame after any number of fill flags, closed by one flag. *)
Definition hdlc_burst (fs : list (nat * list Z)) : list Z :=
  concat (map (fun '(k, f) => flags k ++ stuff 0 (octets_bits f) ++ flag) fs).

(** 28-bit address in four octets, extension bit set in the last. *)
Definition addr_octets (v : Z) : list Z :=
  let r := reverse28 v in
  map (fun i => Z.lor (Z.shiftl (Z.land (Z.shiftr r (7 * Z.of_nat i)) 0x7F) 1) (if (i =? 3)%nat then 1 else 0)) (seq 0 4).

Definition fcs_octets (body : list Z) : list Z := [lo8 (crc16_x25 body); hi8 (crc16_x25 body)].

(** ** Octets from bits *)

(** Value of a bit string, least significant bit first. *)
Definition lsb (bs : list Z) : Z := foldr (fun b v => b + 2 * v) 0 bs.

Lemma lsb_range bs : is_bits bs -> 0 <= lsb bs < 2 ^ Z.of_nat (length bs).
Proof.
  induction 1 as [|b bs Hb _ IH]; [cbn; lia|]. cbn [lsb foldr length].
  fold (lsb bs). rewrite Nat2Z.inj_succ, Z.pow_succ_r by lia. destruct Hb as [-> | ->]; lia.
Qed.

Lemma lsb_app a b : lsb (a ++ b) = lsb a + lsb b * 2 ^ Z.of_nat (length a).
Proof.
  induction a as [|x a IH].
  - change (lsb b = 0 + lsb b * 1). lia.
  - cbn [app lsb foldr length]. fold (lsb (a ++ b)) (lsb a). rewrite IH, Nat2Z.inj_succ, Z.pow_succ_r by lia. ring.
Qed.

Lemma lsb_snoc bs b : is_bits bs -> b = 0 \/ b = 1 ->
  lsb (bs ++ [b]) = Z.lor (lsb bs) (Z.shiftl b (Z.of_nat (length bs))).
Proof.
  intros Hbs Hb. rewrite lsb_app. cbn [lsb foldr]. rewrite Z.shiftl_mul_pow2 by lia.
  replace (b + 2 * 0) with b by lia. set (k := Z.of_nat (length bs)) in *.
  pose proof (lsb_range bs Hbs) as Hr. fold k in Hr.
  assert (Hn : Z.land (lsb bs) (b * 2 ^ k) = 0).
  { apply Z.bits_inj'. intros i Hi. rewrite Z.land_spec, Z.bits_0.
    destruct (Z.lt_ge_cases i k); [|by rewrite (testbit_high k)].
    rewrite <- Z.shiftl_mul_pow2, Z.shiftl_spec, (Z.testbit_neg_r b), andb_false_r by lia. done. }
  by rewrite Z.add_nocarry_lxor, Z.lxor_lor by done.
Qed.

Lemma octet_bits_bits x : is_bits (octet_bits x).
Proof.
  unfold octet_bits, is_bits. apply Forall_map, Forall_forall. intros k _. destruct (Z.testbit _ _); [by right|by left].
Qed.

Lemma octets_bits_bits l : is_bits (octets_bits l).
Proof.
  unfold octets_bits. induction l as [|x l IH]; [constructor|]. cbn [map concat].
  apply Forall_app. split; [apply octet_bits_bits|done].
Qed.

Lemma length_octets_bits l : length (octets_bits l) = (8 * length l)%nat.
Proof.
  unfold octets_bits. induction l as [|x l IH]; [done|]. cbn [map concat length]. rewrite length_app, IH.
  change (length (octet_bits x)) with 8%nat. lia.
Qed.

Lemma lsb_octet_bits x : is_byte x -> lsb (octet_bits x) = x.
Proof.
  intros Hx.
  assert (Hall : forall n, (n < 256)%nat -> lsb (octet_bits (Z.of_nat n)) = Z.of_nat n).
  { apply (forall_below_eqb (fun n => lsb (octet_bits (Z.of_nat n))) Z.of_nat). vm_compute. reflexivity. }
  unfold is_u in Hx. specialize (Hall (Z.to_nat x) ltac:(lia)). by rewrite Z2Nat.id in Hall by lia.
Qed.

Lemma slice_octets_bits l o tail : (o < length l)%nat ->
  slice (octets_bits l ++ tail) (8 * o) 8 = octet_bits (rd l o).
Proof.
  intros Ho. rewrite <- (take_drop o l) at 1. destruct (drop o l) as [|x rest] eqn:Ed.
  { apply (f_equal length) in Ed. rewrite length_drop in Ed. cbn in Ed. lia. }
  assert (Ex : rd l o = x).
  { unfold rd. rewrite nth_lookup. pose proof (lookup_drop l o 0) as Hd. rewrite Ed, Nat.add_0_r in Hd. cbn in Hd. by rewrite <- Hd. }
  rewrite Ex. apply (slice_app_at _ (octets_bits (take o l)) _ (octets_bits rest ++ tail)).
  - unfold octets_bits. rewrite map_app, concat_app. cbn [map concat]. by rewrite <- !app_assoc.
  - rewrite length_octets_bits, length_take. lia.
  - reflexivity.
Qed.

(** ** The destuffing buffer *)

(** The buffer holds the bit string [bs], octet by octet. *)
Definition filled (buf bs : list Z) : Prop :=
  length buf = 2048%nat /\ is_bits bs /\ forall o, (8 * o < length bs)%nat -> rd buf o = lsb (slice bs (8 * o) 8).

Lemma filled_nil buf : length buf = 2048%nat -> filled buf [].
Proof. intros H. split; [done|]. split; [constructor|]. cbn. lia. Qed.

Lemma filled_prefix buf a b : filled buf (a ++ b) -> (length a mod 8 = 0)%nat -> filled buf a.
Proof.
  intros (H1 & H2 & H3) Hm. apply Forall_app in H2 as [H2 _]. split; [done|]. split; [done|].
  intros o Ho. rewrite H3 by (rewrite length_app; lia). f_equal. unfold slice.
  rewrite drop_app_le by lia. rewrite take_app_le by (rewrite length_drop; lia). done.
Qed.

Lemma filled_store buf bs b : filled buf bs -> Z.of_nat (length bs) < 16384 -> b = 0 \/ b = 1 ->
  filled (store_bit buf (length bs) b) (bs ++ [b]).
Proof.
  intros (Hl & Hb & Hf) Hc Hb1. unfold store_bit. set (j := length bs) in *. set (o := (j / 8)%nat).
  assert (Ho : (o < 2048)%nat) by (unfold o; lia).
  set (buf1 := if (j mod 8 =? 0)%nat then <[o := 0]> buf else buf).
  assert (Hl1 : length buf1 = 2048%nat) by (unfold buf1; case_match; rewrite ?length_insert; done).
  split; [by rewrite length_insert|]. split; [apply Forall_app; split; [done|apply Forall_singleton; exact Hb1]|].
  intros k Hk. rewrite length_app in Hk. cbn [length] in Hk. fold j in Hk. rewrite rd_insert.
  assert (Hko : (k <= o)%nat) by (unfold o; lia).
  case_decide as Hc2.
  - destruct Hc2 as [<- _]. assert (Eo : rd buf1 o = lsb (slice bs (8 * o) 8)).
    { unfold buf1. destruct (Nat.eqb_spec (j mod 8) 0).
      - rewrite rd_insert, decide_True by lia. unfold slice. rewrite drop_ge; [done|]. fold j. unfold o. lia.
      - apply Hf. unfold o. lia. }
    rewrite Eo. assert (Hr : length (drop (8 * o) bs) = (j mod 8)%nat) by (rewrite length_drop; fold j; unfold o; lia).
    assert (Hr8 : (j mod 8 < 8)%nat) by lia.
    assert (Es : slice (bs ++ [b]) (8 * o) 8 = slice bs (8 * o) 8 ++ [b]).
    { unfold slice. rewrite drop_app_le by (fold j; unfold o; lia).
      rewrite !take_ge; [done|lia|rewrite length_app, Hr; cbn [length]; lia]. }
    rewrite Es, lsb_snoc; [|by apply Forall_take, Forall_drop|done]. do 3 f_equal.
    unfold slice. rewrite length_take, Hr. lia.
  - assert (Hk2 : (k < o)%nat) by (unfold o in *; lia).
    assert (E1 : rd buf1 k = rd buf k).
    { unfold buf1. case_match; [|done]. rewrite rd_insert, decide_False by lia. done. }
    rewrite E1, Hf by (unfold o in *; lia). f_equal. unfold slice.
    rewrite drop_app_le by (fold j; unfold o in *; lia).
    rewrite take_app_le by (rewrite length_drop; fold j; unfold o in *; lia). done.
Qed.

Lemma filled_octets buf l tail : filled buf (octets_bits l ++ tail) -> is_bytes l -> (length l <= 2048)%nat ->
  take (length l) buf = l.
Proof.
  intros (Hl & _ & Hf) Hb Hc. apply rd_ext; [rewrite length_take; lia|].
  intros i Hi. rewrite length_take in Hi.
  assert (Et : rd (take (length l) buf) i = rd buf i) by (unfold rd; rewrite !nth_lookup, lookup_take_lt by lia; done).
  rewrite Et, Hf by (rewrite length_app, length_octets_bits; lia). rewrite slice_octets_bits by lia.
  apply lsb_octet_bits. unfold rd. rewrite nth_lookup. destruct (l !! i) eqn:E; cbn; [|unfold is_u; lia].
  exact (Forall_lookup_1 _ _ _ _ Hb E).
Qed.

(** ** Runs of the scan *)

(** A stretch of the scan that is not its end. *)
Fixpoint run (bits : list Z) (st : deframe) : deframe * bool :=
  match bits with
  | [] => (st, true)
  | b :: bits => let '(st, go) := deframe_step st b false in if go then run bits st else (st, false)
  end.

Lemma loop_app a rest st : rest <> [] ->
  deframe_loop (a ++ rest) st =
  let '(st', go) := run a st in if go then deframe_loop rest st' else (st', false).
Proof.
  intros Hr. revert st. induction a as [|b a IH]; intros st; [done|]. cbn [app deframe_loop run].
  destruct (a ++ rest) as [|x l] eqn:E.
  { apply app_eq_nil in E as [_ E]. contradiction. }
  destruct (deframe_step st b false) as [st' [|]]; [|done]. rewrite <- IH. reflexivity.
Qed.

Lemma run_app a b st :
  run (a ++ b) st = let '(st', go) := run a st in if go then run b st' else (st', false).
Proof.
  revert st. induction a as [|x a IH]; intros st; [by destruct (run b st)|]. cbn [app run].
  destruct (deframe_step st x false) as [st' [|]]; [apply IH|done].
Qed.

(** An ordinary bit is stored. *)
Lemma step_store buf ones j c out b last :
  b = 0 /\ 0 <= ones <= 4 \/ b = 1 /\ 0 <= ones <= 5 -> Z.of_nat j < 16384 ->
  deframe_step (Deframe buf ones j c out) b last =
  (Deframe (store_bit buf j b) (if b =? 1 then ones + 1 else 0) (S j) c out, true).
Proof.
  intros Hb Hj. unfold deframe_step, AVLC_MAX_FRAME_OCTETS.
  rewrite (proj2 (Z.leb_gt (2048 * 8) (Z.of_nat j))) by lia.
  destruct Hb as [[-> Ho]|[-> Ho]]; cbn [Z.eqb Pos.eqb andb].
  - rewrite !(proj2 (Z.eqb_neq ones _)) by lia. done.
  - rewrite (proj2 (Z.ltb_ge 6 (ones + 1))) by lia. done.
Qed.

Lemma step_stuffed buf j c out last :
  deframe_step (Deframe buf 5 j c out) 0 last = (Deframe buf 0 j c out, true).
Proof. reflexivity. Qed.

(** Stuffed data is recovered bit for bit. *)
Lemma run_stuff bs : forall ones buf pre c out,
  is_bits bs -> filled buf pre -> Z.of_nat (length pre + length bs) < 16384 -> 0 <= ones <= 4 ->
  exists buf' ones', run (stuff ones bs) (Deframe buf ones (length pre) c out) =
    (Deframe buf' ones' (length (pre ++ bs)) c out, true) /\ filled buf' (pre ++ bs) /\ 0 <= ones' <= 4.
Proof.
  induction bs as [|b bs IH]; intros ones buf pre c out Hbs Hf Hl Ho.
  { exists buf, ones. rewrite app_nil_r. done. }
  inversion Hbs as [|b' bs' Hb Hbs' E]; subst b' bs'. cbn [length] in Hl.
  pose proof (filled_store buf pre b Hf ltac:(lia) Hb) as Hf1.
  assert (El : S (length pre) = length (pre ++ [b])) by (rewrite length_app; cbn [length]; lia).
  assert (Ea : pre ++ b :: bs = (pre ++ [b]) ++ bs) by (by rewrite <- app_assoc).
  cbn [stuff]. destruct Hb as [-> | ->]; cbn [Z.eqb Pos.eqb].
  - cbn [run]. rewrite step_store by (auto || lia). cbn [Z.eqb]. rewrite El, Ea.
    apply IH; [done|done|rewrite length_app; cbn [length]; lia|lia].
  - destruct (Z.eqb_spec ones 4) as [->|].
    + cbn [run]. rewrite step_store by (auto || lia). cbn [Z.eqb Pos.eqb Z.add Pos.add Pos.succ]. rewrite step_stuffed, El, Ea.
      apply IH; [done|done|rewrite length_app; cbn [length]; lia|lia].
    + cbn [run]. rewrite step_store by (lia || right; lia). cbn [Z.eqb Pos.eqb]. rewrite El, Ea.
      apply IH; [done|done|rewrite length_app; cbn [length]; lia|lia].
Qed.

(** The first seven bits of a flag are stored like data. *)
Definition flag_head : list Z := [0; 1; 1; 1; 1; 1; 1].

Lemma run_flag_head buf pre ones c out :
  filled buf pre -> 0 <= ones <= 4 -> Z.of_nat (length pre) + 7 <= 16384 ->
  exists buf', run flag_head (Deframe buf ones (length pre) c out) =
    (Deframe buf' 6 (length pre + 7) c out, true) /\ filled buf' (pre ++ flag_head).
Proof.
  intros Hf Ho Hl. unfold flag_head.
  assert (Hgen : forall k buf pre o, filled buf pre -> 0 <= o -> o + Z.of_nat k <= 6 ->
    Z.of_nat (length pre) + Z.of_nat k <= 16384 ->
    exists buf', run (replicate k 1) (Deframe buf o (length pre) c out) =
      (Deframe buf' (o + Z.of_nat k) (length pre + k) c out, true) /\ filled buf' (pre ++ replicate k 1)).
  { clear. induction k as [|k IH]; intros buf pre o Hf Ho Hk Hl.
    - exists buf. cbn [replicate run]. rewrite app_nil_r, Nat.add_0_r. cbn. by rewrite Z.add_0_r.
    - cbn [replicate run]. rewrite step_store by (lia || right; lia). cbn [Z.eqb Pos.eqb].
      pose proof (filled_store buf pre 1 Hf ltac:(lia) ltac:(by right)) as Hf1.
      destruct (IH _ (pre ++ [1]) (o + 1) Hf1) as (buf' & E & Hf'); [lia|lia|rewrite length_app; cbn [length]; lia|].
      rewrite length_app in E. cbn [length] in E. exists buf'.
      replace (length pre + 1)%nat with (S (length pre)) in E by lia. rewrite E. split.
      + f_equal. f_equal; lia.
      + by rewrite <- app_assoc in Hf'. }
  change [0; 1; 1; 1; 1; 1; 1] with (0 :: replicate 6 1). cbn [run].
  rewrite step_store by (lia || left; lia). cbn [Z.eqb].
  pose proof (filled_store buf pre 0 Hf ltac:(lia) ltac:(by left)) as Hf1.
  destruct (Hgen 6%nat _ (pre ++ [0]) 0 Hf1) as (buf' & E & Hf'); [lia|lia|rewrite length_app; cbn [length]; lia|].
  rewrite length_app in E. cbn [length] in E. exists buf'.
  replace (length pre + 1)%nat with (S (length pre)) in E by lia. rewrite E. split.
  - f_equal. f_equal; lia.
  - by rewrite <- app_assoc in Hf'.
Qed.

(** The last bit of a flag: a leading flag is dropped, any other closes the
    frame held in the buffer. *)
Lemma step_flag_end buf len c out last :
  deframe_step (Deframe buf 6 (8 * len + 7) c out) 0 last =
  (Deframe buf 0 0 (if (len =? 0)%nat then c else last)
     (if (len =? 0)%nat then out else out ++ [parse_and_emit buf len]), true).
Proof.
  unfold deframe_step. cbn [Z.eqb Pos.eqb andb].
  destruct (Nat.eqb_spec len 0) as [->|Hne]; [done|].
  rewrite (proj2 (Nat.eqb_neq _ 7)), (proj2 (Nat.ltb_ge _ 7)) by lia.
  replace (8 * len + 7 - 7)%nat with (8 * len)%nat by lia.
  rewrite (proj2 (Nat.eqb_eq ((8 * len) mod 8) 0)) by lia. cbn [negb].
  by replace ((8 * len) / 8)%nat with len by lia.
Qed.

Lemma run_flags k buf c out : length buf = 2048%nat ->
  exists buf', run (flags k) (Deframe buf 0 0 c out) = (Deframe buf' 0 0 c out, true) /\ length buf' = 2048%nat.
Proof.
  revert buf. induction k as [|k IH]; intros buf Hl; [by exists buf|].
  unfold flags. cbn [replicate concat]. fold (flags k). change flag with (flag_head ++ [0]).
  destruct (run_flag_head buf [] 0 c out (filled_nil buf Hl)) as (buf1 & E & Hf); [lia|cbn; lia|].
  cbn [length Nat.add] in E. rewrite <- app_assoc, run_app, E. cbn [app run].
  pose proof (step_flag_end buf1 0 c out false) as Es. cbn [Nat.mul Nat.add Nat.eqb] in Es. rewrite Es. apply IH, Hf.
Qed.

(** [parse_and_emit] looks only at the frame's own octets. *)
Lemma parse_and_emit_local buf len : (len <= length buf)%nat ->
  parse_and_emit buf len = parse_and_emit (take len buf) len.
Proof.
  intros Hl. unfold parse_and_emit. rewrite take_take, Nat.min_id.
  destruct (Z.ltb_spec (Z.of_nat len) AVLC_MIN_FRAME_OCTETS) as [|H11]; [done|]. unfold AVLC_MIN_FRAME_OCTETS in H11.
  assert (Hrd : forall i, (i < len)%nat -> rd (take len buf) i = rd buf i).
  { intros i Hi. unfold rd. by rewrite !nth_lookup, lookup_take_lt. }
  assert (Hrd4 : forall i, (i + 4 < len)%nat -> rd (drop 4 (take len buf)) i = rd (drop 4 buf) i).
  { intros i Hi. unfold rd. rewrite !nth_lookup, !lookup_drop, lookup_take_lt by lia. done. }
  assert (Hsl : slice (take len buf) 9 (len - 2 - 9) = slice buf 9 (len - 2 - 9)).
  { unfold slice. rewrite skipn_firstn_comm, take_take. f_equal. lia. }
  unfold parse_dlc_addr. by rewrite Hsl, !Hrd, !Hrd4 by lia.
Qed.

(** One frame of a burst, up to the final bit of its closing flag. *)
Lemma run_frame k f buf c out :
  length buf = 2048%nat -> is_bytes f -> (length f <= 2047)%nat ->
  exists buf', run (flags k ++ stuff 0 (octets_bits f) ++ flag_head) (Deframe buf 0 0 c out) =
    (Deframe buf' 6 (8 * length f + 7) c out, true) /\ length buf' = 2048%nat /\ take (length f) buf' = f.
Proof.
  intros Hl Hb Hf. destruct (run_flags k buf c out Hl) as (buf1 & E1 & Hl1).
  pose proof (length_octets_bits f) as Ho.
  destruct (run_stuff (octets_bits f) 0 buf1 [] c out) as (buf2 & ones & E2 & Hf2 & Ho2);
    [apply octets_bits_bits|by apply filled_nil|cbn [length]; lia|lia|].
  cbn [app length] in E2, Hf2.
  destruct (run_flag_head buf2 (octets_bits f) ones c out Hf2 Ho2) as (buf3 & E3 & Hf3); [lia|].
  exists buf3. rewrite run_app, E1, run_app, E2, E3, Ho. split; [done|]. split; [apply Hf3|].
  apply (filled_octets buf3 f flag_head); [done|done|lia].
Qed.

Definition frames_ok (fs : list (nat * list Z)) : Prop :=
  Forall (fun x => is_bytes x.2 /\ (1 <= length x.2 <= 2047)%nat) fs.

Lemma loop_burst fs : forall buf c out, frames_ok fs -> fs <> [] -> length buf = 2048%nat ->
  exists buf', deframe_loop (hdlc_burst fs) (Deframe buf 0 0 c out) =
    (Deframe buf' 0 0 true (out ++ map (fun x => parse_and_emit x.2 (length x.2)) fs), true) /\
    length buf' = 2048%nat.
Proof.
  induction fs as [|[k f] fs IH]; intros buf c out Hok Hne Hl; [done|].
  inversion Hok as [|x y [Hb Hlen] Hok' E]; subst x y. cbn [snd] in Hb, Hlen.
  unfold hdlc_burst. cbn [map concat]. fold (hdlc_burst fs).
  destruct (run_frame k f buf c out Hl Hb ltac:(lia)) as (buf1 & E1 & Hl1 & Ht).
  change flag with (flag_head ++ [0]). rewrite !app_assoc, <- (app_assoc (flags k)), <- app_assoc.
  rewrite loop_app by (by destruct (hdlc_burst fs)). rewrite E1. cbn [app deframe_loop].
  rewrite step_flag_end. rewrite (proj2 (Nat.eqb_neq (length f) 0)) by lia.
  rewrite (parse_and_emit_local buf1 (length f)) by lia. rewrite Ht. cbn [snd].
  destruct fs as [|y fs].
  - exists buf1. done.
  - assert (Hne2 : hdlc_burst (y :: fs) <> []).
    { destruct y as [k' f']. unfold hdlc_burst. cbn [map concat]. intros E.
      apply app_eq_nil in E as [E _]. apply app_eq_nil in E as [_ E]. apply app_eq_nil in E as [_ E]. discriminate E. }
    destruct (hdlc_burst (y :: fs)) as [|b l] eqn:Eb; [done|].
    destruct (IH buf1 false (out ++ [parse_and_emit f (length f)]) Hok' ltac:(done) Hl1) as (buf2 & E2 & Hl2).
    exists buf2. rewrite E2. split; [|done]. by rewrite <- app_assoc.
Qed.

(** ** Addresses *)

Lemma reverse28_spec v : 0 <= v -> 0 <= reverse28 v < 2 ^ 28 /\
  forall i, 0 <= i < 28 -> Z.testbit (reverse28 v) i = Z.testbit v (27 - i).
Proof.
  intros Hv. unfold reverse28.
  destruct (forN_inv (fun (k : nat) r => 0 <= r /\ forall i, Z.testbit r i =
      (28 - Z.of_nat k <=? i) && (i <? 28) && Z.testbit v (27 - i)) 28
    (fun k r => Z.lor r (Z.shiftl (Z.land (Z.shiftr v (Z.of_nat k)) 1) (27 - Z.of_nat k))) 0) as [H0 H].
  - split; [lia|]. intros i. rewrite Z.testbit_0_l.
    destruct (Z.leb_spec (28 - Z.of_nat 0) i), (Z.ltb_spec i 28); try done. lia.
  - intros k r Hk [Hr0 Hr]. split.
    { apply Z.lor_nonneg. split; [done|]. apply Z.shiftl_nonneg, Z.land_nonneg. lia. }
    intros i. rewrite Z.lor_spec, Hr. destruct (Z.lt_ge_cases i 0) as [Hi|Hi].
    { rewrite (Z.testbit_neg_r _ i) by done. by rewrite !(proj2 (Z.leb_gt _ i)) by lia. }
    rewrite Z.shiftl_spec, Z.land_spec by done.
    destruct (Z.eq_dec i (27 - Z.of_nat k)) as [->|Hne].
    + rewrite Z.sub_diag. rewrite Z.shiftr_spec by lia.
      rewrite (proj2 (Z.leb_gt _ _)), (proj2 (Z.leb_le (28 - Z.of_nat (S k)) _)), (proj2 (Z.ltb_lt _ 28)) by lia.
      cbn [andb orb]. change (Z.testbit 1 0) with true. rewrite andb_true_r. f_equal. lia.
    + assert (E : Z.testbit 1 (i - (27 - Z.of_nat k)) = false).
      { destruct (Z.lt_ge_cases (i - (27 - Z.of_nat k)) 0); [by apply Z.testbit_neg_r|apply (testbit_high 1); lia]. }
      rewrite E, andb_false_r, orb_false_r. do 2 f_equal.
      destruct (Z.leb_spec (28 - Z.of_nat k) i), (Z.leb_spec (28 - Z.of_nat (S k)) i); try done; lia.
  - split.
    + apply bound_of_testbit; [lia|exact H0|]. intros i Hi. rewrite H, (proj2 (Z.ltb_ge i 28)) by lia.
      by rewrite andb_false_r.
    + intros i Hi. by rewrite H, (proj2 (Z.leb_le _ i)), (proj2 (Z.ltb_lt i 28)) by lia.
Qed.

Lemma reverse28_involutive v : 0 <= v < 2 ^ 28 -> reverse28 (reverse28 v) = v.
Proof.
  intros Hv. destruct (reverse28_spec v) as [H1 H2]; [lia|]. destruct (reverse28_spec (reverse28 v)) as [H3 H4]; [lia|].
  apply Z.bits_inj'. intros i Hi. destruct (Z.lt_ge_cases i 28).
  - rewrite H4, H2 by lia. f_equal. lia.
  - by rewrite !(testbit_high 28).
Qed.

Definition septet (r i : Z) : Z := Z.land (Z.shiftr r (7 * i)) 0x7F.

Lemma testbit_septet r i n : 0 <= i -> Z.testbit (septet r i) n = (0 <=? n) && (n <? 7) && Z.testbit r (n + 7 * i).
Proof.
  intros Hi. unfold septet. change 0x7F with (Z.ones 7). rewrite Z.land_spec.
  destruct (Z.leb_spec 0 n); [|by rewrite Z.testbit_neg_r].
  rewrite Z.shiftr_spec by done. destruct (Z.ltb_spec n 7).
  - rewrite Z.ones_spec_low by lia. by rewrite andb_true_r.
  - rewrite Z.ones_spec_high by lia. by rewrite andb_false_r.
Qed.

Lemma septet_range r i : 0 <= septet r i < 128.
Proof. apply (is_u_land_ones 7). lia. Qed.

Lemma septets_join r : 0 <= r < 2 ^ 28 ->
  Z.lor (Z.lor (Z.lor (septet r 0) (Z.shiftl (septet r 1) 7)) (Z.shiftl (septet r 2) 14)) (Z.shiftl (septet r 3) 21) = r.
Proof.
  intros Hr. apply Z.bits_inj'. intros n Hn. rewrite !Z.lor_spec, !Z.shiftl_spec, !testbit_septet by lia.
  destruct (Z.lt_ge_cases n 28) as [H28|H28].
  2:{ rewrite (testbit_high 28 r n) by lia.
      rewrite !(proj2 (Z.ltb_ge _ 7)) by lia. by rewrite !andb_false_r. }
  assert (n < 7 \/ 7 <= n < 14 \/ 14 <= n < 21 \/ 21 <= n) as [H|[H|[H|H]]] by lia;
    repeat match goal with
    | |- context [?a <=? ?b] => first [rewrite (proj2 (Z.leb_le a b)) by lia|rewrite (proj2 (Z.leb_gt a b)) by lia]
    | |- context [?a <? ?b] => first [rewrite (proj2 (Z.ltb_lt a b)) by lia|rewrite (proj2 (Z.ltb_ge a b)) by lia]
    end; cbn [andb orb]; rewrite ?orb_false_r; f_equal; lia.
Qed.

#[local] Opaque reverse28.

Lemma addr_octets_eq v : let r := reverse28 v in
  addr_octets v = [Z.lor (Z.shiftl (septet r 0) 1) 0; Z.lor (Z.shiftl (septet r 1) 1) 0;
                   Z.lor (Z.shiftl (septet r 2) 1) 0; Z.lor (Z.shiftl (septet r 3) 1) 1].
Proof. reflexivity. Qed.

(** The receiver's address arithmetic on the transmitted octets. *)
Lemma parse_addr_octets v rest : 0 <= v < 2 ^ 28 -> parse_dlc_addr (addr_octets v ++ rest) = v.
Proof.
  intros Hv. destruct (reverse28_spec v) as [Hr _]; [lia|].
  rewrite <- (reverse28_involutive v) at 2 by done. unfold parse_dlc_addr. f_equal.
  set (r := reverse28 v) in *. etrans; [|exact (septets_join r Hr)].
  rewrite addr_octets_eq. fold r. unfold rd. cbn [app nth].
  assert (E : Z.land (Z.lor (Z.shiftl (septet r 3) 1) 1) 0xFE = Z.shiftl (septet r 3) 1).
  { pose proof (septet_range r 3) as Hs.
    assert (Hall : forall n, (n < 128)%nat -> Z.land (Z.lor (Z.shiftl (Z.of_nat n) 1) 1) 0xFE = Z.shiftl (Z.of_nat n) 1).
    { apply (forall_below_eqb (fun n => Z.land (Z.lor (Z.shiftl (Z.of_nat n) 1) 1) 0xFE) (fun n => Z.shiftl (Z.of_nat n) 1)).
      vm_compute. reflexivity. }
    specialize (Hall (Z.to_nat (septet r 3)) ltac:(lia)). by rewrite Z2Nat.id in Hall by lia. }
  rewrite E, !Z.lor_0_r, !Z.shiftl_shiftl, Z.shiftr_shiftl_l, Z.shiftl_0_r by lia. reflexivity.
Qed.

(** ** Frame parsing *)

(** What a frame with a good check sequence is classified as. *)
Definition classified (control : Z) (info : list Z) : avlc_frame_kind * option (list Z) * option (list Z) :=
  if Z.even control then
    match info with
    | 0xFF :: 0xFF :: 0x01 :: (_ :: _) as acars => (AVLC_KIND_ACARS, Some info, Some acars)
    | _ => (AVLC_KIND_X25, Some info, None)
    end
  else if control mod 4 =? 1 then
    (AVLC_KIND_SUPERVISORY, match info with [] => None | _ => Some info end, None)
  else (AVLC_KIND_UNNUMBERED, Some info, None).

Lemma classified_spec control info :
  (if Z.land control 0x01 =? 0 then
     if (3 <? length info)%nat && (rd info 0 =? 0xFF) && (rd info 1 =? 0xFF) && (rd info 2 =? 0x01)
     then (AVLC_KIND_ACARS, Some info, Some (drop 3 info))
     else (AVLC_KIND_X25, Some info, None)
   else if Z.land control 0x03 =? 0x01 then
     (AVLC_KIND_SUPERVISORY, (if (length info =? 0)%nat then None else Some info), None)
   else (AVLC_KIND_UNNUMBERED, Some info, None)) = classified control info.
Proof.
  unfold classified. change 0x01 with (Z.ones 1) at 1. change 0x03 with (Z.ones 2).
  rewrite !Z.land_ones by lia. change (2 ^ 1) with 2. change (2 ^ 2) with 4. rewrite Zmod_even.
  destruct (Z.even control); cbn [Z.eqb].
  - destruct info as [|a [|b [|c [|d l]]]].
    1-4: cbn [length Nat.ltb Nat.leb andb]; repeat case_match; done.
    + cbn [length Nat.ltb Nat.leb andb rd nth drop].
      destruct (Z.eqb_spec a 0xFF) as [->|Ha]; cbn [andb]; [|repeat case_match; done].
      destruct (Z.eqb_spec b 0xFF) as [->|Hb]; cbn [andb]; [|repeat case_match; done].
      destruct (Z.eqb_spec c 0x01) as [->|Hc]; [done|repeat case_match; done].
  - destruct (control mod 4 =? 1); [|done]. by destruct info.
Qed.

Lemma length_addr_octets v : length (addr_octets v) = 4%nat.
Proof. reflexivity. Qed.

(** A well-formed frame, with its two address fields, control octet and
    information field. *)
Definition avlc_body (dst src control : Z) (info : list Z) : list Z :=
  addr_octets dst ++ addr_octets src ++ [control] ++ info.
Definition avlc_octets (dst src control : Z) (info : list Z) : list Z :=
  avlc_body dst src control info ++ fcs_octets (avlc_body dst src control info).

Lemma addr_octets_bytes v : is_bytes (addr_octets v).
Proof.
  unfold addr_octets. apply Forall_forall. intros x Hx. apply in_map_iff in Hx as (i & <- & _).
  fold (septet (reverse28 v) (Z.of_nat i)). pose proof (septet_range (reverse28 v) (Z.of_nat i)) as Hs.
  assert (Hall : forall n, (n < 128)%nat ->
    (Z.lor (Z.shiftl (Z.of_nat n) 1) 1 <? 256) && (Z.lor (Z.shiftl (Z.of_nat n) 1) 0 <? 256) = true).
  { apply (forall_below (fun n => (Z.lor (Z.shiftl (Z.of_nat n) 1) 1 <? 256) && (Z.lor (Z.shiftl (Z.of_nat n) 1) 0 <? 256))).
    vm_compute. reflexivity. }
  specialize (Hall (Z.to_nat (septet (reverse28 v) (Z.of_nat i))) ltac:(lia)). rewrite Z2Nat.id in Hall by lia.
  apply andb_true_iff in Hall as [H1 H2]. apply Z.ltb_lt in H1, H2.
  split; [|destruct (i =? 3)%nat; assumption]. apply Z.lor_nonneg. split; [apply Z.shiftl_nonneg; lia|destruct (i =? 3)%nat; lia].
Qed.

Lemma avlc_body_bytes dst src control info :
  is_byte control -> is_bytes info -> is_bytes (avlc_body dst src control info).
Proof.
  intros Hc Hi. unfold avlc_body. repeat (apply Forall_app; split); try apply addr_octets_bytes; [|done].
  by apply Forall_singleton.
Qed.

Lemma crc16_x25_u16 data : is_u 16 (crc16_x25 data).
Proof. apply is_u_mod. lia. Qed.

Lemma parse_wellformed dst src control info :
  0 <= dst < 2 ^ 28 -> 0 <= src < 2 ^ 28 -> is_byte control -> is_bytes info ->
  let f := avlc_octets dst src control info in
  parse_and_emit f (length f) =
  let '(kind, info', acars) := classified control info in
  AvlcFrame kind true f (dst mod 2 ^ 24) (src mod 2 ^ 24) (dst / 2 ^ 24 mod 8) (src / 2 ^ 24 mod 8)
    (Z.testbit src 27) (Z.testbit dst 27) control info' acars.
Proof.
  intros Hd Hs Hc Hi f. pose proof (avlc_body_bytes dst src control info Hc Hi) as Hb.
  assert (Hl : length f = (11 + length info)%nat).
  { unfold f, avlc_octets, avlc_body. rewrite !length_app. cbn. lia. }
  unfold parse_and_emit. rewrite take_ge by lia.
  rewrite (proj2 (Z.ltb_ge (Z.of_nat (length f)) _)) by (unfold AVLC_MIN_FRAME_OCTETS; lia).
  assert (Hcrc : crc16_x25_raw f = CRC16_X25_GOOD_RESIDUE).
  { apply crc_residue_x25; [done|apply lo8_byte|apply hi8_byte, crc16_x25_u16|done]. }
  rewrite Hcrc, Z.eqb_refl. cbn [negb].
  assert (E1 : parse_dlc_addr f = dst).
  { unfold f, avlc_octets, avlc_body. rewrite <- !app_assoc. by apply parse_addr_octets. }
  assert (E2 : parse_dlc_addr (drop 4 f) = src).
  { unfold f, avlc_octets, avlc_body. rewrite <- !app_assoc. rewrite drop_app_length' by done. by apply parse_addr_octets. }
  assert (E3 : rd f 8 = control) by reflexivity.
  assert (E4 : slice f 9 (length f - 2 - 9) = info).
  { apply (slice_app_at _ (addr_octets dst ++ addr_octets src ++ [control]) _ (fcs_octets (avlc_body dst src control info)));
      [unfold f, avlc_octets, avlc_body; by rewrite <- !app_assoc|done|lia]. }
  rewrite E1, E2, E3, E4. cbv zeta. rewrite classified_spec.
  destruct (classified control info) as [[kind info'] acars].
  assert (Hm : forall v, Z.land v 0xFFFFFF = v mod 2 ^ 24) by (intros v; apply (Z.land_ones v 24); lia).
  assert (H7 : forall v, Z.land (Z.shiftr v 24) 0x7 = v / 2 ^ 24 mod 8).
  { intros v. rewrite Z.shiftr_div_pow2 by lia. apply (Z.land_ones _ 3). lia. }
  assert (H1 : forall v, negb (Z.land (Z.shiftr v 27) 1 =? 0) = Z.testbit v 27).
  { intros v. fold (bit (Z.shiftr v 27)). rewrite bit_odd, <- Z.bit0_odd, Z.shiftr_spec by lia. by destruct (Z.testbit _ _). }
  by rewrite !Hm, !H7, !H1.
Qed.

Lemma hdlc_burst_bits fs : is_bits (hdlc_burst fs).
Proof.
  assert (Hfl : is_bits flag) by (unfold flag, is_bits; repeat constructor; lia).
  assert (Hst : forall bs o, is_bits (stuff o bs)).
  { induction bs as [|b bs IH]; intros o; cbn [stuff]; [constructor|].
    destruct (b =? 1); [destruct (o =? 4)|]; repeat (apply Forall_cons; [lia|]); apply IH. }
  unfold hdlc_burst. induction fs as [|[k f] fs IH]; cbn [map concat]; [constructor|].
  apply Forall_app. split; [|exact IH]. apply Forall_app. split.
  - unfold flags. induction k as [|k IHk]; cbn [replicate concat]; [constructor|]. by apply Forall_app.
  - apply Forall_app. split; [apply Hst|exact Hfl].
Qed.

Lemma stream_bits_unpacked l : is_bits l -> stream_bits false l (length l) = l.
Proof.
  intros Hl. apply rd_ext.
  - unfold stream_bits. by rewrite length_map, length_seq.
  - intros i Hi. unfold stream_bits in *. rewrite length_map, length_seq in Hi.
    unfold rd at 1. rewrite nth_lookup, list_lookup_fmap', lookup_seq_lt by done. cbn.
    apply bit_bit, rd_bits, Hl.
Qed.

(** The scan of a whole burst. *)
Lemma deframe_burst s_frame fs : length s_frame = 2048%nat -> frames_ok fs -> fs <> [] ->
  exists buf', deframe_core s_frame (hdlc_burst fs) = (map (fun x => parse_and_emit x.2 (length x.2)) fs, buf') /\
    length buf' = 2048%nat.
Proof.
  intros Hl Hok Hne. destruct (loop_burst fs s_frame false [] Hok Hne Hl) as (buf' & E & Hb). exists buf'. split; [|done].
  assert (E2 : deframe_core s_frame (hdlc_burst fs) =
    let '(st, go) := deframe_loop (hdlc_burst fs) (Deframe s_frame 0 0 false []) in
    let st := if go then deframe_finish st else st in (df_out st, df_frame st)).
  { unfold deframe_core. destruct (hdlc_burst fs); [|reflexivity]. exfalso. cbn [deframe_loop] in E. congruence. }
  rewrite E2, E. reflexivity.
Qed.

(** ** Seven ones *)

Definition ones_ok (st : deframe) : Prop := 0 <= df_ones st <= 6.

Lemma step_ones_ok st b last st' : ones_ok st -> deframe_step st b last = (st', true) ->
  ones_ok st' /\ (b = 1 -> df_ones st' = df_ones st + 1).
Proof.
  destruct st as [buf o j c out]. unfold ones_ok, deframe_step. cbn [df_ones]. intros Ho.
  destruct (Z.eqb_spec b 0) as [->|Hb0]; cbn [andb Z.eqb].
  - destruct (o =? 5); [intros [= <-]; cbn; lia|].
    destruct (o =? 6).
    + destruct (j =? 7)%nat; [intros [= <-]; cbn; lia|]. destruct (j <? 7)%nat; [done|].
      destruct (negb _); [done|]. intros [= <-]; cbn; lia.
    + destruct (_ <=? _); [done|]. intros [= <-]; cbn; lia.
  - destruct (Z.eqb_spec b 1) as [->|Hb1]; cbn [andb].
    + destruct (Z.ltb_spec 6 (o + 1)); [done|]. destruct (_ <=? _); [done|]. intros [= <-]; cbn; lia.
    + destruct (_ <=? _); [done|]. intros [= <-]; cbn; lia.
Qed.

Lemma run_ones_ok bits : forall st st', ones_ok st -> run bits st = (st', true) -> ones_ok st'.
Proof.
  induction bits as [|b bits IH]; intros st st' Ho; cbn [run]; [by intros [= <-]|].
  destruct (deframe_step st b false) as [st1 [|]] eqn:E; [|done]. apply IH, (step_ones_ok _ _ _ _ Ho E).
Qed.

Lemma run_ones_count n : forall st st', ones_ok st -> run (replicate n 1) st = (st', true) ->
  df_ones st' = df_ones st + Z.of_nat n.
Proof.
  induction n as [|n IH]; intros st st' Ho; cbn [replicate run]; [intros [= <-]; lia|].
  destruct (deframe_step st 1 false) as [st1 [|]] eqn:E; [|done]. intros Hr.
  destruct (step_ones_ok _ _ _ _ Ho E) as [Ho1 H1]. rewrite (IH _ _ Ho1 Hr), H1 by done. lia.
Qed.

(** A seventh one stops the scan, the buffer and frames as they are. *)
Lemma step_seventh st last : df_ones st = 6 ->
  (deframe_step st 1 last).2 = false /\
  df_out (deframe_step st 1 last).1 = df_out st /\ df_frame (deframe_step st 1 last).1 = df_frame st.
Proof. destruct st as [buf o j c out]. cbn [df_ones]. intros ->. done. Qed.

(** ** Properties *)

(** C34: deframing inverts framing.  A burst of any number of frames of 1 to 2047
    octets, each bit-stuffed, preceded by any number of fill flags and closed
    by one flag, yields exactly those frames in order, whatever the static
    buffer held before, from a bit vector as from packed octets. *)
Theorem avlc_deframe_round_trip s_frame fs :
  length s_frame = 2048%nat -> frames_ok fs -> fs <> [] ->
  let frames := map (fun x => parse_and_emit x.2 (length x.2)) fs in
  (avlc_deframe s_frame (hdlc_burst fs) (length (hdlc_burst fs))).1 = frames /\
  (forall octets n, stream_bits true octets n = hdlc_burst fs ->
     (avlc_deframe_octets s_frame octets n).1 = frames).
Proof.
  intros Hl Hok Hne frames.
  destruct (deframe_burst s_frame fs Hl Hok Hne) as (buf' & E0 & _).
  assert (H : (deframe_core s_frame (hdlc_burst fs)).1 = frames) by (by rewrite E0).
  split.
  - unfold avlc_deframe. rewrite stream_bits_unpacked by apply hdlc_burst_bits. exact H.
  - intros octets n E. unfold avlc_deframe_octets. rewrite E. exact H.
Qed.

Definition sample_avlc : list Z := avlc_octets 0x2123456 0xA987654 0x10 [0xFF; 0xFF; 0x01; 0x7E; 0x41].

Lemma sample_info_ok : is_bytes [0xFF; 0xFF; 0x01; 0x7E; 0x41].
Proof. apply (bool_decide_unpack _). vm_compute. reflexivity. Qed.

Lemma sample_avlc_ok : frames_ok [(2%nat, sample_avlc); (0%nat, [0x7E])].
Proof.
  assert (Hb : is_bytes sample_avlc) by (apply (bool_decide_unpack _); vm_compute; reflexivity).
  assert (Hl : length sample_avlc = 16%nat) by (vm_compute; reflexivity).
  unfold frames_ok. apply Forall_cons; [cbn [snd]; split; [exact Hb|lia]|]. apply Forall_singleton. cbn [snd].
  split; [apply Forall_singleton; unfold is_u; lia|cbn; lia].
Qed.

Lemma avlc_deframe_round_trip_witness :
  (avlc_deframe (replicate 2048 0x55) (hdlc_burst [(2%nat, sample_avlc); (0%nat, [0x7E])])
     (length (hdlc_burst [(2%nat, sample_avlc); (0%nat, [0x7E])]))).1 =
  [parse_and_emit sample_avlc (length sample_avlc); invalid_frame AVLC_KIND_TOO_SHORT [0x7E]].
Proof.
  exact (proj1 (avlc_deframe_round_trip (replicate 2048 0x55) [(2%nat, sample_avlc); (0%nat, [0x7E])]
    (length_replicate 2048 0x55) sample_avlc_ok ltac:(discriminate))).
Defined.

(** Frame parsing.  A frame of two 28-bit addresses, a control octet and an
    information field followed by its frame check sequence is parsed into
    exactly those parts and classified by its control octet and discriminator;
    a frame of 11 or more octets passes the check only if its last two octets
    are the frame check sequence of the rest, and a shorter one never does. *)
Theorem avlc_parse_frame dst src control info raw a b :
  0 <= dst < 2 ^ 28 -> 0 <= src < 2 ^ 28 -> is_byte control -> is_bytes info ->
  is_bytes raw -> is_byte a -> is_byte b ->
  let f := avlc_octets dst src control info in
  (parse_and_emit f (length f) =
   let '(kind, info', acars) := classified control info in
   AvlcFrame kind true f (dst mod 2 ^ 24) (src mod 2 ^ 24) (dst / 2 ^ 24 mod 8) (src / 2 ^ 24 mod 8)
     (Z.testbit src 27) (Z.testbit dst 27) control info' acars) /\
  (let g := raw ++ [a; b] in
   if (length g <? 11)%nat then parse_and_emit g (length g) = invalid_frame AVLC_KIND_TOO_SHORT g
   else af_fcs_ok (parse_and_emit g (length g)) = bool_decide ([a; b] = fcs_octets raw) /\
        (af_fcs_ok (parse_and_emit g (length g)) = false ->
           parse_and_emit g (length g) = invalid_frame AVLC_KIND_BAD_FCS g)).
Proof.
  intros Hd Hs Hc Hi Hr Ha Hb f. split; [by apply parse_wellformed|]. cbv zeta.
  set (g := raw ++ [a; b]). unfold parse_and_emit. rewrite take_ge by lia. unfold AVLC_MIN_FRAME_OCTETS.
  destruct (Nat.ltb_spec (length g) 11).
  - by rewrite (proj2 (Z.ltb_lt (Z.of_nat (length g)) 11)) by lia.
  - rewrite (proj2 (Z.ltb_ge (Z.of_nat (length g)) 11)) by lia.
    pose proof (crc_residue_x25 raw a b Hr Ha Hb) as Hcrc. fold g in Hcrc.
    assert (Hbd : (crc16_x25_raw g =? CRC16_X25_GOOD_RESIDUE) = bool_decide ([a; b] = fcs_octets raw)).
    { apply eq_true_iff_eq. rewrite Z.eqb_eq, bool_decide_eq_true, Hcrc. unfold fcs_octets.
      split; [by intros [-> ->]|by intros [= -> ->]]. }
    rewrite Hbd. destruct (bool_decide _); cbn [negb]; [|done]. rewrite classified_spec.
    destruct (classified _ _) as [[kind info'] acars]. done.
Qed.

Lemma avlc_parse_frame_witness :
  af_acars (parse_and_emit sample_avlc (length sample_avlc)) = Some [0x7E; 0x41] /\
  af_src_addr (parse_and_emit sample_avlc (length sample_avlc)) = 0x987654.
Proof.
  pose proof (proj1 (avlc_parse_frame 0x2123456 0xA987654 0x10 [0xFF; 0xFF; 0x01; 0x7E; 0x41] [] 0 0
    ltac:(lia) ltac:(lia) ltac:(unfold is_u; lia) sample_info_ok
    ltac:(constructor) ltac:(unfold is_u; lia) ltac:(unfold is_u; lia))) as H.
  fold sample_avlc in H. rewrite H. split; reflexivity.
Defined.

(** Seven consecutive ones end the scan.  Whatever precedes them, the
    frames delivered and the buffer left do not depend on anything after. *)
Theorem avlc_seven_ones_abort s_frame pre rest rest' :
  deframe_core s_frame (pre ++ replicate 7 1 ++ rest) = deframe_core s_frame (pre ++ replicate 7 1 ++ rest').
Proof.
  set (st0 := Deframe s_frame 0 0 false []).
  assert (Hgen : forall rest, deframe_core s_frame (pre ++ replicate 7 1 ++ rest) =
    let st := (run (pre ++ replicate 6 1) st0).1 in (df_out st, df_frame st)).
  { clear rest rest'. intros rest.
    assert (E0 : pre ++ replicate 7 1 ++ rest = (pre ++ replicate 6 1) ++ 1 :: rest) by (by rewrite <- app_assoc).
    assert (E1 : deframe_core s_frame ((pre ++ replicate 6 1) ++ 1 :: rest) =
      let '(st, go) := deframe_loop ((pre ++ replicate 6 1) ++ 1 :: rest) st0 in
      let st := if go then deframe_finish st else st in (df_out st, df_frame st)).
    { unfold deframe_core. by destruct ((pre ++ replicate 6 1) ++ 1 :: rest) eqn:E; [destruct (pre ++ replicate 6 1)|]. }
    rewrite E0, E1, loop_app by done. destruct (run (pre ++ replicate 6 1) st0) as [st [|]] eqn:Er; [|done].
    assert (Ho : df_ones st = 6).
    { rewrite run_app in Er. destruct (run pre st0) as [st1 [|]] eqn:E; [|done].
      assert (Ho1 : ones_ok st1) by (apply (run_ones_ok pre st0 st1); [unfold ones_ok; cbn; lia|done]).
      pose proof (run_ones_count 6 st1 st Ho1 Er) as Hc. pose proof (run_ones_ok _ _ _ Ho1 Er) as Ho2.
      unfold ones_ok in *. lia. }
    cbn [deframe_loop fst]. destruct (step_seventh st (match rest with [] => true | _ => false end) Ho) as (S1 & S2 & S3).
    destruct (deframe_step st 1 _) as [st' go]. cbn [fst snd] in *. subst go. by rewrite S2, S3. }
  by rewrite !Hgen.
Qed.
