(* ===== verification/Gf256.v ===== *)
(** The field GF(256) of the VDL2 Reed-Solomon code
    (src/common/vdl2/rs_vdl2.c, tables and [gf_mul]).

    The log and antilog tables are the ones [rs_init] fills.  [gf] is the type
    of bytes as field elements; it is a field in the sense of the [ring] and
    [field] tactics, and [gz] maps it to the program's octets, exclusive or
    being addition and [gf_mul] multiplication. *)

From S2P Require Import Prelude.
From Stdlib Require Export Ring Field.
From Stdlib Require Import Eqdep_dec.

Definition GF_POLY : Z := 0x187.

(** The first two loops of [rs_init]: antilog and log tables. *)
Definition fill_tables : list Z * list Z :=
  let '(exp, log, _) :=
    forN 255 (fun i '(exp, log, x) =>
      let exp := <[i := u8 x]> exp in
      let log := <[Z.to_nat x := u8 (Z.of_nat i)]> log in
      let x := Z.shiftl x 1 in
      let x := if Z.land x 0x100 =? 0 then x else Z.lxor x GF_POLY in
      (exp, log, x)) (replicate 510 0, replicate 256 0, 1) in
  (forN 255 (fun k exp => <[(255 + k)%nat := rd exp k]> exp) exp, log).

Definition gf_exp : list Z := Eval vm_compute in fill_tables.1.
Definition gf_log : list Z := Eval vm_compute in fill_tables.2.

Lemma tables_filled : fill_tables = (gf_exp, gf_log).
Proof. vm_compute. reflexivity. Qed.

(** [gf_exp[i]] and [gf_log[a]]. *)
Definition gexp (i : Z) : Z := rd gf_exp (Z.to_nat i).
Definition glog (a : Z) : Z := rd gf_log (Z.to_nat a).

Definition gf_mul (a b : Z) : Z :=
  if (a =? 0) || (b =? 0) then 0 else gexp (glog a + glog b).

(** ** Reference multiplication *)

(** Multiplication by x modulo the field polynomial. *)
Definition xtime (a : Z) : Z :=
  let s := Z.shiftl a 1 in if Z.testbit s 8 then Z.lxor s GF_POLY else s.

(** Product of polynomials over GF(2) modulo the field polynomial, from the
    high bit of [b] down. *)
Definition poly_mul (a b : Z) : Z :=
  fold_right (fun k r => Z.lxor (xtime r) (if Z.testbit b (Z.of_nat k) then a else 0)) 0 (seq 0 8).

(** ** Table facts, by evaluation *)

Definition all_bytes (P : Z -> bool) : bool := forallb (fun n => P (Z.of_nat n)) (seq 0 256).

Lemma all_bytes_spec P : all_bytes P = true -> forall a, is_byte a -> P a = true.
Proof.
  intros H a Ha. unfold is_u in Ha. pose proof (forall_below _ _ H (Z.to_nat a) ltac:(lia)) as Hp.
  cbv beta in Hp. by rewrite Z2Nat.id in Hp by lia.
Qed.

Lemma gexp_byte i : is_byte (gexp i).
Proof.
  unfold gexp, rd. assert (H : is_bytes gf_exp) by (apply (bool_decide_unpack _); vm_compute; reflexivity).
  rewrite nth_lookup. destruct (gf_exp !! _) eqn:E; cbn; [|unfold is_u; lia].
  exact (Forall_lookup_1 _ _ _ _ H E).
Qed.

Lemma glog_range a : 0 <= glog a < 255.
Proof.
  unfold glog, rd. assert (H : Forall (fun z => 0 <= z < 255) gf_log) by (apply (bool_decide_unpack _); vm_compute; reflexivity).
  rewrite nth_lookup. destruct (gf_log !! _) eqn:E; cbn; [|lia].
  exact (Forall_lookup_1 _ _ _ _ H E).
Qed.

Lemma gexp_glog a : is_byte a -> a <> 0 -> gexp (glog a) = a.
Proof.
  intros Ha Hne.
  pose proof (all_bytes_spec (fun a => (a =? 0) || (gexp (glog a) =? a)) ltac:(vm_compute; reflexivity) a Ha) as H.
  cbv beta in H. rewrite (proj2 (Z.eqb_neq a 0) Hne) in H. by apply Z.eqb_eq in H.
Qed.

Lemma glog_gexp i : 0 <= i < 510 -> glog (gexp i) = i mod 255.
Proof.
  intros Hi.
  pose proof (forall_below_eqb (fun n => glog (gexp (Z.of_nat n))) (fun n => Z.of_nat n mod 255) 510
    ltac:(vm_compute; reflexivity) (Z.to_nat i) ltac:(lia)) as H.
  cbv beta in H. by rewrite Z2Nat.id in H by lia.
Qed.

Lemma gexp_nonzero i : 0 <= i < 510 -> gexp i <> 0.
Proof.
  intros Hi.
  pose proof (forall_below (fun n => negb (gexp (Z.of_nat n) =? 0)) 510
    ltac:(vm_compute; reflexivity) (Z.to_nat i) ltac:(lia)) as H.
  cbv beta in H. rewrite Z2Nat.id in H by lia. by apply negb_true_iff, Z.eqb_neq in H.
Qed.

(** The doubled antilog table is periodic. *)
Lemma gexp_mod i : 0 <= i < 510 -> gexp (i mod 255) = gexp i.
Proof.
  intros Hi.
  pose proof (forall_below_eqb (fun n => gexp (Z.of_nat n mod 255)) (fun n => gexp (Z.of_nat n)) 510
    ltac:(vm_compute; reflexivity) (Z.to_nat i) ltac:(lia)) as H.
  cbv beta in H. by rewrite Z2Nat.id in H by lia.
Qed.

Lemma gf_mul_byte a b : is_byte (gf_mul a b).
Proof. unfold gf_mul. case_match; [unfold is_u; lia|apply gexp_byte]. Qed.

Lemma gf_mul_comm a b : gf_mul a b = gf_mul b a.
Proof. unfold gf_mul. by rewrite (orb_comm (a =? 0)), (Z.add_comm (glog a)). Qed.

Lemma gf_mul_0_l b : gf_mul 0 b = 0.
Proof. reflexivity. Qed.
Lemma gf_mul_0_r a : gf_mul a 0 = 0.
Proof. rewrite gf_mul_comm. apply gf_mul_0_l. Qed.

Lemma gf_mul_exp a b : a <> 0 -> b <> 0 -> gf_mul a b = gexp (glog a + glog b).
Proof. intros Ha Hb. unfold gf_mul. by rewrite !(proj2 (Z.eqb_neq _ 0)) by done. Qed.

Lemma gf_mul_nonzero a b : a <> 0 -> b <> 0 -> gf_mul a b <> 0.
Proof.
  intros Ha Hb. rewrite gf_mul_exp by done. pose proof (glog_range a). pose proof (glog_range b).
  apply gexp_nonzero. lia.
Qed.

Lemma gf_mul_assoc a b c : gf_mul a (gf_mul b c) = gf_mul (gf_mul a b) c.
Proof.
  destruct (Z.eq_dec a 0) as [->|Ha]; [by rewrite !gf_mul_0_l|].
  destruct (Z.eq_dec b 0) as [->|Hb]; [by rewrite gf_mul_0_l, gf_mul_0_r, gf_mul_0_l|].
  destruct (Z.eq_dec c 0) as [->|Hc]; [by rewrite !gf_mul_0_r|].
  pose proof (gf_mul_nonzero a b Ha Hb). pose proof (gf_mul_nonzero b c Hb Hc).
  pose proof (glog_range a). pose proof (glog_range b). pose proof (glog_range c).
  rewrite (gf_mul_exp a (gf_mul b c)), (gf_mul_exp (gf_mul a b) c), (gf_mul_exp a b), (gf_mul_exp b c) by done.
  rewrite !glog_gexp by lia.
  rewrite <- (gexp_mod (glog a + _)), <- (gexp_mod (_ + glog c)) by lia. f_equal. lia.
Qed.

(** ** Linearity *)

(** The table product is the polynomial product. *)
Lemma gf_mul_poly a b : is_byte a -> is_byte b -> gf_mul a b = poly_mul a b.
Proof.
  intros Ha Hb.
  pose proof (all_bytes_spec (fun a => all_bytes (fun b => gf_mul a b =? poly_mul a b))
    ltac:(vm_compute; reflexivity) a Ha) as H. cbv beta in H.
  apply Z.eqb_eq. exact (all_bytes_spec (fun b => gf_mul a b =? poly_mul a b) H b Hb).
Qed.

Lemma xtime_lxor a b : xtime (Z.lxor a b) = Z.lxor (xtime a) (xtime b).
Proof.
  unfold xtime. rewrite Z.shiftl_lxor, Z.lxor_spec.
  destruct (Z.testbit (Z.shiftl a 1) 8), (Z.testbit (Z.shiftl b 1) 8); cbn [xorb];
    apply Z.bits_inj'; intros i Hi; rewrite ?Z.lxor_spec; btauto.
Qed.

Lemma poly_mul_lxor a b c : poly_mul a (Z.lxor b c) = Z.lxor (poly_mul a b) (poly_mul a c).
Proof.
  unfold poly_mul. induction (seq 0 8) as [|k l IH]; cbn [fold_right]; [done|].
  rewrite IH, xtime_lxor, Z.lxor_spec.
  destruct (Z.testbit b (Z.of_nat k)), (Z.testbit c (Z.of_nat k)); cbn [xorb];
    apply Z.bits_inj'; intros i Hi; rewrite ?Z.lxor_spec, ?Z.bits_0; btauto.
Qed.

Lemma gf_mul_lxor a b c : is_byte a -> is_byte b -> is_byte c ->
  gf_mul a (Z.lxor b c) = Z.lxor (gf_mul a b) (gf_mul a c).
Proof.
  intros Ha Hb Hc. rewrite !gf_mul_poly by (done || by apply is_u_lxor). apply poly_mul_lxor.
Qed.

(** ** The field type *)

Definition byteb (z : Z) : bool := (0 <=? z) && (z <? 256).
Definition gf : Type := { z : Z | byteb z = true }.
Definition gz (x : gf) : Z := proj1_sig x.

Lemma byteb_spec z : byteb z = true <-> is_byte z.
Proof. unfold byteb, is_u. rewrite andb_true_iff, Z.leb_le, Z.ltb_lt. done. Qed.

Lemma gz_byte x : is_byte (gz x).
Proof. destruct x as [z Hz]. by apply byteb_spec. Qed.

Definition mk (z : Z) (H : is_byte z) : gf := exist _ z (proj2 (byteb_spec z) H).

(** An octet as a field element. *)
Definition zg (z : Z) : gf := mk (z mod 2 ^ 8) (is_u_mod 8 z ltac:(lia)).

Lemma gz_inj x y : gz x = gz y -> x = y.
Proof.
  destruct x as [x Hx], y as [y Hy]. cbn. intros ->. f_equal. apply (UIP_dec bool_dec).
Qed.

Lemma gz_zg z : is_byte z -> gz (zg z) = z.
Proof. intros H. by apply Z.mod_small. Qed.

Lemma zg_gz x : zg (gz x) = x.
Proof. apply gz_inj, gz_zg, gz_byte. Qed.

Definition g0 : gf := zg 0.
Definition g1 : gf := zg 1.
Definition gadd (x y : gf) : gf := mk (Z.lxor (gz x) (gz y)) (is_u_lxor 8 _ _ ltac:(lia) (gz_byte x) (gz_byte y)).
Definition gmul (x y : gf) : gf := mk (gf_mul (gz x) (gz y)) (gf_mul_byte _ _).
Definition ginv (x : gf) : gf := if decide (gz x = 0) then g0 else zg (gexp (255 - glog (gz x))).
Definition gdiv (x y : gf) : gf := gmul x (ginv y).

Lemma gz_add x y : gz (gadd x y) = Z.lxor (gz x) (gz y).
Proof. reflexivity. Qed.
Lemma gz_mul x y : gz (gmul x y) = gf_mul (gz x) (gz y).
Proof. reflexivity. Qed.
Lemma gz_0 : gz g0 = 0.
Proof. reflexivity. Qed.
Lemma gz_1 : gz g1 = 1.
Proof. reflexivity. Qed.

#[export] Instance gf_eq_dec : EqDecision gf.
Proof.
  intros x y. destruct (decide (gz x = gz y)) as [E|E]; [left; by apply gz_inj|right; congruence].
Defined.

Lemma gz_nonzero x : x <> g0 <-> gz x <> 0.
Proof. split; intros H E; apply H; [apply gz_inj; by rewrite E|by rewrite E]. Qed.

Lemma gadd_comm x y : gadd x y = gadd y x.
Proof. apply gz_inj. rewrite !gz_add. apply Z.lxor_comm. Qed.
Lemma gadd_assoc x y z : gadd x (gadd y z) = gadd (gadd x y) z.
Proof. apply gz_inj. rewrite !gz_add. by rewrite Z.lxor_assoc. Qed.
Lemma gadd_0_l x : gadd g0 x = x.
Proof. apply gz_inj. rewrite gz_add, gz_0. apply Z.lxor_0_l. Qed.
Lemma gadd_self x : gadd x x = g0.
Proof. apply gz_inj. rewrite gz_add, gz_0. apply Z.lxor_nilpotent. Qed.
Lemma gmul_comm x y : gmul x y = gmul y x.
Proof. apply gz_inj. rewrite !gz_mul. apply gf_mul_comm. Qed.
Lemma gmul_assoc x y z : gmul x (gmul y z) = gmul (gmul x y) z.
Proof. apply gz_inj. rewrite !gz_mul. apply gf_mul_assoc. Qed.
Lemma gmul_1_l x : gmul g1 x = x.
Proof.
  apply gz_inj. rewrite gz_mul, gz_1. pose proof (gz_byte x) as Hx.
  apply Z.eqb_eq. exact (all_bytes_spec (fun a => gf_mul 1 a =? a) ltac:(vm_compute; reflexivity) _ Hx).
Qed.
Lemma gmul_gadd x y z : gmul (gadd x y) z = gadd (gmul x z) (gmul y z).
Proof.
  apply gz_inj. rewrite gz_add, !gz_mul, gz_add, !(gf_mul_comm _ (gz z)).
  apply gf_mul_lxor; apply gz_byte.
Qed.
Lemma ginv_l x : x <> g0 -> gmul (ginv x) x = g1.
Proof.
  intros Hx. apply gz_nonzero in Hx. apply gz_inj. rewrite gz_mul, gz_1. unfold ginv.
  rewrite decide_False by done. rewrite gz_zg by apply gexp_byte.
  pose proof (glog_range (gz x)) as Hl.
  rewrite gf_mul_exp, glog_gexp by (done || lia || apply gexp_nonzero; lia).
  rewrite <- (gexp_mod (_ + _)) by lia.
  replace (((255 - glog (gz x)) mod 255 + glog (gz x)) mod 255) with 0 by lia. reflexivity.
Qed.

Lemma gf_field : field_theory g0 g1 gadd gmul gadd (fun x => x) gdiv ginv (@eq gf).
Proof.
  split; [split| | |].
  - apply gadd_0_l.
  - apply gadd_comm.
  - apply gadd_assoc.
  - apply gmul_1_l.
  - apply gmul_comm.
  - apply gmul_assoc.
  - apply gmul_gadd.
  - reflexivity.
  - apply gadd_self.
  - intros H. apply (f_equal gz) in H. discriminate H.
  - reflexivity.
  - intros p Hp. by apply ginv_l.
Qed.
Add Field gf_field : gf_field.

Declare Scope gf_scope.
Delimit Scope gf_scope with gf.
Infix "+" := gadd : gf_scope.
Infix "*" := gmul : gf_scope.
Infix "/" := gdiv : gf_scope.
Notation "0" := g0 : gf_scope.
Notation "1" := g1 : gf_scope.

Lemma gmul_0_l x : (0 * x = 0)%gf.
Proof. ring. Qed.
Lemma gmul_0_r x : (x * 0 = 0)%gf.
Proof. ring. Qed.

Lemma gmul_eq_0 x y : (x * y = 0)%gf -> x = g0 \/ y = g0.
Proof.
  intros H. destruct (decide (x = g0)) as [|Hx]; [by left|right].
  destruct (decide (y = g0)) as [|Hy]; [done|exfalso]. apply gz_nonzero in Hx, Hy.
  apply (f_equal gz) in H. rewrite gz_mul, gz_0 in H. by apply (gf_mul_nonzero (gz x) (gz y)).
Qed.

Lemma gadd_eq_0 x y : (x + y = 0)%gf -> x = y.
Proof.
  intros H. apply gz_inj, Z.lxor_eq. by apply (f_equal gz) in H.
Qed.
