(* ===== verification/Locators.v ===== *)
(** Algebra of error locators over GF(256).

    Finite sums and powers, power sums of weighted points (what syndromes are),
    the Vandermonde argument, the root bound for polynomials, locator
    polynomials, and the theory of shortest linear recurrences that the
    Berlekamp-Massey loop of src/common/vdl2/rs_vdl2.c computes.  Nothing here
    depends on the program; [RsVdl2] instantiates it. *)

From S2P Require Import Prelude Gf256.

#[local] Open Scope gf_scope.

(** ** Powers and sums *)

Fixpoint gpow (x : gf) (n : nat) : gf := match n with O => 1 | S n => x * gpow x n end.
Infix "^" := gpow : gf_scope.

Fixpoint gsum (n : nat) (f : nat -> gf) : gf := match n with O => 0 | S n => gsum n f + f n end.

Lemma gadd_0_r x : x + 0 = x.
Proof. ring. Qed.

Lemma gadd_cancel x y : x + (x + y) = y.
Proof. rewrite gadd_assoc, gadd_self. apply gadd_0_l. Qed.

Lemma gpow_add x m n : x ^ (m + n) = x ^ m * x ^ n.
Proof. induction m as [|m IH]; cbn [gpow Nat.add]; [ring|rewrite IH; ring]. Qed.

Lemma gpow_S_r x n : x ^ (S n) = x ^ n * x.
Proof. cbn. ring. Qed.

Lemma gpow_nonzero x n : x <> 0 -> x ^ n <> 0.
Proof.
  intros Hx. induction n as [|n IH]; cbn; [intros H; by apply (f_equal gz) in H|].
  intros H. by apply gmul_eq_0 in H as [H|H].
Qed.

Lemma gpow_mul_base x y n : (x * y) ^ n = x ^ n * y ^ n.
Proof. induction n as [|n IH]; cbn; [ring|rewrite IH; ring]. Qed.

Lemma gpow_1 n : 1 ^ n = 1.
Proof. induction n as [|n IH]; cbn; [done|rewrite IH; ring]. Qed.

Lemma gpow_mul x m n : x ^ (m * n) = (x ^ m) ^ n.
Proof.
  revert n. induction m as [|m IH]; intros n; cbn [gpow Nat.mul]; [by rewrite gpow_1|].
  rewrite gpow_add, gpow_mul_base, IH. ring.
Qed.

Lemma gmul_nonzero x y : x <> 0 -> y <> 0 -> x * y <> 0.
Proof. intros Hx Hy H. apply gmul_eq_0 in H as [H|H]; contradiction. Qed.

Lemma gmul_cancel_l x y z : x <> 0 -> x * y = x * z -> y = z.
Proof.
  intros Hx H. apply gadd_eq_0. assert (E : x * (y + z) = 0) by (replace (x * (y + z)) with (x * y + x * z) by ring; rewrite H; apply gadd_self).
  apply gmul_eq_0 in E as [E|E]; [contradiction|exact E].
Qed.

Section sums.
Implicit Types (f g : nat -> gf).

Lemma gsum_ext n f g : (forall i, (i < n)%nat -> f i = g i) -> gsum n f = gsum n g.
Proof. induction n as [|n IH]; intros H; [done|]. cbn. rewrite IH by (intros; apply H; lia). by rewrite H by lia. Qed.

Lemma gsum_0 n f : (forall i, (i < n)%nat -> f i = 0) -> gsum n f = 0.
Proof. induction n as [|n IH]; intros H; [done|]. cbn. rewrite IH, H by (intros; try apply H; lia). ring. Qed.

Lemma gsum_add n f g : gsum n (fun i => f i + g i) = gsum n f + gsum n g.
Proof. induction n as [|n IH]; cbn; [ring|rewrite IH; ring]. Qed.

Lemma gsum_scale n c f : gsum n (fun i => c * f i) = c * gsum n f.
Proof. induction n as [|n IH]; cbn; [ring|rewrite IH; ring]. Qed.

Lemma gsum_swap m n (h : nat -> nat -> gf) :
  gsum m (fun i => gsum n (fun j => h i j)) = gsum n (fun j => gsum m (fun i => h i j)).
Proof.
  induction m as [|m IH]; cbn; [symmetry; by apply gsum_0|].
  rewrite IH, <- gsum_add. done.
Qed.

(** Terms that vanish may be added or dropped. *)
Lemma gsum_extend m n f : (m <= n)%nat -> (forall i, (m <= i < n)%nat -> f i = 0) -> gsum n f = gsum m f.
Proof.
  intros Hmn H. induction n as [|n IH]; [by replace m with O by lia|].
  destruct (Nat.eq_dec m (S n)) as [->|]; [done|]. cbn. rewrite H by lia. rewrite IH; [ring|lia|].
  intros i Hi. apply H. lia.
Qed.

Lemma gsum_S_l n f : gsum (S n) f = f O + gsum n (fun i => f (S i)).
Proof. induction n as [|n IH]; [cbn; ring|]. change (gsum (S (S n)) f) with (gsum (S n) f + f (S n)). rewrite IH. cbn. ring. Qed.

(** Reindexing by a shift. *)
Lemma gsum_shift m n f : gsum (m + n) (fun i => if (m <=? i)%nat then f (i - m)%nat else 0) = gsum n f.
Proof.
  induction n as [|n IH].
  - rewrite Nat.add_0_r. apply gsum_0. intros i Hi. by rewrite (proj2 (Nat.leb_gt m i)).
  - rewrite Nat.add_succ_r. cbn. rewrite IH, (proj2 (Nat.leb_le m (m + n))) by lia.
    by replace (m + n - m)%nat with n by lia.
Qed.

Lemma gsum_single n k f : (k < n)%nat -> (forall i, (i < n)%nat -> i <> k -> f i = 0) -> gsum n f = f k.
Proof.
  intros Hk H. induction n as [|n IH]; [lia|]. cbn. destruct (Nat.eq_dec k n) as [->|Hne].
  - rewrite gsum_0; [ring|]. intros i Hi. apply H; lia.
  - rewrite IH, (H n); [ring|lia|lia|lia|]. intros i Hi. apply H. lia.
Qed.
End sums.

(** ** Power sums and the Vandermonde argument *)

(** [sum w * X^j] over weighted points. *)
Definition ps (l : list (gf * gf)) (j : nat) : gf := foldr (fun x acc => x.2 * x.1 ^ j + acc) 0 l.

(** Multiply each weight by a function of its point. *)
Definition reweight (h : gf -> gf) (l : list (gf * gf)) : list (gf * gf) := map (fun x => (x.1, x.2 * h x.1)) l.

Lemma ps_app a b j : ps (a ++ b) j = ps a j + ps b j.
Proof. induction a as [|x a IH]; cbn; [by rewrite gadd_0_l|]. fold (ps (a ++ b) j) (ps a j). rewrite IH. ring. Qed.

Lemma fst_reweight h l : map fst (reweight h l) = map fst l.
Proof. unfold reweight. rewrite map_map. by apply map_ext. Qed.

(** Linear combinations of shifted power sums. *)
Lemma ps_conv l (c : nat -> gf) n (s : nat -> nat) :
  gsum n (fun i => c i * ps l (s i)) = foldr (fun x acc => x.2 * gsum n (fun i => c i * x.1 ^ (s i)) + acc) 0 l.
Proof.
  induction l as [|x l IH]; cbn [ps foldr].
  - apply gsum_0. intros; ring.
  - rewrite <- IH, <- gsum_scale, <- gsum_add. apply gsum_ext. intros i Hi.
    change (foldr _ 0 l) with (ps l (s i)). ring.
Qed.

Lemma ps_ext l g h j : (forall x, In x (map fst l) -> g x = h x) -> ps (reweight g l) j = ps (reweight h l) j.
Proof.
  induction l as [|x l IH]; intros H; [done|]. cbn. f_equal; [by rewrite H by (by left)|].
  apply IH. intros y Hy. apply H. by right.
Qed.

(** [k] points with weights not all zero cannot have [k] consecutive vanishing
    power sums. *)
Lemma vandermonde l : List.NoDup (map fst l) -> (forall j, (j < length l)%nat -> ps l j = 0) ->
  Forall (fun x => x.2 = 0) l.
Proof.
  remember (length l) as n eqn:Hn. revert l Hn. induction n as [|n IH]; intros l Hn Hnd Hz.
  { destruct l; [constructor|discriminate]. }
  destruct l as [|[X w] l]; [discriminate|]. injection Hn as Hn. cbn [map fst] in Hnd.
  apply NoDup_cons_iff in Hnd as [Hx Hnd].
  assert (Hrest : Forall (fun x => x.2 = 0) (reweight (fun Y => Y + X) l)).
  { apply IH; [unfold reweight; by rewrite length_map|by rewrite fst_reweight|]. intros j Hj.
    pose proof (Hz j ltac:(lia)) as H0. pose proof (Hz (S j) ltac:(lia)) as H1. cbn [ps foldr fst snd] in H0, H1.
    fold (ps l j) in H0. fold (ps l (S j)) in H1.
    assert (E : ps (reweight (fun Y => Y + X) l) j = ps l (S j) + X * ps l j).
    { clear. induction l as [|[Y v] l IH]; cbn [reweight map ps foldr fst snd]; [ring|].
      fold (reweight (fun Y => Y + X) l) (ps (reweight (fun Y => Y + X) l) j) (ps l (S j)) (ps l j). rewrite IH. cbn. ring. }
    rewrite E. apply gadd_eq_0 in H0, H1. rewrite <- H1, <- H0. cbn.
    replace (w * (X * X ^ j) + X * (w * X ^ j)) with (w * X * X ^ j + w * X * X ^ j) by ring. apply gadd_self. }
  assert (Hl : Forall (fun x => x.2 = 0) l).
  { apply List.Forall_forall. intros [Y v] Hin. cbn. rewrite List.Forall_forall in Hrest.
    specialize (Hrest (Y, v * (Y + X)) ltac:(apply in_map_iff; exists (Y, v); done)). cbn in Hrest.
    apply gmul_eq_0 in Hrest as [->|E]; [done|exfalso]. apply gadd_eq_0 in E. subst Y.
    apply Hx. apply in_map_iff. by exists (X, v). }
  constructor; [|done]. cbn. pose proof (Hz 0%nat ltac:(lia)) as H0. cbn [ps foldr fst snd] in H0. fold (ps l 0) in H0.
  assert (E : ps l 0 = 0).
  { clear - Hl. induction Hl as [|[Y v] l Hv _ IH]; [done|].
    cbn [snd] in Hv. cbn [ps foldr fst snd]. fold (ps l 0). rewrite Hv, IH. ring. }
  rewrite E in H0. rewrite <- H0. cbn. ring.
Qed.

(** ** The root bound *)

(** Horner evaluation, highest coefficient first. *)
Definition heval (x : gf) (l : list gf) : gf := fold_left (fun s c => s * x + c) l 0.

Lemma heval_snoc x l c : heval x (l ++ [c]) = heval x l * x + c.
Proof. unfold heval. by rewrite fold_left_app. Qed.

(** Quotient by [x + a]: the values at [a] of the proper prefixes. *)
Fixpoint quotient (a : gf) (s : gf) (l : list gf) : list gf :=
  match l with [] => [] | c :: l => s :: quotient a (s * a + c) l end.

Lemma quotient_snoc a s l c :
  quotient a s (l ++ [c]) = quotient a s l ++ [fold_left (fun s c => s * a + c) l s].
Proof. revert s. induction l as [|d l IH]; intros s; [done|]. cbn. by rewrite IH. Qed.

Lemma heval_divide a x l : heval x l = (x + a) * heval x (quotient a 0 l) + heval a l.
Proof.
  induction l as [|c l IH] using rev_ind; [cbn; ring|].
  rewrite quotient_snoc, !heval_snoc. fold (heval a l). rewrite IH. set (q := heval x (quotient a 0 l)). set (h := heval a l).
  assert (E : x * h + a * h + h * a = x * h) by (replace (x * h + a * h + h * a) with (x * h + (a * h + a * h)) by ring; rewrite gadd_self; ring).
  transitivity ((x + a) * q * x + x * h + c); [ring|]. rewrite <- E. ring.
Qed.

Lemma quotient_zero a l : heval a l = 0 -> Forall (fun c => c = 0) (quotient a 0 l) -> Forall (fun c => c = 0) l.
Proof.
  induction l as [|c l IH] using rev_ind; intros He Hq; [constructor|].
  rewrite quotient_snoc in Hq. apply List.Forall_app in Hq as [Hq Hlast]. inversion Hlast as [|y ys Hl _ E]. subst y ys.
  fold (heval a l) in Hl. rewrite heval_snoc, Hl in He. apply List.Forall_app. split; [by apply IH|].
  constructor; [|constructor]. rewrite <- He. ring.
Qed.

Lemma length_quotient a s l : length (quotient a s l) = length l.
Proof. revert s. induction l as [|c l IH]; intros s; [done|]. cbn. by rewrite IH. Qed.

(** A polynomial with as many coefficients as distinct roots is zero. *)
Lemma root_bound Xs : forall l, List.NoDup Xs -> (length l <= length Xs)%nat ->
  (forall x, In x Xs -> heval x l = 0) -> Forall (fun c => c = 0) l.
Proof.
  induction Xs as [|a Xs IH]; intros l Hnd Hl Hz.
  { destruct l; [constructor|cbn in Hl; lia]. }
  apply NoDup_cons_iff in Hnd as [Ha Hnd]. apply (quotient_zero a); [apply Hz; by left|].
  destruct l as [|c l]; [constructor|]. cbn [quotient]. constructor; [done|].
  apply IH; [done|rewrite length_quotient; cbn in Hl; lia|]. intros x Hx.
  pose proof (heval_divide a x (c :: l)) as Hd.
  rewrite (Hz x ltac:(by right)), (Hz a ltac:(by left)), gadd_0_r in Hd.
  symmetry in Hd. apply gmul_eq_0 in Hd as [Hd|Hd].
  - apply gadd_eq_0 in Hd. subst x. contradiction.
  - unfold heval in *. cbn [quotient fold_left] in Hd. replace (0 * x + 0) with 0 in Hd by ring. exact Hd.
Qed.

(** ** Locator polynomials *)

(** Product with [1 + X x], and the product over a list of points. *)
Definition lin_mul (X : gf) (p : nat -> gf) : nat -> gf :=
  fun i => match i with O => p O | S k => p (S k) + X * p k end.
Definition one (i : nat) : gf := match i with O => 1 | _ => 0 end.
Definition loc (Xs : list gf) : nat -> gf := foldr lin_mul one Xs.

(** [prod (1 + X x)] and [prod (y + X)]. *)
Definition loc_at (Xs : list gf) (x : gf) : gf := foldr (fun X acc => (1 + X * x) * acc) 1 Xs.
Definition rev_at (Xs : list gf) (y : gf) : gf := foldr (fun X acc => (y + X) * acc) 1 Xs.

Lemma loc_0 Xs : loc Xs 0 = 1.
Proof. induction Xs as [|X Xs IH]; [done|]. exact IH. Qed.

Lemma loc_deg Xs i : (length Xs < i)%nat -> loc Xs i = 0.
Proof.
  revert i. induction Xs as [|X Xs IH]; intros i Hi; cbn in *; [by destruct i; [lia|]|].
  destruct i as [|i]; [lia|]. cbn. fold (loc Xs). rewrite !IH by lia. ring.
Qed.

Lemma lin_mul_ext X p q : (forall i, p i = q i) -> forall i, lin_mul X p i = lin_mul X q i.
Proof. intros H [|i]; cbn; by rewrite !H. Qed.

Lemma lin_mul_comm X Y p i : lin_mul X (lin_mul Y p) i = lin_mul Y (lin_mul X p) i.
Proof. destruct i as [|[|i]]; cbn; ring. Qed.

(** Locators do not depend on the order of their points. *)
Lemma loc_perm Xs Ys : Permutation Xs Ys -> forall i, loc Xs i = loc Ys i.
Proof.
  induction 1 as [|X Xs Ys _ IH|X Y Xs|Xs Ys Zs _ IH1 _ IH2]; intros i.
  - done.
  - by apply lin_mul_ext.
  - apply lin_mul_comm.
  - by rewrite IH1.
Qed.

Lemma lin_mul_eval X p n x : (forall i, (n <= i)%nat -> p i = 0) ->
  gsum (S n) (fun i => lin_mul X p i * x ^ i) = (1 + X * x) * gsum n (fun i => p i * x ^ i).
Proof.
  intros Hp. rewrite gsum_S_l. cbn [lin_mul gpow].
  rewrite (gsum_ext n _ (fun i => p (S i) * x ^ (S i) + X * x * (p i * x ^ i))) by (intros; cbn; ring).
  rewrite gsum_add, gsum_scale.
  assert (E : p O * 1 + gsum n (fun i => p (S i) * x ^ S i) = gsum n (fun i => p i * x ^ i)).
  { change (p O * 1) with (p O * x ^ 0). rewrite <- (gsum_S_l n (fun i => p i * x ^ i)).
    apply gsum_extend; [lia|]. intros i Hi. rewrite Hp by lia. ring. }
  rewrite gadd_assoc, E. ring.
Qed.

Lemma loc_eval Xs n x : (length Xs < n)%nat -> gsum n (fun i => loc Xs i * x ^ i) = loc_at Xs x.
Proof.
  intros Hn. rewrite (gsum_extend (S (length Xs))) by (lia || (intros i Hi; rewrite loc_deg by lia; ring)).
  clear n Hn. induction Xs as [|X Xs IH]; [cbn; ring|]. cbn [length loc_at foldr]. fold (loc_at Xs x). rewrite <- IH.
  apply (lin_mul_eval X (loc Xs)). intros i Hi. apply loc_deg. lia.
Qed.

Lemma rev_eval Xs y : gsum (S (length Xs)) (fun i => loc Xs i * y ^ (length Xs - i)) = rev_at Xs y.
Proof.
  induction Xs as [|X Xs IH]; [cbn; ring|]. cbn [length rev_at foldr]. fold (rev_at Xs y). rewrite <- IH.
  set (n := length Xs) in *. rewrite gsum_S_l. cbn [loc foldr lin_mul]. fold (loc Xs).
  rewrite (gsum_ext (S n) _ (fun i => loc Xs (S i) * y ^ (n - i) + X * (loc Xs i * y ^ (n - i)))).
  2:{ intros i Hi. cbn [Nat.sub]. ring. }
  rewrite gsum_add, gsum_scale.
  assert (E : loc Xs 0 * y ^ S n + gsum (S n) (fun i => loc Xs (S i) * y ^ (n - i)) =
    y * gsum (S n) (fun i => loc Xs i * y ^ (n - i))).
  { rewrite <- gsum_scale, (gsum_S_l n (fun i => y * _)). cbn [gsum]. rewrite (loc_deg Xs (S n)) by (unfold n; lia).
    rewrite gmul_0_l, gadd_0_r. rewrite Nat.sub_0_r. cbn [gpow].
    rewrite (gsum_ext n (fun i => y * (loc Xs (S i) * y ^ (n - S i))) (fun i => loc Xs (S i) * y ^ (n - i))); [ring|].
    intros i Hi. replace (n - i)%nat with (S (n - S i)) by lia. cbn. ring. }
  change (S n - 0)%nat with (S n). rewrite gadd_assoc, E. ring.
Qed.

(** The root test of a locator. *)
Lemma loc_at_zero Xs x : loc_at Xs x = 0 <-> exists X, In X Xs /\ X * x = 1.
Proof.
  induction Xs as [|X Xs IH]; cbn.
  - split; [intros H; by apply (f_equal gz) in H|by intros (X & [] & _)].
  - split.
    + intros H. apply gmul_eq_0 in H as [H|H].
      * exists X. split; [by left|]. by apply gadd_eq_0 in H.
      * apply IH in H as (Y & HY & E). exists Y. split; [by right|done].
    + intros (Y & [->|HY] & E).
      * rewrite E, gadd_self. ring.
      * fold (loc_at Xs x). rewrite (proj2 IH); [ring|]. by exists Y.
Qed.

Lemma rev_at_zero Xs y : rev_at Xs y = 0 <-> In y Xs.
Proof.
  induction Xs as [|X Xs IH]; cbn; [split; [intros H; by apply (f_equal gz) in H|done]|].
  fold (rev_at Xs y). split.
  - intros H. apply gmul_eq_0 in H as [H|H]; [left; symmetry; by apply gadd_eq_0|right; by apply IH].
  - intros [->|H]; [rewrite gadd_self; ring|]. rewrite (proj2 IH H). ring.
Qed.

Lemma loc_top Xs : Forall (fun X => X <> 0) Xs -> loc Xs (length Xs) <> 0.
Proof.
  induction 1 as [|X Xs HX _ IH]; cbn; [intros H; by apply (f_equal gz) in H|].
  fold (loc Xs). rewrite loc_deg, gadd_0_l by lia. by apply gmul_nonzero.
Qed.

(** *** Formal derivative *)

(** In characteristic 2 only odd powers contribute. *)
Definition deriv (p : nat -> gf) (n : nat) (x : gf) : gf :=
  gsum n (fun i => if Nat.odd i then p i * x ^ (i - 1) else 0).

Lemma lin_mul_deriv X p n x : (forall i, (n <= i)%nat -> p i = 0) ->
  deriv (lin_mul X p) (S n) x = X * gsum n (fun i => p i * x ^ i) + (1 + X * x) * deriv p n x.
Proof.
  intros Hp. unfold deriv. rewrite gsum_S_l. cbn [Nat.odd Nat.even negb].
  rewrite (gsum_ext n (fun i => if Nat.odd (S i) then lin_mul X p (S i) * x ^ (S i - 1) else 0)
    (fun i => (if Nat.odd (S i) then p (S i) * x ^ (S i - 1) else 0) + X * (if Nat.even i then p i * x ^ i else 0))).
  2:{ intros i Hi. rewrite Nat.odd_succ. cbn [lin_mul Nat.sub]. rewrite Nat.sub_0_r. destruct (Nat.even i); ring. }
  rewrite gsum_add, gsum_scale, gadd_assoc.
  set (f := fun i => if Nat.odd i then p i * x ^ (i - 1) else 0).
  change (0 + gsum n (fun i => if Nat.odd (S i) then p (S i) * x ^ (S i - 1) else 0)) with (f O + gsum n (fun i => f (S i))).
  rewrite <- (gsum_S_l n f), (gsum_extend n (S n) f); [|lia|].
  2:{ intros i Hi. unfold f. rewrite Hp by lia. destruct (Nat.odd i); ring. }
  rewrite (gsum_ext n (fun i => p i * x ^ i) (fun i => (if Nat.even i then p i * x ^ i else 0) + x * f i)).
  2:{ intros i Hi. unfold f. rewrite <- (Nat.negb_odd i). destruct (Nat.odd i) eqn:Eo; cbn [negb]; [|ring].
      destruct i as [|i]; [done|]. cbn [Nat.sub]. rewrite Nat.sub_0_r. cbn. ring. }
  rewrite gsum_add, gsum_scale. set (A := gsum n (fun i => if Nat.even i then p i * x ^ i else 0)). set (F := gsum n f).
  replace (X * (A + x * F) + (1 + X * x) * F) with (F + X * A + (X * x * F + X * x * F)) by ring.
  rewrite gadd_self. ring.
Qed.

(** At the reciprocal of one of its points, the derivative of a locator is that
    point times the product over the others. *)
Lemma loc_deriv X Xs x n : X * x = 1 -> (length Xs + 1 < n)%nat -> deriv (loc (X :: Xs)) n x = X * loc_at Xs x.
Proof.
  intros Hx Hn.
  assert (E : deriv (loc (X :: Xs)) n x = deriv (loc (X :: Xs)) (S (S (length Xs))) x).
  { unfold deriv. apply gsum_extend; [lia|]. intros i Hi. rewrite loc_deg by (cbn [length]; lia). destruct (Nat.odd i); ring. }
  rewrite E. cbn [loc foldr]. fold (loc Xs). rewrite lin_mul_deriv by (intros i Hi; apply loc_deg; lia).
  rewrite Hx, gadd_self, loc_eval by lia. ring.
Qed.

(** *** Convolution with sequences *)

Definition conv (p s : nat -> gf) (j : nat) : gf := gsum (S j) (fun i => p i * s (j - i)%nat).

(** [s j + X * s (j - 1)], with nothing before index 0. *)
Definition shiftop (X : gf) (s : nat -> gf) (j : nat) : gf :=
  match j with O => s O | S k => s (S k) + X * s k end.

Lemma conv_ext p q s t j : (forall i, (i <= j)%nat -> p i = q i) -> (forall i, (i <= j)%nat -> s i = t i) -> conv p s j = conv q t j.
Proof. intros Hp Hs. apply gsum_ext. intros i Hi. by rewrite Hp, Hs by lia. Qed.

Lemma conv_lin_mul X p s j : conv (lin_mul X p) s j = conv p (shiftop X s) j.
Proof.
  unfold conv. rewrite gsum_S_l. cbn [lin_mul]. rewrite Nat.sub_0_r.
  rewrite (gsum_ext j _ (fun i => p (S i) * s (j - S i)%nat + X * (p i * s (j - S i)%nat))) by (intros; ring).
  rewrite gsum_add, gsum_scale, gadd_assoc.
  set (f := fun i => p i * s (j - i)%nat).
  assert (Ef : p O * s j + gsum j (fun i => p (S i) * s (j - S i)%nat) = gsum (S j) f).
  { rewrite (gsum_S_l j f). unfold f. by rewrite Nat.sub_0_r. }
  rewrite Ef. cbn [gsum]. unfold f at 2. rewrite Nat.sub_diag. cbn [shiftop].
  rewrite (gsum_ext j (fun i => p i * shiftop X s (j - i)) (fun i => f i + X * (p i * s (j - S i)%nat))).
  2:{ intros i Hi. unfold f. replace (j - i)%nat with (S (j - S i)) by lia. cbn. ring. }
  rewrite gsum_add, gsum_scale. ring.
Qed.

Lemma conv_one s j : conv one s j = s j.
Proof.
  unfold conv. rewrite gsum_S_l, gsum_0 by (intros; cbn; ring). cbn. rewrite Nat.sub_0_r. ring.
Qed.

Lemma conv_delta p j : conv p one j = p j.
Proof.
  unfold conv. rewrite (gsum_single (S j) j); [rewrite Nat.sub_diag; cbn; ring|lia|].
  intros i Hi Hne. destruct (j - i)%nat eqn:E; [lia|]. cbn. ring.
Qed.

Lemma shiftop_geo X j : shiftop X (fun i => X ^ i) j = one j.
Proof. destruct j as [|j]; cbn; [done|]. apply gadd_self. Qed.

(** Dividing the geometric series of a point out of a locator. *)
Lemma conv_loc_geo X Xs j : conv (loc (X :: Xs)) (fun i => X ^ i) j = loc Xs j.
Proof.
  cbn [loc foldr]. fold (loc Xs). rewrite conv_lin_mul.
  rewrite (conv_ext _ (loc Xs) _ one) by (done || (intros; apply shiftop_geo)). apply conv_delta.
Qed.

Lemma conv_ps p l j : conv p (ps l) j = foldr (fun x acc => x.2 * conv p (fun i => x.1 ^ i) j + acc) 0 l.
Proof. unfold conv. apply ps_conv. Qed.

Lemma conv_loc_pow Xs Y j : (length Xs <= j)%nat ->
  conv (loc Xs) (fun i => Y ^ i) j = rev_at Xs Y * Y ^ (j - length Xs).
Proof.
  intros Hj. unfold conv. rewrite (gsum_extend (S (length Xs))) by
    (lia || (intros i Hi; rewrite loc_deg by lia; ring)).
  rewrite <- rev_eval, gmul_comm, <- gsum_scale. apply gsum_ext. intros i Hi.
  replace (j - i)%nat with (j - length Xs + (length Xs - i))%nat by lia. rewrite gpow_add. ring.
Qed.

(** A locator removes its own points from a power-sum sequence. *)
Lemma conv_loc_ps Xs l j : (length Xs <= j)%nat ->
  conv (loc Xs) (ps l) j = ps (reweight (rev_at Xs) l) (j - length Xs).
Proof.
  intros Hj. rewrite conv_ps. induction l as [|[Y w] l IH]; [done|].
  cbn [foldr reweight map ps fst snd]. fold (reweight (rev_at Xs) l) (ps (reweight (rev_at Xs) l) (j - length Xs)).
  rewrite IH, conv_loc_pow by done. ring.
Qed.

(** The remainder of a locator against the power sums of points all located:
    the evaluator polynomial. *)
Definition others (Y : gf) (Xs : list gf) : list gf := remove gf_eq_dec Y Xs.

Lemma others_perm Y Xs : List.NoDup Xs -> In Y Xs -> Permutation Xs (Y :: others Y Xs).
Proof.
  induction Xs as [|X Xs IH]; intros Hnd Hin; [done|]. apply NoDup_cons_iff in Hnd as [Hx Hnd]. cbn.
  destruct (gf_eq_dec Y X) as [->|Hne].
  - unfold others. by rewrite notin_remove.
  - destruct Hin as [->|Hin]; [done|]. rewrite (IH Hnd Hin) at 1. apply perm_swap.
Qed.

Lemma conv_loc_all Xs l j : List.NoDup Xs -> (forall x, In x (map fst l) -> In x Xs) ->
  conv (loc Xs) (ps l) j = foldr (fun x acc => x.2 * loc (others x.1 Xs) j + acc) 0 l.
Proof.
  intros Hnd Hin. rewrite conv_ps. induction l as [|[Y w] l IH]; [done|]. cbn [foldr fst snd].
  rewrite IH by (intros x Hx; apply Hin; by right). f_equal. f_equal.
  rewrite (conv_ext _ (loc (Y :: others Y Xs)) _ (fun i => Y ^ i)); [apply conv_loc_geo| |done].
  intros i _. apply loc_perm, others_perm; [done|]. apply Hin. by left.
Qed.

Lemma weighted_sum_zero (f : gf -> gf) l : (forall z, In z (map fst l) -> f z = 0) ->
  foldr (fun z acc => z.2 * f z.1 + acc) 0 l = 0.
Proof.
  induction l as [|[y u] l IH]; intros H; [done|]. cbn [foldr fst snd].
  rewrite IH by (intros z Hz; apply H; by right). rewrite (H y) by by left. ring.
Qed.

(** Evaluated at the reciprocal of a located point, only that point's own term
    survives. *)
Lemma evaluator_at Xs l Y w x n :
  List.NoDup Xs -> List.NoDup (map fst l) -> (forall z, In z (map fst l) -> In z Xs) ->
  In (Y, w) l -> Y * x = 1 -> (length Xs <= n)%nat ->
  gsum n (fun i => conv (loc Xs) (ps l) i * x ^ i) = w * loc_at (others Y Xs) x.
Proof.
  intros HX Hnd Hin Hw Hx Hn.
  assert (Hdeg : forall z, In z Xs -> (length (others z Xs) < n)%nat).
  { intros z Hz. pose proof (Permutation_length (others_perm z Xs HX Hz)). cbn in H. lia. }
  assert (Hz : forall z, In z Xs -> z <> Y -> loc_at (others z Xs) x = 0).
  { intros z Hz Hne. apply loc_at_zero. exists Y. split; [|done]. apply in_in_remove; [congruence|].
    apply Hin. by apply (in_map fst l (Y, w)). }
  rewrite (gsum_ext n _ (fun i => foldr (fun z acc => z.2 * loc (others z.1 Xs) i + acc) 0 l * x ^ i)).
  2:{ intros i _. by rewrite conv_loc_all. }
  assert (E : gsum n (fun i => foldr (fun z acc => z.2 * loc (others z.1 Xs) i + acc) 0 l * x ^ i) =
    foldr (fun z acc => z.2 * loc_at (others z.1 Xs) x + acc) 0 l).
  { clear Hw Hnd. induction l as [|[z v] l IH]; cbn [foldr fst snd]; [apply gsum_0; intros; ring|].
    rewrite <- IH by (intros y Hy; apply Hin; by right).
    rewrite <- (loc_eval (others z Xs) n x) by (apply Hdeg, Hin; by left).
    rewrite <- gsum_scale, <- gsum_add. apply gsum_ext. intros i _. ring. }
  rewrite E. clear E. induction l as [|[z v] l IH]; [done|]. cbn [foldr fst snd map] in *.
  apply NoDup_cons_iff in Hnd as [Hzl Hnd].
  destruct Hw as [[= -> ->]|Hw].
  - assert (E : foldr (fun z acc => z.2 * loc_at (others z.1 Xs) x + acc) 0 l = 0).
    { apply (weighted_sum_zero (fun z => loc_at (others z Xs) x)). intros z Hzin. apply Hz; [apply Hin; by right|]. by intros ->. }
    rewrite E. ring.
  - rewrite IH; [|done|intros q Hq; apply Hin; by right|done].
    rewrite Hz; [ring|apply Hin; by left|]. intros ->. apply Hzl. by apply (in_map fst l (Y, w)).
Qed.
