(* ===== verification/Recurrence.v ===== *)
(** Shortest linear recurrences over GF(256).

    What the Berlekamp-Massey loop of src/common/vdl2/rs_vdl2.c computes: a
    connection polynomial of least length for a finite sequence.  The two facts
    here are the exchange argument that makes a length change necessary, and
    that a shortest recurrence of the power sums of few points is their locator
    polynomial. *)

From S2P Require Import Prelude Gf256 Locators.

#[local] Open Scope gf_scope.

(** [p] is 1 at 0, has degree at most [L] and annihilates [T] on [L, n). *)
Record generates (p T : nat -> gf) (L n : nat) : Prop := Generates {
  gen_one : p O = 1;
  gen_deg : forall i, (L < i)%nat -> p i = 0;
  gen_rec : forall j, (L <= j < n)%nat -> conv p T j = 0 }.

(** ** Convolution *)

Lemma conv_square p s j m : (j < m)%nat ->
  conv p s j = gsum m (fun i => if (i <=? j)%nat then p i * s (j - i)%nat else 0).
Proof.
  intros Hj. rewrite (gsum_extend (S j) m) by (lia || (intros i Hi; by rewrite (proj2 (Nat.leb_gt _ _)) by lia)).
  apply gsum_ext. intros i Hi. by rewrite (proj2 (Nat.leb_le _ _)) by lia.
Qed.

Lemma conv_conv p q s j :
  conv p (conv q s) j = gsum (S j) (fun i => gsum (S j) (fun k =>
    if (i + k <=? j)%nat then p i * (q k * s (j - i - k)%nat) else 0)).
Proof.
  unfold conv at 1. apply gsum_ext. intros i Hi. rewrite (conv_square q s (j - i) (S j)) by lia.
  rewrite <- gsum_scale. apply gsum_ext. intros k Hk.
  destruct (Nat.leb_spec k (j - i)), (Nat.leb_spec (i + k) j); lia || ring.
Qed.

Lemma conv_swap p q s j : conv p (conv q s) j = conv q (conv p s) j.
Proof.
  rewrite !conv_conv, gsum_swap. apply gsum_ext. intros k Hk. apply gsum_ext. intros i Hi.
  rewrite (Nat.add_comm i k). destruct (k + i <=? j)%nat; [|done].
  replace (j - i - k)%nat with (j - k - i)%nat by lia. ring.
Qed.

Lemma conv_trunc p s L j : (forall i, (L < i)%nat -> p i = 0) -> (L <= j)%nat ->
  conv p s j = gsum (S L) (fun i => p i * s (j - i)%nat).
Proof. intros Hp Hj. apply gsum_extend; [lia|]. intros i Hi. rewrite Hp by lia. ring. Qed.

Lemma conv_head p s L j : p O = 1 -> (forall i, (L < i)%nat -> p i = 0) ->
  (forall k, (1 <= k <= L)%nat -> (k <= j)%nat -> s (j - k)%nat = 0) -> conv p s j = s j.
Proof.
  intros H1 Hdeg Hs. unfold conv. rewrite gsum_S_l, H1, Nat.sub_0_r, gsum_0; [ring|].
  intros k Hk. destruct (Nat.le_gt_cases (S k) L); [rewrite Hs by lia|rewrite Hdeg by lia]; ring.
Qed.

(** ** The exchange argument *)

(** A recurrence that also covers the next term, and is short enough, forces
    the discrepancy of another one to vanish. *)
Lemma short_recurrence p q T L e n :
  generates p T L n -> generates q T e (S n) -> (e + L <= n)%nat -> conv p T n = 0.
Proof.
  intros [Hp1 Hpd Hp] [Hq1 Hqd Hq] Hn.
  rewrite <- (conv_head q (conv p T) e n Hq1 Hqd) by (intros k Hk _; apply Hp; lia).
  rewrite conv_swap, (conv_trunc p _ L) by (done || lia).
  apply gsum_0. intros i Hi. rewrite Hq by lia. ring.
Qed.

Lemma generates_weaken p T L n n' : generates p T L n -> (n' <= n)%nat -> generates p T L n'.
Proof. intros [H1 Hd Hr] Hn. split; [done|done|]. intros j Hj. apply Hr. lia. Qed.

(** No recurrence of the first [n] terms is shorter than [L]. *)
Definition minimal (T : nat -> gf) (L n : nat) : Prop := forall q e, generates q T e n -> (L <= e)%nat.

Lemma minimal_same T L n : minimal T L n -> minimal T L (S n).
Proof. intros H q e Hq. apply (H q e). apply (generates_weaken _ _ _ _ _ Hq). lia. Qed.

Lemma minimal_jump p T L n : generates p T L n -> conv p T n <> 0 -> minimal T (n + 1 - L) (S n).
Proof.
  intros Hp Hd q e Hq. destruct (Nat.le_gt_cases (n + 1 - L) e); [done|exfalso].
  apply Hd, (short_recurrence p q T L e n Hp Hq). lia.
Qed.

(** ** The update *)

(** [p + c * x^m * q] *)
Definition adjust (p q : nat -> gf) (m : nat) (c : gf) (k : nat) : gf :=
  p k + (if (m <=? k)%nat then c * q (k - m)%nat else 0).

Lemma conv_adjust p q m c T j :
  conv (adjust p q m c) T j = conv p T j + (if (m <=? j)%nat then c * conv q T (j - m) else 0).
Proof.
  unfold conv, adjust.
  rewrite (gsum_ext (S j) _ (fun i => p i * T (j - i)%nat + (if (m <=? i)%nat then c * q (i - m)%nat else 0) * T (j - i)%nat))
    by (intros; ring).
  rewrite gsum_add. f_equal. destruct (Nat.leb_spec m j) as [Hm|Hm].
  - rewrite <- gsum_scale. replace (S j) with (m + S (j - m))%nat by lia.
    rewrite <- (gsum_shift m (S (j - m))). apply gsum_ext. intros i Hi.
    destruct (Nat.leb_spec m i); [|ring]. replace (j - m - (i - m))%nat with (j - i)%nat by lia. ring.
  - apply gsum_0. intros i Hi. rewrite (proj2 (Nat.leb_gt m i)) by lia. ring.
Qed.

(** The state of the Massey loop after [n] terms: the current recurrence, and
    either nothing has changed yet or the one before the last length change,
    with its discrepancy [b]. *)
Record massey (T : nat -> gf) (n : nat) (p q : nat -> gf) (L m : nat) (b : gf) : Prop := Massey {
  ms_gen : generates p T L n;
  ms_min : minimal T L n;
  ms_len : (L <= n)%nat;
  ms_b : b <> 0;
  ms_deg : forall k, (m + k > n + 1 - L)%nat -> q k = 0;
  ms_prev : (L = O /\ m = S n) \/
            ((1 <= m <= n)%nat /\ (m <= n + 1 - L)%nat /\ conv q T (n - m) = b /\
             forall j, (n + 1 - L - m <= j < n - m)%nat -> conv q T j = 0) }.

Lemma massey_init T : massey T 0 one one 0 1 1.
Proof.
  split.
  - split; [done|by intros [|i]; [lia|]|lia].
  - intros q e _. lia.
  - lia.
  - intros H. by apply (f_equal gz) in H.
  - intros [|k] Hk; [lia|done].
  - by left.
Qed.

Lemma massey_skip T n p q L m b : massey T n p q L m b -> conv p T n = 0 -> massey T (S n) p q L (S m) b.
Proof.
  intros [[H1 Hd Hr] Hmin Hlen Hb Hdeg Hprev] H0. split; try done.
  - split; [done|done|]. intros j Hj. destruct (Nat.eq_dec j n) as [->|]; [done|]. apply Hr. lia.
  - by apply minimal_same.
  - lia.
  - intros k Hk. apply Hdeg. lia.
  - destruct Hprev as [[-> ->]|(Hm & Hml & Hv & Hz)]; [by left|right].
    split; [lia|]. split; [lia|]. replace (S n - S m)%nat with (n - m)%nat by lia. split; [done|].
    intros j Hj. apply Hz. lia.
Qed.

(** The adjusted recurrence covers one more term. *)
Lemma massey_adjust T n p q L m b : massey T n p q L m b -> conv p T n <> 0 ->
  (2 * L <= n)%nat \/ (m <= n)%nat ->
  generates (adjust p q m (conv p T n * ginv b)) T (Nat.max L (n + 1 - L)) (S n).
Proof.
  intros [[H1 Hd Hr] Hmin Hlen Hb Hdeg Hprev] Hne Hcase. split.
  - unfold adjust. rewrite H1. destruct (Nat.leb_spec m 0); [|ring].
    destruct Hprev as [[_ ->]|[? _]]; lia.
  - intros i Hi. unfold adjust. rewrite Hd by lia. destruct (Nat.leb_spec m i); [|ring].
    rewrite Hdeg by lia. ring.
  - intros j Hj. rewrite conv_adjust.
    destruct Hprev as [[-> ->]|(Hm & Hml & Hv & Hz)]; [lia|].
    rewrite (proj2 (Nat.leb_le m j)) by lia.
    destruct (Nat.eq_dec j n) as [->|Hjn].
    + rewrite Hv. transitivity (conv p T n + conv p T n * (ginv b * b)); [ring|].
      rewrite ginv_l by done. rewrite (gmul_comm _ 1), gmul_1_l. apply gadd_self.
    + rewrite Hr, Hz by lia. ring.
Qed.

Lemma massey_change T n p q L m b : massey T n p q L m b -> conv p T n <> 0 -> (2 * L <= n)%nat ->
  massey T (S n) (adjust p q m (conv p T n * ginv b)) p (n + 1 - L) 1 (conv p T n).
Proof.
  intros H Hne HL. pose proof (massey_adjust _ _ _ _ _ _ _ H Hne (or_introl HL)) as Hg.
  destruct H as [Hp Hmin Hlen Hb Hdeg Hprev].
  replace (Nat.max L (n + 1 - L)) with (n + 1 - L)%nat in Hg by lia. split; try done.
  - by apply (minimal_jump p).
  - lia.
  - intros k Hk. apply (gen_deg _ _ _ _ Hp). lia.
  - right. split; [lia|]. split; [lia|]. replace (S n - 1)%nat with n by lia. split; [done|].
    intros j Hj. apply (gen_rec _ _ _ _ Hp). lia.
Qed.

Lemma massey_keep T n p q L m b : massey T n p q L m b -> conv p T n <> 0 -> (n < 2 * L)%nat ->
  massey T (S n) (adjust p q m (conv p T n * ginv b)) q L (S m) b.
Proof.
  intros H Hne HL.
  assert (Hm : (m <= n)%nat) by (destruct (ms_prev _ _ _ _ _ _ _ H) as [[-> _]|[? _]]; lia).
  pose proof (massey_adjust _ _ _ _ _ _ _ H Hne (or_intror Hm)) as Hg.
  destruct H as [Hp Hmin Hlen Hb Hdeg Hprev].
  replace (Nat.max L (n + 1 - L)) with L in Hg by lia. split; try done.
  - by apply minimal_same.
  - lia.
  - intros k Hk. apply Hdeg. lia.
  - destruct Hprev as [[-> _]|(Hm' & Hml & Hv & Hz)]; [lia|right].
    split; [lia|]. split; [lia|]. replace (S n - S m)%nat with (n - m)%nat by lia. split; [done|].
    intros j Hj. apply Hz. lia.
Qed.

(** ** Recurrences of power sums *)

Lemma loc_generates Xs l n : incl (map fst l) Xs -> generates (loc Xs) (ps l) (length Xs) n.
Proof.
  intros Hin. split; [apply loc_0|apply loc_deg|]. intros j [Hj _]. rewrite conv_loc_ps by done.
  rewrite (ps_ext _ _ (fun _ => 0)) by (intros x Hx; apply rev_at_zero; by apply Hin).
  induction l as [|x l IH]; [done|]. cbn [reweight map ps foldr fst snd].
  fold (reweight (fun _ => 0) l) (ps (reweight (fun _ => 0) l) (j - length Xs)).
  rewrite IH by (intros y Hy; apply Hin; by right). ring.
Qed.

(** Reversed evaluation of a recurrence at a located point. *)
Lemma conv_pow p L e X j : (forall i, (L < i)%nat -> p i = 0) -> (L <= e)%nat ->
  conv p (fun i => X ^ i) (e + j) = X ^ j * gsum (S e) (fun i => p i * X ^ (e - i)).
Proof.
  intros Hd HL. rewrite (conv_trunc p _ e) by (lia || (intros i Hi; apply Hd; lia)).
  rewrite <- gsum_scale. apply gsum_ext. intros i Hi.
  replace (e + j - i)%nat with (j + (e - i))%nat by lia. rewrite gpow_add. ring.
Qed.

Lemma heval_gsum x n (f : nat -> gf) : heval x (map f (seq 0 n)) = gsum n (fun i => f i * x ^ (n - 1 - i)).
Proof.
  induction n as [|n IH]; [done|]. rewrite seq_S, map_app. cbn [map]. rewrite heval_snoc, IH. cbn [gsum].
  replace (S n - 1 - (0 + n))%nat with O by lia. cbn [Nat.add].
  replace (S n - 1 - n)%nat with O by lia. rewrite gmul_comm, <- gsum_scale. cbn [gpow].
  rewrite (gsum_ext n (fun i => x * (f i * x ^ (n - 1 - i))) (fun i => f i * x ^ (S n - 1 - i))); [ring|].
  intros i Hi. replace (S n - 1 - i)%nat with (S (n - 1 - i)) by lia. cbn. ring.
Qed.

(** A shortest recurrence of at least twice as many terms as points is the
    locator of the points. *)
Lemma shortest_is_locator p l L n :
  List.NoDup (map fst l) -> Forall (fun X => X <> 0) (map fst l) -> Forall (fun x => x.2 <> 0) l ->
  (2 * length l <= n)%nat -> generates p (ps l) L n -> minimal (ps l) L n ->
  L = length l /\ forall i, p i = loc (map fst l) i.
Proof.
  intros Hnd Hnz Hw Hn [H1 Hd Hr] Hmin. set (e := length l) in *. set (Xs := map fst l) in *.
  assert (HXe : length Xs = e) by apply length_map.
  assert (HL : (L <= e)%nat).
  { apply (Hmin (loc Xs)). rewrite <- HXe. apply loc_generates. intros x Hx. exact Hx. }
  assert (Hroot : forall X, In X Xs -> gsum (S e) (fun i => p i * X ^ (e - i)) = 0).
  { pose proof (vandermonde (reweight (fun X => gsum (S e) (fun i => p i * X ^ (e - i))) l)) as Hv.
    rewrite fst_reweight in Hv. unfold reweight in Hv at 1. rewrite length_map in Hv.
    specialize (Hv Hnd). intros X HX. apply in_map_iff in HX as ([Y w] & <- & Hin). cbn [fst].
    assert (Hz : Forall (fun x => x.2 = 0) (reweight (fun X => gsum (S e) (fun i => p i * X ^ (e - i))) l)).
    { apply Hv. intros j Hj. rewrite <- (Hr (e + j)%nat) by (unfold e in *; lia). rewrite conv_ps.
      clear Hv Hin. unfold e, Xs in *. clear Hmin. generalize (length l) as e', HL. clear - Hd. intros e' HL.
      induction l as [|[Z v] l IH]; [done|]. cbn [reweight map ps foldr fst snd]. rewrite (conv_pow p L) by done.
      fold (reweight (fun X => gsum (S e') (fun i => p i * X ^ (e' - i))) l).
      rewrite <- IH. unfold ps. ring. }
    rewrite List.Forall_forall in Hz, Hw.
    specialize (Hz (Y, w * gsum (S e) (fun i => p i * Y ^ (e - i)))).
    cbn [snd] in Hz. destruct (gmul_eq_0 w (gsum (S e) (fun i => p i * Y ^ (e - i)))) as [Hw0|]; [|exfalso; by apply (Hw _ Hin)|done].
    apply Hz. apply in_map_iff. by exists (Y, w). }
  assert (Hmu : forall i, (1 <= i <= e)%nat -> p i = loc Xs i).
  { pose proof (root_bound Xs (map (fun i => p (S i) + loc Xs (S i)) (seq 0 e)) Hnd) as Hb.
    rewrite length_map, length_seq in Hb. specialize (Hb ltac:(lia)).
    intros i Hi. apply gadd_eq_0. rewrite List.Forall_forall in Hb. apply Hb.
    - intros X HX. rewrite heval_gsum.
      assert (E : gsum (S e) (fun i => (p i + loc Xs i) * X ^ (e - i)) = 0).
      { rewrite (gsum_ext (S e) _ (fun i => p i * X ^ (e - i) + loc Xs i * X ^ (e - i))) by (intros; ring).
        rewrite gsum_add, Hroot by done. rewrite <- HXe, rev_eval, (proj2 (rev_at_zero Xs X)) by done. ring. }
      rewrite gsum_S_l, H1, loc_0, gadd_self in E. rewrite <- E.
      rewrite (gsum_ext e (fun i => (p (S i) + loc Xs (S i)) * X ^ (e - 1 - i)) (fun i => (p (S i) + loc Xs (S i)) * X ^ (e - S i))); [ring|].
      intros k Hk. by replace (e - 1 - k)%nat with (e - S k)%nat by lia.
    - apply in_map_iff. exists (i - 1)%nat. replace (S (i - 1)) with i by lia. split; [done|]. apply in_seq. lia. }
  assert (HLe : L = e).
  { destruct (Nat.eq_dec L e); [done|exfalso]. apply (loc_top Xs Hnz). rewrite HXe, <- Hmu by lia. apply Hd. lia. }
  split; [done|]. intros i. destruct i as [|i]; [by rewrite H1, loc_0|].
  destruct (Nat.le_gt_cases (S i) e); [apply Hmu; lia|]. rewrite Hd, loc_deg by lia. done.
Qed.

(** Locators multiply. *)
Lemma loc_app Xs Ys j : conv (loc Xs) (loc Ys) j = loc (Xs ++ Ys) j.
Proof.
  revert Ys j. induction Xs as [|X Xs IH]; intros Ys j; [apply conv_one|].
  cbn [loc foldr]. fold (loc Xs). rewrite conv_lin_mul.
  rewrite (conv_ext _ (loc Xs) _ (loc (X :: Ys))) by (done || (intros [|k] _; done)).
  rewrite IH. apply (loc_perm _ (X :: Xs ++ Ys)). symmetry. apply Permutation_middle.
Qed.

(** Multiplication by a linear factor commutes with convolution. *)
Lemma conv_shiftop X p s j : conv p (shiftop X s) j = shiftop X (conv p s) j.
Proof.
  assert (E : forall t k, shiftop X t k = conv (lin_mul X one) t k) by (intros t k; by rewrite conv_lin_mul, conv_one).
  rewrite E, <- conv_swap. apply conv_ext; [done|]. intros i _. apply E.
Qed.

(** A product with a locator vanishes at the reciprocals of its points. *)
Lemma conv_loc_root p Xs L n X x : (forall i, (L < i)%nat -> p i = 0) -> (L + length Xs < n)%nat ->
  In X Xs -> X * x = 1 -> gsum n (fun i => conv p (loc Xs) i * x ^ i) = 0.
Proof.
  intros Hd Hn Hin Hx. apply in_split in Hin as (A & B & ->). rewrite length_app in Hn. cbn [length] in Hn.
  rewrite (gsum_ext n _ (fun i => lin_mul X (conv p (loc (A ++ B))) i * x ^ i)).
  2:{ intros i _. f_equal. rewrite (conv_ext _ p _ (shiftop X (loc (A ++ B)))); [apply conv_shiftop|done|].
      intros k _. apply (loc_perm _ (X :: A ++ B)). symmetry. apply Permutation_middle. }
  destruct n as [|n]; [lia|]. rewrite lin_mul_eval.
  - rewrite Hx, gadd_self. ring.
  - intros i Hi. unfold conv. apply gsum_0. intros k Hk.
    destruct (Nat.le_gt_cases k L); [rewrite loc_deg by (rewrite length_app; lia)|rewrite Hd by lia]; ring.
Qed.

(** ** Extensionality *)

Lemma generates_ext p p' T T' L n : (forall i, p i = p' i) -> (forall j, (j < n)%nat -> T j = T' j) ->
  generates p T L n -> generates p' T' L n.
Proof.
  intros Hp HT [H1 Hd Hr]. split; [by rewrite <- Hp|intros i Hi; rewrite <- Hp; by apply Hd|].
  intros j Hj. rewrite <- (Hr j Hj). apply conv_ext; intros i Hi; [done|symmetry; apply HT; lia].
Qed.

Lemma minimal_ext T T' L n : (forall j, (j < n)%nat -> T j = T' j) -> minimal T L n -> minimal T' L n.
Proof.
  intros HT H q e Hq. apply (H q e). apply (generates_ext q q T' T); [done| |done].
  intros j Hj. symmetry. by apply HT.
Qed.

Lemma massey_ext T n p p' q L m b : (forall i, p i = p' i) -> massey T n p q L m b -> massey T n p' q L m b.
Proof. intros Hp [Hg Hmin Hlen Hb Hdeg Hprev]. split; try done. by apply (generates_ext p p' T T). Qed.
