(* ===== verification/RsVdl2.v ===== *)
(** The Reed-Solomon RS(255,249) codec of VDL Mode 2
    (src/common/vdl2/rs_vdl2.c): encoder, syndromes, Berlekamp-Massey, Chien
    search, Forney, errors-and-erasures decoding, and the shortened blocks of
    the link.

    Octets are [Z]; the block is a list of 255 of them, [block[0]] the
    coefficient of the highest power. *)

From S2P Require Import Prelude Gf256.

Definition GF_FCR : Z := 120.
Definition RS_VDL2_N : nat := 255.
Definition RS_VDL2_K : nat := 249.
Definition RS_VDL2_NROOTS : nat := 6.

(** The generator polynomial as the last loop of [rs_init] builds it,
    multiplying in one root at a time. *)
Definition build_gpoly : list Z :=
  forN RS_VDL2_NROOTS (fun i g =>
    let root := gexp (GF_FCR + Z.of_nat i) in
    let times c := if c =? 0 then 0 else gexp (glog c + glog root) in
    let g := fold_left (fun g j => <[j := Z.lxor (rd g (j - 1)) (times (rd g j))]> g) (rev (seq 1 (i + 1))) g in
    <[0%nat := times (rd g 0)]> g) [1; 0; 0; 0; 0; 0; 0].
Definition gpoly : list Z := Eval vm_compute in build_gpoly.

Lemma gpoly_built : build_gpoly = gpoly.
Proof. vm_compute. reflexivity. Qed.

(** ** Encoder *)

(** One data octet through the division register. *)
Definition encode_step (par : list Z) (x : Z) : list Z :=
  let fb := Z.lxor x (rd par 0) in
  map (fun j => Z.lxor (rd par (j + 1)) (gf_mul fb (rd gpoly (RS_VDL2_NROOTS - 1 - j)))) (seq 0 (RS_VDL2_NROOTS - 1))
  ++ [gf_mul fb (rd gpoly 0)].

Definition rs_vdl2_encode (block : list Z) : list Z :=
  blit block RS_VDL2_K (fold_left encode_step (take RS_VDL2_K block) (replicate RS_VDL2_NROOTS 0)).

(** ** Syndromes *)

(** Horner evaluation at the root of log [log_root], from the highest power. *)
Definition horner_step (log_root : Z) (s x : Z) : Z :=
  Z.lxor (if s =? 0 then s else gexp (glog s + log_root)) x.

(** [while (log_root >= 255) log_root -= 255] is a remainder. *)
Definition rs_syndromes (block : list Z) : bool * list Z :=
  let syn := map (fun i => fold_left (horner_step ((GF_FCR + Z.of_nat i) mod 255)) block 0) (seq 0 RS_VDL2_NROOTS) in
  (existsb (fun s => negb (s =? 0)) syn, syn).

(** ** Berlekamp-Massey *)

(** [acc ^= f(i)] for the listed [i]. *)
Definition xor_sum (f : nat -> Z) (l : list nat) (acc : Z) : Z := fold_left (fun acc i => Z.lxor acc (f i)) l acc.

Record bm_state := BmState { bm_lambda : list Z; bm_prev : list Z; bm_L : nat; bm_m : nat; bm_b : Z }.

(** [for (i = 0; i + m <= NROOTS; i++) lambda[i + m] ^= coef * prev[i]] *)
Definition add_shifted (lambda prev : list Z) (m : nat) (coef : Z) : list Z :=
  map (fun k => if (m <=? k)%nat then Z.lxor (rd lambda k) (gf_mul coef (rd prev (k - m))) else rd lambda k)
    (seq 0 (RS_VDL2_NROOTS + 1)).

Definition bm_discrepancy (syn lambda : list Z) (L n : nat) : Z :=
  xor_sum (fun i => gf_mul (rd lambda i) (rd syn (n - i))) (seq 1 L) (rd syn n).

Definition bm_step (syn : list Z) (n : nat) (st : bm_state) : bm_state :=
  let '(BmState lambda prev L m b) := st in
  let d := bm_discrepancy syn lambda L n in
  if d =? 0 then BmState lambda prev L (m + 1) b
  else
    let coef := gexp (glog d + 255 - glog b) in
    if (2 * L <=? n)%nat then BmState (add_shifted lambda prev m coef) lambda (n + 1 - L) 1 d
    else BmState (add_shifted lambda prev m coef) prev L (m + 1) b.

Definition one_poly : list Z := 1 :: replicate RS_VDL2_NROOTS 0.

(** Locator and its degree. *)
Definition berlekamp_massey (syn : list Z) (ns : nat) : nat * list Z :=
  let st := forN ns (bm_step syn) (BmState one_poly one_poly 0 1 1) in (bm_L st, bm_lambda st).

(** ** Chien search and Forney *)

(** [c * alpha^(e)] for a coefficient [c], skipped when zero. *)
Definition term (c e : Z) : Z := if c =? 0 then 0 else gexp ((glog c + e) mod 255).

Definition chien_value (psi : list Z) (dpsi : nat) (q : nat) : Z :=
  xor_sum (fun i => term (rd psi i) (Z.of_nat i * Z.of_nat q)) (seq 1 dpsi) (rd psi 0).

Definition chien_roots (psi : list Z) (dpsi : nat) : list nat :=
  List.filter (fun q => chien_value psi dpsi q =? 0) (seq 0 255).

(** [p = (255 - q) % 255] *)
Definition root_pow (q : nat) : nat := ((255 - q) mod 255)%nat.

Definition forney_omega (psi : list Z) (dpsi : nat) (syn : list Z) : list Z :=
  map (fun i => xor_sum (fun j => gf_mul (rd psi j) (rd syn (i - j))) (seq 0 (Nat.min i dpsi + 1)) 0)
    (seq 0 RS_VDL2_NROOTS).

Definition forney_num (omega : list Z) (q : nat) : Z :=
  xor_sum (fun i => term (rd omega i) (Z.of_nat i * Z.of_nat q)) (seq 0 RS_VDL2_NROOTS) 0.

(** The odd powers 1, 3, 5 up to [dpsi]. *)
Definition odd_upto (dpsi : nat) : list nat := List.filter Nat.odd (seq 1 dpsi).

Definition forney_den (psi : list Z) (dpsi : nat) (q : nat) : Z :=
  xor_sum (fun i => term (rd psi i) ((Z.of_nat i - 1) * Z.of_nat q)) (odd_upto dpsi) 0.

(** The correction loop: [None] is the return of -1 on a vanished derivative
    (the block is then partly modified and unspecified). *)
Fixpoint forney_loop (psi : list Z) (dpsi : nat) (omega : list Z) (roots : list nat) (block : list Z) (changed : Z)
  : option (list Z * Z) :=
  match roots with
  | [] => Some (block, changed)
  | q :: roots =>
    let p := root_pow q in
    let num := forney_num omega q in
    let den := forney_den psi dpsi q in
    if den =? 0 then None
    else if num =? 0 then forney_loop psi dpsi omega roots block changed
    else
      let e_log := glog num + 255 - glog den + (Z.of_nat p * (255 + 1 - GF_FCR)) mod 255 in
      let pos := (RS_VDL2_N - 1 - p)%nat in
      forney_loop psi dpsi omega roots (<[pos := Z.lxor (rd block pos) (gexp (e_log mod 255))]> block) (changed + 1)
  end.

(** A decoder's result: [None] is -1 (contents of the block unspecified). *)
Definition apply_errata (block syn psi : list Z) (dpsi : nat) : option (list Z * Z) :=
  let roots := chien_roots psi dpsi in
  if (RS_VDL2_NROOTS <? length roots)%nat then None
  else if negb (length roots =? dpsi)%nat then None
  else
    match forney_loop psi dpsi (forney_omega psi dpsi syn) roots block 0 with
    | None => None
    | Some (block, changed) => if (rs_syndromes block).1 then None else Some (block, changed)
    end.

(** ** Errors and erasures *)

(** [for (i = e + 1; i > 0; i--) gamma[i] ^= x * gamma[i - 1]] *)
Definition gamma_step (gamma : list Z) (e : nat) (x : Z) : list Z :=
  map (fun i => if (1 <=? i)%nat && (i <=? e + 1)%nat
                then Z.lxor (rd gamma i) (gf_mul x (rd gamma (i - 1))) else rd gamma i) (seq 0 (RS_VDL2_NROOTS + 1)).

(** The erasure locator; [None] on a position outside the block. *)
Fixpoint erasure_locator (pos : list Z) (e : nat) (gamma : list Z) : option (list Z) :=
  match pos with
  | [] => Some gamma
  | p :: pos =>
    if (p <? 0) || (Z.of_nat RS_VDL2_N <=? p) then None
    else erasure_locator pos (e + 1) (gamma_step gamma e (gexp (Z.of_nat RS_VDL2_N - 1 - p)))
  end.

(** Coefficients of [gamma * syn] modulo x^6. *)
Definition modified_syndromes (gamma syn : list Z) (f : nat) : list Z :=
  map (fun i => xor_sum (fun a => gf_mul (rd gamma a) (rd syn (i - a))) (seq 0 (Nat.min i f + 1)) 0)
    (seq 0 RS_VDL2_NROOTS).

(** [psi[a + b] ^= lambda[a] * gamma[b]], zero coefficients skipped. *)
Definition locator_product (lambda gamma : list Z) (L f : nat) : list Z :=
  fold_left (fun psi a =>
    if rd lambda a =? 0 then psi
    else fold_left (fun psi b =>
      if rd gamma b =? 0 then psi
      else <[(a + b)%nat := Z.lxor (rd psi (a + b)) (gf_mul (rd lambda a) (rd gamma b))]> psi)
      (seq 0 (f + 1)) psi)
    (seq 0 (L + 1)) (replicate (RS_VDL2_NROOTS + 1) 0).

(** The first [n_erasures] entries of [erasure_pos] are the erasures.  The
    result is the corrected block and [*n_corrected]. *)
Definition rs_vdl2_decode_erasures (block erasure_pos : list Z) (n_erasures : Z) : option (list Z * Z) :=
  if (n_erasures <? 0) || (Z.of_nat RS_VDL2_NROOTS <? n_erasures) then None
  else
    let '(nonzero, syn) := rs_syndromes block in
    if negb nonzero then Some (block, 0)
    else
      let f := Z.to_nat n_erasures in
      match erasure_locator (take f erasure_pos) 0 one_poly with
      | None => None
      | Some gamma =>
        let u := modified_syndromes gamma syn f in
        let ns := (RS_VDL2_NROOTS - f)%nat in
        let '(L, lambda) := berlekamp_massey (map (fun k => rd u (f + k)) (seq 0 ns)) ns in
        if (RS_VDL2_NROOTS <? 2 * L + f)%nat then None
        else apply_errata block syn (locator_product lambda gamma L f) (L + f)
      end.

Definition rs_vdl2_decode (block : list Z) : option (list Z * Z) := rs_vdl2_decode_erasures block [] 0.

(** ** Shortened blocks *)

Definition short_fec_octetcount (data_len : Z) : Z :=
  if data_len <? 3 then 0 else if data_len <? 31 then 2 else if data_len <? 68 then 4 else Z.of_nat RS_VDL2_NROOTS.

(** The confidence positions that pass the confinement and duplicate tests,
    appended to the structural ones. *)
Fixpoint confined (data_len struct_lo : Z) (seen conf erasures : list Z) : option (list Z) :=
  match conf with
  | [] => Some erasures
  | p :: conf =>
    if negb ((0 <=? p) && (p <? data_len)) && negb ((Z.of_nat RS_VDL2_K <=? p) && (p <? struct_lo)) then None
    else if existsb (fun x => x =? p) seen then None
    else confined data_len struct_lo (seen ++ [p]) conf (erasures ++ [u8 p])
  end.

Definition rs_vdl2_decode_shortened_erasures (block : list Z) (data_len : Z) (conf_erasure_pos : list Z)
    (n_conf_erasures : Z) : option (list Z * Z) :=
  if n_conf_erasures <? 0 then None
  else
    let fec := short_fec_octetcount data_len in
    if fec =? 0 then (if n_conf_erasures =? 0 then Some (block, 0) else None)
    else
      let f_structural := Z.of_nat RS_VDL2_NROOTS - fec in
      if Z.of_nat RS_VDL2_NROOTS <? f_structural + n_conf_erasures then None
      else
        let struct_lo := Z.of_nat RS_VDL2_K + fec in
        let structural := map (fun i => struct_lo + Z.of_nat i) (seq 0 (Z.to_nat f_structural)) in
        match confined data_len struct_lo [] (take (Z.to_nat n_conf_erasures) conf_erasure_pos) structural with
        | None => None
        | Some erasures => rs_vdl2_decode_erasures block erasures (Z.of_nat (length erasures))
        end.

Definition rs_vdl2_decode_shortened (block : list Z) (data_len : Z) : option (list Z * Z) :=
  rs_vdl2_decode_shortened_erasures block data_len [] 0.
