(* ===== verification/RsDecode.v ===== *)
(** Correctness of the Reed-Solomon codec of src/common/vdl2/rs_vdl2.c.

    [zg] carries the octet computations of [RsVdl2] to the field, where the
    theory of [Locators] and [Recurrence] applies.  The encoder makes
    codewords; the errors-and-erasures decoder accepts exactly the blocks within
    the correction budget of a codeword and returns that codeword. *)

From S2P Require Import Prelude Gf256 Locators Recurrence RsVdl2.

#[local] Open Scope gf_scope.

(** ** From octets to field elements *)

Lemma zg_lxor a b : zg (Z.lxor a b) = zg a + zg b.
Proof. apply gz_inj. rewrite gz_add. cbn. apply lxor_mod_pow2. lia. Qed.

Lemma zg_mul a b : is_byte a -> is_byte b -> zg (gf_mul a b) = zg a * zg b.
Proof. intros Ha Hb. apply gz_inj. rewrite gz_mul, !gz_zg by (done || apply gf_mul_byte). done. Qed.

Lemma zg_0_iff a : is_byte a -> zg a = 0 <-> a = 0%Z.
Proof.
  intros Ha. split; [|by intros ->]. intros H. apply (f_equal gz) in H. by rewrite gz_zg in H.
Qed.

Lemma zg_eq a b : is_byte a -> is_byte b -> zg a = zg b -> a = b.
Proof. intros Ha Hb H. apply (f_equal gz) in H. by rewrite !gz_zg in H. Qed.

Lemma lxor_byte a b : is_byte a -> is_byte b -> is_byte (Z.lxor a b).
Proof. by apply is_u_lxor. Qed.

#[local] Hint Resolve rd_byte lxor_byte gf_mul_byte gexp_byte : core.

(** The coefficients of an octet array. *)
Definition G (l : list Z) (i : nat) : gf := zg (rd l i).

(** The primitive element. *)
Definition alpha : gf := zg 2.

Lemma zg_gexp i : (0 <= i < 510)%Z -> zg (gexp i) = alpha ^ (Z.to_nat i).
Proof.
  intros Hi. assert (H : forall n, (n < 510)%nat -> zg (gexp (Z.of_nat n)) = alpha ^ n).
  { induction n as [|n IH]; intros Hn; [by apply gz_inj|]. cbn [gpow]. rewrite <- IH by lia.
    unfold alpha. rewrite <- zg_mul by (done || auto). f_equal.
    pose proof (forall_below_eqb (fun n => gexp (Z.of_nat (S n))) (fun n => gf_mul 2 (gexp (Z.of_nat n))) 509
      ltac:(vm_compute; reflexivity) n ltac:(lia)) as H. exact H. }
  rewrite <- H by lia. by rewrite Z2Nat.id by lia.
Qed.

Lemma alpha_255 : alpha ^ 255 = 1.
Proof. transitivity (zg (gexp 255)); [symmetry; apply (zg_gexp 255); lia|by apply gz_inj]. Qed.

Lemma alpha_mod n : alpha ^ (n mod 255) = alpha ^ n.
Proof.
  rewrite (Nat.div_mod_eq n 255) at 2. rewrite gpow_add, (Nat.mul_comm 255), (Nat.mul_comm _ 255), gpow_mul, alpha_255, gpow_1. ring.
Qed.

Lemma alpha_nonzero n : alpha ^ n <> 0.
Proof. apply gpow_nonzero. intros H. by apply (f_equal gz) in H. Qed.

Lemma alpha_inj m n : (m < 255)%nat -> (n < 255)%nat -> alpha ^ m = alpha ^ n -> m = n.
Proof.
  intros Hm Hn H. pose proof (zg_gexp (Z.of_nat m) ltac:(lia)) as Em. pose proof (zg_gexp (Z.of_nat n) ltac:(lia)) as En.
  rewrite Nat2Z.id in Em, En. rewrite <- Em, <- En in H. apply zg_eq in H; [|auto|auto].
  apply (f_equal glog) in H. rewrite !glog_gexp in H by lia. lia.
Qed.

Lemma zg_glog c : is_byte c -> c <> 0%Z -> zg c = alpha ^ (Z.to_nat (glog c)).
Proof. intros Hc Hne. pose proof (glog_range c). rewrite <- zg_gexp, gexp_glog by (done || lia). done. Qed.

(** [acc ^= f(i)] is a sum. *)
Lemma zg_xor_sum f a n acc : zg (xor_sum f (seq a n) acc) = zg acc + gsum n (fun i => zg (f (a + i)%nat)).
Proof.
  unfold xor_sum. induction n as [|n IH]; [symmetry; apply gadd_0_r|]. rewrite seq_S, fold_left_app. cbn [fold_left gsum].
  rewrite zg_lxor, IH. symmetry. apply gadd_assoc.
Qed.

Lemma xor_sum_byte f l acc : is_byte acc -> (forall i, is_byte (f i)) -> is_byte (xor_sum f l acc).
Proof.
  intros Ha Hf. unfold xor_sum. revert acc Ha. induction l as [|i l IH]; intros acc Ha; [done|]. cbn. apply IH. auto.
Qed.

Lemma term_byte c e : is_byte (term c e).
Proof. unfold term. case_match; [unfold is_u; lia|auto]. Qed.

Lemma zg_term c e : is_byte c -> (0 <= e)%Z -> zg (term c e) = zg c * alpha ^ (Z.to_nat e).
Proof.
  intros Hc He. unfold term. destruct (Z.eqb_spec c 0) as [->|Hne]; [symmetry; apply gmul_0_l|].
  pose proof (glog_range c). rewrite zg_gexp by lia. rewrite Z2Nat.inj_mod by lia.
  rewrite alpha_mod, Z2Nat.inj_add, gpow_add, <- zg_glog by (done || lia). done.
Qed.

Lemma map_seq_G f n i : (i < n)%nat -> G (map f (seq 0 n)) i = zg (f i).
Proof.
  intros Hi. unfold G, rd. rewrite nth_lookup, list_lookup_fmap', lookup_seq_lt by done. done.
Qed.

Lemma G_out l i : (length l <= i)%nat -> G l i = 0.
Proof. intros Hi. unfold G, rd. rewrite nth_overflow by done. done. Qed.

Lemma map_seq_bytes f n : (forall i, is_byte (f i)) -> is_bytes (map f (seq 0 n)).
Proof. intros Hf. apply List.Forall_forall. intros x Hx. apply in_map_iff in Hx as (i & <- & _). apply Hf. Qed.

Lemma rd_insert_in l i j (x : Z) : (i < length l)%nat -> rd (<[i := x]> l) j = if decide (i = j) then x else rd l j.
Proof.
  intros Hi. unfold rd. rewrite !nth_lookup. case_decide as E.
  - subst j. by rewrite list_lookup_insert_eq.
  - by rewrite list_lookup_insert_ne.
Qed.

(** the table arithmetic is the field GF(2^8) of the polynomial
    x^8 + x^7 + x^2 + x + 1: on octets [gf_mul] is the product of polynomials
    modulo it, and the octet [gf_exp[255 - gf_log[a]]] is the inverse of a
    nonzero [a]. *)
Theorem gf_mul_is_field a b : is_byte a -> is_byte b ->
  gf_mul a b = poly_mul a b /\ (a <> 0%Z -> gf_mul (gexp (255 - glog a)) a = 1%Z).
Proof.
  intros Ha Hb. split; [by apply gf_mul_poly|]. intros Hne.
  assert (Hz : zg a <> 0) by (by rewrite zg_0_iff).
  pose proof (ginv_l (zg a) Hz) as H. apply (f_equal gz) in H. rewrite gz_mul, gz_zg in H by done.
  unfold ginv in H. rewrite gz_zg, decide_False in H by done. by rewrite gz_zg in H by auto.
Qed.

Lemma gf_mul_is_field_witness : gf_mul 0x53 0xCA = poly_mul 0x53 0xCA /\ gf_mul (gexp (255 - glog 0x53)) 0x53 = 1%Z.
Proof.
  assert (Ha : is_byte 0x53) by (unfold is_u; lia). assert (Hb : is_byte 0xCA) by (unfold is_u; lia).
  destruct (gf_mul_is_field _ _ Ha Hb) as [H1 H2]. split; [exact H1|apply H2; lia].
Defined.

(** ** Syndromes *)

Lemma horner_fold lr l s : is_bytes l -> is_byte s -> (0 <= lr < 255)%Z ->
  is_byte (fold_left (horner_step lr) l s) /\
  zg (fold_left (horner_step lr) l s) = fold_left (fun s c => s * alpha ^ (Z.to_nat lr) + c) (map zg l) (zg s).
Proof.
  intros Hl Hs Hlr. revert s Hs. induction Hl as [|x l Hx _ IH]; intros s Hs; [done|]. cbn [fold_left map].
  pose proof (glog_range s).
  assert (E : zg (horner_step lr s x) = zg s * alpha ^ (Z.to_nat lr) + zg x).
  { unfold horner_step. rewrite zg_lxor. f_equal. destruct (Z.eqb_spec s 0) as [->|Hne]; [symmetry; apply gmul_0_l|].
    rewrite zg_gexp, Z2Nat.inj_add, gpow_add, <- zg_glog by (done || lia). done. }
  rewrite <- E. apply IH. unfold horner_step. apply lxor_byte; [|done]. case_match; auto.
Qed.

(** The power of alpha at a block position. *)
Definition locator_of (p : nat) : gf := alpha ^ (254 - p).

(** The weighted points of a list of positions under values [v]. *)
Definition points (v : nat -> gf) (l : list nat) : list (gf * gf) :=
  map (fun p => (locator_of p, v p * locator_of p ^ 120)) l.

Lemma map_fst_points v l : map fst (points v l) = map locator_of l.
Proof. unfold points. rewrite map_map. by apply map_ext. Qed.

Lemma ps_points_cons v p l j : ps (points v (p :: l)) j = v p * locator_of p ^ (120 + j) + ps (points v l) j.
Proof. cbn [points map ps foldr fst snd]. fold (points v l) (ps (points v l) j). rewrite gpow_add. ring. Qed.

Lemma ps_points_perm v l l' j : Permutation l l' -> ps (points v l) j = ps (points v l') j.
Proof.
  induction 1 as [|p l l' _ IH|p q l|l1 l2 l3 _ IH1 _ IH2]; [done| | |congruence].
  - by rewrite !ps_points_cons, IH.
  - rewrite !ps_points_cons. ring.
Qed.

Lemma ps_points_app v l l' j : ps (points v (l ++ l')) j = ps (points v l) j + ps (points v l') j.
Proof. unfold points. rewrite map_app. apply ps_app. Qed.

Lemma ps_points_zero v l j : (forall p, In p l -> v p = 0) -> ps (points v l) j = 0.
Proof.
  induction l as [|p l IH]; intros H; [done|]. rewrite ps_points_cons, IH by (intros; apply H; by right).
  rewrite H by by left. ring.
Qed.

Lemma ps_points_fold v l j :
  ps (points v l) j = foldr (fun p acc => v p * locator_of p ^ (120 + j) + acc) 0 l.
Proof. induction l as [|p l IH]; [done|]. by rewrite ps_points_cons, IH. Qed.

Lemma foldr_ext_in {A B} (f g : A -> B -> B) l a : (forall x acc, In x l -> f x acc = g x acc) -> foldr f a l = foldr g a l.
Proof.
  induction l as [|x l IH]; intros H; [done|]. cbn. rewrite H, IH by (done || (intros; apply H; by right) || by left). done.
Qed.

Lemma ps_points_add v w l j : ps (points (fun p => v p + w p) l) j = ps (points v l) j + ps (points w l) j.
Proof. induction l as [|p l IH]; [cbn; ring|]. rewrite !ps_points_cons, IH. ring. Qed.

Lemma ps_points_ext v w l j : (forall p, In p l -> v p = w p) -> ps (points v l) j = ps (points w l) j.
Proof.
  induction l as [|p l IH]; intros H; [done|]. rewrite !ps_points_cons, IH by (intros; apply H; by right).
  by rewrite (H p) by by left.
Qed.

Lemma locator_of_inj p q : (p < 255)%nat -> (q < 255)%nat -> locator_of p = locator_of q -> p = q.
Proof. intros Hp Hq H. apply alpha_inj in H; lia. Qed.

Lemma locator_of_nonzero p : locator_of p <> 0.
Proof. apply alpha_nonzero. Qed.

Lemma NoDup_locators l : List.NoDup l -> Forall (fun p => (p < 255)%nat) l -> List.NoDup (map locator_of l).
Proof.
  intros Hnd Hl. induction Hnd as [|p l Hp _ IH]; [constructor|]. inversion Hl as [|? ? Hp' Hl']. subst. cbn. constructor; [|by apply IH].
  intros Hin. apply in_map_iff in Hin as (q & Eq & Hq). rewrite List.Forall_forall in Hl'.
  apply locator_of_inj in Eq; [by subst q|by apply Hl'|done].
Qed.

(** A block of 255 octets. *)
Definition rs_block (b : list Z) : Prop := length b = 255%nat /\ is_bytes b.

Lemma map_G_seq l : map zg l = map (G l) (seq 0 (length l)).
Proof.
  induction l as [|x l IH]; [done|]. cbn [length seq map]. f_equal. rewrite IH, <- seq_shift, map_map. done.
Qed.

Lemma gsum_foldr n (f : nat -> gf) : foldr (fun p acc => f p + acc) 0 (seq 0 n) = gsum n f.
Proof.
  enough (H : forall acc, foldr (fun p acc => f p + acc) acc (seq 0 n) = gsum n f + acc) by (rewrite H; ring).
  induction n as [|n IH]; intros acc; [cbn; ring|]. rewrite seq_S, foldr_app. cbn [foldr gsum]. rewrite IH. cbn [Nat.add]. ring.
Qed.

Lemma syndrome_heval b i : is_bytes b -> (i < 6)%nat ->
  is_byte (rd (rs_syndromes b).2 i) /\ G (rs_syndromes b).2 i = heval (alpha ^ (120 + i)) (map zg b).
Proof.
  intros Hb Hi. set (lr := ((GF_FCR + Z.of_nat i) mod 255)%Z).
  pose proof (horner_fold lr b 0 Hb ltac:(unfold is_u; lia) ltac:(unfold lr; lia)) as [H1 H2].
  assert (Er : rd (rs_syndromes b).2 i = fold_left (horner_step lr) b 0%Z).
  { unfold rs_syndromes, rd. cbn [snd]. rewrite nth_lookup, list_lookup_fmap', lookup_seq_lt by (unfold RS_VDL2_NROOTS; lia). done. }
  unfold G. rewrite Er. split; [done|]. rewrite H2. unfold heval. change (zg 0) with 0.
  by replace (Z.to_nat lr) with (120 + i)%nat by (unfold lr, GF_FCR; lia).
Qed.

(** The syndromes are the power sums of the received values. *)
Lemma syndrome_value b i : rs_block b -> (i < 6)%nat ->
  is_byte (rd (rs_syndromes b).2 i) /\ G (rs_syndromes b).2 i = ps (points (G b) (seq 0 255)) i.
Proof.
  intros [Hlen Hb] Hi. destruct (syndrome_heval b i Hb Hi) as [H1 ->]. split; [done|].
  rewrite map_G_seq, Hlen, heval_gsum, <- gsum_foldr, ps_points_fold.
  apply foldr_ext_in. intros p acc Hp. f_equal. f_equal. unfold locator_of.
  rewrite <- !gpow_mul. apply in_seq in Hp. rewrite <- (alpha_mod (_ * _)), <- (alpha_mod ((254 - p) * _)).
  f_equal. f_equal. lia.
Qed.

(** A block every check of which is satisfied. *)
Definition codeword (b : list Z) : Prop := rs_block b /\ (rs_syndromes b).1 = false.

Lemma syndromes_zero b : rs_block b ->
  (rs_syndromes b).1 = false <-> forall i, (i < 6)%nat -> ps (points (G b) (seq 0 255)) i = 0.
Proof.
  intros Hb. set (syn := (rs_syndromes b).2).
  assert (E : (rs_syndromes b).1 = existsb (fun s => negb (s =? 0)%Z) syn) by reflexivity. rewrite E. clear E.
  assert (Hlen : length syn = 6%nat) by reflexivity. split.
  - intros H i Hi. destruct (syndrome_value b i Hb Hi) as [Hby <-]. fold syn in Hby |- *. unfold G. rewrite zg_0_iff by done.
    destruct (Z.eq_dec (rd syn i) 0%Z) as [|Hne]; [done|exfalso].
    enough (existsb (fun s => negb (s =? 0)%Z) syn = true) by congruence.
    apply existsb_exists. exists (rd syn i). split; [apply nth_In; lia|]. by rewrite (proj2 (Z.eqb_neq _ _)).
  - intros H. apply not_true_is_false. intros Hex. apply existsb_exists in Hex as (s & Hin & Hs).
    apply (In_nth _ _ 0%Z) in Hin as (i & Hi & <-). fold (rd syn i) in Hs. rewrite Hlen in Hi.
    destruct (syndrome_value b i Hb Hi) as [Hby Hv]. fold syn in Hby, Hv. rewrite H in Hv by done.
    unfold G in Hv. apply zg_0_iff in Hv; [|done]. by rewrite Hv in Hs.
Qed.

(** ** The encoder *)

Lemma heval_app x l k : heval x (l ++ k) = heval x l * x ^ (length k) + heval x k.
Proof.
  induction k as [|c k IH] using rev_ind; [rewrite app_nil_r; cbn; ring|].
  rewrite app_assoc, !heval_snoc, IH, length_app, Nat.add_comm. cbn [length Nat.add gpow]. ring.
Qed.

(** The generator polynomial, highest power first, vanishes at its six roots. *)
Lemma gpoly_root i : (i < 6)%nat -> heval (alpha ^ (120 + i)) (map zg (rev gpoly)) = 0.
Proof.
  intros Hi. destruct (horner_fold (120 + Z.of_nat i) (rev gpoly) 0) as [_ H].
  - apply (bool_decide_unpack _). vm_compute. reflexivity.
  - unfold is_u. lia.
  - lia.
  - replace (Z.to_nat (120 + Z.of_nat i)) with (120 + i)%nat in H by lia. unfold heval. change 0 with (zg 0). rewrite <- H.
    f_equal. apply (forall_below_eqb (fun i => fold_left (horner_step (120 + Z.of_nat i)) (rev gpoly) 0%Z) (fun _ => 0%Z) 6); [|done].
    vm_compute. reflexivity.
Qed.

Definition parity_of (msg : list Z) : list Z := fold_left encode_step msg (replicate RS_VDL2_NROOTS 0%Z).

(** The division register holds the remainder of the octets read so far. *)
Lemma parity_invariant msg : is_bytes msg ->
  length (parity_of msg) = 6%nat /\ is_bytes (parity_of msg) /\
  forall i, (i < 6)%nat -> heval (alpha ^ (120 + i)) (map zg (msg ++ parity_of msg)) = 0.
Proof.
  induction msg as [|x msg IH] using rev_ind; intros Hm.
  { split; [done|]. split; [apply (bool_decide_unpack _); vm_compute; reflexivity|]. intros i Hi.
    cbn [app parity_of fold_left replicate RS_VDL2_NROOTS map]. change (zg 0) with 0. cbn. ring. }
  apply List.Forall_app in Hm as [Hm Hx]. destruct (IH Hm) as (Hlen & Hb & Hz). clear IH.
  apply List.Forall_inv in Hx. unfold parity_of. rewrite fold_left_app. cbn [fold_left]. fold (parity_of msg).
  set (par := parity_of msg) in *. clearbody par.
  destruct par as [|p0 [|p1 [|p2 [|p3 [|p4 [|p5 [|? ?]]]]]]]; try discriminate Hlen.
  repeat match goal with H : Forall _ (_ :: _) |- _ => let Hp := fresh "Hp" in
    pose proof (List.Forall_inv H) as Hp; apply List.Forall_inv_tail in H end.
  set (fb := Z.lxor x p0). assert (Hfb : is_byte fb) by (unfold fb; auto).
  change (encode_step [p0; p1; p2; p3; p4; p5] x) with
    [Z.lxor p1 (gf_mul fb (rd gpoly 5)); Z.lxor p2 (gf_mul fb (rd gpoly 4)); Z.lxor p3 (gf_mul fb (rd gpoly 3));
     Z.lxor p4 (gf_mul fb (rd gpoly 2)); Z.lxor p5 (gf_mul fb (rd gpoly 1)); gf_mul fb (rd gpoly 0)].
  assert (Hgp : is_bytes gpoly) by (apply (bool_decide_unpack _); vm_compute; reflexivity).
  split; [done|]. split; [repeat first [apply Forall_nil_2 | apply Forall_cons_2]; auto|]. intros i Hi. specialize (Hz i Hi). pose proof (gpoly_root i Hi) as Hg.
  change (rev gpoly) with [1%Z; rd gpoly 5; rd gpoly 4; rd gpoly 3; rd gpoly 2; rd gpoly 1; rd gpoly 0] in Hg.
  set (y := alpha ^ (120 + i)) in *. clearbody y. rewrite !map_app, !heval_app in *. cbn [map length] in *.
  unfold heval at 3. unfold heval at 2 in Hz. unfold heval in Hg. cbn [fold_left] in *. change (zg 1) with 1 in Hg.
  rewrite !zg_lxor, !zg_mul by auto. unfold fb. rewrite !zg_lxor. change (heval y [zg x]) with (0 * y + zg x).
  set (h := heval y (map zg msg)) in *. cbn [gpow] in *.
  set (g5 := zg (rd gpoly 5)) in *. set (g4 := zg (rd gpoly 4)) in *. set (g3 := zg (rd gpoly 3)) in *.
  set (g2 := zg (rd gpoly 2)) in *. set (g1' := zg (rd gpoly 1)) in *. set (g0' := zg (rd gpoly 0)) in *.
  assert (two : 1 + 1 = 0) by apply gadd_self.
  match type of Hz with ?a = 0 => match type of Hg with ?b = 0 => transitivity (y * a + (zg x + zg p0) * b) end end.
  - clear - two. generalize (zg x), (zg p0), (zg p1), (zg p2), (zg p3), (zg p4), (zg p5), g0', g1', g2, g3, g4, g5. intros.
    ring [two].
  - rewrite Hz, Hg. ring.
Qed.

Lemma rs_encode_take b : rs_block b -> rs_vdl2_encode b = take 249 b ++ parity_of (take 249 b).
Proof.
  intros [Hlen Hb]. unfold rs_vdl2_encode, blit, RS_VDL2_K. fold (parity_of (take 249 b)).
  destruct (parity_invariant (take 249 b) (Forall_take _ _ _ Hb)) as (Hp & _). rewrite Hp.
  rewrite (drop_ge b) by lia. by rewrite app_nil_r.
Qed.

(** The encoder keeps the data octets and satisfies every check. *)
Lemma encode_spec b : rs_block b -> codeword (rs_vdl2_encode b) /\ take 249 (rs_vdl2_encode b) = take 249 b.
Proof.
  intros Hb. pose proof Hb as [Hlen Hby]. rewrite (rs_encode_take b Hb).
  destruct (parity_invariant (take 249 b) (Forall_take _ _ _ Hby)) as (Hp & Hpb & Hz).
  assert (Ht : length (take 249 b) = 249%nat) by (rewrite length_take; lia).
  assert (Hblk : rs_block (take 249 b ++ parity_of (take 249 b))).
  { split; [rewrite length_app; lia|apply List.Forall_app; split; [by apply Forall_take|done]]. }
  split; [|by rewrite take_app_length']. split; [done|]. apply syndromes_zero; [done|]. intros i Hi.
  rewrite <- (proj2 (syndrome_value _ i Hblk Hi)), <- (Hz i Hi). by apply syndrome_heval; [apply Hblk|].
Qed.

(** ** The erasure locator *)

Lemma gamma_step_spec Xs gamma e x :
  (forall i, G gamma i = loc Xs i) -> is_bytes gamma -> length Xs = e -> (e < 6)%nat -> is_byte x ->
  (forall i, G (gamma_step gamma e x) i = loc (zg x :: Xs) i) /\ is_bytes (gamma_step gamma e x).
Proof.
  intros HG Hb He Hlt Hx.
  assert (Hbytes : forall i, is_byte (if (1 <=? i)%nat && (i <=? e + 1)%nat
    then Z.lxor (rd gamma i) (gf_mul x (rd gamma (i - 1))) else rd gamma i)) by (intros i; case_match; auto).
  split; [|by apply map_seq_bytes]. intros i. destruct (Nat.lt_ge_cases i 7) as [Hi|Hi].
  - unfold gamma_step, RS_VDL2_NROOTS. rewrite map_seq_G by lia. destruct i as [|i]; [apply HG|].
    change (1 <=? S i)%nat with true. cbn [andb]. change (loc (zg x :: Xs) (S i)) with (loc Xs (S i) + zg x * loc Xs i). rewrite <- !HG.
    destruct (Nat.leb_spec (S i) (e + 1)) as [Hle|Hgt].
    + rewrite zg_lxor, zg_mul by auto. by replace (S i - 1)%nat with i by lia.
    + rewrite (HG i), loc_deg by lia. change (zg (rd gamma (S i))) with (G gamma (S i)). ring.
  - rewrite G_out, loc_deg by (unfold gamma_step; rewrite ?length_map, ?length_seq; cbn; lia). done.
Qed.

Definition valid_erasures (E : list Z) : Prop := List.NoDup E /\ Forall (fun p => 0 <= p < 255)%Z E.

Lemma erasure_locator_spec pos e Xs gamma :
  Forall (fun p => 0 <= p < 255)%Z pos -> (forall i, G gamma i = loc Xs i) -> is_bytes gamma -> length Xs = e ->
  (e + length pos <= 6)%nat ->
  exists gamma', erasure_locator pos e gamma = Some gamma' /\ is_bytes gamma' /\
    forall i, G gamma' i = loc (map (fun p => locator_of (Z.to_nat p)) (rev pos) ++ Xs) i.
Proof.
  intros Hpos. revert e Xs gamma. induction Hpos as [|p pos Hp _ IH]; intros e Xs gamma HG Hb He Hlen.
  { exists gamma. done. }
  cbn [length] in Hlen. cbn [erasure_locator]. unfold RS_VDL2_N.
  rewrite (proj2 (Z.ltb_ge p 0)), (proj2 (Z.leb_gt _ p)) by lia. cbn [orb].
  destruct (gamma_step_spec Xs gamma e (gexp (Z.of_nat 255 - 1 - p)) HG Hb He ltac:(lia) ltac:(auto)) as [HG' Hb'].
  destruct (IH (e + 1)%nat _ _ HG' Hb' ltac:(cbn; lia) ltac:(lia)) as (g & E & Hg & HGg).
  exists g. split; [done|]. split; [done|]. intros i. rewrite HGg. cbn [rev]. rewrite map_app, <- app_assoc. cbn [map app].
  rewrite zg_gexp by lia. unfold locator_of. by replace (Z.to_nat (Z.of_nat 255 - 1 - p)) with (254 - Z.to_nat p)%nat by lia.
Qed.

(** ** Products of octet polynomials *)

Lemma conv_bytes (p s : list Z) j n : is_bytes p -> is_bytes s ->
  (forall i, (n < i)%nat -> G p i = 0) ->
  zg (xor_sum (fun i => gf_mul (rd p i) (rd s (j - i))) (seq 0 (Nat.min j n + 1)) 0) = conv (G p) (G s) j.
Proof.
  intros Hp Hs Hn. rewrite zg_xor_sum. change (zg 0) with 0. rewrite gadd_0_l. unfold conv.
  rewrite (gsum_extend (Nat.min j n + 1) (S j)) by (lia || (intros i Hi; rewrite Hn by lia; ring)).
  apply gsum_ext. intros i _. apply zg_mul; auto.
Qed.

Lemma modified_spec gamma syn f i : is_bytes gamma -> is_bytes syn -> (forall i, (f < i)%nat -> G gamma i = 0) ->
  (i < 6)%nat -> G (modified_syndromes gamma syn f) i = conv (G gamma) (G syn) i.
Proof. intros Hg Hs Hd Hi. unfold modified_syndromes. rewrite map_seq_G by done. by apply conv_bytes. Qed.

Lemma modified_bytes gamma syn f : is_bytes gamma -> is_bytes syn -> is_bytes (modified_syndromes gamma syn f).
Proof. intros Hg Hs. apply map_seq_bytes. intros i. apply xor_sum_byte; [unfold is_u; lia|auto]. Qed.

Section product.
Context (lambda gamma : list Z) (L f : nat).
Hypotheses (Hl : is_bytes lambda) (Hg : is_bytes gamma) (Hlen : (L + f <= 6)%nat).

Let inner (a : nat) (psi : list Z) (n : nat) : list Z :=
  fold_left (fun psi b => if (rd gamma b =? 0)%Z then psi
    else <[(a + b)%nat := Z.lxor (rd psi (a + b)) (gf_mul (rd lambda a) (rd gamma b))]> psi) (seq 0 n) psi.

Lemma product_inner a psi n : (a <= L)%nat -> (n <= f + 1)%nat -> length psi = 7%nat -> is_bytes psi ->
  length (inner a psi n) = 7%nat /\ is_bytes (inner a psi n) /\
  forall k, G (inner a psi n) k = G psi k + (if (a <=? k)%nat && (k <? a + n)%nat then G lambda a * G gamma (k - a) else 0).
Proof.
  intros Ha Hn Hpl Hpb. induction n as [|n IH].
  - split; [done|]. split; [done|]. intros k. change (inner a psi 0) with psi.
    destruct (Nat.leb_spec a k), (Nat.ltb_spec k (a + 0)); cbn [andb]; lia || ring.
  - destruct (IH ltac:(lia)) as (Hl' & Hb' & HG'). clear IH. unfold inner. rewrite seq_S, fold_left_app. cbn [fold_left Nat.add].
    fold (inner a psi n). set (psi' := inner a psi n) in *.
    assert (Hstep : forall k, (if (a <=? k)%nat && (k <? a + S n)%nat then G lambda a * G gamma (k - a) else 0) =
      (if (a <=? k)%nat && (k <? a + n)%nat then G lambda a * G gamma (k - a) else 0) +
      (if decide ((a + n)%nat = k) then G lambda a * G gamma n else 0)).
    { intros k. case_decide as Ek.
      - subst k. rewrite (proj2 (Nat.leb_le a _)), (proj2 (Nat.ltb_lt _ _)), (proj2 (Nat.ltb_ge (a + n) (a + n))) by lia. cbn [andb].
        replace (a + n - a)%nat with n by lia. ring.
      - destruct (Nat.leb_spec a k), (Nat.ltb_spec k (a + n)), (Nat.ltb_spec k (a + S n)); cbn [andb]; lia || ring. }
    destruct (Z.eqb_spec (rd gamma n) 0) as [E|E].
    + split; [done|]. split; [done|]. intros k. rewrite HG', Hstep.
      assert (E0 : G gamma n = 0) by (unfold G; by rewrite E). rewrite E0. case_decide; ring.
    + split; [by rewrite length_insert|]. split; [apply Forall_insert; auto|]. intros k. rewrite Hstep.
      unfold G at 1. rewrite rd_insert_in by lia. case_decide as Ek.
      * subst k. rewrite zg_lxor, zg_mul by auto. change (zg (rd psi' (a + n))) with (G psi' (a + n)). rewrite HG'. unfold G. ring.
      * change (zg (rd psi' k)) with (G psi' k). rewrite HG'. ring.
Qed.

Lemma product_outer n : (n <= L + 1)%nat ->
  let psi := fold_left (fun psi a => if (rd lambda a =? 0)%Z then psi else inner a psi (f + 1)) (seq 0 n) (replicate 7 0%Z) in
  length psi = 7%nat /\ is_bytes psi /\
  forall k, G psi k = gsum n (fun a => if (a <=? k)%nat && (k <? a + (f + 1))%nat then G lambda a * G gamma (k - a) else 0).
Proof.
  induction n as [|n IH]; intros Hn psi.
  - split; [done|]. split; [apply (bool_decide_unpack _); vm_compute; reflexivity|]. intros k.
    do 8 (destruct k as [|k]; [by apply gz_inj|]). by apply gz_inj.
  - destruct (IH ltac:(lia)) as (Hl' & Hb' & HG'). clear IH. unfold psi. clear psi. rewrite seq_S, fold_left_app. cbn [fold_left Nat.add].
    set (psi := fold_left _ (seq 0 n) _) in *. cbv zeta in *. cbn [gsum].
    destruct (Z.eqb_spec (rd lambda n) 0) as [E|E].
    + split; [done|]. split; [done|]. intros k. rewrite HG'.
      assert (E0 : G lambda n = 0) by (unfold G; by rewrite E). rewrite E0.
      destruct ((n <=? k)%nat && (k <? n + (f + 1))%nat); ring.
    + destruct (product_inner n psi (f + 1) ltac:(lia) ltac:(lia) Hl' Hb') as (Hl2 & Hb2 & HG2).
      split; [done|]. split; [done|]. intros k. by rewrite HG2, HG'.
Qed.

Lemma product_spec : (forall i, (L < i)%nat -> G lambda i = 0) -> (forall i, (f < i)%nat -> G gamma i = 0) ->
  let psi := locator_product lambda gamma L f in
  length psi = 7%nat /\ is_bytes psi /\ forall k, G psi k = conv (G lambda) (G gamma) k.
Proof.
  intros HL Hf psi. destruct (product_outer (L + 1) ltac:(lia)) as (H1 & H2 & H3).
  split; [exact H1|]. split; [exact H2|]. intros k. unfold psi.
  transitivity (gsum (L + 1) (fun a => if (a <=? k)%nat && (k <? a + (f + 1))%nat then G lambda a * G gamma (k - a) else 0)); [apply H3|].
  rewrite (conv_square _ _ k (S (Nat.max k L))) by lia.
  rewrite (gsum_extend (L + 1) (S (Nat.max k L))).
  - apply gsum_ext. intros a _. destruct (Nat.leb_spec a k); cbn [andb]; [|done].
    destruct (Nat.ltb_spec k (a + (f + 1))); [done|]. rewrite Hf by lia. ring.
  - lia.
  - intros a Ha. rewrite HL by lia. case_match; [ring|done].
Qed.
End product.

(** ** Berlekamp-Massey *)

Lemma quotient_by_logs d b : is_byte d -> is_byte b -> d <> 0%Z -> b <> 0%Z ->
  zg (gexp (glog d + 255 - glog b)) = zg d * ginv (zg b).
Proof.
  intros Hd Hb Hd0 Hb0. pose proof (glog_range d). pose proof (glog_range b).
  assert (Hz : zg b <> 0) by (rewrite zg_0_iff; done).
  apply (gmul_cancel_l (zg b)); [done|]. transitivity (zg d * (ginv (zg b) * zg b)); [|ring].
  rewrite ginv_l by done. rewrite zg_gexp, (zg_glog b), (zg_glog d), <- gpow_add by (done || lia).
  replace (Z.to_nat (glog b) + Z.to_nat (glog d + 255 - glog b))%nat with (Z.to_nat (glog d) + 255)%nat by lia.
  rewrite gpow_add, alpha_255. done.
Qed.

Record bm_ok (T : nat -> gf) (n : nat) (st : bm_state) : Prop := BmOk {
  bo_lambda : is_bytes (bm_lambda st);
  bo_prev : is_bytes (bm_prev st);
  bo_len : length (bm_lambda st) = 7%nat;
  bo_b : is_byte (bm_b st);
  bo_massey : massey T n (G (bm_lambda st)) (G (bm_prev st)) (bm_L st) (bm_m st) (zg (bm_b st)) }.

Lemma discrepancy_spec syn lambda T L n : is_bytes syn -> is_bytes lambda -> (L <= n)%nat ->
  generates (G lambda) T L n -> (forall k, (k <= n)%nat -> G syn k = T k) ->
  is_byte (bm_discrepancy syn lambda L n) /\ zg (bm_discrepancy syn lambda L n) = conv (G lambda) T n.
Proof.
  intros Hs Hl HL [H1 Hd _] HT. split; [unfold bm_discrepancy; apply xor_sum_byte; auto|].
  unfold bm_discrepancy. rewrite zg_xor_sum, (conv_trunc _ _ L) by done.
  rewrite gsum_S_l, H1, Nat.sub_0_r, gmul_1_l. f_equal; [by apply HT|].
  apply gsum_ext. intros i Hi. rewrite zg_mul by auto. cbn [Nat.add]. f_equal. rewrite <- HT by lia. done.
Qed.

Lemma adjust_spec lambda prev T L n m b coef : length lambda = 7%nat -> is_bytes lambda -> is_bytes prev -> is_byte coef ->
  (n < 6)%nat -> massey T n (G lambda) (G prev) L m b ->
  length (add_shifted lambda prev m coef) = 7%nat /\ is_bytes (add_shifted lambda prev m coef) /\
  forall k, adjust (G lambda) (G prev) m (zg coef) k = G (add_shifted lambda prev m coef) k.
Proof.
  intros Hlen Hl Hp Hc Hn [_ _ HL _ Hdeg _]. unfold add_shifted, RS_VDL2_NROOTS.
  split; [by rewrite length_map, length_seq|]. split; [apply map_seq_bytes; intros k; case_match; auto|].
  intros k. unfold adjust. destruct (Nat.lt_ge_cases k 7) as [Hk|Hk].
  - rewrite map_seq_G by lia. destruct (Nat.leb_spec m k); [|apply gadd_0_r]. rewrite zg_lxor, zg_mul by auto. done.
  - rewrite (G_out lambda), (G_out (map _ _)) by (rewrite ?length_map, ?length_seq; lia).
    destruct (Nat.leb_spec m k); [|apply gadd_0_r].
    rewrite Hdeg by lia. ring.
Qed.

Lemma bm_step_spec syn T n st : is_bytes syn -> (n < 6)%nat -> (forall k, (k <= n)%nat -> G syn k = T k) ->
  bm_ok T n st -> bm_ok T (S n) (bm_step syn n st).
Proof.
  intros Hs Hn HT [Hl Hp Hlen Hb Hm]. destruct st as [lambda prev L m b]. cbn [bm_lambda bm_prev bm_L bm_m bm_b] in *.
  destruct (discrepancy_spec syn lambda T L n Hs Hl (ms_len _ _ _ _ _ _ _ Hm) (ms_gen _ _ _ _ _ _ _ Hm) HT) as [Hdb Hd].
  cbn [bm_step]. set (d := bm_discrepancy syn lambda L n) in *. destruct (Z.eqb_spec d 0) as [E|E].
  { split; try done. cbn [bm_lambda bm_prev bm_L bm_m bm_b]. replace (m + 1)%nat with (S m) by lia.
    apply massey_skip; [done|]. by rewrite <- Hd, E. }
  assert (Hb0 : b <> 0%Z) by (intros ->; by apply (ms_b _ _ _ _ _ _ _ Hm)).
  pose proof (quotient_by_logs d b Hdb Hb E Hb0) as Hq. set (coef := gexp (glog d + 255 - glog b)) in *.
  destruct (adjust_spec lambda prev T L n m (zg b) coef Hlen Hl Hp ltac:(unfold coef; auto) Hn Hm) as (H1 & H2 & H3).
  rewrite Hq, Hd in H3. assert (Hne : conv (G lambda) T n <> 0) by (rewrite <- Hd, zg_0_iff; done).
  destruct (Nat.leb_spec (2 * L) n) as [HL|HL]; split; try done; cbn [bm_lambda bm_prev bm_L bm_m bm_b]; apply (massey_ext _ _ _ _ _ _ _ _ H3).
  - rewrite Hd. by apply massey_change.
  - replace (m + 1)%nat with (S m) by lia. by apply massey_keep.
Qed.

(** The loop finds a shortest recurrence. *)
Lemma berlekamp_massey_spec syn T ns : is_bytes syn -> (ns <= 6)%nat -> (forall k, (k < ns)%nat -> G syn k = T k) ->
  let '(L, lambda) := berlekamp_massey syn ns in
  is_bytes lambda /\ generates (G lambda) T L ns /\ minimal T L ns.
Proof.
  intros Hs Hns HT. unfold berlekamp_massey. set (st := forN ns _ _).
  assert (H : bm_ok T ns st).
  { apply (forN_inv (fun n st => bm_ok T n st)).
    - split; try (apply (bool_decide_unpack _); vm_compute; reflexivity). cbn [bm_lambda bm_prev bm_L bm_m bm_b].
      assert (E : forall i, one i = G one_poly i) by (intros i; do 8 (destruct i as [|i]; [by apply gz_inj|]); by apply gz_inj).
      pose proof (massey_init T) as Hi. apply (massey_ext _ _ _ _ _ _ _ _ E) in Hi.
      destruct Hi as [Hg Hmin Hlen Hb Hdeg Hprev]. split; try done.
      + intros k Hk. rewrite <- E. by apply Hdeg.
      + by left.
    - intros i x Hi Hx. apply bm_step_spec; try done; [lia|]. intros k Hk. apply HT. lia. }
  destruct H as [Hl _ _ _ [Hg Hmin _ _ _ _]]. done.
Qed.

(** ** Chien search *)

(** The block index of the root [alpha^q]. *)
Definition pos_of (q : nat) : nat := (RS_VDL2_N - 1 - root_pow q)%nat.

Lemma pos_of_lt q : (pos_of q < 255)%nat.
Proof. unfold pos_of, RS_VDL2_N. lia. Qed.

Lemma pos_of_inj q q' : (q < 255)%nat -> (q' < 255)%nat -> pos_of q = pos_of q' -> q = q'.
Proof. unfold pos_of, root_pow, RS_VDL2_N. intros. lia. Qed.

Lemma pos_of_surj p : (p < 255)%nat -> pos_of ((p + 1) mod 255) = p /\ ((p + 1) mod 255 < 255)%nat.
Proof. unfold pos_of, root_pow, RS_VDL2_N. lia. Qed.

Lemma locator_pos_of q : (q < 255)%nat -> locator_of (pos_of q) = alpha ^ (root_pow q).
Proof. intros Hq. unfold locator_of, pos_of, RS_VDL2_N. f_equal. unfold root_pow. lia. Qed.

Lemma locator_recip q : (q < 255)%nat -> locator_of (pos_of q) * alpha ^ q = 1.
Proof.
  intros Hq. rewrite locator_pos_of, <- gpow_add, <- alpha_mod by done.
  replace ((root_pow q + q) mod 255)%nat with O by (unfold root_pow; lia). done.
Qed.

Lemma eval_term psi i q : is_bytes psi ->
  zg (term (rd psi i) (Z.of_nat i * Z.of_nat q)) = G psi i * (alpha ^ q) ^ i.
Proof.
  intros Hp. rewrite zg_term by (auto || lia). f_equal.
  rewrite <- gpow_mul. f_equal. lia.
Qed.

Lemma chien_zero psi dpsi q : is_bytes psi ->
  chien_value psi dpsi q = 0%Z <-> gsum (S dpsi) (fun i => G psi i * (alpha ^ q) ^ i) = 0.
Proof.
  intros Hp. assert (Hb : is_byte (chien_value psi dpsi q)) by (apply xor_sum_byte; [auto|intros i; apply term_byte]).
  rewrite <- zg_0_iff by done. unfold chien_value. rewrite zg_xor_sum, gsum_S_l.
  assert (E : zg (rd psi 0) = G psi 0 * (alpha ^ q) ^ 0) by (cbn [gpow]; rewrite gmul_comm, gmul_1_l; done).
  rewrite E. rewrite (gsum_ext dpsi _ (fun i => G psi (S i) * (alpha ^ q) ^ S i)); [done|].
  intros i _. by apply eval_term.
Qed.

Lemma in_chien psi dpsi q : is_bytes psi ->
  In q (chien_roots psi dpsi) <-> (q < 255)%nat /\ gsum (S dpsi) (fun i => G psi i * (alpha ^ q) ^ i) = 0.
Proof.
  intros Hp. unfold chien_roots. rewrite filter_In, in_seq, Z.eqb_eq, chien_zero by done. intuition lia.
Qed.

Lemma NoDup_map_inj_in {A B} (f : A -> B) l :
  (forall x y, In x l -> In y l -> f x = f y -> x = y) -> List.NoDup l -> List.NoDup (map f l).
Proof.
  intros Hf Hnd. induction Hnd as [|x l Hx _ IH]; [constructor|]. cbn. constructor.
  - intros Hin. apply in_map_iff in Hin as (y & E & Hy). apply Hf in E; [by subst y|by right|by left].
  - apply IH. intros y z Hy Hz. apply Hf; by right.
Qed.

Lemma chien_positions psi dpsi : List.NoDup (map pos_of (chien_roots psi dpsi)).
Proof.
  unfold chien_roots. generalize (fun q => (chien_value psi dpsi q =? 0)%Z) as P. intros P. apply NoDup_map_inj_in.
  - intros x y Hx Hy. apply filter_In in Hx as [Hx _], Hy as [Hy _]. apply in_seq in Hx, Hy. apply pos_of_inj; lia.
  - apply List.NoDup_filter, seq_NoDup.
Qed.

(** The search finds exactly the located positions. *)
Lemma chien_complete psi P : is_bytes psi -> List.NoDup P -> Forall (fun p => (p < 255)%nat) P ->
  (forall i, G psi i = loc (map locator_of P) i) ->
  Permutation (map pos_of (chien_roots psi (length P))) P.
Proof.
  intros Hb Hnd HP HG. apply Permutation.NoDup_Permutation; [apply chien_positions|done|].
  rewrite List.Forall_forall in HP.
  assert (Hval : forall q, gsum (S (length P)) (fun i => G psi i * (alpha ^ q) ^ i) = loc_at (map locator_of P) (alpha ^ q)).
  { intros q. rewrite <- (loc_eval _ (S (length P))) by (rewrite length_map; lia). apply gsum_ext. intros i _. by rewrite HG. }
  intros p. split.
  - intros Hin. apply in_map_iff in Hin as (q & <- & Hq). apply in_chien in Hq as [Hq Hz]; [|done].
    rewrite Hval in Hz. apply loc_at_zero in Hz as (X & HX & E). apply in_map_iff in HX as (p & <- & Hp).
    replace (pos_of q) with p; [done|]. apply locator_of_inj; [by apply HP|apply pos_of_lt|].
    apply (gmul_cancel_l (alpha ^ q)); [apply alpha_nonzero|]. rewrite !(gmul_comm (alpha ^ q)), locator_recip by done. done.
  - intros Hp. destruct (pos_of_surj p (HP p Hp)) as [E Hq]. apply in_map_iff. exists ((p + 1) mod 255)%nat.
    split; [done|]. apply in_chien; [done|]. split; [done|]. rewrite Hval. apply loc_at_zero.
    exists (locator_of p). split; [by apply in_map|]. rewrite <- E at 1. by apply locator_recip.
Qed.

(** ** Forney *)

Lemma omega_spec psi dpsi syn i : is_bytes psi -> is_bytes syn -> (forall i, (dpsi < i)%nat -> G psi i = 0) ->
  (i < 6)%nat -> G (forney_omega psi dpsi syn) i = conv (G psi) (G syn) i.
Proof. intros Hp Hs Hd Hi. unfold forney_omega. rewrite map_seq_G by done. by apply conv_bytes. Qed.

Lemma omega_bytes psi dpsi syn : is_bytes psi -> is_bytes syn -> is_bytes (forney_omega psi dpsi syn).
Proof. intros Hp Hs. apply map_seq_bytes. intros i. apply xor_sum_byte; [unfold is_u; lia|auto]. Qed.

Lemma num_spec omega q : is_bytes omega ->
  is_byte (forney_num omega q) /\ zg (forney_num omega q) = gsum 6 (fun i => G omega i * (alpha ^ q) ^ i).
Proof.
  intros Ho. split; [apply xor_sum_byte; [unfold is_u; lia|intros i; apply term_byte]|].
  unfold forney_num, RS_VDL2_NROOTS. rewrite zg_xor_sum. change (zg 0) with 0. rewrite gadd_0_l.
  apply gsum_ext. intros i _. by apply eval_term.
Qed.

Lemma zg_xor_sum_filter f (P : nat -> bool) n acc :
  zg (xor_sum f (List.filter P (seq 1 n)) acc) = zg acc + gsum n (fun i => if P (S i) then zg (f (S i)) else 0).
Proof.
  unfold xor_sum. induction n as [|n IH]; [symmetry; apply gadd_0_r|].
  rewrite seq_S, List.filter_app, fold_left_app. cbn [List.filter Nat.add gsum]. rewrite gadd_assoc, <- IH.
  destruct (P (S n)); cbn [fold_left]; [apply zg_lxor|symmetry; apply gadd_0_r].
Qed.

Lemma den_spec psi dpsi q : is_bytes psi ->
  is_byte (forney_den psi dpsi q) /\ zg (forney_den psi dpsi q) = deriv (G psi) (S dpsi) (alpha ^ q).
Proof.
  intros Hp. split; [apply xor_sum_byte; [unfold is_u; lia|intros i; apply term_byte]|].
  unfold forney_den, odd_upto, deriv. rewrite zg_xor_sum_filter, gsum_S_l. change (zg 0) with 0. f_equal.
  apply gsum_ext. intros i _. destruct (Nat.odd (S i)); [|done]. rewrite zg_term by (auto || lia). f_equal.
  rewrite <- gpow_mul. f_equal. lia.
Qed.

(** An antilog of a reduced sum of two exponents. *)
Lemma gexp_log_sum a b : (0 <= a < 510)%Z -> (0 <= b)%Z ->
  zg (gexp ((a + b) mod 255)) = zg (gexp a) * alpha ^ (Z.to_nat b).
Proof.
  intros Ha Hb. rewrite !zg_gexp by lia. rewrite Z2Nat.inj_mod, alpha_mod, Z2Nat.inj_add by lia. apply gpow_add.
Qed.

(** Forney's formula: the magnitude the loop computes at a root is the error
    there. *)
Lemma forney_magnitude psi P syn v q :
  is_bytes psi -> is_bytes syn -> List.NoDup P -> Forall (fun p => (p < 255)%nat) P ->
  (forall i, G psi i = loc (map locator_of P) i) -> (length P <= 6)%nat ->
  (forall i, (i < 6)%nat -> G syn i = ps (points v P) i) ->
  (q < 255)%nat -> In (pos_of q) P ->
  let num := forney_num (forney_omega psi (length P) syn) q in
  let den := forney_den psi (length P) q in
  den <> 0%Z /\ (num = 0%Z <-> v (pos_of q) = 0) /\
  (num <> 0%Z -> zg (gexp ((glog num + 255 - glog den +
    (Z.of_nat (root_pow q) * (255 + 1 - GF_FCR)) mod 255) mod 255)) = v (pos_of q)).
Proof.
  intros Hpsi Hsyn Hnd HP HG Hlen HS Hq Hin num den.
  set (Xs := map locator_of P) in *. set (Y := locator_of (pos_of q)). set (x := alpha ^ q).
  assert (HXs : List.NoDup Xs) by by apply NoDup_locators.
  assert (HY : In Y Xs) by by apply in_map.
  assert (Hx : Y * x = 1) by by apply locator_recip.
  assert (HXl : length Xs = length P) by apply length_map.
  destruct (num_spec (forney_omega psi (length P) syn) q) as [Hnb Hn]; [by apply omega_bytes|]. fold num x in Hnb, Hn.
  destruct (den_spec psi (length P) q Hpsi) as [Hdb Hd]. fold den x in Hdb, Hd.
  pose proof (others_perm Y Xs HXs HY) as Hperm. set (A := loc_at (others Y Xs) x) in *.
  assert (HA : A <> 0).
  { intros E. apply loc_at_zero in E as (Z & HZ & E). apply in_remove in HZ as [_ HZ]. apply HZ.
    apply (gmul_cancel_l x); [apply alpha_nonzero|]. rewrite !(gmul_comm x). congruence. }
  assert (HY0 : Y <> 0) by apply locator_of_nonzero.
  assert (Hnum : zg num = v (pos_of q) * Y ^ 120 * A).
  { rewrite Hn. rewrite (gsum_ext 6 _ (fun i => conv (loc Xs) (ps (points v P)) i * x ^ i)).
    2:{ intros i Hi. f_equal. rewrite omega_spec by (done || (intros k Hk; rewrite HG; apply loc_deg; lia)).
        apply conv_ext; intros k Hk; [apply HG|apply HS; lia]. }
    apply evaluator_at; rewrite ?map_fst_points; try done; [|lia].
    unfold points. apply in_map_iff. by exists (pos_of q). }
  assert (Hden : zg den = Y * A).
  { rewrite Hd. transitivity (deriv (loc (Y :: others Y Xs)) (S (length P)) x).
    - unfold deriv. apply gsum_ext. intros i _. rewrite HG. by rewrite (loc_perm _ _ Hperm).
    - apply loc_deriv; [done|]. apply Permutation_length in Hperm. cbn [length] in Hperm. lia. }
  assert (HY255 : Y ^ 255 = 1).
  { unfold Y, locator_of. rewrite <- gpow_mul, Nat.mul_comm, gpow_mul, alpha_255, gpow_1. done. }
  assert (Hden0 : den <> 0%Z).
  { rewrite <- zg_0_iff, Hden by done. by apply gmul_nonzero. }
  assert (Hnum0 : num = 0%Z <-> v (pos_of q) = 0).
  { rewrite <- zg_0_iff, Hnum by done. split; [|intros ->; ring]. intros H.
    apply gmul_eq_0 in H as [H|H]; [|done]. apply gmul_eq_0 in H as [H|H]; [done|]. by apply gpow_nonzero in H. }
  split; [done|]. split; [done|]. intros Hne.
  pose proof (glog_range num). pose proof (glog_range den).
  rewrite gexp_log_sum by lia. rewrite quotient_by_logs, Hnum, Hden by done.
  unfold GF_FCR. rewrite Z2Nat.inj_mod, alpha_mod by lia.
  replace (Z.to_nat (Z.of_nat (root_pow q) * (255 + 1 - 120))) with (root_pow q * 136)%nat by lia.
  rewrite gpow_mul, <- locator_pos_of by done. fold Y.
  apply (gmul_cancel_l (Y * A)); [by apply gmul_nonzero|].
  transitivity (v (pos_of q) * (Y ^ 120 * Y ^ 136) * A * (ginv (Y * A) * (Y * A))); [ring|].
  assert (E : Y ^ 120 * Y ^ 136 = Y).
  { rewrite <- gpow_add. change (120 + 136)%nat with (1 + 255)%nat. rewrite gpow_add, HY255. cbn [gpow]. ring. }
  rewrite E, ginv_l by (by apply gmul_nonzero). ring.
Qed.

(** ** The correction loop *)

Definition differs (r c : list Z) (p : nat) : bool := negb (rd r p =? rd c p)%Z.
(** The block positions where two blocks differ. *)
Definition diff (r c : list Z) : list nat := List.filter (differs r c) (seq 0 255).

Lemma rs_block_insert b i x : rs_block b -> is_byte x -> rs_block (<[i := x]> b).
Proof. intros [H1 H2] Hx. split; [by rewrite length_insert|by apply Forall_insert]. Qed.

Lemma forney_loop_sound psi dpsi omega roots : forall b ch b' ch',
  rs_block b -> List.NoDup (map pos_of roots) ->
  forney_loop psi dpsi omega roots b ch = Some (b', ch') ->
  rs_block b' /\ (forall p, ~ In p (map pos_of roots) -> rd b' p = rd b p) /\
  ch' = (ch + Z.of_nat (length (List.filter (differs b b') (map pos_of roots))))%Z.
Proof.
  induction roots as [|q roots IH]; intros b ch b' ch' Hb Hnd H.
  { injection H as <- <-. split; [done|]. split; [done|]. cbn. lia. }
  cbn [map] in Hnd |- *. apply NoDup_cons_iff in Hnd as [Hq Hnd]. cbn [forney_loop] in H.
  set (num := forney_num omega q) in *. set (den := forney_den psi dpsi q) in *. fold (pos_of q) in H.
  destruct (den =? 0)%Z; [discriminate|]. cbn [List.filter].
  destruct (num =? 0)%Z.
  - destruct (IH _ _ _ _ Hb Hnd H) as (H1 & H2 & ->). split; [done|]. split.
    + intros p Hp. apply H2. intros Hin. apply Hp. by right.
    + assert (E : differs b b' (pos_of q) = false) by (unfold differs; rewrite H2, Z.eqb_refl by done; done). by rewrite E.
  - set (e := gexp _) in H. set (x := Z.lxor (rd b (pos_of q)) e) in *.
    assert (Hx : is_byte x) by (apply lxor_byte; [apply rd_byte, Hb|unfold e; auto]).
    assert (He : e <> 0%Z) by (unfold e; apply gexp_nonzero; lia). clearbody e.
    assert (Hlen : (pos_of q < length b)%nat) by (destruct Hb as [-> _]; apply pos_of_lt).
    destruct (IH _ _ _ _ (rs_block_insert _ _ _ Hb Hx) Hnd H) as (H1 & H2 & ->). clear IH H. split; [done|]. split.
    + intros p Hp. rewrite H2 by (intros Hin; apply Hp; by right). rewrite rd_insert_in by done.
      rewrite decide_False; [done|]. intros <-. apply Hp. by left.
    + assert (E : differs b b' (pos_of q) = true).
      { unfold differs. rewrite H2, rd_insert_in, decide_True by done. apply negb_true_iff, Z.eqb_neq. unfold x.
        intros E. apply He. by apply (lxor_cancel_l e 0 (rd b (pos_of q))); rewrite Z.lxor_0_r. }
      rewrite E. cbn [length]. rewrite (List.filter_ext_in (differs (<[pos_of q:=x]> b) b') (differs b b')); [lia|].
      intros p Hp. unfold differs. rewrite rd_insert_in, decide_False by (done || (intros <-; done)). done.
Qed.

(** With the right magnitude at every root the loop completes and adds it. *)
Lemma forney_loop_complete psi dpsi omega v roots : forall b ch,
  rs_block b -> List.NoDup (map pos_of roots) ->
  (forall q, In q roots ->
    let num := forney_num omega q in let den := forney_den psi dpsi q in
    den <> 0%Z /\ (num = 0%Z <-> v (pos_of q) = 0) /\
    (num <> 0%Z -> zg (gexp ((glog num + 255 - glog den +
      (Z.of_nat (root_pow q) * (255 + 1 - GF_FCR)) mod 255) mod 255)) = v (pos_of q))) ->
  exists b' ch', forney_loop psi dpsi omega roots b ch = Some (b', ch') /\
    forall p, In p (map pos_of roots) -> G b' p = G b p + v p.
Proof.
  induction roots as [|q roots IH]; intros b ch Hb Hnd Hv; [by exists b, ch|].
  cbn [map] in Hnd |- *. apply NoDup_cons_iff in Hnd as [Hq Hnd]. cbn [forney_loop]. fold (pos_of q).
  destruct (Hv q ltac:(by left)) as (Hden & Hnum & Hmag).
  set (num := forney_num omega q) in *. set (den := forney_den psi dpsi q) in *.
  rewrite (proj2 (Z.eqb_neq den 0)) by done. destruct (Z.eqb_spec num 0) as [E|E].
  - destruct (IH b ch Hb Hnd ltac:(intros; apply Hv; by right)) as (b' & ch' & H & Hp). exists b', ch'. split; [done|].
    intros p [<-|Hin]; [|by apply Hp]. destruct (forney_loop_sound _ _ _ _ _ _ _ _ Hb Hnd H) as (_ & H2 & _).
    unfold G. rewrite H2 by done. rewrite (proj1 Hnum E). symmetry. apply gadd_0_r.
  - specialize (Hmag E). set (e := gexp _) in *. set (x := Z.lxor (rd b (pos_of q)) e) in *.
    assert (Hx : is_byte x) by (apply lxor_byte; [apply rd_byte, Hb|unfold e; auto]).
    assert (Hlen : (pos_of q < length b)%nat) by (destruct Hb as [-> _]; apply pos_of_lt). clearbody e.
    pose proof (rs_block_insert _ (pos_of q) _ Hb Hx) as Hb1.
    destruct (IH _ (ch + 1)%Z Hb1 Hnd ltac:(intros; apply Hv; by right)) as (b' & ch' & H & Hp).
    exists b', ch'. split; [done|].
    destruct (forney_loop_sound _ _ _ _ _ _ _ _ Hb1 Hnd H) as (_ & H2 & _). intros p [<-|Hin].
    + unfold G at 1. rewrite H2, rd_insert_in, decide_True by done. unfold x. rewrite zg_lxor, Hmag. done.
    + rewrite Hp by done. unfold G at 1. rewrite rd_insert_in, decide_False by (done || (intros <-; done)). done.
Qed.

Lemma in_diff r c p : In p (diff r c) <-> (p < 255)%nat /\ rd r p <> rd c p.
Proof. unfold diff, differs. rewrite filter_In, in_seq, negb_true_iff, Z.eqb_neq. intuition lia. Qed.

Lemma NoDup_diff r c : List.NoDup (diff r c).
Proof. apply List.NoDup_filter, seq_NoDup. Qed.

(** Counting over any superset of the differing positions gives the same. *)
Lemma diff_count r c P : List.NoDup P -> Forall (fun p => (p < 255)%nat) P -> (forall p, ~ In p P -> rd c p = rd r p) ->
  length (List.filter (differs r c) P) = length (diff r c).
Proof.
  intros Hnd HP Hout. apply Permutation_length, Permutation.NoDup_Permutation; [by apply List.NoDup_filter|apply NoDup_diff|].
  rewrite List.Forall_forall in HP. intros p. rewrite in_diff, filter_In. unfold differs. rewrite negb_true_iff, Z.eqb_neq.
  split; [intros [Hp Hd]; split; [by apply HP|done]|]. intros [Hp Hd]. split; [|done].
  destruct (in_dec Nat.eq_dec p P); [done|]. exfalso. apply Hd. symmetry. by apply Hout.
Qed.

Lemma block_eq r c : rs_block r -> rs_block c -> (forall p, (p < 255)%nat -> G r p = G c p) -> r = c.
Proof.
  intros [Hr Hrb] [Hc Hcb] H. apply (nth_ext _ _ 0%Z 0%Z); [congruence|]. intros p Hp.
  apply zg_eq; [by apply (rd_byte r p)|by apply (rd_byte c p)|]. apply H. lia.
Qed.

(** ** The decoder *)

(** Positions outside the erasures. *)
Definition outside (E : list Z) (l : list nat) : list nat :=
  List.filter (fun p => negb (existsb (fun e => e =? Z.of_nat p)%Z E)) l.

Lemma in_outside E l p : In p (outside E l) <-> In p l /\ ~ In (Z.of_nat p) E.
Proof.
  unfold outside. rewrite filter_In, negb_true_iff, <- not_true_iff_false, existsb_exists. split.
  - intros [H1 H2]. split; [done|]. intros Hin. apply H2. exists (Z.of_nat p). by rewrite Z.eqb_refl.
  - intros [H1 H2]. split; [done|]. intros (e & He & E'). apply Z.eqb_eq in E'. by subst e.
Qed.

Lemma outside_nil l : outside [] l = l.
Proof. unfold outside. induction l as [|p l IH]; [done|]. cbn [List.filter existsb negb] in *. by rewrite IH. Qed.

Lemma NoDup_erased E : valid_erasures E -> List.NoDup (map Z.to_nat E) /\ Forall (fun p => (p < 255)%nat) (map Z.to_nat E).
Proof.
  intros [Hnd HE]. rewrite List.Forall_forall in HE. split.
  - apply NoDup_map_inj_in; [|done]. intros x y Hx Hy. pose proof (HE x Hx). pose proof (HE y Hy). lia.
  - apply List.Forall_forall. intros p Hp. apply in_map_iff in Hp as (e & <- & He). specialize (HE e He). lia.
Qed.

Lemma in_erased E p : Forall (fun p => 0 <= p < 255)%Z E -> In p (map Z.to_nat E) <-> In (Z.of_nat p) E.
Proof.
  intros HE. rewrite List.Forall_forall in HE. rewrite in_map_iff. split.
  - intros (e & <- & He). rewrite Z2Nat.id; [done|]. specialize (HE e He). lia.
  - intros H. exists (Z.of_nat p). split; [lia|done].
Qed.

Lemma syndromes_bytes r : rs_block r -> is_bytes (rs_syndromes r).2.
Proof.
  intros [_ Hr]. unfold rs_syndromes. cbn [snd]. apply map_seq_bytes. intros i. apply horner_fold; [done|unfold is_u; lia|unfold GF_FCR; lia].
Qed.

(** The located points of the erasures. *)
Definition erased (E : list Z) : list gf := map locator_of (rev (map Z.to_nat E)).

Lemma length_erased E : length (erased E) = length E.
Proof. unfold erased. by rewrite length_map, length_rev, length_map. Qed.

(** The intermediate results of a decoding that finds a nonzero syndrome. *)
Record decoding (r : list Z) (E : list Z) (gamma lambda : list Z) (L : nat) : Prop := Decoding {
  dc_gamma : is_bytes gamma;
  dc_erased : forall i, G gamma i = loc (erased E) i;
  dc_lambda : is_bytes lambda;
  dc_gen : generates (G lambda) (fun k => conv (loc (erased E)) (G (rs_syndromes r).2) (length E + k)) L (6 - length E);
  dc_min : minimal (fun k => conv (loc (erased E)) (G (rs_syndromes r).2) (length E + k)) L (6 - length E) }.

Lemma decode_unfold r E : rs_block r -> valid_erasures E -> (length E <= 6)%nat ->
  exists gamma lambda L, decoding r E gamma lambda L /\
    rs_vdl2_decode_erasures r E (Z.of_nat (length E)) =
      if negb (rs_syndromes r).1 then Some (r, 0%Z)
      else if (6 <? 2 * L + length E)%nat then None
      else apply_errata r (rs_syndromes r).2 (locator_product lambda gamma L (length E)) (L + length E).
Proof.
  intros Hr [Hnd HE] Hlen. pose proof (syndromes_bytes r Hr) as Hsyn. set (syn := (rs_syndromes r).2) in *. set (f := length E) in *.
  assert (E1 : forall i, G one_poly i = loc [] i) by (intros i; do 8 (destruct i as [|i]; [by apply gz_inj|]); by apply gz_inj).
  destruct (erasure_locator_spec E 0 [] one_poly HE E1) as (gamma & Eg & Hgb & HG);
    [apply (bool_decide_unpack _); vm_compute; reflexivity|done|unfold f in *; lia|].
  assert (HG' : forall i, G gamma i = loc (erased E) i).
  { intros i. rewrite HG, app_nil_r. unfold erased. by rewrite <- map_rev, map_map. }
  assert (Hgd : forall i, (f < i)%nat -> G gamma i = 0).
  { intros i Hi. rewrite HG', loc_deg; [done|]. by rewrite length_erased. }
  set (u := modified_syndromes gamma syn f). set (ns := (6 - f)%nat).
  assert (Hu : is_bytes u) by by apply modified_bytes.
  pose proof (berlekamp_massey_spec (map (fun k => rd u (f + k)) (seq 0 ns))
    (fun k => conv (loc (erased E)) (G syn) (f + k)) ns) as HB.
  destruct (berlekamp_massey _ ns) as [L lambda] eqn:EB.
  destruct HB as (Hl & Hgen & Hmin).
  { apply map_seq_bytes. auto. }
  { unfold ns. lia. }
  { intros k Hk. rewrite map_seq_G by done. change (zg (rd u (f + k))) with (G u (f + k)). unfold u.
    rewrite modified_spec by (done || unfold ns in Hk; lia). apply conv_ext; [|done]. intros i _. apply HG'. }
  exists gamma, lambda, L. split; [by split|].
  unfold rs_vdl2_decode_erasures. rewrite (proj2 (Z.ltb_ge _ 0)), (proj2 (Z.ltb_ge _ (Z.of_nat f))) by (unfold RS_VDL2_NROOTS; lia).
  cbn [orb]. rewrite (surjective_pairing (rs_syndromes r)) at 1. fold syn. destruct (rs_syndromes r).1; cbn [negb]; [|done].
  rewrite Nat2Z.id. unfold f at 1. rewrite firstn_all, Eg. fold u.
  change (RS_VDL2_NROOTS - f)%nat with ns. rewrite EB. done.
Qed.

Lemma psi_spec r E gamma lambda L : decoding r E gamma lambda L -> (L + length E <= 6)%nat ->
  let psi := locator_product lambda gamma L (length E) in
  is_bytes psi /\ forall k, G psi k = conv (G lambda) (loc (erased E)) k.
Proof.
  intros [Hg HG Hl [_ Hd _] _] Hlen psi.
  destruct (product_spec lambda gamma L (length E) Hl Hg Hlen Hd) as (_ & Hb & Hpsi).
  { intros i Hi. rewrite HG, loc_deg; [done|]. by rewrite length_erased. }
  split; [exact Hb|]. intros k. unfold psi. rewrite Hpsi. apply conv_ext; [done|]. intros i _. apply HG.
Qed.

#[local] Opaque chien_roots forney_loop rs_syndromes locator_product berlekamp_massey.

(** Whatever is accepted is a codeword within the budget. *)
Lemma decode_accepts r E c n : rs_block r -> valid_erasures E ->
  rs_vdl2_decode_erasures r E (Z.of_nat (length E)) = Some (c, n) ->
  codeword c /\ (2 * length (outside E (diff r c)) + length E <= 6)%nat /\ n = Z.of_nat (length (diff r c)).
Proof.
  intros Hr HE H. destruct (Nat.le_gt_cases (length E) 6) as [Hlen|Hlen].
  2:{ unfold rs_vdl2_decode_erasures in H. rewrite (proj2 (Z.ltb_lt (Z.of_nat RS_VDL2_NROOTS) _)) in H by (unfold RS_VDL2_NROOTS; lia).
      by rewrite orb_true_r in H. }
  destruct (decode_unfold r E Hr HE Hlen) as (gamma & lambda & L & HD & Eq). rewrite Eq in H. clear Eq.
  destruct (rs_syndromes r).1 eqn:Es; cbn [negb] in H.
  2:{ injection H as <- <-. assert (Ed : diff r r = []).
      { unfold diff, differs. induction (seq 0 255) as [|p l IH]; [done|]. cbn [List.filter]. by rewrite Z.eqb_refl. }
      rewrite Ed. split; [done|]. split; [cbn; lia|done]. }
  destruct (Nat.ltb_spec 6 (2 * L + length E)) as [|Hbudget]; [discriminate|].
  destruct (psi_spec r E gamma lambda L HD ltac:(lia)) as [Hpb Hpsi].
  set (psi := locator_product lambda gamma L (length E)) in *. unfold apply_errata in H.
  set (roots := chien_roots psi (L + length E)) in *.
  destruct (RS_VDL2_NROOTS <? length roots)%nat; [discriminate|].
  destruct (Nat.eqb_spec (length roots) (L + length E)) as [Hroots|]; [|discriminate]. cbn [negb] in H.
  destruct (forney_loop _ _ _ roots r 0) as [[b ch]|] eqn:EF; [|discriminate].
  destruct (rs_syndromes b).1 eqn:Eb; [discriminate|]. injection H as -> ->.
  pose proof (chien_positions psi (L + length E)) as Hnd. fold roots in Hnd.
  destruct (forney_loop_sound _ _ _ _ _ _ _ _ Hr Hnd EF) as (Hc & Hout & Hn).
  assert (HP : Forall (fun p => (p < 255)%nat) (map pos_of roots)).
  { apply List.Forall_forall. intros p Hp. apply in_map_iff in Hp as (q & <- & _). apply pos_of_lt. }
  rewrite diff_count in Hn by done. split; [done|]. split; [|lia].
  destruct (NoDup_erased E HE) as [HEn HEr].
  assert (HEroots : incl (map Z.to_nat E) (map pos_of roots)).
  { intros p Hp. rewrite List.Forall_forall in HEr. destruct (pos_of_surj p (HEr p Hp)) as [Ep Hq].
    apply in_map_iff. exists ((p + 1) mod 255)%nat. split; [done|]. apply in_chien; [done|]. split; [done|].
    rewrite (gsum_ext _ _ (fun i => conv (G lambda) (loc (erased E)) i * (alpha ^ ((p + 1) mod 255)) ^ i)).
    2:{ intros i _. by rewrite Hpsi. }
    apply (conv_loc_root _ _ L _ (locator_of p)); [apply (gen_deg _ _ _ _ (dc_gen _ _ _ _ _ HD))|rewrite length_erased; lia| |].
    - apply in_map. by apply -> in_rev.
    - rewrite <- Ep at 1. by apply locator_recip. }
  assert (Hcount : (length (outside E (diff r c) ++ map Z.to_nat E) <= length (map pos_of roots))%nat).
  { apply NoDup_incl_length.
    - apply NoDup_app; [apply List.NoDup_filter, NoDup_diff|done|]. intros p Hp. apply in_outside in Hp as [_ Hp].
      rewrite in_erased by apply HE. done.
    - apply incl_app; [|done]. intros p Hp. apply in_outside in Hp as [Hp _]. apply in_diff in Hp as [Hp Hd].
      destruct (in_dec Nat.eq_dec p (map pos_of roots)); [done|]. exfalso. apply Hd. symmetry. by apply Hout. }
  rewrite length_app, !length_map, Hroots in Hcount. lia.
Qed.

#[local] Opaque gmul gadd gpow zg gexp glog gf_mul.

(** Six vanishing power sums of at most six positions: every value is zero. *)
Lemma points_vanish v P : List.NoDup P -> Forall (fun p => (p < 255)%nat) P -> (length P <= 6)%nat ->
  (forall j, (j < 6)%nat -> ps (points v P) j = 0) -> forall p, In p P -> v p = 0.
Proof.
  intros Hnd HP Hlen H p Hin.
  assert (Hw : Forall (fun x => x.2 = 0) (points v P)).
  { apply vandermonde; [rewrite map_fst_points; by apply NoDup_locators|].
    assert (Hl : length (points v P) = length P) by apply length_map. rewrite Hl. intros j Hj. apply H. lia. }
  rewrite List.Forall_forall in Hw.
  assert (Hp : In (locator_of p, v p * locator_of p ^ 120) (points v P)) by (apply in_map_iff; by exists p).
  specialize (Hw _ Hp). destruct (gmul_eq_0 _ _ Hw) as [E0|E0]; [done|].
  exfalso. exact (gpow_nonzero _ 120 (locator_of_nonzero p) E0).
Qed.

(** Power sums of errors and erasures, with the erasures removed. *)
Lemma modified_sums v F En j :
  conv (loc (map locator_of En)) (ps (points v (F ++ En))) (length En + j) =
  ps (reweight (rev_at (map locator_of En)) (points v F)) j.
Proof.
  rewrite conv_loc_ps by (rewrite length_map; lia). rewrite length_map. replace (length En + j - length En)%nat with j by lia.
  set (h := rev_at (map locator_of En)). assert (Hh : forall p, In p En -> h (locator_of p) = 0).
  { intros p Hp. apply rev_at_zero. by apply in_map. }
  clearbody h. induction F as [|p F IH].
  - cbn [app]. induction En as [|p En IHE]; [done|]. cbn [points reweight map ps foldr fst snd].
    rewrite (Hh p) by by left. fold (points v En). fold (reweight h (points v En)). fold (ps (reweight h (points v En)) j).
    rewrite IHE by (intros q Hq; apply Hh; by right). cbn. ring.
  - cbn [app points reweight map ps foldr fst snd]. fold (points v (F ++ En)) (points v F).
    fold (reweight h (points v (F ++ En))) (reweight h (points v F)).
    fold (ps (reweight h (points v (F ++ En))) j) (ps (reweight h (points v F)) j). by rewrite IH.
Qed.

Lemma reweight_nonzero v F Xs : (forall p, In p F -> v p <> 0) -> (forall p, In p F -> ~ In (locator_of p) Xs) ->
  Forall (fun x => x.2 <> 0) (reweight (rev_at Xs) (points v F)).
Proof.
  intros Hv HX. induction F as [|p F IH]; [constructor|]. cbn [points reweight map].
  constructor; [cbn [fst snd]|apply IH; intros q Hq; [apply Hv|apply HX]; by right].
  apply gmul_nonzero; [apply gmul_nonzero; [apply Hv; by left|apply gpow_nonzero, locator_of_nonzero]|].
  rewrite rev_at_zero. apply HX. by left.
Qed.

(** The errata: the genuine errors outside the erasures, and the erasures. *)
Section errata.
Context (r c E : list Z).
Hypotheses (Hr : rs_block r) (Hc : codeword c) (HE : valid_erasures E).
Hypothesis (Hbudget : (2 * length (outside E (diff r c)) + length E <= 6)%nat).

Let v (p : nat) : gf := G r p + G c p.
Let F := outside E (diff r c).
Let P := F ++ rev (map Z.to_nat E).

Lemma v_zero p : (p < 255)%nat -> ~ In p P -> v p = 0.
Proof.
  intros Hp HnP. unfold v, G. destruct (Z.eq_dec (rd r p) (rd c p)) as [->|Hne]; [apply gadd_self|].
  exfalso. apply HnP. unfold P. apply in_app_iff. destruct (in_dec Z.eq_dec (Z.of_nat p) E) as [Hin|Hnin].
  - right. rewrite <- in_rev. by apply in_erased; [apply HE|].
  - left. apply in_outside. split; [by apply in_diff|done].
Qed.

Lemma v_nonzero p : In p F -> v p <> 0.
Proof.
  intros Hp. apply in_outside in Hp as [Hp _]. apply in_diff in Hp as [_ Hd]. intros Hv. apply Hd.
  apply gadd_eq_0 in Hv. apply zg_eq in Hv; [done|apply rd_byte, Hr|apply rd_byte, Hc].
Qed.

Lemma P_ok : List.NoDup P /\ Forall (fun p => (p < 255)%nat) P /\ length P = (length F + length E)%nat.
Proof.
  destruct (NoDup_erased E HE) as [H1 H2]. split; [|split].
  - apply NoDup_app; [apply List.NoDup_filter, NoDup_diff|by apply NoDup_rev|].
    intros p Hp. apply in_outside in Hp as [_ Hp]. by rewrite <- in_rev, in_erased by apply HE.
  - apply List.Forall_app. split; [|by apply List.Forall_rev].
    apply List.Forall_forall. intros p Hp. apply in_outside in Hp as [Hp _]. by apply in_diff in Hp as [Hp _].
  - unfold P. by rewrite length_app, length_rev, length_map.
Qed.

Lemma P_le : (length P <= 6)%nat /\ (2 * length F + length E <= 6)%nat.
Proof. destruct P_ok as (_ & _ & Hlen). fold F in Hbudget. lia. Qed.

(** The syndromes are the power sums of the errata. *)
Lemma errata_syndrome i : (i < 6)%nat -> G (rs_syndromes r).2 i = ps (points v P) i.
Proof.
  intros Hi. destruct P_ok as (Hnd & HP & _). destruct Hc as [Hcb Hcz]. rewrite List.Forall_forall in HP.
  rewrite (proj2 (syndrome_value r i Hr Hi)).
  transitivity (ps (points v (seq 0 255)) i).
  - unfold v. rewrite ps_points_add, (proj1 (syndromes_zero c Hcb) Hcz i Hi). symmetry. apply gadd_0_r.
  - set (rest := List.filter (fun p => negb (existsb (Nat.eqb p) P)) (seq 0 255)).
    assert (Hrest : forall p, In p rest <-> (p < 255)%nat /\ ~ In p P).
    { intros p. unfold rest. rewrite filter_In, in_seq, negb_true_iff, <- not_true_iff_false, existsb_exists.
      split; [intros [Hp Hn]; split; [lia|]; intros Hin; apply Hn; exists p; by rewrite Nat.eqb_refl|].
      intros [Hp Hn]. split; [lia|]. intros (q & Hq & Eq). apply Nat.eqb_eq in Eq. by subst q. }
    rewrite (ps_points_perm v _ (P ++ rest)).
    + rewrite ps_points_app, (ps_points_zero v rest); [apply gadd_0_r|]. intros p Hp. apply Hrest in Hp as [Hp HnP]. by apply v_zero.
    + apply Permutation.NoDup_Permutation; [apply seq_NoDup| |].
      * apply NoDup_app; [done|apply List.NoDup_filter, seq_NoDup|]. intros p Hp Hin. by apply Hrest in Hin as [_ Hin].
      * intros p. rewrite in_app_iff, Hrest, in_seq. destruct (in_dec Nat.eq_dec p P) as [Hin|Hn]; [|intuition lia].
        pose proof (HP p Hin). intuition lia.
Qed.

(** No syndrome: nothing is wrong. *)
Lemma errata_none : (rs_syndromes r).1 = false -> r = c.
Proof.
  intros Hz. destruct P_ok as (Hnd & HP & Hlen). destruct P_le as [HP6 HF6]. apply block_eq; [done|apply Hc|]. intros p Hp. apply gadd_eq_0. fold (v p).
  destruct (in_dec Nat.eq_dec p P) as [Hin|]; [|by apply v_zero].
  refine (points_vanish v P Hnd HP HP6 _ p Hin). clear p Hp Hin. intros p Hin.
  rewrite <- errata_syndrome by done. rewrite (proj2 (syndrome_value r p Hr Hin)).
  apply (proj1 (syndromes_zero r Hr)); done.
Qed.

(** Otherwise the shortest recurrence is the locator of the genuine errors. *)
Lemma errata_locator gamma lambda L : decoding r E gamma lambda L ->
  L = length F /\ forall i, G lambda i = loc (map locator_of F) i.
Proof.
  intros [_ _ _ Hgen Hmin]. set (T := fun k => conv (loc (erased E)) (G (rs_syndromes r).2) (length E + k)) in *.
  set (l := reweight (rev_at (erased E)) (points v F)).
  assert (Hfst : map fst l = map locator_of F) by (unfold l; by rewrite fst_reweight, map_fst_points).
  assert (Hl : length l = length F) by (rewrite <- (length_map fst l), Hfst; apply length_map).
  destruct P_ok as (Hnd & HP & _). destruct P_le as [_ HF6]. apply List.Forall_app in HP as [HFr _].
  assert (HF : List.NoDup F) by apply List.NoDup_filter, NoDup_diff.
  assert (HT : forall j, (j < 6 - length E)%nat -> T j = ps l j).
  { intros j Hj. unfold T, l. pose proof (modified_sums v F (rev (map Z.to_nat E)) j) as HM.
    rewrite length_rev, length_map in HM. fold (erased E) in HM. rewrite <- HM.
    apply conv_ext; [done|]. intros i Hi. apply errata_syndrome. lia. }
  assert (Hw : Forall (fun x => x.2 <> 0) l).
  { apply reweight_nonzero; [apply v_nonzero|]. intros p Hp Hin. apply in_map_iff in Hin as (p' & Ep & Hp').
    rewrite <- in_rev in Hp'. destruct (NoDup_erased E HE) as [_ HEr]. rewrite List.Forall_forall in HEr, HFr.
    apply locator_of_inj in Ep; [subst p'|by apply HEr|by apply HFr].
    apply in_outside in Hp as [_ Hp]. apply Hp. by apply in_erased in Hp'; [|apply HE]. }
  apply (generates_ext (G lambda) (G lambda) T (ps l)) in Hgen; [|done|done].
  apply (minimal_ext T (ps l)) in Hmin; [|done].
  clearbody l T. rewrite <- Hfst, <- Hl. apply (shortest_is_locator (G lambda) l L (6 - length E)); try done; [| |lia]; rewrite Hfst.
  - by apply NoDup_locators.
  - apply List.Forall_forall. intros X HX. apply in_map_iff in HX as (p & <- & _). apply locator_of_nonzero.
Qed.

Lemma decode_errata : exists n, rs_vdl2_decode_erasures r E (Z.of_nat (length E)) = Some (c, n).
Proof.
  destruct P_ok as (Hnd & HP & Hlen). destruct P_le as [HP6 HF6].
  destruct (decode_unfold r E Hr HE ltac:(lia)) as (gamma & lambda & L & HD & Eq). rewrite Eq. clear Eq.
  destruct (rs_syndromes r).1 eqn:Es; cbn [negb]; [|exists 0%Z; by rewrite (errata_none Es)].
  destruct (errata_locator gamma lambda L HD) as [HL Hlam].
  rewrite (proj2 (Nat.ltb_ge 6 _)) by lia.
  destruct (psi_spec r E gamma lambda L HD ltac:(lia)) as [Hpb Hpsi].
  set (psi := locator_product lambda gamma L (length E)) in *.
  assert (HG : forall i, G psi i = loc (map locator_of P) i).
  { intros i. rewrite Hpsi, (conv_ext _ (loc (map locator_of F)) _ (loc (erased E))) by done.
    rewrite loc_app. unfold erased, P. by rewrite map_app. }
  replace (L + length E)%nat with (length P) by lia.
  pose proof (chien_complete psi P Hpb Hnd HP HG) as Hroots. unfold apply_errata. set (roots := chien_roots psi (length P)) in *.
  pose proof (Permutation_length Hroots) as Hrl. rewrite length_map in Hrl.
  rewrite (proj2 (Nat.ltb_ge _ _)), (proj2 (Nat.eqb_eq _ _)) by (unfold RS_VDL2_NROOTS; lia). cbn [negb].
  pose proof (chien_positions psi (length P)) as HndR. fold roots in HndR.
  destruct (forney_loop_complete psi (length P) (forney_omega psi (length P) (rs_syndromes r).2) v roots r 0 Hr HndR)
    as (b & ch & EF & Hb).
  { intros q Hq. assert (Hq255 : (q < 255)%nat) by (unfold roots in Hq; apply in_chien in Hq as [Hq _]; done).
    apply forney_magnitude; try done; [by apply syndromes_bytes|apply errata_syndrome|].
    apply (Permutation_in _ Hroots). by apply in_map. }
  destruct (forney_loop_sound _ _ _ _ _ _ _ _ Hr HndR EF) as (Hbb & Hout & _).
  assert (Ebc : b = c).
  { apply block_eq; [done|apply Hc|]. intros p Hp. destruct (in_dec Nat.eq_dec p P) as [Hin|Hn].
    - rewrite Hb by (by apply (Permutation_in _ (Permutation_sym Hroots))). unfold v. apply gadd_cancel.
    - unfold G. rewrite Hout by (intros Hin; by apply Hn, (Permutation_in _ Hroots)). apply gadd_eq_0. by apply v_zero. }
  rewrite EF. subst b. destruct Hc as [_ Hcz]. rewrite Hcz. by exists ch.
Qed.
End errata.

(** C3: the errors-and-erasures decoder is exact.  For a block of 255 octets
    and distinct in-range erasure positions, [rs_vdl2_decode_erasures] returns
    the block [c] with count [n] if and only if [c] is a codeword (all six
    checks vanish), twice the number of positions outside the erasures where
    [c] differs from the received block plus the number of erasures is at most
    six, and [n] is the number of positions changed.  In particular it
    corrects every pattern within that budget, and never returns anything
    else. *)
Theorem rs_decode_erasures_exact r E c n : rs_block r -> valid_erasures E ->
  rs_vdl2_decode_erasures r E (Z.of_nat (length E)) = Some (c, n) <->
  codeword c /\ (2 * length (outside E (diff r c)) + length E <= 6)%nat /\ n = Z.of_nat (length (diff r c)).
Proof.
  intros Hr HE. split; [by apply decode_accepts|]. intros (Hc & Hb & ->).
  destruct (decode_errata r c E Hr Hc HE Hb) as [n Hn].
  destruct (decode_accepts r E c n Hr HE Hn) as (_ & _ & ->). done.
Qed.

Lemma rs_decode_erasures_exact_witness :
  rs_block (<[3%nat := 7%Z]> (replicate 255 0%Z)) /\ valid_erasures [10%Z] /\
  rs_vdl2_decode_erasures (<[3%nat := 7%Z]> (replicate 255 0%Z)) [10%Z] 1 = Some (replicate 255 0%Z, 1%Z).
Proof.
  assert (Hr : rs_block (<[3%nat := 7%Z]> (replicate 255 0%Z))) by (split; [reflexivity|apply (bool_decide_unpack _); vm_compute; reflexivity]).
  assert (HE : valid_erasures [10%Z]) by (split; [repeat constructor; intros []|repeat constructor; lia]).
  split; [exact Hr|]. split; [exact HE|].
  apply (proj2 (rs_decode_erasures_exact _ [10%Z] (replicate 255 0%Z) 1%Z Hr HE)).
  split; [split; [split; [reflexivity|apply (bool_decide_unpack _); vm_compute; reflexivity]|vm_compute; reflexivity]|].
  split; [apply Nat.leb_le; vm_compute; reflexivity|vm_compute; reflexivity].
Defined.

(** Round trip of the code.  Encoding any block of 255 octets keeps its
    249 data octets, and decoding any received block that differs from the
    result in at most three octets returns it, with their number. *)
Theorem rs_round_trip b r : rs_block b -> rs_block r -> (length (diff r (rs_vdl2_encode b)) <= 3)%nat ->
  take RS_VDL2_K (rs_vdl2_encode b) = take RS_VDL2_K b /\
  rs_vdl2_decode r = Some (rs_vdl2_encode b, Z.of_nat (length (diff r (rs_vdl2_encode b)))).
Proof.
  intros Hb Hr Hd. destruct (encode_spec b Hb) as [Hc Ht]. split; [exact Ht|].
  assert (HE : valid_erasures []) by (split; constructor).
  pose proof (outside_nil (diff r (rs_vdl2_encode b))) as Ho.
  destruct (decode_errata r _ [] Hr Hc HE) as [n Hn]; [rewrite Ho; cbn [length]; lia|].
  destruct (decode_accepts _ _ _ _ Hr HE Hn) as (_ & _ & En). subst n. exact Hn.
Qed.

Lemma rs_round_trip_witness :
  rs_vdl2_decode (<[9%nat := 77%Z]> (rs_vdl2_encode (replicate 255 5%Z))) = Some (rs_vdl2_encode (replicate 255 5%Z), 1%Z).
Proof.
  assert (Hb : rs_block (replicate 255 5%Z)) by (split; [reflexivity|apply (bool_decide_unpack _); vm_compute; reflexivity]).
  assert (Hr : rs_block (<[9%nat := 77%Z]> (rs_vdl2_encode (replicate 255 5%Z)))) by
    (split; [vm_compute; reflexivity|apply (bool_decide_unpack _); vm_compute; reflexivity]).
  assert (Hd : length (diff (<[9%nat := 77%Z]> (rs_vdl2_encode (replicate 255 5%Z))) (rs_vdl2_encode (replicate 255 5%Z))) = 1%nat)
    by (vm_compute; reflexivity).
  assert (Hle : (length (diff (<[9%nat := 77%Z]> (rs_vdl2_encode (replicate 255 5%Z))) (rs_vdl2_encode (replicate 255 5%Z))) <= 3)%nat)
    by (apply Nat.leb_le; vm_compute; reflexivity).
  pose proof (proj2 (rs_round_trip _ _ Hb Hr Hle)) as H. rewrite Hd in H. exact H.
Defined.

(** ** Shortened blocks *)

(** The parity octets a block of [data_len] data octets does not transmit. *)
Definition structural (data_len : Z) : list Z :=
  map (fun i => Z.of_nat RS_VDL2_K + short_fec_octetcount data_len + Z.of_nat i)%Z
    (seq 0 (Z.to_nat (Z.of_nat RS_VDL2_NROOTS - short_fec_octetcount data_len))).

(** A position that such a block transmits. *)
Definition transmitted (data_len p : Z) : Prop :=
  (0 <= p < data_len \/ 249 <= p < 249 + short_fec_octetcount data_len)%Z.

Lemma short_fec_cases data_len : (3 <= data_len)%Z ->
  short_fec_octetcount data_len = 2%Z \/ short_fec_octetcount data_len = 4%Z \/ short_fec_octetcount data_len = 6%Z.
Proof.
  intros H. unfold short_fec_octetcount. rewrite (proj2 (Z.ltb_ge _ _)) by done.
  destruct (data_len <? 31)%Z; [by left|]. destruct (data_len <? 68)%Z; [by right; left|by right; right].
Qed.

Lemma in_structural data_len p : (3 <= data_len)%Z ->
  In p (structural data_len) <-> (249 + short_fec_octetcount data_len <= p < 255)%Z.
Proof.
  intros H. pose proof (short_fec_cases data_len H). unfold structural, RS_VDL2_K, RS_VDL2_NROOTS.
  rewrite in_map_iff. split.
  - intros (i & <- & Hi). apply in_seq in Hi. lia.
  - intros Hp. exists (Z.to_nat (p - 249 - short_fec_octetcount data_len)). split; [lia|]. apply in_seq. lia.
Qed.

Lemma confined_spec data_len conf : (data_len <= 249)%Z -> forall seen acc,
  (List.NoDup conf /\ (forall p, In p conf -> transmitted data_len p /\ ~ In p seen) /\
    confined data_len (249 + short_fec_octetcount data_len) seen conf acc = Some (acc ++ conf)) \/
  (~ (List.NoDup conf /\ forall p, In p conf -> transmitted data_len p /\ ~ In p seen) /\
    confined data_len (249 + short_fec_octetcount data_len) seen conf acc = None).
Proof.
  intros Hl. assert (Hfec : (short_fec_octetcount data_len <= 6)%Z) by (unfold short_fec_octetcount, RS_VDL2_NROOTS; repeat case_match; lia).
  induction conf as [|p conf IH]; intros seen acc; cbn [confined].
  { left. rewrite app_nil_r. split; [constructor|]. done. }
  assert (Ht : negb ((0 <=? p) && (p <? data_len))%Z &&
    negb ((Z.of_nat RS_VDL2_K <=? p) && (p <? 249 + short_fec_octetcount data_len))%Z = true <-> ~ transmitted data_len p).
  { unfold transmitted, RS_VDL2_K. rewrite andb_true_iff, !negb_true_iff, !andb_false_iff, !Z.leb_gt, !Z.ltb_ge. lia. }
  destruct (negb _ && negb _).
  { right. split; [|done]. intros [_ H]. apply (proj1 Ht eq_refl). by apply (H p ltac:(by left)). }
  assert (Htp : transmitted data_len p) by (destruct (Z.le_gt_cases 0 p), (Z.lt_ge_cases p data_len), (Z.le_gt_cases 249 p), (Z.lt_ge_cases p (249 + short_fec_octetcount data_len)); first [left; lia|right; lia|exfalso; enough (false = true) by done; apply Ht; unfold transmitted; lia]).
  destruct (existsb (fun x => x =? p)%Z seen) eqn:Es.
  { right. split; [|done]. intros [_ H]. apply existsb_exists in Es as (x & Hx & E). apply Z.eqb_eq in E. subst x.
    by apply (H p ltac:(by left)). }
  assert (Hseen : ~ In p seen).
  { intros Hin. enough (existsb (fun x => x =? p)%Z seen = true) by congruence. apply existsb_exists. exists p. by rewrite Z.eqb_refl. }
  assert (Hu : u8 p = p) by (apply u8_small; unfold transmitted in Htp; lia). rewrite Hu.
  destruct (IH (seen ++ [p]) (acc ++ [p])) as [(H1 & H2 & H3)|[H1 H2]].
  - left. rewrite H3, <- app_assoc. split; [|split; [|done]].
    + constructor; [|done]. intros Hin. apply (H2 p Hin). apply in_app_iff. right. by left.
    + intros q [<-|Hq]; [done|]. destruct (H2 q Hq) as [Hq1 Hq2]. split; [done|]. intros Hin. apply Hq2, in_app_iff. by left.
  - right. split; [|done]. intros [Hnd H]. apply H1. apply NoDup_cons_iff in Hnd as [Hp Hnd]. split; [done|].
    intros q Hq. destruct (H q ltac:(by right)) as [Hq1 Hq2]. split; [done|]. intros Hin. apply in_app_iff in Hin as [Hin|[<-|[]]]; done.
Qed.

Lemma short_erasures_valid data_len conf : (3 <= data_len <= 249)%Z -> List.NoDup conf ->
  (forall p, In p conf -> transmitted data_len p) -> valid_erasures (structural data_len ++ conf).
Proof.
  intros Hl Hnd Ht. pose proof (short_fec_cases data_len ltac:(lia)) as Hf. split.
  - apply NoDup_app; [|done|].
    + unfold structural. apply NoDup_map_inj_in; [intros; lia|apply seq_NoDup].
    + intros p Hp Hin. apply in_structural in Hp; [|lia]. specialize (Ht p Hin). unfold transmitted in Ht. lia.
  - apply List.Forall_app. split; apply List.Forall_forall; intros p Hp.
    + apply in_structural in Hp; lia.
    + specialize (Ht p Hp). unfold transmitted in Ht. lia.
Qed.

Lemma length_structural data_len : (3 <= data_len)%Z ->
  Z.of_nat (length (structural data_len)) = (6 - short_fec_octetcount data_len)%Z.
Proof.
  intros H. pose proof (short_fec_cases data_len H). unfold structural, RS_VDL2_NROOTS. rewrite length_map, length_seq. lia.
Qed.

(** The hard-decision shortened decoder is the erasure decoder on the
    untransmitted parity. *)
Lemma short_decode_eq block data_len : (3 <= data_len <= 249)%Z ->
  rs_vdl2_decode_shortened block data_len =
  rs_vdl2_decode_erasures block (structural data_len) (Z.of_nat (length (structural data_len))).
Proof.
  intros Hl. pose proof (short_fec_cases data_len ltac:(lia)) as Hf.
  unfold rs_vdl2_decode_shortened, rs_vdl2_decode_shortened_erasures. rewrite (proj2 (Z.ltb_ge 0 0)) by lia.
  rewrite (proj2 (Z.eqb_neq _ 0)) by lia. fold (structural data_len).
  rewrite (proj2 (Z.ltb_ge (Z.of_nat RS_VDL2_NROOTS) _)) by (unfold RS_VDL2_NROOTS; lia). cbn [Z.to_nat take confined]. done.
Qed.

(** Shortened blocks.  For 3 to 249 data octets,
    [rs_vdl2_decode_shortened_erasures] succeeds exactly when the confidence
    positions are distinct transmitted positions and the result is a codeword
    within the budget in which every untransmitted parity octet counts as an
    erasure; duplicates, zero-pad positions and structural positions are
    refused, and any other error pattern within the budget is corrected. *)
Theorem rs_shortened_exact block data_len conf c n : rs_block block -> (3 <= data_len <= 249)%Z ->
  rs_vdl2_decode_shortened_erasures block data_len conf (Z.of_nat (length conf)) = Some (c, n) <->
  (List.NoDup conf /\ Forall (transmitted data_len) conf) /\
  let E := structural data_len ++ conf in
  codeword c /\ (2 * length (outside E (diff block c)) + length E <= 6)%nat /\ n = Z.of_nat (length (diff block c)).
Proof.
  intros Hb Hl. cbv zeta. pose proof (short_fec_cases data_len ltac:(lia)) as Hf. pose proof (length_structural data_len ltac:(lia)) as Hs.
  unfold rs_vdl2_decode_shortened_erasures. rewrite (proj2 (Z.ltb_ge _ 0)) by lia.
  rewrite (proj2 (Z.eqb_neq _ 0)) by lia. fold (structural data_len). rewrite Nat2Z.id, firstn_all.
  change (Z.of_nat RS_VDL2_K) with 249%Z. rewrite length_app.
  assert (Hval : forall c n, List.NoDup conf -> Forall (transmitted data_len) conf ->
    rs_vdl2_decode_erasures block (structural data_len ++ conf) (Z.of_nat (length (structural data_len ++ conf))) = Some (c, n) <->
    codeword c /\ (2 * length (outside (structural data_len ++ conf) (diff block c)) + length (structural data_len ++ conf) <= 6)%nat
    /\ n = Z.of_nat (length (diff block c))).
  { intros c' n' Hnd Ht. rewrite List.Forall_forall in Ht. pose proof (short_erasures_valid data_len conf Hl Hnd Ht) as HE.
    split; [by apply decode_accepts|]. intros (Hc & Hbud & ->). destruct (decode_errata _ _ _ Hb Hc HE Hbud) as [m Hm].
    destruct (decode_accepts _ _ _ _ Hb HE Hm) as (_ & _ & ->). exact Hm. }
  rewrite length_app in Hval.
  destruct (Z.ltb_spec (Z.of_nat RS_VDL2_NROOTS) (Z.of_nat RS_VDL2_NROOTS - short_fec_octetcount data_len + Z.of_nat (length conf))) as [Hbig|Hsmall].
  { split; [discriminate|]. intros (_ & _ & Hbud & _). unfold RS_VDL2_NROOTS in Hbig. lia. }
  destruct (confined_spec data_len conf ltac:(lia) [] (structural data_len)) as [(H1 & H2 & H3)|[H1 H2]].
  - change (Z.of_nat RS_VDL2_K) with 249%Z in *. rewrite H3, length_app.
    assert (Ht : Forall (transmitted data_len) conf) by (apply List.Forall_forall; intros p Hp; by apply H2).
    rewrite (Hval c n H1 Ht). intuition.
  - change (Z.of_nat RS_VDL2_K) with 249%Z in *. rewrite H2. split; [discriminate|]. intros ((Hnd & Ht) & _). exfalso. apply H1.
    rewrite List.Forall_forall in Ht. split; [done|]. intros p Hp. split; [by apply Ht|intros []].
Qed.

Lemma rs_shortened_exact_witness :
  rs_vdl2_decode_shortened_erasures (<[1%nat := 9%Z]> (replicate 255 0%Z)) 5 [1%Z; 249%Z] 2 = Some (replicate 255 0%Z, 1%Z).
Proof.
  assert (Hr : rs_block (<[1%nat := 9%Z]> (replicate 255 0%Z))) by (split; [reflexivity|apply (bool_decide_unpack _); vm_compute; reflexivity]).
  apply (proj2 (rs_shortened_exact _ 5 [1%Z; 249%Z] (replicate 255 0%Z) 1%Z Hr ltac:(lia))). split.
  - split; [repeat constructor; cbn; lia|repeat constructor; unfold transmitted; change (short_fec_octetcount 5) with 2%Z; lia].
  - split; [split; [split; [reflexivity|apply (bool_decide_unpack _); vm_compute; reflexivity]|vm_compute; reflexivity]|].
    split; [apply Nat.leb_le; vm_compute; reflexivity|vm_compute; reflexivity].
Defined.
