(* ===== verification/Vdl2L2.v ===== *)
(** The L2 feed of VDL Mode 2 (src/common/vdl2_decoder/vdl2_l2.c): header
    re-decode, octet packing, de-interleaving into Reed-Solomon rows, block
    correction with the soft-decision erasure fallback, and hand-over of the
    corrected stream to the AVLC deframer.

    The static octet buffers are rewritten before they are read on every call,
    so only the counters and the deframer's buffer are state.  The frames passed
    to the callback are part of the result. *)

From S2P Require Import Prelude Bits Crc16 Vdl2Header Avlc Gf256 Locators RsVdl2 RsDecode.

Definition VDL2_L2_ERR_HEADER : Z := -1.
Definition VDL2_L2_ERR_TRUNC : Z := -2.
Definition VDL2_L2_ERR_RS : Z := -3.
Definition VDL2_L2_ERR_INTERNAL : Z := -4.

Record vdl2_l2_stats := L2Stats {
  ls_fed : Z; ls_hdr_reject : Z; ls_truncated : Z; ls_rs_blocks_ok : Z; ls_rs_blocks_fail : Z;
  ls_rs_octets_fixed : Z; ls_rs_erasure_recovered : Z; ls_rescued_fcs_ok : Z; ls_rescued_fcs_bad : Z;
  ls_avlc_frames : Z }.

(** The module's static state and the deframer's. *)
Record l2_state := L2State { l2_stats : vdl2_l2_stats; l2_frame : list Z }.

Definition bump_fed (s : vdl2_l2_stats) : vdl2_l2_stats :=
  let '(L2Stats fed h t ok fail fixed er fo fb fr) := s in L2Stats (u32 (fed + 1)) h t ok fail fixed er fo fb fr.
Definition bump_hdr (s : vdl2_l2_stats) : vdl2_l2_stats :=
  let '(L2Stats fed h t ok fail fixed er fo fb fr) := s in L2Stats fed (u32 (h + 1)) t ok fail fixed er fo fb fr.
Definition bump_trunc (s : vdl2_l2_stats) : vdl2_l2_stats :=
  let '(L2Stats fed h t ok fail fixed er fo fb fr) := s in L2Stats fed h (u32 (t + 1)) ok fail fixed er fo fb fr.
Definition bump_fail (s : vdl2_l2_stats) : vdl2_l2_stats :=
  let '(L2Stats fed h t ok fail fixed er fo fb fr) := s in L2Stats fed h t ok (u32 (fail + 1)) fixed er fo fb fr.

(** The counters of a corrected block. *)
Definition bump_block (rescued : bool) (fixed : Z) (s : vdl2_l2_stats) : vdl2_l2_stats :=
  let '(L2Stats fed h t ok fail fx er fo fb fr) := s in
  L2Stats fed h t (u32 (ok + 1)) fail (if 0 <? fixed then u32 (fx + fixed) else fx)
    (if rescued then u32 (er + 1) else er) fo fb fr.

(** [l2_avlc_tap] on one frame; the frame itself is forwarded unchanged. *)
Definition l2_avlc_tap (rescued : bool) (s : vdl2_l2_stats) (f : avlc_frame) : vdl2_l2_stats :=
  let '(L2Stats fed h t ok fail fx er fo fb fr) := s in
  if rescued then
    match af_kind f with
    | AVLC_KIND_BAD_FCS => L2Stats fed h t ok fail fx er fo (u32 (fb + 1)) fr
    | AVLC_KIND_TOO_SHORT => s
    | _ => L2Stats fed h t ok fail fx er (u32 (fo + 1)) fb fr
    end
  else s.

Definition bump_frames (nf : Z) (s : vdl2_l2_stats) : vdl2_l2_stats :=
  let '(L2Stats fed h t ok fail fx er fo fb fr) := s in
  L2Stats fed h t ok fail fx er fo fb (if 0 <? nf then u32 (fr + nf) else fr).

Definition fec_octetcount (len : Z) : Z :=
  if len <? 3 then 0 else if len <? 31 then 2 else if len <? 68 then 4 else 6.

(** ** Octet packing *)

Definition pack_lsbfirst (bits : list Z) (n_octets : nat) : list Z :=
  map (fun i => forN 8 (fun j b => Z.lor b (u8 (Z.shiftl (Z.land (rd bits (8 * i + j)) 1) (Z.of_nat j)))) 0) (seq 0 n_octets).

Definition pack_conf_lsbfirst (soft : list Z) (base_bit n_octets : nat) : list Z :=
  map (fun i => forN 8 (fun j m =>
    let a := rd soft (base_bit + 8 * i + j) in
    let a := if a <? 0 then - a else a in
    let a := if 32767 <? a then 32767 else a in
    if a <? m then a else m) 32767) (seq 0 n_octets).

(** ** De-interleaving *)

(** A table of block rows, and [out[row][col] = v]. *)
Notation table := (list (list Z)).
Definition trow (t : table) (r : nat) : list Z := nth r t [].
Definition set_cell (t : table) (r c : nat) (v : Z) : table := <[r := <[c := v]> (trow t r)]> t.

(** One input octet: table, [row], [col]. *)
Definition deinterleave_step (rows last_row_len : nat) (st : table * nat * nat) (x : Z) : table * nat * nat :=
  let '(out, row, col) := st in
  let '(out, row, col) :=
    if (row =? rows - 1)%nat && (last_row_len <=? col)%nat then (set_cell out row col 0, 0%nat, (col + 1)%nat)
    else (out, row, col) in
  let out := set_cell out row col x in
  let row := (row + 1)%nat in
  if (row =? rows)%nat then (out, 0%nat, (col + 1)%nat) else (out, row, col).

(** [inr] is the negative return. *)
Definition l2_deinterleave (input : list Z) (rows : nat) (out : table) (fillwidth offset : nat) : table + Z :=
  let len := length input in
  if (rows =? 0)%nat || (fillwidth =? 0)%nat then inr (-1)
  else
    let last_row_len := (len mod fillwidth)%nat in
    let last_row_len := if (last_row_len =? 0)%nat then fillwidth else last_row_len in
    if (RS_VDL2_N <? fillwidth + offset)%nat then inr (-2)
    else if (rows * fillwidth <? len)%nat then inr (-3)
    else if (1 <? rows)%nat && (u32 (Z.of_nat len - Z.of_nat last_row_len) <? Z.of_nat ((rows - 1) * fillwidth)) then inr (-4)
    else inl (fold_left (deinterleave_step rows (last_row_len + offset)) input (out, 0%nat, offset)).1.1.

(** The int16 twin: the same walk. *)
Definition l2_deinterleave_conf (input : list Z) (rows : nat) (out : table) (fillwidth offset : nat) : table + Z :=
  l2_deinterleave input rows out fillwidth offset.

(** ** Weakest symbols *)

(** The scan for the weakest position that is a candidate and not taken. *)
Definition weakest_scan (conf : list Z) (cand : nat -> bool) (taken : list nat) : option (nat * Z) :=
  fold_left (fun best p =>
    if negb (cand p) || existsb (Nat.eqb p) taken then best
    else match best with
         | None => Some (p, rd conf p)
         | Some (_, bc) => if rd conf p <? bc then Some (p, rd conf p) else best
         end) (seq 0 RS_VDL2_N) None.

Fixpoint select_loop (conf : list Z) (cand : nat -> bool) (count : nat) (taken : list nat) : list nat :=
  match count with
  | O => taken
  | S count =>
    match weakest_scan conf cand taken with
    | None => taken
    | Some (p, _) => select_loop conf cand count (taken ++ [p])
    end
  end.

Definition select_weakest (conf : list Z) (count : nat) : list nat := select_loop conf (fun _ => true) count [].

Definition select_weakest_confined (conf : list Z) (count : nat) (data_len fec : Z) : list nat :=
  let struct_lo := Z.of_nat RS_VDL2_K + fec in
  select_loop conf (fun p => (Z.of_nat p <? data_len) || ((Z.of_nat RS_VDL2_K <=? Z.of_nat p) && (Z.of_nat p <? struct_lo))) count [].

(** ** Block correction *)

Definition erasure_sweep_rungs : list nat := [2; 4; 6]%nat.

(** The erasure retries of a full block: the first rung that decodes. *)
Fixpoint full_sweep (saved conf : list Z) (rungs : list nat) : option (list Z * Z) :=
  match rungs with
  | [] => None
  | f :: rungs =>
    match rs_vdl2_decode_erasures saved (map Z.of_nat (select_weakest conf f)) (Z.of_nat f) with
    | Some r => Some r
    | None => full_sweep saved conf rungs
    end
  end.

Fixpoint short_sweep (saved conf : list Z) (last budget : Z) (rungs : list nat) : option (list Z * Z) :=
  match rungs with
  | [] => None
  | f :: rungs =>
    if budget <? Z.of_nat f then None
    else
      match rs_vdl2_decode_shortened_erasures saved last
              (map Z.of_nat (select_weakest_confined conf f last budget)) (Z.of_nat f) with
      | Some r => Some r
      | None => short_sweep saved conf last budget rungs
      end
  end.

(** One block: the corrected row with [corr], and whether it was rescued. *)
Definition l2_block (block : list Z) (conf : option (list Z)) (is_last : bool) (last : Z) : option (list Z * Z * bool) :=
  let fec_this := if is_last then fec_octetcount last else Z.of_nat RS_VDL2_NROOTS in
  let is_full := if is_last then last =? Z.of_nat RS_VDL2_K else true in
  let hard := if is_last then rs_vdl2_decode_shortened block last else rs_vdl2_decode block in
  match hard with
  | Some (b, corr) => Some (b, corr, false)
  | None =>
    match conf with
    | None => None
    | Some conf =>
      match (if is_full then full_sweep block conf erasure_sweep_rungs
             else short_sweep block conf last fec_this erasure_sweep_rungs) with
      | Some (b, corr) => Some (b, corr, true)
      | None => None
      end
    end
  end.

(** The block loop: counters, corrected rows and [any_rescued], or the counters
    at the failure. *)
Fixpoint l2_blocks (rows : table) (conf : option table) (last : Z) (s : vdl2_l2_stats) (done_rows : table) (rescued : bool)
  : vdl2_l2_stats * option (table * bool) :=
  match rows with
  | [] => (s, Some (done_rows, rescued))
  | block :: rows =>
    let is_last := match rows with [] => true | _ => false end in
    let fec_this := if is_last then fec_octetcount last else Z.of_nat RS_VDL2_NROOTS in
    match l2_block block (option_map (fun t => trow t 0) conf) is_last last with
    | None => (bump_fail s, None)
    | Some (b, corr, er) =>
      let fixed := corr - (Z.of_nat RS_VDL2_NROOTS - fec_this) in
      l2_blocks rows (option_map (fun t : table => tail t) conf) last (bump_block er fixed s) (done_rows ++ [b]) (rescued || er)
    end
  end.

(** ** The feed *)

(** The 25 header bits, most significant first. *)
Definition header_word (bits : list Z) : Z :=
  fold_left (fun w k => u32 (Z.lor (Z.shiftl w 1) (Z.land (rd bits k) 1))) (seq 0 (Z.to_nat VDL2_HDR_BITS)) 0.

Record l2_layout := L2Layout {
  ly_octets : nat; ly_blocks : nat; ly_last : Z; ly_fec_octets : nat; ly_fec_rows : nat }.

(** The block layout of a data length in bits. *)
Definition l2_layout_of (datalen : Z) : l2_layout :=
  let datalen_octets := (datalen + 7) / 8 in
  let num_blocks := datalen_octets / Z.of_nat RS_VDL2_K in
  let last := datalen_octets mod Z.of_nat RS_VDL2_K in
  let fec_octets := num_blocks * Z.of_nat RS_VDL2_NROOTS in
  let num_blocks := if last =? 0 then num_blocks else num_blocks + 1 in
  let fec_octets := fec_octets + fec_octetcount last in
  let last := if last =? 0 then Z.of_nat RS_VDL2_K else last in
  let fec_rows := if fec_octetcount last =? 0 then num_blocks - 1 else num_blocks in
  L2Layout (Z.to_nat datalen_octets) (Z.to_nat num_blocks) last (Z.to_nat fec_octets) (Z.to_nat fec_rows).

(** Both passes of the de-interleaver over a zeroed table. *)
Definition l2_rows (ly : l2_layout) (data fec : list Z) : table + Z :=
  match l2_deinterleave data (ly_blocks ly) (replicate (ly_blocks ly) (replicate RS_VDL2_N 0)) RS_VDL2_K 0 with
  | inr e => inr e
  | inl t =>
    if (ly_fec_rows ly =? 0)%nat then inl t
    else l2_deinterleave fec (ly_fec_rows ly) t RS_VDL2_NROOTS RS_VDL2_K
  end.

(** The confidence table; [None] when there are no soft bits or a pass fails. *)
Definition l2_confidence (ly : l2_layout) (soft_bits : option (list Z)) : option table :=
  match soft_bits with
  | None => None
  | Some soft =>
    let base := Z.to_nat VDL2_HDR_BITS in
    let data_conf := pack_conf_lsbfirst soft base (ly_octets ly) in
    let fec_conf := pack_conf_lsbfirst soft (base + 8 * ly_octets ly) (ly_fec_octets ly) in
    match l2_deinterleave_conf data_conf (ly_blocks ly) (replicate (ly_blocks ly) (replicate RS_VDL2_N 0)) RS_VDL2_K 0 with
    | inr _ => None
    | inl t =>
      if (ly_fec_rows ly =? 0)%nat then Some t
      else match l2_deinterleave_conf fec_conf (ly_fec_rows ly) t RS_VDL2_NROOTS RS_VDL2_K with
           | inr _ => None
           | inl t => Some t
           end
    end
  end.

(** Corrected data octets in stream order. *)
Fixpoint l2_assemble (rows : table) (last : Z) : list Z :=
  match rows with
  | [] => []
  | [b] => take (Z.to_nat last) b
  | b :: rows => take RS_VDL2_K b ++ l2_assemble rows last
  end.

(** [vdl2_l2_feed] on the [n_bits] bits of a transmission. *)
Definition vdl2_l2_feed (st : l2_state) (bits : list Z) (soft_bits : option (list Z)) : l2_state * Z * list avlc_frame :=
  let n_bits := Z.of_nat (length bits) in
  let s := bump_fed (l2_stats st) in
  if n_bits <? VDL2_HDR_BITS then (L2State (bump_hdr s) (l2_frame st), VDL2_L2_ERR_HEADER, [])
  else
    let '(rc, _, datalen) := vdl2_hdr_decode (header_word bits) 0 in
    if rc <? 0 then (L2State (bump_hdr s) (l2_frame st), VDL2_L2_ERR_HEADER, [])
    else
      let body := vdl2_burst_body_bits datalen in
      if body <? 0 then (L2State (bump_hdr s) (l2_frame st), VDL2_L2_ERR_HEADER, [])
      else if n_bits <? VDL2_HDR_BITS + body then (L2State (bump_trunc s) (l2_frame st), VDL2_L2_ERR_TRUNC, [])
      else
        let ly := l2_layout_of datalen in
        let base := Z.to_nat VDL2_HDR_BITS in
        let data := pack_lsbfirst (drop base bits) (ly_octets ly) in
        let fec := pack_lsbfirst (drop (base + 8 * ly_octets ly) bits) (ly_fec_octets ly) in
        match l2_rows ly data fec with
        | inr _ => (L2State s (l2_frame st), VDL2_L2_ERR_INTERNAL, [])
        | inl rows =>
          match l2_blocks rows (l2_confidence ly soft_bits) (ly_last ly) s [] false with
          | (s, None) => (L2State s (l2_frame st), VDL2_L2_ERR_RS, [])
          | (s, Some (rows, rescued)) =>
            let '(frames, frame_buf) := avlc_deframe_octets (l2_frame st) (l2_assemble rows (ly_last ly)) (Z.to_nat datalen) in
            let s := fold_left (l2_avlc_tap rescued) frames s in
            let nf := Z.of_nat (length frames) in
            (L2State (bump_frames nf s) frame_buf, nf, frames)
          end
        end.

(** ** Reference interleaver *)

(** Rows that have a symbol in column [c]; the cells of a block table column by
    column; and the stream that transmits them. *)
Definition height (rows last c : nat) : nat := if (c <? last)%nat then rows else (rows - 1)%nat.
Definition cells (rows last width : nat) : list (nat * nat) :=
  flat_map (fun c => map (fun r => (r, c)) (seq 0 (height rows last c))) (seq 0 width).
Definition cell (t : table) (r c : nat) : Z := rd (trow t r) c.
Definition interleave (rows last width offset : nat) (t : table) : list Z :=
  map (fun p => cell t p.1 (offset + p.2)) (cells rows last width).

Lemma in_cells rows last width r c : In (r, c) (cells rows last width) <-> (c < width /\ r < height rows last c)%nat.
Proof.
  unfold cells. rewrite in_flat_map. split.
  - intros (c' & Hc & Hin). apply in_map_iff in Hin as (r' & [= -> ->] & Hr). apply in_seq in Hc, Hr. lia.
  - intros [Hc Hr]. exists c. split; [apply in_seq; lia|]. apply in_map_iff. exists r. split; [done|]. apply in_seq. lia.
Qed.

Lemma length_flat_map_seq (f : nat -> list (nat * nat)) n : length (flat_map f (seq 0 n)) = foldr (fun c a => (length (f c) + a)%nat) 0%nat (seq 0 n).
Proof. induction (seq 0 n) as [|c l IH]; [done|]. cbn [flat_map foldr]. by rewrite length_app, IH. Qed.

Lemma length_cells rows last width : (1 <= rows)%nat -> (last <= width)%nat ->
  length (cells rows last width) = ((rows - 1) * width + last)%nat.
Proof.
  intros Hr Hl. unfold cells. rewrite length_flat_map_seq.
  assert (H : forall n, (n <= width)%nat ->
    foldr (fun c a => (length (map (fun r => (r, c)) (seq 0 (height rows last c))) + a)%nat) 0%nat (seq 0 n) =
    ((rows - 1) * n + Nat.min n last)%nat).
  { induction n as [|n IH]; intros Hn; [cbn; lia|]. rewrite seq_S, foldr_app. cbn [foldr Nat.add].
    rewrite length_map, length_seq.
    assert (E : forall a l, foldr (fun c a => (length (map (fun r => (r, c)) (seq 0 (height rows last c))) + a)%nat) a l =
      (foldr (fun c a => (length (map (fun r => (r, c)) (seq 0 (height rows last c))) + a)%nat) 0%nat l + a)%nat).
    { intros a l. induction l as [|x l IHl]; [done|]. cbn [foldr]. rewrite IHl. lia. }
    rewrite E, IH by lia. unfold height. destruct (Nat.ltb_spec n last); nia. }
  rewrite H by lia. lia.
Qed.

(** ** The walk *)

(** A table of 255-octet rows. *)
Definition wf_table (t : table) (n : nat) : Prop := length t = n /\ Forall (fun row => length row = 255%nat) t.

Lemma trow_length t n r : wf_table t n -> (r < n)%nat -> length (trow t r) = 255%nat.
Proof. intros [Hl Hf] Hr. rewrite List.Forall_forall in Hf. apply Hf. apply nth_In. lia. Qed.

Lemma wf_set_cell t n r c v : wf_table t n -> (r < n)%nat -> wf_table (set_cell t r c v) n.
Proof.
  intros Ht Hr. pose proof (trow_length t n r Ht Hr) as Hrow. destruct Ht as [Hl Hf]. unfold set_cell.
  split; [by rewrite length_insert|]. apply Forall_insert; [done|]. by rewrite length_insert.
Qed.

Lemma trow_set_cell t n r c v r' : wf_table t n -> (r < n)%nat ->
  trow (set_cell t r c v) r' = if decide (r = r') then <[c := v]> (trow t r) else trow t r'.
Proof.
  intros [Hl _] Hr. unfold set_cell, trow. rewrite !nth_lookup. case_decide as E.
  - subst r'. by rewrite list_lookup_insert_eq by lia.
  - by rewrite list_lookup_insert_ne.
Qed.

Lemma cell_set_cell t n r c v r' c' : wf_table t n -> (r < n)%nat -> (c < 255)%nat ->
  cell (set_cell t r c v) r' c' = if decide (r = r' /\ c = c') then v else cell t r' c'.
Proof.
  intros Ht Hr Hc. unfold cell. rewrite (trow_set_cell t n) by done. pose proof (trow_length t n r Ht Hr) as Hl.
  destruct (decide (r = r')) as [<-|Hne].
  - rewrite rd_insert_in by lia. destruct (decide (c = c')); [by rewrite decide_True|by rewrite decide_False by tauto].
  - by rewrite decide_False by tauto.
Qed.

Lemma set_cell_same t n r c : wf_table t n -> (r < n)%nat -> (c < 255)%nat -> set_cell t r c (cell t r c) = t.
Proof.
  intros Ht Hr Hc. pose proof (trow_length t n r Ht Hr) as Hl. destruct Ht as [Hn _]. unfold set_cell, cell, rd.
  rewrite (list_insert_id (trow t r)).
  - apply list_insert_id. unfold trow. rewrite nth_lookup. destruct (t !! r) eqn:E; [done|].
    apply lookup_ge_None in E. lia.
  - rewrite nth_lookup. destruct (trow t r !! c) eqn:E; [done|]. apply lookup_ge_None in E. lia.
Qed.

Section walk.
Context (rows last offset n : nat).
Hypotheses (Hrows : (1 <= rows <= n)%nat) (Hlast : (1 <= last)%nat).

(** The last row is blank beyond its end. *)
Definition blank_tail (t : table) : Prop := forall c, (last + offset <= c < 255)%nat -> cell t (rows - 1) c = 0.

(** The loop variables stand at cell (r, c): there, or past the exhausted last
    row of the column before. *)
Definition at_cell (row col r c : nat) : Prop :=
  (row = r /\ col = (offset + c)%nat) \/
  (row = (rows - 1)%nat /\ S col = (offset + c)%nat /\ r = 0%nat /\ (last < c)%nat /\ (2 <= rows)%nat).

Definition next_cell (r c : nat) : nat * nat := if (S r <? height rows last c)%nat then (S r, c) else (0%nat, S c).

Lemma step_at t row col r c x : wf_table t n -> blank_tail t -> at_cell row col r c ->
  (r < height rows last c)%nat -> (offset + c < 255)%nat ->
  exists row' col', deinterleave_step rows (last + offset) (t, row, col) x = (set_cell t r (offset + c) x, row', col') /\
    at_cell row' col' (next_cell r c).1 (next_cell r c).2.
Proof.
  intros Ht Hb Hat Hr Hc. unfold deinterleave_step, next_cell, at_cell, height in *.
  destruct Hat as [[-> ->]|(-> & Hcol & -> & Hc' & H2)].
  - assert (E : (r =? rows - 1)%nat && (last + offset <=? offset + c)%nat = false).
    { destruct (Nat.eqb_spec r (rows - 1)), (Nat.leb_spec (last + offset) (offset + c)), (Nat.ltb_spec c last); try done; lia. }
    rewrite E. destruct (Nat.eqb_spec (r + 1) rows); eexists _, _; (split; [done|]);
      destruct (Nat.ltb_spec c last); match goal with |- context [(S r <? ?h)%nat] => destruct (Nat.ltb_spec (S r) h) end; cbn [fst snd]; lia.
  - rewrite Nat.eqb_refl, (proj2 (Nat.leb_le _ _)) by lia. cbn [andb].
    assert (E0 : set_cell t (rows - 1) col 0 = t) by (rewrite <- (Hb col) by lia; apply (set_cell_same t n); lia || done).
    rewrite E0. replace (col + 1)%nat with (offset + c)%nat by lia.
    destruct (Nat.eqb_spec (0 + 1) rows); [lia|]. eexists _, _. split; [done|].
    destruct (Nat.ltb_spec c last); match goal with |- context [(1 <? ?h)%nat] => destruct (Nat.ltb_spec 1 h) end; cbn [fst snd]; lia.
Qed.

(** Cells in walking order from (r, c). *)
Fixpoint chained (r c : nat) (ps : list (nat * nat)) : Prop :=
  match ps with
  | [] => True
  | p :: ps => p = (r, c) /\ (r < height rows last c)%nat /\ (offset + c < 255)%nat /\
      chained (next_cell r c).1 (next_cell r c).2 ps
  end.

Lemma chained_column c k : forall r ps, (r + k = height rows last c)%nat -> (0 < k)%nat -> (offset + c < 255)%nat ->
  chained 0 (S c) ps -> chained r c (map (fun r => (r, c)) (seq r k) ++ ps).
Proof.
  induction k as [|k IH]; intros r ps Hk H0 Hc Hps; [lia|]. cbn [seq map app chained].
  split; [done|]. split; [lia|]. split; [done|]. unfold next_cell. destruct k as [|k].
  - rewrite (proj2 (Nat.ltb_ge _ _)) by lia. exact Hps.
  - rewrite (proj2 (Nat.ltb_lt _ _)) by lia. apply IH; lia || done.
Qed.

Lemma chained_cells k : forall c, (offset + c + k <= 255)%nat ->
  chained 0 c (flat_map (fun c => map (fun r => (r, c)) (seq 0 (height rows last c))) (seq c k)).
Proof.
  induction k as [|k IH]; intros c Hc; [done|]. cbn [seq flat_map].
  destruct (height rows last c) as [|h] eqn:Eh.
  - assert (E : flat_map (fun c => map (fun r => (r, c)) (seq 0 (height rows last c))) (seq (S c) k) = []).
    { assert (Hz : forall j, (c < j)%nat -> height rows last j = 0%nat).
      { unfold height in *. intros j Hj. destruct (Nat.ltb_spec c last), (Nat.ltb_spec j last); lia. }
      clear - Hz. assert (G : forall s, (c < s)%nat -> flat_map (fun c => map (fun r => (r, c)) (seq 0 (height rows last c))) (seq s k) = []).
      { induction k as [|k IH]; intros s Hs; [done|]. cbn [seq flat_map]. rewrite Hz by done. cbn. apply IH. lia. }
      apply G. lia. }
    rewrite E. done.
  - rewrite <- Eh. apply chained_column; [done|lia|lia|]. apply IH. lia.
Qed.

(** Writes at a chain of cells. *)
Definition write_cells (f : nat * nat -> Z) (ps : list (nat * nat)) (t : table) : table :=
  fold_left (fun t p => set_cell t p.1 (offset + p.2) (f p)) ps t.

Lemma walk_writes f ps : forall t row col r c, wf_table t n -> blank_tail t -> at_cell row col r c -> chained r c ps ->
  (fold_left (deinterleave_step rows (last + offset)) (map f ps) (t, row, col)).1.1 = write_cells f ps t.
Proof.
  induction ps as [|p ps IH]; intros t row col r c Ht Hb Hat Hch; [done|]. destruct Hch as (-> & Hr & Hc & Hch).
  cbn [map fold_left]. destruct (step_at t row col r c (f (r, c)) Ht Hb Hat Hr Hc) as (row' & col' & E & Hat').
  rewrite E. assert (Hrn : (r < n)%nat) by (unfold height in Hr; case_match; lia).
  unfold write_cells. cbn [fold_left fst snd].
  eapply IH; [by apply wf_set_cell| |exact Hat'|exact Hch].
  intros c' Hc'. rewrite (cell_set_cell t n) by done. rewrite decide_False; [by apply Hb|].
  intros [-> E']. unfold height in Hr. destruct (Nat.ltb_spec c last); lia.
Qed.

Lemma write_cells_spec f ps : (forall p, In p ps -> (p.1 < n)%nat /\ (offset + p.2 < 255)%nat) -> forall t, wf_table t n ->
  wf_table (write_cells f ps t) n /\
  (forall r c, In (r, c) ps -> cell (write_cells f ps t) r (offset + c) = f (r, c)) /\
  (forall r c, (forall c', c = (offset + c')%nat -> ~ In (r, c') ps) -> cell (write_cells f ps t) r c = cell t r c).
Proof.
  intros Hps t Ht. induction ps as [|p ps IH] using rev_ind; [done|].
  destruct (Hps p) as [H1 H2]; [apply in_app_iff; right; by left|].
  destruct IH as (IH1 & IH2 & IH3); [intros q Hq; apply Hps, in_app_iff; by left|].
  unfold write_cells. rewrite fold_left_app. cbn [fold_left]. fold (write_cells f ps t).
  split; [by apply wf_set_cell|]. destruct p as [r0 c0]. cbn [fst snd] in *. split; intros r c.
  - intros Hin. rewrite (cell_set_cell _ n) by done. case_decide as E; [by destruct E as [-> ?]; replace c with c0 by lia|].
    apply in_app_iff in Hin as [Hin|[[= -> ->]|[]]]; [by apply IH2|]. exfalso. by apply E.
  - intros Hn. rewrite (cell_set_cell _ n) by done. rewrite decide_False.
    + apply IH3. intros c' Hc' Hin. apply (Hn c' Hc'), in_app_iff. by left.
    + intros [-> <-]. apply (Hn c0 eq_refl), in_app_iff. right. by left.
Qed.
End walk.

(** A stream of the right length passes the geometry checks. *)
Lemma deinterleave_eq input rows last width offset t :
  (1 <= rows)%nat -> (1 <= last <= width)%nat -> (width + offset <= 255)%nat ->
  length input = ((rows - 1) * width + last)%nat -> Z.of_nat (length input) < 2 ^ 32 ->
  l2_deinterleave input rows t width offset =
  inl (fold_left (deinterleave_step rows (last + offset)) input (t, 0%nat, offset)).1.1.
Proof.
  intros Hr Hl Hw Hlen Hu. unfold l2_deinterleave. rewrite Hlen in *.
  rewrite (proj2 (Nat.eqb_neq rows 0)), (proj2 (Nat.eqb_neq width 0)) by lia. cbn [orb].
  assert (Em : (if ((((rows - 1) * width + last) mod width) =? 0)%nat then width else (((rows - 1) * width + last) mod width)%nat) = last).
  { rewrite Nat.add_comm, Nat.Div0.mod_add. destruct (Nat.eq_dec last width) as [->|].
    - by rewrite Nat.Div0.mod_same.
    - rewrite Nat.mod_small by lia. by rewrite (proj2 (Nat.eqb_neq last 0)) by lia. }
  rewrite Em. unfold RS_VDL2_N. rewrite (proj2 (Nat.ltb_ge 255 _)) by lia.
  rewrite (proj2 (Nat.ltb_ge (rows * width) _)) by nia.
  replace (Z.of_nat ((rows - 1) * width + last) - Z.of_nat last) with (Z.of_nat ((rows - 1) * width)) by lia.
  set (k := ((rows - 1) * width)%nat) in *. rewrite u32_small by lia. rewrite Z.ltb_irrefl, andb_false_r. done.
Qed.

Lemma deinterleave_interleave T t rows last width offset n :
  (1 <= rows <= n)%nat -> (1 <= last <= width)%nat -> (width + offset <= 255)%nat -> Z.of_nat rows < 2 ^ 24 ->
  wf_table t n -> blank_tail rows last offset t ->
  exists t', l2_deinterleave (interleave rows last width offset T) rows t width offset = inl t' /\ wf_table t' n /\
    (forall r c, (c < width)%nat -> (r < height rows last c)%nat -> cell t' r (offset + c) = cell T r (offset + c)) /\
    (forall r c, ~ (offset <= c < offset + width /\ r < height rows last (c - offset))%nat -> cell t' r c = cell t r c).
Proof.
  intros Hr Hl Hw Hb Ht Hblank.
  assert (Hlen : length (interleave rows last width offset T) = ((rows - 1) * width + last)%nat).
  { unfold interleave. rewrite length_map. apply length_cells; lia. }
  rewrite (deinterleave_eq _ rows last) by (rewrite ?Hlen; lia || nia).
  eexists. split; [done|]. unfold interleave.
  rewrite (walk_writes rows last offset n Hr ltac:(lia) _ _ t 0 offset 0 0); try done.
  2:{ left. lia. }
  2:{ apply (chained_cells rows last offset n Hr); lia. }
  destruct (write_cells_spec rows last offset n Hr ltac:(lia) (fun p => cell T p.1 (offset + p.2)) (cells rows last width)) with (t := t) as (H1 & H2 & H3); [|done|].
  { intros [r c] Hin. apply in_cells in Hin as [Hc Hh]. cbn [fst snd]. unfold height in Hh. case_match; lia. }
  split; [done|]. split.
  - intros r c Hc Hh. by rewrite H2 by (apply in_cells; lia).
  - intros r c Hn. apply H3. intros c' -> Hin. apply in_cells in Hin as [Hc Hh]. apply Hn.
    replace (offset + c' - offset)%nat with c' by lia. lia.
Qed.

(** ** Layout *)

(** The layout of a data length that the header checks admit. *)
Record layout_ok (ly : l2_layout) : Prop := {
  lo_blocks : (1 <= ly_blocks ly <= 9)%nat;
  lo_last : 1 <= ly_last ly <= 249;
  lo_octets : ly_octets ly = ((ly_blocks ly - 1) * 249 + Z.to_nat (ly_last ly))%nat;
  lo_rows : ly_fec_rows ly = if fec_octetcount (ly_last ly) =? 0 then (ly_blocks ly - 1)%nat else ly_blocks ly;
  lo_some : 3 <= ly_last ly \/ (2 <= ly_blocks ly)%nat;
  lo_fec : ly_fec_octets ly = ((ly_blocks ly - 1) * 6 + Z.to_nat (fec_octetcount (ly_last ly)))%nat }.

Lemma layout_of datalen : 0 <= vdl2_burst_body_bits datalen -> 0 <= datalen ->
  layout_ok (l2_layout_of datalen) /\ datalen <= VDL2_MAX_FRAME_BITS /\
  ly_octets (l2_layout_of datalen) = Z.to_nat ((datalen + 7) / 8) /\
  vdl2_burst_body_bits datalen = 8 * Z.of_nat (ly_octets (l2_layout_of datalen) + ly_fec_octets (l2_layout_of datalen)).
Proof.
  intros Hb Hd. revert Hb. unfold vdl2_burst_body_bits, l2_layout_of, RS_VDL2_K, RS_VDL2_NROOTS, VDL2_MAX_FRAME_BITS.
  cbv zeta. change (Z.of_nat 249) with 249. change (Z.of_nat 6) with 6.
  destruct (Z.eqb_spec datalen 0); [cbn; lia|]. destruct (Z.ltb_spec 0x3FFF datalen); [cbn; lia|]. cbn [orb].
  set (octets := (datalen + 7) / 8) in *. assert (Ho : 1 <= octets <= 2048) by (unfold octets; lia). clearbody octets.
  set (q := octets / 249) in *. set (m := octets mod 249) in *.
  assert (Hq : octets = 249 * q + m /\ 0 <= m < 249 /\ 0 <= q <= 8) by (unfold q, m; lia). clearbody q m.
  assert (Hf : fec_octetcount m = (if m <? 3 then 0 else if m <? 31 then 2 else if m <? 68 then 4 else 6)) by done.
  change (fec_octetcount 249) with 6. change (6 =? 0) with false. cbv iota.
  destruct (Z.eqb_spec m 0) as [->|Hm0]; [|destruct (Z.ltb_spec m 3); [|destruct (Z.ltb_spec m 31); [|destruct (Z.ltb_spec m 68)]]];
    try change (fec_octetcount 0) with 0; try rewrite Hf;
    match goal with |- context [if ?e =? 0 then -1 else _] => destruct (Z.eqb_spec e 0); intros Hb; [lia|] end;
    (split; [split; cbn [ly_octets ly_blocks ly_last ly_fec_octets ly_fec_rows]; try change (fec_octetcount 249) with 6; try change (fec_octetcount 0) with 0; rewrite ?Hf; cbn [Z.eqb]; lia|]);
    cbn [ly_octets ly_fec_octets]; lia.
Qed.

(** ** Packing *)

Lemma rd_app_l (l k : list Z) i : (i < length l)%nat -> rd (l ++ k) i = rd l i.
Proof. intros Hi. unfold rd. by rewrite app_nth1. Qed.

Lemma length_pack bits n : length (pack_lsbfirst bits n) = n.
Proof. unfold pack_lsbfirst. by rewrite length_map, length_seq. Qed.

(** Packing the bits of octets gives the octets. *)
Lemma pack_octets l tail : is_bytes l -> pack_lsbfirst (octets_bits l ++ tail) (length l) = l.
Proof.
  intros Hl. apply (nth_ext _ _ 0 0); [apply length_pack|]. intros i Hi. rewrite length_pack in Hi.
  unfold pack_lsbfirst. rewrite nth_lookup, list_lookup_fmap', lookup_seq_lt by done. cbn [fmap option_fmap option_map default id from_option Nat.add].
  change (nth i l 0) with (rd l i).
  assert (Hbit : forall j, (j < 8)%nat -> rd (octets_bits l ++ tail) (8 * i + j) = Z.b2z (Z.testbit (rd l i) (Z.of_nat j))).
  { intros j Hj. rewrite <- (rd_slice _ (8 * i) 8) by done. rewrite slice_octets_bits by done.
    unfold octet_bits, rd at 1. rewrite nth_lookup, list_lookup_fmap', lookup_seq_lt by done. done. }
  assert (Hx : is_byte (rd l i)) by by apply rd_byte.
  transitivity (forN 8 (fun j b => Z.lor b (u8 (Z.shiftl (Z.land (Z.b2z (Z.testbit (rd l i) (Z.of_nat j))) 1) (Z.of_nat j)))) 0).
  - unfold forN. cbn [seq fold_left]. rewrite !Hbit by lia. done.
  - assert (Hall : forall n, (n < 256)%nat ->
      forN 8 (fun j b => Z.lor b (u8 (Z.shiftl (Z.land (Z.b2z (Z.testbit (Z.of_nat n) (Z.of_nat j))) 1) (Z.of_nat j)))) 0 = Z.of_nat n).
    { apply (forall_below_eqb (fun n => forN 8 (fun j b => Z.lor b (u8 (Z.shiftl (Z.land (Z.b2z (Z.testbit (Z.of_nat n) (Z.of_nat j))) 1) (Z.of_nat j)))) 0) Z.of_nat).
      vm_compute. reflexivity. }
    unfold is_u in Hx. specialize (Hall (Z.to_nat (rd l i)) ltac:(lia)). by rewrite Z2Nat.id in Hall by lia.
Qed.

(** The header word as bits, most significant first. *)
Definition header_bits (w : Z) : list Z := map (fun k => Z.b2z (Z.testbit w (24 - Z.of_nat k))) (seq 0 25).

Lemma header_word_bits w rest : is_u 25 w -> header_word (header_bits w ++ rest) = w.
Proof.
  intros Hw. unfold is_u in Hw. unfold header_word. change (Z.to_nat VDL2_HDR_BITS) with 25%nat.
  assert (H : forall n, (n <= 25)%nat ->
    fold_left (fun x k => u32 (Z.lor (Z.shiftl x 1) (Z.land (rd (header_bits w ++ rest) k) 1))) (seq 0 n) 0 = Z.shiftr w (25 - Z.of_nat n)).
  { induction n as [|n IH]; intros Hn.
    - cbn. rewrite Z.shiftr_div_pow2 by lia. rewrite Z.div_small; [done|]. exact Hw.
    - rewrite seq_S, fold_left_app. cbn [fold_left Nat.add]. rewrite IH by lia.
      rewrite rd_app_l by (unfold header_bits; rewrite length_map, length_seq; lia).
      assert (E : rd (header_bits w) n = Z.b2z (Z.odd (Z.shiftr w (25 - Z.of_nat (S n))))).
      { unfold header_bits, rd. rewrite nth_lookup, list_lookup_fmap', lookup_seq_lt by lia. cbn.
        rewrite <- Z.bit0_odd, Z.shiftr_spec by lia. f_equal. f_equal. lia. }
      rewrite E. fold (bit (Z.b2z (Z.odd (Z.shiftr w (25 - Z.of_nat (S n)))))). rewrite lor_shiftl1_bit.
      assert (Eo : Z.odd (Z.b2z (Z.odd (Z.shiftr w (25 - Z.of_nat (S n))))) = Z.odd (Z.shiftr w (25 - Z.of_nat (S n)))) by (by destruct (Z.odd (Z.shiftr _ _))).
      rewrite Eo. assert (Ed : Z.shiftr w (25 - Z.of_nat n) = Z.div2 (Z.shiftr w (25 - Z.of_nat (S n)))).
      { rewrite Z.div2_spec, Z.shiftr_shiftr by lia. f_equal. lia. }
      rewrite Ed, <- Z.div2_odd. apply u32_small. rewrite Z.shiftr_div_pow2 by lia. split; [apply Z.div_pos; lia|].
      apply Z.div_lt_upper_bound; [lia|]. nia. }
  rewrite H by lia. apply Z.shiftr_0_r.
Qed.

(** ** Hard decoding of a row *)

(** Symbols that a block of [len] data octets transmits, and the number of them
    received wrong. *)
Definition tx_symbol (len : Z) (p : nat) : bool :=
  (Z.of_nat p <? len) || ((249 <=? Z.of_nat p) && (Z.of_nat p <? 249 + fec_octetcount len)).
Definition symbol_errors (len : Z) (b c : list Z) : nat :=
  length (List.filter (fun p => tx_symbol len p && differs b c p) (seq 0 255)).

Lemma fec_count_same len : short_fec_octetcount len = fec_octetcount len.
Proof. reflexivity. Qed.

Lemma hard_block_short b c len : rs_block b -> codeword c -> 3 <= len <= 249 ->
  (forall p, len <= Z.of_nat p < 249 -> rd b p = rd c p) -> (2 * Z.of_nat (symbol_errors len b c) <= fec_octetcount len) ->
  exists n, rs_vdl2_decode_shortened b len = Some (c, n).
Proof.
  intros Hb Hc Hl Hpad He. rewrite short_decode_eq by done.
  pose proof (short_erasures_valid len [] Hl (NoDup_nil _) ltac:(done)) as HE. rewrite app_nil_r in HE.
  apply (decode_errata b c (structural len) Hb Hc HE). pose proof (length_structural len ltac:(lia)) as Hs. rewrite fec_count_same in Hs.
  assert (Hle : (length (outside (structural len) (diff b c)) <= symbol_errors len b c)%nat).
  { unfold symbol_errors. apply NoDup_incl_length; [apply List.NoDup_filter, NoDup_diff|]. intros p Hp.
    apply in_outside in Hp as [Hp Hs']. apply in_diff in Hp as [Hp Hd]. rewrite (in_structural len) in Hs' by lia.
    apply filter_In. split; [apply in_seq; lia|]. apply andb_true_iff. split.
    - unfold tx_symbol. destruct (Z.ltb_spec (Z.of_nat p) len); [done|]. cbn [orb].
      destruct (Z.leb_spec 249 (Z.of_nat p)); [|exfalso; apply Hd, Hpad; lia]. cbn [andb]. apply Z.ltb_lt.
      rewrite fec_count_same in Hs'. lia.
    - unfold differs. by apply negb_true_iff, Z.eqb_neq. }
  lia.
Qed.

Lemma hard_block_full b c : rs_block b -> codeword c -> (symbol_errors 249 b c <= 3)%nat ->
  exists n, rs_vdl2_decode b = Some (c, n).
Proof.
  intros Hb Hc He. assert (HE : valid_erasures []) by (split; constructor).
  apply (decode_errata b c [] Hb Hc HE). rewrite outside_nil. cbn [length].
  assert (Hle : (length (diff b c) <= symbol_errors 249 b c)%nat).
  { apply NoDup_incl_length; [apply NoDup_diff|]. intros p Hp. apply in_diff in Hp as [Hp Hd].
    apply filter_In. split; [apply in_seq; lia|]. apply andb_true_iff. split.
    - unfold tx_symbol. change (fec_octetcount 249) with 6. destruct (Z.ltb_spec (Z.of_nat p) 249); [done|].
      rewrite (proj2 (Z.leb_le _ _)), (proj2 (Z.ltb_lt _ _)) by lia. done.
    - unfold differs. by apply negb_true_iff, Z.eqb_neq. }
  lia.
Qed.

(** ** Both passes *)

(** The data and parity streams of a table laid out as [ly]. *)
Definition last_fec (ly : l2_layout) : nat :=
  if fec_octetcount (ly_last ly) =? 0 then 6%nat else Z.to_nat (fec_octetcount (ly_last ly)).
Definition data_stream (ly : l2_layout) (t : table) : list Z :=
  interleave (ly_blocks ly) (Z.to_nat (ly_last ly)) 249 0 t.
Definition fec_stream (ly : l2_layout) (t : table) : list Z :=
  interleave (ly_fec_rows ly) (last_fec ly) 6 249 t.

Lemma fec_values len : fec_octetcount len = 0 /\ len < 3 \/ (fec_octetcount len = 2 \/ fec_octetcount len = 4 \/ fec_octetcount len = 6) /\ 3 <= len.
Proof. unfold fec_octetcount. destruct (Z.ltb_spec len 3); [by left|right]. repeat case_match; lia. Qed.

Lemma length_data_stream ly t : layout_ok ly -> length (data_stream ly t) = ly_octets ly.
Proof.
  intros [Hb Hl Ho _ _ _]. unfold data_stream, interleave. rewrite length_map, length_cells by lia. lia.
Qed.

Lemma length_fec_stream ly t : layout_ok ly -> length (fec_stream ly t) = ly_fec_octets ly.
Proof.
  intros [Hb Hl _ Hr Hs Hf]. unfold fec_stream, interleave, last_fec. rewrite length_map.
  destruct (fec_values (ly_last ly)) as [[E H3]|[E H3]]; rewrite Hr, Hf.
  - rewrite E. cbn [Z.eqb Z.to_nat]. rewrite length_cells by lia. lia.
  - rewrite (proj2 (Z.eqb_neq _ 0)) by lia. rewrite length_cells by lia. lia.
Qed.

Lemma nth_replicate_zero m (r c : nat) : cell (replicate m (replicate 255%nat 0)) r c = 0.
Proof.
  unfold cell, trow, rd. rewrite (nth_lookup (replicate m _)). destruct (replicate m _ !! r) as [row|] eqn:E; cbn [default id from_option].
  - apply lookup_replicate in E as [-> _]. rewrite nth_lookup. destruct (replicate _ 0 !! c) as [x|] eqn:Ex; [|done].
    by apply lookup_replicate in Ex as [-> _].
  - by destruct c.
Qed.

(** The rows that the two passes assemble: the transmitted symbols in place,
    zeros elsewhere. *)
Lemma l2_rows_spec ly t : layout_ok ly ->
  exists rows, l2_rows ly (data_stream ly t) (fec_stream ly t) = inl rows /\ wf_table rows (ly_blocks ly) /\
    forall r c, (r < ly_blocks ly)%nat -> (c < 255)%nat ->
      cell rows r c = if (S r <? ly_blocks ly)%nat || tx_symbol (ly_last ly) c then cell t r c else 0.
Proof.
  intros [Hb Hl Ho Hr Hs Hf]. unfold l2_rows, data_stream, fec_stream, RS_VDL2_K, RS_VDL2_NROOTS, RS_VDL2_N.
  set (B := ly_blocks ly) in *. set (last := ly_last ly) in *. set (z := replicate B (replicate 255 0)).
  assert (Hz0 : forall r c, cell z r c = 0) by apply nth_replicate_zero.
  assert (Hz : wf_table z B).
  { split; [apply length_replicate|]. apply Forall_replicate. apply length_replicate. }
  destruct (deinterleave_interleave t z B (Z.to_nat last) 249 0 B) as (t1 & E1 & H1 & H1a & H1b); try lia; [done| |].
  { intros c _. apply Hz0. }
  rewrite E1. assert (H1c : forall r c, (249 <= c)%nat -> cell t1 r c = 0).
  { intros r c Hc. rewrite H1b by lia. apply Hz0. }
  assert (Hfr : (1 <= ly_fec_rows ly <= B)%nat).
  { rewrite Hr. destruct (Z.eqb_spec (fec_octetcount last) 0) as [E|]; [|lia]. destruct (fec_values last) as [[_ H3]|[? _]]; lia. }
  rewrite (proj2 (Nat.eqb_neq _ 0)) by lia.
  destruct (deinterleave_interleave t t1 (ly_fec_rows ly) (last_fec ly) 6 249 B) as (t2 & E2 & H2 & H2a & H2b); try lia; [|done| |].
  { unfold last_fec. fold last. destruct (fec_values last) as [[E _]|[E _]]; destruct (Z.eqb_spec (fec_octetcount last) 0); lia. }
  { intros c Hc. apply H1c. lia. }
  exists t2. split; [exact E2|]. split; [done|]. intros r c Hr' Hc.
  destruct (Nat.lt_ge_cases c 249) as [Hc1|Hc1].
  - rewrite H2b by lia. destruct (decide (r < height B (Z.to_nat last) c)%nat) as [Hh|Hh].
    + pose proof (H1a r c ltac:(lia) Hh) as E. cbn [Nat.add] in E. rewrite E.
      unfold height in Hh. destruct (Nat.ltb_spec (S r) B); [done|]. cbn [orb]. unfold tx_symbol.
      destruct (Nat.ltb_spec c (Z.to_nat last)); [|lia]. by rewrite (proj2 (Z.ltb_lt (Z.of_nat c) last)) by lia.
    + rewrite H1b by (rewrite Nat.sub_0_r; lia). rewrite Hz0.
      unfold height in Hh. destruct (Nat.ltb_spec c (Z.to_nat last)); [lia|].
      rewrite (proj2 (Nat.ltb_ge (S r) B)) by lia. unfold tx_symbol. rewrite (proj2 (Z.ltb_ge (Z.of_nat c) last)) by lia.
      by rewrite (proj2 (Z.leb_gt 249 (Z.of_nat c))) by lia.
  - destruct (decide (r < height (ly_fec_rows ly) (last_fec ly) (c - 249))%nat) as [Hh|Hh].
    + pose proof (H2a r (c - 249)%nat ltac:(lia) Hh) as E. replace (249 + (c - 249))%nat with c in E by lia. rewrite E.
      destruct (Nat.ltb_spec (S r) B); [done|]. cbn [orb]. unfold tx_symbol.
      rewrite (proj2 (Z.leb_le 249 (Z.of_nat c))) by lia. cbn [andb].
      assert (Hlt : Z.of_nat c < 249 + fec_octetcount last).
      { unfold height, last_fec in Hh. fold last in Hh, Hr. rewrite Hr in Hh. destruct (Z.eqb_spec (fec_octetcount last) 0).
        - case_match; lia.
        - destruct (Nat.ltb_spec (c - 249) (Z.to_nat (fec_octetcount last))); lia. }
      rewrite (proj2 (Z.ltb_lt _ _) Hlt). by rewrite orb_true_r.
    + rewrite H2b by lia. rewrite H1c by lia.
      assert (Hcase : (S r <? B)%nat || tx_symbol last c = false).
      { unfold height, last_fec in Hh. fold last in Hh, Hr. rewrite Hr in Hh. unfold tx_symbol.
        rewrite (proj2 (Z.ltb_ge (Z.of_nat c) last)), (proj2 (Z.leb_le 249 (Z.of_nat c))) by lia. cbn [orb andb].
        destruct (fec_values last) as [[E _]|[E _]]; destruct (Z.eqb_spec (fec_octetcount last) 0) as [E0|]; try lia.
        - rewrite (proj2 (Nat.ltb_lt (c - 249) 6)) in Hh by lia. rewrite (proj2 (Nat.ltb_ge (S r) B)) by lia. cbn [orb].
          apply Z.ltb_ge. lia.
        - destruct (Nat.ltb_spec (c - 249) (Z.to_nat (fec_octetcount last))); [lia|].
          rewrite (proj2 (Nat.ltb_ge (S r) B)) by lia. cbn [orb]. apply Z.ltb_ge. lia. }
      by rewrite Hcase.
Qed.

(** ** The block loop *)

(** Every row decodes by hard decision to a block that starts with its data. *)
Fixpoint rows_good (last : Z) (rows : table) (data : list (list Z)) : Prop :=
  match rows, data with
  | [], [] => True
  | b :: rows, d :: data =>
    (exists c n, (match rows with [] => rs_vdl2_decode_shortened b last | _ => rs_vdl2_decode b end) = Some (c, n) /\
      take (match rows with [] => Z.to_nat last | _ => 249%nat end) c = d) /\ rows_good last rows data
  | _, _ => False
  end.

Lemma l2_blocks_good last rows : forall data conf s acc, rows_good last rows data ->
  exists s' out, l2_blocks rows conf last s acc false = (s', Some (acc ++ out, false)) /\ l2_assemble out last = concat data /\ length out = length rows.
Proof.
  induction rows as [|b rows IH]; intros [|d data] conf s acc Hg; try done.
  { exists s, []. rewrite app_nil_r. done. }
  destruct Hg as [(c & n & E & Ht) Hg]. cbn [l2_blocks]. unfold l2_block.
  assert (Eh : (if match rows with [] => true | _ => false end then rs_vdl2_decode_shortened b last else rs_vdl2_decode b) = Some (c, n))
    by (by destruct rows).
  rewrite Eh. cbn [orb].
  destruct (IH data (option_map (fun t : table => tail t) conf) (bump_block false
    (n - (Z.of_nat RS_VDL2_NROOTS - (if match rows with [] => true | _ => false end then fec_octetcount last else Z.of_nat RS_VDL2_NROOTS))) s)
    (acc ++ [c]) Hg) as (s' & out & E2 & Ha & Hl).
  rewrite E2. exists s', (c :: out). rewrite <- app_assoc. split; [done|]. split; [|cbn; lia].
  cbn [concat]. rewrite <- Ha. destruct rows as [|b2 rows].
  - destruct out; [|discriminate Hl]. cbn [l2_assemble]. destruct data; [|done]. by rewrite Ht, app_nil_r.
  - destruct out as [|c2 out]; [discriminate Hl|]. cbn [l2_assemble] in *.
    change RS_VDL2_K with 249%nat. by rewrite Ht.
Qed.

(** ** Reference transmitter *)

(** The data of block [r], and its codeword. *)
Definition tx_block (octets : list Z) (r : nat) : list Z := slice octets (249 * r) 249.
Definition codeword_of (d : list Z) : list Z := rs_vdl2_encode (d ++ replicate (255 - length d) 0).

(** The data octets of block [r]. *)
Definition block_len (ly : l2_layout) (r : nat) : Z := if (S r <? ly_blocks ly)%nat then 249 else ly_last ly.

(** A table received for the octets: in every block at most half as many
    transmitted symbols are wrong as it has parity octets. *)
Definition received (ly : l2_layout) (octets : list Z) (t : table) : Prop :=
  forall r, (r < ly_blocks ly)%nat -> rs_block (trow t r) /\
    2 * Z.of_nat (symbol_errors (block_len ly r) (trow t r) (codeword_of (tx_block octets r))) <= fec_octetcount (block_len ly r).

Lemma codeword_of_spec d : is_bytes d -> (length d <= 249)%nat ->
  codeword (codeword_of d) /\ take (length d) (codeword_of d) = d /\
  forall p, (length d <= p < 249)%nat -> rd (codeword_of d) p = 0.
Proof.
  intros Hd Hl. assert (Hb : rs_block (d ++ replicate (255 - length d) 0)).
  { split; [rewrite length_app, length_replicate; lia|]. apply Forall_app. split; [done|]. apply Forall_replicate. unfold is_u. lia. }
  destruct (encode_spec _ Hb) as [Hc Ht]. fold (codeword_of d) in Hc, Ht. split; [done|]. split.
  - apply (f_equal (take (length d))) in Ht. rewrite !take_take in Ht. replace (length d `min` 249)%nat with (length d) in Ht by lia.
    by rewrite Ht, take_app_length.
  - intros p Hp. apply (f_equal (fun l => rd l p)) in Ht. unfold rd in *. rewrite !nth_lookup in *.
    rewrite !lookup_take_lt in Ht by lia. rewrite Ht, lookup_app_r by lia.
    destruct (replicate _ 0 !! _) eqn:E; [|done]. by apply lookup_replicate in E as [-> _].
Qed.

Lemma tx_block_length ly octets r : layout_ok ly -> length octets = ly_octets ly -> (r < ly_blocks ly)%nat ->
  Z.of_nat (length (tx_block octets r)) = block_len ly r.
Proof.
  intros [Hb Hl Ho _ _ _] Hlen Hr. unfold tx_block, block_len, slice. rewrite length_take, length_drop.
  destruct (Nat.ltb_spec (S r) (ly_blocks ly)); lia.
Qed.

Lemma concat_tx_blocks octets k : (length octets <= 249 * k)%nat -> concat (map (tx_block octets) (seq 0 k)) = octets.
Proof.
  intros Hl. assert (H : forall n, concat (map (tx_block octets) (seq 0 n)) = take (249 * n) octets).
  { induction n as [|n IH]; [by rewrite take_0|]. rewrite seq_S, map_app, concat_app, IH. cbn [map concat Nat.add]. rewrite app_nil_r.
    unfold tx_block, slice. replace (249 * S n)%nat with (249 * n + 249)%nat by lia. by rewrite take_take_drop. }
  rewrite H. apply take_ge. lia.
Qed.

Lemma filter_none {A} (P : A -> bool) l x : length (List.filter P l) = 0%nat -> In x l -> P x = false.
Proof.
  intros Hz Hx. destruct (P x) eqn:E; [|done]. apply length_zero_iff_nil in Hz.
  assert (Hin : In x (List.filter P l)) by by apply filter_In. by rewrite Hz in Hin.
Qed.

Lemma symbol_errors_ext len b b' c : (forall p, (p < 255)%nat -> tx_symbol len p = true -> rd b p = rd b' p) ->
  symbol_errors len b c = symbol_errors len b' c.
Proof.
  unfold symbol_errors. generalize 255%nat. intros n H.
  rewrite (List.filter_ext_in (fun p => tx_symbol len p && differs b c p) (fun p => tx_symbol len p && differs b' c p)); [done|].
  intros p Hp. apply in_seq in Hp. destruct (tx_symbol len p) eqn:Et; [|done]. cbn [andb]. unfold differs. rewrite H by (done || lia). done.
Qed.

Lemma no_error_at len b c p : symbol_errors len b c = 0%nat -> (p < 255)%nat -> tx_symbol len p = true -> rd b p = rd c p.
Proof.
  unfold symbol_errors. generalize 255%nat. intros n Hz Hp Ht.
  assert (Hin : In p (seq 0 n)) by (apply in_seq; clear Hz; lia).
  pose proof (filter_none _ _ p Hz Hin) as Hf. cbv beta in Hf. rewrite Ht in Hf. cbn [andb] in Hf.
  unfold differs in Hf. by apply negb_false_iff, Z.eqb_eq in Hf.
Qed.

Lemma no_errors_prefix len b c k : length b = 255%nat -> length c = 255%nat -> Z.of_nat k <= len <= 249 ->
  symbol_errors len b c = 0%nat -> take k b = take k c.
Proof.
  intros Hb Hc Hk Hz. assert (H : forall p, (p < k)%nat -> rd b p = rd c p).
  { intros p Hp. apply (no_error_at len); [done|lia|]. unfold tx_symbol. by rewrite (proj2 (Z.ltb_lt _ _)) by lia. }
  clear Hz. apply (nth_ext _ _ 0 0); [rewrite !length_take; lia|]. intros p Hp. rewrite length_take in Hp.
  rewrite !nth_lookup, !lookup_take_lt, <- !nth_lookup by lia. apply H. lia.
Qed.

(** A block without parity passes unchecked. *)
Lemma uncoded_passes b len : fec_octetcount len = 0 -> rs_vdl2_decode_shortened b len = Some (b, 0).
Proof. intros E. unfold rs_vdl2_decode_shortened, rs_vdl2_decode_shortened_erasures. by rewrite fec_count_same, E. Qed.

#[local] Opaque symbol_errors codeword_of rs_vdl2_decode rs_vdl2_decode_shortened_erasures.

(** A received row, with what is not transmitted blanked, decodes. *)
Lemma row_decodes ly octets t rows r : layout_ok ly -> is_bytes octets -> length octets = ly_octets ly -> received ly octets t ->
  wf_table rows (ly_blocks ly) -> (r < ly_blocks ly)%nat ->
  (forall c, (c < 255)%nat -> cell rows r c = if (S r <? ly_blocks ly)%nat || tx_symbol (ly_last ly) c then cell t r c else 0) ->
  exists c n, (if (S r <? ly_blocks ly)%nat then rs_vdl2_decode (trow rows r) else rs_vdl2_decode_shortened (trow rows r) (ly_last ly)) = Some (c, n) /\
    take (Z.to_nat (block_len ly r)) c = tx_block octets r.
Proof.
  intros Hly Hoct Hlen Hrx Hwf Hr Hcell. destruct (Hrx r Hr) as [[Htl Htb] He].
  pose proof (tx_block_length ly octets r Hly Hlen Hr) as Hd. set (d := tx_block octets r) in *.
  assert (Hdl : (length d <= 249)%nat) by (unfold block_len in Hd; pose proof (lo_last _ Hly); case_match; lia).
  destruct (codeword_of_spec d) as (Hc & Hct & Hcz); [by apply slice_bytes|done|].
  assert (Hrow : rs_block (trow rows r)).
  { split; [by apply (trow_length _ (ly_blocks ly))|]. apply List.Forall_forall. intros x Hx. apply (In_nth _ _ 0) in Hx as (c & Hc1 & <-).
    rewrite (trow_length _ (ly_blocks ly)) in Hc1 by done. fold (rd (trow rows r) c). fold (cell rows r c). rewrite Hcell by done.
    case_match; [by apply rd_byte|unfold is_u; lia]. }
  assert (Hsame : symbol_errors (block_len ly r) (trow rows r) (codeword_of d) = symbol_errors (block_len ly r) (trow t r) (codeword_of d)).
  { apply symbol_errors_ext. intros p Hp Et. fold (cell rows r p) (cell t r p). rewrite Hcell by lia.
    unfold block_len in Et. destruct (S r <? ly_blocks ly)%nat; cbn [orb]; [done|]. by rewrite Et. }
  rewrite <- Hsame in He. rewrite <- Hd, Nat2Z.id.
  unfold block_len in *. destruct (Nat.ltb_spec (S r) (ly_blocks ly)) as [Hlt|Hge].
  - change (fec_octetcount 249) with 6 in He. destruct (hard_block_full _ _ Hrow Hc ltac:(lia)) as [n E].
    exists (codeword_of d), n. split; [exact E|exact Hct].
  - assert (Hpad : forall p, ly_last ly <= Z.of_nat p < 249 -> rd (trow rows r) p = rd (codeword_of d) p).
    { intros p Hp. rewrite Hcz by lia. fold (cell rows r p). rewrite Hcell by lia. cbn [orb].
      unfold tx_symbol. rewrite (proj2 (Z.ltb_ge _ _)), (proj2 (Z.leb_gt 249 _)) by lia. done. }
    destruct (fec_values (ly_last ly)) as [[Ef H3]|[Ef H3]].
    + exists (trow rows r), 0. split.
      * by apply uncoded_passes.
      * rewrite <- Hct at 2. apply (no_errors_prefix (ly_last ly)); [apply Hrow|apply Hc|lia|lia].
    + destruct (hard_block_short _ _ (ly_last ly) Hrow Hc ltac:(pose proof (lo_last _ Hly); lia) Hpad He) as [n E].
      exists (codeword_of d), n. split; [exact E|exact Hct].
Qed.

Lemma rows_good_seq ly octets t rows : layout_ok ly -> is_bytes octets -> length octets = ly_octets ly -> received ly octets t ->
  wf_table rows (ly_blocks ly) ->
  (forall r c, (r < ly_blocks ly)%nat -> (c < 255)%nat ->
     cell rows r c = if (S r <? ly_blocks ly)%nat || tx_symbol (ly_last ly) c then cell t r c else 0) ->
  rows_good (ly_last ly) rows (map (tx_block octets) (seq 0 (ly_blocks ly))).
Proof.
  intros Hly Hoct Hlen Hrx Hwf Hcell.
  assert (Hrows : rows = map (trow rows) (seq 0 (ly_blocks ly))).
  { destruct Hwf as [Hl _]. apply (nth_ext _ _ [] []); [by rewrite length_map, length_seq|]. intros r Hr.
    rewrite (nth_lookup (map _ _)), list_lookup_fmap', lookup_seq_lt by lia. done. }
  rewrite Hrows at 1. assert (Hk : forall k s, (s + k = ly_blocks ly)%nat ->
    rows_good (ly_last ly) (map (trow rows) (seq s k)) (map (tx_block octets) (seq s k))).
  { induction k as [|k IH]; intros s Hs; [done|]. cbn [seq map rows_good]. split; [|apply IH; lia].
    destruct (row_decodes ly octets t rows s Hly Hoct Hlen Hrx Hwf ltac:(lia)) as (c & n & E & Ht); [intros c Hc; apply Hcell; lia|].
    exists c, n. unfold block_len in Ht. destruct k as [|k]; cbn [seq map].
    - rewrite (proj2 (Nat.ltb_ge (S s) _)) in E, Ht by lia. done.
    - rewrite (proj2 (Nat.ltb_lt (S s) _)) in E, Ht by lia. done. }
  apply Hk. lia.
Qed.

(** The streams of a table of octets are octets. *)
Lemma stream_bytes ly t : layout_ok ly -> (forall r c, (r < ly_blocks ly)%nat -> is_byte (cell t r c)) ->
  is_bytes (data_stream ly t ++ fec_stream ly t).
Proof.
  intros [Hb _ _ Hr _ _] Ht. apply List.Forall_app. unfold data_stream, fec_stream, interleave.
  split; apply List.Forall_forall; intros x Hx; apply in_map_iff in Hx as ([r c] & <- & Hin); apply in_cells in Hin as [_ Hh]; apply Ht;
    cbn [fst]; unfold height in Hh; rewrite ?Hr in Hh; repeat case_match; lia.
Qed.

(** Packing splits the body into its two streams. *)
Lemma pack_body ly t bits h rest : layout_ok ly -> is_bytes (data_stream ly t ++ fec_stream ly t) ->
  bits = h ++ octets_bits (data_stream ly t ++ fec_stream ly t) ++ rest -> length h = 25%nat ->
  pack_lsbfirst (drop 25 bits) (ly_octets ly) = data_stream ly t /\
  pack_lsbfirst (drop (25 + 8 * ly_octets ly) bits) (ly_fec_octets ly) = fec_stream ly t.
Proof.
  intros Hly Hb -> Hh. apply List.Forall_app in Hb as [Hb1 Hb2].
  assert (E : octets_bits (data_stream ly t ++ fec_stream ly t) = octets_bits (data_stream ly t) ++ octets_bits (fec_stream ly t)).
  { unfold octets_bits. by rewrite map_app, concat_app. }
  rewrite E, <- drop_drop, drop_app_length' by done. split.
  - rewrite <- (length_data_stream ly t Hly), <- app_assoc. by apply pack_octets.
  - rewrite <- (length_data_stream ly t Hly), <- (length_octets_bits (data_stream ly t)), <- app_assoc, drop_app_length.
    rewrite <- (length_fec_stream ly t Hly). by apply pack_octets.
Qed.

(** C4: end to end, the L2 feed inverts the transmitter.  For any frames whose
    stuffed burst has an admissible length, packed into octets, protected by
    the block code and interleaved, a transmission in which every Reed-Solomon
    block has at most half as many wrong symbols as parity octets (in any of its
    transmitted symbols) yields exactly those frames in order, whatever the
    soft bits, trailing bits and earlier state. *)
Theorem vdl2_l2_round_trip st fs octets t soft rest :
  length (l2_frame st) = 2048%nat -> frames_ok fs -> fs <> [] ->
  let datalen := Z.of_nat (length (hdlc_burst fs)) in
  let ly := l2_layout_of datalen in
  0 <= vdl2_burst_body_bits datalen ->
  is_bytes octets -> length octets = ly_octets ly -> stream_bits true octets (length (hdlc_burst fs)) = hdlc_burst fs ->
  received ly octets t ->
  let bits := header_bits (vdl2_hdr_encode datalen) ++ octets_bits (data_stream ly t ++ fec_stream ly t) ++ rest in
  let '(st', rc, frames) := vdl2_l2_feed st bits soft in
  rc = Z.of_nat (length fs) /\ frames = map (fun x => parse_and_emit x.2 (length x.2)) fs /\ length (l2_frame st') = 2048%nat.
Proof.
  intros Hbuf Hfs Hne datalen ly Hbody Hoct Hlen Hstream Hrx bits.
  destruct (layout_of datalen Hbody ltac:(lia)) as (Hly & Hmax & _ & Hbits). fold ly in Hly, Hbits.
  assert (Htb : forall r c, (r < ly_blocks ly)%nat -> is_byte (cell t r c)) by (intros r c Hr; apply rd_byte, (Hrx r Hr)).
  set (body := data_stream ly t ++ fec_stream ly t) in *.
  assert (Hbb : is_bytes body) by (apply stream_bytes; done).
  assert (Hhl : length (header_bits (vdl2_hdr_encode datalen)) = 25%nat) by (unfold header_bits; by rewrite length_map, length_seq).
  assert (Hbl : length body = (ly_octets ly + ly_fec_octets ly)%nat).
  { unfold body. by rewrite length_app, length_data_stream, length_fec_stream. }
  assert (Hd17 : 0 <= datalen < 2 ^ 17) by (unfold VDL2_MAX_FRAME_BITS in Hmax; lia).
  destruct (hdr_encode_spec datalen Hd17) as (Hu & _ & _).
  assert (Hn : length bits = (25 + (8 * length body + length rest))%nat) by (unfold bits; by rewrite !length_app, length_octets_bits, Hhl).
  unfold vdl2_l2_feed. rewrite Hn. rewrite (proj2 (Z.ltb_ge _ VDL2_HDR_BITS)) by (change VDL2_HDR_BITS with 25; lia).
  unfold bits at 1. rewrite header_word_bits by (unfold is_u in *; lia). rewrite hdr_encode_decodes by done.
  change (0 <? 0) with false. cbv iota beta zeta. rewrite (proj2 (Z.ltb_ge _ 0)) by done.
  rewrite (proj2 (Z.ltb_ge _ (VDL2_HDR_BITS + _))) by (rewrite Hbits; change VDL2_HDR_BITS with 25; lia).
  fold ly. change (Z.to_nat VDL2_HDR_BITS) with 25%nat.
  destruct (pack_body ly t bits (header_bits (vdl2_hdr_encode datalen)) rest Hly Hbb eq_refl Hhl) as [-> ->].
  destruct (l2_rows_spec ly t Hly) as (rows & -> & Hwf & Hcell).
  pose proof (rows_good_seq ly octets t rows Hly Hoct Hlen Hrx Hwf Hcell) as Hgood.
  destruct (l2_blocks_good _ _ _ (l2_confidence ly soft) (bump_fed (l2_stats st)) [] Hgood) as (s' & out & -> & Ha & _).
  cbn [app]. rewrite Ha, concat_tx_blocks by (rewrite Hlen, (lo_octets _ Hly); pose proof (lo_last _ Hly); pose proof (lo_blocks _ Hly); lia).
  unfold avlc_deframe_octets. replace (Z.to_nat datalen) with (length (hdlc_burst fs)) by lia. rewrite Hstream.
  destruct (deframe_burst (l2_frame st) fs Hbuf Hfs Hne) as (buf & -> & Hl'). rewrite length_map. done.
Qed.

(** A sample transmission: two frames in one short block, with one wrong
    symbol. *)
Definition sample_fs : list (nat * list Z) := [(2%nat, sample_avlc); (0%nat, [0x7E])].
Definition sample_octets : list Z := pack_lsbfirst (hdlc_burst sample_fs ++ replicate 7 0) (Nat.div (length (hdlc_burst sample_fs) + 7) 8).
Definition sample_table : table := [<[2%nat := 0x99]> (codeword_of (tx_block sample_octets 0))].
Definition sample_l2 : l2_state := L2State (L2Stats 0 0 0 0 0 0 0 0 0 0) (replicate 2048 0).
Definition sample_layout : l2_layout := l2_layout_of (Z.of_nat (length (hdlc_burst sample_fs))).
Definition sample_bits : list Z :=
  header_bits (vdl2_hdr_encode (Z.of_nat (length (hdlc_burst sample_fs)))) ++
  octets_bits (data_stream sample_layout sample_table ++ fec_stream sample_layout sample_table) ++ [1; 1].

Lemma sample_received : received sample_layout sample_octets sample_table.
Proof.
  intros r Hr. assert (Eb : ly_blocks sample_layout = 1%nat) by (vm_compute; reflexivity). rewrite Eb in Hr.
  assert (r = 0%nat) as -> by lia. split.
  - split; [vm_compute; reflexivity|apply (bool_decide_unpack _); vm_compute; reflexivity].
  - apply Z.leb_le. vm_compute. reflexivity.
Qed.

Lemma vdl2_l2_round_trip_witness :
  (vdl2_l2_feed sample_l2 sample_bits None).2 =
  [parse_and_emit sample_avlc (length sample_avlc); invalid_frame AVLC_KIND_TOO_SHORT [0x7E]].
Proof.
  assert (Hb : 0 <= vdl2_burst_body_bits (Z.of_nat (length (hdlc_burst sample_fs)))) by (apply Z.leb_le; vm_compute; reflexivity).
  assert (Ho : is_bytes sample_octets) by (apply (bool_decide_unpack _); vm_compute; reflexivity).
  assert (Hl : length sample_octets = ly_octets sample_layout) by (vm_compute; reflexivity).
  assert (Hs : stream_bits true sample_octets (length (hdlc_burst sample_fs)) = hdlc_burst sample_fs) by (vm_compute; reflexivity).
  pose proof (vdl2_l2_round_trip sample_l2 sample_fs sample_octets sample_table None [1; 1] (length_replicate 2048 0) sample_avlc_ok
    ltac:(discriminate) Hb Ho Hl Hs sample_received) as H. cbv zeta in H. change (vdl2_l2_feed _ _ None) with (vdl2_l2_feed sample_l2 sample_bits None) in H.
  destruct (vdl2_l2_feed sample_l2 sample_bits None) as [[st rc] frames]. destruct H as (_ & H & _). exact H.
Defined.

(** ** Outcomes *)

Definition stats_ok (s : vdl2_l2_stats) : Prop :=
  is_u 32 (ls_hdr_reject s) /\ is_u 32 (ls_truncated s) /\ is_u 32 (ls_rs_blocks_fail s) /\ is_u 32 (ls_avlc_frames s).

(** The counters that the block loop leaves alone, and its failure counter. *)
Lemma l2_blocks_stats last rows : forall conf s acc er s' res, l2_blocks rows conf last s acc er = (s', res) ->
  ls_fed s' = ls_fed s /\ ls_hdr_reject s' = ls_hdr_reject s /\ ls_truncated s' = ls_truncated s /\
  ls_avlc_frames s' = ls_avlc_frames s /\
  ls_rs_blocks_fail s' = match res with None => u32 (ls_rs_blocks_fail s + 1) | Some _ => ls_rs_blocks_fail s end.
Proof.
  induction rows as [|b rows IH]; intros conf s acc er s' res H; cbn [l2_blocks] in H; [by injection H as <- <-|].
  destruct (l2_block _ _ _ _) as [[[c corr] r]|].
  - apply IH in H. destruct s as [f0 f1 f2 f3 f4 f5 f6 f7 f8 f9]. exact H.
  - injection H as <- <-. by destruct s.
Qed.

Lemma taps_stats er frames : forall s, let s' := fold_left (l2_avlc_tap er) frames s in
  ls_fed s' = ls_fed s /\ ls_hdr_reject s' = ls_hdr_reject s /\ ls_truncated s' = ls_truncated s /\
  ls_avlc_frames s' = ls_avlc_frames s /\ ls_rs_blocks_fail s' = ls_rs_blocks_fail s.
Proof.
  induction frames as [|f frames IH]; intros s; [done|]. cbn [fold_left]. destruct (IH (l2_avlc_tap er s f)) as (-> & -> & -> & -> & ->).
  destruct s as [f0 f1 f2 f3 f4 f5 f6 f7 f8 f9]. unfold l2_avlc_tap. destruct er; [|done]. by destruct (af_kind f).
Qed.

(** The geometry of an admissible length never fails. *)
Lemma l2_rows_total ly data fec : layout_ok ly -> length data = ly_octets ly -> length fec = ly_fec_octets ly ->
  exists rows, l2_rows ly data fec = inl rows.
Proof.
  intros [Hb Hl Ho Hr Hs Hf] Hd Hfl. unfold l2_rows, RS_VDL2_K, RS_VDL2_NROOTS.
  rewrite (deinterleave_eq data (ly_blocks ly) (Z.to_nat (ly_last ly)) 249 0) by lia.
  destruct (fec_values (ly_last ly)) as [[E H3]|[E H3]].
  - rewrite E in *. cbn [Z.eqb Z.to_nat] in *. rewrite (proj2 (Nat.eqb_neq _ 0)) by lia.
    rewrite (deinterleave_eq fec (ly_fec_rows ly) 6 6 249) by lia. by eexists.
  - rewrite (proj2 (Z.eqb_neq _ 0)) in Hr by lia. rewrite (proj2 (Nat.eqb_neq _ 0)) by lia.
    rewrite (deinterleave_eq fec (ly_fec_rows ly) (Z.to_nat (fec_octetcount (ly_last ly))) 6 249) by lia. by eexists.
Qed.

Lemma u32_same z : is_u 32 z -> u32 (z + 0) = z.
Proof. intros H. rewrite Z.add_0_r. by apply u32_small. Qed.

(** What a result of the feed says about the counters and the deframer. *)
Definition l2_outcome (st : l2_state) (res : l2_state * Z * list avlc_frame) : Prop :=
  let '(st', rc, frames) := res in
  let s := l2_stats st in let s' := l2_stats st' in
  ((0 <= rc /\ rc = Z.of_nat (length frames)) \/
   ((rc = VDL2_L2_ERR_HEADER \/ rc = VDL2_L2_ERR_TRUNC \/ rc = VDL2_L2_ERR_RS) /\ frames = [] /\ l2_frame st' = l2_frame st)) /\
  ls_fed s' = u32 (ls_fed s + 1) /\
  ls_hdr_reject s' = u32 (ls_hdr_reject s + Z.b2z (rc =? VDL2_L2_ERR_HEADER)) /\
  ls_truncated s' = u32 (ls_truncated s + Z.b2z (rc =? VDL2_L2_ERR_TRUNC)) /\
  ls_rs_blocks_fail s' = u32 (ls_rs_blocks_fail s + Z.b2z (rc =? VDL2_L2_ERR_RS)) /\
  ls_avlc_frames s' = u32 (ls_avlc_frames s + Z.max 0 rc).

Lemma outcome_hdr st : stats_ok (l2_stats st) ->
  l2_outcome st (L2State (bump_hdr (bump_fed (l2_stats st))) (l2_frame st), VDL2_L2_ERR_HEADER, []).
Proof.
  destruct st as [[f0 f1 f2 f3 f4 f5 f6 f7 f8 f9] buf]. intros (O1 & O2 & O3 & O4). cbn in *. rewrite !u32_same by done. split; [right; tauto|done].
Qed.

Lemma outcome_trunc st : stats_ok (l2_stats st) ->
  l2_outcome st (L2State (bump_trunc (bump_fed (l2_stats st))) (l2_frame st), VDL2_L2_ERR_TRUNC, []).
Proof.
  destruct st as [[f0 f1 f2 f3 f4 f5 f6 f7 f8 f9] buf]. intros (O1 & O2 & O3 & O4). cbn in *. rewrite !u32_same by done. split; [right; tauto|done].
Qed.

Lemma outcome_fail st rows conf last s' : stats_ok (l2_stats st) ->
  l2_blocks rows conf last (bump_fed (l2_stats st)) [] false = (s', None) ->
  l2_outcome st (L2State s' (l2_frame st), VDL2_L2_ERR_RS, []).
Proof.
  intros (O1 & O2 & O3 & O4) EB. apply l2_blocks_stats in EB as (E1 & E2 & E3 & E4 & E5).
  destruct st as [[f0 f1 f2 f3 f4 f5 f6 f7 f8 f9] buf]. cbn in *. rewrite E1, E2, E3, E4, E5, !u32_same by done. split; [right; tauto|done].
Qed.

Lemma outcome_frames st rows conf last s' out er frames buf' : stats_ok (l2_stats st) ->
  l2_blocks rows conf last (bump_fed (l2_stats st)) [] false = (s', Some (out, er)) ->
  l2_outcome st (L2State (bump_frames (Z.of_nat (length frames)) (fold_left (l2_avlc_tap er) frames s')) buf', Z.of_nat (length frames), frames).
Proof.
  intros (O1 & O2 & O3 & O4) EB. apply l2_blocks_stats in EB as (E1 & E2 & E3 & E4 & E5).
  destruct (taps_stats er frames s') as (T1 & T2 & T3 & T4 & T5). set (s2 := fold_left _ frames s') in *. clearbody s2.
  set (nf := Z.of_nat (length frames)). assert (Hnf : 0 <= nf) by (unfold nf; lia).
  unfold l2_outcome, VDL2_L2_ERR_HEADER, VDL2_L2_ERR_TRUNC, VDL2_L2_ERR_RS. rewrite (proj2 (Z.eqb_neq nf (-1))), (proj2 (Z.eqb_neq nf (-2))), (proj2 (Z.eqb_neq nf (-3))) by lia.
  cbn [Z.b2z l2_stats]. rewrite !u32_same by done. rewrite Z.max_r by done. split; [left; done|].
  destruct st as [[f0 f1 f2 f3 f4 f5 f6 f7 f8 f9] buf], s2 as [g0 g1 g2 g3 g4 g5 g6 g7 g8 g9]. cbn in *.
  repeat (split; [congruence|]). rewrite T4, E4. destruct (Z.ltb_spec 0 nf); [done|].
  replace nf with 0 by lia. by rewrite u32_same.
Qed.

(** Outcomes.  For every bit vector and soft bits the feed returns the
    number of frames it delivered, or the header, truncation or Reed-Solomon
    error with no frame delivered and the deframer untouched; the internal
    geometry error never occurs.  The transmission is counted once, and
    rejections, truncations, failed blocks and frames are counted exactly
    under that outcome. *)
Theorem vdl2_l2_outcome st bits soft : stats_ok (l2_stats st) -> l2_outcome st (vdl2_l2_feed st bits soft).
Proof.
  intros Hok. unfold vdl2_l2_feed. cbv zeta.
  destruct (Z.of_nat (length bits) <? VDL2_HDR_BITS); [by apply outcome_hdr|].
  destruct (vdl2_hdr_decode (header_word bits) 0) as [[r w] datalen] eqn:Eh. destruct (Z.ltb_spec r 0); [by apply outcome_hdr|].
  destruct (hdr_decode_sound _ _ _ _ _ Eh ltac:(lia)) as (Hd & _). clear Eh.
  destruct (Z.ltb_spec (vdl2_burst_body_bits datalen) 0); [by apply outcome_hdr|].
  destruct (Z.of_nat (length bits) <? VDL2_HDR_BITS + vdl2_burst_body_bits datalen); [by apply outcome_trunc|].
  destruct (layout_of datalen ltac:(lia) ltac:(lia)) as (Hly & _). set (ly := l2_layout_of datalen) in *. clearbody ly.
  destruct (l2_rows_total ly (pack_lsbfirst (drop (Z.to_nat VDL2_HDR_BITS) bits) (ly_octets ly))
    (pack_lsbfirst (drop (Z.to_nat VDL2_HDR_BITS + 8 * ly_octets ly) bits) (ly_fec_octets ly)) Hly) as [rows ->]; [apply length_pack..|].
  destruct (l2_blocks rows _ _ _ _ _) as [s' [[out er]|]] eqn:EB; [|by apply (outcome_fail st rows _ _ s' Hok EB)].
  destruct (avlc_deframe_octets _ _ _) as [frames buf']. by apply (outcome_frames st rows _ _ s' out er frames buf' Hok EB).
Qed.

Lemma vdl2_l2_outcome_witness : l2_outcome sample_l2 (vdl2_l2_feed sample_l2 (take 50 sample_bits) None).
Proof. apply vdl2_l2_outcome. split_and!; cbn; unfold is_u; lia. Defined.

(** A header that only the soft decoder can rescue is always dropped here.
    The feed re-decodes the header bits by hard decision alone, so whatever
    confidences come with them, a transmission whose received header the hard
    decoder rejects returns the header error; and there are such headers, of an
    admissible length, that [vdl2_hdr_decode_soft] decodes. *)
Theorem vdl2_l2_drops_soft_headers :
  (forall w rest soft st, is_u 25 w -> (vdl2_hdr_decode w 0).1.1 < 0 ->
     vdl2_l2_feed st (header_bits w ++ rest) soft =
     (L2State (bump_hdr (bump_fed (l2_stats st))) (l2_frame st), VDL2_L2_ERR_HEADER, [])) /\
  (exists w conf, is_u 25 w /\ (vdl2_hdr_decode w 0).1.1 < 0 /\
     0 <= (vdl2_hdr_decode_soft w (Some conf) 0).1.1 /\
     0 <= vdl2_burst_body_bits (vdl2_hdr_decode_soft w (Some conf) 0).2).
Proof.
  split.
  - intros w rest soft st Hw Hr. unfold vdl2_l2_feed. cbv zeta.
    destruct (Z.of_nat (length (header_bits w ++ rest)) <? VDL2_HDR_BITS); [done|].
    rewrite header_word_bits by done. destruct (vdl2_hdr_decode w 0) as [[r w'] len]. cbn [fst] in Hr.
    by rewrite (proj2 (Z.ltb_lt r 0) Hr).
  - exists sample_hdr, sample_conf. split; [split; vm_compute; congruence|].
    split; [vm_compute; reflexivity|]. split; vm_compute; congruence.
Qed.

(** ** Weakest symbols *)

Section weakest.
Context (conf : list Z) (cand : nat -> bool).

Definition free (taken : list nat) (p : nat) : Prop := (p < 255)%nat /\ cand p = true /\ ~ In p taken.

(** The scan finds a least confident free position, if there is any. *)
Lemma weakest_scan_spec taken :
  match weakest_scan conf cand taken with
  | None => forall p, ~ free taken p
  | Some (p, v) => free taken p /\ v = rd conf p /\ forall q, free taken q -> rd conf p <= rd conf q
  end.
Proof.
  unfold weakest_scan, RS_VDL2_N, free.
  assert (H : forall n, match fold_left (fun best p =>
      if negb (cand p) || existsb (Nat.eqb p) taken then best
      else match best with None => Some (p, rd conf p) | Some (_, bc) => if rd conf p <? bc then Some (p, rd conf p) else best end)
      (seq 0 n) None with
    | None => forall p, ~ ((p < n)%nat /\ cand p = true /\ ~ In p taken)
    | Some (p, v) => ((p < n)%nat /\ cand p = true /\ ~ In p taken) /\ v = rd conf p /\
        forall q, ((q < n)%nat /\ cand q = true /\ ~ In q taken) -> rd conf p <= rd conf q
    end); [|apply H].
  induction n as [|n IH]; [intros p; lia|]. rewrite seq_S, fold_left_app. cbn [fold_left Nat.add].
  set (best := fold_left _ (seq 0 n) None) in *. clearbody best.
  assert (Ht : existsb (Nat.eqb n) taken = true <-> In n taken).
  { rewrite existsb_exists. split; [intros (x & Hx & E); apply Nat.eqb_eq in E; by subst x|intros Hx; exists n; by rewrite Nat.eqb_refl]. }
  assert (Hsplit : forall q, (q < S n)%nat -> (q < n)%nat \/ q = n) by lia.
  destruct (cand n) eqn:Ec; cbn [negb orb].
  2:{ destruct best as [[p v]|].
      - destruct IH as ((H1 & H2 & H3) & -> & H4). split; [split; [lia|done]|]. split; [done|].
        intros q (Hq & Hq2 & Hq3). apply H4. destruct (Hsplit q Hq) as [| ->]; [done|congruence].
      - intros q (Hq & Hq2 & Hq3). apply (IH q). destruct (Hsplit q Hq) as [| ->]; [done|congruence]. }
  destruct (existsb (Nat.eqb n) taken).
  { destruct best as [[p v]|].
    - destruct IH as ((H1 & H2 & H3) & -> & H4). split; [split; [lia|done]|]. split; [done|].
      intros q (Hq & Hq2 & Hq3). apply H4. destruct (Hsplit q Hq) as [| ->]; [done|]. exfalso. by apply Hq3, Ht.
    - intros q (Hq & Hq2 & Hq3). apply (IH q). destruct (Hsplit q Hq) as [| ->]; [done|]. exfalso. by apply Hq3, Ht. }
  assert (Hnt : ~ In n taken) by (intros Hin; by apply Ht in Hin).
  destruct best as [[p v]|].
  - destruct IH as ((H1 & H2 & H3) & -> & H4). destruct (Z.ltb_spec (rd conf n) (rd conf p)).
    + split; [split; [lia|done]|]. split; [done|]. intros q (Hq & Hq2 & Hq3). destruct (Hsplit q Hq) as [Hqn| ->]; [|lia].
      specialize (H4 q (conj Hqn (conj Hq2 Hq3))). lia.
    + split; [split; [lia|done]|]. split; [done|]. intros q (Hq & Hq2 & Hq3). destruct (Hsplit q Hq) as [Hqn| ->]; [|lia].
      exact (H4 q (conj Hqn (conj Hq2 Hq3))).
  - split; [split; [lia|done]|]. split; [done|]. intros q (Hq & Hq2 & Hq3). destruct (Hsplit q Hq) as [Hqn| ->]; [|lia].
    exfalso. exact (IH q (conj Hqn (conj Hq2 Hq3))).
Qed.

Lemma select_loop_spec count : forall taken, List.NoDup taken ->
  exists new, select_loop conf cand count taken = taken ++ new /\ List.NoDup (taken ++ new) /\
    (forall p, In p new -> (p < 255)%nat /\ cand p = true) /\
    (forall p q, In p new -> free (taken ++ new) q -> rd conf p <= rd conf q) /\
    (length new = count \/ ((length new < count)%nat /\ forall p, ~ free (taken ++ new) p)).
Proof.
  induction count as [|count IH]; intros taken Hnd; cbn [select_loop].
  { exists []. rewrite app_nil_r. split; [done|]. split; [done|]. split; [done|]. split; [done|]. by left. }
  pose proof (weakest_scan_spec taken) as Hs. destruct (weakest_scan conf cand taken) as [[p v]|].
  2:{ exists []. rewrite app_nil_r. split; [done|]. split; [done|]. split; [done|]. split; [done|]. right. split; [cbn; lia|done]. }
  destruct Hs as ((Hp1 & Hp2 & Hp3) & _ & Hmin).
  destruct (IH (taken ++ [p])) as (new & E & H1 & H2 & H3 & H4).
  { apply NoDup_app; [done|repeat constructor; intros []|]. intros x Hx [->|[]]. done. }
  exists (p :: new). rewrite E, <- app_assoc in *. cbn [app] in *. split; [done|]. split; [done|]. split.
  { intros q [<-|Hq]; [done|by apply H2]. }
  split.
  - intros x q [<-|Hx] Hq; [|by apply H3]. apply Hmin. destruct Hq as (Hq1 & Hq2 & Hq3). split; [done|]. split; [done|].
    intros Hin. apply Hq3, in_app_iff. by left.
  - destruct H4 as [H4|[H4 H5]]; [left; cbn; lia|right; split; [cbn; lia|done]].
Qed.

(** Fewer rounds select a prefix. *)
Lemma select_loop_prefix k : forall count taken, (k <= count)%nat ->
  select_loop conf cand k taken = take (length taken + k) (select_loop conf cand count taken).
Proof.
  induction k as [|k IH]; intros count taken Hk.
  - cbn [select_loop]. revert taken. clear Hk. induction count as [|count IHc]; intros taken; cbn [select_loop].
    + by rewrite take_ge by lia.
    + destruct (weakest_scan conf cand taken) as [[p v]|]; [|by rewrite take_ge by lia].
      specialize (IHc (taken ++ [p])). rewrite length_app in IHc. cbn [length] in IHc.
      apply (f_equal (take (length taken))) in IHc. rewrite take_take, take_app_length in IHc.
      etrans; [exact IHc|]. f_equal. lia.
  - destruct count as [|count]; [lia|]. cbn [select_loop]. destruct (weakest_scan conf cand taken) as [[p v]|]; [|by rewrite take_ge by lia].
    rewrite (IH count) by lia. rewrite length_app. cbn [length]. f_equal. lia.
Qed.
End weakest.

(** The erasure candidates.  [select_weakest_confined] picks distinct
    transmitted positions of the row (data octets or transmitted parity, never
    the zero pad or a structural erasure), as many as asked for unless it
    exhausts them, and no unpicked transmitted position is less reliable than
    a picked one; a smaller request picks a prefix, so the rungs of the sweep
    nest.  [select_weakest] does the same over all 255 positions. *)
Theorem l2_select_weakest conf count len :
  let fec := fec_octetcount len in
  let ok (cand : nat -> bool) (select : nat -> list nat) :=
    let sel := select count in
    List.NoDup sel /\ (forall p, In p sel -> (p < 255)%nat /\ cand p = true) /\
    (forall p q, In p sel -> (q < 255)%nat -> cand q = true -> ~ In q sel -> rd conf p <= rd conf q) /\
    (length sel = count \/ forall q, (q < 255)%nat -> cand q = true -> In q sel) /\
    (forall k, (k <= count)%nat -> select k = take k sel) in
  ok (tx_symbol len) (fun n => select_weakest_confined conf n len fec) /\
  ok (fun _ => true) (fun n => select_weakest conf n).
Proof.
  intros fec ok. assert (H : forall cand, ok cand (fun n => select_loop conf cand n [])); [|split; apply H].
  intros cand. unfold ok. destruct (select_loop_spec conf cand count [] (NoDup_nil _)) as (new & E & H1 & H2 & H3 & H4).
  cbn [app] in *. rewrite E. split; [done|]. split; [done|]. split.
  - intros p q Hp Hq Hc Hn. by apply H3.
  - split.
    + destruct H4 as [|[_ H4]]; [by left|right]. intros q Hq Hc. destruct (in_dec Nat.eq_dec q new); [done|]. exfalso. by apply (H4 q).
    + intros k Hk. rewrite (select_loop_prefix conf cand k count []) by done. cbn [length Nat.add]. by rewrite E.
Qed.
