(* ===== verification/UsbRing.v ===== *)
(** The USB ingest byte ring
    (src/p4-usb-host/main/usbring_ring.h and usbring.c): free-running 32-bit
    counters, all-or-nothing writes split at the wrap, zero-copy peeks.

    The operations are functions on the module's static state.  Producer and
    consumer run on different cores, so the section on interleaving gives the
    same operations as steps between their atomic loads, copies and stores, and
    the ring is shown to refine a FIFO of octets under every interleaving. *)

From S2P Require Import Prelude.

(** ** Index arithmetic *)

Definition usbring_is_pow2_capacity (capacity : Z) : bool :=
  negb (capacity =? 0) && (Z.land capacity (u32 (capacity - 1)) =? 0).
Definition usbring_used (head tail : Z) : Z := u32 (head - tail).
Definition usbring_free_space (head tail capacity : Z) : Z := u32 (capacity - usbring_used head tail).
Definition usbring_phys_offset (counter capacity : Z) : Z := Z.land counter (u32 (capacity - 1)).
Definition usbring_write_contig (head tail capacity : Z) : Z :=
  let free_bytes := usbring_free_space head tail capacity in
  let off := usbring_phys_offset head capacity in
  let to_wrap := u32 (capacity - off) in
  if free_bytes <? to_wrap then free_bytes else to_wrap.
Definition usbring_next_head (head n : Z) : Z := u32 (head + n).
(** Offset and [*n_contig_out]. *)
Definition usbring_peek_contig (head tail capacity : Z) : Z * Z :=
  let used := usbring_used head tail in
  let off := usbring_phys_offset tail capacity in
  let to_wrap := u32 (capacity - off) in
  (off, if used <? to_wrap then used else to_wrap).
Definition usbring_next_tail (tail n : Z) : Z := u32 (tail + n).

(** ** The ring *)

(** [s_buf] (NULL or its octets), [s_capacity], [s_head], [s_tail], whether
    [s_consumer_task] is set, and the notifications given to it. *)
Record usbring := UsbRing {
  ub_buf : option (list Z); ub_capacity : Z; ub_head : Z; ub_tail : Z; ub_task : bool; ub_notified : Z }.

Inductive esp_err := ESP_OK | ESP_ERR_INVALID_ARG | ESP_ERR_NO_MEM.

Definition usbring_set_consumer_task (st : usbring) (task : bool) : usbring :=
  UsbRing (ub_buf st) (ub_capacity st) (ub_head st) (ub_tail st) task (ub_notified st).

(** [alloc] is the heap: NULL, or the octets of a fresh block. *)
Definition usbring_init (alloc : Z -> option (list Z)) (st : usbring) (capacity : Z) : usbring * esp_err :=
  if negb (usbring_is_pow2_capacity capacity) then (st, ESP_ERR_INVALID_ARG)
  else match alloc capacity with
       | None => (UsbRing None (ub_capacity st) (ub_head st) (ub_tail st) (ub_task st) (ub_notified st), ESP_ERR_NO_MEM)
       | Some buf => (UsbRing (Some buf) capacity 0 0 (ub_task st) (ub_notified st), ESP_OK)
       end.

Definition usbring_deinit (st : usbring) : usbring := UsbRing None 0 0 0 false (ub_notified st).

Definition usbring_reset (st : usbring) : usbring :=
  UsbRing (ub_buf st) (ub_capacity st) 0 0 (ub_task st) (ub_notified st).

(** The length of the first [memcpy], and both copies. *)
Definition write_first (head tail capacity n : Z) : Z :=
  let first := usbring_write_contig head tail capacity in if n <? first then n else first.
Definition write_copy1 (buf data : list Z) (head tail capacity : Z) : list Z :=
  let first := write_first head tail capacity (Z.of_nat (length data)) in
  blit buf (Z.to_nat (usbring_phys_offset head capacity)) (take (Z.to_nat first) data).
Definition write_copy2 (buf data : list Z) (head tail capacity : Z) : list Z :=
  let first := write_first head tail capacity (Z.of_nat (length data)) in
  if first <? Z.of_nat (length data) then blit buf 0 (drop (Z.to_nat first) data) else buf.

Definition write_publish (st : usbring) (head n : Z) : usbring :=
  UsbRing (ub_buf st) (ub_capacity st) (usbring_next_head head n) (ub_tail st) (ub_task st)
    (if ub_task st then ub_notified st + 1 else ub_notified st).

Definition set_buf (st : usbring) (buf : list Z) : usbring :=
  UsbRing (Some buf) (ub_capacity st) (ub_head st) (ub_tail st) (ub_task st) (ub_notified st).

Definition usbring_write (st : usbring) (data : list Z) : usbring * bool :=
  let n := Z.of_nat (length data) in
  match ub_buf st with
  | None => (st, false)
  | Some buf =>
    if n =? 0 then (st, true)
    else
      let head := ub_head st in
      let tail := ub_tail st in
      if usbring_free_space head tail (ub_capacity st) <? n then (st, false)
      else
        let buf := write_copy1 buf data head tail (ub_capacity st) in
        let buf := write_copy2 buf data head tail (ub_capacity st) in
        (write_publish (set_buf st buf) head n, true)
  end.

(** The returned pointer as an offset into the buffer, and [*out_n]. *)
Definition usbring_peek (st : usbring) : option Z * Z :=
  match ub_buf st with
  | None => (None, 0)
  | Some _ =>
    let '(off, n_contig) := usbring_peek_contig (ub_head st) (ub_tail st) (ub_capacity st) in
    if n_contig =? 0 then (None, 0) else (Some off, n_contig)
  end.

Definition usbring_consume (st : usbring) (n : Z) : usbring :=
  match ub_buf st with
  | None => st
  | Some _ =>
    if n =? 0 then st
    else UsbRing (ub_buf st) (ub_capacity st) (ub_head st) (usbring_next_tail (ub_tail st) n) (ub_task st) (ub_notified st)
  end.

Definition usbring_get_info (st : usbring) : Z * Z :=
  match ub_buf st with
  | None => (0, 0)
  | Some _ => (usbring_used (ub_head st) (ub_tail st), ub_capacity st)
  end.

(** The consumer's read: at most [max_length] octets of the span.  The feed
    task only runs once the device is set up, so the [!adsbdev] guard, which
    refuses as an empty ring does, is left out. *)
Definition esp_libusb_read_stream (st : usbring) (max_length : Z) : option (Z * Z) :=
  match usbring_peek st with
  | (Some off, n_contig) => if n_contig =? 0 then None else Some (off, if n_contig <? max_length then n_contig else max_length)
  | (None, _) => None
  end.

Definition esp_libusb_consume_stream (st : usbring) (n : Z) : usbring := usbring_consume st (u32 n).

(** The feed loop's use of them: read a span, hand it on, release it, until the
    ring is empty or [fuel] rounds are done.  Also returns what was read. *)
Fixpoint feed_drain (fuel : nat) (st : usbring) (max_length : Z) : list Z * usbring :=
  match fuel with
  | O => ([], st)
  | S fuel =>
    match esp_libusb_read_stream st max_length, ub_buf st with
    | Some (off, n), Some buf =>
      let '(rest, st') := feed_drain fuel (esp_libusb_consume_stream st n) max_length in
      (slice buf (Z.to_nat off) (Z.to_nat n) ++ rest, st')
    | _, _ => ([], st)
    end
  end.

(** ** Interleaving *)

(** Where the producer is in [usbring_write], with the counter values it has
    loaded, and the span the consumer holds. *)
Inductive producer :=
  | PIdle
  | PLoaded (data : list Z) (head tail : Z)
  | PFirst (data : list Z) (head tail : Z)
  | PCopied (data : list Z) (head : Z).
Inductive consumer := CIdle | CSpan (off n : Z).

Record config := Config { cf_ring : usbring; cf_prod : producer; cf_cons : consumer }.

(** What a step shows outside: a write begins, returns true or false; octets
    are read and released. *)
Inductive event := EBegin (data : list Z) | EWrote (data : list Z) | EDropped (data : list Z) | ERead (bytes : list Z).

Inductive ring_step : config -> option event -> config -> Prop :=
  | step_load st data c : ub_buf st <> None -> data <> [] ->
      ring_step (Config st PIdle c) (Some (EBegin data)) (Config st (PLoaded data (ub_head st) (ub_tail st)) c)
  | step_full st data head tail c : usbring_free_space head tail (ub_capacity st) < Z.of_nat (length data) ->
      ring_step (Config st (PLoaded data head tail) c) (Some (EDropped data)) (Config st PIdle c)
  | step_copy1 st buf data head tail c : ub_buf st = Some buf ->
      Z.of_nat (length data) <= usbring_free_space head tail (ub_capacity st) ->
      ring_step (Config st (PLoaded data head tail) c) None
        (Config (set_buf st (write_copy1 buf data head tail (ub_capacity st))) (PFirst data head tail) c)
  | step_copy2 st buf data head tail c : ub_buf st = Some buf ->
      ring_step (Config st (PFirst data head tail) c) None
        (Config (set_buf st (write_copy2 buf data head tail (ub_capacity st))) (PCopied data head) c)
  | step_publish st data head c :
      ring_step (Config st (PCopied data head) c) (Some (EWrote data)) (Config (write_publish st head (Z.of_nat (length data))) PIdle c)
  | step_peek st p off n : usbring_peek st = (Some off, n) ->
      ring_step (Config st p CIdle) None (Config st p (CSpan off n))
  | step_consume st buf p off n k : ub_buf st = Some buf -> 0 < k <= n ->
      ring_step (Config st p (CSpan off n)) (Some (ERead (slice buf (Z.to_nat off) (Z.to_nat k))))
        (Config (usbring_consume st k) p CIdle).

Inductive run : config -> list event -> config -> Prop :=
  | run_nil c : run c [] c
  | run_tau c1 c2 c3 tr : run c1 tr c2 -> ring_step c2 None c3 -> run c1 tr c3
  | run_event c1 c2 c3 tr e : run c1 tr c2 -> ring_step c2 (Some e) c3 -> run c1 (tr ++ [e]) c3.

(** ** The abstract FIFO *)

(** The stored octets, and a write in progress with whether it fitted when it
    began. *)
Record fifo := Fifo { q_bytes : list Z; q_pending : option (list Z * bool) }.

Inductive fifo_step (cap : Z) : fifo -> event -> fifo -> Prop :=
  | fifo_begin q data : data <> [] ->
      fifo_step cap (Fifo q None) (EBegin data)
        (Fifo q (Some (data, Z.of_nat (length q) + Z.of_nat (length data) <=? cap)))
  | fifo_wrote q data : fifo_step cap (Fifo q (Some (data, true))) (EWrote data) (Fifo (q ++ data) None)
  | fifo_dropped q data : fifo_step cap (Fifo q (Some (data, false))) (EDropped data) (Fifo q None)
  | fifo_read bytes q p : bytes <> [] -> fifo_step cap (Fifo (bytes ++ q) p) (ERead bytes) (Fifo q p).

Inductive fifo_run (cap : Z) : fifo -> list event -> fifo -> Prop :=
  | fifo_run_nil a : fifo_run cap a [] a
  | fifo_run_snoc a1 a2 a3 tr e : fifo_run cap a1 tr a2 -> fifo_step cap a2 e a3 -> fifo_run cap a1 (tr ++ [e]) a3.


(** What a trace has accepted and delivered. *)
Definition written (tr : list event) : list Z :=
  flat_map (fun e => match e with EWrote data => data | _ => [] end) tr.
Definition delivered (tr : list event) : list Z :=
  flat_map (fun e => match e with ERead bytes => bytes | _ => [] end) tr.

(** ** Arithmetic *)

Lemma pow2_capacity c : is_u 32 c -> usbring_is_pow2_capacity c = true -> exists k, 0 <= k <= 31 /\ c = 2 ^ k.
Proof. apply is_pow2_spec. Qed.

Lemma rd_blit (l : list Z) off src i : (off + length src <= length l)%nat ->
  rd (blit l off src) i = if decide (off <= i < off + length src)%nat then rd src (i - off) else rd l i.
Proof.
  intros Hl. unfold rd. rewrite !nth_lookup, lookup_blit by lia. by case_decide.
Qed.

(** Division rounded up. *)
Definition cdiv (x m : Z) : Z := (x + (m - 1)) / m.

Lemma cdiv_step x m : 0 < m -> cdiv (x - m) m = cdiv x m - 1.
Proof. intros Hm. unfold cdiv. replace (x - m + (m - 1)) with (x + (m - 1) + -1 * m) by lia. rewrite Z.div_add by lia. lia. Qed.

Lemma cdiv_0 m : 0 < m -> cdiv 0 m = 0.
Proof. intros Hm. unfold cdiv. apply Z.div_small. lia. Qed.

Lemma cdiv_small x m : 0 < x <= m -> cdiv x m = 1.
Proof. intros Hx. unfold cdiv. symmetry. apply Z.div_unique with (r := x - 1); lia. Qed.

Lemma cdiv_nonneg x m : 0 <= x -> 0 < m -> 0 <= cdiv x m.
Proof. intros. apply Z.div_pos; lia. Qed.

Lemma cdiv_sum a b m : 0 <= a -> 0 <= b -> 0 < m -> cdiv a m + cdiv b m <= (a + b) / m + 2.
Proof.
  intros Ha Hb Hm. assert (H : forall x, 0 <= x -> cdiv x m <= x / m + 1).
  { intros x Hx. unfold cdiv. rewrite <- (Z.div_add x 1 m) by lia. apply Z.div_le_mono; lia. }
  pose proof (H a Ha). pose proof (H b Hb). enough (a / m + b / m <= (a + b) / m) by lia.
  apply Z.div_le_lower_bound; [done|]. pose proof (Z.mul_div_le a m Hm). pose proof (Z.mul_div_le b m Hm). lia.
Qed.

Section ring.
Context (cap k : Z).
Hypotheses (Hk : 0 <= k <= 31) (Hcap : cap = 2 ^ k).

Lemma cap_range : 1 <= cap <= 2 ^ 31.
Proof. rewrite Hcap. split; [pose proof (Z.pow_pos_nonneg 2 k); lia|apply Z.pow_le_mono_r; lia]. Qed.

Lemma u32_mod_cap x : u32 x mod cap = x mod cap.
Proof. rewrite Hcap. by apply u32_mod_pow2. Qed.

Lemma phys_mod x : usbring_phys_offset x cap = x mod cap.
Proof.
  pose proof cap_range. unfold usbring_phys_offset. rewrite u32_small by lia. rewrite Hcap. apply land_mask. lia.
Qed.

(** The octets [l] stand at the free-running positions from [base]. *)
Definition holds (buf : list Z) (base : Z) (l : list Z) : Prop :=
  forall i, (i < length l)%nat -> rd buf (Z.to_nat ((base + Z.of_nat i) mod cap)) = rd l i.

Lemma holds_base buf b b' l : b mod cap = b' mod cap -> holds buf b l -> holds buf b' l.
Proof.
  intros E H i Hi. rewrite <- (H i Hi). do 2 f_equal. rewrite <- (Z.add_mod_idemp_l b'), <- (Z.add_mod_idemp_l b) by (pose proof cap_range; lia).
  by rewrite E.
Qed.

Lemma holds_app buf b l m : holds buf b (l ++ m) <-> holds buf b l /\ holds buf (b + Z.of_nat (length l)) m.
Proof.
  split.
  - intros H. split; intros i Hi.
    + rewrite H by (rewrite length_app; lia). unfold rd. by rewrite app_nth1.
    + replace (b + Z.of_nat (length l) + Z.of_nat i) with (b + Z.of_nat (length l + i)) by lia.
      rewrite H by (rewrite length_app; lia). unfold rd. rewrite app_nth2 by lia. f_equal. lia.
  - intros [H1 H2] i Hi. rewrite length_app in Hi. unfold rd at 2. destruct (Nat.lt_ge_cases i (length l)).
    + rewrite app_nth1 by done. by apply H1.
    + rewrite app_nth2 by done. fold (rd m (i - length l)). rewrite <- H2 by lia. do 3 f_equal. lia.
Qed.

(** A stretch that does not wrap is a slice. *)
Lemma holds_slice buf b l n : holds buf b l -> Z.of_nat (length buf) = cap -> (n <= length l)%nat -> b mod cap + Z.of_nat n <= cap ->
  slice buf (Z.to_nat (b mod cap)) n = take n l.
Proof.
  intros H Hb Hn Hc. pose proof (Z.mod_pos_bound b cap ltac:(pose proof cap_range; lia)) as Hm.
  apply (nth_ext _ _ 0 0); [rewrite length_take; unfold slice; rewrite length_take, length_drop; lia|].
  intros i Hi. unfold slice in Hi. rewrite length_take, length_drop in Hi.
  fold (rd (slice buf (Z.to_nat (b mod cap)) n) i). rewrite rd_slice by lia.
  rewrite nth_lookup, lookup_take_lt, <- nth_lookup by lia. fold (rd l i). rewrite <- H by lia. f_equal.
  assert (Hi2 : Z.of_nat i < cap) by lia. rewrite Z.add_mod by lia. rewrite (Z.mod_small (Z.of_nat i)) by lia.
  rewrite (Z.mod_small (b mod cap + Z.of_nat i)) by lia. lia.
Qed.

(** A block copied in at its own position holds; one copied elsewhere in the
    same capacity does not disturb. *)
Lemma blit_holds buf b l : Z.of_nat (length buf) = cap -> b mod cap + Z.of_nat (length l) <= cap ->
  holds (blit buf (Z.to_nat (b mod cap)) l) b l.
Proof.
  intros Hb Hc i Hi. pose proof (Z.mod_pos_bound b cap ltac:(pose proof cap_range; lia)) as Hm.
  assert (Hi2 : Z.of_nat i < cap) by lia. rewrite Z.add_mod by lia. rewrite (Z.mod_small (Z.of_nat i)) by lia.
  rewrite (Z.mod_small (b mod cap + Z.of_nat i)) by lia. rewrite rd_blit by lia. rewrite decide_True by lia. f_equal. lia.
Qed.

Lemma mod_distinct base i e : 0 <= i < e -> e < cap + i -> (base + i) mod cap <> (base + e) mod cap.
Proof.
  intros Hi He E. pose proof cap_range as Hc. assert (E2 : (e - i) mod cap = 0).
  { replace (e - i) with (base + e - (base + i)) by lia. rewrite Zminus_mod, E, Z.sub_diag. apply Z.mod_0_l. lia. }
  rewrite Z.mod_small in E2 by (clear - Hi He; lia). clear - E2 Hi. lia.
Qed.

Lemma blit_frame buf b l base q : Z.of_nat (length buf) = cap -> b mod cap + Z.of_nat (length l) <= cap ->
  holds buf base q ->
  (exists d, b mod cap = (base + d) mod cap /\ Z.of_nat (length q) <= d /\ d + Z.of_nat (length l) <= cap) ->
  holds (blit buf (Z.to_nat (b mod cap)) l) base q.
Proof.
  intros Hb Hc H (d & Ed & Hd1 & Hd2) i Hi. rewrite <- (H i Hi). pose proof cap_range as Hcr.
  pose proof (Z.mod_pos_bound b cap ltac:(clear - Hcr; lia)) as Hm.
  pose proof (Z.mod_pos_bound (base + Z.of_nat i) cap ltac:(clear - Hcr; lia)) as Hm'.
  pose proof (fun j => Z.add_mod_idemp_l (base + d) j cap ltac:(clear - Hcr; lia)) as Hidem. rewrite <- Ed in Hidem.
  pose proof (fun j => mod_distinct base (Z.of_nat i) (d + j)) as Hdist.
  set (x := (base + Z.of_nat i) mod cap) in *. set (y := b mod cap) in *. clearbody x y. clear Ed H.
  rewrite rd_blit by lia. rewrite decide_False; [done|]. intros [H1 H2].
  assert (Hj : 0 <= x - y < Z.of_nat (length l)) by lia.
  apply (Hdist (x - y)); [lia|lia|]. rewrite Z.add_assoc, <- Hidem. replace (y + (x - y)) with x by lia.
  symmetry. apply Z.mod_small. done.
Qed.

(** ** The simulation relation *)

(** The ring [st] over [buf] stores exactly [q]. *)
Record stores (st : usbring) (buf : list Z) (q : list Z) : Prop := {
  st_buf : ub_buf st = Some buf;
  st_cap : ub_capacity st = cap;
  st_len : Z.of_nat (length buf) = cap;
  st_used : usbring_used (ub_head st) (ub_tail st) = Z.of_nat (length q);
  st_le : Z.of_nat (length q) <= cap;
  st_holds : holds buf (ub_tail st) q }.

(** What the loaded counters still guarantee: the tail may be stale, so the
    space computed from it is at most the space there is. *)
Definition prod_ok (st : usbring) (buf q : list Z) (p : producer) (pending : option (list Z * bool)) : Prop :=
  match p with
  | PIdle => pending = None
  | PLoaded data head tail =>
      head = ub_head st /\ data <> [] /\ Z.of_nat (length q) <= usbring_used head tail <= cap /\
      pending = Some (data, usbring_used head tail + Z.of_nat (length data) <=? cap)
  | PFirst data head tail =>
      head = ub_head st /\ data <> [] /\ Z.of_nat (length q) <= usbring_used head tail /\
      usbring_used head tail + Z.of_nat (length data) <= cap /\ pending = Some (data, true) /\
      holds buf head (take (Z.to_nat (write_first head tail cap (Z.of_nat (length data)))) data)
  | PCopied data head =>
      head = ub_head st /\ data <> [] /\ Z.of_nat (length q) + Z.of_nat (length data) <= cap /\
      pending = Some (data, true) /\ holds buf head data
  end.

Definition cons_ok (st : usbring) (q : list Z) (c : consumer) : Prop :=
  match c with
  | CIdle => True
  | CSpan off n => off = ub_tail st mod cap /\ 0 < n <= Z.of_nat (length q) /\ off + n <= cap
  end.

Definition simulates (cf : config) (a : fifo) : Prop :=
  exists buf, stores (cf_ring cf) buf (q_bytes a) /\
    prod_ok (cf_ring cf) buf (q_bytes a) (cf_prod cf) (q_pending a) /\
    cons_ok (cf_ring cf) (q_bytes a) (cf_cons cf).

Lemma free_space_eq head tail : usbring_used head tail <= cap ->
  usbring_free_space head tail cap = cap - usbring_used head tail.
Proof.
  intros H. pose proof cap_range. pose proof (Z.mod_pos_bound (head - tail) (2 ^ 32) ltac:(lia)).
  unfold usbring_free_space. apply u32_small. unfold usbring_used, u32 in *. lia.
Qed.

Lemma phys_range x : 0 <= x mod cap < cap.
Proof. apply Z.mod_pos_bound. pose proof cap_range. lia. Qed.

(** The head stands where the stored octets end. *)
Lemma head_mod st buf q : stores st buf q -> ub_head st mod cap = (ub_tail st + Z.of_nat (length q)) mod cap.
Proof.
  intros S. pose proof (st_used _ _ _ S) as U. unfold usbring_used in U.
  rewrite <- U, <- Z.add_mod_idemp_r by (pose proof cap_range; lia).
  rewrite u32_mod_cap, Z.add_mod_idemp_r by (pose proof cap_range; lia). f_equal. lia.
Qed.

Lemma write_first_spec head tail n : usbring_used head tail + n <= cap -> 0 <= n ->
  let f := write_first head tail cap n in
  f = Z.min (cap - head mod cap) n /\ 0 <= f <= n /\ head mod cap + f <= cap.
Proof.
  intros H Hn. pose proof cap_range as Hc. pose proof (phys_range head) as Hp. cbv zeta.
  pose proof (Z.mod_pos_bound (head - tail) (2 ^ 32) ltac:(lia)) as Hu. fold (u32 (head - tail)) in Hu.
  fold (usbring_used head tail) in Hu.
  unfold write_first, usbring_write_contig. rewrite free_space_eq, phys_mod by lia.
  set (m := head mod cap) in *. clearbody m. rewrite (u32_small (cap - m)) by lia.
  destruct (Z.ltb_spec (cap - usbring_used head tail) (cap - m)); destruct (Z.ltb_spec n (cap - usbring_used head tail));
    destruct (Z.ltb_spec n (cap - m)); lia.
Qed.

(** *** Both copies of a write *)

Lemma stores_blit st buf q b l : stores st buf q -> b mod cap + Z.of_nat (length l) <= cap ->
  (exists d, b mod cap = (ub_tail st + d) mod cap /\ Z.of_nat (length q) <= d /\ d + Z.of_nat (length l) <= cap) ->
  stores (set_buf st (blit buf (Z.to_nat (b mod cap)) l)) (blit buf (Z.to_nat (b mod cap)) l) q.
Proof.
  intros S Hc Hd. pose proof (phys_range b). pose proof (st_len _ _ _ S) as L.
  constructor; cbn; try apply S.
  - done.
  - rewrite length_blit by lia. done.
  - apply blit_frame; try done. apply S.
Qed.

Lemma copy1_ok st buf q data tail : stores st buf q -> Z.of_nat (length q) <= usbring_used (ub_head st) tail ->
  usbring_used (ub_head st) tail + Z.of_nat (length data) <= cap ->
  let buf' := write_copy1 buf data (ub_head st) tail cap in
  stores (set_buf st buf') buf' q /\
  holds buf' (ub_head st) (take (Z.to_nat (write_first (ub_head st) tail cap (Z.of_nat (length data)))) data).
Proof.
  intros S Hq Hfit. destruct (write_first_spec _ _ _ Hfit) as (_ & Hf & Hw); [lia|].
  cbv zeta. unfold write_copy1. rewrite phys_mod.
  set (f := write_first _ _ _ _) in *. pose proof (length_take data (Z.to_nat f)) as Hl.
  assert (Hl' : Z.of_nat (length (take (Z.to_nat f) data)) = f) by lia. split.
  - apply stores_blit; [done|lia|]. exists (Z.of_nat (length q)). rewrite (head_mod _ _ _ S). split; [done|lia].
  - apply blit_holds; [apply S|lia].
Qed.

Lemma copy2_ok st buf q data tail : stores st buf q -> Z.of_nat (length q) <= usbring_used (ub_head st) tail ->
  usbring_used (ub_head st) tail + Z.of_nat (length data) <= cap ->
  holds buf (ub_head st) (take (Z.to_nat (write_first (ub_head st) tail cap (Z.of_nat (length data)))) data) ->
  let buf' := write_copy2 buf data (ub_head st) tail cap in
  stores (set_buf st buf') buf' q /\ holds buf' (ub_head st) data.
Proof.
  intros S Hq Hfit Hh. destruct (write_first_spec _ _ _ Hfit) as (Ef & Hf & Hw); [lia|].
  cbv zeta. unfold write_copy2. set (f := write_first _ _ _ _) in *. clearbody f.
  destruct (Z.ltb_spec f (Z.of_nat (length data))) as [Hlt|Hge].
  2:{ rewrite take_ge in Hh by lia. split; [|done]. constructor; cbn; by try apply S. }
  set (h := ub_head st) in *.
  assert (Hz : (h + f) mod cap = 0).
  { rewrite <- Z.add_mod_idemp_l by (pose proof cap_range; lia).
    replace (h mod cap + f) with cap by lia. apply Z.mod_same. pose proof cap_range; lia. }
  pose proof (length_take data (Z.to_nat f)) as Hl1. pose proof (length_drop data (Z.to_nat f)) as Hl2.
  assert (E : blit buf 0 (drop (Z.to_nat f) data) = blit buf (Z.to_nat ((h + f) mod cap)) (drop (Z.to_nat f) data)).
  { by rewrite Hz. }
  assert (Hend : (h + f) mod cap + Z.of_nat (length (drop (Z.to_nat f) data)) <= cap) by (rewrite Hz; lia).
  rewrite E. split.
  - apply stores_blit; [done|done|]. exists (Z.of_nat (length q) + f). split; [|lia].
    rewrite <- (Z.add_mod_idemp_l h), (head_mod _ _ _ S : h mod cap = _), Z.add_mod_idemp_l by (pose proof cap_range; lia).
    f_equal. lia.
  - rewrite <- (take_drop (Z.to_nat f) data) at 2. apply holds_app. split.
    + apply blit_frame; [apply S|done|done|]. exists f. split; [done|lia].
    + replace (h + Z.of_nat (length (take (Z.to_nat f) data))) with (h + f) by lia.
      apply blit_holds; [apply S|done].
Qed.

(** *** Publishing and releasing *)

Lemma publish_ok st buf q data : stores st buf q -> holds buf (ub_head st) data ->
  Z.of_nat (length q) + Z.of_nat (length data) <= cap ->
  stores (write_publish st (ub_head st) (Z.of_nat (length data))) buf (q ++ data).
Proof.
  intros S Hh Hle. pose proof cap_range as Hc. pose proof (st_used _ _ _ S) as U.
  constructor; cbn; try apply S; rewrite ?length_app, ?Nat2Z.inj_add; [|done|].
  - unfold usbring_used, usbring_next_head, u32 in *. rewrite Zminus_mod_idemp_l.
    replace (ub_head st + Z.of_nat (length data) - ub_tail st) with (ub_head st - ub_tail st + Z.of_nat (length data)) by lia.
    rewrite <- Z.add_mod_idemp_l, U by lia. apply Z.mod_small. lia.
  - apply holds_app. split; [apply S|]. eapply holds_base, Hh. apply (head_mod _ _ _ S).
Qed.

Lemma consume_ok st buf q n : stores st buf q -> 0 < n <= Z.of_nat (length q) ->
  stores (usbring_consume st n) buf (drop (Z.to_nat n) q).
Proof.
  intros S Hn. pose proof cap_range as Hc. pose proof (st_used _ _ _ S) as U. pose proof (st_le _ _ _ S) as Hle.
  unfold usbring_consume. rewrite (st_buf _ _ _ S). rewrite (proj2 (Z.eqb_neq n 0)) by lia.
  constructor; cbn; try apply S; rewrite ?length_drop; [done| |lia|].
  - unfold usbring_used, usbring_next_tail, u32 in *. rewrite Zminus_mod_idemp_r.
    replace (ub_head st - (ub_tail st + n)) with (ub_head st - ub_tail st - n) by lia.
    rewrite <- Zminus_mod_idemp_l, U. rewrite Z.mod_small by lia. lia.
  - pose proof (st_holds _ _ _ S) as H. rewrite <- (take_drop (Z.to_nat n) q) in H. apply holds_app in H as [_ H].
    rewrite length_take in H. eapply holds_base, H. unfold usbring_next_tail. rewrite u32_mod_cap. f_equal. lia.
Qed.

Lemma peek_eq st buf q : stores st buf q ->
  usbring_peek st = if decide (q = []) then (None, 0)
                    else (Some (ub_tail st mod cap), Z.min (Z.of_nat (length q)) (cap - ub_tail st mod cap)).
Proof.
  intros S. pose proof cap_range as Hc. pose proof (phys_range (ub_tail st)) as Hp.
  unfold usbring_peek, usbring_peek_contig. rewrite (st_buf _ _ _ S), (st_cap _ _ _ S), (st_used _ _ _ S), phys_mod.
  set (m := ub_tail st mod cap) in *. clearbody m. rewrite (u32_small (cap - m)) by lia.
  assert (E : (if Z.of_nat (length q) <? cap - m then Z.of_nat (length q) else cap - m) = Z.min (Z.of_nat (length q)) (cap - m)).
  { destruct (Z.ltb_spec (Z.of_nat (length q)) (cap - m)); lia. }
  rewrite E. destruct (decide (q = [])) as [->|Hq].
  - rewrite Z.min_l by (cbn; lia). done.
  - assert (length q <> 0)%nat by (by destruct q). by rewrite (proj2 (Z.eqb_neq _ _)) by lia.
Qed.

(** *** Every step is matched *)

Lemma stores_same_buf st buf q : stores st buf q -> set_buf st buf = st.
Proof. intros S. destruct st; cbn in *. unfold set_buf; cbn. by rewrite <- (st_buf _ _ _ S). Qed.

Lemma cons_ok_ext st st' q q' c : ub_tail st' = ub_tail st -> (length q <= length q')%nat -> cons_ok st q c -> cons_ok st' q' c.
Proof. intros Et Hl. destruct c as [|off n]; cbn; [done|]. rewrite Et. lia. Qed.

Lemma prod_ok_drop st st' buf q n p pd : ub_head st' = ub_head st ->
  prod_ok st buf q p pd -> prod_ok st' buf (drop n q) p pd.
Proof.
  intros Eh. pose proof (length_drop q n) as L. destruct p as [|d h t|d h t|d h]; cbn; rewrite ?Eh; [done| | |].
  - intros (-> & Hd & Hu & ->). repeat split; [done|lia|lia].
  - intros (-> & Hd & Hu & Hf & -> & Hh). repeat split; try done; lia.
  - intros (-> & Hd & Hu & -> & Hh). repeat split; try done; lia.
Qed.

Lemma step_simulates cf ev cf' a : simulates cf a -> ring_step cf ev cf' ->
  match ev with
  | None => simulates cf' a
  | Some e => exists a', fifo_step cap a e a' /\ simulates cf' a'
  end.
Proof.
  intros (buf & S & P & C) St. destruct a as [q pd]; cbn in S, P, C.
  destruct St as [st d c Hb Hd|st d h t c Hfull|st b d h t c Hb Hfit|st b d h t c Hb|st d h c|st p off n Hpeek|st b p off n m Hb Hm]; cbn in S, P, C.
  - subst pd. eexists (Fifo q (Some (d, _))). split; [by constructor|]. exists buf. split; [done|split; [|done]]. cbn.
    rewrite (st_used _ _ _ S). pose proof (st_le _ _ _ S). repeat split; [done|lia|lia].
  - destruct P as (-> & Hd & Hu & ->). rewrite (st_cap _ _ _ S), free_space_eq in Hfull by lia.
    rewrite (proj2 (Z.leb_gt _ _)) by lia. exists (Fifo q None). split; [constructor|]. by exists buf.
  - rewrite (st_buf _ _ _ S) in Hb. injection Hb as <-. destruct P as (-> & Hd & Hu & ->).
    rewrite (st_cap _ _ _ S) in *. rewrite free_space_eq in Hfit by lia.
    destruct (copy1_ok st buf q d t S) as [S' Hh]; [lia|lia|]. rewrite (proj2 (Z.leb_le _ _)) by lia.
    eexists. split; [exact S'|split; [|exact C]]. cbn. repeat split; try done; lia.
  - rewrite (st_buf _ _ _ S) in Hb. injection Hb as <-. destruct P as (-> & Hd & Hu & Hf & -> & Hh).
    rewrite (st_cap _ _ _ S). destruct (copy2_ok st buf q d t S Hu Hf Hh) as [S' Hh'].
    eexists. split; [exact S'|split; [|exact C]]. cbn. repeat split; try done; lia.
  - destruct P as (-> & Hd & Hu & -> & Hh). exists (Fifo (q ++ d) None). split; [constructor|].
    exists buf. split; [by apply publish_ok|split; [done|]]. eapply cons_ok_ext, C; cbn; [done|]. rewrite length_app. lia.
  - exists buf. split; [done|split; [done|]]. rewrite (peek_eq _ _ _ S) in Hpeek. destruct (decide (q = [])) as [->|Hq]; [done|].
    injection Hpeek as <- <-. assert (length q <> 0)%nat by (by destruct q). pose proof (phys_range (ub_tail st)). cbn. split; [done|]. lia.
  - rewrite (st_buf _ _ _ S) in Hb. injection Hb as <-. destruct C as (-> & Hn & Hw).
    rewrite (holds_slice buf (ub_tail st) q) by (try apply S; lia).
    exists (Fifo (drop (Z.to_nat m) q) pd). split.
    + rewrite <- (take_drop (Z.to_nat m) q) at 1. constructor. intros E. apply (f_equal length) in E.
      rewrite length_take in E. cbn in E. lia.
    + exists buf. split; [apply consume_ok; [done|lia]|split; [|done]]. apply (prod_ok_drop st); [|done].
      unfold usbring_consume. destruct (ub_buf st); [destruct (m =? 0)|]; done.
Qed.

Lemma run_simulates cf tr cf' a : run cf tr cf' -> simulates cf a -> exists a', fifo_run cap a tr a' /\ simulates cf' a'.
Proof.
  intros H Ha. induction H as [c|c1 c2 c3 tr H IH St|c1 c2 c3 tr e H IH St].
  - exists a. split; [constructor|done].
  - destruct (IH Ha) as (a' & Hr & Hs). exists a'. split; [done|]. apply (step_simulates _ _ _ _ Hs St).
  - destruct (IH Ha) as (a' & Hr & Hs). destruct (step_simulates _ _ _ _ Hs St) as (a2 & Hst & Hs2).
    exists a2. split; [by econstructor|done].
Qed.

(** *** The operations, run without interruption *)

Lemma write_ok st buf q data : stores st buf q -> data <> [] ->
  exists st' buf', usbring_write st data = (st', Z.of_nat (length q) + Z.of_nat (length data) <=? cap) /\
    stores st' buf' (if Z.of_nat (length q) + Z.of_nat (length data) <=? cap then q ++ data else q).
Proof.
  intros S Hd. pose proof (st_used _ _ _ S) as U. pose proof (st_le _ _ _ S) as Hle.
  unfold usbring_write. rewrite (st_buf _ _ _ S), (st_cap _ _ _ S), free_space_eq, U by lia.
  assert (length data <> 0)%nat by (by destruct data). rewrite (proj2 (Z.eqb_neq _ _)) by lia.
  destruct (Z.leb_spec (Z.of_nat (length q) + Z.of_nat (length data)) cap) as [Hf|Hf].
  - rewrite (proj2 (Z.ltb_ge _ _)) by lia.
    destruct (copy1_ok st buf q data (ub_tail st) S) as [S1 H1]; [lia|lia|].
    destruct (copy2_ok _ _ q data (ub_tail st) S1) as [S2 H2]; [cbn; lia|cbn; lia|exact H1|].
    eexists _, _. split; [reflexivity|]. apply (publish_ok _ _ _ _ S2 H2). lia.
  - rewrite (proj2 (Z.ltb_lt _ _)) by lia. by exists st, buf.
Qed.

(** *** Draining *)

(** The spans left: one up to the wrap, one after it. *)
Definition before_wrap (st : usbring) (q : list Z) : Z := Z.min (Z.of_nat (length q)) (cap - ub_tail st mod cap).
Definition rounds_left (st : usbring) (q : list Z) (m : Z) : Z :=
  cdiv (before_wrap st q) m + cdiv (Z.of_nat (length q) - before_wrap st q) m.

Lemma read_eq st buf q m : stores st buf q -> 0 < m ->
  esp_libusb_read_stream st m = if decide (q = []) then None else Some (ub_tail st mod cap, Z.min (before_wrap st q) m).
Proof.
  intros S Hm. unfold esp_libusb_read_stream, before_wrap. rewrite (peek_eq _ _ _ S). destruct (decide (q = [])) as [|Hq]; [done|].
  assert (length q <> 0)%nat by (by destruct q). pose proof (phys_range (ub_tail st)).
  rewrite (proj2 (Z.eqb_neq _ _)) by lia. do 2 f_equal.
  destruct (Z.ltb_spec (Z.min (Z.of_nat (length q)) (cap - ub_tail st mod cap)) m); lia.
Qed.

Lemma consume_tail st n : ub_buf st <> None -> n <> 0 -> ub_tail (usbring_consume st n) mod cap = (ub_tail st + n) mod cap.
Proof.
  intros Hb Hn. unfold usbring_consume. destruct (ub_buf st); [|done]. rewrite (proj2 (Z.eqb_neq _ _)) by done.
  cbn. apply u32_mod_cap.
Qed.

(** One round uses up one of the rounds left. *)
Lemma rounds_step st buf q m n : stores st buf q -> q <> [] -> 0 < m -> n = Z.min (before_wrap st q) m ->
  rounds_left (usbring_consume st n) (drop (Z.to_nat n) q) m = rounds_left st q m - 1.
Proof.
  intros S Hq Hm En. pose proof cap_range as Hc. pose proof (phys_range (ub_tail st)) as Hp.
  assert (Hlq : (length q <> 0)%nat) by (by destruct q). pose proof (st_le _ _ _ S) as Hle.
  unfold rounds_left, before_wrap in *. rewrite length_drop.
  assert (Hb : ub_buf st <> None) by (rewrite (st_buf _ _ _ S); done).
  rewrite (consume_tail st n Hb) by lia. rewrite <- Z.add_mod_idemp_l by (clear -Hc; lia).
  set (x := ub_tail st mod cap) in *. clearbody x. set (L := Z.of_nat (length q)) in *.
  assert (EL : Z.of_nat (length q - Z.to_nat n) = L - n) by lia. rewrite EL.
  assert (HL : 0 < L) by lia. clearbody L. clear EL S Hlq Hq Hb.
  destruct (Z.eq_dec (x + n) cap) as [Ew|Ew].
  - rewrite Ew, Z.mod_same by (clear -Hc; lia). assert (E1 : Z.min L (cap - x) = n) by lia. rewrite E1.
    rewrite (cdiv_small n m) by lia. rewrite Z.min_l by lia. rewrite Z.sub_diag, cdiv_0 by lia. lia.
  - rewrite (Z.mod_small (x + n) cap) by lia. destruct (Z.le_gt_cases (Z.min L (cap - x)) m) as [Hs|Hs].
    + assert (E1 : n = L) by lia. rewrite E1, Z.sub_diag, (Z.min_l 0), Z.sub_0_r by lia. rewrite (Z.min_l L), Z.sub_diag, cdiv_0, (cdiv_small L) by lia. lia.
    + assert (E1 : n = m) by lia. rewrite E1. replace (Z.min (L - m) (cap - (x + m))) with (Z.min L (cap - x) - m) by lia.
      rewrite cdiv_step by lia. replace (L - m - (Z.min L (cap - x) - m)) with (L - Z.min L (cap - x)) by lia. lia.
Qed.

Lemma drain_all fuel st buf q m : stores st buf q -> 0 < m -> rounds_left st q m <= Z.of_nat fuel ->
  exists st' buf', feed_drain fuel st m = (q, st') /\ stores st' buf' [].
Proof.
  revert st buf q. induction fuel as [|fuel IH]; intros st buf q S Hm Hr.
  - pose proof cap_range as Hc. pose proof (phys_range (ub_tail st)) as Hp. unfold rounds_left in Hr.
    assert (Hq : q = []).
    { destruct q as [|a q']; [done|exfalso]. set (q := a :: q') in *.
      assert (0 < before_wrap st q) by (unfold before_wrap; subst q; cbn [length]; lia).
      assert (Hb2 : before_wrap st q <= Z.of_nat (length q)) by (unfold before_wrap; lia).
      pose proof (cdiv_nonneg (Z.of_nat (length q) - before_wrap st q) m ltac:(lia) Hm).
      enough (0 < cdiv (before_wrap st q) m) by lia. unfold cdiv. apply Z.div_str_pos. lia. }
    subst q. by exists st, buf.
  - cbn [feed_drain]. rewrite (read_eq st buf q m S Hm), (st_buf _ _ _ S). destruct (decide (q = [])) as [->|Hq]; [by exists st, buf|].
    pose proof cap_range as Hc. pose proof (phys_range (ub_tail st)) as Hp. pose proof (st_le _ _ _ S) as Hle.
    assert (length q <> 0)%nat by (by destruct q).
    set (n := Z.min (before_wrap st q) m).
    assert (Hn : 0 < n <= Z.of_nat (length q) /\ ub_tail st mod cap + n <= cap) by (subst n; unfold before_wrap; lia).
    unfold esp_libusb_consume_stream. rewrite u32_small by lia.
    destruct (IH _ _ _ (consume_ok st buf q n S ltac:(lia)) Hm) as (st' & buf' & E & S').
    { rewrite (rounds_step st buf q m n S Hq Hm eq_refl). lia. }
    exists st', buf'. split; [|done]. rewrite E. f_equal.
    rewrite (holds_slice buf (ub_tail st) q) by (try apply S; lia). apply take_drop.
Qed.
End ring.

Lemma fifo_run_bytes cap tr a a' : fifo_run cap a tr a' -> q_bytes a ++ written tr = delivered tr ++ q_bytes a'.
Proof.
  intros H. induction H as [a|a1 a2 a3 tr e H IH St]; [by rewrite app_nil_r|].
  unfold written, delivered. rewrite !flat_map_app. fold (written tr) (delivered tr). rewrite app_assoc, IH.
  destruct St; cbn; rewrite ?app_nil_r, <- ?app_assoc; done.
Qed.

(** An initialised ring is an empty FIFO. *)
Lemma init_simulates alloc st0 capacity st : is_u 32 capacity ->
  (forall buf, alloc capacity = Some buf -> Z.of_nat (length buf) = capacity) ->
  usbring_init alloc st0 capacity = (st, ESP_OK) ->
  exists k, 0 <= k <= 31 /\ capacity = 2 ^ k /\ simulates capacity (Config st PIdle CIdle) (Fifo [] None).
Proof.
  intros Hc Ha H. unfold usbring_init in H. destruct (usbring_is_pow2_capacity capacity) eqn:Ep; [|done]. cbn [negb] in H.
  destruct (alloc capacity) as [buf|] eqn:Eb; [|done]. injection H as <-.
  destruct (pow2_capacity capacity Hc Ep) as (k & Hk & Ek). exists k. split; [done|split; [done|]].
  exists buf. split; [|done]. constructor; try done; cbn.
  - by apply Ha.
  - destruct Hc. lia.
  - intros i Hi. cbn in Hi. lia.
Qed.

(** *** Pairing of I and Q octets *)

Definition even_event (e : event) : bool :=
  match e with EBegin d | EWrote d | EDropped d | ERead d => Z.even (Z.of_nat (length d)) end.

Definition paired (cf : config) : Prop :=
  Z.even (ub_head (cf_ring cf)) = true /\ Z.even (ub_tail (cf_ring cf)) = true /\
  match cf_prod cf with
  | PIdle => True
  | PLoaded d h _ | PFirst d h _ | PCopied d h => Z.even (Z.of_nat (length d)) = true /\ Z.even h = true
  end.

Lemma even_u32 x : Z.even (u32 x) = Z.even x.
Proof.
  unfold u32. rewrite (Z.div_mod x (2 ^ 32)) at 2 by lia. rewrite Z.even_add, Z.even_mul. cbn.
  by destruct (Z.even (x mod _)).
Qed.

Lemma even_mod cap x : 0 < cap -> Z.even cap = true -> Z.even (x mod cap) = Z.even x.
Proof.
  intros Hc He. rewrite (Z.div_mod x cap) at 2 by lia. rewrite Z.even_add, Z.even_mul, He. cbn.
  by destruct (Z.even (x mod _)).
Qed.

Lemma paired_step cap k cf ev cf' a : 0 <= k <= 31 -> cap = 2 ^ k -> simulates cap cf a -> ring_step cf ev cf' ->
  match ev with None => true | Some e => even_event e end = true -> paired cf -> paired cf'.
Proof.
  intros Hk Hcap (buf & S & P & C) St. unfold paired.
  destruct St as [st d c Hb Hd|st d h t c Hfull|st b d h t c Hb Hfit|st b d h t c Hb|st d h c|st p off n Hpeek|st b p off n m Hb Hm];
    cbn [cf_ring cf_prod set_buf ub_head ub_tail write_publish even_event]; try tauto.
  - intros _ (Hh & Ht & Hd & Hh'). split; [|done]. unfold usbring_next_head. by rewrite even_u32, Z.even_add, Hd, Hh'.
  - cbn in S, C. destruct C as (-> & Hn & Hw). rewrite (st_buf _ _ _ _ S) in Hb. injection Hb as <-.
    pose proof (st_len _ _ _ _ S). pose proof (phys_range cap k Hk Hcap (ub_tail st)) as Hp.
    rewrite length_slice by lia. rewrite Z2Nat.id by lia. intros Hm' (Hh & Ht & Hpr).
    unfold usbring_consume. rewrite (st_buf _ _ _ _ S). rewrite (proj2 (Z.eqb_neq m 0)) by lia. cbn. split; [done|split; [|done]].
    unfold usbring_next_tail. by rewrite even_u32, Z.even_add, Ht, Hm'.
Qed.

Lemma paired_run cap k cf tr cf' a : 0 <= k <= 31 -> cap = 2 ^ k -> run cf tr cf' -> simulates cap cf a ->
  forallb even_event tr = true -> paired cf -> paired cf'.
Proof.
  intros Hk Hcap H Ha. induction H as [c|c1 c2 c3 tr H IH St|c1 c2 c3 tr e H IH St]; intros He Hp; [done| |].
  - destruct (run_simulates cap k Hk Hcap _ _ _ _ H Ha) as (a' & _ & Hs).
    by apply (paired_step cap k _ _ _ _ Hk Hcap Hs St); [|apply IH].
  - rewrite forallb_app in He. apply andb_true_iff in He as [He1 He2]. cbn in He2. rewrite andb_true_r in He2.
    destruct (run_simulates cap k Hk Hcap _ _ _ _ H Ha) as (a' & _ & Hs).
    by apply (paired_step cap k _ _ _ _ Hk Hcap Hs St); [|apply IH].
Qed.

Lemma even_min x y : Z.even x = true -> Z.even y = true -> Z.even (Z.min x y) = true.
Proof. intros. destruct (Z.min_spec x y) as [[_ ->]|[_ ->]]; done. Qed.

(** In a ring of at least two octets an even limit gives an even span. *)
Lemma paired_read cap k cf buf q max_length off n : 0 <= k <= 31 -> cap = 2 ^ k -> 2 <= cap -> stores cap (cf_ring cf) buf q -> paired cf ->
  0 < max_length -> Z.even max_length = true -> esp_libusb_read_stream (cf_ring cf) max_length = Some (off, n) ->
  Z.even off = true /\ Z.even n = true.
Proof.
  intros Hk Ek Hc S (Hh & Ht & _) Hm Hme Hread.
  rewrite (read_eq cap k Hk Ek _ _ _ _ S Hm) in Hread. destruct (decide _); [done|]. injection Hread as <- <-.
  assert (Hce : Z.even cap = true).
  { rewrite Ek. destruct (Z.eq_dec k 0) as [->|]; [cbn in Ek; lia|]. rewrite Z.even_pow by lia. done. }
  assert (Hte : Z.even (ub_tail (cf_ring cf) mod cap) = true) by (rewrite even_mod; [done|lia|done]).
  split; [done|]. apply even_min; [|done]. unfold before_wrap. apply even_min.
  - rewrite <- (st_used _ _ _ _ S). unfold usbring_used. by rewrite even_u32, Z.even_sub, Hh, Ht.
  - by rewrite Z.even_sub, Hce, Hte.
Qed.

(** ** The properties *)

Section claims.
Context (alloc : Z -> option (list Z)) (st0 : usbring) (capacity : Z) (st : usbring).
Hypothesis Hcapacity : is_u 32 capacity.
Hypothesis Halloc : forall buf, alloc capacity = Some buf -> Z.of_nat (length buf) = capacity.
Hypothesis Hinit : usbring_init alloc st0 capacity = (st, ESP_OK).

(** C7: the ring refines a bounded FIFO of octets.  After [usbring_init],
    whatever the order in which the producer's loads, copies and publication
    and the consumer's peeks and releases of part or all of a span interleave,
    the writes reported, the writes dropped and the octets read are a run of
    the FIFO: octets come out in order, none twice and none overwritten before
    it is released; a write is dropped only when it did not fit at the moment
    it began, and an accepted one is appended whole.  At the end the counters
    account for exactly the octets stored, at most the capacity. *)
Theorem usbring_refines_fifo tr cf : run (Config st PIdle CIdle) tr cf ->
  exists a, fifo_run capacity (Fifo [] None) tr a /\ simulates capacity cf a /\
    written tr = delivered tr ++ q_bytes a /\
    usbring_get_info (cf_ring cf) = (Z.of_nat (length (q_bytes a)), capacity) /\ Z.of_nat (length (q_bytes a)) <= capacity.
Proof.
  intros H. destruct (init_simulates _ _ _ _ Hcapacity Halloc Hinit) as (k & Hk & Ek & Hs).
  destruct (run_simulates capacity k Hk Ek _ _ _ _ H Hs) as (a & Hr & Ha). exists a.
  split; [done|split; [done|split; [apply (fifo_run_bytes _ _ _ _ Hr)|]]].
  destruct Ha as (buf & S & _). split; [|apply S].
  unfold usbring_get_info. by rewrite (st_buf _ _ _ _ S), (st_used _ _ _ _ S), (st_cap _ _ _ _ S).
Qed.

(** The consumer always makes progress.  From any state the ring can
    reach, wherever the producer has stopped inside a write, a feed loop that
    reads at most [max_length] octets at a time empties the ring within
    [used / max_length + 2] rounds and reads exactly the octets accepted and
    not yet delivered; once the ring is empty any write of up to its capacity
    is accepted whole. *)
Theorem usbring_drains tr cf max_length fuel : run (Config st PIdle CIdle) tr cf -> 0 < max_length ->
  fst (usbring_get_info (cf_ring cf)) / max_length + 2 <= Z.of_nat fuel ->
  exists backlog st', feed_drain fuel (cf_ring cf) max_length = (backlog, st') /\ written tr = delivered tr ++ backlog /\
    usbring_get_info st' = (0, capacity) /\
    forall data, data <> [] -> Z.of_nat (length data) <= capacity -> snd (usbring_write st' data) = true.
Proof.
  intros H Hm Hf. destruct (init_simulates _ _ _ _ Hcapacity Halloc Hinit) as (k & Hk & Ek & Hs).
  destruct (run_simulates capacity k Hk Ek _ _ _ _ H Hs) as (a & Hr & buf & S & _). exists (q_bytes a).
  assert (Hrounds : rounds_left capacity (cf_ring cf) (q_bytes a) max_length <= Z.of_nat fuel).
  { pose proof (phys_range capacity k Hk Ek (ub_tail (cf_ring cf))). etrans; [|exact Hf].
    unfold usbring_get_info. rewrite (st_buf _ _ _ _ S), (st_used _ _ _ _ S). cbn [fst]. unfold rounds_left.
    set (b := before_wrap _ _ _). assert (Hb : 0 <= b <= Z.of_nat (length (q_bytes a))) by (unfold b, before_wrap; lia).
    etrans; [apply cdiv_sum; lia|]. replace (b + (Z.of_nat (length (q_bytes a)) - b)) with (Z.of_nat (length (q_bytes a))) by lia. done. }
  destruct (drain_all capacity k Hk Ek fuel _ _ _ _ S Hm Hrounds) as (st' & buf' & E & S'). exists st'.
  split; [done|split; [apply (fifo_run_bytes _ _ _ _ Hr)|split]].
  - unfold usbring_get_info. by rewrite (st_buf _ _ _ _ S'), (st_used _ _ _ _ S'), (st_cap _ _ _ _ S').
  - intros data Hd Hl. destruct (write_ok capacity k Hk Ek _ _ _ data S' Hd) as (s2 & b2 & -> & _). cbn. by apply Z.leb_le.
Qed.

(** I/Q pairing survives the wrap.  In a ring of at least two octets, as
    long as writes have even lengths and reads released even lengths, every
    span the feed loop is given for an even limit starts at an even offset and
    has an even length, so I and Q octets never change places. *)
Theorem usbring_iq_pairing tr cf max_length off n : 2 <= capacity -> run (Config st PIdle CIdle) tr cf ->
  forallb even_event tr = true -> 0 < max_length -> Z.even max_length = true ->
  esp_libusb_read_stream (cf_ring cf) max_length = Some (off, n) -> Z.even off = true /\ Z.even n = true.
Proof.
  intros Hc H He Hm Hme Hread. destruct (init_simulates _ _ _ _ Hcapacity Halloc Hinit) as (k & Hk & Ek & Hs).
  destruct (run_simulates capacity k Hk Ek _ _ _ _ H Hs) as (a & _ & buf & S & _).
  assert (Hst : ub_head st = 0 /\ ub_tail st = 0).
  { unfold usbring_init in Hinit. destruct (usbring_is_pow2_capacity _); [|done]. cbn in Hinit. by destruct (alloc capacity); [injection Hinit as <-|]. }
  assert (Hp : paired cf) by (apply (paired_run capacity k _ _ _ _ Hk Ek H Hs He); unfold paired; cbn; by destruct Hst as [-> ->]).
  apply (paired_read capacity k cf buf (q_bytes a) max_length off n Hk Ek Hc S Hp Hm Hme Hread).
Qed.
End claims.

(** ** Running schedules *)

(** A schedule names which side moves next. *)
Inductive move := MBegin (data : list Z) | MProducer | MPeek | MRelease (k : Z).

Definition exec1 (cf : config) (m : move) : option (config * option event) :=
  let st := cf_ring cf in
  match m, cf_prod cf, cf_cons cf, ub_buf st with
  | MBegin data, PIdle, c, Some _ =>
      match data with
      | [] => None
      | _ => Some (Config st (PLoaded data (ub_head st) (ub_tail st)) c, Some (EBegin data))
      end
  | MProducer, PLoaded data head tail, c, Some buf =>
      if usbring_free_space head tail (ub_capacity st) <? Z.of_nat (length data)
      then Some (Config st PIdle c, Some (EDropped data))
      else Some (Config (set_buf st (write_copy1 buf data head tail (ub_capacity st))) (PFirst data head tail) c, None)
  | MProducer, PFirst data head tail, c, Some buf =>
      Some (Config (set_buf st (write_copy2 buf data head tail (ub_capacity st))) (PCopied data head) c, None)
  | MProducer, PCopied data head, c, Some _ =>
      Some (Config (write_publish st head (Z.of_nat (length data))) PIdle c, Some (EWrote data))
  | MPeek, p, CIdle, Some _ =>
      match usbring_peek st with (Some off, n) => Some (Config st p (CSpan off n), None) | (None, _) => None end
  | MRelease k, p, CSpan off n, Some buf =>
      if (0 <? k) && (k <=? n)
      then Some (Config (usbring_consume st k) p CIdle, Some (ERead (slice buf (Z.to_nat off) (Z.to_nat k)))) else None
  | _, _, _, _ => None
  end.

Fixpoint exec (cf : config) (tr : list event) (ms : list move) : option (config * list event) :=
  match ms with
  | [] => Some (cf, tr)
  | m :: ms =>
    match exec1 cf m with
    | Some (cf', None) => exec cf' tr ms
    | Some (cf', Some e) => exec cf' (tr ++ [e]) ms
    | None => None
    end
  end.

Lemma exec1_step cf m cf' e : exec1 cf m = Some (cf', e) -> ring_step cf e cf'.
Proof.
  destruct cf as [st p c]. unfold exec1; cbn. intros H. destruct m as [d| | |n].
  - destruct p; try done. destruct (ub_buf st) eqn:Eb; [|done]. destruct d; [done|]. injection H as <- <-.
    apply step_load; congruence.
  - destruct p as [|d h t|d h t|d h]; try done; (destruct (ub_buf st) eqn:Eb; [|done]).
    + destruct (Z.ltb_spec (usbring_free_space h t (ub_capacity st)) (Z.of_nat (length d))); injection H as <- <-;
        [by apply step_full|by apply step_copy1].
    + injection H as <- <-. by apply step_copy2.
    + injection H as <- <-. by apply step_publish.
  - destruct c; [|by destruct p]. destruct (ub_buf st) eqn:Eb; [|by destruct p].
    destruct (usbring_peek st) as [[off|] n] eqn:Ep; [|by destruct p].
    assert (H' : Some (Config st p (CSpan off n), None) = Some (cf', e)) by (by destruct p). injection H' as <- <-. by apply step_peek.
  - destruct c as [|off m]; [by destruct p|]. destruct (ub_buf st) as [buf|] eqn:Eb; [|by destruct p].
    destruct ((0 <? n) && (n <=? m)) eqn:Ek; [|by destruct p]. apply andb_true_iff in Ek as [E1 E2].
    assert (H' : Some (Config (usbring_consume st n) p CIdle, Some (ERead (slice buf (Z.to_nat off) (Z.to_nat n)))) = Some (cf', e)) by (by destruct p).
    injection H' as <- <-. apply step_consume; [done|]. apply Z.ltb_lt in E1. apply Z.leb_le in E2. done.
Qed.

Lemma exec_run cf0 cf tr ms cf' tr' : run cf0 tr cf -> exec cf tr ms = Some (cf', tr') -> run cf0 tr' cf'.
Proof.
  revert cf tr. induction ms as [|m ms IH]; intros cf tr H E; cbn in E; [by injection E as <- <-|].
  destruct (exec1 cf m) as [[c2 [e|]]|] eqn:E1; [| |done]; apply (IH _ _) in E; try done.
  - eapply run_event; [exact H|exact (exec1_step _ _ _ _ E1)].
  - eapply run_tau; [exact H|exact (exec1_step _ _ _ _ E1)].
Qed.

(** *** Witnesses: an 8-octet ring; the second write wraps, and the consumer
    releases a span it peeked earlier between that write's two copies *)

Definition demo_alloc (n : Z) : option (list Z) := Some (repeat 0 (Z.to_nat n)).
Definition demo_start : usbring := fst (usbring_init demo_alloc (UsbRing None 0 0 0 false 0) 8).
Definition demo_moves : list move :=
  [MBegin [1;2;3;4;5;6]; MProducer; MProducer; MProducer; MPeek; MRelease 4; MPeek;
   MBegin [7;8;9;10]; MProducer; MRelease 2; MProducer; MProducer; MBegin [1;2;3;4;5;6]; MProducer].
Definition demo_end : config * list event :=
  Eval vm_compute in from_option id (Config demo_start PIdle CIdle, []) (exec (Config demo_start PIdle CIdle) [] demo_moves).

Lemma demo_run : run (Config demo_start PIdle CIdle) (snd demo_end) (fst demo_end).
Proof. apply (exec_run _ (Config demo_start PIdle CIdle) [] demo_moves); [apply run_nil|]. vm_compute. reflexivity. Qed.

Lemma demo_alloc_length buf : demo_alloc 8 = Some buf -> Z.of_nat (length buf) = 8.
Proof. intros H. injection H as <-. reflexivity. Qed.

(** Everything but the last write is delivered or stored, and that one, too
    long, is dropped. *)
Lemma usbring_refines_fifo_witness : exists a, fifo_run 8 (Fifo [] None) (snd demo_end) a /\
  q_bytes a = [7;8;9;10] /\ delivered (snd demo_end) = [1;2;3;4;5;6].
Proof.
  destruct (usbring_refines_fifo demo_alloc (UsbRing None 0 0 0 false 0) 8 demo_start ltac:(by vm_compute)
              demo_alloc_length eq_refl _ _ demo_run) as (a & Hr & _ & Hw & _).
  exists a. split; [exact Hr|split; [|reflexivity]]. revert Hw. generalize (q_bytes a). intros q Hw.
  assert (Hw' : [1;2;3;4;5;6] ++ [7;8;9;10] = [1;2;3;4;5;6] ++ q) by exact Hw. by apply app_inv_head in Hw'.
Defined.

(** Two octets at a time, four rounds suffice for the four octets left. *)
Lemma usbring_drains_witness : exists backlog st', feed_drain 4 (cf_ring (fst demo_end)) 2 = (backlog, st') /\
  written (snd demo_end) = delivered (snd demo_end) ++ backlog /\ usbring_get_info st' = (0, 8).
Proof.
  destruct (usbring_drains demo_alloc (UsbRing None 0 0 0 false 0) 8 demo_start ltac:(by vm_compute)
              demo_alloc_length eq_refl _ _ 2 4%nat demo_run ltac:(lia)) as (b & st' & H1 & H2 & H3 & _);
    [apply Z.leb_le; vm_compute; reflexivity|]. by exists b, st'.
Defined.

Lemma usbring_iq_pairing_witness : esp_libusb_read_stream (cf_ring (fst demo_end)) 16384 = Some (6, 2) /\
  Z.even 6 = true /\ Z.even 2 = true.
Proof.
  assert (H : esp_libusb_read_stream (cf_ring (fst demo_end)) 16384 = Some (6, 2)) by (vm_compute; reflexivity).
  split; [exact H|].
  apply (usbring_iq_pairing demo_alloc (UsbRing None 0 0 0 false 0) 8 demo_start ltac:(by vm_compute)
           demo_alloc_length eq_refl _ _ 16384 6 2 ltac:(lia) demo_run eq_refl ltac:(lia) eq_refl H).
Defined.
