(* ===== verification/FrameQueue.v ===== *)
(** The queue of demodulated bursts
    (src/common/iridium_decoder/frame_queue.c) and its producer
    [frame_decoder_push] (src/p4-usb-host/main/frame_decoder.c): one producer,
    one consumer, indices kept below the slot count, one slot left unused.

    An item's header is copied whole, its two arrays up to their counts only.
    The operations are functions on the queue's state; as for the USB ring, the
    same operations cut at their shared accesses are the steps of an
    interleaving, which refines a bounded FIFO of items.  Sizes are those of
    the 32-bit target.  NULL queues and items are not modelled. *)

From S2P Require Import Prelude.

(** ** Items *)

Definition FRAME_QUEUE_MAX_BITS : Z := 16832.
Definition FRAME_QUEUE_MAX_SOFT : Z := FRAME_QUEUE_MAX_BITS.

(** [it_snr_db] is the float's bit pattern: it is only ever copied. *)
Record frame_queue_item := Item {
  it_timestamp_us : Z; it_freq_hz : Z; it_peak_bin : Z; it_snr_db : Z; it_n_bits : Z; it_direction : Z;
  it_pad : Z; it_n_soft : Z; it_soft : list Z; it_bits : list Z }.

(** What the allocator's zeroed slots hold. *)
Definition item_zero : frame_queue_item :=
  Item 0 0 0 0 0 0 0 0 (repeat 0 (Z.to_nat FRAME_QUEUE_MAX_SOFT)) (repeat 0 (Z.to_nat FRAME_QUEUE_MAX_BITS)).

(** The counts clamped to the arrays. *)
Definition clamp_bits (n_bits : Z) : Z := if FRAME_QUEUE_MAX_BITS <? n_bits then FRAME_QUEUE_MAX_BITS else n_bits.
Definition clamp_soft (n_soft : Z) : Z := if FRAME_QUEUE_MAX_SOFT <? n_soft then FRAME_QUEUE_MAX_SOFT else n_soft.

(** The partial copy of [frame_queue_push], and that of [frame_queue_pop]. *)
Definition push_copy (slot item : frame_queue_item) : frame_queue_item :=
  let nb := clamp_bits (it_n_bits item) in
  let ns := clamp_soft (it_n_soft item) in
  Item (it_timestamp_us item) (it_freq_hz item) (it_peak_bin item) (it_snr_db item) (it_n_bits item)
    (it_direction item) (it_pad item) (u16 ns)
    (if ns =? 0 then it_soft slot else blit (it_soft slot) 0 (take (Z.to_nat ns) (it_soft item)))
    (blit (it_bits slot) 0 (take (Z.to_nat nb) (it_bits item))).

Definition pop_copy (out src : frame_queue_item) : frame_queue_item :=
  let ns := clamp_soft (it_n_soft src) in
  let nb := clamp_bits (it_n_bits src) in
  Item (it_timestamp_us src) (it_freq_hz src) (it_peak_bin src) (it_snr_db src) (it_n_bits src)
    (it_direction src) (it_pad src) (u16 ns)
    (if ns =? 0 then it_soft out else blit (it_soft out) 0 (take (Z.to_nat ns) (it_soft src)))
    (blit (it_bits out) 0 (take (Z.to_nat nb) (it_bits src))).

(** ** The queue *)

Record frame_queue := FrameQueue {
  fq_n_slots : Z; fq_mask : Z; fq_head : Z; fq_tail : Z; fq_pushed : Z; fq_popped : Z; fq_dropped : Z;
  fq_slots : list frame_queue_item }.

Definition is_power_of_two (n : Z) : bool := negb (n =? 0) && (Z.land n (u32 (n - 1)) =? 0).

(** [alloc_ok] says which of the two allocations succeed. *)
Definition frame_queue_create (alloc_ok : bool * bool) (n_slots : Z) : option frame_queue :=
  if (n_slots <? 2) || negb (is_power_of_two n_slots) then None
  else if negb (fst alloc_ok) then None
  else if negb (snd alloc_ok) then None
  else Some (FrameQueue n_slots (u32 (n_slots - 1)) 0 0 0 0 0 (repeat item_zero (Z.to_nat n_slots))).

Definition count_drop (q : frame_queue) : frame_queue :=
  FrameQueue (fq_n_slots q) (fq_mask q) (fq_head q) (fq_tail q) (fq_pushed q) (fq_popped q) (u64 (fq_dropped q + 1)) (fq_slots q).

(** The slot is returned as its index. *)
Definition frame_queue_producer_reserve (q : frame_queue) : frame_queue * option Z :=
  let tail := fq_tail q in
  let head := fq_head q in
  let next_tail := Z.land (u32 (tail + 1)) (fq_mask q) in
  if next_tail =? head then (count_drop q, None) else (q, Some tail).

Definition commit_publish (q : frame_queue) : frame_queue :=
  FrameQueue (fq_n_slots q) (fq_mask q) (fq_head q) (Z.land (u32 (fq_tail q + 1)) (fq_mask q))
    (fq_pushed q) (fq_popped q) (fq_dropped q) (fq_slots q).
Definition count_push (q : frame_queue) : frame_queue :=
  FrameQueue (fq_n_slots q) (fq_mask q) (fq_head q) (fq_tail q) (u64 (fq_pushed q + 1)) (fq_popped q) (fq_dropped q) (fq_slots q).
Definition frame_queue_producer_commit (q : frame_queue) : frame_queue := count_push (commit_publish q).

Definition read_slot (q : frame_queue) (i : Z) : frame_queue_item := nth (Z.to_nat i) (fq_slots q) item_zero.
Definition write_slot (q : frame_queue) (i : Z) (x : frame_queue_item) : frame_queue :=
  FrameQueue (fq_n_slots q) (fq_mask q) (fq_head q) (fq_tail q) (fq_pushed q) (fq_popped q) (fq_dropped q)
    (<[Z.to_nat i := x]> (fq_slots q)).

Definition frame_queue_push (q : frame_queue) (item : frame_queue_item) : frame_queue * bool :=
  match frame_queue_producer_reserve q with
  | (q, None) => (q, false)
  | (q, Some slot) => (frame_queue_producer_commit (write_slot q slot (push_copy (read_slot q slot) item)), true)
  end.

Definition pop_release (q : frame_queue) (head : Z) : frame_queue :=
  FrameQueue (fq_n_slots q) (fq_mask q) (Z.land (u32 (head + 1)) (fq_mask q)) (fq_tail q)
    (fq_pushed q) (fq_popped q) (fq_dropped q) (fq_slots q).
Definition count_pop (q : frame_queue) : frame_queue :=
  FrameQueue (fq_n_slots q) (fq_mask q) (fq_head q) (fq_tail q) (fq_pushed q) (u64 (fq_popped q + 1)) (fq_dropped q) (fq_slots q).

Definition frame_queue_pop (q : frame_queue) (out : frame_queue_item) : frame_queue * frame_queue_item * bool :=
  let head := fq_head q in
  let tail := fq_tail q in
  if head =? tail then (q, out, false)
  else (count_pop (pop_release q head), pop_copy out (read_slot q head), true).

Definition frame_queue_count (q : frame_queue) : Z := Z.land (u32 (fq_tail q - fq_head q)) (fq_mask q).
Definition frame_queue_capacity (q : frame_queue) : Z := u32 (fq_n_slots q - 1).
Definition frame_queue_pushed (q : frame_queue) : Z := fq_pushed q.
Definition frame_queue_popped (q : frame_queue) : Z := fq_popped q.
Definition frame_queue_dropped (q : frame_queue) : Z := fq_dropped q.

(** ** The producer *)

(** The arguments of [frame_decoder_push]; [pa_soft] is None for NULL. *)
Record push_args := PushArgs {
  pa_bits : list Z; pa_n_bits : Z; pa_soft : option (list Z); pa_n_soft : Z; pa_downlink : bool;
  pa_freq_hz : Z; pa_peak_bin : Z; pa_snr_db : Z; pa_timestamp_us : Z }.

Definition push_guard (a : push_args) : bool :=
  negb ((pa_n_bits a =? 0) || (FRAME_QUEUE_MAX_BITS <? pa_n_bits a)).

(** The slot filled in place; [now] is the clock's reading. *)
Definition decoder_fill (now : Z) (slot : frame_queue_item) (a : push_args) : frame_queue_item :=
  let '(n_soft, soft) :=
    match pa_soft a with
    | Some soft_bits =>
        if 0 <? pa_n_soft a then
          let n_soft := clamp_soft (pa_n_soft a) in
          (u16 n_soft, blit (it_soft slot) 0 (take (Z.to_nat n_soft) soft_bits))
        else (0, it_soft slot)
    | None => (0, it_soft slot)
    end in
  Item (if pa_timestamp_us a =? 0 then now else pa_timestamp_us a) (pa_freq_hz a) (pa_peak_bin a) (pa_snr_db a)
    (u16 (pa_n_bits a)) (if pa_downlink a then 0 else 1) 0 n_soft soft
    (blit (it_bits slot) 0 (take (Z.to_nat (pa_n_bits a)) (pa_bits a))).

Definition frame_decoder_push (initialised : bool) (now : Z) (q : frame_queue) (a : push_args) : frame_queue * bool :=
  if negb initialised then (q, false)
  else if negb (push_guard a) then (q, false)
  else
    match frame_queue_producer_reserve q with
    | (q, None) => (q, false)
    | (q, Some slot) => (frame_queue_producer_commit (write_slot q slot (decoder_fill now (read_slot q slot) a)), true)
    end.

(** ** Interleaving *)

(** What the producer writes between [reserve] and [commit]: an item copied
    by [frame_queue_push], or one filled in place by [frame_decoder_push]. *)
Inductive fill := FillItem (item : frame_queue_item) | FillArgs (now : Z) (a : push_args).

Definition do_fill (slot : frame_queue_item) (f : fill) : frame_queue_item :=
  match f with FillItem item => push_copy slot item | FillArgs now a => decoder_fill now slot a end.

Inductive producer := PIdle | PReserved (slot : Z) | PFilled (f : fill) | PPublished.
Inductive consumer := CIdle | CReady (head : Z) | CCopied (head : Z) (out : frame_queue_item) | CReleased.

Record config := Config { cf_queue : frame_queue; cf_prod : producer; cf_cons : consumer }.

(** A push published, a push refused, an item delivered, nothing to deliver. *)
Inductive event := EPushed (f : fill) | EDropped | EPopped (x : frame_queue_item) | EEmpty.

(** An argument of the C functions: arrays as long as their types or counts
    say, counts of their width. *)
Definition wf_item (x : frame_queue_item) : Prop :=
  is_u 16 (it_n_bits x) /\ is_u 16 (it_n_soft x) /\
  Z.of_nat (length (it_soft x)) = FRAME_QUEUE_MAX_SOFT /\ Z.of_nat (length (it_bits x)) = FRAME_QUEUE_MAX_BITS.
Definition wf_args (a : push_args) : Prop :=
  0 <= pa_n_bits a <= Z.of_nat (length (pa_bits a)) /\ 0 <= pa_n_soft a /\
  forall soft, pa_soft a = Some soft -> pa_n_soft a <= Z.of_nat (length soft).
Definition wf_fill (f : fill) : Prop :=
  match f with FillItem item => wf_item item | FillArgs _ a => wf_args a /\ push_guard a = true end.

Inductive fq_step : config -> option event -> config -> Prop :=
  | step_reserve q slot c : frame_queue_producer_reserve q = (q, Some slot) ->
      fq_step (Config q PIdle c) None (Config q (PReserved slot) c)
  | step_drop q q' c : frame_queue_producer_reserve q = (q', None) ->
      fq_step (Config q PIdle c) (Some EDropped) (Config q' PIdle c)
  | step_fill q slot f c : wf_fill f ->
      fq_step (Config q (PReserved slot) c) None (Config (write_slot q slot (do_fill (read_slot q slot) f)) (PFilled f) c)
  | step_publish q f c : fq_step (Config q (PFilled f) c) (Some (EPushed f)) (Config (commit_publish q) PPublished c)
  | step_count_push q c : fq_step (Config q PPublished c) None (Config (count_push q) PIdle c)
  | step_ready q p : fq_head q <> fq_tail q -> fq_step (Config q p CIdle) None (Config q p (CReady (fq_head q)))
  | step_empty q p : fq_head q = fq_tail q -> fq_step (Config q p CIdle) (Some EEmpty) (Config q p CIdle)
  | step_copy q p head out : wf_item out ->
      fq_step (Config q p (CReady head)) None (Config q p (CCopied head (pop_copy out (read_slot q head))))
  | step_release q p head x :
      fq_step (Config q p (CCopied head x)) (Some (EPopped x)) (Config (pop_release q head) p CReleased)
  | step_count_pop q p : fq_step (Config q p CReleased) None (Config (count_pop q) p CIdle).

Inductive run : config -> list event -> config -> Prop :=
  | run_nil c : run c [] c
  | run_tau c1 c2 c3 tr : run c1 tr c2 -> fq_step c2 None c3 -> run c1 tr c3
  | run_event c1 c2 c3 tr e : run c1 tr c2 -> fq_step c2 (Some e) c3 -> run c1 (tr ++ [e]) c3.

(** ** The abstract queue *)

(** What of an item may be read: the header and the counted prefixes. *)
Definition visible (x : frame_queue_item) : frame_queue_item :=
  Item (it_timestamp_us x) (it_freq_hz x) (it_peak_bin x) (it_snr_db x) (it_n_bits x) (it_direction x) (it_pad x)
    (clamp_soft (it_n_soft x))
    (take (Z.to_nat (clamp_soft (it_n_soft x))) (it_soft x)) (take (Z.to_nat (clamp_bits (it_n_bits x))) (it_bits x)).

(** What a fill puts into the queue, whatever the slot held before. *)
Definition meant (f : fill) : frame_queue_item :=
  match f with
  | FillItem item => visible item
  | FillArgs now a =>
      let soft := match pa_soft a with Some s => take (Z.to_nat (clamp_soft (pa_n_soft a))) s | None => [] end in
      Item (if pa_timestamp_us a =? 0 then now else pa_timestamp_us a) (pa_freq_hz a) (pa_peak_bin a) (pa_snr_db a)
        (pa_n_bits a) (if pa_downlink a then 0 else 1) 0 (Z.of_nat (length soft)) soft (take (Z.to_nat (pa_n_bits a)) (pa_bits a))
  end.

Inductive queue_step (cap : Z) : list frame_queue_item -> event -> list frame_queue_item -> Prop :=
  | queue_push q f : wf_fill f -> Z.of_nat (length q) < cap -> queue_step cap q (EPushed f) (q ++ [meant f])
  | queue_drop q : Z.of_nat (length q) = cap -> queue_step cap q EDropped q
  | queue_pop x q : wf_item x -> it_n_soft x <= FRAME_QUEUE_MAX_SOFT -> queue_step cap (visible x :: q) (EPopped x) q
  | queue_empty : queue_step cap [] EEmpty [].

Inductive queue_run (cap : Z) : list frame_queue_item -> list event -> list frame_queue_item -> Prop :=
  | queue_run_nil q : queue_run cap q [] q
  | queue_run_snoc q1 q2 q3 tr e : queue_run cap q1 tr q2 -> queue_step cap q2 e q3 -> queue_run cap q1 (tr ++ [e]) q3.

Definition pushed_items (tr : list event) : list frame_queue_item :=
  flat_map (fun e => match e with EPushed f => [meant f] | _ => [] end) tr.
Definition popped_items (tr : list event) : list frame_queue_item :=
  flat_map (fun e => match e with EPopped x => [visible x] | _ => [] end) tr.
Definition drops (tr : list event) : Z :=
  Z.of_nat (length (flat_map (fun e => match e with EDropped => [tt] | _ => [] end) tr)).

(** ** Items survive the partial copies *)

#[local] Opaque FRAME_QUEUE_MAX_BITS.

Lemma max_range : 0 < FRAME_QUEUE_MAX_BITS < 65536.
Proof. split; apply Z.ltb_lt; vm_compute; reflexivity. Qed.

Lemma clamp_bits_spec n : 0 <= n -> 0 <= clamp_bits n <= FRAME_QUEUE_MAX_BITS /\ clamp_bits n <= n.
Proof. intros. pose proof max_range. unfold clamp_bits. destruct (Z.ltb_spec FRAME_QUEUE_MAX_BITS n); lia. Qed.

Lemma clamp_soft_spec n : 0 <= n -> 0 <= clamp_soft n <= FRAME_QUEUE_MAX_BITS /\ clamp_soft n <= n.
Proof. apply clamp_bits_spec. Qed.

Lemma clamp_bits_id n : n <= FRAME_QUEUE_MAX_BITS -> clamp_bits n = n.
Proof. intros H. unfold clamp_bits. by rewrite (proj2 (Z.ltb_ge _ _)). Qed.

Lemma clamp_soft_id n : n <= FRAME_QUEUE_MAX_BITS -> clamp_soft n = n.
Proof. apply clamp_bits_id. Qed.

Lemma take_blit_0 (dst src : list Z) n : (length src <= length dst)%nat -> n = length src -> take n (blit dst 0 src) = src.
Proof. intros Hl ->. unfold blit. rewrite take_0, app_nil_l. apply take_app_length. Qed.

Lemma take_if {A} (b : bool) (x y : list A) n : take n (if b then x else y) = if b then take n x else take n y.
Proof. by destruct b. Qed.

Lemma push_copy_visible slot item : wf_item slot -> wf_item item -> visible (push_copy slot item) = visible item.
Proof.
  intros (_ & _ & Ls & Lb) (Hb & Hs & Ls' & Lb'). unfold FRAME_QUEUE_MAX_SOFT in *.
  destruct Hb as [Hb _], Hs as [Hs _].
  pose proof (clamp_bits_spec _ Hb) as [Cb _]. pose proof (clamp_soft_spec _ Hs) as [Cs _]. pose proof max_range as M.
  unfold visible, push_copy; cbn.
  rewrite (u16_small (clamp_soft (it_n_soft item))) by lia. rewrite (clamp_soft_id (clamp_soft _)) by lia.
  f_equal.
  - rewrite take_if, take_blit_0 by (rewrite length_take; lia).
    destruct (Z.eqb_spec (clamp_soft (it_n_soft item)) 0) as [->|]; [by rewrite !take_0|done].
  - apply take_blit_0; rewrite length_take; lia.
Qed.

Lemma push_copy_wf slot item : wf_item slot -> wf_item item -> wf_item (push_copy slot item).
Proof.
  intros (_ & _ & Ls & Lb) (Hb & Hs & Ls' & Lb'). unfold FRAME_QUEUE_MAX_SOFT in *.
  pose proof (clamp_bits_spec _ (proj1 Hb)) as [Cb _]. pose proof (clamp_soft_spec _ (proj1 Hs)) as [Cs _]. pose proof max_range as M.
  unfold push_copy. split; [done|]; cbn. rewrite u16_small by lia. split; [split; [lia|]; change (2 ^ 16) with 65536; lia|].
  split; [|rewrite length_blit by (rewrite length_take; lia); done].
  destruct (_ =? _); [done|]. rewrite length_blit by (rewrite length_take; lia). done.
Qed.

Lemma decoder_fill_ok now slot a : wf_item slot -> wf_args a -> push_guard a = true ->
  wf_item (decoder_fill now slot a) /\ visible (decoder_fill now slot a) = meant (FillArgs now a).
Proof.
  intros (_ & _ & Ls & Lb) (Hb & Hs & Hl) G. unfold FRAME_QUEUE_MAX_SOFT in *. pose proof max_range as M.
  unfold push_guard in G. apply negb_true_iff, orb_false_iff in G as [G1 G2]. apply Z.eqb_neq in G1. apply Z.ltb_ge in G2.
  assert (Eb : take (Z.to_nat (pa_n_bits a)) (blit (it_bits slot) 0 (take (Z.to_nat (pa_n_bits a)) (pa_bits a))) = take (Z.to_nat (pa_n_bits a)) (pa_bits a)).
  { apply take_blit_0; rewrite length_take; lia. }
  assert (Lbits : length (blit (it_bits slot) 0 (take (Z.to_nat (pa_n_bits a)) (pa_bits a))) = length (it_bits slot)).
  { apply length_blit. rewrite length_take. lia. }
  assert (Hnone : forall soft, length soft = length (it_soft slot) ->
    let x := Item (if pa_timestamp_us a =? 0 then now else pa_timestamp_us a) (pa_freq_hz a) (pa_peak_bin a) (pa_snr_db a)
      (u16 (pa_n_bits a)) (if pa_downlink a then 0 else 1) 0 0 soft (blit (it_bits slot) 0 (take (Z.to_nat (pa_n_bits a)) (pa_bits a))) in
    wf_item x /\ visible x = Item (it_timestamp_us x) (it_freq_hz x) (it_peak_bin x) (it_snr_db x) (pa_n_bits a) (it_direction x) 0 0 []
      (take (Z.to_nat (pa_n_bits a)) (pa_bits a))).
  { intros soft Es. cbv zeta. unfold wf_item, visible; cbn. rewrite u16_small by lia. rewrite (clamp_bits_id (pa_n_bits a)) by lia.
    rewrite (clamp_soft_id 0) by lia. rewrite Eb. split; [|done].
    split; [split; [lia|]; change (2 ^ 16) with 65536; lia|]. split; [done|]. unfold FRAME_QUEUE_MAX_SOFT. lia. }
  unfold decoder_fill. destruct (pa_soft a) as [s|] eqn:Es.
  2:{ destruct (Hnone (it_soft slot) eq_refl) as [W V]. split; [exact W|]. etrans; [exact V|]. unfold meant. by rewrite Es. }
  destruct (Z.ltb_spec 0 (pa_n_soft a)) as [Hp|Hp].
  2:{ destruct (Hnone (it_soft slot) eq_refl) as [W V]. split; [exact W|]. etrans; [exact V|]. unfold meant. rewrite Es.
      rewrite (clamp_soft_id (pa_n_soft a)) by lia. by replace (Z.to_nat (pa_n_soft a)) with 0%nat by lia. }
  pose proof (clamp_soft_spec _ Hs) as [Cs Cs']. pose proof (Hl _ eq_refl) as Hls.
  unfold wf_item, visible, meant; cbn. rewrite Es. rewrite !u16_small by lia. rewrite (clamp_bits_id (pa_n_bits a)) by lia.
  rewrite (clamp_soft_id (clamp_soft _)) by lia. rewrite Eb.
  rewrite take_blit_0 by (rewrite length_take; lia). unfold FRAME_QUEUE_MAX_SOFT. change (2 ^ 16) with 65536.
  split; [|f_equal; rewrite length_take; lia].
  rewrite length_blit by (rewrite length_take; lia). split; [|split; [|lia]]; split; change (2 ^ 16) with 65536; lia.
Qed.

Lemma do_fill_ok slot f : wf_item slot -> wf_fill f -> wf_item (do_fill slot f) /\ visible (do_fill slot f) = meant f.
Proof.
  intros Hs. destruct f as [item|now a]; cbn.
  - intros Hi. split; [by apply push_copy_wf|by apply push_copy_visible].
  - intros [Ha Hg]. by apply decoder_fill_ok.
Qed.

Lemma item_zero_wf : wf_item item_zero.
Proof.
  unfold wf_item, item_zero; cbn. rewrite !repeat_length. pose proof max_range. unfold FRAME_QUEUE_MAX_SOFT.
  split; [done|split; [done|]]. lia.
Qed.

(** ** The simulation relation *)

Section ring.
Context (n k : Z).
Hypotheses (Hk : 1 <= k <= 31) (Hn : n = 2 ^ k).

Lemma n_range : 2 <= n <= 2 ^ 31.
Proof. rewrite Hn. split; [change 2 with (2 ^ 1) at 1|]; apply Z.pow_le_mono_r; lia. Qed.

Lemma mask_mod x : Z.land (u32 x) (n - 1) = x mod n.
Proof. rewrite Hn, land_mask by lia. apply u32_mod_pow2. lia. Qed.

(** The queue holds exactly the visible items [l]. *)
Record stores (q : frame_queue) (l : list frame_queue_item) : Prop := {
  st_slots : fq_n_slots q = n;
  st_mask : fq_mask q = n - 1;
  st_len : Z.of_nat (length (fq_slots q)) = n;
  st_head : 0 <= fq_head q < n;
  st_tail : fq_tail q = (fq_head q + Z.of_nat (length l)) mod n;
  st_room : Z.of_nat (length l) < n;
  st_wf : Forall wf_item (fq_slots q);
  st_items : forall i, (i < length l)%nat -> l !! i = Some (visible (read_slot q ((fq_head q + Z.of_nat i) mod n))) }.

Lemma read_slot_wf q l i : stores q l -> 0 <= i < n -> wf_item (read_slot q i).
Proof.
  intros S Hi. pose proof (st_len _ _ S) as L. unfold read_slot. rewrite nth_lookup.
  destruct (lookup_lt_is_Some_2 (fq_slots q) (Z.to_nat i) ltac:(lia)) as [x E]. rewrite E. exact (Forall_lookup_1 _ _ _ _ (st_wf _ _ S) E).
Qed.

Lemma tail_range q l : stores q l -> 0 <= fq_tail q < n.
Proof. intros S. rewrite (st_tail _ _ S). apply Z.mod_pos_bound. pose proof n_range. lia. Qed.

(** A write to the slot at the tail reaches no stored item. *)
Lemma tail_not_stored q l i : stores q l -> (i < length l)%nat -> (fq_head q + Z.of_nat i) mod n <> fq_tail q.
Proof.
  intros S Hi. pose proof (st_head _ _ S) as Hh. pose proof (st_room _ _ S) as Hr. rewrite (st_tail _ _ S).
  rewrite !wrap_mod by lia. destruct (Z.ltb_spec (fq_head q + Z.of_nat i) n); destruct (Z.ltb_spec (fq_head q + Z.of_nat (length l)) n); lia.
Qed.

Lemma read_write_slot q j x i : 0 <= i -> 0 <= j < Z.of_nat (length (fq_slots q)) ->
  read_slot (write_slot q j x) i = if decide (i = j) then x else read_slot q i.
Proof.
  intros Hi Hj. unfold read_slot, write_slot; cbn. rewrite !nth_lookup. case_decide as E.
  - subst j. by rewrite list_lookup_insert_eq by lia.
  - by rewrite list_lookup_insert_ne by lia.
Qed.

Lemma write_tail_ok q l x : stores q l -> wf_item x ->
  stores (write_slot q (fq_tail q) x) l /\ read_slot (write_slot q (fq_tail q) x) (fq_tail q) = x.
Proof.
  intros S Hx. pose proof (tail_range _ _ S) as Ht. pose proof (st_len _ _ S) as L. pose proof n_range.
  split; [|rewrite read_write_slot by lia; by rewrite decide_True].
  constructor; try apply S.
  - cbn. by rewrite length_insert.
  - cbn. apply Forall_insert; [apply S|done].
  - intros i Hi. change (fq_head (write_slot q (fq_tail q) x)) with (fq_head q). rewrite read_write_slot by (try lia; apply Z.mod_pos_bound; lia).
    rewrite decide_False by (by eapply tail_not_stored). by apply (st_items _ _ S).
Qed.

Lemma reserve_eq q l : stores q l ->
  frame_queue_producer_reserve q = if Z.of_nat (length l) =? n - 1 then (count_drop q, None) else (q, Some (fq_tail q)).
Proof.
  intros S. pose proof (st_head _ _ S) as Hh. pose proof (st_room _ _ S) as Hr. pose proof n_range.
  unfold frame_queue_producer_reserve. rewrite (st_mask _ _ S), mask_mod, (st_tail _ _ S), Z.add_mod_idemp_l by lia.
  rewrite <- Z.add_assoc, wrap_mod by lia.
  destruct (Z.ltb_spec (fq_head q + (Z.of_nat (length l) + 1)) n); destruct (Z.eqb_spec (Z.of_nat (length l)) (n - 1)).
  - rewrite (proj2 (Z.eqb_eq _ _)) by lia. done.
  - rewrite (proj2 (Z.eqb_neq _ _)) by lia. done.
  - rewrite (proj2 (Z.eqb_eq _ _)) by lia. done.
  - rewrite (proj2 (Z.eqb_neq _ _)) by lia. done.
Qed.

Lemma stores_same q q' l : fq_n_slots q' = fq_n_slots q -> fq_mask q' = fq_mask q -> fq_head q' = fq_head q -> fq_tail q' = fq_tail q ->
  fq_slots q' = fq_slots q -> stores q l -> stores q' l.
Proof.
  intros E1 E2 E3 E4 E5 S. constructor; rewrite ?E1, ?E2, ?E3, ?E4, ?E5; try apply S.
  intros i Hi. unfold read_slot. rewrite E5. by apply (st_items _ _ S).
Qed.

Lemma fq_publish_ok q l : stores q l -> Z.of_nat (length l) < n - 1 ->
  stores (commit_publish q) (l ++ [visible (read_slot q (fq_tail q))]).
Proof.
  intros S Hl. pose proof n_range. constructor; try apply S; cbn; rewrite ?length_app; cbn [length].
  - rewrite (st_mask _ _ S), mask_mod, (st_tail _ _ S), Z.add_mod_idemp_l by lia. f_equal. lia.
  - lia.
  - intros i Hi. destruct (decide (i < length l)%nat).
    + rewrite lookup_app_l by done. by apply (st_items _ _ S).
    + replace i with (length l) by lia. rewrite lookup_app_r, Nat.sub_diag by lia. cbn. by rewrite (st_tail _ _ S).
Qed.

Lemma release_ok q x l : stores q (x :: l) -> x = visible (read_slot q (fq_head q)) /\ stores (pop_release q (fq_head q)) l.
Proof.
  intros Q. pose proof n_range. pose proof (st_head _ _ Q) as Hh. split.
  - pose proof (st_items _ _ Q 0%nat ltac:(cbn; lia)) as E. rewrite Z.add_0_r, Z.mod_small in E by done. by injection E.
  - pose proof (st_room _ _ Q) as Hr. pose proof (st_mask _ _ Q) as Hm. cbn [length] in Hr.
    assert (Eh : fq_head (pop_release q (fq_head q)) = (fq_head q + 1) mod n) by (cbn; by rewrite Hm, mask_mod).
    constructor; try apply Q; rewrite ?Eh.
    + apply Z.mod_pos_bound. lia.
    + change (fq_tail (pop_release q (fq_head q))) with (fq_tail q).
      rewrite Z.add_mod_idemp_l, (st_tail _ _ Q) by lia. cbn [length]. f_equal. lia.
    + lia.
    + intros i Hi. pose proof (st_items _ _ Q (S i) ltac:(cbn; lia)) as E. rewrite <- lookup_tail in E. cbn [tail] in E. rewrite E.
      rewrite Z.add_mod_idemp_l by lia.
      replace (fq_head q + 1 + Z.of_nat i) with (fq_head q + Z.of_nat (S i)) by lia. done.
Qed.

Lemma empty_iff q l : stores q l -> fq_head q = fq_tail q <-> l = [].
Proof.
  intros S. pose proof (st_head _ _ S) as Hh. pose proof (st_room _ _ S) as Hr. rewrite (st_tail _ _ S), wrap_mod by lia.
  split.
  - intros E. apply length_zero_iff_nil. destruct (Z.ltb_spec (fq_head q + Z.of_nat (length l)) n); lia.
  - intros ->. cbn. rewrite (proj2 (Z.ltb_lt _ _)); lia.
Qed.

Lemma count_eq q l : stores q l -> frame_queue_count q = Z.of_nat (length l).
Proof.
  intros S. pose proof (st_room _ _ S) as Hr. pose proof n_range.
  unfold frame_queue_count. rewrite (st_mask _ _ S), mask_mod, (st_tail _ _ S), Zminus_mod_idemp_l.
  rewrite Z.mod_small by lia. lia.
Qed.

Lemma push_copy_soft slot item : wf_item item -> it_n_soft (push_copy slot item) <= FRAME_QUEUE_MAX_SOFT.
Proof.
  intros (_ & Hs & _). pose proof (clamp_soft_spec _ (proj1 Hs)) as [Cs _]. pose proof max_range.
  unfold push_copy; cbn. rewrite u16_small by lia. unfold FRAME_QUEUE_MAX_SOFT. lia.
Qed.

(** *** Every step is matched *)

Definition prod_ok (q : frame_queue) (l : list frame_queue_item) (p : producer) : Prop :=
  match p with
  | PIdle | PPublished => True
  | PReserved slot => slot = fq_tail q /\ Z.of_nat (length l) < n - 1
  | PFilled f => wf_fill f /\ Z.of_nat (length l) < n - 1 /\ visible (read_slot q (fq_tail q)) = meant f
  end.

Definition cons_ok (q : frame_queue) (l : list frame_queue_item) (c : consumer) : Prop :=
  match c with
  | CIdle | CReleased => True
  | CReady head => head = fq_head q /\ l <> []
  | CCopied head x => head = fq_head q /\ wf_item x /\ it_n_soft x <= FRAME_QUEUE_MAX_SOFT /\ exists l', l = visible x :: l'
  end.

(** The counters, short of an increment its side has yet to make. *)
Definition counters_ok (cf : config) (tr : list event) : Prop :=
  u64 (fq_pushed (cf_queue cf) + (if cf_prod cf is PPublished then 1 else 0)) = u64 (Z.of_nat (length (pushed_items tr))) /\
  u64 (fq_popped (cf_queue cf) + (if cf_cons cf is CReleased then 1 else 0)) = u64 (Z.of_nat (length (popped_items tr))) /\
  u64 (fq_dropped (cf_queue cf)) = u64 (drops tr).

Definition simulates (cf : config) (l : list frame_queue_item) : Prop :=
  stores (cf_queue cf) l /\ prod_ok (cf_queue cf) l (cf_prod cf) /\ cons_ok (cf_queue cf) l (cf_cons cf).

Lemma fq_step_simulates cf ev cf' l : simulates cf l -> fq_step cf ev cf' ->
  match ev with
  | None => simulates cf' l
  | Some e => exists l', queue_step (n - 1) l e l' /\ simulates cf' l'
  end.
Proof.
  intros (Q & P & C) St. pose proof n_range as Hn2. pose proof (st_head _ _ Q) as Hh.
  destruct St as [q s c Hr|q q' c Hr|q s f c Hf|q f c|q c|q p He|q p He|q p h out Ho|q p h x|q p]; cbn [cf_queue cf_prod cf_cons] in *.
  - rewrite (reserve_eq _ _ Q) in Hr. pose proof (st_room _ _ Q).
    destruct (Z.eqb_spec (Z.of_nat (length l)) (n - 1)); [done|]. injection Hr as <-. split; [done|split; [|done]]. cbn. lia.
  - rewrite (reserve_eq _ _ Q) in Hr. destruct (Z.eqb_spec (Z.of_nat (length l)) (n - 1)); [|done]. injection Hr as <-.
    exists l. split; [by constructor|]. split; [by apply (stores_same q)|done].
  - destruct P as [-> Hl]. destruct (do_fill_ok (read_slot q (fq_tail q)) f) as [W V]; [|done|].
    { apply (read_slot_wf q l); [done|by eapply tail_range]. }
    destruct (write_tail_ok q l _ Q W) as [Q' R]. split; [done|split; [|by destruct c]]. cbn [cf_prod prod_ok].
    split; [done|split; [done|]]. exact (eq_trans (f_equal visible R) V).
  - destruct P as (Wf & Hl & V). exists (l ++ [meant f]). split; [constructor; [done|lia]|]. rewrite <- V.
    split; [by apply fq_publish_ok|split; [done|]]. destruct c as [|h|h x|]; cbn in C |- *; try done.
    + destruct C as [-> Hne]. split; [done|]. by destruct l.
    + destruct C as (-> & Wx & Sx & l' & ->). repeat (split; [done|]). by exists (l' ++ [visible (read_slot q (fq_tail q))]).
  - split; [by apply (stores_same q)|done].
  - split; [done|split; [done|]]. cbn. split; [done|]. intros ->. apply He. by apply (empty_iff _ [] Q).
  - exists l. apply (empty_iff _ _ Q) in He as ->. split; [constructor|done].
  - destruct C as [-> Hne]. split; [done|split; [done|]]. cbn. split; [done|].
    assert (Ws : wf_item (read_slot q (fq_head q))) by (by eapply read_slot_wf).
    split; [by apply (push_copy_wf out)|split; [by apply (push_copy_soft out)|]].
    destruct l as [|x l']; [done|]. exists l'. f_equal. destruct (release_ok _ _ _ Q) as [-> _].
    symmetry. by apply (push_copy_visible out).
  - destruct C as (-> & Wx & Sx & l' & ->). exists l'. split; [by constructor|]. destruct (release_ok _ _ _ Q) as [_ Q'].
    split; [done|split; [|done]]. destruct p as [|s|f|]; cbn in P |- *; try done; [split; [tauto|lia]|].
    split; [tauto|split; [lia|tauto]].
  - split; [by apply (stores_same q)|done].
Qed.

Lemma fq_run_simulates cf tr cf' l : run cf tr cf' -> simulates cf l -> exists l', queue_run (n - 1) l tr l' /\ simulates cf' l'.
Proof.
  intros H Hl. induction H as [c|c1 c2 c3 tr H IH St|c1 c2 c3 tr e H IH St].
  - exists l. split; [constructor|done].
  - destruct (IH Hl) as (l' & Hr & Hs). exists l'. split; [done|]. apply (fq_step_simulates _ _ _ _ Hs St).
  - destruct (IH Hl) as (l' & Hr & Hs). destruct (fq_step_simulates _ _ _ _ Hs St) as (l2 & Hst & Hs2).
    exists l2. split; [by econstructor|done].
Qed.
End ring.

Lemma queue_run_items cap tr l l' : queue_run cap l tr l' -> l ++ pushed_items tr = popped_items tr ++ l'.
Proof.
  intros H. induction H as [l|l1 l2 l3 tr e H IH St]; [by rewrite app_nil_r|].
  unfold pushed_items, popped_items. rewrite !flat_map_app. fold (pushed_items tr) (popped_items tr). rewrite app_assoc, IH.
  destruct St; cbn; rewrite ?app_nil_r, <- ?app_assoc; done.
Qed.

Lemma u64_succ x y : u64 x = u64 y -> u64 (x + 1) = u64 (y + 1).
Proof. unfold u64. intros E. by rewrite <- Z.add_mod_idemp_l, E, Z.add_mod_idemp_l by lia. Qed.

Lemma u64_u64_succ x : u64 (u64 x) = u64 x.
Proof. unfold u64. by rewrite Z.mod_mod by lia. Qed.

Lemma count_snoc {A} (f : event -> list A) tr e :
  Z.of_nat (length (flat_map f (tr ++ [e]))) = Z.of_nat (length (flat_map f tr)) + Z.of_nat (length (f e)).
Proof. rewrite flat_map_app, length_app. cbn. rewrite app_nil_r. lia. Qed.

Lemma step_counters cf ev cf' tr : counters_ok cf tr -> fq_step cf ev cf' ->
  counters_ok cf' (match ev with Some e => tr ++ [e] | None => tr end).
Proof.
  intros C St. unfold counters_ok, pushed_items, popped_items, drops in *.
  destruct St as [q s c Hr|q q' c Hr|q s f c Hf|q f c|q c|q p He|q p He|q p h out Ho|q p h x|q p];
    rewrite ?count_snoc; cbn in *; rewrite ?Z.add_0_r in *; rewrite ?u64_u64_succ; try done.
  - unfold frame_queue_producer_reserve in Hr. destruct (_ =? _); [|done]. injection Hr as <-. cbn. rewrite u64_u64_succ.
    destruct C as (C1 & C2 & C3). split; [done|split; [done|by apply u64_succ]].
  - destruct C as (C1 & C2 & C3). split; [by apply u64_succ|done].
  - destruct C as (C1 & C2 & C3). split; [done|split; [by apply u64_succ|done]].
Qed.

Lemma run_counters cf tr0 tr cf' : run cf tr cf' -> tr0 = [] -> counters_ok cf tr0 -> counters_ok cf' tr.
Proof.
  intros H -> Ha. induction H as [c|c1 c2 c3 tr H IH St|c1 c2 c3 tr e H IH St]; [done| |].
  - apply (step_counters _ _ _ _ (IH Ha) St).
  - apply (step_counters _ _ _ _ (IH Ha) St).
Qed.

Lemma create_simulates ok n q : is_u 32 n -> frame_queue_create ok n = Some q ->
  exists k, 1 <= k <= 31 /\ n = 2 ^ k /\ simulates n (Config q PIdle CIdle) [] /\ counters_ok (Config q PIdle CIdle) [].
Proof.
  intros Hn H. unfold frame_queue_create in H. destruct (Z.ltb_spec n 2) as [|H2]; [done|]. cbn [orb] in H.
  destruct (is_power_of_two n) eqn:Ep; [|done]. cbn [negb] in H. destruct (fst ok), (snd ok); try done. cbn in H. injection H as <-.
  destruct (is_pow2_spec n Hn Ep) as (k & Hk & Ek). exists k.
  assert (Hk1 : k <> 0) by (intros ->; cbn in Ek; lia). split; [lia|split; [done|split; [|done]]].
  split; [|done]. constructor; cbn; try lia.
  - apply u32_small. destruct Hn. lia.
  - rewrite repeat_length. lia.
  - symmetry. apply Z.mod_0_l. lia.
  - apply Forall_forall. intros x Hx. apply repeat_spec in Hx as ->. apply item_zero_wf.
Qed.

(** *** The operations, run without interruption *)

Lemma reserve_same q q' s : frame_queue_producer_reserve q = (q', Some s) -> q' = q.
Proof. unfold frame_queue_producer_reserve. destruct (_ =? _); [done|]. by intros [= <-]. Qed.

Lemma fill_run c0 tr q s f c : run c0 tr (Config q PIdle c) -> wf_fill f -> frame_queue_producer_reserve q = (q, Some s) ->
  run c0 (tr ++ [EPushed f]) (Config (frame_queue_producer_commit (write_slot q s (do_fill (read_slot q s) f))) PIdle c).
Proof.
  intros H Hf Hr. eapply run_tau; [|apply step_count_push]. eapply run_event; [|apply step_publish].
  eapply run_tau; [|by apply step_fill]. eapply run_tau; [exact H|by apply step_reserve].
Qed.

Lemma push_run c0 tr q item q' c : run c0 tr (Config q PIdle c) -> wf_item item -> frame_queue_push q item = (q', true) ->
  run c0 (tr ++ [EPushed (FillItem item)]) (Config q' PIdle c).
Proof.
  intros H Hi E. unfold frame_queue_push in E. destruct (frame_queue_producer_reserve q) as [q2 [s|]] eqn:Er; [|done].
  pose proof (reserve_same _ _ _ Er) as ->. injection E as <-. by apply (fill_run _ _ q s (FillItem item)).
Qed.

Lemma decoder_push_run c0 tr q ini now a q' c : run c0 tr (Config q PIdle c) -> wf_args a ->
  frame_decoder_push ini now q a = (q', true) -> run c0 (tr ++ [EPushed (FillArgs now a)]) (Config q' PIdle c).
Proof.
  intros H Ha E. unfold frame_decoder_push in E. destruct ini; [|done]. destruct (push_guard a) eqn:G; [|done]. cbn [negb] in E.
  destruct (frame_queue_producer_reserve q) as [q2 [s|]] eqn:Er; [|done].
  pose proof (reserve_same _ _ _ Er) as ->. injection E as <-. by apply (fill_run _ _ q s (FillArgs now a)).
Qed.

Lemma pop_run c0 tr q p out q' out' : run c0 tr (Config q p CIdle) -> wf_item out ->
  frame_queue_pop q out = (q', out', true) -> run c0 (tr ++ [EPopped out']) (Config q' p CIdle).
Proof.
  intros H Ho E. unfold frame_queue_pop in E. destruct (Z.eqb_spec (fq_head q) (fq_tail q)) as [|Hne]; [done|]. injection E as <- <-.
  eapply run_tau; [|apply step_count_pop]. eapply run_event; [|apply step_release].
  eapply run_tau; [|by apply step_copy]. eapply run_tau; [exact H|by apply step_ready].
Qed.

(** Only the copy is clamped: the count itself is passed on. *)
Lemma frame_queue_n_bits_unclamped slot out item : it_n_bits (pop_copy out (push_copy slot item)) = it_n_bits item.
Proof. reflexivity. Qed.

Lemma queue_run_popped cap l tr l' x : queue_run cap l tr l' -> In (EPopped x) tr ->
  wf_item x /\ it_n_soft x <= FRAME_QUEUE_MAX_SOFT /\ In (visible x) (popped_items tr).
Proof.
  intros H Hx. assert (Hv : In (visible x) (popped_items tr)).
  { apply in_flat_map. exists (EPopped x). split; [done|by left]. }
  split; [|split; [|done]]; clear Hv; induction H as [l|l1 l2 l3 tr e H IH St]; try done;
    (apply in_app_or in Hx as [Hx|[->|[]]]; [by apply IH|inversion St; by subst]).
Qed.

Lemma queue_run_pushed cap l tr l' y : queue_run cap l tr l' -> In y (pushed_items tr) ->
  exists f, In (EPushed f) tr /\ wf_fill f /\ y = meant f.
Proof.
  intros H. induction H as [l|l1 l2 l3 tr e H IH St]; [done|]. unfold pushed_items. rewrite flat_map_app. intros Hy.
  apply in_app_or in Hy as [Hy|Hy].
  - destruct (IH Hy) as (f & Hf & W & E). exists f. split; [apply in_or_app; by left|done].
  - destruct St as [q f W Hl| | |]; try done. destruct Hy as [<-|[]]. exists f. split; [apply in_or_app; right; by left|done].
Qed.

(** ** The properties *)

Section claims.
Context (alloc_ok : bool * bool) (n_slots : Z) (q0 : frame_queue).
Hypothesis Hslots : is_u 32 n_slots.
Hypothesis Hcreate : frame_queue_create alloc_ok n_slots = Some q0.

(** C6: the burst queue refines a bounded FIFO of items.  However the
    producer's reserve, fill and commit and the consumer's look, copy and
    release interleave, the pushes, refusals and pops are a run of the FIFO of
    capacity [n_slots - 1]: a push is refused exactly when the queue is full
    at the moment of the reservation, a pop fails exactly when it is empty,
    and items come out once each, in order, header and counted prefixes
    unchanged whatever the slot or the destination held before.  The count is
    the number of items queued, and the counters tell pushes, pops and
    refusals. *)
Theorem frame_queue_refines_fifo tr cf : run (Config q0 PIdle CIdle) tr cf ->
  exists l, queue_run (frame_queue_capacity q0) [] tr l /\ pushed_items tr = popped_items tr ++ l /\
    frame_queue_count (cf_queue cf) = Z.of_nat (length l) /\ Z.of_nat (length l) <= frame_queue_capacity q0 /\ counters_ok cf tr.
Proof.
  intros H. destruct (create_simulates _ _ _ Hslots Hcreate) as (k & Hk & Ek & Hs & Hc).
  destruct (fq_run_simulates n_slots k Hk Ek _ _ _ _ H Hs) as (l & Hr & Hl). pose proof (n_range n_slots k Hk Ek).
  assert (Ecap : frame_queue_capacity q0 = n_slots - 1).
  { unfold frame_queue_capacity. rewrite (st_slots _ _ _ (proj1 Hs) : fq_n_slots q0 = _). apply u32_small. lia. }
  rewrite Ecap. exists l. split; [done|split; [apply (queue_run_items _ _ _ _ Hr)|]].
  split; [apply (count_eq n_slots k Hk Ek _ _ (proj1 Hl))|]. split; [|by apply (run_counters _ [] _ _ H)].
  pose proof (st_room _ _ _ (proj1 Hl)). lia.
Qed.

(** C39: what the decoder task is handed is well typed.  When every push came
    from [frame_decoder_push], every item a pop delivers, under any
    interleaving, has between 1 and [FRAME_QUEUE_MAX_BITS] bits and at most
    [FRAME_QUEUE_MAX_SOFT] soft values, counts that stay inside its arrays,
    and its counted bits are those of one accepted call. *)
Theorem frame_decoder_items_typed tr cf x : run (Config q0 PIdle CIdle) tr cf ->
  (forall f, In (EPushed f) tr -> exists now a, f = FillArgs now a) -> In (EPopped x) tr ->
  wf_item x /\ 1 <= it_n_bits x <= FRAME_QUEUE_MAX_BITS /\ it_n_soft x <= FRAME_QUEUE_MAX_SOFT /\
  exists now a, In (EPushed (FillArgs now a)) tr /\ it_n_bits x = pa_n_bits a /\
    take (Z.to_nat (it_n_bits x)) (it_bits x) = take (Z.to_nat (pa_n_bits a)) (pa_bits a).
Proof.
  intros H Hd Hx. destruct (create_simulates _ _ _ Hslots Hcreate) as (k & Hk & Ek & Hs & _).
  destruct (fq_run_simulates n_slots k Hk Ek _ _ _ _ H Hs) as (l & Hr & _).
  destruct (queue_run_popped _ _ _ _ _ Hr Hx) as (W & Sx & Hv).
  destruct (queue_run_pushed _ _ _ _ (visible x) Hr) as (f & Hf & Wf & E).
  { rewrite (queue_run_items _ _ _ _ Hr : pushed_items tr = _). apply in_or_app. by left. }
  destruct (Hd f Hf) as (now & a & ->). destruct Wf as [Wa G].
  assert (En : it_n_bits x = pa_n_bits a) by exact (f_equal it_n_bits E).
  assert (Eb : take (Z.to_nat (clamp_bits (it_n_bits x))) (it_bits x) = take (Z.to_nat (pa_n_bits a)) (pa_bits a)) by exact (f_equal it_bits E).
  unfold push_guard in G. apply negb_true_iff, orb_false_iff in G as [G1 G2]. apply Z.eqb_neq in G1. apply Z.ltb_ge in G2.
  rewrite clamp_bits_id in Eb by lia. destruct Wa as [Wa _].
  split; [done|split; [lia|split; [done|]]]. by exists now, a.
Qed.
End claims.

(** *** Witnesses: a two-slot queue, one burst pushed and popped *)

Definition demo_args : push_args := PushArgs [1;0;1;1] 4 (Some [9;-3;8;7]) 4 true 0 77 0 1000.
Definition demo_q0 : frame_queue := FrameQueue 2 1 0 0 0 0 0 [item_zero; item_zero].
Definition demo_q1 : frame_queue := fst (frame_decoder_push true 5 demo_q0 demo_args).
Definition demo_pop : frame_queue * frame_queue_item * bool := frame_queue_pop demo_q1 item_zero.
Definition demo_trace : list event := [EPushed (FillArgs 5 demo_args); EPopped (snd (fst demo_pop))].

Lemma fq_demo_run : run (Config demo_q0 PIdle CIdle) demo_trace (Config (fst (fst demo_pop)) PIdle CIdle).
Proof.
  apply (pop_run _ [EPushed (FillArgs 5 demo_args)] demo_q1 PIdle item_zero).
  - apply (decoder_push_run _ [] demo_q0 true 5); [apply run_nil| |].
    + split; [cbn; lia|split; [cbn; lia|]]. intros s [= <-]. cbn. lia.
    + apply injective_projections; [done|]. vm_compute. reflexivity.
  - apply item_zero_wf.
  - apply injective_projections; [|vm_compute; reflexivity]. by apply injective_projections.
Qed.

Lemma frame_queue_refines_fifo_witness : exists l, queue_run 1 [] demo_trace l /\ Z.of_nat (length l) <= 1.
Proof.
  destruct (frame_queue_refines_fifo (true, true) 2 demo_q0 ltac:(by vm_compute) eq_refl _ _ fq_demo_run) as (l & H1 & _ & _ & H2 & _).
  exists l. split; [exact H1|exact H2].
Defined.

Lemma frame_decoder_items_typed_witness : 1 <= it_n_bits (snd (fst demo_pop)) <= FRAME_QUEUE_MAX_BITS.
Proof.
  destruct (frame_decoder_items_typed (true, true) 2 demo_q0 ltac:(by vm_compute) eq_refl demo_trace _ (snd (fst demo_pop)) fq_demo_run)
    as (_ & H & _).
  - intros f [E|[E|[]]]; [|discriminate E]. exists 5, demo_args. congruence.
  - right. left. reflexivity.
  - exact H.
Defined.
