(* ===== verification/FeedPipeline.v ===== *)
(** The feed pipeline: the ingest task's two ping-pong slots
    (src/p4-usb-host/main/ingest_core1.c) and the feed task's loop over them
    (src/p4-usb-host/main/class_driver.c, [dsp_feed_task]), on top of the USB
    ring.

    Three tasks share state: the USB producer writes the ring, the feed task
    peeks spans and dispatches them to a slot, the ingest task converts a
    span's octets into the slot's samples a tile at a time.  Each shared
    access is one step of the task that makes it.  The kernel's binary
    semaphores and message queue are interfaces with their documented laws. *)

From S2P Require Import Prelude UsbRing.

(** ** The kernel's primitives *)

(** A binary semaphore: taking an empty one blocks. *)
Class BinarySemaphore (Sem : Type) := {
  sem_create : Sem; sem_give : Sem -> Sem; sem_take : Sem -> option Sem; sem_given : Sem -> bool;
  sem_created : sem_given sem_create = false;
  sem_give_given s : sem_given (sem_give s) = true;
  sem_take_blocks s : sem_given s = false -> sem_take s = None;
  sem_take_takes s : sem_given s = true -> exists s', sem_take s = Some s' /\ sem_given s' = false }.

(** A bounded queue: sending to a full one without waiting fails. *)
Class MessageQueue (Que M : Type) := {
  queue_create : nat -> Que; queue_send : Que -> M -> option Que; queue_receive : Que -> option (M * Que);
  queue_items : Que -> list M; queue_depth : Que -> nat;
  queue_created n : queue_items (queue_create n) = [] /\ queue_depth (queue_create n) = n;
  queue_send_room q m : (length (queue_items q) < queue_depth q)%nat ->
    exists q', queue_send q m = Some q' /\ queue_items q' = queue_items q ++ [m] /\ queue_depth q' = queue_depth q;
  queue_receive_empty q : queue_items q = [] -> queue_receive q = None;
  queue_receive_first q m l : queue_items q = m :: l ->
    exists q', queue_receive q = Some (m, q') /\ queue_items q' = l /\ queue_depth q' = queue_depth q }.

(** Lists with a depth are such queues. *)
#[export] Instance list_queue (M : Type) : MessageQueue (nat * list M) M.
Proof.
  refine {| queue_create := fun n => (n, []);
            queue_send := fun '(n, l) m => if (length l <? n)%nat then Some (n, l ++ [m]) else None;
            queue_receive := fun '(n, l) => match l with [] => None | m :: l => Some (m, (n, l)) end;
            queue_items := snd; queue_depth := fst |}.
  - done.
  - intros [n l] m Hl. cbn [fst snd] in *. destruct (Nat.ltb_spec (length l) n); [by eexists|lia].
  - intros [n l] E. cbn in *. by subst.
  - intros [n l] m l' E. cbn in *. subst. by eexists.
Defined.

(** ** Conversion *)

Definition INGEST_NUM_SLOTS : nat := 2.
Definition INGEST_SLOT_ELEMS : Z := 20 * 1024.
Definition INGEST_TILE_COMPLEX : Z := 1024.
Definition out_block_size : Z := 16 * 1024.

(** [(int16_t)((b << 8) ^ 0x8000)]. *)
Definition to_int16 (z : Z) : Z := if u16 z <? 32768 then u16 z else u16 z - 65536.
Definition convert_octet (b : Z) : Z := to_int16 (Z.lxor (Z.shiftl b 8) 32768).

(** The AGC scan: the largest [|b - 127|] of the first 256 octets. *)
Definition agc_deviation (b : Z) : Z := let d := b - 127 in if d <? 0 then - d else d.
Definition agc_max (src : list Z) : Z :=
  foldl (fun m b => let d := agc_deviation b in if m <? d then d mod 256 else m) 0 (take 256 src).

(** ** State *)

Record dispatch_msg := Msg { dm_slot : nat; dm_ptr : Z; dm_bytes : Z }.

Section pipeline.
Context {Sem Que : Type} `{Hsem : BinarySemaphore Sem} `{Hque : MessageQueue Que dispatch_msg}.

(** One slot: its semaphores, [s_resamp] and [s_resamp_n_int16]. *)
Record slot := Slot { sl_ready : Sem; sl_free : Sem; sl_raw_done : Sem; sl_resamp : list Z; sl_n_int16 : Z }.

(** Where [ingest_task] is: the message in hand, the complex samples done, the
    complex samples of the tile. *)
Inductive ingest_pc :=
  | IIdle
  | IAgc (m : dispatch_msg)
  | ITile (m : dispatch_msg) (done : Z)
  | IGive (m : dispatch_msg) (done tile : Z)
  | ICopy (m : dispatch_msg) (done tile : Z)
  | IGiveNone (m : dispatch_msg)
  | IPublish (m : dispatch_msg)
  | IReady (m : dispatch_msg).

Record ingest := Ingest { ig_pc : ingest_pc; ig_tile : list Z; ig_agc_peak_dev : Z; ig_agc_dispatches : Z }.

(** Where [dsp_feed_task] is; [slot] is [slot_for_read]. *)
Inductive feed_pc :=
  | FTop
  | FAcquire
  | FRawDone (slot : nat)
  | FReclaim (slot : nat)
  | FRead (slot : nat)
  | FDispatch (slot : nat) (off n : Z)
  | FTake (slot : nat)
  | FFeed (slot : nat) (n_int16 : Z)
  | FRelease (slot : nat)
  | FTakeIdle (slot : nat)
  | FFeedIdle (slot : nat) (n_int16 : Z)
  | FReleaseIdle (slot : nat)
  | FReleaseSlot (slot : nat)
  | FWaitData
  | FStopped.

(** [prev_dsp_slot] (None is -1) and [raw_bytes]. *)
Record feed := Feed { fd_pc : feed_pc; fd_prev : option nat; fd_raw_bytes : list Z }.

(** The whole: the ring with its producer and the span peeked from it, the
    slots, [s_dispatch], [s_next_acquire_slot], [s_dispatch_drops] and both
    tasks. *)
Record sys := Sys {
  sy_usb : config; sy_slots : list slot; sy_queue : Que; sy_next : nat; sy_drops : Z; sy_ingest : ingest; sy_feed : feed }.

Definition slot_zero : slot := Slot sem_create sem_create sem_create [] 0.
Definition get_slot (s : sys) (i : nat) : slot := nth i (sy_slots s) slot_zero.
Definition set_slot (s : sys) (i : nat) (x : slot) : sys :=
  Sys (sy_usb s) (<[i := x]> (sy_slots s)) (sy_queue s) (sy_next s) (sy_drops s) (sy_ingest s) (sy_feed s).
Definition set_usb (s : sys) (u : config) : sys :=
  Sys u (sy_slots s) (sy_queue s) (sy_next s) (sy_drops s) (sy_ingest s) (sy_feed s).
Definition set_queue (s : sys) (q : Que) : sys :=
  Sys (sy_usb s) (sy_slots s) q (sy_next s) (sy_drops s) (sy_ingest s) (sy_feed s).
Definition set_ingest (s : sys) (g : ingest) : sys :=
  Sys (sy_usb s) (sy_slots s) (sy_queue s) (sy_next s) (sy_drops s) g (sy_feed s).
Definition set_feed (s : sys) (f : feed) : sys :=
  Sys (sy_usb s) (sy_slots s) (sy_queue s) (sy_next s) (sy_drops s) (sy_ingest s) f.

Definition give_ready (x : slot) : slot := Slot (sem_give (sl_ready x)) (sl_free x) (sl_raw_done x) (sl_resamp x) (sl_n_int16 x).
Definition give_free (x : slot) : slot := Slot (sl_ready x) (sem_give (sl_free x)) (sl_raw_done x) (sl_resamp x) (sl_n_int16 x).
Definition give_raw_done (x : slot) : slot := Slot (sl_ready x) (sl_free x) (sem_give (sl_raw_done x)) (sl_resamp x) (sl_n_int16 x).
Definition with_ready (x : slot) (v : Sem) : slot := Slot v (sl_free x) (sl_raw_done x) (sl_resamp x) (sl_n_int16 x).
Definition with_free (x : slot) (v : Sem) : slot := Slot (sl_ready x) v (sl_raw_done x) (sl_resamp x) (sl_n_int16 x).
Definition with_raw_done (x : slot) (v : Sem) : slot := Slot (sl_ready x) (sl_free x) v (sl_resamp x) (sl_n_int16 x).
Definition with_resamp (x : slot) (out : list Z) : slot := Slot (sl_ready x) (sl_free x) (sl_raw_done x) out (sl_n_int16 x).
Definition with_n (x : slot) (n : Z) : slot := Slot (sl_ready x) (sl_free x) (sl_raw_done x) (sl_resamp x) n.

(** [ingest_core1_init] on allocated buffers. *)
Definition ingest_core1_init (usb : config) (bufs : list (list Z)) : sys :=
  Sys usb (map (fun b => Slot sem_create (sem_give sem_create) sem_create b 0) bufs) (queue_create 4) 0 0
    (Ingest IIdle [] 0 0) (Feed FTop None (repeat 0 INGEST_NUM_SLOTS)).

(** ** The ingest task *)

(** The octets of the ring a message points to, from [o], [n] of them. *)
Definition ring_octets (u : config) (m : dispatch_msg) (o n : Z) : list Z :=
  match ub_buf (cf_ring u) with Some buf => slice buf (Z.to_nat (dm_ptr m + o)) (Z.to_nat n) | None => [] end.

Definition n_in_complex (m : dispatch_msg) : Z := dm_bytes m / 2.

Definition ingest_at (s : sys) (pc : ingest_pc) : sys :=
  set_ingest s (Ingest pc (ig_tile (sy_ingest s)) (ig_agc_peak_dev (sy_ingest s)) (ig_agc_dispatches (sy_ingest s))).

Definition agc_scan (s : sys) (m : dispatch_msg) : sys :=
  let g := sy_ingest s in
  let dev := agc_max (ring_octets (sy_usb s) m 0 (Z.min 256 (dm_bytes m))) in
  set_ingest s (Ingest (ITile m 0) (ig_tile g) (if ig_agc_peak_dev g <? dev then dev else ig_agc_peak_dev g)
    (u32 (ig_agc_dispatches g + 1))).

Definition ingest_core1_agc_sample (g : ingest) : ingest * (Z * Z) :=
  (Ingest (ig_pc g) (ig_tile g) 0 0, (ig_agc_peak_dev g, ig_agc_dispatches g)).

(** Convert one tile, or go on when there is nothing to convert. *)
Definition convert_tile (s : sys) (m : dispatch_msg) (done : Z) : sys :=
  let total := n_in_complex m in
  if done <? total then
    let tile := if INGEST_TILE_COMPLEX <? total - done then INGEST_TILE_COMPLEX else total - done in
    let samples := map convert_octet (ring_octets (sy_usb s) m (2 * done) (2 * tile)) in
    set_ingest s (Ingest (if total <=? done + tile then IGive m done tile else ICopy m done tile) samples
      (ig_agc_peak_dev (sy_ingest s)) (ig_agc_dispatches (sy_ingest s)))
  else ingest_at s (IGiveNone m).

Definition ingest_step (s : sys) : option sys :=
  match ig_pc (sy_ingest s) with
  | IIdle =>
      match queue_receive (sy_queue s) with
      | Some (m, q) => Some (ingest_at (set_queue s q) (IAgc m))
      | None => None
      end
  | IAgc m => Some (agc_scan s m)
  | ITile m done => Some (convert_tile s m done)
  | IGive m done tile => Some (ingest_at (set_slot s (dm_slot m) (give_raw_done (get_slot s (dm_slot m)))) (ICopy m done tile))
  | ICopy m done tile =>
      let x := get_slot s (dm_slot m) in
      let s := set_slot s (dm_slot m) (with_resamp x (blit (sl_resamp x) (Z.to_nat (2 * done)) (ig_tile (sy_ingest s)))) in
      Some (ingest_at s (if done + tile <? n_in_complex m then ITile m (done + tile) else IPublish m))
  | IGiveNone m => Some (ingest_at (set_slot s (dm_slot m) (give_raw_done (get_slot s (dm_slot m)))) (IPublish m))
  | IPublish m =>
      Some (ingest_at (set_slot s (dm_slot m) (with_n (get_slot s (dm_slot m)) (2 * n_in_complex m))) (IReady m))
  | IReady m => Some (ingest_at (set_slot s (dm_slot m) (give_ready (get_slot s (dm_slot m)))) IIdle)
  end.

(** ** The feed task *)

(** What a step shows: the ring's events; a block of samples given to
    [dsp_processor_feed], or passed over while a continuous capture runs; a
    dispatch the queue refused. *)
Inductive sys_event := EUsb (e : event) | EFed (samples : list Z) | EShed (samples : list Z) | ELost.

(** [if (!sd_capture_continuous_active()) dsp_processor_feed(...)] *)
Definition hand_over (shed : bool) (samples : list Z) : sys_event := if shed then EShed samples else EFed samples.

Definition feed_at (s : sys) (pc : feed_pc) : sys := set_feed s (Feed pc (fd_prev (sy_feed s)) (fd_raw_bytes (sy_feed s))).
Definition with_prev (s : sys) (prev : option nat) : sys := set_feed s (Feed (fd_pc (sy_feed s)) prev (fd_raw_bytes (sy_feed s))).

Definition ingest_core1_acquire_slot (s : sys) : option (sys * nat) :=
  let i := sy_next s in
  match sem_take (sl_free (get_slot s i)) with
  | Some v =>
      let s := set_slot s i (with_free (get_slot s i) v) in
      Some (Sys (sy_usb s) (sy_slots s) (sy_queue s) ((i + 1) mod INGEST_NUM_SLOTS) (sy_drops s) (sy_ingest s) (sy_feed s), i)
  | None => None
  end.

(** [fault] is the injected send failure. *)
Definition ingest_core1_dispatch (fault : bool) (s : sys) (i : nat) (ptr bytes : Z) : sys * option sys_event :=
  match (if fault then None else queue_send (sy_queue s) (Msg i ptr bytes)) with
  | Some q => (set_queue s q, None)
  | None =>
      let s := Sys (sy_usb s) (sy_slots s) (sy_queue s) (sy_next s) (u32 (sy_drops s + 1)) (sy_ingest s) (sy_feed s) in
      (set_slot s i (give_ready (give_raw_done (with_n (get_slot s i) 0))), Some ELost)
  end.

Definition ingest_core1_wait_raw_done (s : sys) (i : nat) : option sys :=
  match sem_take (sl_raw_done (get_slot s i)) with
  | Some v => Some (set_slot s i (with_raw_done (get_slot s i) v))
  | None => None
  end.

(** [fault] is the injected wait: the loop goes round without trying the
    semaphore.  The count of slow waits is left out. *)
Definition ingest_core1_take_converted (fault : bool) (s : sys) (i : nat) : option (sys * Z) :=
  match (if fault then None else sem_take (sl_ready (get_slot s i))) with
  | Some v => Some (set_slot s i (with_ready (get_slot s i) v), sl_n_int16 (get_slot s i))
  | None => None
  end.

Definition ingest_core1_release (s : sys) (i : nat) : sys := set_slot s i (give_free (get_slot s i)).

(** The span peeked, limited to [out_block_size], and its release; both keep
    the note of the outstanding span. *)
Definition read_span (s : sys) : option (sys * (Z * Z)) :=
  let u := sy_usb s in
  match usbring_peek (cf_ring u), esp_libusb_read_stream (cf_ring u) out_block_size with
  | (_, contig), Some (off, n) => Some (set_usb s (Config (cf_ring u) (cf_prod u) (CSpan off contig)), (off, n))
  | _, None => None
  end.

Definition reclaim_span (s : sys) (n : Z) : sys * option sys_event :=
  let u := sy_usb s in
  let bytes := match cf_cons u, ub_buf (cf_ring u) with
               | CSpan off _, Some buf => slice buf (Z.to_nat off) (Z.to_nat n)
               | _, _ => []
               end in
  (set_usb s (Config (esp_libusb_consume_stream (cf_ring u) n) (cf_prod u) CIdle), Some (EUsb (ERead bytes))).

(** The samples [dsp_processor_feed] gets: pairs of [n_int16]. *)
Definition fed_samples (s : sys) (i : nat) (n_int16 : Z) : list Z :=
  take (Z.to_nat (2 * (n_int16 / 2))) (sl_resamp (get_slot s i)).

(** One step of the feed task.  [stop] is [s_feed_stop_requested], [shed] is
    [sd_capture_continuous_active] and [fault] the injected fault of the call
    that the step makes. *)
Definition feed_step (stop fault shed : bool) (s : sys) : option (sys * option sys_event) :=
  let f := sy_feed s in
  match fd_pc f with
  | FTop => Some (feed_at s (if stop then FStopped else FAcquire), None)
  | FAcquire =>
      match ingest_core1_acquire_slot s with
      | Some (s, i) => Some (feed_at s (match fd_prev f with Some _ => FRawDone i | None => FRead i end), None)
      | None => None
      end
  | FRawDone i =>
      match fd_prev f with
      | Some p => match ingest_core1_wait_raw_done s p with Some s => Some (feed_at s (FReclaim i), None) | None => None end
      | None => None
      end
  | FReclaim i =>
      match fd_prev f with
      | Some p => let '(s, e) := reclaim_span s (nth p (fd_raw_bytes f) 0) in Some (feed_at s (FRead i), e)
      | None => None
      end
  | FRead i =>
      match read_span s with
      | Some (s, (off, n)) => Some (feed_at s (FDispatch i off n), None)
      | None => Some (feed_at s (match fd_prev f with Some _ => FTakeIdle i | None => FReleaseSlot i end), None)
      end
  | FDispatch i off n =>
      let '(s, e) := ingest_core1_dispatch fault s i off n in
      let raw := <[i := n]> (fd_raw_bytes f) in
      Some (set_feed s (match fd_prev f with Some p => Feed (FTake i) (Some p) raw | None => Feed FTop (Some i) raw end), e)
  | FTake i =>
      match fd_prev f with
      | Some p => match ingest_core1_take_converted fault s p with Some (s, n) => Some (feed_at s (FFeed i n), None) | None => None end
      | None => None
      end
  | FFeed i n =>
      match fd_prev f with
      | Some p => Some (feed_at s (FRelease i), Some (hand_over shed (fed_samples s p n)))
      | None => None
      end
  | FRelease i =>
      match fd_prev f with
      | Some p => Some (feed_at (with_prev (ingest_core1_release s p) (Some i)) FTop, None)
      | None => None
      end
  | FTakeIdle i =>
      match fd_prev f with
      | Some p => match ingest_core1_take_converted fault s p with Some (s, n) => Some (feed_at s (FFeedIdle i n), None) | None => None end
      | None => None
      end
  | FFeedIdle i n =>
      match fd_prev f with
      | Some p => Some (feed_at s (FReleaseIdle i), Some (hand_over shed (fed_samples s p n)))
      | None => None
      end
  | FReleaseIdle i =>
      match fd_prev f with
      | Some p => Some (feed_at (with_prev (ingest_core1_release s p) None) (FReleaseSlot i), None)
      | None => None
      end
  | FReleaseSlot i => Some (feed_at (ingest_core1_release s i) FWaitData, None)
  | FWaitData => Some (feed_at s FTop, None)
  | FStopped => None
  end.

(** ** Interleaving *)

(** Which task moved. *)
Inductive task := Producer | FeedTask | IngestTask.

Inductive sys_step : task -> sys -> option sys_event -> sys -> Prop :=
  | sys_producer s u e : ring_step (sy_usb s) e u -> cf_cons u = cf_cons (sy_usb s) ->
      sys_step Producer s (option_map EUsb e) (set_usb s u)
  | sys_feed s s' stop fault shed e : feed_step stop fault shed s = Some (s', e) -> sys_step FeedTask s e s'
  | sys_ingest s s' : ingest_step s = Some s' -> sys_step IngestTask s None s'.

Inductive sys_run : sys -> list sys_event -> sys -> Prop :=
  | sys_nil s : sys_run s [] s
  | sys_tau s1 s2 s3 t tr : sys_run s1 tr s2 -> sys_step t s2 None s3 -> sys_run s1 tr s3
  | sys_snoc s1 s2 s3 t tr e : sys_run s1 tr s2 -> sys_step t s2 (Some e) s3 -> sys_run s1 (tr ++ [e]) s3.
End pipeline.
