(* ===== verification/FeedInvariant.v ===== *)
(** The feed pipeline's invariant: who owns each slot, how far each dispatched
    block has got, and where the octets read stand. *)

From S2P Require Import Prelude UsbRing FeedPipeline.

(** ** Ghost state *)

(** A block dispatched to a slot: its octets, where in the ring they stand,
    whether the queue refused it, whether it is marked ready. *)
Record block := Block { bk_bytes : list Z; bk_off : Z; bk_lost : bool; bk_done : bool }.

Definition bk_len (b : block) : Z := Z.of_nat (length (bk_bytes b)).
(** Complex samples, and int16 elements. *)
Definition bk_total (b : block) : Z := bk_len b / 2.
Definition bk_elems (b : block) : Z := if bk_lost b then 0 else 2 * bk_total b.
Definition bk_samples (b : block) : list Z := map convert_octet (take (Z.to_nat (bk_elems b)) (bk_bytes b)).
Definition bk_finish (b : block) : block := Block (bk_bytes b) (bk_off b) (bk_lost b) true.
Definition bk_msg (i : nat) (b : block) : dispatch_msg := Msg i (bk_off b) (bk_len b).

(** Free, held by the feed task, or holding a block; [raw] and [ready] say
    which of its two signals the feed task has taken. *)
Inductive kind := KFree | KHeld | KBusy (raw ready : bool).

Definition other (i : nat) : nat := (1 - i)%nat.

(** What the feed task's place says of its slots. *)
Definition raw_taken (pc : feed_pc) : bool :=
  match pc with FTop | FAcquire | FStopped | FRawDone _ => false | _ => true end.
Definition ready_taken (pc : feed_pc) : bool :=
  match pc with FFeed _ _ | FRelease _ | FFeedIdle _ _ | FReleaseIdle _ => true | _ => false end.
Definition newer_kind (pc : feed_pc) : kind :=
  match pc with
  | FTop | FAcquire | FStopped => KFree
  | FTake _ | FFeed _ _ | FRelease _ => KBusy false false
  | _ => KHeld
  end.

Definition kinds (f : feed) (i : nat) : kind :=
  match fd_prev f with
  | Some p => if decide (i = p) then KBusy (raw_taken (fd_pc f)) (ready_taken (fd_pc f)) else newer_kind (fd_pc f)
  | None =>
      match fd_pc f with
      | FRead j | FDispatch j _ _ | FReleaseSlot j => if decide (i = j) then KHeld else KFree
      | _ => KFree
      end
  end.

(** The slot the feed task is working for, if any. *)
Definition pc_slot (pc : feed_pc) : option nat :=
  match pc with
  | FTop | FAcquire | FStopped | FWaitData => None
  | FRawDone i | FReclaim i | FRead i | FDispatch i _ _ | FTake i | FFeed i _ | FRelease i
  | FTakeIdle i | FFeedIdle i _ | FReleaseIdle i | FReleaseSlot i => Some i
  end.

(** Which places need a previous slot, and which exclude one. *)
Definition prev_ok (pc : feed_pc) (prev : option nat) : Prop :=
  match pc with
  | FRawDone _ | FReclaim _ | FTake _ | FFeed _ _ | FRelease _ | FTakeIdle _ | FFeedIdle _ _ | FReleaseIdle _ => prev <> None
  | FReleaseSlot _ | FWaitData => prev = None
  | _ => True
  end.

Definition feed_ok (f : feed) (next : nat) : Prop :=
  (next < 2)%nat /\ length (fd_raw_bytes f) = 2%nat /\ prev_ok (fd_pc f) (fd_prev f) /\
  match fd_prev f with Some p => (p < 2)%nat | None => True end /\
  match pc_slot (fd_pc f) with
  | Some i => (i < 2)%nat /\ next = other i /\ match fd_prev f with Some p => i = other p | None => True end
  | None => match fd_prev f with Some p => next = other p | None => True end
  end.

(** The busy slots, older first. *)
Definition order (f : feed) : list nat :=
  match fd_prev f with
  | Some p => p :: match newer_kind (fd_pc f) with KBusy _ _ => [other p] | _ => [] end
  | None => []
  end.

(** The slot whose block is the ring's outstanding span. *)
Definition span_slot (f : feed) : option nat :=
  match fd_prev f with
  | Some p =>
      match fd_pc f with
      | FTop | FAcquire | FStopped | FRawDone _ | FReclaim _ => Some p
      | FTake _ | FFeed _ _ | FRelease _ => Some (other p)
      | _ => None
      end
  | None => None
  end.

(** The blocks released to the ring and not yet fed. *)
Definition unfed (f : feed) (bk : nat -> block) : list Z :=
  match fd_prev f with
  | Some p =>
      match fd_pc f with
      | FRead _ | FDispatch _ _ _ | FTake _ | FFeed _ _ | FTakeIdle _ | FFeedIdle _ _ => bk_bytes (bk p)
      | _ => []
      end
  | None => []
  end.

(** ** Traces *)

Definition usb_events (tr : list sys_event) : list event :=
  flat_map (fun e => match e with EUsb e => [e] | _ => [] end) tr.
(** What the DSP was given, and with it what a capture made the task pass
    over. *)
Definition fed (tr : list sys_event) : list Z :=
  flat_map (fun e => match e with EFed samples => samples | _ => [] end) tr.
Definition emerged (tr : list sys_event) : list Z :=
  flat_map (fun e => match e with EFed samples | EShed samples => samples | _ => [] end) tr.
Definition no_shed (tr : list sys_event) : bool :=
  forallb (fun e => match e with EShed _ => false | _ => true end) tr.
Definition even_writes (tr : list sys_event) : bool :=
  forallb (fun e => match e with EUsb (EBegin d) => Z.even (Z.of_nat (length d)) | _ => true end) tr.
Definition no_loss (tr : list sys_event) : bool :=
  forallb (fun e => match e with ELost => false | _ => true end) tr.

Section invariant.
Context {Sem Que : Type} `{Hsem : BinarySemaphore Sem} `{Hque : MessageQueue Que dispatch_msg}.
Context (cap k : Z).
Hypotheses (Hk : 0 <= k <= 31) (Hcap : cap = 2 ^ k).

Implicit Types (s : @sys Sem Que) (bk : nat -> block) (f : feed) (i p : nat).

(** Whether the ingest task, at [pc], is past the last read of its block. *)
Definition past_give (pc : ingest_pc) : bool :=
  match pc with
  | ICopy m done tile => n_in_complex m <=? done + tile
  | IPublish _ | IReady _ => true
  | _ => false
  end.

Definition pc_msg (pc : ingest_pc) : list dispatch_msg :=
  match pc with
  | IIdle => []
  | IAgc m | ITile m _ | IGive m _ _ | ICopy m _ _ | IGiveNone m | IPublish m | IReady m => [m]
  end.

Definition raw_given (pc : ingest_pc) (i : nat) (b : block) : bool :=
  bk_done b || match pc_msg pc with m :: _ => Nat.eqb (dm_slot m) i && past_give pc | [] => false end.

Definition slot_ok (pc : ingest_pc) (i : nat) (x : @slot Sem) (kd : kind) (b : block) : Prop :=
  Z.of_nat (length (sl_resamp x)) = INGEST_SLOT_ELEMS /\
  match kd with
  | KFree => sem_given (sl_free x) = true /\ sem_given (sl_ready x) = false /\ sem_given (sl_raw_done x) = false
  | KHeld => sem_given (sl_free x) = false /\ sem_given (sl_ready x) = false /\ sem_given (sl_raw_done x) = false
  | KBusy raw ready =>
      sem_given (sl_free x) = false /\
      sem_given (sl_ready x) = bk_done b && negb ready /\ (ready = true -> bk_done b = true) /\
      sem_given (sl_raw_done x) = raw_given pc i b && negb raw /\ (raw = true -> raw_given pc i b = true) /\
      0 < bk_len b <= out_block_size /\
      (bk_done b = true -> sl_n_int16 x = bk_elems b /\
        take (Z.to_nat (bk_elems b)) (sl_resamp x) = bk_samples b)
  end.

(** The first [n] elements of the slot's buffer are those of the block. *)
Definition converted (x : @slot Sem) (b : block) (n : Z) : Prop :=
  take (Z.to_nat n) (sl_resamp x) = map convert_octet (take (Z.to_nat n) (bk_bytes b)).

Definition ingest_ok (g : ingest) (x : @slot Sem) (b : block) : Prop :=
  let total := bk_total b in
  let in_tile done tile :=
    0 <= done /\ done < total /\ tile = Z.min INGEST_TILE_COMPLEX (total - done) /\ converted x b (2 * done) /\
    ig_tile g = map convert_octet (slice (bk_bytes b) (Z.to_nat (2 * done)) (Z.to_nat (2 * tile))) in
  match ig_pc g with
  | IIdle | IAgc _ => True
  | ITile _ done => 0 <= done /\ (done < total \/ done = 0) /\ converted x b (2 * done)
  | IGive _ done tile => in_tile done tile /\ total <= done + tile
  | ICopy _ done tile => in_tile done tile
  | IGiveNone _ => total = 0
  | IPublish _ => converted x b (2 * total)
  | IReady _ => converted x b (2 * total) /\ sl_n_int16 x = 2 * total
  end.

Definition pending (bk : nat -> block) (i : nat) : list dispatch_msg :=
  if bk_done (bk i) then [] else [bk_msg i (bk i)].

(** The ring and the span outstanding. *)
Definition span_ok (u : config) (q : list Z) f bk : Prop :=
  match span_slot f with
  | Some i =>
      exists contig, cf_cons u = CSpan (bk_off (bk i)) contig /\ bk_len (bk i) <= contig /\
        bk_bytes (bk i) = take (length (bk_bytes (bk i))) q /\ nth i (fd_raw_bytes f) 0 = bk_len (bk i)
  | None =>
      match fd_pc f with
      | FDispatch _ off n => exists contig, cf_cons u = CSpan off contig /\ 0 < n <= contig /\ n <= out_block_size
      | _ => cf_cons u = CIdle
      end
  end.

Record inv0 s bk (q : list Z) (pd : option (list Z * bool)) : Prop := {
  i_usb : simulates cap (sy_usb s) (Fifo q pd);
  i_feed : feed_ok (sy_feed s) (sy_next s);
  i_len : length (sy_slots s) = 2%nat;
  i_span : span_ok (sy_usb s) q (sy_feed s) bk;
  i_slots : forall i, (i < 2)%nat -> slot_ok (ig_pc (sy_ingest s)) i (get_slot s i) (kinds (sy_feed s) i) (bk i);
  i_work : pc_msg (ig_pc (sy_ingest s)) ++ queue_items (sy_queue s) = flat_map (pending bk) (order (sy_feed s));
  i_depth : queue_depth (sy_queue s) = 4%nat;
  i_ingest : forall m, In m (pc_msg (ig_pc (sy_ingest s))) -> ingest_ok (sy_ingest s) (get_slot s (dm_slot m)) (bk (dm_slot m));
  i_pend_lost : forall i, bk_done (bk i) = false -> bk_lost (bk i) = false;
  i_taken : match fd_pc (sy_feed s), fd_prev (sy_feed s) with
            | FFeed _ n, Some p | FFeedIdle _ n, Some p => n = bk_elems (bk p)
            | _, _ => True
            end }.
End invariant.

(** ** Bookkeeping lemmas *)

Section proofs.
Context {Sem Que : Type} `{Hsem : BinarySemaphore Sem} `{Hque : MessageQueue Que dispatch_msg}.
Context (cap k : Z).
Hypotheses (Hk : 0 <= k <= 31) (Hcap : cap = 2 ^ k).

Implicit Types (s : @sys Sem Que) (x : @slot Sem) (bk : nat -> block) (f : feed) (i p : nat).

Lemma get_set s i j x : (i < length (sy_slots s))%nat -> get_slot (set_slot s i x) j = if decide (j = i) then x else get_slot s j.
Proof.
  intros Hi. unfold get_slot, set_slot; cbn. rewrite !nth_lookup. case_decide as E.
  - subst j. by rewrite list_lookup_insert_eq by lia.
  - by rewrite list_lookup_insert_ne by lia.
Qed.

Lemma other_spec i : (i < 2)%nat -> (other i < 2)%nat /\ other i <> i /\ other (other i) = i.
Proof. unfold other. lia. Qed.

Lemma two_slots i j : (i < 2)%nat -> (j < 2)%nat -> i <> j -> j = other i.
Proof. unfold other. lia. Qed.

(** The busy slots are those of the order. *)
Lemma in_order f next i : feed_ok f next -> In i (order f) -> (i < 2)%nat /\ exists raw ready, kinds f i = KBusy raw ready.
Proof.
  intros (Hn & _ & _ & Hp & _). unfold order, kinds. destruct (fd_prev f) as [p|]; [|done]. intros [<-|Hi].
  - split; [done|]. rewrite decide_True by done. by do 2 eexists.
  - destruct (newer_kind (fd_pc f)) as [| |raw ready] eqn:E; try done. destruct Hi as [<-|[]].
    pose proof (other_spec p Hp) as (H1 & H2 & _). split; [done|]. rewrite decide_False by done. by exists raw, ready.
Qed.

Lemma order_in f i raw ready : (i < 2)%nat -> (forall p, fd_prev f = Some p -> (p < 2)%nat) -> kinds f i = KBusy raw ready -> In i (order f).
Proof.
  intros Hi Hp. unfold kinds, order. destruct (fd_prev f) as [p|].
  - case_decide as E; [left; done|]. intros Ek. rewrite Ek. right. left. symmetry. apply two_slots; auto.
  - by destruct (fd_pc f); try done; case_decide.
Qed.

(** A slot whose raw signal is still to be taken holds the outstanding span. *)
Lemma unraw_span f next i ready : feed_ok f next -> (i < 2)%nat -> kinds f i = KBusy false ready -> span_slot f = Some i.
Proof.
  intros (_ & _ & Hpv & Hp & _) Hi. unfold kinds, span_slot. destruct (fd_prev f) as [p|].
  - case_decide as E; [subst i; by destruct (fd_pc f)|]. intros Ek. rewrite (two_slots p i) by (done || lia). by destruct (fd_pc f).
  - by destruct (fd_pc f); try done; case_decide.
Qed.

Lemma slice_slice {A} (l : list A) a n b m : (b + m <= n)%nat -> slice (slice l a n) b m = slice l (a + b) m.
Proof.
  intros Hb. unfold slice. rewrite skipn_firstn_comm, drop_drop, take_take. f_equal. lia.
Qed.

(** The octets read through a message are the block's. *)
Lemma ring_octets_eq s bk q pd i o n : inv0 cap s bk q pd -> span_slot (sy_feed s) = Some i ->
  0 <= o -> 0 <= n -> o + n <= bk_len (bk i) -> ring_octets (sy_usb s) (bk_msg i (bk i)) o n = slice (bk_bytes (bk i)) (Z.to_nat o) (Z.to_nat n).
Proof.
  intros I Hs Ho Hn Hon. pose proof (i_span _ _ _ _ _ I) as Sp. unfold span_ok in Sp. rewrite Hs in Sp.
  destruct Sp as (c & Ec & Hc & Eb & _). destruct (i_usb _ _ _ _ _ I) as (buf & S & _ & C). rewrite Ec in C. cbn in C.
  destruct C as (Eoff & Hc1 & Hc2). unfold ring_octets, bk_msg; cbn. rewrite (st_buf _ _ _ _ S).
  pose proof (phys_range cap k Hk Hcap (ub_tail (cf_ring (sy_usb s)))) as Hp. rewrite Eoff in *.
  assert (El : slice buf (Z.to_nat (ub_tail (cf_ring (sy_usb s)) mod cap)) (length (bk_bytes (bk i))) = bk_bytes (bk i)).
  { rewrite Eb at 2. unfold bk_len in *. apply (holds_slice cap k Hk Hcap buf _ q); [apply S|apply S|lia|lia]. }
  rewrite <- El at 1. unfold bk_len in *. rewrite slice_slice by lia. f_equal. lia.
Qed.

(** The message in hand is that of a busy slot's block, not yet ready. *)
Lemma current s bk q pd m : inv0 cap s bk q pd -> In m (pc_msg (ig_pc (sy_ingest s))) ->
  let i := dm_slot m in
  m = bk_msg i (bk i) /\ (i < 2)%nat /\ bk_done (bk i) = false /\ exists raw, kinds (sy_feed s) i = KBusy raw false.
Proof.
  intros I Hm. assert (Hin : In m (flat_map (pending bk) (order (sy_feed s)))) by (rewrite <- (i_work _ _ _ _ _ I); apply in_or_app; by left).
  apply in_flat_map in Hin as (i & Hi & Hm'). destruct (in_order _ _ _ (i_feed _ _ _ _ _ I) Hi) as (H2 & raw & ready & Ek).
  unfold pending in Hm'. destruct (bk_done (bk i)) eqn:Ed; [done|]. destruct Hm' as [<-|[]]. cbn. repeat split; [done|done|].
  pose proof (i_slots _ _ _ _ _ I i H2) as So. unfold slot_ok in So. rewrite Ek in So. destruct So as (_ & _ & _ & Hr & _).
  exists raw. destruct ready; [|done]. by rewrite Hr in Ed by done.
Qed.

Lemma slot_ok_pc (pc pc' : ingest_pc) i x kd b : raw_given pc' i b = raw_given pc i b -> slot_ok pc i x kd b -> slot_ok pc' i x kd b.
Proof. intros E. unfold slot_ok. destruct kd; rewrite ?E; done. Qed.

(** A step of the ingest task inside one block. *)
Lemma ingest_preserve s bk q pd m s' x' : inv0 cap s bk q pd -> pc_msg (ig_pc (sy_ingest s)) = [m] ->
  pc_msg (ig_pc (sy_ingest s')) = [m] ->
  sy_usb s' = sy_usb s -> sy_feed s' = sy_feed s -> sy_next s' = sy_next s -> sy_queue s' = sy_queue s -> length (sy_slots s') = 2%nat ->
  (forall j, get_slot s' j = if decide (j = dm_slot m) then x' else get_slot s j) ->
  slot_ok (ig_pc (sy_ingest s')) (dm_slot m) x' (kinds (sy_feed s) (dm_slot m)) (bk (dm_slot m)) ->
  ingest_ok (sy_ingest s') x' (bk (dm_slot m)) -> inv0 cap s' bk q pd.
Proof.
  intros I Em Em' Eu Ef En Eq El Eg Hslot Hing.
  constructor; rewrite ?Eu, ?Ef, ?En, ?Eq; try apply I; try done.
  - intros j Hj. rewrite Eg. case_decide as E; [by subst j|].
    apply (slot_ok_pc (ig_pc (sy_ingest s))); [|by apply I]. unfold raw_given. rewrite Em, Em'.
    by rewrite (proj2 (Nat.eqb_neq (dm_slot m) j)) by done.
  - rewrite Em', <- (i_work _ _ _ _ _ I). by rewrite Em.
  - rewrite Em'. intros m' [<-|[]]. rewrite Eg, decide_True by done. done.
Qed.

(** ** The ingest task keeps the invariant *)

Lemma total_range b : 0 < bk_len b <= out_block_size -> 0 <= bk_total b /\ 2 * bk_total b <= bk_len b /\ bk_total b <= 8192.
Proof.
  intros Hb. unfold bk_total. assert (out_block_size = 16384) by reflexivity.
  pose proof (Z.div_pos (bk_len b) 2 ltac:(lia) ltac:(lia)). pose proof (Z.mul_div_le (bk_len b) 2 ltac:(lia)).
  pose proof (Z.div_le_mono (bk_len b) 16384 2 ltac:(lia) ltac:(lia)) as H3. change (16384 / 2) with 8192 in H3. lia.
Qed.

Lemma n_in_complex_msg i b : n_in_complex (bk_msg i b) = bk_total b.
Proof. reflexivity. Qed.

Lemma converted_0 x b : converted x b 0.
Proof. unfold converted. by rewrite !take_0. Qed.

(** Copying the next tile extends the converted prefix. *)
Lemma converted_extend x b done tile : Z.of_nat (length (sl_resamp x)) = INGEST_SLOT_ELEMS -> 0 < bk_len b <= out_block_size ->
  0 <= done -> 0 <= tile -> done + tile <= bk_total b -> converted x b (2 * done) ->
  converted (with_resamp x (blit (sl_resamp x) (Z.to_nat (2 * done)) (map convert_octet (slice (bk_bytes b) (Z.to_nat (2 * done)) (Z.to_nat (2 * tile))))))
    b (2 * (done + tile)).
Proof.
  intros Hl Hb Hd Ht Hdt Hc. pose proof (total_range b Hb) as Hr. unfold converted in *; cbn. unfold bk_len in *.
  assert (INGEST_SLOT_ELEMS = 20480) by reflexivity.
  assert (Ls : length (slice (bk_bytes b) (Z.to_nat (2 * done)) (Z.to_nat (2 * tile))) = Z.to_nat (2 * tile)) by (apply length_slice; lia).
  replace (Z.to_nat (2 * (done + tile))) with (Z.to_nat (2 * done) + Z.to_nat (2 * tile))%nat by lia.
  set (a := Z.to_nat (2 * done)) in *. set (c := Z.to_nat (2 * tile)) in *.
  assert (Et : take (a + c) (bk_bytes b) = take a (bk_bytes b) ++ slice (bk_bytes b) a c).
  { unfold slice. rewrite take_drop_commute. rewrite <- (take_drop a (take (a + c) (bk_bytes b))) at 1. f_equal.
    rewrite take_take. f_equal. lia. }
  rewrite Et, map_app, <- Hc. unfold blit. rewrite app_assoc, take_app_le by (rewrite length_app, length_take, length_map, Ls; lia).
  rewrite take_ge by (rewrite length_app, length_take, length_map, Ls; lia). done.
Qed.

(** What is known of the block in hand. *)
Lemma in_hand s bk q pd m : inv0 cap s bk q pd -> pc_msg (ig_pc (sy_ingest s)) = [m] ->
  let i := dm_slot m in
  m = bk_msg i (bk i) /\ (i < 2)%nat /\ bk_done (bk i) = false /\ 0 < bk_len (bk i) <= out_block_size /\
  Z.of_nat (length (sl_resamp (get_slot s i))) = INGEST_SLOT_ELEMS /\
  ingest_ok (sy_ingest s) (get_slot s i) (bk i) /\
  exists raw, kinds (sy_feed s) i = KBusy raw false /\
    sem_given (sl_free (get_slot s i)) = false /\ sem_given (sl_ready (get_slot s i)) = false /\
    sem_given (sl_raw_done (get_slot s i)) = past_give (ig_pc (sy_ingest s)) && negb raw /\
    (raw = true -> past_give (ig_pc (sy_ingest s)) = true).
Proof.
  intros I Em. cbv zeta. destruct (current s bk q pd m I) as (E & Hi & Hd & raw & Ek); [rewrite Em; by left|].
  pose proof (i_slots _ _ _ _ _ I _ Hi) as So. unfold slot_ok in So. rewrite Ek in So. unfold raw_given in So. rewrite Em, Hd, Nat.eqb_refl in So.
  destruct So as (L & F & R & _ & W & Hw & B & _). repeat split; try done; try apply B.
  - apply (i_ingest _ _ _ _ _ I). rewrite Em. by left.
  - exists raw. cbn in *. done.
Qed.

(** A step of [ingest_preserve] from the facts of the block in hand. *)
Lemma in_hand_slot (pc : ingest_pc) m x (b : block) raw : pc_msg pc = [m] -> bk_done b = false -> 0 < bk_len b <= out_block_size ->
  Z.of_nat (length (sl_resamp x)) = INGEST_SLOT_ELEMS -> sem_given (sl_free x) = false -> sem_given (sl_ready x) = false ->
  sem_given (sl_raw_done x) = past_give pc && negb raw -> (raw = true -> past_give pc = true) ->
  slot_ok pc (dm_slot m) x (KBusy raw false) b.
Proof.
  intros Em Hd Hb L F R W Hw. unfold slot_ok, raw_given. rewrite Em, Hd, Nat.eqb_refl. cbn. repeat split; try done; apply Hb.
Qed.

Lemma set_slot_len s i x : length (sy_slots (set_slot s i x)) = length (sy_slots s).
Proof. cbn. apply length_insert. Qed.

Lemma give_inv s bk q pd m pc' : inv0 cap s bk q pd -> pc_msg (ig_pc (sy_ingest s)) = [m] -> pc_msg pc' = [m] ->
  past_give (ig_pc (sy_ingest s)) = false -> past_give pc' = true ->
  (forall x, sl_resamp x = sl_resamp (get_slot s (dm_slot m)) -> ingest_ok (sy_ingest s) x (bk (dm_slot m)) ->
    ingest_ok (Ingest pc' (ig_tile (sy_ingest s)) (ig_agc_peak_dev (sy_ingest s)) (ig_agc_dispatches (sy_ingest s))) x (bk (dm_slot m))) ->
  inv0 cap (ingest_at (set_slot s (dm_slot m) (give_raw_done (get_slot s (dm_slot m)))) pc') bk q pd.
Proof.
  intros I Em Em' P P' Hok. destruct (in_hand s bk q pd m I Em) as (_ & Hi & Hd & Hb & L & G & raw & Ek & F & R & W & Hw).
  rewrite P in Hw. assert (raw = false) as -> by (destruct raw; [by discriminate Hw|done]).
  eapply (ingest_preserve s bk q pd m _ (give_raw_done (get_slot s (dm_slot m)))); try done; cbn [ingest_at set_ingest sy_slots].
  - rewrite set_slot_len. apply I.
  - intros j. change (get_slot (ingest_at ?a ?b) j) with (get_slot a j). apply get_set. rewrite (i_len _ _ _ _ _ I). done.
  - rewrite Ek. apply in_hand_slot; try done. cbn. by rewrite sem_give_given, P'.
  - apply Hok; [done|]. revert G. unfold ingest_ok. by destruct (ig_pc (sy_ingest s)).
Qed.

Definition finish_at (bk : nat -> block) (i : nat) : nat -> block := fun j => if decide (j = i) then bk_finish (bk i) else bk j.

Lemma finish_bytes bk i j : bk_bytes (finish_at bk i j) = bk_bytes (bk j).
Proof. unfold finish_at. case_decide as E; [by subst|done]. Qed.

Lemma finish_lost bk i j : bk_lost (finish_at bk i j) = bk_lost (bk j).
Proof. unfold finish_at. case_decide as E; [by subst|done]. Qed.

Lemma finish_off bk i j : bk_off (finish_at bk i j) = bk_off (bk j).
Proof. unfold finish_at. case_decide as E; [by subst|done]. Qed.

Lemma finish_elems bk i j : bk_elems (finish_at bk i j) = bk_elems (bk j).
Proof. unfold bk_elems, bk_total, bk_len. by rewrite finish_bytes, finish_lost. Qed.

Lemma span_ok_ext (u : config) q f bk bk' : (forall j, bk_bytes (bk' j) = bk_bytes (bk j)) -> (forall j, bk_off (bk' j) = bk_off (bk j)) ->
  span_ok u q f bk -> span_ok u q f bk'.
Proof. intros Eb Eo. unfold span_ok. destruct (span_slot f) as [i|]; [|done]. unfold bk_len. by rewrite Eb, Eo. Qed.

Lemma unfed_ext f bk bk' : (forall j, bk_bytes (bk' j) = bk_bytes (bk j)) -> unfed f bk' = unfed f bk.
Proof. intros Eb. unfold unfed. destruct (fd_prev f) as [p|]; [|done]. by destruct (fd_pc f); rewrite ?Eb. Qed.

(** Marking the first pending block ready removes its message. *)
Lemma pending_finish f next bk i l : feed_ok f next -> bk_done (bk i) = false ->
  flat_map (pending bk) (order f) = bk_msg i (bk i) :: l -> flat_map (pending (finish_at bk i)) (order f) = l.
Proof.
  intros (_ & _ & _ & Hp & _) Hd. assert (Hpi : pending (finish_at bk i) i = []) by (unfold pending, finish_at; rewrite decide_True by done; done).
  assert (Hpj : forall j, j <> i -> pending (finish_at bk i) j = pending bk j) by (intros j Hj; unfold pending, finish_at; by rewrite decide_False by done).
  assert (Hi : pending bk i = [bk_msg i (bk i)]) by (unfold pending; by rewrite Hd).
  unfold order. destruct (fd_prev f) as [p|]; [|done].
  assert (Hcases : forall o, flat_map (pending bk) (p :: match o with KBusy _ _ => [other p] | _ => [] end) = bk_msg i (bk i) :: l ->
    flat_map (pending (finish_at bk i)) (p :: match o with KBusy _ _ => [other p] | _ => [] end) = l); [|apply Hcases].
  intros o. cbn. destruct (decide (p = i)) as [->|Hpi'].
  - rewrite Hi, Hpi. pose proof (other_spec i Hp) as (_ & Ho & _). cbn. intros E. injection E as E. rewrite <- E.
    destruct o; cbn; rewrite ?Hpj by done; done.
  - rewrite Hpj by done. assert (Hmi : forall y, In y (pending bk p) -> dm_slot y = p).
    { intros y Hx. unfold pending in Hx. destruct (bk_done (bk p)); [done|]. destruct Hx as [Hx|Hx]; [by rewrite <- Hx|destruct Hx]. }
    destruct (pending bk p) as [|y ys]; [|intros E; injection E as -> _; specialize (Hmi _ (or_introl eq_refl)); cbn in Hmi; congruence].
    cbn. destruct o as [| |raw ready]; cbn; try done. rewrite !app_nil_r. destruct (decide (other p = i)) as [->|Ho].
    + rewrite Hi, Hpi. by intros [= <-].
    + intros E. unfold pending in E. destruct (bk_done (bk (other p))); [done|]. injection E as E _. congruence.
Qed.

(** The last step on a block: it is ready. *)
Lemma ready_inv s bk q pd m : inv0 cap s bk q pd -> ig_pc (sy_ingest s) = IReady m ->
  inv0 cap (ingest_at (set_slot s (dm_slot m) (give_ready (get_slot s (dm_slot m)))) IIdle) (finish_at bk (dm_slot m)) q pd.
Proof.
  intros I Epc. assert (Em : pc_msg (ig_pc (sy_ingest s)) = [m]) by (by rewrite Epc).
  destruct (in_hand s bk q pd m I Em) as (Emsg & Hi & Hd & Hb & L & G & raw & Ek & F & R & W & Hw). rewrite Epc in W. cbn in W.
  unfold ingest_ok in G. rewrite Epc in G. destruct G as [Gc Gn].
  set (i := dm_slot m) in *. set (bk' := finish_at bk i).
  constructor; cbn [ingest_at set_ingest set_slot sy_usb sy_feed sy_next sy_slots sy_queue sy_ingest ig_pc pc_msg]; try apply I.
  - rewrite length_insert. apply I.
  - apply (span_ok_ext _ _ _ bk); [apply finish_bytes|apply finish_off|apply I].
  - intros j Hj. change (get_slot _ j) with (get_slot (set_slot s i (give_ready (get_slot s i))) j).
    rewrite get_set by (by rewrite (i_len _ _ _ _ _ I)). unfold bk', finish_at. case_decide as E.
    + subst j. rewrite Ek. unfold slot_ok, raw_given; cbn. rewrite sem_give_given.
      split; [done|]. split; [done|]. split; [done|]. split; [done|]. split; [by rewrite W|]. split; [done|]. split; [done|].
      intros _. split.
      * rewrite Gn. unfold bk_elems; cbn. by rewrite (i_pend_lost _ _ _ _ _ I i Hd).
      * unfold bk_samples, bk_elems; cbn. rewrite (i_pend_lost _ _ _ _ _ I i Hd). exact Gc.
    + apply (slot_ok_pc (ig_pc (sy_ingest s))); [|by apply I]. unfold raw_given. rewrite Em.
      rewrite (proj2 (Nat.eqb_neq (dm_slot m) j)) by done. done.
  - symmetry. apply (pending_finish _ (sy_next s)); [apply I|done|]. rewrite <- (i_work _ _ _ _ _ I), Em, Emsg. done.
  - done.
  - intros j. unfold bk', finish_at. case_decide as E; [done|]. apply I.
  - pose proof (i_taken _ _ _ _ _ I) as T. unfold bk'. destruct (fd_pc (sy_feed s)), (fd_prev (sy_feed s)); try done; by rewrite finish_elems.
Qed.

Lemma receive_inv s bk q pd m queue' : inv0 cap s bk q pd -> ig_pc (sy_ingest s) = IIdle ->
  queue_receive (sy_queue s) = Some (m, queue') -> inv0 cap (ingest_at (set_queue s queue') (IAgc m)) bk q pd.
Proof.
  intros I Epc Er. pose proof (i_work _ _ _ _ _ I) as Hw. rewrite Epc in Hw. cbn in Hw.
  destruct (queue_items (sy_queue s)) as [|m0 l] eqn:Eq; [by rewrite queue_receive_empty in Er by done|].
  destruct (queue_receive_first _ _ _ Eq) as (q2 & Er2 & Eq2 & Ed2). rewrite Er in Er2. injection Er2 as <- <-.
  constructor; cbn [ingest_at set_ingest set_queue sy_usb sy_feed sy_next sy_slots sy_queue sy_ingest ig_pc pc_msg]; try apply I.
  - intros j Hj. change (get_slot _ j) with (get_slot s j). apply (slot_ok_pc (ig_pc (sy_ingest s))); [|by apply I].
    rewrite Epc. unfold raw_given; cbn. by rewrite andb_false_r.
  - by rewrite Eq2.
  - rewrite Ed2. apply I.
  - intros m' _. done.
Qed.

Lemma tile_inv s bk q pd m done : inv0 cap s bk q pd -> ig_pc (sy_ingest s) = ITile m done ->
  inv0 cap (convert_tile s m done) bk q pd.
Proof.
  intros I Epc. assert (Em : pc_msg (ig_pc (sy_ingest s)) = [m]) by (by rewrite Epc).
  destruct (in_hand s bk q pd m I Em) as (Emsg & Hi & Hd & Hb & L & G & raw & Ek & F & R & W & Hw). rewrite Epc in W, Hw. cbn in W, Hw.
  assert (raw = false) as -> by (destruct raw; [by discriminate Hw|done]).
  unfold ingest_ok in G. rewrite Epc in G. destruct G as (G1 & G2 & G3).
  set (i := dm_slot m) in *. pose proof (total_range _ Hb) as Ht.
  assert (Hspan : span_slot (sy_feed s) = Some i) by (apply (unraw_span _ (sy_next s) i false); [apply I|done|done]).
  assert (En : n_in_complex m = bk_total (bk i)) by (by rewrite Emsg).
  assert (Hself : forall j, get_slot s j = if decide (j = i) then get_slot s i else get_slot s j) by (intros j; case_decide as Ej; [by rewrite Ej|done]).
  unfold convert_tile. rewrite En. destruct (Z.ltb_spec done (bk_total (bk i))) as [Hlt|Hge].
  - set (tile := if INGEST_TILE_COMPLEX <? _ then _ else _).
    assert (Et : tile = Z.min INGEST_TILE_COMPLEX (bk_total (bk i) - done)) by (unfold tile; destruct (Z.ltb_spec INGEST_TILE_COMPLEX (bk_total (bk i) - done)); lia).
    assert (INGEST_TILE_COMPLEX = 1024) by reflexivity.
    rewrite Emsg at 3. rewrite (ring_octets_eq s bk q pd i) by (done || lia).
    set (pc' := if _ <=? _ then IGive m done tile else ICopy m done tile).
    assert (Em' : pc_msg pc' = [m]) by (unfold pc'; by destruct (_ <=? _)).
    assert (P' : past_give pc' = false).
    { unfold pc'. destruct (Z.leb_spec (bk_total (bk i)) (done + tile)); [done|]. cbn. rewrite En. by apply Z.leb_gt. }
    apply (ingest_preserve s bk q pd m _ (get_slot s i)); try done; [apply I| |].
    + fold i. rewrite Ek. apply (in_hand_slot _ m); try done; cbn [ig_pc sy_ingest set_ingest]; by rewrite P'.
    + fold i. unfold ingest_ok; cbn [ig_pc ig_tile sy_ingest set_ingest]. unfold pc'.
      destruct (Z.leb_spec (bk_total (bk i)) (done + tile)); repeat split; done || lia.
  - apply (ingest_preserve s bk q pd m _ (get_slot s i)); try done; [apply I| |].
    + fold i. rewrite Ek. by apply (in_hand_slot _ m).
    + fold i. unfold ingest_ok; cbn. lia.
Qed.

Lemma copy_inv s bk q pd m done tile : inv0 cap s bk q pd -> ig_pc (sy_ingest s) = ICopy m done tile ->
  let i := dm_slot m in
  let x := with_resamp (get_slot s i) (blit (sl_resamp (get_slot s i)) (Z.to_nat (2 * done)) (ig_tile (sy_ingest s))) in
  inv0 cap (ingest_at (set_slot s i x) (if done + tile <? n_in_complex m then ITile m (done + tile) else IPublish m)) bk q pd.
Proof.
  intros I Epc i x. assert (Em : pc_msg (ig_pc (sy_ingest s)) = [m]) by (by rewrite Epc).
  destruct (in_hand s bk q pd m I Em) as (Emsg & Hi & Hd & Hb & L & G & raw & Ek & F & R & W & Hw). rewrite Epc in W, Hw. cbn in W, Hw.
  unfold ingest_ok in G. rewrite Epc in G. destruct G as (G1 & G2 & G3 & G4 & G5). fold i in Hi, Hd, Hb, L, G1, G2, G3, G4, G5, Ek, F, R, W, Hw.
  pose proof (total_range _ Hb) as Ht.
  assert (En : n_in_complex m = bk_total (bk i)) by (by rewrite Emsg). rewrite En in *.
  assert (INGEST_TILE_COMPLEX = 1024) by reflexivity.
  assert (Hx : converted x (bk i) (2 * (done + tile))) by (unfold x; rewrite G5; apply converted_extend; done || lia).
  assert (Lx : Z.of_nat (length (sl_resamp x)) = INGEST_SLOT_ELEMS).
  { unfold x; cbn. rewrite length_blit; [done|]. rewrite G5, length_map. unfold slice. rewrite length_take, length_drop.
    assert (INGEST_SLOT_ELEMS = 20480) by reflexivity. lia. }
  set (pc' := if _ <? _ then ITile m (done + tile) else IPublish m).
  assert (Em' : pc_msg pc' = [m]) by (unfold pc'; by destruct (_ <? _)).
  assert (P' : past_give pc' = (bk_total (bk i) <=? done + tile)).
  { unfold pc'. destruct (Z.ltb_spec (done + tile) (bk_total (bk i))); cbn; symmetry; [by apply Z.leb_gt|by apply Z.leb_le]. }
  apply (ingest_preserve s bk q pd m _ x); try done.
  - cbn [ingest_at set_ingest sy_slots]. rewrite set_slot_len. apply I.
  - intros j. change (get_slot (ingest_at ?a ?b) j) with (get_slot a j). apply get_set. by rewrite (i_len _ _ _ _ _ I).
  - change (dm_slot m) with i. rewrite Ek. apply (in_hand_slot _ m); try done; cbn [ig_pc sy_ingest ingest_at set_ingest]; rewrite ?P'; done.
  - change (dm_slot m) with i. unfold ingest_ok; cbn [ig_pc ig_tile sy_ingest ingest_at set_ingest set_slot]. unfold pc'.
    destruct (Z.ltb_spec (done + tile) (bk_total (bk i))).
    + split; [lia|]. split; [by left|done].
    + by replace (bk_total (bk i)) with (done + tile) by lia.
Qed.

Lemma ingest_step_inv s s' bk q pd : inv0 cap s bk q pd -> ingest_step s = Some s' ->
  exists bk', inv0 cap s' bk' q pd /\ (forall j, bk_bytes (bk' j) = bk_bytes (bk j)) /\ (forall j, bk_lost (bk' j) = bk_lost (bk j)) /\
    sy_usb s' = sy_usb s /\ sy_feed s' = sy_feed s.
Proof.
  intros I E. unfold ingest_step in E. destruct (ig_pc (sy_ingest s)) as [|m|m d|m d t|m d t|m|m|m] eqn:Epc.
  - destruct (queue_receive (sy_queue s)) as [[m q2]|] eqn:Er; [|done]. injection E as <-. exists bk.
    split; [by apply receive_inv|done].
  - injection E as <-. exists bk. split; [|done]. assert (Em : pc_msg (ig_pc (sy_ingest s)) = [m]) by (by rewrite Epc).
    destruct (in_hand s bk q pd m I Em) as (Emsg & Hi & Hd & Hb & L & G & raw & Ek & F & R & W & Hw). rewrite Epc in W, Hw.
    apply (ingest_preserve s bk q pd m _ (get_slot s (dm_slot m))); try done; [apply I| | |].
    + intros j. case_decide as Ej; [by rewrite Ej|done].
    + rewrite Ek. by apply in_hand_slot.
    + unfold ingest_ok; cbn. split; [done|split; [by right|apply converted_0]].
  - injection E as <-. exists bk. split; [by apply tile_inv|]. unfold convert_tile. by destruct (_ <? _).
  - injection E as <-. exists bk. split; [|done]. assert (Em : pc_msg (ig_pc (sy_ingest s)) = [m]) by (by rewrite Epc).
    destruct (in_hand s bk q pd m I Em) as (Emsg & _ & _ & _ & _ & G & _). unfold ingest_ok in G. rewrite Epc in G.
    apply give_inv; try done; rewrite ?Epc; try done.
    + cbn. rewrite Emsg. apply Z.leb_le, G.
    + intros x Ex Gx. unfold ingest_ok in Gx |- *. rewrite Epc in Gx. apply Gx.
  - injection E as <-. exists bk. split; [by apply copy_inv|done].
  - injection E as <-. exists bk. split; [|done].
    apply give_inv; try done; rewrite ?Epc; try done.
    intros x Ex Gx. unfold ingest_ok in Gx |- *. rewrite Epc in Gx. cbn [ig_pc]. rewrite Gx. apply converted_0.
  - injection E as <-. exists bk. split; [|done]. assert (Em : pc_msg (ig_pc (sy_ingest s)) = [m]) by (by rewrite Epc).
    destruct (in_hand s bk q pd m I Em) as (Emsg & Hi & Hd & Hb & L & G & raw & Ek & F & R & W & Hw). rewrite Epc in W, Hw.
    apply (ingest_preserve s bk q pd m _ (with_n (get_slot s (dm_slot m)) (2 * n_in_complex m))); try done.
    + cbn [ingest_at set_ingest sy_slots]. rewrite set_slot_len. apply I.
    + intros j. change (get_slot (ingest_at ?a ?b) j) with (get_slot a j). apply get_set. by rewrite (i_len _ _ _ _ _ I).
    + rewrite Ek. by apply in_hand_slot.
    + unfold ingest_ok in G |- *. rewrite Epc in G. cbn [ig_pc ig_tile sy_ingest ingest_at set_ingest set_slot]. split; [exact G|]. cbn. by rewrite Emsg.
  - injection E as <-. exists (finish_at bk (dm_slot m)). split; [by apply ready_inv|].
    split; [apply finish_bytes|split; [apply finish_lost|done]].
Qed.

(** ** The producer keeps the invariant *)

Lemma take_prefix (b q d : list Z) : b = take (length b) q -> b = take (length b) (q ++ d).
Proof.
  intros E. assert (Hl : (length b <= length q)%nat) by (rewrite E, length_take; lia).
  by rewrite take_app_le.
Qed.

Lemma span_ok_app (u u' : config) q d f bk : cf_cons u' = cf_cons u -> span_ok u q f bk -> span_ok u' (q ++ d) f bk.
Proof.
  intros Ec. unfold span_ok. rewrite Ec. destruct (span_slot f) as [i|]; [|done].
  intros (c & H1 & H2 & H3 & H4). exists c. repeat split; try done. by apply take_prefix.
Qed.

Lemma producer_inv s u e bk q pd : inv0 cap s bk q pd -> ring_step (sy_usb s) e u -> cf_cons u = cf_cons (sy_usb s) ->
  exists d pd', inv0 cap (set_usb s u) bk (q ++ d) pd' /\
    match e with Some e => written [e] = d /\ delivered [e] = [] | None => d = [] end.
Proof.
  intros I St Ec.
  assert (Hgo : forall d pd', simulates cap u (Fifo (q ++ d) pd') -> inv0 cap (set_usb s u) bk (q ++ d) pd').
  { intros d pd' Hs. constructor; cbn; try apply I; [done|]. apply (span_ok_app (sy_usb s)); [done|apply I]. }
  pose proof (step_simulates cap k Hk Hcap _ _ _ _ (i_usb _ _ _ _ _ I) St) as Hs. destruct e as [e|].
  - destruct Hs as ([q2 pd2] & Hf & Hs). inversion Hf; subst; cbn.
    + eexists [], _. split; [|done]. apply Hgo. rewrite app_nil_r. exact Hs.
    + exists data, None. rewrite app_nil_r. split; [by apply Hgo|done].
    + exists [], None. split; [|done]. apply Hgo. by rewrite app_nil_r.
    + exfalso. inversion St as [| | | | | |st b p off n m Hb Hm E1 E2 E3]; subst. rewrite <- E1 in Ec. done.
  - exists [], pd. split; [|done]. apply Hgo. by rewrite app_nil_r.
Qed.

(** ** The feed task keeps the invariant *)

Lemma ingest_ok_ext g x x' b : sl_resamp x' = sl_resamp x -> sl_n_int16 x' = sl_n_int16 x -> ingest_ok g x b -> ingest_ok g x' b.
Proof. intros E1 E2. unfold ingest_ok, converted. by rewrite E1, E2. Qed.

Lemma feed_inv s s' bk q pd q' pd' : inv0 cap s bk q pd -> simulates cap (sy_usb s') (Fifo q' pd') ->
  sy_ingest s' = sy_ingest s -> sy_queue s' = sy_queue s -> length (sy_slots s') = 2%nat ->
  feed_ok (sy_feed s') (sy_next s') -> span_ok (sy_usb s') q' (sy_feed s') bk ->
  (forall j, sl_resamp (get_slot s' j) = sl_resamp (get_slot s j) /\ sl_n_int16 (get_slot s' j) = sl_n_int16 (get_slot s j)) ->
  (forall j, (j < 2)%nat -> slot_ok (ig_pc (sy_ingest s)) j (get_slot s' j) (kinds (sy_feed s') j) (bk j)) ->
  flat_map (pending bk) (order (sy_feed s')) = flat_map (pending bk) (order (sy_feed s)) ->
  match fd_pc (sy_feed s'), fd_prev (sy_feed s') with
  | FFeed _ n, Some p | FFeedIdle _ n, Some p => n = bk_elems (bk p)
  | _, _ => True
  end -> inv0 cap s' bk q' pd'.
Proof.
  intros I Hs Ei Eq El Hf Hsp Hr Hsl Ho Ht. constructor; rewrite ?Ei, ?Eq; try apply I; try done.
  - rewrite Ho. apply I.
  - intros m Hm. apply (ingest_ok_ext _ (get_slot s (dm_slot m))); [apply Hr|apply Hr|by apply I].
Qed.

(** The same when only the feed task's own state changes. *)
Lemma feed_only_inv s f' bk q pd : inv0 cap s bk q pd -> feed_ok f' (sy_next s) -> span_ok (sy_usb s) q f' bk ->
  (forall j, (j < 2)%nat -> kinds f' j = kinds (sy_feed s) j) -> order f' = order (sy_feed s) ->
  match fd_pc f', fd_prev f' with
  | FFeed _ n, Some p | FFeedIdle _ n, Some p => n = bk_elems (bk p)
  | _, _ => True
  end -> inv0 cap (set_feed s f') bk q pd.
Proof.
  intros I Hf Hsp Hk' Ho Ht. apply (feed_inv s _ bk q pd); try done; cbn; try apply I.
  - intros j Hj. rewrite Hk' by done. by apply I.
  - by rewrite Ho.
Qed.

(** The same when one slot's semaphores change too. *)
Lemma feed_slot_inv s s' i x' bk q pd : inv0 cap s bk q pd -> (i < 2)%nat -> sy_usb s' = sy_usb s ->
  sy_ingest s' = sy_ingest s -> sy_queue s' = sy_queue s -> sy_slots s' = <[i := x']> (sy_slots s) ->
  sl_resamp x' = sl_resamp (get_slot s i) -> sl_n_int16 x' = sl_n_int16 (get_slot s i) ->
  feed_ok (sy_feed s') (sy_next s') -> span_ok (sy_usb s) q (sy_feed s') bk ->
  slot_ok (ig_pc (sy_ingest s)) i x' (kinds (sy_feed s') i) (bk i) ->
  kinds (sy_feed s') (other i) = kinds (sy_feed s) (other i) ->
  flat_map (pending bk) (order (sy_feed s')) = flat_map (pending bk) (order (sy_feed s)) ->
  match fd_pc (sy_feed s'), fd_prev (sy_feed s') with
  | FFeed _ n, Some p | FFeedIdle _ n, Some p => n = bk_elems (bk p)
  | _, _ => True
  end -> inv0 cap s' bk q pd.
Proof.
  intros I Hi Eu Ei Eq Es Er En Hf Hsp Hsl Hkd Ho Ht.
  assert (Hg : forall j, get_slot s' j = if decide (j = i) then x' else get_slot s j).
  { intros j. rewrite <- (get_set s i j x') by (by rewrite (i_len _ _ _ _ _ I)). unfold get_slot, set_slot; cbn. by rewrite Es. }
  apply (feed_inv s _ bk q pd); try done.
  - rewrite Eu. apply I.
  - rewrite Es, length_insert. apply I.
  - by rewrite Eu.
  - intros j. rewrite Hg. case_decide as Ej; [by rewrite Ej|done].
  - intros j Hj. rewrite Hg. case_decide as Ej; [by rewrite Ej|].
    assert (j = other i) as -> by (apply two_slots; [done|done|congruence]). rewrite Hkd. by apply I.
Qed.

(** *** Single places *)

(** Taking a semaphore succeeds exactly when it is given. *)
Lemma sem_take_inv v v' : sem_take v = Some v' -> sem_given v = true /\ sem_given v' = false.
Proof.
  intros E. destruct (sem_given v) eqn:G; [|by rewrite sem_take_blocks in E].
  destruct (sem_take_takes v G) as (v2 & E2 & G2). rewrite E in E2. by injection E2 as <-.
Qed.

Lemma slot_free s bk q pd i : inv0 cap s bk q pd -> (i < 2)%nat -> kinds (sy_feed s) i = KFree ->
  sem_given (sl_free (get_slot s i)) = true.
Proof. intros I Hi Ek. pose proof (i_slots _ _ _ _ _ I i Hi) as So. rewrite Ek in So. apply So. Qed.

(** The kinds where the next slot is to be acquired. *)
Lemma next_free f next : feed_ok f next -> fd_pc f = FAcquire -> kinds f next = KFree.
Proof.
  intros (Hn & _ & _ & Hp & Hs) Epc. unfold kinds. rewrite Epc in *. cbn in Hs. destruct (fd_prev f) as [p|]; [|done].
  pose proof (other_spec p Hp) as (_ & Ho & _). rewrite decide_False by congruence. done.
Qed.

Lemma next_mod i : (i < 2)%nat -> ((i + 1) mod INGEST_NUM_SLOTS)%nat = other i.
Proof. intros Hi. destruct i as [|[|i]]; [done|done|lia]. Qed.

Lemma acquire_inv s s' i bk q pd : inv0 cap s bk q pd -> fd_pc (sy_feed s) = FAcquire -> ingest_core1_acquire_slot s = Some (s', i) ->
  inv0 cap (feed_at s' (match fd_prev (sy_feed s) with Some _ => FRawDone i | None => FRead i end)) bk q pd.
Proof.
  intros I Epc E. unfold ingest_core1_acquire_slot in E. destruct (sem_take _) as [v|] eqn:Ev; [|done]. injection E as <- <-.
  destruct (sem_take_inv _ _ Ev) as [_ Gv]. pose proof (i_feed _ _ _ _ _ I) as Hf.
  pose proof (next_free _ _ Hf Epc) as Ek. destruct Hf as (Hn & Hl & _ & Hp & Hs). rewrite Epc in Hs. cbn in Hs.
  pose proof (i_slots _ _ _ _ _ I _ Hn) as So. rewrite Ek in So. destruct So as (L & _ & R & W).
  pose proof (i_span _ _ _ _ _ I) as Sp. unfold span_ok, span_slot in Sp. rewrite Epc in Sp.
  apply (feed_slot_inv s _ (sy_next s) (with_free (get_slot s (sy_next s)) v) bk); try done;
    destruct (sy_feed s) as [pc prev raw]; cbn [fd_pc fd_prev fd_raw_bytes] in *; subst pc;
    pose proof (other_spec (sy_next s) Hn) as (Ho1 & Ho2 & Ho3); destruct prev as [p|]; try done; cbn;
    try change (1 - snd (Nat.divmod (sy_next s + 1) 1 0 1))%nat with ((sy_next s + 1) mod INGEST_NUM_SLOTS)%nat.
  - rewrite next_mod by done. done.
  - rewrite next_mod by done. done.
  - rewrite Hs in *. pose proof (other_spec p Hp) as (Hp1 & Hp2 & Hp3). unfold kinds; cbn. rewrite decide_False by congruence. done.
  - unfold kinds; cbn. by rewrite decide_True by done.
  - rewrite Hs in *. pose proof (other_spec p Hp) as (Hp1 & Hp2 & Hp3). unfold kinds; cbn. by rewrite Hp3, !decide_True by done.
  - unfold kinds; cbn. by rewrite decide_False by done.
Qed.

(** The slot of the previous block. *)
Lemma prev_slot s bk q pd p : inv0 cap s bk q pd -> fd_prev (sy_feed s) = Some p ->
  (p < 2)%nat /\ slot_ok (ig_pc (sy_ingest s)) p (get_slot s p) (KBusy (raw_taken (fd_pc (sy_feed s))) (ready_taken (fd_pc (sy_feed s)))) (bk p).
Proof.
  intros I Ep. pose proof (i_feed _ _ _ _ _ I) as (_ & _ & _ & Hp & _). rewrite Ep in Hp. split; [done|].
  pose proof (i_slots _ _ _ _ _ I p Hp) as So. unfold kinds in So. rewrite Ep, decide_True in So by done. done.
Qed.

(** What a step of the feed task needs of its own record. *)
Lemma feed_shape s bk q pd i : inv0 cap s bk q pd -> pc_slot (fd_pc (sy_feed s)) = Some i ->
  (i < 2)%nat /\ sy_next s = other i /\ match fd_prev (sy_feed s) with Some p => (p < 2)%nat /\ i = other p | None => True end.
Proof.
  intros I Ei. pose proof (i_feed _ _ _ _ _ I) as (_ & _ & _ & Hp & Hs). rewrite Ei in Hs. destruct Hs as (H1 & H2 & H3).
  destruct (fd_prev (sy_feed s)); done.
Qed.

Lemma feed_ok_move f pc next i : feed_ok f next -> pc_slot (fd_pc f) = Some i -> pc_slot pc = Some i ->
  prev_ok pc (fd_prev f) -> feed_ok (Feed pc (fd_prev f) (fd_raw_bytes f)) next.
Proof. intros (H1 & H2 & _ & H4 & H5) E E' Hp. rewrite E in H5. unfold feed_ok; cbn. by rewrite E'. Qed.

Lemma raw_inv s s' i p bk q pd : inv0 cap s bk q pd -> fd_pc (sy_feed s) = FRawDone i -> fd_prev (sy_feed s) = Some p ->
  ingest_core1_wait_raw_done s p = Some s' -> inv0 cap (feed_at s' (FReclaim i)) bk q pd.
Proof.
  intros I Epc Ep E. unfold ingest_core1_wait_raw_done in E. destruct (sem_take _) as [v|] eqn:Ev; [|done]. injection E as <-.
  destruct (sem_take_inv _ _ Ev) as [Gs Gv]. destruct (prev_slot s bk q pd p I Ep) as [Hp So].
  destruct (feed_shape s bk q pd i I) as (Hi & Hn & _); [by rewrite Epc|].
  pose proof (i_feed _ _ _ _ _ I) as Hf. pose proof (i_span _ _ _ _ _ I) as Sp. unfold span_ok, span_slot in Sp. rewrite Epc, Ep in Sp.
  rewrite Epc in So. destruct So as (L & F & R & R2 & W & _ & B). rewrite Gs in W.
  apply (feed_slot_inv s _ p (with_raw_done (get_slot s p) v) bk); try done.
  - apply (feed_ok_move _ _ _ i Hf); [by rewrite Epc|done|cbn; by rewrite Ep].
  - unfold span_ok, span_slot; cbn. rewrite Ep. exact Sp.
  - unfold kinds; cbn. rewrite Ep, decide_True by done. cbn. split; [done|]. split; [done|]. split; [done|].
    split; [done|]. split; [cbn; by rewrite Gv, andb_false_r|]. split; [|done]. intros _. cbn in W. by rewrite andb_true_r in W.
  - unfold kinds; cbn. rewrite Ep, Epc. pose proof (other_spec p Hp) as (_ & Ho & _). by rewrite !decide_False by done.
  - unfold order; cbn. by rewrite Ep, Epc.
Qed.

(** Taking the ready signal, in the streaming and in the idle branch. *)
Lemma take_inv s s' i p n pc' fault bk q pd : inv0 cap s bk q pd -> fd_prev (sy_feed s) = Some p ->
  (fd_pc (sy_feed s) = FTake i /\ pc' = FFeed i n \/ fd_pc (sy_feed s) = FTakeIdle i /\ pc' = FFeedIdle i n) ->
  ingest_core1_take_converted fault s p = Some (s', n) -> inv0 cap (feed_at s' pc') bk q pd.
Proof.
  intros I Ep Hpc E. unfold ingest_core1_take_converted in E. destruct fault; [done|]. destruct (sem_take _) as [v|] eqn:Ev; [|done]. injection E as <- <-.
  destruct (sem_take_inv _ _ Ev) as [Gs Gv]. destruct (prev_slot s bk q pd p I Ep) as [Hp So].
  assert (Hps : pc_slot (fd_pc (sy_feed s)) = Some i) by (destruct Hpc as [[E1 _]|[E1 _]]; by rewrite E1).
  destruct (feed_shape s bk q pd i I Hps) as (Hi & Hn & _).
  pose proof (i_feed _ _ _ _ _ I) as Hf. pose proof (i_span _ _ _ _ _ I) as Sp. unfold span_ok, span_slot in Sp. rewrite Ep in Sp.
  destruct So as (L & F & R & R2 & W & W2 & B & D). rewrite Gs in R.
  assert (Hd : bk_done (bk p) = true) by (by destruct (bk_done (bk p))). pose proof (other_spec p Hp) as (_ & Ho & _).
  apply (feed_slot_inv s _ p (with_ready (get_slot s p) v) bk); try done.
  - apply (feed_ok_move _ _ _ i Hf); destruct Hpc as [[Epc ->]|[Epc ->]]; rewrite ?Epc; try done; cbn; by rewrite Ep.
  - unfold span_ok, span_slot; cbn. rewrite Ep. by destruct Hpc as [[Epc ->]|[Epc ->]]; rewrite Epc in Sp.
  - unfold kinds; cbn. rewrite Ep, decide_True by done.
    destruct Hpc as [[Epc ->]|[Epc ->]]; rewrite Epc in *; cbn; (split; [done|]); (split; [done|]);
      (split; [cbn; by rewrite Gv, andb_false_r|]); (split; [done|]); done.
  - unfold kinds; cbn. rewrite Ep, !decide_False by done. by destruct Hpc as [[Epc ->]|[Epc ->]]; rewrite ?Epc.
  - unfold order; cbn. rewrite Ep. by destruct Hpc as [[Epc ->]|[Epc ->]]; rewrite ?Epc.
  - cbn. rewrite Ep. destruct Hpc as [[_ ->]|[_ ->]]; by apply D.
Qed.

(** Handing the samples on, in both branches. *)
Lemma fed_inv s i p n pc' bk q pd : inv0 cap s bk q pd -> fd_prev (sy_feed s) = Some p ->
  (fd_pc (sy_feed s) = FFeed i n /\ pc' = FRelease i \/ fd_pc (sy_feed s) = FFeedIdle i n /\ pc' = FReleaseIdle i) ->
  inv0 cap (feed_at s pc') bk q pd /\ fed_samples s p n = bk_samples (bk p).
Proof.
  intros I Ep Hpc.
  assert (Hps : pc_slot (fd_pc (sy_feed s)) = Some i) by (destruct Hpc as [[E1 _]|[E1 _]]; by rewrite E1).
  destruct (feed_shape s bk q pd i I Hps) as (Hi & Hn & _).
  pose proof (i_span _ _ _ _ _ I) as Sp. unfold span_ok, span_slot in Sp. rewrite Ep in Sp. split.
  - apply feed_only_inv; [done| | | | |].
    + apply (feed_ok_move _ _ _ i (i_feed _ _ _ _ _ I)); destruct Hpc as [[Epc ->]|[Epc ->]]; rewrite ?Epc; try done; cbn; by rewrite Ep.
    + unfold span_ok, span_slot; cbn. rewrite Ep. by destruct Hpc as [[Epc ->]|[Epc ->]]; rewrite Epc in Sp.
    + intros j Hj. unfold kinds; cbn. rewrite Ep. by destruct Hpc as [[Epc ->]|[Epc ->]]; rewrite ?Epc.
    + unfold order; cbn. rewrite Ep. by destruct Hpc as [[Epc ->]|[Epc ->]]; rewrite ?Epc.
    + cbn. by destruct Hpc as [[_ ->]|[_ ->]].
  - pose proof (i_taken _ _ _ _ _ I) as T. rewrite Ep in T. destruct (prev_slot s bk q pd p I Ep) as [_ So].
    assert (En : n = bk_elems (bk p)) by (by destruct Hpc as [[Epc _]|[Epc _]]; rewrite Epc in T).
    assert (Hd : bk_done (bk p) = true).
    { destruct So as (_ & _ & _ & R2 & _). by destruct Hpc as [[Epc _]|[Epc _]]; rewrite Epc in R2; apply R2. }
    destruct So as (_ & _ & _ & _ & _ & _ & _ & D). destruct (D Hd) as [_ D2]. unfold fed_samples. rewrite En, <- D2. f_equal. f_equal.
    unfold bk_elems. destruct (bk_lost (bk p)); [done|]. rewrite (Z.mul_comm 2 (bk_total _)) at 1. rewrite Z.div_mul by lia. done.
Qed.

Lemma release_inv s i p bk q pd : inv0 cap s bk q pd -> fd_prev (sy_feed s) = Some p -> fd_pc (sy_feed s) = FRelease i ->
  inv0 cap (feed_at (with_prev (ingest_core1_release s p) (Some i)) FTop) bk q pd.
Proof.
  intros I Ep Epc. destruct (prev_slot s bk q pd p I Ep) as [Hp So]. rewrite Epc in So. destruct So as (L & F & R & R2 & W & W2 & B & D).
  destruct (feed_shape s bk q pd i I) as (Hi & Hn & Hi2); [by rewrite Epc|]. rewrite Ep in Hi2. destruct Hi2 as [_ Hi2].
  pose proof (i_span _ _ _ _ _ I) as Sp. unfold span_ok, span_slot in Sp. rewrite Ep, Epc, <- Hi2 in Sp.
  pose proof (other_spec p Hp) as (Ho1 & Ho2 & Ho3). pose proof (i_feed _ _ _ _ _ I) as (Hx1 & Hx2 & _).
  apply (feed_slot_inv s _ p (give_free (get_slot s p)) bk); try done.
  - unfold kinds; cbn. rewrite decide_False by congruence. unfold slot_ok; cbn. split; [done|]. rewrite sem_give_given, R, W. cbn.
    by rewrite !andb_false_r.
  - unfold kinds; cbn. rewrite Ep, Epc, Hi2, decide_True, decide_False by done. done.
  - unfold order; cbn. rewrite Ep, Epc. cbn. rewrite Hi2. unfold pending. by rewrite (R2 eq_refl).
Qed.

Lemma release_idle_inv s i p bk q pd : inv0 cap s bk q pd -> fd_prev (sy_feed s) = Some p -> fd_pc (sy_feed s) = FReleaseIdle i ->
  inv0 cap (feed_at (with_prev (ingest_core1_release s p) None) (FReleaseSlot i)) bk q pd.
Proof.
  intros I Ep Epc. destruct (prev_slot s bk q pd p I Ep) as [Hp So]. rewrite Epc in So. destruct So as (L & F & R & R2 & W & W2 & B & D).
  destruct (feed_shape s bk q pd i I) as (Hi & Hn & Hi2); [by rewrite Epc|]. rewrite Ep in Hi2. destruct Hi2 as [_ Hi2].
  pose proof (i_span _ _ _ _ _ I) as Sp. unfold span_ok, span_slot in Sp. rewrite Ep, Epc in Sp.
  pose proof (other_spec p Hp) as (Ho1 & Ho2 & Ho3). pose proof (i_feed _ _ _ _ _ I) as (Hx1 & Hx2 & _).
  apply (feed_slot_inv s _ p (give_free (get_slot s p)) bk); try done.
  - unfold kinds; cbn. rewrite decide_False by congruence. unfold slot_ok; cbn. split; [done|]. rewrite sem_give_given, R, W. cbn.
    by rewrite !andb_false_r.
  - unfold kinds; cbn. rewrite Ep, Epc, Hi2, decide_True, decide_False by done. done.
  - unfold order; cbn. rewrite Ep, Epc. cbn. unfold pending. by rewrite (R2 eq_refl).
Qed.

Lemma release_slot_inv s i bk q pd : inv0 cap s bk q pd -> fd_pc (sy_feed s) = FReleaseSlot i ->
  inv0 cap (feed_at (ingest_core1_release s i) FWaitData) bk q pd.
Proof.
  intros I Epc. destruct (feed_shape s bk q pd i I) as (Hi & Hn & _); [by rewrite Epc|].
  pose proof (i_feed _ _ _ _ _ I) as (Hx1 & Hx2 & Hx3 & _). rewrite Epc in Hx3. cbn in Hx3.
  pose proof (i_slots _ _ _ _ _ I i Hi) as So. unfold kinds in So. rewrite Hx3, Epc, decide_True in So by done. destruct So as (L & F & R & W).
  pose proof (i_span _ _ _ _ _ I) as Sp. unfold span_ok, span_slot in Sp. rewrite Hx3, Epc in Sp. pose proof (other_spec i Hi) as (Ho1 & Ho2 & _).
  apply (feed_slot_inv s _ i (give_free (get_slot s i)) bk); try done.
  - unfold feed_ok; cbn. by rewrite Hx3.
  - unfold span_ok, span_slot; cbn. by rewrite Hx3.
  - unfold kinds; cbn. rewrite Hx3. unfold slot_ok; cbn. split; [done|]. by rewrite sem_give_given.
  - unfold kinds; cbn. rewrite Hx3, Epc, decide_False by done. done.
  - unfold order; cbn. by rewrite Hx3.
Qed.

(** *** The ring's side: reclaiming, peeking, dispatching *)

Lemma reclaim_inv s i p bk q pd : inv0 cap s bk q pd -> fd_prev (sy_feed s) = Some p -> fd_pc (sy_feed s) = FReclaim i ->
  let r := reclaim_span s (nth p (fd_raw_bytes (sy_feed s)) 0) in
  snd r = Some (EUsb (ERead (bk_bytes (bk p)))) /\ ring_step (sy_usb s) (Some (ERead (bk_bytes (bk p)))) (sy_usb (fst r)) /\
  exists q', q = bk_bytes (bk p) ++ q' /\ inv0 cap (feed_at (fst r) (FRead i)) bk q' pd.
Proof.
  intros I Ep Epc r. destruct (prev_slot s bk q pd p I Ep) as [Hp So]. destruct So as (_ & _ & _ & _ & _ & _ & B & _).
  pose proof (i_span _ _ _ _ _ I) as Sp. unfold span_ok, span_slot in Sp. rewrite Ep, Epc in Sp. destruct Sp as (c & Ec & Hc & Eb & En).
  pose proof (i_usb _ _ _ _ _ I) as Hsim. destruct Hsim as (buf & S & P & C). cbn in S, P, C. rewrite Ec in C. cbn in C. destruct C as (Eo & Hc1 & Hc2).
  pose proof (phys_range cap k Hk Hcap (ub_tail (cf_ring (sy_usb s)))) as Hr.
  assert (Hso : out_block_size = 16384) by reflexivity.
  assert (Esl : slice buf (Z.to_nat (bk_off (bk p))) (Z.to_nat (bk_len (bk p))) = bk_bytes (bk p)).
  { rewrite Eo. rewrite (holds_slice cap k Hk Hcap buf _ q) by (try apply S; unfold bk_len in *; lia). unfold bk_len. rewrite Nat2Z.id. by symmetry. }
  assert (Estep : ring_step (sy_usb s) (Some (ERead (bk_bytes (bk p)))) (sy_usb (fst r))).
  { unfold r, reclaim_span; cbn. rewrite En. unfold esp_libusb_consume_stream. rewrite u32_small by lia. rewrite <- Esl.
    destruct (sy_usb s) as [ring pr cs]; cbn in *. subst cs. by apply step_consume; [apply S|lia]. }
  split; [|split; [done|]].
  - unfold r, reclaim_span; cbn. by rewrite Ec, (st_buf _ _ _ _ S), En, Esl.
  - destruct (step_simulates cap k Hk Hcap _ _ _ _ (i_usb _ _ _ _ _ I) Estep) as ([q' pd'] & Hf & Hs).
    inversion Hf as [| | |b q2 p2 Hb E1 E2 E3]. exists q'. split; [congruence|]. assert (pd' = pd) as -> by congruence.
    destruct (feed_shape s bk q pd i I) as (Hi & Hn & _); [by rewrite Epc|].
    apply (feed_inv s _ bk q pd); try done.
    + apply I.
    + apply (feed_ok_move _ _ _ i (i_feed _ _ _ _ _ I)); [by rewrite Epc|done|done].
    + unfold span_ok, span_slot; cbn. by rewrite Ep.
    + intros j Hj. change (get_slot _ j) with (get_slot s j). pose proof (i_slots _ _ _ _ _ I j Hj) as So.
      unfold kinds in *; cbn. rewrite Ep, Epc in So. rewrite Ep. done.
    + unfold order; cbn. by rewrite Ep, Epc.
Qed.

Lemma read_none_inv s i bk q pd : inv0 cap s bk q pd -> fd_pc (sy_feed s) = FRead i ->
  inv0 cap (feed_at s (match fd_prev (sy_feed s) with Some _ => FTakeIdle i | None => FReleaseSlot i end)) bk q pd.
Proof.
  intros I Epc. destruct (feed_shape s bk q pd i I) as (Hi & Hn & Hp); [by rewrite Epc|].
  pose proof (i_span _ _ _ _ _ I) as Sp. unfold span_ok, span_slot in Sp. rewrite Epc in Sp.
  pose proof (i_feed _ _ _ _ _ I) as Hf.
  apply feed_only_inv; [done| | | | |]; unfold kinds, span_ok, span_slot, order; cbn;
    destruct (fd_prev (sy_feed s)) as [p|] eqn:Ep; rewrite ?Epc; try done.
  - rewrite <- Ep. apply (feed_ok_move _ _ _ i Hf); [by rewrite Epc|done|cbn; by rewrite Ep].
  - rewrite <- Ep. by apply (feed_ok_move _ _ _ i Hf); [rewrite Epc| |].
Qed.

Lemma read_some_inv s s' i off n bk q pd : inv0 cap s bk q pd -> fd_pc (sy_feed s) = FRead i -> read_span s = Some (s', (off, n)) ->
  inv0 cap (feed_at s' (FDispatch i off n)) bk q pd /\ ring_step (sy_usb s) None (sy_usb s') /\
  esp_libusb_read_stream (cf_ring (sy_usb s)) out_block_size = Some (off, n).
Proof.
  intros I Epc E. destruct (feed_shape s bk q pd i I) as (Hi & Hn & Hp); [by rewrite Epc|].
  pose proof (i_span _ _ _ _ _ I) as Sp. unfold span_ok, span_slot in Sp. rewrite Epc in Sp.
  assert (Hc : cf_cons (sy_usb s) = CIdle) by (by destruct (fd_prev (sy_feed s))).
  pose proof (i_usb _ _ _ _ _ I) as Hsim. pose proof Hsim as (buf & S & _ & _). cbn in S.
  unfold read_span in E. destruct (usbring_peek (cf_ring (sy_usb s))) as [o c] eqn:Ek.
  assert (Er : esp_libusb_read_stream (cf_ring (sy_usb s)) out_block_size = Some (off, n) /\ o = Some off /\ 0 < n <= c /\ n <= out_block_size).
  { assert (Hso : out_block_size = 16384) by reflexivity.
    pose proof (read_eq cap k Hk Hcap _ _ _ out_block_size S ltac:(lia)) as Er. rewrite Er in E.
    rewrite (peek_eq cap k Hk Hcap _ _ _ S) in Ek. destruct (decide (q = [])) as [->|Hq]; [done|].
    assert (length q <> 0)%nat by (by destruct q). pose proof (phys_range cap k Hk Hcap (ub_tail (cf_ring (sy_usb s)))).
    injection Ek as <- <-. injection E as _ <- <-. unfold before_wrap in *. rewrite Er. repeat split; lia. }
  destruct Er as (Er & -> & Hnc & Hnb). rewrite Er in E. injection E as <-.
  assert (Estep : ring_step (sy_usb s) None (Config (cf_ring (sy_usb s)) (cf_prod (sy_usb s)) (CSpan off c))).
  { destruct (sy_usb s) as [ring pr cs]; cbn in *. subst cs. by apply step_peek. }
  split; [|split; [exact Estep|done]].
  pose proof (step_simulates cap k Hk Hcap _ _ _ _ Hsim Estep) as Hs.
  apply (feed_inv s _ bk q pd); try done.
  - apply I.
  - apply (feed_ok_move _ _ _ i (i_feed _ _ _ _ _ I)); [by rewrite Epc|done|done].
  - unfold span_ok, span_slot; cbn. assert (Hgo : exists contig, CSpan off c = CSpan off contig /\ 0 < n <= contig /\ n <= out_block_size) by (by exists c).
    destruct (fd_prev (sy_feed s)); exact Hgo.
  - intros j Hj. change (get_slot _ j) with (get_slot s j). pose proof (i_slots _ _ _ _ _ I j Hj) as So.
    unfold kinds in *; cbn. rewrite Epc in So. by destruct (fd_prev (sy_feed s)).
  - unfold order; cbn. rewrite Epc. by destruct (fd_prev (sy_feed s)).
Qed.

Lemma top_inv s pc bk q pd : inv0 cap s bk q pd -> fd_pc (sy_feed s) = FTop -> pc = FStopped \/ pc = FAcquire ->
  inv0 cap (feed_at s pc) bk q pd.
Proof.
  intros I Epc Hpc. pose proof (i_span _ _ _ _ _ I) as Sp. pose proof (i_feed _ _ _ _ _ I) as Hf.
  unfold span_ok, span_slot in Sp. unfold feed_ok in Hf. rewrite Epc in Sp, Hf. cbn in Hf.
  apply feed_only_inv; [done| | | | |]; unfold feed_ok, kinds, span_ok, span_slot, order; cbn; rewrite ?Epc;
    destruct Hpc as [-> | ->]; try done; by destruct (fd_prev (sy_feed s)).
Qed.

Lemma wait_inv s bk q pd : inv0 cap s bk q pd -> fd_pc (sy_feed s) = FWaitData -> inv0 cap (feed_at s FTop) bk q pd.
Proof.
  intros I Epc. pose proof (i_span _ _ _ _ _ I) as Sp. pose proof (i_feed _ _ _ _ _ I) as Hf.
  unfold span_ok, span_slot in Sp. unfold feed_ok in Hf. rewrite Epc in Sp, Hf. cbn in Hf. destruct Hf as (H1 & H2 & H3 & H4).
  rewrite H3 in *. apply feed_only_inv; [done| | | | |]; unfold feed_ok, kinds, span_ok, span_slot, order; cbn; rewrite ?Epc, ?H3; done.
Qed.

Definition put_block (bk : nat -> block) (i : nat) (b : block) : nat -> block := fun j => if decide (j = i) then b else bk j.

Definition dispatched f i n : feed :=
  match fd_prev f with
  | Some p => Feed (FTake i) (Some p) (<[i := n]> (fd_raw_bytes f))
  | None => Feed FTop (Some i) (<[i := n]> (fd_raw_bytes f))
  end.

(** The queue has room whenever the feed task dispatches. *)
Lemma dispatch_room s bk q pd i off n : inv0 cap s bk q pd -> fd_pc (sy_feed s) = FDispatch i off n ->
  (length (queue_items (sy_queue s)) < queue_depth (sy_queue s))%nat.
Proof.
  intros I Epc. rewrite (i_depth _ _ _ _ _ I). pose proof (f_equal length (i_work _ _ _ _ _ I)) as Hw. rewrite length_app in Hw.
  assert (Hp : forall j, (length (pending bk j) <= 1)%nat) by (intros j; unfold pending; destruct (bk_done _); cbn; lia).
  assert (Ho : (length (flat_map (pending bk) (order (sy_feed s))) <= 1)%nat).
  { unfold order. rewrite Epc. destruct (fd_prev (sy_feed s)) as [p|]; cbn; [rewrite app_nil_r; apply Hp|lia]. }
  lia.
Qed.

Lemma dispatch_case s bk q pd i off n fault s' e : inv0 cap s bk q pd -> fd_pc (sy_feed s) = FDispatch i off n ->
  ingest_core1_dispatch fault s i off n = (s', e) ->
  exists lost,
    (lost = true -> fault = true) /\ e = (if lost then Some ELost else None) /\
    sy_usb s' = sy_usb s /\ sy_ingest s' = sy_ingest s /\ sy_next s' = sy_next s /\ sy_feed s' = sy_feed s /\
    queue_items (sy_queue s') = queue_items (sy_queue s) ++ (if lost then [] else [Msg i off n]) /\
    queue_depth (sy_queue s') = queue_depth (sy_queue s) /\
    sy_slots s' = if lost then <[i := give_ready (give_raw_done (with_n (get_slot s i) 0))]> (sy_slots s) else sy_slots s.
Proof.
  intros I Epc E. unfold ingest_core1_dispatch in E. destruct fault.
  - injection E as <- <-. exists true. rewrite app_nil_r. done.
  - destruct (queue_send_room _ (Msg i off n) (dispatch_room s bk q pd i off n I Epc)) as (q2 & Es & Ei & Ed).
    rewrite Es in E. injection E as <- <-. exists false. done.
Qed.

(** The slot the block goes to. *)
Lemma dispatch_slot s bk q pd i off n lost x b : inv0 cap s bk q pd -> fd_pc (sy_feed s) = FDispatch i off n ->
  0 < n <= out_block_size -> bk_len b = n -> bk_lost b = lost -> bk_done b = lost ->
  x = (if lost then give_ready (give_raw_done (with_n (get_slot s i) 0)) else get_slot s i) ->
  slot_ok (ig_pc (sy_ingest s)) i x (KBusy false false) b /\
  forall m, In m (pc_msg (ig_pc (sy_ingest s))) -> dm_slot m <> i.
Proof.
  intros I Epc Hn El Hlost Hdone ->. destruct (feed_shape s bk q pd i I) as (Hi & _ & Hp); [by rewrite Epc|].
  pose proof (other_spec i Hi) as (_ & Ho & _).
  assert (Ek : kinds (sy_feed s) i = KHeld).
  { unfold kinds. rewrite Epc. destruct (fd_prev (sy_feed s)) as [p|]; [|by rewrite decide_True].
    destruct Hp as [Hp ->]. pose proof (other_spec p Hp) as (_ & Hop & _). by rewrite decide_False. }
  assert (Hm : forall m, In m (pc_msg (ig_pc (sy_ingest s))) -> dm_slot m <> i).
  { intros m Hm E. destruct (current s bk q pd m I Hm) as (_ & _ & _ & raw & Ek2). rewrite E, Ek in Ek2. done. }
  split; [|exact Hm]. pose proof (i_slots _ _ _ _ _ I i Hi) as So. rewrite Ek in So. destruct So as (L & F & R & W).
  assert (Hg : raw_given (ig_pc (sy_ingest s)) i b = lost).
  { unfold raw_given. rewrite Hdone. destruct lost; [done|]. destruct (pc_msg _) as [|m l]; [done|].
    by rewrite (proj2 (Nat.eqb_neq (dm_slot m) i)) by (apply Hm; by left). }
  unfold slot_ok. rewrite Hg, Hdone. destruct lost; cbn; rewrite ?sem_give_given, ?andb_true_r.
  - split; [done|]. split; [done|]. split; [done|]. split; [done|]. split; [done|]. split; [done|]. split; [lia|].
    intros _. unfold bk_samples, bk_elems. by rewrite Hlost.
  - split; [done|]. split; [done|]. split; [done|]. split; [done|]. split; [done|]. split; [done|]. split; [lia|]. done.
Qed.

Lemma dispatch_inv s bk q pd i off n fault s' e : inv0 cap s bk q pd -> fd_pc (sy_feed s) = FDispatch i off n ->
  ingest_core1_dispatch fault s i off n = (s', e) ->
  exists lost b, (lost = true -> fault = true) /\ e = (if lost then Some ELost else None) /\ bk_lost b = lost /\ bk_len b = n /\
    sy_usb s' = sy_usb s /\ inv0 cap (set_feed s' (dispatched (sy_feed s) i n)) (put_block bk i b) q pd.
Proof.
  intros I Epc E. destruct (dispatch_case s bk q pd i off n fault s' e I Epc E) as (lost & Hl & He & Eu & Ei & Enx & Ef & Eq & Edp & Es).
  pose proof (i_span _ _ _ _ _ I) as Sp. unfold span_ok in Sp.
  assert (Hsp : span_slot (sy_feed s) = None) by (unfold span_slot; rewrite Epc; by destruct (fd_prev (sy_feed s))). rewrite Hsp, Epc in Sp.
  destruct Sp as (c & Ec & Hn & Hnb). pose proof (i_usb _ _ _ _ _ I) as (buf & S & _ & C). rewrite Ec in C. cbn in C. destruct C as (Eo & Hc1 & Hc2).
  set (b := Block (take (Z.to_nat n) q) off lost lost).
  assert (Eb : bk_len b = n) by (unfold bk_len, b; cbn; rewrite length_take; lia).
  exists lost, b. split; [done|]. split; [done|]. split; [done|]. split; [done|]. split; [done|].
  destruct (feed_shape s bk q pd i I) as (Hi & Hnx & Hp); [by rewrite Epc|]. pose proof (other_spec i Hi) as (Ho1 & Ho2 & Ho3).
  pose proof (i_feed _ _ _ _ _ I) as (Hf1 & Hf2 & _).
  set (x := if lost then give_ready (give_raw_done (with_n (get_slot s i) 0)) else get_slot s i).
  destruct (dispatch_slot s bk q pd i off n lost x b I Epc ltac:(lia) Eb eq_refl eq_refl eq_refl) as [So Hm].
  assert (Hg : forall j, get_slot (set_feed s' (dispatched (sy_feed s) i n)) j = if decide (j = i) then x else get_slot s j).
  { intros j. unfold x. change (get_slot (set_feed s' ?f) j) with (nth j (sy_slots s') slot_zero). rewrite Es. destruct lost.
    - rewrite <- get_set by (rewrite (i_len _ _ _ _ _ I); done). done.
    - case_decide as E2; [by rewrite E2|done]. }
  assert (Hki : kinds (dispatched (sy_feed s) i n) i = KBusy false false /\ kinds (dispatched (sy_feed s) i n) (other i) = kinds (sy_feed s) (other i)).
  { unfold kinds, dispatched. rewrite Epc. destruct (fd_prev (sy_feed s)) as [p|]; cbn.
    - destruct Hp as [Hp ->]. pose proof (other_spec p Hp) as (_ & Hop & Hop2). rewrite Hop2. rewrite decide_False by done. by rewrite !decide_True by done.
    - by rewrite decide_True, !decide_False by done. }
  assert (Hpi : forall j, j <> i -> pending (put_block bk i b) j = pending bk j) by (intros j Hj; unfold pending, put_block; by rewrite !decide_False by done).
  assert (Hpii : pending (put_block bk i b) i = if lost then [] else [Msg i off n]).
  { unfold pending, put_block. rewrite decide_True by done. cbn. destruct lost; [done|]. unfold bk_msg. by rewrite Eb. }
  constructor; cbn [set_feed sy_usb sy_slots sy_queue sy_next sy_ingest sy_feed]; rewrite ?Eu, ?Ei, ?Enx, ?Edp; try apply I.
  - unfold feed_ok, dispatched. rewrite Hnx. destruct (fd_prev (sy_feed s)) as [p|]; cbn; rewrite length_insert; repeat split; try done; apply Hp.
  - rewrite Es. destruct lost; [rewrite length_insert|]; apply I.
  - assert (Hss : span_slot (dispatched (sy_feed s) i n) = Some i).
    { unfold span_slot, dispatched. destruct (fd_prev (sy_feed s)) as [p|]; cbn; [destruct Hp as [Hp ->]; done|done]. }
    unfold span_ok. rewrite Hss. exists c. unfold put_block. rewrite decide_True by done. rewrite Eb.
    split; [done|]. split; [lia|]. split.
    + cbn. rewrite length_take. rewrite Nat.min_l by lia. done.
    + unfold dispatched. destruct (fd_prev (sy_feed s)); cbn; rewrite nth_lookup, list_lookup_insert_eq by lia; done.
  - intros j Hj. rewrite Hg. unfold put_block. case_decide as E2; [subst j; by rewrite (proj1 Hki)|].
    assert (j = other i) as -> by (apply two_slots; [done|done|congruence]). rewrite (proj2 Hki). by apply I.
  - rewrite Eq, app_assoc, (i_work _ _ _ _ _ I). unfold order, dispatched. rewrite Epc. destruct (fd_prev (sy_feed s)) as [p|]; cbn.
    + destruct Hp as [Hp Ep]. pose proof (other_spec p Hp) as (_ & Hop & _). rewrite Hpi by congruence. rewrite <- Ep, Hpii. by rewrite !app_nil_r.
    + by rewrite Hpii, app_nil_r.
  - intros m Hin. rewrite Hg. unfold put_block. rewrite !decide_False by (by apply Hm). by apply I.
  - intros j. unfold put_block. case_decide; [done|]. apply I.
  - unfold dispatched. by destruct (fd_prev (sy_feed s)).
Qed.

(** *** Any step of the feed task *)

Definition usb_of (e : option sys_event) : option event := match e with Some (EUsb e) => Some e | _ => None end.

(** What a step does to the account of octets. *)
Definition accounted f f' bk bk' (q q' : list Z) (e : option sys_event) : Prop :=
  match e with
  | Some (EUsb (ERead b)) => q = b ++ q' /\ unfed f bk = [] /\ unfed f' bk' = b /\ exists p, b = bk_bytes (bk p)
  | Some (EUsb _) => False
  | Some (EFed l) | Some (EShed l) => q' = q /\ unfed f' bk' = [] /\ exists p, unfed f bk = bk_bytes (bk p) /\ l = bk_samples (bk p)
  | Some ELost | None => q' = q /\ unfed f' bk' = unfed f bk
  end.

Record feed_effect s s' bk bk' q q' pd (fault : bool) (e : option sys_event) : Prop := {
  fe_inv : inv0 cap s' bk' q' pd;
  fe_usb : sy_usb s' = sy_usb s /\ usb_of e = None \/ ring_step (sy_usb s) (usb_of e) (sy_usb s');
  fe_acct : accounted (sy_feed s) (sy_feed s') bk bk' q q' e;
  fe_blocks : forall j, bk' j = bk j \/
    exists i off n, fd_pc (sy_feed s) = FDispatch i off n /\ bk_len (bk' j) = n /\ (bk_lost (bk' j) = true -> e = Some ELost);
  fe_lost : e = Some ELost -> fault = true;
  fe_read : forall i off n, fd_pc (sy_feed s') = FDispatch i off n ->
    esp_libusb_read_stream (cf_ring (sy_usb s)) out_block_size = Some (off, n) }.

(** A step that emits nothing and leaves the ring and the blocks alone. *)
Lemma quiet_effect s s' bk q pd fault : inv0 cap s' bk q pd -> sy_usb s' = sy_usb s -> unfed (sy_feed s') bk = unfed (sy_feed s) bk ->
  (forall i off n, fd_pc (sy_feed s') <> FDispatch i off n) -> feed_effect s s' bk bk q q pd fault None.
Proof.
  intros I Eu Ef Hd. constructor; [done|by left|done|by left|done|]. intros i off n E. by apply Hd in E.
Qed.

Lemma reclaim_effect s i p bk q pd fault : inv0 cap s bk q pd -> fd_prev (sy_feed s) = Some p -> fd_pc (sy_feed s) = FReclaim i ->
  let r := reclaim_span s (nth p (fd_raw_bytes (sy_feed s)) 0) in
  exists q', feed_effect s (feed_at (fst r) (FRead i)) bk bk q q' pd fault (snd r).
Proof.
  intros I Ep Epc r. destruct (reclaim_inv s i p bk q pd I Ep Epc) as (Ee & Est & q' & Eq & I'). fold r in Ee, Est, I'.
  exists q'. rewrite Ee. constructor; [done|by right| |by left|done|done]. cbn.
  split; [done|]. unfold unfed; cbn. rewrite Ep, Epc. split; [done|split; [done|by exists p]].
Qed.

Lemma read_effect s s1 i off n bk q pd fault : inv0 cap s bk q pd -> fd_pc (sy_feed s) = FRead i -> read_span s = Some (s1, (off, n)) ->
  feed_effect s (feed_at s1 (FDispatch i off n)) bk bk q q pd fault None.
Proof.
  intros I Epc Er. destruct (read_some_inv s s1 i off n bk q pd I Epc Er) as (I' & Est & Eread).
  assert (Ef : sy_feed s1 = sy_feed s).
  { unfold read_span in Er. destruct (usbring_peek _) as [o c]. destruct (esp_libusb_read_stream _ _) as [[o2 n2]|]; [|done]. by injection Er as <- _. }
  constructor; [done|by right| |by left|done|].
  - cbn. split; [done|]. unfold unfed; cbn. rewrite Ef, Epc. done.
  - intros j o m Ej. cbn in Ej. by injection Ej as <- <- <-.
Qed.

Lemma dispatch_effect s s1 e i off n bk q pd fault : inv0 cap s bk q pd -> fd_pc (sy_feed s) = FDispatch i off n ->
  ingest_core1_dispatch fault s i off n = (s1, e) ->
  exists bk', feed_effect s (set_feed s1 (dispatched (sy_feed s) i n)) bk bk' q q pd fault e.
Proof.
  intros I Epc Ed. destruct (dispatch_inv s bk q pd i off n fault s1 e I Epc Ed) as (lost & b & Hl & He & Hbl & Hbn & Eu & I').
  destruct (feed_shape s bk q pd i I) as (Hi & _ & Hp); [by rewrite Epc|].
  exists (put_block bk i b). constructor; [done|left; split; [done|by subst e; destruct lost]| | | |].
  - subst e. assert (Hu : unfed (dispatched (sy_feed s) i n) (put_block bk i b) = unfed (sy_feed s) bk).
    { unfold unfed, dispatched, put_block. rewrite Epc. destruct (fd_prev (sy_feed s)) as [p|]; [|done]. cbn.
      destruct Hp as [Hp ->]. pose proof (other_spec p Hp) as (_ & Ho & _). by rewrite decide_False by done. }
    by destruct lost.
  - intros j. unfold put_block. case_decide; [|by left]. right. exists i, off, n. split; [done|split; [done|]].
    intros Hlb. subst e. rewrite Hbl in Hlb. by rewrite Hlb.
  - subst e. destruct lost; [by intros _; apply Hl|done].
  - intros j o m Ej. cbn in Ej. unfold dispatched in Ej. by destruct (fd_prev (sy_feed s)).
Qed.

Lemma take_effect s s1 i p n pc' bk q pd fault : inv0 cap s bk q pd -> fd_prev (sy_feed s) = Some p ->
  (fd_pc (sy_feed s) = FTake i /\ pc' = FFeed i n \/ fd_pc (sy_feed s) = FTakeIdle i /\ pc' = FFeedIdle i n) ->
  ingest_core1_take_converted fault s p = Some (s1, n) -> feed_effect s (feed_at s1 pc') bk bk q q pd fault None.
Proof.
  intros I Ep Hpc Ea. pose proof (take_inv s s1 i p n pc' fault bk q pd I Ep Hpc Ea) as I'.
  unfold ingest_core1_take_converted in Ea. destruct fault; [done|]. destruct (sem_take _); [|done]. injection Ea as <- <-.
  apply quiet_effect; [done|done| |by destruct Hpc as [[_ ->]|[_ ->]]]. unfold unfed; cbn. rewrite Ep.
  by destruct Hpc as [[-> ->]|[-> ->]].
Qed.

Lemma fed_effect s i p n pc' shed bk q pd fault : inv0 cap s bk q pd -> fd_prev (sy_feed s) = Some p ->
  (fd_pc (sy_feed s) = FFeed i n /\ pc' = FRelease i \/ fd_pc (sy_feed s) = FFeedIdle i n /\ pc' = FReleaseIdle i) ->
  feed_effect s (feed_at s pc') bk bk q q pd fault (Some (hand_over shed (fed_samples s p n))).
Proof.
  intros I Ep Hpc. destruct (fed_inv s i p n pc' bk q pd I Ep Hpc) as [I' Es].
  constructor; [done|by left; destruct shed| |by left|by destruct shed|by destruct Hpc as [[_ ->]|[_ ->]]].
  enough (A : q = q /\ unfed (sy_feed (feed_at s pc')) bk = [] /\ exists p0, unfed (sy_feed s) bk = bk_bytes (bk p0) /\ fed_samples s p n = bk_samples (bk p0)) by by destruct shed.
  split; [done|]. unfold unfed; cbn. rewrite Ep. destruct Hpc as [[-> ->]|[-> ->]]; (split; [done|]); by exists p.
Qed.

Lemma acquire_effect s s1 i bk q pd fault : inv0 cap s bk q pd -> fd_pc (sy_feed s) = FAcquire -> ingest_core1_acquire_slot s = Some (s1, i) ->
  feed_effect s (feed_at s1 (match fd_prev (sy_feed s) with Some _ => FRawDone i | None => FRead i end)) bk bk q q pd fault None.
Proof.
  intros I Epc Ea. pose proof (acquire_inv s s1 i bk q pd I Epc Ea) as I'. unfold ingest_core1_acquire_slot in Ea.
  destruct (sem_take _); [|done]. injection Ea as <- <-. apply quiet_effect; [done|done| |].
  - unfold unfed; cbn. rewrite Epc. by destruct (fd_prev (sy_feed s)).
  - cbn. by destruct (fd_prev (sy_feed s)).
Qed.

Lemma raw_effect s s1 i p bk q pd fault : inv0 cap s bk q pd -> fd_pc (sy_feed s) = FRawDone i -> fd_prev (sy_feed s) = Some p ->
  ingest_core1_wait_raw_done s p = Some s1 -> feed_effect s (feed_at s1 (FReclaim i)) bk bk q q pd fault None.
Proof.
  intros I Epc Ep Ea. pose proof (raw_inv s s1 i p bk q pd I Epc Ep Ea) as I'. unfold ingest_core1_wait_raw_done in Ea.
  destruct (sem_take _); [|done]. injection Ea as <-. apply quiet_effect; [done|done| |done].
  unfold unfed; cbn. by rewrite Epc, Ep.
Qed.

Lemma feed_step_inv s s' bk q pd stop fault shed e : inv0 cap s bk q pd -> feed_step stop fault shed s = Some (s', e) ->
  exists bk' q', feed_effect s s' bk bk' q q' pd fault e.
Proof.
  intros I E. unfold feed_step in E. destruct (fd_pc (sy_feed s)) as [| |i|i|i|i off n|i|i n|i|i|i n|i|i| |] eqn:Epc;
    destruct (fd_prev (sy_feed s)) as [p|] eqn:Ep; try done.
  1-2: injection E as <- <-; exists bk, q; apply quiet_effect; [apply top_inv; [done|done|destruct stop; tauto]|done| |cbn; by destruct stop];
    unfold unfed; cbn; rewrite Epc, Ep; by destruct stop.
  1-2: destruct (ingest_core1_acquire_slot s) as [[s1 i]|] eqn:Ea; [|done]; injection E as <- <-; exists bk, q;
    pose proof (acquire_effect s s1 i bk q pd fault I Epc Ea) as F; by rewrite Ep in F.
  - destruct (ingest_core1_wait_raw_done s p) as [s1|] eqn:Ea; [|done]. injection E as <- <-. exists bk, q. by apply (raw_effect s s1 i p).
  - destruct (reclaim_effect s i p bk q pd fault I Ep Epc) as (q' & F). exists bk, q'. destruct (reclaim_span s _) as [s1 e1]. by injection E as <- <-.
  - destruct (read_span s) as [[s1 [off n]]|] eqn:Er; injection E as <- <-; exists bk, q; [by apply read_effect|].
    pose proof (read_none_inv s i bk q pd I Epc) as I'. rewrite Ep in I'. apply quiet_effect; try done. unfold unfed; cbn. by rewrite Epc, Ep.
  - destruct (read_span s) as [[s1 [off n]]|] eqn:Er; injection E as <- <-; exists bk, q; [by apply read_effect|].
    pose proof (read_none_inv s i bk q pd I Epc) as I'. rewrite Ep in I'. apply quiet_effect; try done. unfold unfed; cbn. by rewrite Epc, Ep.
  - destruct (ingest_core1_dispatch fault s i off n) as [s1 e1] eqn:Ed. injection E as <- <-.
    destruct (dispatch_effect s s1 e1 i off n bk q pd fault I Epc Ed) as (bk' & F). exists bk', q. unfold dispatched in F. by rewrite Ep in F.
  - destruct (ingest_core1_dispatch fault s i off n) as [s1 e1] eqn:Ed. injection E as <- <-.
    destruct (dispatch_effect s s1 e1 i off n bk q pd fault I Epc Ed) as (bk' & F). exists bk', q. unfold dispatched in F. by rewrite Ep in F.
  - destruct (ingest_core1_take_converted fault s p) as [[s1 n]|] eqn:Ea; [|done]. injection E as <- <-. exists bk, q. apply (take_effect s s1 i p n); auto.
  - injection E as <- <-. exists bk, q. apply (fed_effect s i p n); auto.
  - injection E as <- <-. exists bk, q. apply quiet_effect; [by apply release_inv|done| |done]. unfold unfed; cbn. by rewrite Epc, Ep.
  - destruct (ingest_core1_take_converted fault s p) as [[s1 n]|] eqn:Ea; [|done]. injection E as <- <-. exists bk, q. apply (take_effect s s1 i p n); auto.
  - injection E as <- <-. exists bk, q. apply (fed_effect s i p n); auto.
  - injection E as <- <-. exists bk, q. apply quiet_effect; [by apply release_idle_inv|done| |done]. unfold unfed; cbn. by rewrite Epc, Ep.
  - injection E as <- <-. exists bk, q. apply quiet_effect; [by apply release_slot_inv|done| |done]. unfold unfed; cbn. by rewrite Epc, Ep.
  - injection E as <- <-. exists bk, q. apply quiet_effect; [by apply release_slot_inv|done| |done]. unfold unfed; cbn. by rewrite Epc, Ep.
  - injection E as <- <-. exists bk, q. apply quiet_effect; [by apply wait_inv|done| |done]. unfold unfed; cbn. by rewrite Epc, Ep.
  - injection E as <- <-. exists bk, q. apply quiet_effect; [by apply wait_inv|done| |done]. unfold unfed; cbn. by rewrite Epc, Ep.
Qed.

(** ** The account of octets along a run *)

Lemma written_app tr1 tr2 : written (tr1 ++ tr2) = written tr1 ++ written tr2.
Proof. apply flat_map_app. Qed.
Lemma delivered_app tr1 tr2 : delivered (tr1 ++ tr2) = delivered tr1 ++ delivered tr2.
Proof. apply flat_map_app. Qed.
Lemma usb_events_snoc tr e : usb_events (tr ++ [e]) = usb_events tr ++ match e with EUsb e => [e] | _ => [] end.
Proof. unfold usb_events. rewrite flat_map_app. cbn. by rewrite app_nil_r. Qed.
Lemma emerged_snoc tr e : emerged (tr ++ [e]) = emerged tr ++ match e with EFed l | EShed l => l | _ => [] end.
Proof. unfold emerged. rewrite flat_map_app. cbn. by rewrite app_nil_r. Qed.

(** What holds once every write so far had an even length. *)
Record balanced s bk tr : Prop := {
  b_paired : paired (sy_usb s);
  b_even : forall j, Z.even (bk_len (bk j)) = true;
  b_next : forall i off n, fd_pc (sy_feed s) = FDispatch i off n -> Z.even n = true;
  b_lost : no_loss tr = true -> forall j, bk_lost (bk j) = false;
  b_fed : no_loss tr = true -> map convert_octet (delivered (usb_events tr)) = emerged tr ++ map convert_octet (unfed (sy_feed s) bk) }.

Definition inv1 s tr : Prop :=
  exists bk q pd, inv0 cap s bk q pd /\ written (usb_events tr) = delivered (usb_events tr) ++ q /\
    (2 <= cap -> even_writes tr = true -> balanced s bk tr).

Lemma even_samples b : Z.even (bk_len b) = true -> bk_lost b = false -> bk_samples b = map convert_octet (bk_bytes b).
Proof.
  intros He Hl. unfold bk_samples, bk_elems, bk_total. rewrite Hl.
  assert (E : 2 * (bk_len b / 2) = bk_len b).
  { rewrite Z.even_spec in He. destruct He as [k0 ->]. rewrite (Z.mul_comm 2 k0), Z.div_mul by lia. lia. }
  rewrite E. unfold bk_len. by rewrite Nat2Z.id, take_ge.
Qed.

Lemma even_event_of cf cf' e : paired cf -> ring_step cf (Some e) cf' ->
  match e with EBegin d | ERead d => Z.even (Z.of_nat (length d)) | _ => true end = true -> even_event e = true.
Proof. intros P St He. inversion St; subst; try done; unfold paired in P; cbn in P |- *; apply P. Qed.

Lemma prod_balanced s u e bk q pd tr : inv0 cap s bk q pd -> ring_step (sy_usb s) e u -> cf_cons u = cf_cons (sy_usb s) ->
  even_writes (tr ++ match e with Some e => [EUsb e] | None => [] end) = true -> balanced s bk tr ->
  balanced (set_usb s u) bk (tr ++ match e with Some e => [EUsb e] | None => [] end).
Proof.
  intros I St Ec He B. destruct (producer_inv s u e bk q pd I St Ec) as (d & pd' & _ & Hd).
  assert (Hp : paired u).
  { apply (paired_step cap k _ _ _ _ Hk Hcap (i_usb _ _ _ _ _ I) St); [|apply B]. destruct e as [e|]; [|done].
    apply (even_event_of _ _ _ (b_paired _ _ _ B) St). unfold even_writes in He. rewrite forallb_app in He. apply andb_true_iff in He as [_ He].
    cbn in He. rewrite andb_true_r in He. destruct e; try done. destruct Hd as [_ Hd]. unfold delivered in Hd. cbn in Hd.
    rewrite app_nil_r in Hd. by rewrite Hd. }
  assert (Hnl : no_loss (tr ++ match e with Some e => [EUsb e] | None => [] end) = true -> no_loss tr = true).
  { unfold no_loss. rewrite forallb_app. intros H. by apply andb_true_iff in H as [H _]. }
  constructor; cbn; try apply B; [done|intros H; by apply B, Hnl|]. intros H. destruct e as [e|]; [|rewrite app_nil_r in *; by apply B].
  rewrite usb_events_snoc, emerged_snoc, delivered_app, (proj2 Hd), !app_nil_r. by apply B, Hnl.
Qed.

Lemma even_writes_app tr tr2 : even_writes (tr ++ tr2) = true -> even_writes tr = true.
Proof. unfold even_writes. rewrite forallb_app. intros E. by apply andb_true_iff in E as [E _]. Qed.
Lemma no_loss_app tr tr2 : no_loss (tr ++ tr2) = true -> no_loss tr = true.
Proof. unfold no_loss. rewrite forallb_app. intros E. by apply andb_true_iff in E as [E _]. Qed.

Definition emitted (e : option sys_event) : list sys_event := match e with Some e => [e] | None => [] end.

Lemma feed_balanced s s' bk bk' q q' pd fault e tr : 2 <= cap -> inv0 cap s bk q pd -> feed_effect s s' bk bk' q q' pd fault e ->
  balanced s bk tr -> balanced s' bk' (tr ++ emitted e).
Proof.
  intros Hc2 I F B. destruct (i_usb _ _ _ _ _ I) as (buf & S & _ & _).
  assert (Hread : forall b, e = Some (EUsb (ERead b)) -> Z.even (Z.of_nat (length b)) = true).
  { intros b ->. destruct (fe_acct _ _ _ _ _ _ _ _ _ F) as (_ & _ & _ & p & ->). apply (b_even _ _ _ B p). }
  assert (Hev : forall ev, e = Some (EUsb ev) -> exists b, ev = ERead b).
  { intros ev ->. pose proof (fe_acct _ _ _ _ _ _ _ _ _ F) as A. destruct ev; try done. by eexists. }
  constructor.
  - destruct (fe_usb _ _ _ _ _ _ _ _ _ F) as [[-> _]|St]; [apply B|].
    apply (paired_step cap k _ _ _ _ Hk Hcap (i_usb _ _ _ _ _ I) St); [|apply B].
    destruct e as [[ev|l|l|]|]; try done. cbn. destruct (Hev ev eq_refl) as [b ->]. by apply Hread.
  - intros j. destruct (fe_blocks _ _ _ _ _ _ _ _ _ F j) as [->|(i & off & n & Epc & -> & _)]; [apply B|].
    by apply (b_next _ _ _ B i off n).
  - intros i off n Epc. apply (paired_read cap k (sy_usb s) buf q out_block_size off n Hk Hcap Hc2 S (b_paired _ _ _ B)); [done|done|].
    by apply (fe_read _ _ _ _ _ _ _ _ _ F i).
  - intros Hn j. destruct (fe_blocks _ _ _ _ _ _ _ _ _ F j) as [->|(i & off & n & _ & _ & Hl)].
    + apply B. by apply no_loss_app in Hn.
    + destruct (bk_lost (bk' j)); [|done]. specialize (Hl eq_refl) as ->. unfold no_loss in Hn. rewrite forallb_app in Hn.
      cbn in Hn. by rewrite andb_false_r in Hn.
  - intros Hn. pose proof (no_loss_app _ _ Hn) as Hn'. pose proof (b_fed _ _ _ B Hn') as Hfed. pose proof (b_lost _ _ _ B Hn') as Hlost.
    pose proof (fe_acct _ _ _ _ _ _ _ _ _ F) as A. destruct e as [[ev|l|l|]|]; cbn [emitted].
    + destruct (Hev ev eq_refl) as [b ->]. destruct A as (_ & Eu & Eu' & _).
      rewrite usb_events_snoc, emerged_snoc, delivered_app, map_app, Hfed, Eu, Eu'. cbn. rewrite !app_nil_r. done.
    + destruct A as (_ & Eu' & p & Eu & ->). rewrite usb_events_snoc, emerged_snoc, app_nil_r, Hfed, Eu, Eu'. cbn.
      rewrite app_nil_r, even_samples; [done|apply B|by apply Hlost].
    + destruct A as (_ & Eu' & p & Eu & ->). rewrite usb_events_snoc, emerged_snoc, app_nil_r, Hfed, Eu, Eu'. cbn.
      rewrite app_nil_r, even_samples; [done|apply B|by apply Hlost].
    + destruct A as (_ & Eu). rewrite usb_events_snoc, emerged_snoc, !app_nil_r, Eu. done.
    + destruct A as (_ & Eu). rewrite app_nil_r, Eu. done.
Qed.

Lemma step_inv1 t s e s' tr : inv1 s tr -> sys_step t s e s' -> inv1 s' (tr ++ emitted e).
Proof.
  intros (bk & q & pd & I & Hq & B) St. destruct St as [s u e Hs Ec|s s' stop fault shed e Hs|s s' Hs].
  - destruct (producer_inv s u e bk q pd I Hs Ec) as (d & pd' & I' & Hd). exists bk, (q ++ d), pd'. split; [done|split].
    + destruct e as [e|]; cbn; [|subst d; by rewrite !app_nil_r]. destruct Hd as [Hw Hdl].
      rewrite usb_events_snoc, written_app, delivered_app, Hw, Hdl, Hq, app_nil_r. by rewrite app_assoc.
    + intros Hc2 He. replace (emitted (option_map EUsb e)) with (match e with Some e => [EUsb e] | None => [] end) in * by (by destruct e).
      apply (prod_balanced s u e bk q pd tr I Hs Ec He). apply B; [done|]. by apply even_writes_app in He.
  - destruct (feed_step_inv s s' bk q pd stop fault shed e I Hs) as (bk' & q' & F). exists bk', q', pd.
    split; [apply F|split].
    + pose proof (fe_acct _ _ _ _ _ _ _ _ _ F) as A. destruct e as [[ev|l|l|]|]; cbn [emitted]; rewrite ?app_nil_r.
      * destruct ev as [|d|d|b]; try done. destruct A as (-> & _). rewrite usb_events_snoc, written_app, delivered_app, Hq. cbn.
        by rewrite !app_nil_r, app_assoc.
      * destruct A as (-> & _). by rewrite usb_events_snoc, app_nil_r.
      * destruct A as (-> & _). by rewrite usb_events_snoc, app_nil_r.
      * destruct A as (-> & _). by rewrite usb_events_snoc, app_nil_r.
      * by destruct A as (-> & _).
    + intros Hc2 He. apply (feed_balanced s s' bk bk' q q' pd fault e tr Hc2 I F). apply B; [done|]. by apply even_writes_app in He.
  - destruct (ingest_step_inv s s' bk q pd I Hs) as (bk' & I' & Eb & El & Eu & Ef). exists bk', q, pd. rewrite app_nil_r.
    split; [done|split; [done|]]. intros Hc2 He. specialize (B Hc2 He).
    constructor; rewrite ?Eu, ?Ef; try apply B.
    + intros j. unfold bk_len. rewrite Eb. apply B.
    + intros Hn j. rewrite El. by apply B.
    + intros Hn. rewrite (unfed_ext _ _ _ Eb). by apply B.
Qed.

Lemma run_inv1 s tr s' : sys_run s tr s' -> inv1 s [] -> inv1 s' tr.
Proof.
  intros Hr Hi. induction Hr as [s|s1 s2 s3 t tr Hr IH St|s1 s2 s3 t tr e Hr IH St]; [done| |].
  - pose proof (step_inv1 t s2 None s3 tr (IH Hi) St) as Hs. by rewrite app_nil_r in Hs.
  - apply (step_inv1 t s2 (Some e) s3 tr (IH Hi) St).
Qed.

(** *** The start *)

Definition block_zero : block := Block [] 0 false true.

Lemma start_inv1 st bufs : simulates cap (Config st PIdle CIdle) (Fifo [] None) -> ub_head st = 0 -> ub_tail st = 0 ->
  length bufs = 2%nat -> Forall (fun b => Z.of_nat (length b) = INGEST_SLOT_ELEMS) bufs ->
  inv1 (ingest_core1_init (Config st PIdle CIdle) bufs) [].
Proof.
  intros Hs Eh Et Hl Hb. exists (fun _ => block_zero), [], None.
  destruct (queue_created 4) as [Hq1 Hq2]. split; [|split; [done|]].
  - constructor; cbn; try done.
    + unfold feed_ok; cbn. repeat split; lia.
    + by rewrite length_map.
    + intros i Hi. unfold kinds; cbn. unfold get_slot; cbn. rewrite nth_lookup.
      destruct (lookup_lt_is_Some_2 bufs i ltac:(lia)) as [b Eb]. rewrite list_lookup_fmap, Eb. unfold slot_ok; cbn.
      split; [exact (Forall_lookup_1 _ _ _ _ Hb Eb)|]. by rewrite sem_give_given, sem_created.
  - intros _ _. constructor; cbn; try done. unfold paired; cbn. by rewrite Eh, Et.
Qed.

(** ** Progress *)

(** Steps left in the feed task's iteration, and for the ingest task's work:
    three steps a tile and six a message. *)
Definition feed_rank (pc : feed_pc) : Z :=
  match pc with
  | FAcquire => 12 | FRawDone _ => 11 | FReclaim _ => 10 | FRead _ => 9 | FDispatch _ _ _ => 8 | FTake _ => 7 | FFeed _ _ => 6
  | FRelease _ => 5 | FTakeIdle _ => 8 | FFeedIdle _ _ => 7 | FReleaseIdle _ => 6 | FReleaseSlot _ => 5 | FWaitData => 4
  | FTop => 3 | FStopped => 0
  end.

Definition tiles (y : Z) : Z := cdiv y 1024.
Definition msg_work (m : dispatch_msg) : Z := 3 * tiles (n_in_complex m) + 6.
Definition pc_work (pc : ingest_pc) : Z :=
  match pc with
  | IIdle => 0
  | IAgc m => 3 * tiles (n_in_complex m) + 5
  | ITile m done => 3 * tiles (n_in_complex m - done) + 4
  | IGive m done _ => 3 * tiles (n_in_complex m - done) + 3
  | ICopy m done _ => 3 * tiles (n_in_complex m - done) + 2
  | IGiveNone _ => 3
  | IPublish _ => 2
  | IReady _ => 1
  end.
Definition queue_work (l : list dispatch_msg) : Z := foldr (fun m w => msg_work m + w) 0 l.
Definition work s : Z := pc_work (ig_pc (sy_ingest s)) + queue_work (queue_items (sy_queue s)).
Definition rank s : Z := 40 * feed_rank (fd_pc (sy_feed s)) + work s.

Lemma tiles_pos (y : Z) : 0 < y -> 1 <= tiles y.
Proof. intros Hx. unfold tiles, cdiv. apply Z.div_le_lower_bound; lia. Qed.

Lemma tiles_le (y : Z) : 0 <= y <= 8192 -> 0 <= tiles y <= 8.
Proof.
  intros Hx. unfold tiles, cdiv. split; [apply Z.div_pos; lia|]. apply Z.lt_succ_r, Z.div_lt_upper_bound; lia.
Qed.

Lemma tiles_next (y : Z) : tiles (y - 1024) = tiles y - 1.
Proof. apply cdiv_step. lia. Qed.

Lemma queue_work_app l1 l2 : queue_work (l1 ++ l2) = queue_work l1 + queue_work l2.
Proof. unfold queue_work. induction l1 as [|m l1 IH]; [done|]. rewrite <- app_comm_cons. cbn [foldr]. rewrite IH. lia. Qed.

Lemma ingest_step_rank s s' bk q pd : inv0 cap s bk q pd -> ingest_step s = Some s' -> work s' < work s /\ sy_feed s' = sy_feed s.
Proof.
  intros I E. destruct (ingest_step_inv s s' bk q pd I E) as (_ & _ & _ & _ & _ & Ef). split; [|done].
  unfold ingest_step in E. unfold work. destruct (ig_pc (sy_ingest s)) as [|m|m d|m d t|m d t|m|m|m] eqn:Epc.
  - destruct (queue_receive (sy_queue s)) as [[m q2]|] eqn:Er; [|done]. injection E as <-.
    destruct (queue_items (sy_queue s)) as [|m0 l] eqn:Eq; [by rewrite queue_receive_empty in Er by done|].
    destruct (queue_receive_first _ _ _ Eq) as (q3 & Er3 & Eq3 & _). rewrite Er in Er3. injection Er3 as <- <-.
    unfold queue_work. cbn [ingest_at set_ingest set_queue set_slot sy_ingest sy_queue ig_pc pc_work]. rewrite Eq3. cbn [foldr]. unfold msg_work. lia.
  - injection E as <-. unfold agc_scan. cbn [ingest_at set_ingest set_queue set_slot sy_ingest sy_queue ig_pc pc_work]. rewrite Z.sub_0_r. lia.
  - injection E as <-. unfold convert_tile. destruct (Z.ltb_spec d (n_in_complex m)); cbn [ingest_at set_ingest set_queue set_slot sy_ingest sy_queue ig_pc pc_work]; [|pose proof (tiles_le 0 ltac:(lia)) as Ht].
    + destruct (_ <=? _); cbn [ingest_at set_ingest set_queue set_slot sy_ingest sy_queue ig_pc pc_work]; lia.
    + assert (Em : pc_msg (ig_pc (sy_ingest s)) = [m]) by (by rewrite Epc).
      destruct (in_hand s bk q pd m I Em) as (Emsg & _ & _ & Hb & _ & G & _). unfold ingest_ok in G. rewrite Epc in G.
      pose proof (total_range _ Hb). assert (En : n_in_complex m = bk_total (bk (dm_slot m))) by (rewrite Emsg at 1; done).
      destruct G as (G1 & [G2|G2] & _); [lia|]. replace (n_in_complex m - d) with 0 by lia. lia.
  - injection E as <-. cbn [ingest_at set_ingest set_queue set_slot sy_ingest sy_queue ig_pc pc_work]. lia.
  - injection E as <-. assert (Em : pc_msg (ig_pc (sy_ingest s)) = [m]) by (by rewrite Epc).
    destruct (in_hand s bk q pd m I Em) as (Emsg & _ & _ & Hb & _ & G & _). unfold ingest_ok in G. rewrite Epc in G.
    assert (En : n_in_complex m = bk_total (bk (dm_slot m))) by (rewrite Emsg at 1; done).
    destruct G as (G1 & G2 & G3 & _). rewrite <- En in G2, G3. change INGEST_TILE_COMPLEX with 1024 in G3.
    destruct (Z.ltb_spec (d + t) (n_in_complex m)); cbn [ingest_at set_ingest set_queue set_slot sy_ingest sy_queue ig_pc pc_work].
    + replace (n_in_complex m - (d + t)) with (n_in_complex m - d - 1024) by lia. rewrite tiles_next. lia.
    + pose proof (tiles_pos (n_in_complex m - d) ltac:(lia)). lia.
  - injection E as <-. cbn [ingest_at set_ingest set_queue set_slot sy_ingest sy_queue ig_pc pc_work]. lia.
  - injection E as <-. cbn [ingest_at set_ingest set_queue set_slot sy_ingest sy_queue ig_pc pc_work]. lia.
  - injection E as <-. cbn [ingest_at set_ingest set_queue set_slot sy_ingest sy_queue ig_pc pc_work]. lia.
Qed.

Lemma feed_step_rank s s' bk q pd stop fault shed e : inv0 cap s bk q pd -> fd_pc (sy_feed s) <> FTop ->
  feed_step stop fault shed s = Some (s', e) -> rank s' < rank s.
Proof.
  intros I Ht E. unfold feed_step in E. unfold rank, work. destruct (fd_pc (sy_feed s)) as [| |i|i|i|i off n|i|i n|i|i|i n|i|i| |] eqn:Epc; try done.
  - unfold ingest_core1_acquire_slot in E. destruct (sem_take _); [|done]. injection E as <- <-.
    destruct (fd_prev (sy_feed s)); cbn; lia.
  - destruct (fd_prev (sy_feed s)); [|done]. unfold ingest_core1_wait_raw_done in E. destruct (sem_take _); [|done]. injection E as <- <-. cbn. lia.
  - destruct (fd_prev (sy_feed s)); [|done]. unfold reclaim_span in E. injection E as <- <-. cbn. lia.
  - destruct (read_span s) as [[s1 [off n]]|] eqn:Er; injection E as <- <-.
    + unfold read_span in Er. destruct (usbring_peek _) as [o c]. destruct (esp_libusb_read_stream _ _) as [[o2 n2]|]; [|done].
      injection Er as <- <- <-. cbn. lia.
    + destruct (fd_prev (sy_feed s)); cbn; lia.
  - destruct (ingest_core1_dispatch fault s i off n) as [s1 e1] eqn:Ed. injection E as <- <-.
    destruct (dispatch_case s bk q pd i off n fault s1 e1 I Epc Ed) as (lost & _ & _ & _ & Ei & _ & _ & Eq & _).
    pose proof (i_span _ _ _ _ _ I) as Sp. unfold span_ok, span_slot in Sp. rewrite Epc in Sp.
    assert (Hn : 0 < n <= out_block_size) by (destruct (fd_prev (sy_feed s)); destruct Sp as (c & _ & Hn & Hnb); lia).
    change out_block_size with 16384 in Hn. pose proof (Z.div_pos n 2 ltac:(lia) ltac:(lia)). pose proof (Z.div_le_mono n 16384 2 ltac:(lia) ltac:(lia)) as Hd.
    change (16384 / 2) with 8192 in Hd. pose proof (tiles_le (n / 2) ltac:(lia)) as Htl.
    assert (Hq : queue_work (if lost then [] else [Msg i off n]) <= 30) by (destruct lost; cbn; unfold msg_work, n_in_complex; cbn; lia).
    destruct (fd_prev (sy_feed s)) as [p|]; cbn; rewrite Ei, Eq, queue_work_app; lia.
  - destruct (fd_prev (sy_feed s)); [|done]. unfold ingest_core1_take_converted in E. destruct fault; [done|]. destruct (sem_take _); [|done]. injection E as <- <-. cbn. lia.
  - destruct (fd_prev (sy_feed s)); [|done]. injection E as <- <-. cbn. lia.
  - destruct (fd_prev (sy_feed s)); [|done]. injection E as <- <-. cbn. lia.
  - destruct (fd_prev (sy_feed s)); [|done]. unfold ingest_core1_take_converted in E. destruct fault; [done|]. destruct (sem_take _); [|done]. injection E as <- <-. cbn. lia.
  - destruct (fd_prev (sy_feed s)); [|done]. injection E as <- <-. cbn. lia.
  - destruct (fd_prev (sy_feed s)); [|done]. injection E as <- <-. cbn. lia.
  - injection E as <- <-. cbn. lia.
  - injection E as <- <-. cbn. lia.
Qed.

(** An unfinished block keeps the ingest task busy. *)
Lemma ingest_busy s bk q pd i raw ready : inv0 cap s bk q pd -> (i < 2)%nat -> kinds (sy_feed s) i = KBusy raw ready -> bk_done (bk i) = false ->
  exists s', ingest_step s = Some s'.
Proof.
  intros I Hi Ek Hd. unfold ingest_step. destruct (ig_pc (sy_ingest s)) eqn:Epc; try by eexists.
  assert (Hin : In (bk_msg i (bk i)) (queue_items (sy_queue s))).
  { pose proof (i_work _ _ _ _ _ I) as Hw. rewrite Epc in Hw. cbn in Hw. rewrite Hw. apply in_flat_map. exists i. split.
    - apply (order_in _ i raw ready); [done| |done]. intros p Ep. pose proof (i_feed _ _ _ _ _ I) as (_ & _ & _ & Hp & _). by rewrite Ep in Hp.
    - unfold pending. rewrite Hd. by left. }
  destruct (queue_items (sy_queue s)) as [|m l] eqn:Eq; [done|]. destruct (queue_receive_first _ _ _ Eq) as (q2 & -> & _). by eexists.
Qed.

Lemma take_given (v : Sem) : sem_given v = true -> exists v', sem_take v = Some v'.
Proof. intros G. destruct (sem_take_takes v G) as (v' & E & _). by exists v'. Qed.

Lemma worker_enabled s bk q pd : inv0 cap s bk q pd -> fd_pc (sy_feed s) <> FStopped ->
  (exists s' e, feed_step false false false s = Some (s', e)) \/ exists s', ingest_step s = Some s'.
Proof.
  intros I Hst. unfold feed_step. pose proof (i_feed _ _ _ _ _ I) as Hf. pose proof Hf as (Hn & _ & Hpv & _).
  destruct (fd_pc (sy_feed s)) as [| |i|i|i|i off n|i|i n|i|i|i n|i|i| |] eqn:Epc; try done; cbn in Hpv.
  - left. by do 2 eexists.
  - left. unfold ingest_core1_acquire_slot.
    destruct (take_given _ (slot_free s bk q pd (sy_next s) I Hn (next_free _ _ Hf Epc))) as (v & ->). by do 2 eexists.
  - destruct (fd_prev (sy_feed s)) as [p|] eqn:Ep; [|done]. destruct (prev_slot s bk q pd p I Ep) as [Hp So]. rewrite Epc in So.
    destruct So as (_ & _ & _ & _ & W & _). unfold ingest_core1_wait_raw_done.
    destruct (raw_given (ig_pc (sy_ingest s)) p (bk p)) eqn:Eg.
    + left. destruct (take_given _ W) as (v & ->). by do 2 eexists.
    + right. unfold raw_given in Eg. apply orb_false_iff in Eg as [Ed _].
      apply (ingest_busy s bk q pd p false false I Hp); [|done]. unfold kinds. rewrite Ep, Epc, decide_True by done. done.
  - destruct (fd_prev (sy_feed s)) as [p|]; [|done]. left. destruct (reclaim_span s _) as [s1 e1]. by do 2 eexists.
  - left. destruct (read_span s) as [[s1 [off n]]|]; by do 2 eexists.
  - left. destruct (ingest_core1_dispatch false s i off n) as [s1 e1]. by do 2 eexists.
  - destruct (fd_prev (sy_feed s)) as [p|] eqn:Ep; [|done]. destruct (prev_slot s bk q pd p I Ep) as [Hp So]. rewrite Epc in So.
    destruct So as (_ & _ & R & _). unfold ingest_core1_take_converted. destruct (bk_done (bk p)) eqn:Ed.
    + left. destruct (take_given _ R) as (v & ->). by do 2 eexists.
    + right. apply (ingest_busy s bk q pd p true false I Hp); [|done]. unfold kinds. rewrite Ep, Epc, decide_True by done. done.
  - destruct (fd_prev (sy_feed s)) as [p|]; [|done]. left. by do 2 eexists.
  - destruct (fd_prev (sy_feed s)) as [p|]; [|done]. left. by do 2 eexists.
  - destruct (fd_prev (sy_feed s)) as [p|] eqn:Ep; [|done]. destruct (prev_slot s bk q pd p I Ep) as [Hp So]. rewrite Epc in So.
    destruct So as (_ & _ & R & _). unfold ingest_core1_take_converted. destruct (bk_done (bk p)) eqn:Ed.
    + left. destruct (take_given _ R) as (v & ->). by do 2 eexists.
    + right. apply (ingest_busy s bk q pd p true false I Hp); [|done]. unfold kinds. rewrite Ep, Epc, decide_True by done. done.
  - destruct (fd_prev (sy_feed s)) as [p|]; [|done]. left. by do 2 eexists.
  - destruct (fd_prev (sy_feed s)) as [p|]; [|done]. left. by do 2 eexists.
  - left. by do 2 eexists.
  - left. by do 2 eexists.
Qed.

(** A stretch of one iteration: any steps of the three tasks, [n] of them by
    the feed and ingest tasks, in which the feed task does not pass the top of
    its loop. *)
Inductive stretch : sys -> nat -> sys -> Prop :=
  | stretch_nil s : stretch s 0 s
  | stretch_producer s1 n s2 e s3 : stretch s1 n s2 -> sys_step Producer s2 e s3 -> stretch s1 n s3
  | stretch_feed s1 n s2 e s3 : stretch s1 n s2 -> fd_pc (sy_feed s2) <> FTop -> sys_step FeedTask s2 e s3 -> stretch s1 (Datatypes.S n) s3
  | stretch_ingest s1 n s2 e s3 : stretch s1 n s2 -> sys_step IngestTask s2 e s3 -> stretch s1 (Datatypes.S n) s3.

Definition reached s : Prop := exists bk q pd, inv0 cap s bk q pd.

Lemma stretch_rank s n s' : stretch s n s' -> reached s -> reached s' /\ rank s' + Z.of_nat n <= rank s.
Proof.
  intros H Hr. induction H as [s|s1 n s2 e s3 H IH St|s1 n s2 e s3 H IH Ht St|s1 n s2 e s3 H IH St]; [split; [done|lia]| | |];
    destruct (IH Hr) as ((bk & q & pd & I) & Hle).
  - inversion St as [s u e' Hs Ec E1 E2 E3| |]; subst. destruct (producer_inv s2 u e' bk q pd I Hs Ec) as (d & pd' & I' & _).
    split; [by exists bk, (q ++ d), pd'|]. exact Hle.
  - inversion St as [|s s' stop fault shed e' Hs|]; subst. destruct (feed_step_inv s2 s3 bk q pd stop fault shed e I Hs) as (bk' & q' & F).
    pose proof (feed_step_rank s2 s3 bk q pd stop fault shed e I Ht Hs). split; [exists bk', q', pd; apply F|lia].
  - inversion St as [| |s s' Hs]; subst. destruct (ingest_step_inv s2 s3 bk q pd I Hs) as (bk' & I' & _).
    destruct (ingest_step_rank s2 s3 bk q pd I Hs) as [Hw Ef]. split; [by exists bk', q, pd|]. unfold rank in *. rewrite Ef. lia.
Qed.

Lemma pending_work s bk q pd i raw ready : inv0 cap s bk q pd -> (i < 2)%nat -> kinds (sy_feed s) i = KBusy raw ready ->
  (length (pending bk i) <= 1)%nat /\ forall m, In m (pending bk i) -> 0 <= tiles (n_in_complex m) <= 8.
Proof.
  intros I Hi Ek. pose proof (i_slots _ _ _ _ _ I i Hi) as So. rewrite Ek in So. destruct So as (_ & _ & _ & _ & _ & _ & B & _).
  unfold pending. destruct (bk_done (bk i)); cbn; (split; [lia|]); [done|]. intros m [<-|[]].
  pose proof (total_range _ B). apply tiles_le. rewrite n_in_complex_msg. lia.
Qed.

Lemma rank_bound s bk q pd : inv0 cap s bk q pd -> rank s <= 540.
Proof.
  intros I. unfold rank, work.
  assert (Hf : feed_rank (fd_pc (sy_feed s)) <= 12) by (destruct (fd_pc (sy_feed s)); cbn; lia).
  assert (Hall : (length (pc_msg (ig_pc (sy_ingest s)) ++ queue_items (sy_queue s)) <= 2)%nat /\
    forall m, In m (pc_msg (ig_pc (sy_ingest s)) ++ queue_items (sy_queue s)) -> 0 <= tiles (n_in_complex m) <= 8).
  { rewrite (i_work _ _ _ _ _ I). pose proof (i_feed _ _ _ _ _ I) as Hfo.
    assert (Hp : forall i, In i (order (sy_feed s)) -> (length (pending bk i) <= 1)%nat /\ forall m, In m (pending bk i) -> 0 <= tiles (n_in_complex m) <= 8).
    { intros i Hi. destruct (in_order _ _ _ Hfo Hi) as (H2 & raw & ready & Ek). apply (pending_work s bk q pd i raw ready I H2 Ek). }
    split.
    - revert Hp. unfold order. destruct (fd_prev (sy_feed s)) as [p|]; [|cbn; lia]. intros Hp.
      pose proof (proj1 (Hp p (or_introl eq_refl))). destruct (newer_kind (fd_pc (sy_feed s))); cbn; rewrite ?app_nil_r, ?length_app; try lia.
      pose proof (proj1 (Hp (other p) (or_intror (or_introl eq_refl)))). lia.
    - intros m Hm. apply in_flat_map in Hm as (i & Hi & Hm). by apply (Hp i Hi). }
  destruct Hall as [Hlen Hall]. assert (Hq : forall l, (forall m, In m l -> 0 <= tiles (n_in_complex m) <= 8) -> queue_work l <= 30 * Z.of_nat (length l)).
  { unfold queue_work. induction l as [|m l IH]; intros Hm; [done|]. cbn [foldr length]. unfold msg_work at 1.
    pose proof (Hm m (or_introl eq_refl)). specialize (IH (fun y Hy => Hm y (or_intror Hy))). lia. }
  rewrite length_app in Hlen. pose proof (Hq (queue_items (sy_queue s)) (fun m Hm => Hall m (in_or_app _ _ _ (or_intror Hm)))) as Hqw.
  enough (pc_work (ig_pc (sy_ingest s)) <= 30 * Z.of_nat (length (pc_msg (ig_pc (sy_ingest s))))) by lia.
  assert (Hm : forall m, In m (pc_msg (ig_pc (sy_ingest s))) -> 0 <= tiles (n_in_complex m) <= 8) by (intros m Hm; apply Hall, in_or_app; by left).
  assert (Hmono : forall m d, 0 <= d -> tiles (n_in_complex m - d) <= tiles (n_in_complex m)).
  { intros m d Hd. unfold tiles, cdiv. apply Z.div_le_mono; lia. }
  assert (Hd : forall m, In m (pc_msg (ig_pc (sy_ingest s))) -> match ig_pc (sy_ingest s) with ITile _ d | IGive _ d _ | ICopy _ d _ => 0 <= d | _ => True end).
  { intros m Hin. pose proof (i_ingest _ _ _ _ _ I m Hin) as G. unfold ingest_ok in G. destruct (ig_pc (sy_ingest s)); try done; apply G. }
  destruct (ig_pc (sy_ingest s)) as [|m|m d|m d t|m d t|m|m|m]; cbn [pc_work pc_msg length] in *; try lia;
    pose proof (Hm m (or_introl eq_refl)); try pose proof (Hmono m d (Hd m (or_introl eq_refl))); lia.
Qed.

Lemma rank_nonneg s bk q pd : inv0 cap s bk q pd -> 0 <= rank s.
Proof.
  intros I. unfold rank, work.
  assert (H1 : 0 <= feed_rank (fd_pc (sy_feed s))) by (destruct (fd_pc (sy_feed s)); cbn; lia).
  assert (Ht : forall y, 0 <= y -> 0 <= tiles y) by (intros y Hy; by apply cdiv_nonneg).
  assert (H2 : forall m, In m (pc_msg (ig_pc (sy_ingest s)) ++ queue_items (sy_queue s)) -> 0 <= n_in_complex m).
  { intros m Hm. rewrite (i_work _ _ _ _ _ I) in Hm. apply in_flat_map in Hm as (i & Hi & Hm). unfold pending in Hm.
    destruct (bk_done (bk i)); [done|]. destruct Hm as [<-|[]]. unfold n_in_complex; cbn. apply Z.div_pos; unfold bk_len; lia. }
  assert (Hq : forall l, (forall m, In m l -> 0 <= n_in_complex m) -> 0 <= queue_work l).
  { unfold queue_work. induction l as [|m l IH]; intros Hm; [done|]. cbn [foldr]. unfold msg_work at 1.
    pose proof (Ht _ (Hm m (or_introl eq_refl))). specialize (IH (fun y Hy => Hm y (or_intror Hy))). lia. }
  pose proof (Hq (queue_items (sy_queue s)) (fun m Hm => H2 m (in_or_app _ _ _ (or_intror Hm)))).
  enough (0 <= pc_work (ig_pc (sy_ingest s))) by lia.
  pose proof (fun m Hm => i_ingest _ _ _ _ _ I m Hm) as G. pose proof (fun m => current s bk q pd m I) as Cu. unfold ingest_ok in G.
  destruct (ig_pc (sy_ingest s)) as [|m|m d|m d t|m d t|m|m|m]; cbn [pc_work pc_msg app] in *; try lia;
    pose proof (Ht _ (H2 m (or_introl eq_refl))); try lia; specialize (G m (or_introl eq_refl)); destruct (Cu m (or_introl eq_refl)) as (Em & _);
    assert (En : n_in_complex m = bk_total (bk (dm_slot m))) by (rewrite Em at 1; done); rewrite <- En in G.
  - pose proof (H2 m (or_introl eq_refl)). pose proof (Ht (n_in_complex m - d) ltac:(lia)). lia.
  - pose proof (Ht (n_in_complex m - d) ltac:(lia)). lia.
  - pose proof (Ht (n_in_complex m - d) ltac:(lia)). lia.
Qed.

Lemma convert_octet_eq b : is_byte b -> convert_octet b = 256 * (b - 128).
Proof.
  intros Hb. unfold is_u in Hb. change (2 ^ 8) with 256 in Hb.
  assert (Hall : forallb (fun b => convert_octet b =? 256 * (b - 128)) (map Z.of_nat (seq 0 256)) = true) by (vm_compute; reflexivity).
  rewrite forallb_forall in Hall. apply Z.eqb_eq, Hall. apply in_map_iff. exists (Z.to_nat b). split; [lia|]. apply in_seq. lia.
Qed.
End proofs.

(** ** The properties *)

Section claims.
Context {Sem Que : Type} `{Hsem : BinarySemaphore Sem} `{Hque : MessageQueue Que dispatch_msg}.
Context (alloc : Z -> option (list Z)) (st0 : usbring) (capacity : Z) (st : usbring) (bufs : list (list Z)).
Hypothesis Hcapacity : is_u 32 capacity.
Hypothesis Halloc : forall buf, alloc capacity = Some buf -> Z.of_nat (length buf) = capacity.
Hypothesis Hinit : usbring_init alloc st0 capacity = (st, ESP_OK).
Hypothesis Hbufs : length bufs = 2%nat /\ Forall (fun b => Z.of_nat (length b) = INGEST_SLOT_ELEMS) bufs.

Lemma pipeline_reached tr (s : @sys Sem Que) : sys_run (ingest_core1_init (Config st PIdle CIdle) bufs) tr s ->
  exists k, 0 <= k <= 31 /\ capacity = 2 ^ k /\ inv1 capacity s tr.
Proof.
  intros H. destruct (init_simulates _ _ _ _ Hcapacity Halloc Hinit) as (k & Hk & Ek & Hs). exists k. split; [done|split; [done|]].
  assert (Hst : ub_head st = 0 /\ ub_tail st = 0).
  { unfold usbring_init in Hinit. destruct (usbring_is_pow2_capacity _); [|done]. cbn in Hinit. by destruct (alloc capacity); [injection Hinit as <-|]. }
  apply (run_inv1 capacity k Hk Ek _ _ _ H). apply (start_inv1 capacity k Hk st bufs Hs); [apply Hst|apply Hst|apply Hbufs|apply Hbufs].
Qed.

(** The capture's flag decides which. *)
Lemma feed_step_event stop fault shed (s s' : @sys Sem Que) e : feed_step stop fault shed s = Some (s', Some e) ->
  match e with EFed _ => shed = false | EShed _ => shed = true | _ => True end.
Proof.
  intros E. unfold feed_step, hand_over, reclaim_span, ingest_core1_dispatch in E.
  repeat (case_match; simplify_eq/=; try done).
Qed.

Lemma fed_emerged tr : no_shed tr = true -> fed tr = emerged tr.
Proof.
  induction tr as [|e tr IH]; [done|]. unfold no_shed, fed, emerged in *. cbn. intros H. apply andb_true_iff in H as [H1 H2].
  destruct e; try done; cbn; by rewrite IH.
Qed.

(** C5: the stream comes through whole and in order.  Whatever the interleaving
    of the USB producer, the feed task and the ingest task, if every write has
    an even length and no dispatch was refused, the blocks that reach the end of
    the pipeline - given to the DSP, or passed over during a continuous capture
    - are together the octets written, each [b] as [256 * (b - 128)], from the
    first on, nothing skipped, repeated or reordered; so if no block was passed
    over that is what the DSP was given.  What is missing at the end is at most
    one block of 16 KiB and what the ring still holds.  A block is given to the
    DSP exactly where no capture runs, and a dispatch is refused only by an
    injected fault, never because the queue is full. *)
Theorem feed_pipeline_in_order tr (s : @sys Sem Que) : 2 <= capacity ->
  sys_run (ingest_core1_init (Config st PIdle CIdle) bufs) tr s ->
  even_writes tr = true -> no_loss tr = true -> Forall is_byte (written (usb_events tr)) ->
  (exists rest, map (fun b => 256 * (b - 128)) (written (usb_events tr)) = emerged tr ++ rest /\
     Z.of_nat (length rest) <= out_block_size + fst (usbring_get_info (cf_ring (sy_usb s)))) /\
  (no_shed tr = true -> fed tr = emerged tr) /\
  forall stop fault shed s' e, feed_step stop fault shed s = Some (s', Some e) ->
    match e with EFed _ => shed = false | EShed _ => shed = true | ELost => fault = true | EUsb _ => True end.
Proof.
  intros Hc2 H He Hn Hb. destruct (pipeline_reached tr s H) as (k & Hk & Ek & bk & q & pd & I & Hq & B). split; [|split; [apply fed_emerged|]].
  - specialize (B Hc2 He). exists (map convert_octet (unfed (sy_feed s) bk ++ q)). split.
    + rewrite map_app, app_assoc, <- (b_fed _ _ _ B Hn), <- map_app, <- Hq. apply map_ext_in. intros b Hin. symmetry. apply (convert_octet_eq k Hk).
      rewrite List.Forall_forall in Hb. by apply Hb.
    + destruct (i_usb _ _ _ _ _ I) as (buf & S & _ & _). unfold usbring_get_info. rewrite (st_buf _ _ _ _ S), (st_used _ _ _ _ S). cbn [fst q_bytes].
      rewrite length_map, length_app. enough (Z.of_nat (length (unfed (sy_feed s) bk)) <= out_block_size) by lia.
      unfold unfed. destruct (fd_prev (sy_feed s)) as [p|] eqn:Ep; [|done]. destruct (prev_slot capacity s bk q pd p I Ep) as [_ So].
      destruct So as (_ & _ & _ & _ & _ & _ & Bn & _). unfold bk_len in Bn. destruct (fd_pc (sy_feed s)); try done; lia.
  - intros stop fault shed s' e Hs. destruct (feed_step_inv capacity k Hk Ek s s' bk q pd stop fault shed _ I Hs) as (bk' & q' & F).
    pose proof (feed_step_event _ _ _ _ _ _ Hs) as Hev. destruct e; try done. exact (fe_lost _ _ _ _ _ _ _ _ _ _ F eq_refl).
Qed.

(** C40: the feed loop cannot deadlock.  In any reachable state, whatever
    faults were injected before, unless the feed task has stopped, it or the
    ingest task can move; and wherever an iteration has got to, at most 540
    more steps of the two, in any order and mixed with any number of the
    producer's, bring the feed task back to the top of its loop. *)
Theorem feed_iteration_completes tr (s : @sys Sem Que) n s' : sys_run (ingest_core1_init (Config st PIdle CIdle) bufs) tr s ->
  stretch s n s' ->
  (n <= 540)%nat /\
  (fd_pc (sy_feed s') = FStopped \/ exists t e s2, (t = FeedTask \/ t = IngestTask) /\ sys_step t s' e s2).
Proof.
  intros H Hst. destruct (pipeline_reached tr s H) as (k & Hk & Ek & bk & q & pd & I & _).
  destruct (stretch_rank capacity k Hk Ek s n s' Hst (ex_intro _ bk (ex_intro _ q (ex_intro _ pd I)))) as ((bk' & q' & pd' & I') & Hle).
  split.
  - pose proof (rank_bound capacity k Hk s bk q pd I) as Hr.
    pose proof (rank_nonneg capacity k Hk s' bk' q' pd' I'). lia.
  - assert (Hd : fd_pc (sy_feed s') = FStopped \/ fd_pc (sy_feed s') <> FStopped) by (destruct (fd_pc (sy_feed s')); (by left) || by right).
    destruct Hd as [|Hne]; [by left|right].
    destruct (worker_enabled capacity k Hk s' bk' q' pd' I' Hne) as [(s2 & e & E)|(s2 & E)].
    + exists FeedTask, e, s2. split; [by left|]. by apply (sys_feed _ _ false false false).
    + exists IngestTask, None, s2. split; [by right|]. by constructor.
Qed.
End claims.

(** ** Schedules, and the witnesses *)

#[local] Instance bool_semaphore : BinarySemaphore bool.
Proof.
  refine {| sem_create := false; sem_give := fun _ => true; sem_take := fun b => if b then Some false else None; sem_given := fun b => b |}; try done.
  - by intros s ->.
  - intros s ->. by exists false.
Defined.

Inductive sys_move := UsbMove (m : move) | FeedMove (stop fault shed : bool) | IngestMove.

Section schedules.
Context {Sem Que : Type} `{Hsem : BinarySemaphore Sem} `{Hque : MessageQueue Que dispatch_msg}.
Implicit Types (s : @sys Sem Que).

Definition sys_exec1 s (m : sys_move) : option (sys * option sys_event) :=
  match m with
  | UsbMove (MBegin d) =>
      match exec1 (sy_usb s) (MBegin d) with Some (u, e) => Some (set_usb s u, option_map EUsb e) | None => None end
  | UsbMove MProducer =>
      match exec1 (sy_usb s) MProducer with Some (u, e) => Some (set_usb s u, option_map EUsb e) | None => None end
  | UsbMove _ => None
  | FeedMove stop fault shed => feed_step stop fault shed s
  | IngestMove => match ingest_step s with Some s => Some (s, None) | None => None end
  end.

Fixpoint sys_exec s (tr : list sys_event) (ms : list sys_move) : option (sys * list sys_event) :=
  match ms with
  | [] => Some (s, tr)
  | m :: ms =>
    match sys_exec1 s m with
    | Some (s', Some e) => sys_exec s' (tr ++ [e]) ms
    | Some (s', None) => sys_exec s' tr ms
    | None => None
    end
  end.

Lemma exec1_cons cf m cf' e : exec1 cf m = Some (cf', e) -> match m with MBegin _ | MProducer => True | _ => False end -> cf_cons cf' = cf_cons cf.
Proof.
  destruct cf as [u p c]. intros E Hm. unfold exec1 in E; cbn in E. destruct m as [d| | |]; try done.
  - destruct p; try done. destruct (ub_buf u); [|done]. destruct d; [done|]. by injection E as <- _.
  - destruct p; try done; (destruct (ub_buf u); [|done]); [destruct (_ <? _)| |]; by injection E as <- _.
Qed.

Lemma sys_exec1_step s m s' e : sys_exec1 s m = Some (s', e) -> exists t, sys_step t s e s'.
Proof.
  intros E. destruct m as [[d| | |]|stop fault shed|]; try done; cbn [sys_exec1] in E.
  - destruct (exec1 (sy_usb s) (MBegin d)) as [[u e1]|] eqn:Eu; [|done]. injection E as <- <-. exists Producer.
    constructor; [by apply exec1_step in Eu|by apply exec1_cons in Eu].
  - destruct (exec1 (sy_usb s) MProducer) as [[u e1]|] eqn:Eu; [|done]. injection E as <- <-. exists Producer.
    constructor; [by apply exec1_step in Eu|by apply exec1_cons in Eu].
  - exists FeedTask. by apply (sys_feed _ _ stop fault shed).
  - destruct (ingest_step s) as [s2|] eqn:Ei; [|done]. injection E as <- <-. exists IngestTask. by constructor.
Qed.

Lemma sys_exec_run s0 s tr ms s' tr' : sys_run s0 tr s -> sys_exec s tr ms = Some (s', tr') -> sys_run s0 tr' s'.
Proof.
  revert s tr. induction ms as [|m ms IH]; intros s tr Hr E; cbn [sys_exec] in E; [by injection E as <- <-|].
  destruct (sys_exec1 s m) as [[s2 e]|] eqn:E1; [|done]. destruct (sys_exec1_step _ _ _ _ E1) as [t St].
  destruct e as [e|]; apply (IH _ _) in E; try done; [by eapply sys_snoc|by eapply sys_tau].
Qed.
End schedules.

(** Six octets written, read in one block, converted and fed while two more
    are written. *)
Definition pipe_bufs : list (list Z) := [repeat 0 (Z.to_nat INGEST_SLOT_ELEMS); repeat 0 (Z.to_nat INGEST_SLOT_ELEMS)].
Definition pipe_start : @sys bool (nat * list dispatch_msg) := ingest_core1_init (Config demo_start PIdle CIdle) pipe_bufs.
Definition feed_moves (n : nat) : list sys_move := repeat (FeedMove false false false) n.
Definition pipe_moves : list sys_move :=
  map UsbMove [MBegin [0;255;128;127;1;2]; MProducer; MProducer; MProducer] ++
  feed_moves 4 ++ repeat IngestMove 7 ++ map UsbMove [MBegin [9;9]; MProducer] ++ feed_moves 2 ++ feed_moves 5 ++ feed_moves 2.
Definition pipe_end : @sys bool (nat * list dispatch_msg) * list sys_event :=
  from_option id (pipe_start, []) (sys_exec pipe_start [] pipe_moves).

(** The state after the first step of the feed task, and after the next. *)
Definition pipe_mid (n : nat) : @sys bool (nat * list dispatch_msg) * list sys_event :=
  from_option id (pipe_start, []) (sys_exec pipe_start [] (take n pipe_moves)).

Lemma pipe_mid_run : sys_run pipe_start (snd (pipe_mid 5)) (fst (pipe_mid 5)).
Proof.
  apply (sys_exec_run _ pipe_start [] (take 5 pipe_moves)); [apply sys_nil|]. unfold pipe_mid.
  assert (E : match sys_exec pipe_start [] (take 5 pipe_moves) with Some _ => true | None => false end = true) by (vm_compute; reflexivity).
  destruct (sys_exec pipe_start [] (take 5 pipe_moves)) as [[s tr]|]; [done|discriminate E].
Qed.

(** The next step leaves the loop running. *)
Lemma pipe_mid_step : exists s2 e, feed_step false false false (fst (pipe_mid 5)) = Some (s2, e) /\
  fd_pc (sy_feed (fst (pipe_mid 5))) <> FTop /\ fd_pc (sy_feed s2) <> FStopped.
Proof.
  assert (E : match fd_pc (sy_feed (fst (pipe_mid 5))), feed_step false false false (fst (pipe_mid 5)) with
              | FTop, _ | _, None => false
              | _, Some (s2, _) => match fd_pc (sy_feed s2) with FStopped => false | _ => true end
              end = true) by (vm_compute; reflexivity).
  destruct (feed_step false false false (fst (pipe_mid 5))) as [[s2 e]|].
  - exists s2, e. split; [reflexivity|]. split; intros E2; rewrite E2 in E; [|destruct (fd_pc (sy_feed (fst (pipe_mid 5))))]; discriminate E.
  - destruct (fd_pc (sy_feed (fst (pipe_mid 5)))); discriminate E.
Qed.

Lemma pipe_run : sys_run pipe_start (snd pipe_end) (fst pipe_end).
Proof.
  apply (sys_exec_run _ pipe_start [] pipe_moves); [apply sys_nil|]. unfold pipe_end.
  assert (E : match sys_exec pipe_start [] pipe_moves with Some _ => true | None => false end = true) by (vm_compute; reflexivity).
  destruct (sys_exec pipe_start [] pipe_moves) as [[s tr]|]; [done|discriminate E].
Qed.

Lemma buf_length : Z.of_nat (length (repeat 0 (Z.to_nat INGEST_SLOT_ELEMS))) = INGEST_SLOT_ELEMS.
Proof. rewrite repeat_length. apply Z2Nat.id. apply Z.leb_le. reflexivity. Qed.

Lemma pipe_bufs_ok : length pipe_bufs = 2%nat /\ Forall (fun b => Z.of_nat (length b) = INGEST_SLOT_ELEMS) pipe_bufs.
Proof. split; [reflexivity|]. exact (Forall_cons_2 _ _ _ buf_length (Forall_cons_2 _ _ _ buf_length (Forall_nil_2 _))). Qed.

Lemma pipe_trace : snd pipe_end =
  [EUsb (EBegin [0;255;128;127;1;2]); EUsb (EWrote [0;255;128;127;1;2]); EUsb (EBegin [9;9]); EUsb (ERead [0;255;128;127;1;2]);
   EFed [-32768; 32512; 0; -256; -32512; -32256]].
Proof. vm_compute. reflexivity. Qed.

Lemma feed_pipeline_in_order_witness : exists rest,
  map (fun b => 256 * (b - 128)) (written (usb_events (snd pipe_end))) = emerged (snd pipe_end) ++ rest /\
  fed (snd pipe_end) = emerged (snd pipe_end) /\ fed (snd pipe_end) = [-32768; 32512; 0; -256; -32512; -32256].
Proof.
  destruct (feed_pipeline_in_order demo_alloc (UsbRing None 0 0 0 false 0) 8 demo_start pipe_bufs ltac:(by vm_compute)
              demo_alloc_length eq_refl pipe_bufs_ok (snd pipe_end) (fst pipe_end) ltac:(lia) pipe_run) as [(rest & H & _) [Hs _]].
  - rewrite pipe_trace. reflexivity.
  - rewrite pipe_trace. reflexivity.
  - rewrite pipe_trace. apply (bool_decide_unpack _). vm_compute. reflexivity.
  - exists rest. split; [exact H|]. split; [|rewrite pipe_trace; reflexivity]. apply Hs. rewrite pipe_trace. reflexivity.
Defined.

Lemma feed_iteration_completes_witness : exists s2, stretch (fst (pipe_mid 5)) 1 s2 /\
  exists t e s3, (t = FeedTask \/ t = IngestTask) /\ sys_step t s2 e s3.
Proof.
  destruct pipe_mid_step as (s2 & e & E & Ht & Hst). exists s2.
  assert (H : stretch (fst (pipe_mid 5)) 1 s2).
  { eapply stretch_feed; [apply stretch_nil|exact Ht|]. exact (sys_feed _ _ false false false _ E). }
  split; [exact H|].
  destruct (feed_iteration_completes demo_alloc (UsbRing None 0 0 0 false 0) 8 demo_start pipe_bufs ltac:(by vm_compute)
              demo_alloc_length eq_refl pipe_bufs_ok (snd (pipe_mid 5)) (fst (pipe_mid 5)) 1 s2 pipe_mid_run H) as [_ [H2|H2]].
  - contradiction (Hst H2).
  - exact H2.
Defined.
