(* ===== verification/FrameLink.v ===== *)
(** The link between a receiver and an aggregator
    (src/p4-usb-host/main/frame_pdu.c, frame_link.c and aggregator_ingest.c).

    A decoded burst becomes a fixed-size PDU, the PDU a wire frame with magic,
    version and CRC; the aggregator validates the frame, unpacks the bits and
    pushes them to its frame decoder as a local worker would.  The octets of
    the float field are carried as its 32-bit pattern.  The PDU queue between
    the tasks is a [MessageQueue]; the SPI driver is not modelled, a task's
    iteration takes the buffer it received and the driver's verdict. *)

From S2P Require Import Prelude Gf2 Bits Crc16 IridiumBch IdaDecode FrameQueue FeedPipeline.

Definition FRAME_PDU_MAX_BITS : Z := 512.
Definition FRAME_PDU_BITS_BYTES : nat := 64.
Definition FRAME_PDU_WIRE_SIZE : Z := 92.
Definition FRAME_LINK_MAGIC : Z := 0x1D5A.
Definition FRAME_LINK_VER : Z := 1.
Definition FRAME_LINK_HDR_BYTES : nat := 4.
Definition FRAME_LINK_FRAME_SIZE : Z := 98.
Definition FRAME_LINK_XFER_SIZE : nat := 128.

Record iridium_frame_pdu := FramePdu {
  pdu_timestamp_us : Z; pdu_source_id : Z; pdu_rel_freq_hz : Z; pdu_peak_snr_db : Z;
  pdu_peak_bin : Z; pdu_n_bits : Z; pdu_direction : Z; pdu_bch_e1 : Z; pdu_bch_e2 : Z;
  pdu_flags : Z; pdu_bits_packed : list Z }.

Definition pdu_zero : iridium_frame_pdu := FramePdu 0 0 0 0 0 0 0 0 0 0 (replicate 64 0).

(** ** Little-endian fields *)

Definition put_u8 (b : list Z) (o : nat) (v : Z) : list Z * nat := (<[o := u8 v]> b, (o + 1)%nat).
Definition put_u16 (b : list Z) (o : nat) (v : Z) : list Z * nat :=
  (<[(o + 1)%nat := u8 (Z.shiftr v 8)]> (<[o := u8 v]> b), (o + 2)%nat).
Definition put_u32 (b : list Z) (o : nat) (v : Z) : list Z * nat :=
  (forN 4 (fun i b => <[(o + i)%nat := u8 (Z.shiftr v (8 * Z.of_nat i))]> b) b, (o + 4)%nat).
Definition put_u64 (b : list Z) (o : nat) (v : Z) : list Z * nat :=
  (forN 8 (fun i b => <[(o + i)%nat := u8 (Z.shiftr v (8 * Z.of_nat i))]> b) b, (o + 8)%nat).

Definition get_u8 (b : list Z) (o : nat) : Z := rd b o.
Definition get_u16 (b : list Z) (o : nat) : Z := u16 (Z.lor (rd b o) (Z.shiftl (rd b (o + 1)) 8)).
Definition get_u32 (b : list Z) (o : nat) : Z :=
  forN 4 (fun i v => Z.lor v (u32 (Z.shiftl (rd b (o + i)) (8 * Z.of_nat i)))) 0.
Definition get_u64 (b : list Z) (o : nat) : Z :=
  forN 8 (fun i v => Z.lor v (u64 (Z.shiftl (rd b (o + i)) (8 * Z.of_nat i)))) 0.

(** ** PDU *)

(** The buffer after the call and the size returned. *)
Definition frame_pdu_pack (pdu : iridium_frame_pdu) (buf : list Z) (buflen : Z) : list Z * Z :=
  if buflen <? FRAME_PDU_WIRE_SIZE then (buf, 0) else
  let '(b, o) := put_u64 buf 0 (pdu_timestamp_us pdu) in
  let '(b, o) := put_u32 b o (pdu_source_id pdu) in
  let '(b, o) := put_u32 b o (u32 (pdu_rel_freq_hz pdu)) in
  let '(b, o) := put_u32 b o (pdu_peak_snr_db pdu) in
  let '(b, o) := put_u16 b o (u16 (pdu_peak_bin pdu)) in
  let '(b, o) := put_u16 b o (pdu_n_bits pdu) in
  let '(b, o) := put_u8 b o (pdu_direction pdu) in
  let '(b, o) := put_u8 b o (u8 (pdu_bch_e1 pdu)) in
  let '(b, o) := put_u8 b o (u8 (pdu_bch_e2 pdu)) in
  let '(b, o) := put_u8 b o (pdu_flags pdu) in
  (blit b o (pdu_bits_packed pdu), Z.of_nat (o + FRAME_PDU_BITS_BYTES)).

(** The size returned and the PDU after the call. *)
Definition frame_pdu_unpack (buf : list Z) (buflen : Z) (pdu : iridium_frame_pdu) : Z * iridium_frame_pdu :=
  if buflen <? FRAME_PDU_WIRE_SIZE then (0, pdu) else
  (92, FramePdu (get_u64 buf 0) (get_u32 buf 8) (sN 32 (get_u32 buf 12)) (get_u32 buf 16)
         (sN 16 (get_u16 buf 20)) (get_u16 buf 22) (get_u8 buf 24) (sN 8 (get_u8 buf 25))
         (sN 8 (get_u8 buf 26)) (get_u8 buf 27) (slice buf 28 FRAME_PDU_BITS_BYTES)).

Definition pdu_with_bits (pdu : iridium_frame_pdu) (n : Z) (packed : list Z) : iridium_frame_pdu :=
  FramePdu (pdu_timestamp_us pdu) (pdu_source_id pdu) (pdu_rel_freq_hz pdu) (pdu_peak_snr_db pdu)
    (pdu_peak_bin pdu) n (pdu_direction pdu) (pdu_bch_e1 pdu) (pdu_bch_e2 pdu) (pdu_flags pdu) packed.

Definition frame_pdu_pack_bits (pdu : iridium_frame_pdu) (bits01 : list Z) (n_bits : Z) : iridium_frame_pdu :=
  let n := if n_bits <? 0 then 0 else n_bits in
  let n := if FRAME_PDU_MAX_BITS <? n then FRAME_PDU_MAX_BITS else n in
  pdu_with_bits pdu (u16 n)
    (forN (Z.to_nat n) (fun i packed =>
       if Z.land (rd bits01 i) 1 =? 0 then packed
       else <[(i / 8)%nat := u8 (Z.lor (rd packed (i / 8)) (u8 (Z.shiftr 0x80 (Z.of_nat (i mod 8)))))]> packed)
     (replicate FRAME_PDU_BITS_BYTES 0)).

Definition frame_pdu_unpack_bits (pdu : iridium_frame_pdu) (bits01_out : list Z) : list Z :=
  let n := if FRAME_PDU_MAX_BITS <? pdu_n_bits pdu then FRAME_PDU_MAX_BITS else pdu_n_bits pdu in
  forN (Z.to_nat n) (fun i out =>
    <[i := Z.land (Z.shiftr (rd (pdu_bits_packed pdu) (i / 8)) (7 - Z.of_nat (i mod 8))) 1]> out) bits01_out.

(** ** Wire frames *)

Definition frame_link_crc16 (data : list Z) : Z := crc16_ccitt_false data.

Definition frame_link_encode (pdu : iridium_frame_pdu) (buf : list Z) (buflen : Z) : list Z * Z :=
  if buflen <? FRAME_LINK_FRAME_SIZE then (buf, 0) else
  let buf := <[0%nat := Z.land FRAME_LINK_MAGIC 0xFF]> buf in
  let buf := <[1%nat := Z.shiftr FRAME_LINK_MAGIC 8]> buf in
  let buf := <[2%nat := FRAME_LINK_VER]> buf in
  let buf := <[3%nat := 0]> buf in
  let '(body, w) := frame_pdu_pack pdu (drop FRAME_LINK_HDR_BYTES buf)
                      (buflen - Z.of_nat FRAME_LINK_HDR_BYTES) in
  let buf := take FRAME_LINK_HDR_BYTES buf ++ body in
  if negb (w =? FRAME_PDU_WIRE_SIZE) then (buf, 0) else
  let crc := frame_link_crc16 (slice buf 2 (FRAME_LINK_HDR_BYTES - 2 + Z.to_nat w)) in
  let o := (FRAME_LINK_HDR_BYTES + Z.to_nat w)%nat in
  (<[(o + 1)%nat := Z.shiftr crc 8]> (<[o := Z.land crc 0xFF]> buf), FRAME_LINK_FRAME_SIZE).

Definition frame_link_decode (buf : list Z) (buflen : Z) (pdu : iridium_frame_pdu)
  : bool * iridium_frame_pdu :=
  if buflen <? FRAME_LINK_FRAME_SIZE then (false, pdu) else
  if negb (rd buf 0 =? Z.land FRAME_LINK_MAGIC 0xFF) || negb (rd buf 1 =? Z.shiftr FRAME_LINK_MAGIC 8)
  then (false, pdu) else
  if negb (rd buf 2 =? FRAME_LINK_VER) then (false, pdu) else
  let crc_off := (FRAME_LINK_HDR_BYTES + Z.to_nat FRAME_PDU_WIRE_SIZE)%nat in
  let want := u16 (Z.lor (rd buf crc_off) (Z.shiftl (rd buf (crc_off + 1)) 8)) in
  let got := frame_link_crc16 (slice buf 2 (FRAME_LINK_HDR_BYTES - 2 + Z.to_nat FRAME_PDU_WIRE_SIZE)) in
  if negb (want =? got) then (false, pdu) else
  let '(n, pdu) := frame_pdu_unpack (drop FRAME_LINK_HDR_BYTES buf) FRAME_PDU_WIRE_SIZE pdu in
  if negb (n =? FRAME_PDU_WIRE_SIZE) then (false, pdu) else
  if FRAME_PDU_MAX_BITS <? pdu_n_bits pdu then (false, pdu) else (true, pdu).

(** ** The tasks, one iteration each *)

Section Tasks.
Context {Que : Type} `{Hque : MessageQueue Que iridium_frame_pdu}.

(** [s_q] ([None] before initialisation) and [s_dropped]. *)
Record pdu_queue := PduQueue { pq_que : option Que; pq_dropped : Z }.

Definition FRAME_PDU_QUEUE_DEPTH : nat := 32.

(** The state, [s_src_id], and whether it succeeded; [mac] is the address read. *)
Definition frame_pdu_queue_init (alloc_ok : bool) (mac : list Z) (s : pdu_queue) (src_id : Z)
  : pdu_queue * Z * bool :=
  match pq_que s with
  | Some _ => (s, src_id, true)
  | None =>
      if negb alloc_ok then (s, src_id, false) else
      (PduQueue (Some (queue_create FRAME_PDU_QUEUE_DEPTH)) (pq_dropped s),
       Z.lor (Z.lor (Z.lor (Z.shiftl (rd mac 2) 24) (Z.shiftl (rd mac 3) 16)) (Z.shiftl (rd mac 4) 8)) (rd mac 5),
       true)
  end.

Definition frame_pdu_queue_push (s : pdu_queue) (pdu : iridium_frame_pdu) : pdu_queue * bool :=
  match pq_que s with
  | None => (s, false)
  | Some q =>
      match queue_send q pdu with
      | None => (PduQueue (Some q) (u32 (pq_dropped s + 1)), false)
      | Some q' => (PduQueue (Some q') (pq_dropped s), true)
      end
  end.

Definition frame_pdu_queue_pop (s : pdu_queue) : pdu_queue * option iridium_frame_pdu :=
  match pq_que s with
  | None => (s, None)
  | Some q =>
      match queue_receive q with
      | None => (s, None)
      | Some (pdu, q') => (PduQueue (Some q') (pq_dropped s), Some pdu)
      end
  end.

Definition frame_pdu_queue_count (s : pdu_queue) : Z :=
  match pq_que s with None => 0 | Some q => Z.of_nat (length (queue_items q)) end.

Record frame_link_stats := LinkStats {
  frames_tx : Z; frames_rx : Z; crc_errors : Z; bus_errors : Z; queue_full : Z }.

(** One round of [slave_task]: the frame handed to the driver, if any;
    [tx_ok] is the driver's verdict. *)
Definition slave_step (tx_ok : bool) (s : pdu_queue) (txbuf : list Z) (x : frame_link_stats)
  : pdu_queue * list Z * frame_link_stats * option (list Z) :=
  match frame_pdu_queue_pop s with
  | (s, None) => (s, txbuf, x, None)
  | (s, Some pdu) =>
      let '(txbuf, n) := frame_link_encode pdu (replicate FRAME_LINK_XFER_SIZE 0)
                           (Z.of_nat FRAME_LINK_XFER_SIZE) in
      if negb (n =? FRAME_LINK_FRAME_SIZE) then (s, txbuf, x, None) else
      if tx_ok
      then (s, txbuf, LinkStats (u32 (frames_tx x + 1)) (frames_rx x) (crc_errors x) (bus_errors x) (queue_full x),
            Some txbuf)
      else (s, txbuf, LinkStats (frames_tx x) (frames_rx x) (crc_errors x) (u32 (bus_errors x + 1)) (queue_full x),
            Some txbuf)
  end.

(** One round of [master_task] with the handshake line high: [rx] is what the
    driver received, [None] when it failed.  The PDU on the stack is not
    initialised; [junk] is what it holds. *)
Definition master_step (rx : option (list Z)) (junk : iridium_frame_pdu) (s : pdu_queue) (x : frame_link_stats)
  : pdu_queue * frame_link_stats :=
  match rx with
  | None => (s, LinkStats (frames_tx x) (frames_rx x) (crc_errors x) (u32 (bus_errors x + 1)) (queue_full x))
  | Some rxbuf =>
      match frame_link_decode rxbuf (Z.of_nat FRAME_LINK_XFER_SIZE) junk with
      | (false, _) =>
          (s, LinkStats (frames_tx x) (frames_rx x) (u32 (crc_errors x + 1)) (bus_errors x) (queue_full x))
      | (true, pdu) =>
          let x := LinkStats (frames_tx x) (u32 (frames_rx x + 1)) (crc_errors x) (bus_errors x) (queue_full x) in
          let '(s, ok) := frame_pdu_queue_push s pdu in
          (s, if ok then x
              else LinkStats (frames_tx x) (frames_rx x) (crc_errors x) (bus_errors x) (u32 (queue_full x + 1)))
      end
  end.

(** ** Aggregator ingest *)

Definition AGG_MAX_SOURCES : nat := 4.

Record aggregator_source_stat := SourceStat { src_id : Z; src_count : Z; src_last_seen_us : Z }.

(** [s_sources] up to [s_n_sources]. *)
Definition note_source (sources : list aggregator_source_stat) (source_id now_us : Z)
  : list aggregator_source_stat :=
  let i := default (length sources)
             (fst <$> list_find (fun x => src_id x = source_id) sources) in
  let sources :=
    if (i =? length sources)%nat && (length sources <? AGG_MAX_SOURCES)%nat
    then sources ++ [SourceStat source_id 0 0] else sources in
  if (i <? AGG_MAX_SOURCES)%nat
  then alter (fun x => SourceStat (src_id x) (u32 (src_count x + 1)) now_us) i sources
  else sources.

(** The state of the ingest task: scratch bits, count, sources. *)
Record agg_ingest := AggIngest {
  ag_bits01 : list Z; ag_ingested : Z; ag_sources : list aggregator_source_stat }.

(** The arguments the ingest task gives [frame_decoder_push]. *)
Definition ingest_args (bits01 : list Z) (pdu : iridium_frame_pdu) : push_args :=
  PushArgs bits01 (pdu_n_bits pdu) None 0 (pdu_direction pdu =? 0) 0 (pdu_peak_bin pdu)
    (pdu_peak_snr_db pdu) (pdu_timestamp_us pdu).

(** One round of [aggregator_ingest_task]; [now] and [seen] are the clock's
    readings by [frame_decoder_push] and by the task. *)
Definition pdu_ingest_step (initialised : bool) (now seen : Z) (s : pdu_queue) (a : agg_ingest) (fq : frame_queue)
  : pdu_queue * agg_ingest * frame_queue :=
  match frame_pdu_queue_pop s with
  | (s, None) => (s, a, fq)
  | (s, Some pdu) =>
      if FRAME_PDU_MAX_BITS <? pdu_n_bits pdu then (s, a, fq) else
      let bits01 := frame_pdu_unpack_bits pdu (ag_bits01 a) in
      let '(fq, _) := frame_decoder_push initialised now fq (ingest_args bits01 pdu) in
      (s, AggIngest bits01 (u32 (ag_ingested a + 1)) (note_source (ag_sources a) (pdu_source_id pdu) seen), fq)
  end.
End Tasks.

(** ** The receiver's side *)

(** What [worker_emit_frame] ships for a frame of known type; [rel_freq_hz] is
    the burst's offset converted to [int32_t]. *)
Definition worker_pdu (cap_us source_id rel_freq_hz peak_snr_db peak_bin : Z) (downlink : bool)
    (e1_bch e2_bch : Z) (chase_used : bool) (bits : list Z) (n_bits : Z) : iridium_frame_pdu :=
  frame_pdu_pack_bits
    (FramePdu cap_us source_id rel_freq_hz peak_snr_db (sN 16 peak_bin) 0 (if downlink then 0 else 1)
       (sN 8 e1_bch) (sN 8 e2_bch) (if chase_used then 1 else 0) (replicate 64 0)) bits n_bits.

(** ** Little-endian lemmas *)

Definition le (n : nat) (v : Z) : list Z := map (fun i => u8 (Z.shiftr v (8 * Z.of_nat i))) (seq 0 n).
Fixpoint le_val (l : list Z) : Z :=
  match l with [] => 0 | x :: l => x + 256 * le_val l end.

Lemma length_le n v : length (le n v) = n.
Proof. unfold le. by rewrite length_map, length_seq. Qed.

Lemma le_bytes n v : is_bytes (le n v).
Proof. apply Forall_map, Forall_true. intros i. apply is_u_mod. lia. Qed.

Lemma le_S n v : le (S n) v = u8 v :: le n (Z.shiftr v 8).
Proof.
  unfold le. change (seq 0 (S n)) with (0%nat :: seq 1 n). cbn [map]. rewrite Z.shiftr_0_r. f_equal.
  rewrite <- seq_shift, map_map. apply map_ext. intros i. rewrite Z.shiftr_shiftr by lia. do 2 f_equal. lia.
Qed.

Lemma le_val_le n v : is_u (8 * Z.of_nat n) v -> le_val (le n v) = v.
Proof.
  revert v. induction n as [|n IH]; intros v Hv.
  - unfold is_u in Hv. cbn in *. lia.
  - rewrite le_S. cbn [le_val]. rewrite IH.
    + unfold u8. rewrite Z.shiftr_div_pow2 by lia. change (2 ^ 8) with 256. lia.
    + unfold is_u in *. rewrite Z.shiftr_div_pow2 by lia.
      replace (8 * Z.of_nat (S n)) with (8 * Z.of_nat n + 8) in Hv by lia.
      rewrite Z.pow_add_r in Hv by lia. change (2 ^ 8) with 256 in *. lia.
Qed.

Lemma le_val_bound l : is_bytes l -> is_u (8 * Z.of_nat (length l)) (le_val l).
Proof.
  unfold is_u. induction 1 as [|x l Hx _ IH]; [cbn; lia|]. cbn [length le_val].
  replace (8 * Z.of_nat (S (length l))) with (8 * Z.of_nat (length l) + 8) by lia.
  rewrite Z.pow_add_r by lia. unfold is_u in Hx. change (2 ^ 8) with 256 in *. lia.
Qed.

Lemma le_le_val l : is_bytes l -> le (length l) (le_val l) = l.
Proof.
  induction 1 as [|x l Hx Hl IH]; [done|]. cbn [length le_val]. rewrite le_S.
  pose proof (le_val_bound l Hl) as Hb. unfold is_u in Hx, Hb. change (2 ^ 8) with 256 in Hx.
  f_equal.
  - unfold u8. change (2 ^ 8) with 256. lia.
  - transitivity (le (length l) (le_val l)); [|done]. f_equal. rewrite Z.shiftr_div_pow2 by lia. change (2 ^ 8) with 256. lia.
Qed.

(** Accumulating shifted octets is reading little-endian. *)
Lemma lor_shiftl_add v x k : 0 <= k -> 0 <= v < 2 ^ k -> 0 <= x -> Z.lor v (Z.shiftl x k) = v + x * 2 ^ k.
Proof.
  intros Hk Hv Hx. rewrite Z.lor_comm, (Z.add_comm v). apply Z.bits_inj'. intros i Hi. rewrite Z.lor_spec.
  destruct (Z.lt_ge_cases i k).
  - rewrite Z.shiftl_spec_low by done. cbn [orb].
    rewrite <- (Z.mod_pow2_bits_low (x * 2 ^ k + v) k) by lia.
    rewrite Z.add_comm, Z.mod_add, Z.mod_small by lia. done.
  - rewrite (testbit_high k v) by lia. rewrite orb_false_r, Z.shiftl_spec by lia.
    transitivity (Z.testbit ((x * 2 ^ k + v) / 2 ^ k) (i - k)).
    + f_equal. rewrite Z.add_comm, Z.div_add, Z.div_small by lia. lia.
    + rewrite Z.div_pow2_bits by lia. f_equal. lia.
Qed.

(** ** Fields at an offset *)

Lemma le_val_app a b : le_val (a ++ b) = le_val a + 2 ^ (8 * Z.of_nat (length a)) * le_val b.
Proof.
  induction a as [|x a IH]; [cbn [app le_val length]; change (8 * Z.of_nat 0) with 0; lia|].
  cbn [app le_val length]. rewrite IH.
  replace (8 * Z.of_nat (S (length a))) with (8 + 8 * Z.of_nat (length a)) by lia.
  rewrite Z.pow_add_r by lia. change (2 ^ 8) with 256. lia.
Qed.

Lemma slice_S (b : list Z) o n :
  (o + S n <= length b)%nat -> slice b o (S n) = slice b o n ++ [rd b (o + n)].
Proof.
  intros H. unfold slice. destruct (lookup_lt_is_Some_2 b (o + n) ltac:(lia)) as [x Hx].
  rewrite (take_S_r _ _ x) by (by rewrite lookup_drop). unfold rd. by rewrite (nth_lookup_total 0 _ _ _ Hx).
Qed.

(** The loops of the wide getters. *)
Lemma get_loop (w : Z -> Z) b o n :
  is_bytes b -> (o + n <= length b)%nat ->
  (forall z, 0 <= z < 2 ^ (8 * Z.of_nat n) -> w z = z) ->
  forN n (fun i v => Z.lor v (w (Z.shiftl (rd b (o + i)) (8 * Z.of_nat i)))) 0 = le_val (slice b o n).
Proof.
  intros Hb Hl Hw.
  enough (H : forall k, (k <= n)%nat ->
    forN k (fun i v => Z.lor v (w (Z.shiftl (rd b (o + i)) (8 * Z.of_nat i)))) 0 = le_val (slice b o k))
    by by apply H.
  induction k as [|k IH]; intros Hk; [done|].
  rewrite forN_S, IH, slice_S, le_val_app by lia. cbn [le_val].
  pose proof (rd_byte b (o + k) Hb) as Hx. unfold is_u in Hx.
  pose proof (le_val_bound (slice b o k) (slice_bytes b o k Hb)) as Hv.
  rewrite length_slice in * by lia. unfold is_u in Hv.
  assert (E : 2 ^ (8 * Z.of_nat k) * 256 <= 2 ^ (8 * Z.of_nat n)).
  { change 256 with (2 ^ 8). rewrite <- Z.pow_add_r by lia. apply Z.pow_le_mono_r; lia. }
  change (2 ^ 8) with 256 in *.
  rewrite Hw by (rewrite Z.shiftl_mul_pow2 by lia; nia).
  rewrite lor_shiftl_add by lia. lia.
Qed.

Lemma get_u64_val b o : is_bytes b -> (o + 8 <= length b)%nat -> get_u64 b o = le_val (slice b o 8).
Proof. intros. apply get_loop; [done|done|]. intros z Hz. by apply u64_small. Qed.
Lemma get_u32_val b o : is_bytes b -> (o + 4 <= length b)%nat -> get_u32 b o = le_val (slice b o 4).
Proof. intros. apply get_loop; [done|done|]. intros z Hz. by apply u32_small. Qed.
Lemma get_u16_val b o : is_bytes b -> (o + 2 <= length b)%nat -> get_u16 b o = le_val (slice b o 2).
Proof.
  intros Hb Hl. unfold get_u16. rewrite !slice_S by lia. rewrite Nat.add_0_r.
  pose proof (rd_byte b o Hb) as H0. pose proof (rd_byte b (o + 1) Hb) as H1. unfold is_u in *.
  change (2 ^ 8) with 256 in *. rewrite lor_shiftl_add by (change (2 ^ 8) with 256; lia).
  change (slice b o 0) with (@nil Z). cbn [app le_val]. change (2 ^ 8) with 256. rewrite u16_small by lia. lia.
Qed.
Lemma get_u8_val b o : (o + 1 <= length b)%nat -> get_u8 b o = le_val (slice b o 1).
Proof.
  intros Hl. unfold get_u8. rewrite slice_S, Nat.add_0_r by lia. change (slice b o 0) with (@nil Z).
  cbn [app le_val]. lia.
Qed.

(** A putter appends its octets to what has been written. *)
Lemma put_loop n b a v :
  (length a + n <= length b)%nat ->
  forN n (fun i x => <[(length a + i)%nat := u8 (Z.shiftr v (8 * Z.of_nat i))]> x) (blit b 0 a) =
  blit b 0 (a ++ le n v).
Proof.
  intros Hl. rewrite write_run by (rewrite length_blit; lia). fold (le n v).
  pose proof (blit_blit_adj b a (le n v) 0) as H. cbn [Nat.add] in H. rewrite H; [done|].
  rewrite length_le. lia.
Qed.

Lemma put_u64_at b a v : (length a + 8 <= length b)%nat ->
  put_u64 (blit b 0 a) (length a) v = (blit b 0 (a ++ le 8 v), length (a ++ le 8 v)).
Proof. intros H. unfold put_u64. by rewrite put_loop, length_app, length_le. Qed.
Lemma put_u32_at b a v : (length a + 4 <= length b)%nat ->
  put_u32 (blit b 0 a) (length a) v = (blit b 0 (a ++ le 4 v), length (a ++ le 4 v)).
Proof. intros H. unfold put_u32. by rewrite put_loop, length_app, length_le. Qed.
Lemma put_u16_at b a v : (length a + 2 <= length b)%nat ->
  put_u16 (blit b 0 a) (length a) v = (blit b 0 (a ++ le 2 v), length (a ++ le 2 v)).
Proof.
  intros H. pose proof (put_loop 2 b a v H) as E. rewrite !forN_S, forN_0 in E.
  unfold put_u16. rewrite length_app, length_le, <- E. rewrite Nat.add_0_r, Z.shiftr_0_r. done.
Qed.
Lemma put_u8_at b a v : (length a + 1 <= length b)%nat ->
  put_u8 (blit b 0 a) (length a) v = (blit b 0 (a ++ le 1 v), length (a ++ le 1 v)).
Proof.
  intros H. pose proof (put_loop 1 b a v H) as E. rewrite !forN_S, forN_0 in E.
  unfold put_u8. rewrite length_app, length_le, <- E. rewrite Nat.add_0_r, Z.shiftr_0_r. done.
Qed.

(** ** The PDU's wire form *)

Definition wire (pdu : iridium_frame_pdu) : list Z :=
  le 8 (pdu_timestamp_us pdu) ++ le 4 (pdu_source_id pdu) ++ le 4 (u32 (pdu_rel_freq_hz pdu)) ++
  le 4 (pdu_peak_snr_db pdu) ++ le 2 (u16 (pdu_peak_bin pdu)) ++ le 2 (pdu_n_bits pdu) ++
  le 1 (pdu_direction pdu) ++ le 1 (u8 (pdu_bch_e1 pdu)) ++ le 1 (u8 (pdu_bch_e2 pdu)) ++
  le 1 (pdu_flags pdu) ++ pdu_bits_packed pdu.

Definition is_s (w z : Z) : Prop := - 2 ^ (w - 1) <= z < 2 ^ (w - 1).

(** The fields in the ranges of their C types. *)
Record pdu_ok (pdu : iridium_frame_pdu) : Prop := {
  po_ts : is_u 64 (pdu_timestamp_us pdu); po_src : is_u 32 (pdu_source_id pdu);
  po_freq : is_s 32 (pdu_rel_freq_hz pdu); po_snr : is_u 32 (pdu_peak_snr_db pdu);
  po_bin : is_s 16 (pdu_peak_bin pdu); po_n : is_u 16 (pdu_n_bits pdu);
  po_dir : is_u 8 (pdu_direction pdu); po_e1 : is_s 8 (pdu_bch_e1 pdu); po_e2 : is_s 8 (pdu_bch_e2 pdu);
  po_flags : is_u 8 (pdu_flags pdu);
  po_bits : is_bytes (pdu_bits_packed pdu); po_len : length (pdu_bits_packed pdu) = 64%nat }.

Lemma length_wire pdu : length (pdu_bits_packed pdu) = 64%nat -> length (wire pdu) = 92%nat.
Proof. intros H. unfold wire. rewrite !length_app, !length_le, H. done. Qed.

Lemma wire_bytes pdu : is_bytes (pdu_bits_packed pdu) -> is_bytes (wire pdu).
Proof. intros H. unfold wire. rewrite !Forall_app. split_and!; try apply le_bytes. done. Qed.

Lemma pack_wire pdu buf :
  (92 <= length buf)%nat -> length (pdu_bits_packed pdu) = 64%nat ->
  frame_pdu_pack pdu buf (Z.of_nat (length buf)) = (blit buf 0 (wire pdu), 92).
Proof.
  intros Hl Hp. unfold frame_pdu_pack, FRAME_PDU_WIRE_SIZE.
  rewrite (proj2 (Z.ltb_ge _ _)) by lia.
  replace (put_u64 buf 0) with (put_u64 (blit buf 0 []) (length (@nil Z))) by done.
  repeat (first [rewrite put_u64_at|rewrite put_u32_at|rewrite put_u16_at|rewrite put_u8_at];
    [|rewrite ?length_app, ?length_le; cbn [length]; lia]; cbv beta iota).
  match goal with |- (blit (blit buf 0 ?a) _ ?b, _) = _ =>
    pose proof (blit_blit_adj buf a b 0) as H end.
  cbn [Nat.add] in H. rewrite H by (rewrite !length_app, !length_le, Hp; cbn [length]; lia).
  unfold wire. cbn [app]. rewrite <- !app_assoc. rewrite !length_app, !length_le. done.
Qed.

Lemma sN_mod w z : 0 < w -> is_s w z -> sN w (z mod 2 ^ w) = z.
Proof.
  unfold is_s, sN. intros Hw Hz. assert (E : 2 ^ w = 2 * 2 ^ (w - 1)).
  { rewrite <- Z.pow_succ_r by lia. f_equal. lia. }
  rewrite Zplus_mod_idemp_l, Z.mod_small by lia. lia.
Qed.

Lemma mod_sN w z : 0 < w -> is_u w z -> sN w z mod 2 ^ w = z.
Proof.
  unfold is_u, sN. intros Hw Hz. rewrite Zminus_mod_idemp_l.
  rewrite <- (Z.mod_small z (2 ^ w)) at 2 by lia. f_equal. lia.
Qed.

Lemma sN_range w z : 0 < w -> is_s w (sN w z).
Proof.
  unfold is_s, sN. intros Hw. assert (E : 2 ^ w = 2 * 2 ^ (w - 1)).
  { rewrite <- Z.pow_succ_r by lia. f_equal. lia. }
  pose proof (Z.mod_pos_bound (z + 2 ^ (w - 1)) (2 ^ w) ltac:(lia)). lia.
Qed.

Lemma u16_sN z : is_u 16 z -> u16 (sN 16 z) = z.
Proof. by apply mod_sN. Qed.
Lemma u32_sN z : is_u 32 z -> u32 (sN 32 z) = z.
Proof. by apply mod_sN. Qed.
Lemma u8_sN z : is_u 8 z -> u8 (sN 8 z) = z.
Proof. by apply mod_sN. Qed.

Lemma slice_slice_adj (l : list Z) o n o' m k :
  o' = (o + n)%nat -> k = (n + m)%nat -> slice l o n ++ slice l o' m = slice l o k.
Proof. intros -> ->. unfold slice. by rewrite <- drop_drop, take_take_drop. Qed.

Lemma le_slice b o n : is_bytes b -> (o + n <= length b)%nat -> le n (le_val (slice b o n)) = slice b o n.
Proof.
  intros Hb Hl. rewrite <- (length_slice b o n) at 1 by done. by apply le_le_val, slice_bytes.
Qed.

Lemma field_bound b o n :
  is_bytes b -> (o + n <= length b)%nat -> is_u (8 * Z.of_nat n) (le_val (slice b o n)).
Proof.
  intros Hb Hl. rewrite <- (length_slice b o n) at 1 by done. by apply le_val_bound, slice_bytes.
Qed.

(** Any 92 octets are the wire form of the PDU they unpack to. *)
Lemma wire_unpack buf junk :
  is_bytes buf -> (92 <= length buf)%nat ->
  exists pdu, frame_pdu_unpack buf 92 junk = (92, pdu) /\ pdu_ok pdu /\ wire pdu = take 92 buf.
Proof.
  intros Hb Hl. eexists. split; [reflexivity|].
  rewrite get_u64_val, !get_u32_val, !get_u16_val, !get_u8_val by (done || lia).
  assert (H : forall o n, (o + n <= 92)%nat -> is_u (8 * Z.of_nat n) (le_val (slice buf o n)))
    by (intros; apply field_bound; [done|lia]).
  split.
  - constructor; cbn [pdu_timestamp_us pdu_source_id pdu_rel_freq_hz pdu_peak_snr_db pdu_peak_bin pdu_n_bits
      pdu_direction pdu_bch_e1 pdu_bch_e2 pdu_flags pdu_bits_packed]; try (by apply sN_range);
      try (by apply slice_bytes); try (apply length_slice; unfold FRAME_PDU_BITS_BYTES; lia).
    all: apply (H _ 8%nat) || apply (H _ 4%nat) || apply (H _ 2%nat) || apply (H _ 1%nat); lia.
  - unfold wire. cbn [pdu_timestamp_us pdu_source_id pdu_rel_freq_hz pdu_peak_snr_db pdu_peak_bin pdu_n_bits
      pdu_direction pdu_bch_e1 pdu_bch_e2 pdu_flags pdu_bits_packed].
    rewrite u32_sN by (apply (H _ 4%nat); lia). rewrite u16_sN by (apply (H _ 2%nat); lia).
    rewrite !u8_sN by (apply (H _ 1%nat); lia). rewrite !le_slice by (done || lia).
    unfold FRAME_PDU_BITS_BYTES.
    rewrite (slice_slice_adj buf 27 1 28 64 65), (slice_slice_adj buf 26 1 27 65 66),
      (slice_slice_adj buf 25 1 26 66 67), (slice_slice_adj buf 24 1 25 67 68),
      (slice_slice_adj buf 22 2 24 68 70), (slice_slice_adj buf 20 2 22 70 72),
      (slice_slice_adj buf 16 4 20 72 76), (slice_slice_adj buf 12 4 16 76 80),
      (slice_slice_adj buf 8 4 12 80 84), (slice_slice_adj buf 0 8 8 84 92) by done. done.
Qed.

Lemma le_inj n a b : is_u (8 * Z.of_nat n) a -> is_u (8 * Z.of_nat n) b -> le n a = le n b -> a = b.
Proof. intros Ha Hb E. by rewrite <- (le_val_le n a), <- (le_val_le n b), E. Qed.

Lemma mod_inj_s w a b : 0 < w -> is_s w a -> is_s w b -> a mod 2 ^ w = b mod 2 ^ w -> a = b.
Proof. intros Hw Ha Hb E. by rewrite <- (sN_mod w a), <- (sN_mod w b), E. Qed.

(** Distinct PDUs have distinct wire forms. *)
Lemma wire_inj p q : pdu_ok p -> pdu_ok q -> wire p = wire q -> p = q.
Proof.
  intros [] [] E. unfold wire in E.
  repeat (apply app_inj_1 in E as [? E]; [|by rewrite !length_le]).
  repeat match goal with H : le ?n _ = le ?n _ |- _ =>
    apply (le_inj n) in H; [|first [done|by apply is_u_mod]..] end.
  destruct p, q. cbn in *.
  repeat match goal with
  | H : u32 _ = u32 _ |- _ => apply (mod_inj_s 32) in H; [|done..]
  | H : u16 _ = u16 _ |- _ => apply (mod_inj_s 16) in H; [|done..]
  | H : u8 _ = u8 _ |- _ => apply (mod_inj_s 8) in H; [|done..] end.
  congruence.
Qed.

Lemma unpack_wire pdu buf junk :
  pdu_ok pdu -> is_bytes buf -> (92 <= length buf)%nat -> take 92 buf = wire pdu ->
  frame_pdu_unpack buf 92 junk = (92, pdu).
Proof.
  intros Hok Hb Hl Ht. destruct (wire_unpack buf junk Hb Hl) as (q & -> & Hq & Eq).
  f_equal. apply wire_inj; [done|done|]. by rewrite Eq.
Qed.

(** ** Packed bits *)

Lemma mask_bit i : (i < 8)%nat -> u8 (Z.shiftr 0x80 (Z.of_nat i)) = Z.shiftl 1 (7 - Z.of_nat i).
Proof. intros Hi. do 8 (destruct i as [|i]; [done|]). lia. Qed.

Lemma pack_bits_stream pdu bits n :
  0 <= n <= 512 ->
  let p := frame_pdu_pack_bits pdu bits n in
  pdu_n_bits p = n /\ buffer 64 (pdu_bits_packed p) /\
  forall k, (k < Z.to_nat n)%nat -> stream_bit (pdu_bits_packed p) k = Z.odd (rd bits k).
Proof.
  intros Hn. unfold frame_pdu_pack_bits, FRAME_PDU_MAX_BITS, FRAME_PDU_BITS_BYTES.
  rewrite (proj2 (Z.ltb_ge n 0)), (proj2 (Z.ltb_ge 512 n)) by lia. cbv zeta.
  cbn [pdu_with_bits pdu_n_bits pdu_bits_packed].
  destruct (stream_loop 64 0 (Z.to_nat n) (fun i packed =>
       if Z.land (rd bits i) 1 =? 0 then packed
       else <[(i / 8)%nat := u8 (Z.lor (rd packed (i / 8)) (u8 (Z.shiftr 0x80 (Z.of_nat (i mod 8)))))]> packed)
     (fun i => Z.odd (rd bits i)) (replicate 64 0) (buffer_zero 64)) as [Hb Hs].
  { intros i buf Hi Hbuf. cbv beta. cbn [Nat.add].
    rewrite mask_bit by (apply Nat.mod_upper_bound; lia).
    fold (bit (rd bits i)). rewrite bit_odd. destruct (Z.odd (rd bits i)) eqn:E; cbn [Z.b2z Z.eqb].
    - apply (set_stream_bit_spec 64 buf i true); [done|lia].
    - split; [done|]. intros k. by rewrite andb_false_r, orb_false_r. }
  split; [apply u16_small; lia|]. split; [done|]. intros k Hk.
  rewrite Hs, stream_bit_zero, Nat.sub_0_r. cbn [orb Nat.leb Nat.add].
  by rewrite (proj2 (Nat.ltb_lt _ _)).
Qed.

Lemma unpack_bits_stream pdu out :
  0 <= pdu_n_bits pdu <= 512 -> (Z.to_nat (pdu_n_bits pdu) <= length out)%nat ->
  frame_pdu_unpack_bits pdu out =
  blit out 0 (map (fun i => Z.b2z (stream_bit (pdu_bits_packed pdu) i)) (seq 0 (Z.to_nat (pdu_n_bits pdu)))).
Proof.
  intros Hn Hl. unfold frame_pdu_unpack_bits, FRAME_PDU_MAX_BITS.
  rewrite (proj2 (Z.ltb_ge 512 _)) by lia.
  rewrite <- (write_run (Z.to_nat (pdu_n_bits pdu)) 0) by lia. unfold forN.
  set (l := seq 0 _). assert (Hl8 : forall i, In i l -> True) by done. clear Hl8. revert out Hl.
  induction l as [|i l IH]; intros out Hl; [done|]. cbn [fold_left Nat.add]. rewrite IH by (by rewrite length_insert).
  do 2 f_equal. unfold stream_bit.
  change (Z.land ?x 1) with (bit x). by rewrite bit_odd, <- Z.bit0_odd, Z.shiftr_spec, Z.add_0_l.
Qed.

(** What goes in comes out, whatever the scratch held. *)
Lemma unpack_pack_bits pdu bits n out :
  0 <= n <= 512 -> (Z.to_nat n <= length bits)%nat -> (Z.to_nat n <= length out)%nat ->
  frame_pdu_unpack_bits (frame_pdu_pack_bits pdu bits n) out = blit out 0 (map bit (take (Z.to_nat n) bits)).
Proof.
  intros Hn Hb Ho. destruct (pack_bits_stream pdu bits n Hn) as (En & _ & Hs).
  rewrite unpack_bits_stream; rewrite ?En; [|lia|lia]. f_equal. apply list_eq. intros i.
  rewrite !list_lookup_fmap'. destruct (Nat.lt_ge_cases i (Z.to_nat n)) as [Hi|Hi].
  - rewrite lookup_seq_lt, lookup_take_lt by done. cbn [fmap option_fmap option_map Nat.add].
    destruct (lookup_lt_is_Some_2 bits i ltac:(lia)) as [x Hx]. rewrite Hx. cbn. f_equal.
    rewrite Hs, bit_odd by done. unfold rd. by rewrite (nth_lookup_total 0 _ _ _ Hx).
  - rewrite !lookup_ge_None_2; [done|rewrite length_take; lia|by rewrite length_seq].
Qed.

(** ** Wire frames *)

Definition link_crc (flags : Z) (pdu : iridium_frame_pdu) : Z :=
  crc16_ccitt_false ([FRAME_LINK_VER; flags] ++ wire pdu).
(** The 98 octets of a frame. *)
Definition link_frame (flags : Z) (pdu : iridium_frame_pdu) : list Z :=
  [0x5A; 0x1D; FRAME_LINK_VER; flags] ++ wire pdu ++ [lo8 (link_crc flags pdu); hi8 (link_crc flags pdu)].

Lemma length_link_frame flags pdu :
  length (pdu_bits_packed pdu) = 64%nat -> length (link_frame flags pdu) = 98%nat.
Proof. intros H. unfold link_frame. rewrite !length_app, length_wire by done. done. Qed.

Lemma insert_two (pre : list Z) x y rest a b n :
  length pre = n -> <[(n + 1)%nat := b]> (<[n := a]> (pre ++ x :: y :: rest)) = pre ++ a :: b :: rest.
Proof.
  intros <-. rewrite !insert_app_r_alt by lia. by rewrite Nat.sub_diag, Nat.add_comm, Nat.add_sub.
Qed.

Lemma encode_frame pdu buf :
  (98 <= length buf)%nat -> length (pdu_bits_packed pdu) = 64%nat ->
  frame_link_encode pdu buf (Z.of_nat (length buf)) = (blit buf 0 (link_frame 0 pdu), 98).
Proof.
  intros Hl Hp. unfold frame_link_encode, FRAME_LINK_FRAME_SIZE, FRAME_LINK_HDR_BYTES, FRAME_LINK_MAGIC.
  rewrite (proj2 (Z.ltb_ge _ _)) by lia.
  change (Z.land 7514 255) with 0x5A. change (Z.shiftr 7514 8) with 0x1D.
  destruct buf as [|b0 [|b1 [|b2 [|b3 buf]]]]; try (cbn in Hl; lia).
  cbn [list_insert insert list_insert]. cbn [length] in *.
  change (drop 4 _) with buf. change (take 4 _) with [0x5A; 0x1D; FRAME_LINK_VER; 0].
  replace (Z.of_nat (S (S (S (S (length buf))))) - Z.of_nat 4) with (Z.of_nat (length buf)) by lia.
  rewrite pack_wire by (done || lia). change (negb (92 =? FRAME_PDU_WIRE_SIZE)) with false. cbv iota.
  pose proof (length_wire pdu Hp) as Hw.
  change (4 - 2 + Z.to_nat 92)%nat with 94%nat. change (4 + Z.to_nat 92)%nat with 96%nat.
  assert (E : blit buf 0 (wire pdu) = wire pdu ++ drop 92 buf) by (unfold blit; by rewrite Hw).
  rewrite E. change (slice _ 2 94) with ([FRAME_LINK_VER; 0] ++ take 92 (wire pdu ++ drop 92 buf)).
  replace (take 92 (wire pdu ++ drop 92 buf)) with (wire pdu) by (rewrite <- Hw at 1; by rewrite take_app_length).
  fold (link_crc 0 pdu). set (c := link_crc 0 pdu).
  destruct (drop 92 buf) as [|x [|y rest]] eqn:Ed;
    [apply (f_equal length) in Ed; rewrite length_drop in Ed; cbn in Ed; lia..|].
  assert (Er : drop 94 buf = rest) by (change 94%nat with (92 + 2)%nat; by rewrite <- drop_drop, Ed).
  f_equal. unfold blit. cbn [take app Nat.add]. rewrite length_link_frame by done.
  change (drop 98 _) with (drop 94 buf). rewrite Er. unfold link_frame. fold c.
  etransitivity; [apply (insert_two (0x5A :: 0x1D :: FRAME_LINK_VER :: 0 :: wire pdu) x y rest _ _ 96)|].
  - cbn [length]. by rewrite Hw.
  - cbn [app]. by rewrite <- app_assoc.
Qed.

Lemma link_crc_u16 flags pdu : is_u 16 (link_crc flags pdu).
Proof. apply crc16_ccitt_u16. Qed.

Lemma crc_bytes x y c :
  is_byte x -> is_byte y -> is_u 16 c ->
  (u16 (Z.lor x (Z.shiftl y 8)) =? c) = true <-> x = lo8 c /\ y = hi8 c.
Proof.
  unfold is_u. intros Hx Hy Hc. change (2 ^ 8) with 256 in *. change (2 ^ 16) with 65536 in *.
  rewrite lor_shiftl_add by (change (2 ^ 8) with 256; lia). change (2 ^ 8) with 256.
  rewrite u16_small, Z.eqb_eq by lia. unfold lo8, hi8.
  change 0xFF with (Z.ones 8). rewrite Z.land_ones, Z.shiftr_div_pow2 by lia. change (2 ^ 8) with 256. lia.
Qed.

(** The verdict on any received buffer. *)
Lemma decode_spec buf junk :
  is_bytes buf -> (98 <= length buf)%nat ->
  exists pdu, pdu_ok pdu /\ wire pdu = slice buf 4 92 /\
  frame_link_decode buf (Z.of_nat (length buf)) junk =
    if bool_decide (take 98 buf = link_frame (rd buf 3) pdu)
    then (pdu_n_bits pdu <=? 512, pdu) else (false, junk).
Proof.
  intros Hb Hl.
  assert (Hd : is_bytes (drop 4 buf)) by (by apply Forall_drop).
  destruct (wire_unpack (drop 4 buf) junk Hd ltac:(rewrite length_drop; lia)) as (pdu & Eu & Hok & Hw).
  exists pdu. split; [done|]. split; [done|].
  destruct buf as [|m0 [|m1 [|v [|f rest]]]]; try (cbn in Hl; lia). cbn [length] in Hl.
  change (drop 4 _) with rest in *. repeat (apply Forall_cons_1 in Hb as [? Hb]).
  destruct (drop 92 rest) as [|x [|y post]] eqn:Ed;
    [apply (f_equal length) in Ed; rewrite length_drop in Ed; cbn in Ed; lia..|].
  assert (Er : rest = wire pdu ++ x :: y :: post) by (by rewrite Hw, <- Ed, take_drop).
  pose proof (length_wire pdu (po_len _ Hok)) as Hlw.
  assert (Hxy : is_byte x /\ is_byte y).
  { rewrite Er in Hb. apply Forall_app in Hb as [_ Hb].
    apply Forall_cons_1 in Hb as [? Hb]. apply Forall_cons_1 in Hb as [? _]. done. }
  unfold frame_link_decode, FRAME_LINK_FRAME_SIZE, FRAME_LINK_HDR_BYTES, FRAME_PDU_WIRE_SIZE, FRAME_LINK_MAGIC,
    FRAME_PDU_MAX_BITS.
  rewrite (proj2 (Z.ltb_ge _ _)) by (cbn [length]; lia).
  change (Z.land 7514 255) with 0x5A. change (Z.shiftr 7514 8) with 0x1D.
  change (drop 4 _) with rest. rewrite Eu. change (negb (92 =? 92)) with false. cbv iota zeta.
  change (4 + Z.to_nat 92)%nat with 96%nat. change (4 - 2 + Z.to_nat 92)%nat with 94%nat.
  change (slice _ 2 94) with (v :: f :: take 92 rest). rewrite <- Hw.
  change (rd (m0 :: m1 :: v :: f :: rest) 0) with m0. change (rd (m0 :: m1 :: v :: f :: rest) 1) with m1.
  change (rd (m0 :: m1 :: v :: f :: rest) 2) with v. change (rd (m0 :: m1 :: v :: f :: rest) 3) with f.
  assert (E96 : rd (m0 :: m1 :: v :: f :: rest) 96 = x /\ rd (m0 :: m1 :: v :: f :: rest) (96 + 1) = y).
  { change (rd (m0 :: m1 :: v :: f :: rest) 96) with (nth 92 rest 0).
    change (rd (m0 :: m1 :: v :: f :: rest) (96 + 1)) with (nth 93 rest 0).
    rewrite Er, !app_nth2, Hlw by lia. done. }
  destruct E96 as [-> ->]. change (take 98 _) with (m0 :: m1 :: v :: f :: take 94 rest).
  assert (E94 : take 94 rest = wire pdu ++ [x; y]).
  { rewrite Er, take_app, Hlw, take_ge by lia. done. }
  rewrite E94. unfold link_frame.
  pose proof (link_crc_u16 f pdu) as Hc. destruct Hxy as [Hx Hy].
  pose proof (crc_bytes x y (link_crc f pdu) Hx Hy Hc) as Hcrc.
  unfold frame_link_crc16. destruct (Z.eqb_spec m0 0x5A) as [->|N0]; cbn [negb orb].
  2:{ rewrite bool_decide_false; [done|]. intros E. injection E. intros. done. }
  destruct (Z.eqb_spec m1 0x1D) as [->|N1]; cbn [negb orb].
  2:{ rewrite bool_decide_false; [done|]. intros E. injection E. intros. done. }
  unfold FRAME_LINK_VER. destruct (Z.eqb_spec v 1) as [->|N2]; cbn [negb orb].
  2:{ rewrite bool_decide_false; [done|]. intros E. injection E. intros. done. }
  change (crc16_ccitt_false (1 :: f :: wire pdu)) with (link_crc f pdu).
  destruct (u16 (Z.lor x (Z.shiftl y 8)) =? link_crc f pdu); cbn [negb].
  - destruct (proj1 Hcrc eq_refl) as [-> ->]. rewrite bool_decide_true by done.
    destruct (Z.ltb_spec 512 (pdu_n_bits pdu)), (Z.leb_spec (pdu_n_bits pdu) 512); done || lia.
  - rewrite bool_decide_false; [done|]. cbn [app]. intros E. injection E as E.
    apply app_inv_head in E. injection E as E1 E2. discriminate (proj2 Hcrc (conj E1 E2)).
Qed.

Lemma link_frame_inj f p f' p' :
  pdu_ok p -> pdu_ok p' -> link_frame f p = link_frame f' p' -> f = f' /\ p = p'.
Proof.
  intros Hp Hp' E. split; [exact (f_equal (fun l => nth 3 l 0) E)|].
  apply (f_equal (drop 4)) in E. apply wire_inj; [done|done|].
  change (wire p ++ [lo8 (link_crc f p); hi8 (link_crc f p)] =
    wire p' ++ [lo8 (link_crc f' p'); hi8 (link_crc f' p')]) in E.
  apply app_inj_1 in E as [? _]; [done|]. by rewrite !length_wire by (by apply po_len).
Qed.

Lemma rd_take l n i : (i < n)%nat -> rd (take n l) i = rd l i.
Proof. intros H. unfold rd. by rewrite !nth_lookup, lookup_take_lt. Qed.

Lemma slice_take (l : list Z) m o n : (o + n <= m)%nat -> slice (take m l) o n = slice l o n.
Proof. intros H. unfold slice. rewrite skipn_firstn_comm, take_take. f_equal. lia. Qed.

Lemma decode_frame buf junk flags pdu :
  is_bytes buf -> (98 <= length buf)%nat -> pdu_ok pdu -> take 98 buf = link_frame flags pdu ->
  frame_link_decode buf (Z.of_nat (length buf)) junk = (pdu_n_bits pdu <=? 512, pdu).
Proof.
  intros Hb Hl Hp E. destruct (decode_spec buf junk Hb Hl) as (q & Hq & Hw & ->).
  assert (Ef : rd buf 3 = flags) by (by rewrite <- (rd_take buf 98), E by lia).
  assert (q = pdu) as ->.
  { apply wire_inj; [done|done|]. rewrite Hw, <- (slice_take buf 98), E by lia.
    unfold link_frame. apply slice_app_at with (pre := [0x5A; 0x1D; FRAME_LINK_VER; flags])
      (post := [lo8 (link_crc flags pdu); hi8 (link_crc flags pdu)]); [done|done|]. by apply length_wire, po_len. }
  by rewrite Ef, bool_decide_true.
Qed.

Lemma encode_decode pdu buf junk :
  pdu_ok pdu -> is_bytes buf -> (98 <= length buf)%nat ->
  let '(wirebuf, n) := frame_link_encode pdu buf (Z.of_nat (length buf)) in
  n = 98 /\ length wirebuf = length buf /\
  frame_link_decode wirebuf (Z.of_nat (length buf)) junk = (pdu_n_bits pdu <=? 512, pdu).
Proof.
  intros Hp Hb Hl. pose proof (length_link_frame 0 pdu (po_len _ Hp)) as Hlf.
  rewrite encode_frame by (done || apply po_len; done). split; [done|].
  assert (Hlen : length (blit buf 0 (link_frame 0 pdu)) = length buf) by (apply length_blit; lia).
  split; [done|]. rewrite <- Hlen. apply (decode_frame _ _ 0); [|lia|done|].
  - unfold blit. rewrite Forall_app. split; [done|]. rewrite Forall_app. split; [|by apply Forall_drop].
    unfold link_frame. rewrite !Forall_app. split_and!.
    + apply (bool_decide_unpack _). reflexivity.
    + by apply wire_bytes, po_bits.
    + constructor; [apply lo8_byte|constructor; [apply hi8_byte, link_crc_u16|constructor]].
  - unfold blit. change (take 0 buf ++ ?x) with x. by rewrite take_app_length'.
Qed.

(** ** Delivery *)

Lemma decoder_fill_bits now slot a bits :
  take (Z.to_nat (pa_n_bits a)) (pa_bits a) = take (Z.to_nat (pa_n_bits a)) bits ->
  decoder_fill now slot a =
  decoder_fill now slot (PushArgs bits (pa_n_bits a) (pa_soft a) (pa_n_soft a) (pa_downlink a)
    (pa_freq_hz a) (pa_peak_bin a) (pa_snr_db a) (pa_timestamp_us a)).
Proof. intros E. unfold decoder_fill. cbn [pa_bits pa_n_bits pa_soft pa_n_soft pa_downlink pa_freq_hz
  pa_peak_bin pa_snr_db pa_timestamp_us]. by rewrite E. Qed.

Lemma decoder_push_bits ini now q a bits :
  take (Z.to_nat (pa_n_bits a)) (pa_bits a) = take (Z.to_nat (pa_n_bits a)) bits ->
  frame_decoder_push ini now q a =
  frame_decoder_push ini now q (PushArgs bits (pa_n_bits a) (pa_soft a) (pa_n_soft a) (pa_downlink a)
    (pa_freq_hz a) (pa_peak_bin a) (pa_snr_db a) (pa_timestamp_us a)).
Proof.
  intros E. unfold frame_decoder_push. change (push_guard (PushArgs _ _ _ _ _ _ _ _ _)) with (push_guard a).
  destruct (negb ini), (negb (push_guard a)); try done.
  destruct (frame_queue_producer_reserve q) as [q' [slot|]]; [|done].
  by rewrite (decoder_fill_bits now (read_slot q' slot) a bits E).
Qed.

Lemma worker_pdu_ok cap src freq snr bin dl e1 e2 chase bits n :
  is_u 64 cap -> is_u 32 src -> is_s 32 freq -> is_u 32 snr -> 0 <= n <= 512 ->
  let p := worker_pdu cap src freq snr bin dl e1 e2 chase bits n in
  pdu_ok p /\ pdu_n_bits p = n.
Proof.
  intros H1 H2 H3 H4 Hn. unfold worker_pdu.
  destruct (pack_bits_stream (FramePdu cap src freq snr (sN 16 bin) 0 (if dl then 0 else 1)
       (sN 8 e1) (sN 8 e2) (if chase then 1 else 0) (replicate 64 0)) bits n Hn) as (En & [Hl Hb] & _).
  split; [|done]. constructor; try done; cbn [frame_pdu_pack_bits pdu_with_bits pdu_timestamp_us pdu_source_id
    pdu_rel_freq_hz pdu_peak_snr_db pdu_peak_bin pdu_direction pdu_bch_e1 pdu_bch_e2 pdu_flags];
    try (by apply sN_range).
  - rewrite En. unfold is_u. lia.
  - destruct dl; unfold is_u; lia.
  - destruct chase; unfold is_u; lia.
Qed.

(** ** Source table *)

Fixpoint firsts (ids : list Z) : list Z :=
  match ids with
  | [] => []
  | x :: ids => x :: List.filter (fun y => negb (y =? x)) (firsts ids)
  end.

(** The sightings of one source, and its row. *)
Definition sightings (l : list (Z * Z)) (id : Z) : list (Z * Z) := List.filter (fun x => fst x =? id) l.
Definition source_row (l : list (Z * Z)) (id : Z) : aggregator_source_stat :=
  SourceStat id (u32 (Z.of_nat (length (sightings l id)))) (snd (List.last (sightings l id) (0, 0))).

Lemma firsts_snoc ids x : firsts (ids ++ [x]) = firsts ids ++ (if existsb (Z.eqb x) ids then [] else [x]).
Proof.
  induction ids as [|y ids IH]; [done|]. cbn [app firsts existsb]. rewrite IH, List.filter_app.
  destruct (Z.eqb_spec x y) as [->|Hne]; cbn [orb].
  - destruct (existsb (Z.eqb y) ids); cbn [List.filter]; rewrite ?Z.eqb_refl; cbn; by rewrite ?app_nil_r.
  - destruct (existsb (Z.eqb x) ids); cbn [List.filter]; [by rewrite !app_nil_r|].
    by rewrite (proj2 (Z.eqb_neq _ _) Hne).
Qed.

Lemma firsts_elem ids x : In x (firsts ids) <-> In x ids.
Proof.
  induction ids as [|y ids IH]; [done|]. cbn [firsts In]. rewrite filter_In, IH, negb_true_iff, Z.eqb_neq.
  destruct (Z.eq_dec y x); intuition congruence.
Qed.

Lemma existsb_in x ids : existsb (Z.eqb x) ids = true <-> In x ids.
Proof.
  rewrite existsb_exists. split; [by intros (y & Hy & ->%Z.eqb_eq)|].
  intros H. exists x. split; [done|apply Z.eqb_refl].
Qed.

Lemma firsts_nodup ids : List.NoDup (firsts ids).
Proof.
  induction ids as [|y ids IH]; constructor.
  - rewrite filter_In, Z.eqb_refl. intros [_ H]. done.
  - by apply List.NoDup_filter.
Qed.

Lemma sightings_snoc l id t x :
  sightings (l ++ [(id, t)]) x = sightings l x ++ (if id =? x then [(id, t)] else []).
Proof. unfold sightings. rewrite List.filter_app. cbn. by destruct (id =? x). Qed.

Lemma source_row_other l id t x : id <> x -> source_row (l ++ [(id, t)]) x = source_row l x.
Proof. intros H. unfold source_row. rewrite sightings_snoc, (proj2 (Z.eqb_neq _ _) H), app_nil_r. done. Qed.

Lemma source_row_same l id t :
  source_row (l ++ [(id, t)]) id = SourceStat id (u32 (src_count (source_row l id) + 1)) t.
Proof.
  unfold source_row. rewrite sightings_snoc, Z.eqb_refl, length_app, last_last. cbn [src_count snd length].
  rewrite u32_add_u32. f_equal. f_equal. lia.
Qed.

Definition tracked (l : list (Z * Z)) : list Z := take AGG_MAX_SOURCES (firsts (map fst l)).
Definition source_table (l : list (Z * Z)) : list aggregator_source_stat := map (source_row l) (tracked l).

Lemma tracked_snoc l id t :
  tracked (l ++ [(id, t)]) =
  tracked l ++ (if existsb (Z.eqb id) (map fst l) then []
                else take (AGG_MAX_SOURCES - length (firsts (map fst l))) [id]).
Proof.
  unfold tracked. rewrite map_app. cbn [map fst]. rewrite firsts_snoc, take_app.
  by destruct (existsb _ _); rewrite ?take_nil.
Qed.

Lemma find_tracked l id :
  fst <$> list_find (fun x => src_id x = id) (source_table l) =
  fst <$> list_find (fun x => x = id) (tracked l).
Proof.
  unfold source_table. generalize (tracked l) as ids. intros ids.
  induction ids as [|y ids IH]; [done|]. cbn [map list_find source_row src_id].
  destruct (decide (y = id)); [done|].
  destruct (list_find _ (map _ ids)) as [[]|], (list_find _ ids) as [[]|]; cbn in *; congruence.
Qed.

Lemma alter_middle {A} (f : A -> A) l1 x l2 i :
  length l1 = i -> alter f i (l1 ++ x :: l2) = l1 ++ f x :: l2.
Proof. intros <-. rewrite alter_app_r_alt, Nat.sub_diag by lia. done. Qed.

Lemma note_source_step l id t :
  note_source (source_table l) id t = source_table (l ++ [(id, t)]).
Proof.
  unfold note_source. rewrite find_tracked. 
  assert (Hsame : forall ids, id ∉ ids -> map (source_row (l ++ [(id, t)])) ids = map (source_row l) ids).
  { intros ids Hids. apply map_ext_in. intros x Hx. apply source_row_other. intros ->.
    apply Hids. by apply list_elem_of_In. }
  assert (Hlen : (length (tracked l) <= 4)%nat) by (unfold tracked, AGG_MAX_SOURCES; rewrite length_take; lia).
  unfold source_table. rewrite tracked_snoc. unfold AGG_MAX_SOURCES.
  destruct (list_find (fun x => x = id) (tracked l)) as [[i y]|] eqn:Ef;
    cbn [fmap option_fmap option_map fst from_option]; unfold Datatypes.id; rewrite ?length_map.
  - apply list_find_Some in Ef as (Hi & -> & _). pose proof (lookup_lt_Some _ _ _ Hi) as Hil.
    rewrite (proj2 (Nat.eqb_neq i (length (tracked l)))) by lia.
    rewrite (proj2 (Nat.ltb_lt i 4)) by lia. cbn [andb].
    assert (Hin : In id (map fst l)).
    { apply firsts_elem. apply list_elem_of_In, (sublist_subseteq _ _ (sublist_take _ 4)). by eapply list_elem_of_lookup_2. }
    rewrite (proj2 (existsb_in id _) Hin), app_nil_r.
    rewrite <- (take_drop_middle (tracked l) i id Hi), !map_app. cbn [map].
    assert (Hnd : NoDup (tracked l)).
    { eapply sublist_NoDup, sublist_take. apply NoDup_ListNoDup, firsts_nodup. }
    rewrite <- (take_drop_middle (tracked l) i id Hi) in Hnd.
    apply list.NoDup_app in Hnd as (_ & Hn1 & Hn2). apply list.NoDup_cons in Hn2 as [Hn2 _].
    rewrite !Hsame; [|done|intros H; apply (Hn1 id H); by left].
    rewrite alter_middle by (rewrite length_map, length_take; lia).
    by rewrite source_row_same.
  - apply list_find_None in Ef. rewrite Nat.eqb_refl. cbn [andb].
    assert (Hnot : id ∉ tracked l).
    { intros H. rewrite List.Forall_forall in Ef. apply (Ef id); [by apply list_elem_of_In|done]. }
    destruct (Nat.ltb_spec (length (tracked l)) 4) as [Hlt|Hge].
    + assert (Et : tracked l = firsts (map fst l)).
      { unfold tracked, AGG_MAX_SOURCES in *. rewrite length_take in Hlt. by rewrite take_ge by lia. }
      assert (Hnin : existsb (Z.eqb id) (map fst l) = false).
      { apply not_true_is_false. rewrite existsb_in. intros H. apply Hnot. rewrite Et.
        by apply list_elem_of_In, firsts_elem. }
      rewrite Hnin, <- Et. rewrite (take_ge [id]) by (change (length [id]) with 1%nat; lia). rewrite map_app. cbn [map]. rewrite Hsame by done.
      rewrite alter_middle by apply length_map. rewrite source_row_same. unfold source_row at 3. cbn [src_id src_count].
      replace (sightings l id) with (@nil (Z * Z)); [done|].
      symmetry. unfold sightings. apply elem_of_nil_inv. intros [x u] Hx%list_elem_of_In%filter_In.
      destruct Hx as [Hx He%Z.eqb_eq]. cbn in He. subst x.
      apply (in_map fst), existsb_in in Hx. cbn [fst] in Hx. by rewrite Hx in Hnin.
    + assert (Hn : (4 <= length (firsts (map fst l)))%nat).
      { unfold tracked, AGG_MAX_SOURCES in Hge. rewrite length_take in Hge. lia. }
      replace (4 - length (firsts (map fst l)))%nat with 0%nat by lia. rewrite take_0.
      destruct (existsb _ _); by rewrite app_nil_r, Hsame.
Qed.

(** ** The link end to end *)

(** A burst of known type as the worker sees it. *)
Record burst := Burst {
  bu_cap_us : Z; bu_freq : Z; bu_snr : Z; bu_peak_bin : Z; bu_downlink : bool; bu_e1 : Z; bu_e2 : Z;
  bu_chase : bool; bu_bits : list Z; bu_n : Z }.

Definition burst_pdu (src : Z) (b : burst) : iridium_frame_pdu :=
  worker_pdu (bu_cap_us b) src (bu_freq b) (bu_snr b) (bu_peak_bin b) (bu_downlink b) (bu_e1 b) (bu_e2 b)
    (bu_chase b) (bu_bits b) (bu_n b).

(** The push it should become: hard bits, 512 at most, no frequency. *)
Definition burst_args (b : burst) : push_args :=
  let n := Z.min (bu_n b) 512 in
  PushArgs (map bit (take (Z.to_nat n) (bu_bits b))) n None 0 (bu_downlink b) 0 (sN 16 (bu_peak_bin b))
    (bu_snr b) (bu_cap_us b).

Record burst_ok (b : burst) : Prop := {
  bo_cap : is_u 64 (bu_cap_us b); bo_freq : is_s 32 (bu_freq b); bo_snr : is_u 32 (bu_snr b);
  bo_n : 0 <= bu_n b; bo_bits : (Z.to_nat (Z.min (bu_n b) 512) <= length (bu_bits b))%nat }.

Lemma pack_bits_clamp pdu bits n :
  0 <= n -> frame_pdu_pack_bits pdu bits n = frame_pdu_pack_bits pdu bits (Z.min n 512).
Proof.
  intros Hn. unfold frame_pdu_pack_bits, FRAME_PDU_MAX_BITS.
  rewrite (proj2 (Z.ltb_ge n 0)), (proj2 (Z.ltb_ge (Z.min n 512) 0)), (proj2 (Z.ltb_ge 512 (Z.min n 512))) by lia.
  destruct (Z.ltb_spec 512 n); [by rewrite Z.min_r by lia|by rewrite Z.min_l by lia].
Qed.

Lemma burst_pdu_ok src b :
  is_u 32 src -> burst_ok b -> pdu_ok (burst_pdu src b) /\ pdu_n_bits (burst_pdu src b) = Z.min (bu_n b) 512.
Proof.
  intros Hs []. unfold burst_pdu, worker_pdu. rewrite pack_bits_clamp by done. apply worker_pdu_ok; [done..|lia].
Qed.

Lemma burst_fields src b :
  pdu_timestamp_us (burst_pdu src b) = bu_cap_us b /\ pdu_source_id (burst_pdu src b) = src /\
  pdu_peak_snr_db (burst_pdu src b) = bu_snr b /\ pdu_peak_bin (burst_pdu src b) = sN 16 (bu_peak_bin b) /\
  pdu_direction (burst_pdu src b) = (if bu_downlink b then 0 else 1).
Proof. done. Qed.

#[local] Opaque frame_decoder_push wire crc16_ccitt_false.

(** What the decoder receives does not depend on what the scratch held. *)
Lemma ingest_push ini now fq src b bits01 :
  is_u 32 src -> burst_ok b -> length bits01 = 512%nat ->
  let bits := frame_pdu_unpack_bits (burst_pdu src b) bits01 in
  length bits = 512%nat /\
  frame_decoder_push ini now fq (ingest_args bits (burst_pdu src b)) = frame_decoder_push ini now fq (burst_args b).
Proof.
  intros Hs Hb Hl. cbv zeta. destruct (burst_pdu_ok src b Hs Hb) as [_ En]. destruct Hb as [_ _ _ Hn Hlen].
  assert (Hbits : frame_pdu_unpack_bits (burst_pdu src b) bits01 =
    blit bits01 0 (map bit (take (Z.to_nat (Z.min (bu_n b) 512)) (bu_bits b)))).
  { unfold burst_pdu. unfold worker_pdu. rewrite pack_bits_clamp by done. apply unpack_pack_bits; lia. }
  assert (Hm : length (map bit (take (Z.to_nat (Z.min (bu_n b) 512)) (bu_bits b))) = Z.to_nat (Z.min (bu_n b) 512))
    by (rewrite length_map, length_take; lia).
  rewrite Hbits. split; [rewrite length_blit; [done|lia]|].
  unfold ingest_args, burst_args. destruct (burst_fields src b) as (-> & _ & -> & -> & ->). rewrite En.
  replace ((if bu_downlink b then 0 else 1) =? 0) with (bu_downlink b) by by destruct (bu_downlink b).
  apply decoder_push_bits. cbn [pa_n_bits pa_bits]. unfold blit. change (take 0 bits01) with (@nil Z). cbn [app].
  rewrite take_app_length' by done. by rewrite (take_ge (map _ _)) by lia.
Qed.

#[local] Opaque worker_pdu.

Section Link.
Context {Que : Type} `{Hque : MessageQueue Que iridium_frame_pdu}.
Implicit Types (wq mq : @pdu_queue Que).

(** The worker's queue and counters, the aggregator's, and the frame queue. *)
Record link := Link {
  ln_wq : @pdu_queue Que; ln_wx : frame_link_stats; ln_mq : @pdu_queue Que; ln_mx : frame_link_stats;
  ln_ag : agg_ingest; ln_fq : frame_queue }.

(** One frame across: the slave sends, the master receives what it sent, the
    ingest task forwards. *)
Definition link_round (txbuf : list Z) (junk : iridium_frame_pdu) (ini : bool) (now seen : Z) (l : link) : link :=
  let '(wq, _, wx, sent) := slave_step true (ln_wq l) txbuf (ln_wx l) in
  match sent with
  | None => Link wq wx (ln_mq l) (ln_mx l) (ln_ag l) (ln_fq l)
  | Some rx =>
      let '(mq, mx) := master_step (Some rx) junk (ln_mq l) (ln_mx l) in
      let '(mq, ag, fq) := pdu_ingest_step ini now seen mq (ln_ag l) (ln_fq l) in
      Link wq wx mq mx ag fq
  end.

(** A queue that holds these. *)
Definition holds (s : @pdu_queue Que) (l : list iridium_frame_pdu) : Prop :=
  exists q, pq_que s = Some q /\ queue_items q = l /\ (0 < queue_depth q)%nat.

Lemma holds_pop s x l : holds s (x :: l) -> exists s', frame_pdu_queue_pop s = (s', Some x) /\
  holds s' l /\ pq_dropped s' = pq_dropped s.
Proof.
  intros (q & Eq & El & Hd). destruct (queue_receive_first q x l El) as (q' & Er & El' & Ed).
  unfold frame_pdu_queue_pop. rewrite Eq, Er. eexists. split; [done|]. split; [|done]. exists q'. rewrite Ed. done.
Qed.

Lemma holds_push s x : holds s [] -> exists s', frame_pdu_queue_push s x = (s', true) /\
  holds s' [x] /\ pq_dropped s' = pq_dropped s.
Proof.
  intros (q & Eq & El & Hd). destruct (queue_send_room q x ltac:(rewrite El; cbn; lia)) as (q' & Es & El' & Ed).
  unfold frame_pdu_queue_push. rewrite Eq, Es. eexists. split; [done|]. split; [|done]. exists q'. rewrite Ed, El', El. done.
Qed.

Definition sent1 (x : frame_link_stats) : frame_link_stats :=
  LinkStats (u32 (frames_tx x + 1)) (frames_rx x) (crc_errors x) (bus_errors x) (queue_full x).
Definition received1 (x : frame_link_stats) : frame_link_stats :=
  LinkStats (frames_tx x) (u32 (frames_rx x + 1)) (crc_errors x) (bus_errors x) (queue_full x).

Lemma length_zeros : length (replicate FRAME_LINK_XFER_SIZE 0) = FRAME_LINK_XFER_SIZE.
Proof. apply length_replicate. Qed.

(** What the slave sends decodes to the PDU. *)
Lemma slave_sends s x l txbuf st :
  holds s (x :: l) -> pdu_ok x -> pdu_n_bits x <= 512 ->
  exists s' tx, slave_step true s txbuf st = (s', tx, sent1 st, Some tx) /\ holds s' l /\
    pq_dropped s' = pq_dropped s /\
    forall junk, frame_link_decode tx (Z.of_nat FRAME_LINK_XFER_SIZE) junk = (true, x).
Proof.
  intros Hh Hok Hn. destruct (holds_pop s x l Hh) as (s' & Ep & Hh' & Hd).
  assert (H : forall junk, let '(wirebuf, n) := frame_link_encode x (replicate FRAME_LINK_XFER_SIZE 0)
    (Z.of_nat FRAME_LINK_XFER_SIZE) in n = 98 /\ length wirebuf = FRAME_LINK_XFER_SIZE /\
    frame_link_decode wirebuf (Z.of_nat FRAME_LINK_XFER_SIZE) junk = (pdu_n_bits x <=? 512, x)).
  { intros junk. rewrite <- length_zeros. apply encode_decode; [done| |rewrite length_zeros; unfold FRAME_LINK_XFER_SIZE; lia].
    apply Forall_replicate. unfold is_u. lia. }
  unfold slave_step. rewrite Ep.
  destruct (frame_link_encode x _ _) as [tx n] eqn:Ee. destruct (H x) as [-> _].
  change (negb (98 =? FRAME_LINK_FRAME_SIZE)) with false. cbv iota.
  eexists _, _. split; [reflexivity|]. split; [done|]. split; [done|].
  intros junk. destruct (H junk) as (_ & _ & ->). by rewrite (proj2 (Z.leb_le _ _)).
Qed.

Lemma round_delivers txbuf junk ini now seen l src b rest :
  is_u 32 src -> burst_ok b -> length (ag_bits01 (ln_ag l)) = 512%nat ->
  holds (ln_wq l) (burst_pdu src b :: rest) -> holds (ln_mq l) [] ->
  let l' := link_round txbuf junk ini now seen l in
  holds (ln_wq l') rest /\ holds (ln_mq l') [] /\
  pq_dropped (ln_wq l') = pq_dropped (ln_wq l) /\ pq_dropped (ln_mq l') = pq_dropped (ln_mq l) /\
  ln_wx l' = sent1 (ln_wx l) /\ ln_mx l' = received1 (ln_mx l) /\
  length (ag_bits01 (ln_ag l')) = 512%nat /\
  ag_ingested (ln_ag l') = u32 (ag_ingested (ln_ag l) + 1) /\
  ag_sources (ln_ag l') = note_source (ag_sources (ln_ag l)) src seen /\
  ln_fq l' = fst (frame_decoder_push ini now (ln_fq l) (burst_args b)).
Proof.
  intros Hs Hb Hl Hw Hm. cbv zeta. destruct (burst_pdu_ok src b Hs Hb) as [Hok En].
  destruct (slave_sends _ _ _ txbuf (ln_wx l) Hw Hok ltac:(lia)) as (wq & tx & Es & Hw' & Dw & Hdec).
  unfold link_round. rewrite Es. unfold master_step. rewrite Hdec.
  destruct (holds_push _ (burst_pdu src b) Hm) as (mq & -> & Hm' & Dm).
  destruct (holds_pop _ _ _ Hm') as (mq' & Ep & Hm2 & Dm2).
  unfold pdu_ingest_step. rewrite Ep, En. unfold FRAME_PDU_MAX_BITS. rewrite (proj2 (Z.ltb_ge _ _)) by lia.
  destruct (ingest_push ini now (ln_fq l) src b _ Hs Hb Hl) as [Hl' ->].
  destruct (frame_decoder_push ini now (ln_fq l) (burst_args b)) as [fq ok].
  cbn [ln_wq ln_wx ln_mq ln_mx ln_ag ln_fq ag_bits01 ag_ingested ag_sources fst].
  split_and!; try done; congruence.
Qed.

(** The rounds for a list of clock readings. *)
Definition link_rounds (txbuf : list Z) (junk : iridium_frame_pdu) (ini : bool) (clock : list (Z * Z)) (l : link) : link :=
  fold_left (fun l t => link_round txbuf junk ini (fst t) (snd t) l) clock l.

(** C12: on an error-free link in lock-step every frame the worker has queued
    crosses intact and in order. A round sends one PDU, receives what was sent
    and forwards it. After as many rounds as PDUs, from an empty receiving
    queue, the frame queue is what pushing the same bursts directly, with hard
    bits only and 512 bits at most, would have made it; the queues are empty,
    nothing is dropped, no counter of errors moves, and the source is counted
    once per burst. *)
Theorem link_delivers txbuf junk ini (src : Z) (bs : list burst) (clock : list (Z * Z)) (l : link) :
  is_u 32 src -> Forall burst_ok bs -> length clock = length bs -> length (ag_bits01 (ln_ag l)) = 512%nat ->
  holds (ln_wq l) (map (burst_pdu src) bs) -> holds (ln_mq l) [] ->
  let l' := link_rounds txbuf junk ini clock l in
  ln_fq l' = fold_left (fun q '(b, t) => fst (frame_decoder_push ini (fst t) q (burst_args b)))
               (combine bs clock) (ln_fq l) /\
  holds (ln_wq l') [] /\ holds (ln_mq l') [] /\
  pq_dropped (ln_wq l') = pq_dropped (ln_wq l) /\ pq_dropped (ln_mq l') = pq_dropped (ln_mq l) /\
  ln_wx l' = Nat.iter (length bs) sent1 (ln_wx l) /\ ln_mx l' = Nat.iter (length bs) received1 (ln_mx l) /\
  ag_ingested (ln_ag l') = Nat.iter (length bs) (fun n => u32 (n + 1)) (ag_ingested (ln_ag l)) /\
  ag_sources (ln_ag l') = fold_left (fun s t => note_source s src (snd t)) clock (ag_sources (ln_ag l)).
Proof.
  intros Hs. revert clock l. induction bs as [|b bs IH]; intros clock l Hbs Hc Hl Hw Hm.
  - destruct clock; [done|done].
  - destruct clock as [|[now seen] clock]; [done|]. apply Forall_cons_1 in Hbs as [Hb Hbs].
    injection Hc as Hc. cbn [map] in Hw.
    destruct (round_delivers txbuf junk ini now seen l src b _ Hs Hb Hl Hw Hm)
      as (Hw' & Hm' & Dw & Dm & Xw & Xm & Hl' & Ai & As & Fq).
    destruct (IH clock _ Hbs Hc Hl' Hw' Hm') as (R1 & R2 & R3 & R4 & R5 & R6 & R7 & R8 & R9).
    unfold link_rounds in *. cbn [fold_left fst snd combine length].
    rewrite !Nat.iter_succ_r, <- Fq, <- Xw, <- Xm, <- Ai, <- As, <- Dw, <- Dm. by split_and!.
Qed.
End Link.

(** ** Damaged frames *)

Lemma lo_hi_inj c c' : is_u 16 c -> is_u 16 c' -> lo8 c = lo8 c' -> hi8 c = hi8 c' -> c = c'.
Proof.
  unfold is_u, lo8, hi8. change 0xFF with (Z.ones 8). intros Hc Hc'. rewrite !Z.land_ones, !Z.shiftr_div_pow2 by lia.
  change (2 ^ 8) with 256. lia.
Qed.

(** Two messages followed by their checksums, low octet first, that differ in
    two adjacent octets only. *)
Lemma checked_apart body body' pre a b a' b' post :
  let c := crc16_ccitt_false body in let c' := crc16_ccitt_false body' in
  is_bytes body -> is_bytes body' ->
  body ++ [lo8 c; hi8 c] = pre ++ [a; b] ++ post -> body' ++ [lo8 c'; hi8 c'] = pre ++ [a'; b'] ++ post ->
  (a, b) = (a', b') \/
  (S (length pre) = length body /\ Z.lxor a a' = blind_hi /\ Z.lxor b b' = blind_lo).
Proof.
  cbv zeta. intros Hb Hb' E E'.
  destruct post as [|y post] using rev_ind; [|clear IHpost; destruct post as [|x post] using rev_ind; [|clear IHpost]].
  - rewrite app_nil_r in E, E'. apply app_inj_2 in E as [-> E]; [|done]. apply app_inj_2 in E' as [-> E']; [|done].
    left. congruence.
  - cbn [app] in E, E'. change (pre ++ a :: b :: [y]) with (pre ++ [a] ++ [b; y]) in E.
    change (pre ++ a' :: b' :: [y]) with (pre ++ [a'] ++ [b'; y]) in E'. rewrite app_assoc in E, E'.
    apply app_inj_2 in E as [-> E]; [|done]. apply app_inj_2 in E' as [-> E']; [|done].
    injection E as <- E. injection E' as <- E'.
    apply Forall_app in Hb as [Hp Ha]. apply Forall_app in Hb' as [_ Ha'].
    apply Forall_cons_1 in Ha as [Ha _]. apply Forall_cons_1 in Ha' as [Ha' _].
    destruct (crc16_last_octet pre a a' Hp Ha Ha') as [->|[H1 H2]]; [congruence|by left|right].
    rewrite length_app, Nat.add_comm. done.
  - left. assert (Er : forall u v, pre ++ [u; v] ++ (post ++ [x]) ++ [y] = (pre ++ [u; v] ++ post) ++ [x; y])
      by (intros; rewrite <- !app_assoc; done).
    rewrite Er in E, E'. apply app_inj_2 in E as [-> E]; [|done]. apply app_inj_2 in E' as [-> E']; [|done].
    destruct (decide ((a, b) = (a', b'))) as [?|Hne]; [done|exfalso].
    apply Forall_app in Hb as [Hp Hb]. apply Forall_app in Hb' as [_ Hb'].
    apply Forall_app in Hb as [Hab Hpost]. apply Forall_app in Hb' as [Hab' _].
    apply Forall_cons_1 in Hab as [Ha Hab]. apply Forall_cons_1 in Hab as [Hbb _].
    apply Forall_cons_1 in Hab' as [Ha' Hab']. apply Forall_cons_1 in Hab' as [Hbb' _].
    apply (proj1 (crc16_detects_burst pre post a b a' b' Hp Hpost Ha Hbb Ha' Hbb' Hne)).
    apply lo_hi_inj; [apply crc16_ccitt_u16..|congruence|congruence].
Qed.

Lemma frames_apart f p f' p' pre a b a' b' post :
  pdu_ok p -> pdu_ok p' -> is_byte f -> is_byte f' ->
  link_frame f p = pre ++ [a; b] ++ post -> link_frame f' p' = pre ++ [a'; b'] ++ post ->
  (a, b) = (a', b') \/ (length pre = 95%nat /\ Z.lxor a a' = blind_hi /\ Z.lxor b b' = blind_lo).
Proof.
  intros Hp Hp' Hf Hf' E E'. unfold link_frame in E, E'.
  destruct pre as [|x [|y pre]]; cbn [app] in E, E'.
  - left. congruence.
  - left. congruence.
  - injection E as _ _ E. injection E' as _ _ E'.
    assert (Hb : forall f p, pdu_ok p -> is_byte f -> is_bytes (FRAME_LINK_VER :: f :: wire p)).
    { intros g q Hq Hg. constructor; [unfold is_u; cbv; split; congruence|]. constructor; [done|]. by apply wire_bytes, po_bits. }
    destruct (checked_apart (FRAME_LINK_VER :: f :: wire p) (FRAME_LINK_VER :: f' :: wire p') pre a b a' b' post)
      as [H|[H1 H2]]; [by apply Hb|by apply Hb|exact E|exact E'|by left|right].
    cbn [length] in H1. rewrite length_wire in H1 by (by apply po_len). cbn [length]. split; [lia|done].
Qed.

(** ** Theorems *)

Lemma link_frame_bytes flags pdu :
  pdu_ok pdu -> is_byte flags -> is_bytes (link_frame flags pdu).
Proof.
  intros Hp Hf. unfold link_frame. rewrite !Forall_app. split_and!.
  - repeat (constructor; [try done; unfold is_u; cbv; split; congruence|]). constructor.
  - by apply wire_bytes, po_bits.
  - constructor; [apply lo8_byte|constructor; [apply hi8_byte, link_crc_u16|constructor]].
Qed.

(** C35: the receiver accepts a buffer exactly when its first 98 octets are
    the frame of a well-typed PDU of at most 512 bits, for some value of the
    reserved octet, and then returns that PDU, which is unique; it refuses
    any other buffer, and the PDU it was given is then unchanged unless the
    frame is good but announces more than 512 bits; the encoder's frame, in
    any buffer, is accepted as what was encoded. *)
Theorem frame_link_decode_exact buf junk pdu :
  is_bytes buf -> (98 <= length buf)%nat ->
  (frame_link_decode buf (Z.of_nat (length buf)) junk = (true, pdu) <->
     pdu_ok pdu /\ pdu_n_bits pdu <= 512 /\ exists flags, take 98 buf = link_frame flags pdu) /\
  (forall p, frame_link_decode buf (Z.of_nat (length buf)) junk = (false, p) ->
     p = junk \/ (pdu_ok p /\ 512 < pdu_n_bits p /\ exists flags, take 98 buf = link_frame flags p)) /\
  (pdu_ok pdu -> pdu_n_bits pdu <= 512 ->
     let '(wirebuf, n) := frame_link_encode pdu buf (Z.of_nat (length buf)) in
     n = FRAME_LINK_FRAME_SIZE /\ length wirebuf = length buf /\
     frame_link_decode wirebuf (Z.of_nat (length wirebuf)) junk = (true, pdu)).
Proof.
  intros Hb Hl. destruct (decode_spec buf junk Hb Hl) as (q & Hq & _ & E). split; [split|split].
  - rewrite E. destruct (bool_decide_reflect (take 98 buf = link_frame (rd buf 3) q)) as [H|]; [|done].
    destruct (Z.leb_spec (pdu_n_bits q) 512); [|done]. intros [= <-]. eauto.
  - intros (Hp & Hn & flags & H). rewrite (decode_frame _ _ flags pdu) by done. by rewrite (proj2 (Z.leb_le _ _)).
  - intros p. rewrite E. destruct (bool_decide_reflect (take 98 buf = link_frame (rd buf 3) q)) as [H|].
    + destruct (Z.leb_spec (pdu_n_bits q) 512); [done|]. intros [= <-]. right. eauto.
    + intros [= <-]. by left.
  - intros Hp Hn. pose proof (encode_decode pdu buf junk Hp Hb Hl) as H.
    destruct (frame_link_encode pdu buf _) as [w n]. destruct H as (-> & Hw & Hd). rewrite Hw, Hd.
    by rewrite (proj2 (Z.leb_le _ _)).
Qed.

(** A frame damaged in two adjacent octets, wherever they are, is refused
    and the caller's PDU left alone, whatever follows it in the buffer.  One
    pattern is excepted: 0x89 on the last payload octet with 0xA1 on the first
    CRC octet, which the octet order of the CRC makes invisible. *)
Theorem frame_link_detects_burst flags pdu pre a b post a' b' tail junk :
  pdu_ok pdu -> is_byte flags -> is_bytes tail -> is_byte a' -> is_byte b' ->
  link_frame flags pdu = pre ++ [a; b] ++ post -> (a, b) <> (a', b') ->
  ~ (length pre = 95%nat /\ Z.lxor a a' = 0x89 /\ Z.lxor b b' = 0xA1) ->
  let buf := (pre ++ [a'; b'] ++ post) ++ tail in
  frame_link_decode buf (Z.of_nat (length buf)) junk = (false, junk).
Proof.
  intros Hp Hf Ht Ha Hb E Hne Hx. cbv zeta.
  pose proof (length_link_frame flags pdu (po_len _ Hp)) as Hlen.
  pose proof (link_frame_bytes flags pdu Hp Hf) as Hby. rewrite E in Hlen, Hby.
  assert (Hlen' : length (pre ++ [a'; b'] ++ post) = 98%nat) by (rewrite !length_app in *; done).
  assert (Hby' : is_bytes (pre ++ [a'; b'] ++ post)).
  { rewrite !Forall_app in *. destruct Hby as (? & _ & ?). split; [done|]. split; [|done]. 
    repeat (apply Forall_cons_2; [done|]). apply Forall_nil_2. }
  assert (Hbuf : is_bytes ((pre ++ [a'; b'] ++ post) ++ tail)) by (rewrite Forall_app; done).
  destruct (decode_spec _ junk Hbuf ltac:(rewrite length_app, Hlen'; lia)) as (q & Hq & _ & ->).
  rewrite bool_decide_false; [done|]. rewrite take_app_length' by done. intros E'.
  destruct (frames_apart flags pdu _ q pre a b a' b' post Hp Hq Hf (rd_byte _ 3 Hbuf) E (eq_sym E')); done.
Qed.

(** The source table is that of the first four distinct sources seen, in
    order of their first sighting, each with the number of its sightings
    modulo 2^32 and the time of its last; later sources are not recorded. *)
Theorem note_source_table (l : list (Z * Z)) :
  fold_left (fun s x => note_source s (fst x) (snd x)) l [] = source_table l.
Proof.
  induction l as [|[id t] l IH] using rev_ind; [done|].
  rewrite fold_left_app, IH. cbn [fold_left fst snd]. apply note_source_step.
Qed.

(** ** Witnesses *)

Definition demo_pdu : iridium_frame_pdu :=
  FramePdu 0x123456789A 7 (-25000) 0x41A00000 (-3) 24 1 (-1) 2 1 (0xA5 :: 0x5A :: 0xFF :: replicate 61 0).

Lemma demo_pdu_ok : pdu_ok demo_pdu.
Proof.
  constructor; [unfold is_u, is_s; cbv; split; congruence..| |reflexivity].
  apply (bool_decide_unpack (is_bytes _)). vm_compute. reflexivity.
Qed.

Lemma zeros_bytes n : is_bytes (replicate n 0).
Proof. apply Forall_replicate. unfold is_u. lia. Qed.

Lemma frame_link_decode_exact_witness :
  exists w, frame_link_encode demo_pdu (replicate 128 0) 128 = (w, FRAME_LINK_FRAME_SIZE) /\
  frame_link_decode w (Z.of_nat (length w)) pdu_zero = (true, demo_pdu).
Proof.
  destruct (frame_link_decode_exact (replicate 128 0) pdu_zero demo_pdu (zeros_bytes 128)
              ltac:(rewrite length_replicate; lia)) as (_ & _ & H).
  specialize (H demo_pdu_ok ltac:(cbn; lia)). rewrite length_replicate in H.
  destruct (frame_link_encode demo_pdu (replicate 128 0) (Z.of_nat 128)) as [w n] eqn:E.
  destruct H as (-> & _ & H). exists w. split; [exact E|exact H].
Defined.

(** Octets 2 and 3, the version and the reserved octet. *)
Lemma frame_link_detects_burst_witness :
  let buf := ([0x5A; 0x1D] ++ [9; 9] ++ drop 4 (link_frame 0 demo_pdu)) ++ replicate 30 0 in
  frame_link_decode buf (Z.of_nat (length buf)) pdu_zero = (false, pdu_zero).
Proof.
  apply (frame_link_detects_burst 0 demo_pdu [0x5A; 0x1D] FRAME_LINK_VER 0 _ 9 9 (replicate 30 0) pdu_zero demo_pdu_ok).
  - unfold is_u. lia.
  - apply zeros_bytes.
  - unfold is_u. lia.
  - unfold is_u. lia.
  - reflexivity.
  - intros H. discriminate H.
  - intros [H _]. discriminate H.
Defined.

(** The excepted pattern is accepted as another PDU. *)
#[local] Transparent crc16_ccitt_false.
Example frame_link_blind_pattern :
  let f := link_frame 0 demo_pdu in
  let buf := take 95 f ++ [Z.lxor (rd f 95) 0x89; Z.lxor (rd f 96) 0xA1] ++ drop 97 f in
  fst (frame_link_decode buf 98 pdu_zero) = true /\ bool_decide (buf = f) = false.
Proof. vm_compute. split; reflexivity. Qed.

(** Two bursts across the link, into a queue of four slots. *)
Definition demo_bursts : list burst :=
  [Burst 1000 (-25000) 0x41A00000 (-3) true 0 1 false [1; 0; 1; 1] 4; Burst 2000 5 0x41B00000 9 false 2 0 true [0; 1] 2].

Lemma demo_bursts_ok : Forall burst_ok demo_bursts.
Proof. repeat constructor; unfold is_u, is_s; cbn; lia. Qed.

Definition demo_pq (l : list iridium_frame_pdu) : @pdu_queue (nat * list iridium_frame_pdu) :=
  PduQueue (Some (FRAME_PDU_QUEUE_DEPTH, l)) 0.

Definition demo_link : @link (nat * list iridium_frame_pdu) :=
  Link (demo_pq (map (burst_pdu 7) demo_bursts)) (LinkStats 0 0 0 0 0) (demo_pq []) (LinkStats 0 0 0 0 0)
    (AggIngest (replicate 512 0) 0 []) (FrameQueue 4 3 0 0 0 0 0 []).

Lemma link_delivers_witness :
  let l := link_rounds (replicate 128 0) pdu_zero true [(10, 11); (20, 21)] demo_link in
  ln_fq l = fst (frame_decoder_push true 20 (fst (frame_decoder_push true 10 (ln_fq demo_link)
              (PushArgs [1; 0; 1; 1] 4 None 0 true 0 (-3) 0x41A00000 1000)))
              (PushArgs [0; 1] 2 None 0 false 0 9 0x41B00000 2000)) /\
  ag_ingested (ln_ag l) = 2 /\ ag_sources (ln_ag l) = [SourceStat 7 2 21] /\
  frames_tx (ln_wx l) = 2 /\ frames_rx (ln_mx l) = 2.
Proof.
  destruct (link_delivers (replicate 128 0) pdu_zero true 7 demo_bursts [(10, 11); (20, 21)] demo_link)
    as (H1 & _ & _ & _ & _ & H2 & H3 & H4 & H5).
  - unfold is_u. lia.
  - exact demo_bursts_ok.
  - reflexivity.
  - apply length_replicate.
  - eexists. split; [reflexivity|]. split; [reflexivity|]. cbv. lia.
  - eexists. split; [reflexivity|]. split; [reflexivity|]. cbv. lia.
  - cbv zeta. rewrite H1, H2, H3, H4, H5. split_and!; reflexivity.
Defined.
