(* ===== verification/MsgRing.v ===== *)
(** The ring of recent messages (src/p4-usb-host/main/msg_ring.c).

    A push numbers the message and overwrites the oldest of 32 slots; a
    snapshot copies, oldest first, the messages newer than an id.  One mutex
    guards both, so they are functions on the ring. *)

From S2P Require Import Prelude.

Definition MSG_RING_CAPACITY : nat := 32.
Definition MSG_RING_TXT_MAX : nat := 256.

(** Character arrays are lists of their size; the float is its bit pattern. *)
Record acars_msg := AcarsMsg {
  am_id : Z; am_timestamp_us : Z; am_uplink : bool; am_mode : Z; am_label : list Z; am_block_id : Z;
  am_msg_num : list Z; am_flight_id : list Z; am_crc_ok : bool; am_partial : bool; am_peak_bin : Z;
  am_snr_db : Z; am_reg : list Z; am_ack : Z; am_msg_num_seq : Z; am_more : bool; am_has_avlc : bool;
  am_avlc_src_addr : Z; am_avlc_dst_addr : Z; am_avlc_src_type : Z; am_avlc_dst_type : Z; am_txt : list Z }.

(** [acars_msg_t out = {0}] *)
Definition acars_msg_zero : acars_msg :=
  AcarsMsg 0 0 false 0 (replicate 3 0) 0 (replicate 5 0) (replicate 7 0) false false 0 0 (replicate 8 0) 0 0
    false false 0 0 0 0 (replicate MSG_RING_TXT_MAX 0).

Definition with_id (m : acars_msg) (id : Z) : acars_msg :=
  AcarsMsg id (am_timestamp_us m) (am_uplink m) (am_mode m) (am_label m) (am_block_id m) (am_msg_num m)
    (am_flight_id m) (am_crc_ok m) (am_partial m) (am_peak_bin m) (am_snr_db m) (am_reg m) (am_ack m)
    (am_msg_num_seq m) (am_more m) (am_has_avlc m) (am_avlc_src_addr m) (am_avlc_dst_addr m)
    (am_avlc_src_type m) (am_avlc_dst_type m) (am_txt m).

(** [s_ring], [s_head], [s_last_id] and whether [s_mutex] exists. *)
Record msg_ring := MsgRing {
  mr_ring : option (list acars_msg); mr_head : nat; mr_last_id : Z; mr_mutex : bool }.

Definition msg_ring_start : msg_ring := MsgRing None 0 0 false.

(** [alloc_ok]: whether the mutex and the slots can be had. *)
Definition msg_ring_init (alloc_ok : bool * bool) (s : msg_ring) : msg_ring :=
  match mr_ring s with
  | Some _ => s
  | None =>
      if negb (fst alloc_ok) then MsgRing None (mr_head s) (mr_last_id s) false
      else if negb (snd alloc_ok) then MsgRing None (mr_head s) (mr_last_id s) false
      else MsgRing (Some (replicate MSG_RING_CAPACITY acars_msg_zero)) (mr_head s) (mr_last_id s) true
  end.

Definition msg_ring_push (s : msg_ring) (m : acars_msg) : msg_ring :=
  match mr_ring s with
  | None => s
  | Some ring =>
      let id := u64 (mr_last_id s + 1) in
      MsgRing (Some (<[mr_head s := with_id m id]> ring)) ((mr_head s + 1) mod MSG_RING_CAPACITY) id (mr_mutex s)
  end.

(** The entries written to the caller's array. *)
Definition msg_ring_snapshot (s : msg_ring) (since_id : Z) (cap : nat) : list acars_msg :=
  match mr_ring s with
  | None => []
  | Some ring =>
      forN MSG_RING_CAPACITY (fun k out =>
        if (length out <? cap)%nat then
          let e := nth ((mr_head s + k) mod MSG_RING_CAPACITY) ring acars_msg_zero in
          if (am_id e =? 0) || (am_id e <=? since_id) then out else out ++ [e]
        else out) []
  end.

Definition msg_ring_total (s : msg_ring) : Z := if mr_mutex s then mr_last_id s else 0.

(** ** The slots in age order *)

(** The messages pushed, numbered from 1. *)
Definition numbered (l : list acars_msg) : list acars_msg :=
  imap (fun i m => with_id m (Z.of_nat i + 1)) l.

(** The ring read from the next slot to write: empty slots, then the most
    recent messages. *)
Definition by_age (s : msg_ring) (ring : list acars_msg) : list acars_msg :=
  drop (mr_head s) ring ++ take (mr_head s) ring.

Record holds_msgs (s : msg_ring) (l : list acars_msg) : Prop := {
  hm_mutex : mr_mutex s = true;
  hm_head : (mr_head s < 32)%nat;
  hm_last : mr_last_id s = Z.of_nat (length l);
  hm_ring : exists ring, mr_ring s = Some ring /\ length ring = 32%nat /\
    by_age s ring = drop (length l) (replicate 32 acars_msg_zero ++ numbered l) }.

Lemma numbered_snoc l m : numbered (l ++ [m]) = numbered l ++ [with_id m (Z.of_nat (length l) + 1)].
Proof. unfold numbered. rewrite imap_app. cbn. by rewrite Nat.add_0_r. Qed.

Lemma length_numbered l : length (numbered l) = length l.
Proof. apply length_imap. Qed.

Lemma init_holds s : mr_ring s = None -> mr_head s = 0%nat -> mr_last_id s = 0 ->
  holds_msgs (msg_ring_init (true, true) s) [].
Proof.
  intros E Eh El. unfold msg_ring_init. rewrite E. cbn [fst snd negb]. split; cbn [mr_mutex mr_head mr_last_id mr_ring].
  - done.
  - rewrite Eh. lia.
  - by rewrite El.
  - eexists. split; [reflexivity|]. split; [done|]. unfold by_age. cbn [mr_head]. by rewrite Eh.
Qed.

(** Writing the slot at the head and advancing it drops the oldest entry. *)
Lemma by_age_push h (ring : list acars_msg) x :
  (h < 32)%nat -> length ring = 32%nat ->
  let ring' := <[h := x]> ring in let h' := ((h + 1) mod 32)%nat in
  drop h' ring' ++ take h' ring' = drop 1 (drop h ring ++ take h ring) ++ [x].
Proof.
  intros Hh Hl. cbv zeta.
  assert (Hd : drop 1 (drop h ring ++ take h ring) = drop (S h) ring ++ take h ring).
  { rewrite drop_app_le by (rewrite length_drop; lia). rewrite drop_drop. by replace (h + 1)%nat with (S h) by lia. }
  rewrite Hd. rewrite insert_take_drop by lia. destruct (Nat.eq_dec h 31%nat) as [->|Hne].
  - change ((31 + 1) mod 32)%nat with 0%nat. rewrite drop_0, take_0, app_nil_r.
    rewrite !(drop_ge ring 32) by lia. done.
  - rewrite Nat.mod_small by lia.
    assert (Ht : length (take h ring) = h) by (rewrite length_take; lia).
    rewrite drop_app, take_app, Ht, (drop_ge (take h ring)), (take_ge (take h ring)) by lia.
    replace (h + 1 - h)%nat with 1%nat by lia. cbn [drop take app]. by rewrite <- app_assoc.
Qed.

Lemma push_holds s l m : holds_msgs s l -> Z.of_nat (length l) + 1 < 2 ^ 64 -> holds_msgs (msg_ring_push s m) (l ++ [m]).
Proof.
  intros [Hm Hh Hl (ring & E & Hlen & Hage)] Hlt. unfold msg_ring_push. rewrite E, Hl, u64_small by lia.
  split; cbn [mr_mutex mr_head mr_last_id mr_ring]; [done| |rewrite length_app; cbn; lia|].
  - apply Nat.mod_upper_bound. done.
  - eexists. split; [reflexivity|]. split; [by rewrite length_insert|]. unfold by_age in *.
    cbn [mr_head]. unfold MSG_RING_CAPACITY. rewrite by_age_push, Hage by done.
    rewrite drop_drop, numbered_snoc, app_assoc, length_app. cbn [length].
    rewrite (drop_app_le (_ ++ _)); [done|]. rewrite length_app, length_replicate, length_numbered. lia.
Qed.

(** ** Snapshots *)

Definition fresh (since : Z) (e : acars_msg) : bool := negb ((am_id e =? 0) || (am_id e <=? since)).

Lemma snapshot_loop (age : list acars_msg) since cap n :
  (n <= length age)%nat ->
  forN n (fun k out => if (length out <? cap)%nat then
      let e := nth k age acars_msg_zero in
      if (am_id e =? 0) || (am_id e <=? since) then out else out ++ [e]
    else out) [] = take cap (List.filter (fresh since) (take n age)).
Proof.
  induction n as [|n IH]; intros Hn; [by destruct cap|].
  rewrite forN_S, IH by lia. destruct (lookup_lt_is_Some_2 age n ltac:(lia)) as [e He].
  rewrite (take_S_r _ _ _ He), List.filter_app.
  assert (Ef : List.filter (fresh since) [e] = if (am_id e =? 0) || (am_id e <=? since) then [] else [e])
    by (cbn; unfold fresh; by destruct (_ || _)).
  rewrite Ef, nth_lookup, He. cbn [default from_option id].
  set (f := List.filter (fresh since) (take n age)). rewrite length_take.
  destruct (Nat.ltb_spec (min cap (length f)) cap) as [Hlt|Hge]; cbv zeta.
  - rewrite (take_ge f) by lia. destruct ((am_id e =? 0) || (am_id e <=? since)).
    + by rewrite app_nil_r, take_ge by lia.
    + rewrite take_ge; [done|]. rewrite length_app. cbn. lia.
  - by rewrite take_app_le by lia.
Qed.

Lemma nth_by_age h (ring : list acars_msg) k :
  (h < 32)%nat -> length ring = 32%nat -> (k < 32)%nat ->
  nth ((h + k) mod 32) ring acars_msg_zero = nth k (drop h ring ++ take h ring) acars_msg_zero.
Proof.
  intros Hh Hl Hk. rewrite !nth_lookup. f_equal.
  destruct (Nat.lt_ge_cases (h + k) 32) as [Hlt|Hge].
  - rewrite Nat.mod_small, lookup_app_l, lookup_drop by (rewrite ?length_drop; lia). done.
  - replace (h + k)%nat with ((h + k - 32) + 1 * 32)%nat at 1 by lia. rewrite Nat.Div0.mod_add, Nat.mod_small by lia.
    rewrite lookup_app_r, length_drop, lookup_take_lt by (rewrite ?length_drop; lia). f_equal. lia.
Qed.

Lemma snapshot_by_age s l since cap :
  holds_msgs s l ->
  msg_ring_snapshot s since cap =
  take cap (List.filter (fresh since) (drop (length l) (replicate 32 acars_msg_zero ++ numbered l))).
Proof.
  intros [_ Hh _ (ring & E & Hlen & Hage)]. unfold msg_ring_snapshot. rewrite E, <- Hage.
  assert (Hal : length (by_age s ring) = 32%nat) by (unfold by_age; rewrite length_app, length_drop, length_take; lia).
  pose proof (snapshot_loop (by_age s ring) since cap 32 ltac:(lia)) as H.
  rewrite (take_ge (by_age s ring)) in H by lia. rewrite <- H.
  apply forN_ext. intros k out Hk. cbv beta. unfold MSG_RING_CAPACITY. by rewrite nth_by_age.
Qed.

(** ** Messages by number *)

Lemma numbered_lookup l i : numbered l !! i = (fun m => with_id m (Z.of_nat i + 1)) <$> l !! i.
Proof. apply list_lookup_imap. Qed.

(** Filtering by id is dropping, as ids are positions plus one. *)
Lemma filter_fresh_drop l k n :
  (n <= length l)%nat ->
  List.filter (fresh (Z.of_nat k)) (drop n (numbered l)) = drop (max n k) (numbered l).
Proof.
  intros Hn. remember (length l - n)%nat as j eqn:Ej. revert n Hn Ej.
  induction j as [|j IH]; intros n Hn Ej.
  - rewrite !drop_ge by (rewrite length_numbered; lia). done.
  - destruct (lookup_lt_is_Some_2 l n ltac:(lia)) as [m Hm].
    assert (Hx : numbered l !! n = Some (with_id m (Z.of_nat n + 1))) by (by rewrite numbered_lookup, Hm).
    rewrite (drop_S _ _ _ Hx). cbn [List.filter]. rewrite IH by lia.
    unfold fresh at 1. cbn [with_id am_id].
    rewrite (proj2 (Z.eqb_neq _ 0)) by lia. cbn [orb].
    destruct (Z.leb_spec (Z.of_nat n + 1) (Z.of_nat k)) as [H|H]; cbn [negb].
    + by replace (max (S n) k) with (max n k) by lia.
    + replace (max n k) with n by lia. replace (max (S n) k) with (S n) by lia. by rewrite (drop_S _ _ _ Hx).
Qed.

Lemma filter_empty since n : List.filter (fresh since) (replicate n acars_msg_zero) = [].
Proof. induction n as [|n IH]; [done|]. cbn. done. Qed.

Lemma snapshot_spec s l k cap :
  holds_msgs s l ->
  msg_ring_snapshot s (Z.of_nat k) cap = take cap (drop (max (length l - 32) k) (numbered l)).
Proof.
  intros H. rewrite (snapshot_by_age _ _ _ _ H). f_equal.
  rewrite skipn_app, List.filter_app, length_replicate, drop_replicate, filter_empty. cbn [app].
  apply filter_fresh_drop. lia.
Qed.

(** The pushes of a list, and a client that polls after each batch for what is
    newer than the last message it has. *)
Definition push_all (s : msg_ring) (l : list acars_msg) : msg_ring := fold_left msg_ring_push l s.

Definition newest (since : Z) (got : list acars_msg) : Z := am_id (List.last got (with_id acars_msg_zero since)).

Fixpoint poll_all (s : msg_ring) (since : Z) (cap : nat) (batches : list (list acars_msg)) {struct batches}
  : list acars_msg :=
  match batches with
  | [] => []
  | b :: batches =>
      let s := push_all s b in
      let got := msg_ring_snapshot s since cap in
      got ++ poll_all s (newest since got) cap batches
  end.

Lemma push_all_holds s l b :
  holds_msgs s l -> Z.of_nat (length l + length b) < 2 ^ 64 -> holds_msgs (push_all s b) (l ++ b).
Proof.
  revert s l. induction b as [|m b IH]; intros s l H Hl; [by rewrite app_nil_r|].
  cbn [push_all fold_left length] in *. change (m :: b) with ([m] ++ b). rewrite app_assoc. apply IH.
  - apply push_holds; [done|lia].
  - rewrite length_app. cbn. lia.
Qed.

Lemma last_numbered l d : l <> [] -> am_id (List.last (numbered l) d) = Z.of_nat (length l).
Proof.
  intros Hl. destruct l as [|m l] using rev_ind; [done|]. rewrite numbered_snoc, last_last, length_app. cbn. lia.
Qed.

Lemma numbered_app l b : exists b', numbered (l ++ b) = numbered l ++ b' /\ length b' = length b.
Proof.
  exists (drop (length l) (numbered (l ++ b))). split; [|rewrite length_drop, length_numbered, length_app; lia].
  apply list_eq. intros i. destruct (Nat.lt_ge_cases i (length l)) as [Hi|Hi].
  - rewrite lookup_app_l by (by rewrite length_numbered). rewrite !numbered_lookup, lookup_app_l by done. done.
  - rewrite lookup_app_r, lookup_drop, length_numbered by (by rewrite length_numbered). f_equal. lia.
Qed.

Lemma last_app_r {A} (a b : list A) d : b <> [] -> List.last (a ++ b) d = List.last b d.
Proof.
  intros Hb. destruct b as [|x b] using rev_ind; [done|]. by rewrite app_assoc, !last_last.
Qed.

Lemma poll_all_spec batches s l cap :
  holds_msgs s l -> (32 <= cap)%nat -> Forall (fun b => (length b <= 32)%nat) batches ->
  Z.of_nat (length l + length (concat batches)) < 2 ^ 64 ->
  poll_all s (Z.of_nat (length l)) cap batches = drop (length l) (numbered (l ++ concat batches)).
Proof.
  revert s l. induction batches as [|b batches IH]; intros s l H Hcap Hb Hlen; cbn [poll_all concat] in *.
  { by rewrite app_nil_r, drop_ge by (by rewrite length_numbered). }
  apply Forall_cons_1 in Hb as [Hb Hbs]. rewrite length_app in Hlen.
  assert (H' : holds_msgs (push_all s b) (l ++ b)) by (apply push_all_holds; [done|lia]).
  rewrite (snapshot_spec _ _ (length l) cap H'). rewrite length_app.
  replace (max (length l + length b - 32) (length l)) with (length l) by lia.
  destruct (numbered_app l b) as (b' & Eb & Lb). rewrite Eb, drop_app_length' by (by rewrite length_numbered).
  rewrite take_ge by lia.
  destruct (numbered_app (l ++ b) (concat batches)) as (c & Ec & Lc).
  rewrite app_assoc, Ec, Eb, <- app_assoc, drop_app_length' by (by rewrite length_numbered). f_equal.
  unfold newest. assert (Hs : am_id (List.last b' (with_id acars_msg_zero (Z.of_nat (length l)))) = Z.of_nat (length (l ++ b))).
  { destruct (decide (b = [])) as [->|Hne].
    - destruct b'; [|done]. cbn. by rewrite app_nil_r.
    - rewrite <- (last_app_r (numbered l)) by (intros ->; by destruct b). rewrite <- Eb. apply last_numbered.
      by destruct l, b. }
  rewrite Hs, IH by (done || rewrite length_app; lia).
  by rewrite Ec, drop_app_length' by (by rewrite length_numbered).
Qed.

(** ** Theorems *)

(** A client of the message ring misses nothing.  After any pushes into
    the initialised ring a snapshot returns, oldest first, the messages with
    an id above the one given among the last 32 pushed, up to the caller's
    capacity, and the total is their number; a client that starts from 0,
    offers at least 32 entries and polls from the last id it received after
    every batch of at most 32 messages receives each message exactly once, in
    order and with consecutive ids from 1. *)
Theorem msg_ring_polls (l : list acars_msg) (batches : list (list acars_msg)) (k cap : nat) :
  Z.of_nat (length l) < 2 ^ 64 -> Z.of_nat (length (concat batches)) < 2 ^ 64 ->
  let ring := msg_ring_init (true, true) msg_ring_start in
  msg_ring_snapshot (push_all ring l) (Z.of_nat k) cap = take cap (drop (max (length l - 32) k) (numbered l)) /\
  msg_ring_total (push_all ring l) = Z.of_nat (length l) /\
  ((32 <= cap)%nat -> Forall (fun b => (length b <= 32)%nat) batches ->
     poll_all ring 0 cap batches = numbered (concat batches)).
Proof.
  intros Hl Hb. cbv zeta. pose proof (init_holds msg_ring_start eq_refl eq_refl eq_refl) as H0.
  pose proof (push_all_holds _ [] l H0 Hl) as H. cbn [app] in H. split; [by apply snapshot_spec|]. split.
  - unfold msg_ring_total. rewrite (hm_mutex _ _ H). apply H.
  - intros Hcap HF. exact (poll_all_spec batches _ [] cap H0 Hcap HF Hb).
Qed.

Definition demo_msg (t : Z) : acars_msg :=
  AcarsMsg 99 t false 0x32 [0x48; 0x31; 0] 0x31 (replicate 5 0) (replicate 7 0) true false 0 0 (replicate 8 0) 0 0
    false false 0 0 0 0 (replicate 256 0).

Lemma msg_ring_polls_witness :
  poll_all (msg_ring_init (true, true) msg_ring_start) 0 32 [[demo_msg 5; demo_msg 6]; []; [demo_msg 7]] =
  [with_id (demo_msg 5) 1; with_id (demo_msg 6) 2; with_id (demo_msg 7) 3].
Proof.
  destruct (msg_ring_polls [] [[demo_msg 5; demo_msg 6]; []; [demo_msg 7]] 0 32) as (_ & _ & H).
  - cbn. lia.
  - cbn. lia.
  - apply H; [lia|]. repeat constructor; cbn; lia.
Defined.

(** The 33rd message overwrites the first. *)
Example msg_ring_overwrites :
  map am_id (msg_ring_snapshot (push_all (msg_ring_init (true, true) msg_ring_start)
    (map (fun i => demo_msg (Z.of_nat i)) (seq 0 40))) 0 3) = [9; 10; 11].
Proof. vm_compute. reflexivity. Qed.
