(* ===== verification/FrameDecoder.v ===== *)
(** The decoder task (src/p4-usb-host/main/frame_decoder.c): what becomes of a
    demodulated burst.

    An Iridium burst is classified; a DA frame is decoded, perhaps rescued by
    the Chase-2 fallback, and chained with its fragments; a complete chain is
    an SBD envelope, complete envelopes make a message, and a message is handed
    to libacars.  Chains that time out, or that contain a fragment with a bad
    CRC, can only become display rows.  A VDL2 burst goes through the link layer
    to libacars.

    libacars is an interface.  What leaves the task is a list of outputs: the
    calls of libacars, trusted messages (message ring, network and card),
    partial rows (message ring only) and the hot-bin notices to the worker.
    Log lines, the frequency histogram and the broadcast decoders, which only
    log, are left out.  Buffers on the stack are not initialised in C; they are
    zero here, and only what has been written is read. *)

From stdpp Require Import strings pretty.
From S2P Require Import Prelude Gf2 Bits Crc16 IridiumBch IridiumFrame IdaDecode IdaChase IdaReassembler.
From S2P Require Import SbdReassembler Avlc Vdl2L2 FrameQueue MsgRing.
#[local] Open Scope Z_scope.

(** ** libacars *)

Inductive la_reasm_status :=
  | LA_REASM_UNKNOWN | LA_REASM_COMPLETE | LA_REASM_IN_PROGRESS | LA_REASM_SKIPPED | LA_REASM_DUPLICATE
  | LA_REASM_FRAG_OUT_OF_SEQUENCE | LA_REASM_ARGS_INVALID.

(** The fields the task reads; [la_txt] is [None] for NULL. *)
Record la_acars_msg := LaAcarsMsg {
  la_reasm : la_reasm_status; la_mode : Z; la_label : list Z; la_block_id : Z; la_msg_num : list Z;
  la_flight_id : list Z; la_crc_ok : bool; la_reg : list Z; la_ack : Z; la_msg_num_seq : Z;
  la_final_block : bool; la_txt : option (list Z) }.

(** [la_acars_parse_and_reassemble]: the context after the call and the chain
    of protocol nodes, [None] in it being a node that is not an ACARS message.
    The time is in seconds and microseconds. *)
Class AcarsLibrary (Ctx : Type) := {
  la_acars_parse_and_reassemble : Ctx -> list Z -> bool -> Z * Z -> Ctx * option (list (option la_acars_msg)) }.

(** ** State *)

Definition FS_DETECT_HZ : Z := 2500000.
Definition FFT_SIZE : Z := 2048.
Definition AVLC_ADDRTYPE_AIRCRAFT : Z := 1.

Inductive counter :=
  | class_unknown | class_ms | class_tl | class_bc | class_lw_da | class_lw_other
  | spec_da_tried | spec_da_ok | class_lw_da_valid | sbd_complete | acars_decoded | acars_fragments
  | acars_partial | salvage_ok | salvage_rejected | dirty_cont | dirty_emitted
  | vdl2_phy | vdl2_l2_fail | vdl2_avlc_ok | vdl2_acars | vdl2_x25 | vdl2_srej | vdl2_unnum
  | vdl2_bad_fcs | vdl2_too_short.

#[export] Instance counter_eq_dec : EqDecision counter.
Proof. solve_decision. Defined.

(** Four of them are [uint32_t], the others 64 bits wide. *)
Definition wrap_counter (c : counter) (z : Z) : Z :=
  match c with salvage_ok | salvage_rejected | dirty_cont | dirty_emitted => u32 z | _ => u64 z end.

Inductive output :=
  | Parsed (buf : list Z) (gnd2air : bool) (time : Z)
  | Trusted (m : acars_msg)
  | Partial (m : acars_msg)
  | HotPublish (bin now : Z)
  | HotClear (bin : Z).

(** What a call reads besides its argument: the configuration, the classifier's
    mode and the clock.  [en_dirty] and [en_best_effort] are the same setting,
    [best_effort_decode], read when a dirty continuation arrives and again when
    a row is made; another task may change it in between. *)
Record env := Env { en_chase2_decode : bool; en_dirty : bool; en_best_effort : bool; en_harder : bool; en_now : Z }.

Section Decoder.
Context {Ctx : Type} `{Hla : AcarsLibrary Ctx}.

Record decoder := Decoder {
  de_counts : counter -> Z; de_sbd : sbd_reassembler; de_ida : ida_reassembler; de_chase : chase_state;
  de_bch : syn_state; de_la : Ctx; de_l2 : l2_state; de_out : list output }.

Definition tick (c : counter) (d : decoder) : decoder :=
  Decoder (fun k => if decide (k = c) then wrap_counter c (de_counts d c + 1) else de_counts d k)
    (de_sbd d) (de_ida d) (de_chase d) (de_bch d) (de_la d) (de_l2 d) (de_out d).
Definition emit (o : output) (d : decoder) : decoder :=
  Decoder (de_counts d) (de_sbd d) (de_ida d) (de_chase d) (de_bch d) (de_la d) (de_l2 d) (de_out d ++ [o]).
Definition with_sbd (x : sbd_reassembler) (d : decoder) : decoder :=
  Decoder (de_counts d) x (de_ida d) (de_chase d) (de_bch d) (de_la d) (de_l2 d) (de_out d).
Definition with_ida (x : ida_reassembler) (d : decoder) : decoder :=
  Decoder (de_counts d) (de_sbd d) x (de_chase d) (de_bch d) (de_la d) (de_l2 d) (de_out d).
Definition with_chase (x : chase_state) (d : decoder) : decoder :=
  Decoder (de_counts d) (de_sbd d) (de_ida d) x (de_bch d) (de_la d) (de_l2 d) (de_out d).
Definition with_bch (x : syn_state) (d : decoder) : decoder :=
  Decoder (de_counts d) (de_sbd d) (de_ida d) (de_chase d) x (de_la d) (de_l2 d) (de_out d).
Definition with_la (x : Ctx) (d : decoder) : decoder :=
  Decoder (de_counts d) (de_sbd d) (de_ida d) (de_chase d) (de_bch d) x (de_l2 d) (de_out d).
Definition with_l2 (x : l2_state) (d : decoder) : decoder :=
  Decoder (de_counts d) (de_sbd d) (de_ida d) (de_chase d) (de_bch d) (de_la d) x (de_out d).

(** After [frame_decoder_init]. *)
Definition decoder_init (la : Ctx) : decoder :=
  Decoder (fun _ => 0) sbd_reassembler_init ida_reassembler_init chase_init syn_init la
    (L2State (L2Stats 0 0 0 0 0 0 0 0 0 0) (replicate 2048 0)) [].

(** ** Frequencies *)

Definition reasm_freq_key_hz (packed_peak_bin : Z) : Z :=
  let bin := Z.land packed_peak_bin 0xFFFF in
  u32 (u64 (bin * FS_DETECT_HZ) / FFT_SIZE).

(** ** Delivery to libacars *)

(** [find_acars_msg] *)
Fixpoint find_acars_msg (nodes : list (option la_acars_msg)) : option la_acars_msg :=
  match nodes with
  | [] => None
  | Some a :: _ => Some a
  | None :: nodes => find_acars_msg nodes
  end.

(** [strlcpy] of a string of octets into a zeroed array of [size]. *)
Fixpoint c_string (s : list Z) : list Z :=
  match s with [] => [] | x :: s => if x =? 0 then [] else x :: c_string s end.
Definition strlcpy (size : nat) (s : list Z) : list Z := blit (replicate size 0) 0 (take (size - 1) (c_string s)).

Definition or_question (z : Z) : Z := if z =? 0 then 0x3F else z.

(** The message built from a complete ACARS block. *)
Definition message_out (a : la_acars_msg) (uplink : bool) (timestamp_us peak_bin snr_db : Z) (avlc : option avlc_frame)
  : acars_msg :=
  AcarsMsg 0 timestamp_us uplink (or_question (la_mode a)) [rd (la_label a) 0; rd (la_label a) 1; 0]
    (or_question (la_block_id a)) (blit (replicate 5 0) 0 (take 4 (la_msg_num a)))
    (blit (replicate 7 0) 0 (take 6 (la_flight_id a))) (la_crc_ok a) false peak_bin snr_db
    (strlcpy 8 (la_reg a)) (la_ack a) (la_msg_num_seq a) (negb (la_final_block a))
    (match avlc with Some _ => true | None => false end)
    (match avlc with Some f => af_src_addr f | None => 0 end)
    (match avlc with Some f => af_dst_addr f | None => 0 end)
    (match avlc with Some f => af_src_type f | None => 0 end)
    (match avlc with Some f => af_dst_type f | None => 0 end)
    (match la_txt a with Some t => strlcpy MSG_RING_TXT_MAX t | None => replicate MSG_RING_TXT_MAX 0 end).

(** The block is given by its octets; [gnd2air] is the direction. *)
Definition acars_deliver (buf : list Z) (gnd2air : bool) (timestamp_us peak_bin snr_db : Z)
    (avlc : option avlc_frame) (d : decoder) : decoder :=
  match buf with
  | [] => d
  | _ =>
      let time := (timestamp_us / 1000000, timestamp_us mod 1000000) in
      let '(la, nodes) := la_acars_parse_and_reassemble (de_la d) buf gnd2air time in
      let d := emit (Parsed buf gnd2air timestamp_us) (with_la la d) in
      match nodes with
      | None => d
      | Some nodes =>
          match find_acars_msg nodes with
          | None => d
          | Some a =>
              match la_reasm a with
              | LA_REASM_COMPLETE | LA_REASM_SKIPPED =>
                  emit (Trusted (message_out a gnd2air timestamp_us peak_bin snr_db avlc)) (tick acars_decoded d)
              | LA_REASM_IN_PROGRESS => tick acars_fragments d
              | _ => d
              end
          end
      end
  end.

(** The pointer and the length, as the octets between them. *)
Definition strip_acars_prefix (p : list Z) : list Z :=
  match p with
  | x :: q =>
      if x =? 0x01 then
        if (8 <=? length q)%nat && (rd q 0 =? 0x03) then drop 8 q else q
      else p
  | [] => p
  end.

Definition try_acars (msg : sbd_message) (peak_bin snr_db : Z) (d : decoder) : decoder :=
  if m_payload_len msg <? 8 then d else
  let buf := strip_acars_prefix (take (Z.to_nat (m_payload_len msg)) (m_payload msg)) in
  if (length buf <? 8)%nat then d else
  acars_deliver buf (m_uplink msg) (m_timestamp_us msg) peak_bin snr_db None d.

(** ** Display rows *)

Definition chars (s : string) : list Z := map (fun c => Z.of_N (Ascii.N_of_ascii c)) (String.list_ascii_of_string s).
Definition hex_tab : list Z := chars "0123456789abcdef".

Definition hex_text (body : list Z) : list Z :=
  concat (map (fun b => [rd hex_tab (Z.to_nat (Z.land (Z.shiftr b 4) 0xF)); rd hex_tab (Z.to_nat (Z.land b 0xF))]) body).

(** The first 24 octets of the body are shown. *)
Definition hex_len (body_len : Z) : Z :=
  let hexlen := if 24 <? body_len then 24 else body_len in
  if hexlen <? 0 then 0 else hexlen.

Definition partial_text (dirty uplink : bool) (frags : Z) (info : sbd_salvage_info) (payload : list Z) : list Z :=
  let body := match sg_body info with
              | Some off => slice payload off (Z.to_nat (hex_len (sg_body_len info)))
              | None => []
              end in
  take 127
    (chars "PARTIAL" ++ chars (if dirty then " DIRTY" else "") ++ chars " " ++ chars (sbd_type_wire_name (sg_type info)) ++
     chars " " ++ chars (if uplink then "UL" else "DL") ++ chars " f" ++ chars (pretty frags) ++ chars " msg" ++
     chars (pretty (sg_msg_no info)) ++ chars "/" ++ chars (pretty (sg_msg_cnt info)) ++
     chars (if sg_truncated info then " trunc" else "") ++ chars " " ++ chars (pretty (sg_body_len info)) ++ chars "B: " ++
     hex_text body).

Definition partial_out (now : Z) (uplink : bool) (txt : list Z) : acars_msg :=
  AcarsMsg 0 now uplink 0 (replicate 3 0) 0 (replicate 5 0) (replicate 7 0) false true 0 0 (replicate 8 0) 0 0
    false false 0 0 0 0 (strlcpy MSG_RING_TXT_MAX txt).

Definition salvage_emit (e : env) (payload : list Z) (payload_len : Z) (uplink : bool) (frags : Z) (dirty : bool)
    (d : decoder) : Z * decoder :=
  let '(ret, info) := sbd_salvage_parse payload payload_len uplink in
  if negb (ret =? 1) then (0, d) else
  (1, if en_best_effort e
      then tick acars_partial (emit (Partial (partial_out (en_now e) uplink (partial_text dirty uplink frags info payload))) d)
      else d).

(** [while (ida_reassembler_reap(...))], [fuel] rounds at most. *)
Fixpoint salvage_rounds (fuel : nat) (e : env) (now_us : Z) (sv : ida_salvage) (d : decoder) : decoder :=
  match fuel with
  | O => d
  | S fuel =>
      let '(r, sv, ida) := ida_reassembler_reap (de_ida d) now_us sv in
      let d := with_ida ida d in
      if r =? 0 then d else
      let '(ok, d) := salvage_emit e (sv_payload sv) (sv_payload_len sv) (sv_uplink sv) (sv_frags sv) (sv_dirty sv) d in
      salvage_rounds fuel e now_us sv (tick (if ok =? 1 then salvage_ok else salvage_rejected) d)
  end.

(** A reap frees one of the four sessions, so the fifth finds none. *)
Definition ida_salvage_drain (e : env) (now_us : Z) (d : decoder) : decoder :=
  salvage_rounds (S IDA_REASM_MAX_SESSIONS) e now_us salvage_zero d.

(** ** DA frames *)

(** The hard decode and the Chase-2 fallback. *)
Definition da_decode (e : env) (it : frame_queue_item) (f : iridium_frame) (d : decoder) : Z * ida_decoded * decoder :=
  let '(rc_ida, ida, bch) := ida_decode f ida_zero (de_bch d) in
  let d := with_bch bch d in
  if (rc_ida =? 0) && negb (id_ok ida) && (0 <? it_n_soft it) then
    let d := with_chase (snd (ida_chase_set_enabled (de_chase d) (en_chase2_decode e))) d in
    if en_chase2_decode e then
      let '(_, ida, chase, bch) :=
        ida_chase_decode f (Some (it_soft it)) (Z.to_nat (it_n_soft it)) ida (de_chase d) (de_bch d) in
      (rc_ida, ida, with_chase chase (with_bch bch d))
    else (rc_ida, ida, d)
  else (rc_ida, ida, d).

(** A frame admitted to the chain: reap, chain, and pass on what is complete. *)
Definition da_chain (e : env) (it : frame_queue_item) (ida : ida_decoded) (d : decoder) : decoder :=
  let uplink := it_direction it =? 1 in
  let d := ida_salvage_drain e (it_timestamp_us it) d in
  let '(r, reasm) := ida_reassembler_feed_ex (de_ida d) ida (crc_ok ida) uplink
                       (reasm_freq_key_hz (it_peak_bin it)) (it_timestamp_us it)
                       (replicate (Z.to_nat IDA_REASM_MAX_BYTES) 0) IDA_REASM_MAX_BYTES in
  let d := with_ida reasm d in
  let det_bin := Z.land (it_peak_bin it) 0xFFFF in
  let d :=
    if fo_ret r =? 0 then emit (HotPublish det_bin (en_now e)) d
    else if (fo_ret r =? 1) && negb ((da_ctr ida =? 0) && (da_cont ida =? 0)) then emit (HotClear det_bin) d
    else d in
  if (fo_ret r =? 1) && fo_dirty r then
    let '(ok, d) := salvage_emit e (fo_payload r) (fo_len r) uplink 0 true d in
    if ok =? 1 then tick dirty_emitted d else d
  else if fo_ret r =? 1 then
    let '(rc_sbd, sbd, sbds) :=
      sbd_reassembler_feed (de_sbd d) (fo_payload r) (fo_len r) uplink (it_timestamp_us it) sbd_message_zero in
    let d := with_sbd sbds d in
    if rc_sbd =? 1 then try_acars sbd (it_peak_bin it) (it_snr_db it) (tick sbd_complete d) else d
  else d.

Definition process_da (e : env) (it : frame_queue_item) (f : iridium_frame) (d : decoder) : decoder :=
  let d := tick class_lw_da d in
  let '(rc_ida, ida, d) := da_decode e it f d in
  let ida_ok_hdr := (rc_ida =? 0) && id_ok ida && header_ok ida in
  let clean := ida_ok_hdr && crc_ok ida in
  let dirty := ida_ok_hdr && negb (crc_ok ida) && (0 <? da_ctr ida) in
  let d := if dirty then tick dirty_cont d else d in
  let allow_dirty := dirty && en_dirty e in
  if clean || allow_dirty then
    da_chain e it ida (if clean then tick class_lw_da_valid d else d)
  else d.

(** The dry run on an unknown frame. *)
Definition process_unknown (f : iridium_frame) (d : decoder) : decoder :=
  let d := tick class_unknown d in
  let spec := IridiumFrame IR_FRAME_LW (fr_direction f) IR_LW_DA (fr_payload_off f) (fr_bits f) (fr_n_bits f) in
  let d := tick spec_da_tried d in
  let '(rc, sida, bch) := ida_decode spec ida_zero (de_bch d) in
  let d := with_bch bch d in
  if (rc =? 0) && id_ok sida && header_ok sida && crc_ok sida then tick spec_da_ok d else d.

(** [iridium_frame_t classified = {0}] *)
Definition frame_zero : iridium_frame := IridiumFrame IR_FRAME_UNKNOWN IR_FRM_DIR_DOWNLINK IR_LW_VO 0 [] 0.

Definition process_one (e : env) (it : frame_queue_item) (d : decoder) : decoder :=
  let dir := if it_direction it =? 0 then IR_FRM_DIR_DOWNLINK else IR_FRM_DIR_UPLINK in
  let '(rc, f, bch) := iridium_frame_classify (it_bits it) (Z.to_nat (it_n_bits it)) dir (en_harder e) frame_zero (de_bch d) in
  let d := with_bch bch d in
  if negb (rc =? 0) then tick class_unknown d else
  match fr_type f with
  | IR_FRAME_MS => tick class_ms d
  | IR_FRAME_TL => tick class_tl d
  | IR_FRAME_BC => tick class_bc d
  | IR_FRAME_LW =>
      if decide (fr_lw_subtype f = IR_LW_DA) then process_da e it f d else tick class_lw_other d
  | IR_FRAME_RA => tick class_bc d
  | IR_FRAME_UNKNOWN => process_unknown f d
  end.

(** ** VDL2 *)

Definition vdl2_avlc_cb (it : frame_queue_item) (f : avlc_frame) (d : decoder) : decoder :=
  match af_kind f with
  | AVLC_KIND_ACARS =>
      let d := tick vdl2_acars (tick vdl2_avlc_ok d) in
      acars_deliver (default [] (af_acars f)) (negb (af_src_type f =? AVLC_ADDRTYPE_AIRCRAFT)) (it_timestamp_us it)
        (it_peak_bin it) (it_snr_db it) (Some f) d
  | AVLC_KIND_X25 => tick vdl2_x25 (tick vdl2_avlc_ok d)
  | AVLC_KIND_SUPERVISORY => tick vdl2_srej (tick vdl2_avlc_ok d)
  | AVLC_KIND_UNNUMBERED => tick vdl2_unnum (tick vdl2_avlc_ok d)
  | AVLC_KIND_BAD_FCS => tick vdl2_bad_fcs d
  | AVLC_KIND_TOO_SHORT => tick vdl2_too_short d
  end.

(** The callback runs inside the feed, on a state of its own. *)
Definition process_one_vdl2 (it : frame_queue_item) (d : decoder) : decoder :=
  let d := tick vdl2_phy d in
  let n := Z.to_nat (it_n_bits it) in
  let soft := if 0 <? it_n_soft it then Some (take n (it_soft it)) else None in
  let '(l2, rc, frames) := vdl2_l2_feed (de_l2 d) (take n (it_bits it)) soft in
  let d := fold_left (fun d f => vdl2_avlc_cb it f d) frames (with_l2 l2 d) in
  if rc <? 0 then tick vdl2_l2_fail d else d.

(** ** The task *)

(** [s_rf_now], [s_wall_at_rf_now], [last_tick] and the item being decoded. *)
Record decoder_task := Task {
  tk_dec : decoder; tk_rf_now : Z; tk_wall_at_rf_now : Z; tk_last_tick : Z; tk_item : frame_queue_item }.

(** The first half of a turn: pop, follow the radio clock and, once a second,
    expire what has timed out.  [wall] is the clock when the pop returns,
    [en_now] when the tick is considered. *)
Definition decoder_wait (e : env) (wall : Z) (q : frame_queue) (t : decoder_task) : frame_queue * bool * decoder_task :=
  let '(q, item, got) := frame_queue_pop q (tk_item t) in
  let '(rf, wall_at) :=
    if got && (tk_rf_now t <? it_timestamp_us item) then (it_timestamp_us item, wall)
    else (tk_rf_now t, tk_wall_at_rf_now t) in
  let now := en_now e in
  let '(d, last_tick) :=
    if 1000000 <? u64 (now - tk_last_tick t) then
      let drain_now := u64 (rf + u64 (now - wall_at)) in
      let d := with_sbd (sbd_reassembler_tick (de_sbd (tk_dec t)) drain_now) (tk_dec t) in
      (ida_salvage_drain e drain_now d, now)
    else (tk_dec t, tk_last_tick t) in
  (q, got, Task d rf wall_at last_tick item).

(** One turn of the loop. *)
Definition decoder_turn (band_vdl2 : bool) (e : env) (wall : Z) (q : frame_queue) (t : decoder_task)
  : frame_queue * decoder_task :=
  let '(q, got, t) := decoder_wait e wall q t in
  let d := tk_dec t in
  let d :=
    if got then if band_vdl2 then process_one_vdl2 (tk_item t) d else process_one e (tk_item t) d else d in
  (q, Task d (tk_rf_now t) (tk_wall_at_rf_now t) (tk_last_tick t) (tk_item t)).
End Decoder.
