(* ===== verification/DecoderTrust.v ===== *)
(** What the decoder task may hand to libacars.

    Every open chain of the fragment reassembler, and every open message of the
    SBD reassembler, is traced back to the DA frames received: the bytes are
    those of a subsequence of them, in order, and unless marked dirty all of
    them passed their CRC.  The task's turns preserve this, so what libacars is
    given on the Iridium path consists of such bytes only. *)

From stdpp Require Import strings pretty.
From S2P Require Import Prelude Gf2 Bits Crc16 IridiumBch IridiumFrame IdaDecode IdaEncode IdaChase IdaReassembler.
From S2P Require Import SbdReassembler Avlc Vdl2L2 FrameQueue MsgRing FrameDecoder.
#[local] Open Scope Z_scope.

(** ** Received DA frames *)

(** A decoded DA frame with its direction, channel and time. *)
Record received := Received { rv_ida : ida_decoded; rv_uplink : bool; rv_freq : Z; rv_time : Z }.

Definition clean (r : received) : bool := id_ok (rv_ida r) && header_ok (rv_ida r) && crc_ok (rv_ida r).
(** What the chain gate admits: clean frames, and continuations that failed
    only their CRC. *)
Definition admitted (r : received) : Prop :=
  clean r = true \/ (id_ok (rv_ida r) && header_ok (rv_ida r) = true /\ 0 < da_ctr (rv_ida r)).

Definition chain_octets (l : list received) : list Z := concat (map (fun r => fragment_bytes (rv_ida r)) l).

(** [r] continues a chain opened at [f0] that expects [ctr] and was last fed
    at [t]. *)
Definition continues (up : bool) (f0 ctr t : Z) (r : received) : Prop :=
  rv_uplink r = up /\ da_ctr (rv_ida r) = ctr /\ ctr <> 0 /\
  t <= rv_time r <= t + IDA_REASM_FRAG_GAP_US /\
  in_deadband (IdaReasmSession true up f0 ctr t [] 0 false) (rv_freq r) = true.

(** An open chain, with the counter it expects and its last time. *)
Inductive open_chain (up : bool) (f0 : Z) : list received -> Z -> Z -> Prop :=
  | chain_opens r : rv_uplink r = up -> rv_freq r = f0 -> da_ctr (rv_ida r) = 0 -> da_cont (rv_ida r) <> 0 ->
      open_chain up f0 [r] 1 (rv_time r)
  | chain_grows l ctr t r : open_chain up f0 l ctr t -> continues up f0 ctr t r -> da_cont (rv_ida r) <> 0 ->
      open_chain up f0 (l ++ [r]) ((ctr + 1) mod 8) (rv_time r).

(** A complete one: a frame that stands alone, or an open chain and its last
    frame. *)
Inductive whole_chain (up : bool) : list received -> Prop :=
  | chain_single r : rv_uplink r = up -> da_ctr (rv_ida r) = 0 -> da_cont (rv_ida r) = 0 -> whole_chain up [r]
  | chain_ends f0 l ctr t r : open_chain up f0 l ctr t -> continues up f0 ctr t r -> da_cont (rv_ida r) = 0 ->
      whole_chain up (l ++ [r]).

(** Octets of a complete chain within the history [h], clean throughout unless
    [dirty]. *)
Definition chain_from (h : list received) (up dirty : bool) (bytes : list Z) : Prop :=
  exists l, sublist l h /\ whole_chain up l /\ bytes = chain_octets l /\
    (dirty = false -> Forall (fun r => clean r = true) l).

Definition session_from (h : list received) (s : ida_reasm_session) : Prop :=
  rs_active s = true -> exists l, sublist l h /\
    open_chain (rs_uplink s) (rs_freq_hz s) l (rs_next_ctr s) (rs_last_time_us s) /\
    rs_payload_len s = Z.of_nat (length (chain_octets l)) /\
    take (length (chain_octets l)) (rs_payload s) = chain_octets l /\
    (rs_dirty s = false -> Forall (fun r => clean r = true) l).

Definition reasm_from (h : list received) (ctx : ida_reassembler) : Prop :=
  ctx_ok ctx /\ forall i, (i < 4)%nat -> session_from h (session ctx i).

Lemma chain_octets_snoc l r : chain_octets (l ++ [r]) = chain_octets l ++ fragment_bytes (rv_ida r).
Proof. unfold chain_octets. by rewrite map_app, concat_app; cbn; rewrite app_nil_r. Qed.

Lemma session_from_more h r s : session_from h s -> session_from (h ++ [r]) s.
Proof.
  intros H Ha. destruct (H Ha) as (l & Hl & R). exists l. split; [|exact R].
  etransitivity; [exact Hl|]. apply sublist_inserts_r. reflexivity.
Qed.

Lemma session_from_inactive h s : rs_active s = false -> session_from h s.
Proof. intros H. unfold session_from. by rewrite H. Qed.

Lemma reasm_from_init : reasm_from [] ida_reassembler_init.
Proof.
  split; [apply ida_reassembler_init_ok|]. intros i Hi. apply session_from_inactive.
  do 4 (destruct i as [|i]; [done|]). lia.
Qed.

Lemma reasm_from_more h r ctx : reasm_from h ctx -> reasm_from (h ++ [r]) ctx.
Proof. intros [Hok H]. split; [done|]. intros i Hi. by apply session_from_more, H. Qed.

Lemma open_chain_ctr up f0 l ctr t : open_chain up f0 l ctr t -> 0 <= ctr < 8.
Proof. destruct 1; [lia|]. apply Z.mod_pos_bound. lia. Qed.

(** The reaper hands out a session and frees it. *)
Lemma reap_from h ctx now sv :
  reasm_from h ctx -> length (sv_payload sv) = 320%nat ->
  let '(r, sv', ctx') := ida_reassembler_reap ctx now sv in
  reasm_from h ctx' /\ length (sv_payload sv') = 320%nat.
Proof.
  intros [Hok H] Hl. pose proof (reap_ctx_ok ctx now sv Hok) as Hok'. pose proof (reap_spec ctx now sv Hok Hl) as Hs.
  destruct (ida_reassembler_reap ctx now sv) as [[r sv'] ctx']. cbn [snd] in Hok'.
  destruct Hs as [Hsv Hs]. split; [|done]. split; [done|]. intros j Hj.
  destruct Hs as [(_ & _ & -> & _)|(i & _ & _ & _ & Hs & _)]; [by apply H|]. rewrite Hs by done.
  destruct (decide (i = j)); [by apply session_from_inactive|by apply H].
Qed.

(** ** Feeding *)

Record frame_ok (r : received) : Prop := {
  rk_fragment : fragment_ok (rv_ida r); rk_freq : is_u 32 (rv_freq r); rk_time : is_u 64 (rv_time r) }.

Lemma matched_continues ctx up r i :
  ctx_ok ctx -> frame_ok r -> rv_uplink r = up -> da_ctr (rv_ida r) <> 0 ->
  find_matching_session ctx up (rv_freq r) (da_ctr (rv_ida r)) (rv_time r) = Some i ->
  let s := session ctx i in
  (i < 4)%nat /\ rs_active s = true /\ rs_uplink s = up /\
  continues up (rs_freq_hz s) (rs_next_ctr s) (rs_last_time_us s) r.
Proof.
  intros Hok [_ _ Ht] Hup Hc E. apply find_matching_bound in E as (Hi & Hm & Hd). cbv zeta.
  apply matches_spec in Hm as (Ha & Hu & Hn & Hgap); [|by apply session_ok_at|done].
  split; [done|]. split; [done|]. split; [done|]. destruct Hgap. unfold continues. rewrite Hn. by split_and!.
Qed.

(** Extending the bytes of a session by a fragment. *)
Lemma merged_from h s r :
  session_ok s -> frame_ok r -> rs_active s = true -> session_from h s ->
  id_payload_len (rv_ida r) <= IDA_REASM_MAX_BYTES - rs_payload_len s ->
  continues (rs_uplink s) (rs_freq_hz s) (rs_next_ctr s) (rs_last_time_us s) r -> admitted r ->
  let payload := blit (rs_payload s) (Z.to_nat (rs_payload_len s))
    (take (Z.to_nat (id_payload_len (rv_ida r))) (id_payload (rv_ida r))) in
  let len := rs_payload_len s + id_payload_len (rv_ida r) in
  exists l, sublist (l ++ [r]) (h ++ [r]) /\
    open_chain (rs_uplink s) (rs_freq_hz s) l (rs_next_ctr s) (rs_last_time_us s) /\
    len = Z.of_nat (length (chain_octets (l ++ [r]))) /\
    take (length (chain_octets (l ++ [r]))) payload = chain_octets (l ++ [r]) /\
    (negb (crc_ok (rv_ida r)) || rs_dirty s = false -> Forall (fun r => clean r = true) (l ++ [r])).
Proof.
  intros Hs [Hf _ _] Ha H Hfit Hcont Hadm. destruct (H Ha) as (l & Hl & Hch & Elen & Ebytes & Hclean). cbv zeta.
  pose proof (length_fragment_bytes _ Hf) as Hfl. destruct (fk_len _ Hf) as [Hp0 _].
  exists l. split; [by apply sublist_app|]. split; [done|].
  rewrite chain_octets_snoc, length_app. split; [lia|]. split.
  - unfold IDA_REASM_MAX_BYTES in Hfit. rewrite <- length_app. apply merged_bytes; done || lia.
  - intros [Hc Hd]%orb_false_iff. apply negb_false_iff in Hc. apply Forall_app. split; [by apply Hclean|].
    constructor; [|done]. destruct Hadm as [|[Hok _]]; [done|]. unfold clean. by rewrite Hok, Hc.
Qed.

Lemma session_set_from h ctx i s :
  ctx_ok ctx -> (i < 4)%nat -> (forall j, (j < 4)%nat -> session_from h (session ctx j)) -> session_from h s ->
  forall j, (j < 4)%nat -> session_from h (session (set_session ctx i s) j).
Proof.
  intros Hok Hi H Hs j Hj. rewrite session_set by done. destruct (decide (i = j)); [done|by apply H].
Qed.

(** One feed: the table stays traced, and what is returned is a chain. *)
Lemma feed_from h ctx r :
  reasm_from h ctx -> frame_ok r -> admitted r ->
  let '(o, ctx') := ida_reassembler_feed_ex ctx (rv_ida r) (crc_ok (rv_ida r)) (rv_uplink r) (rv_freq r) (rv_time r)
    (replicate 320 0) 320 in
  reasm_from (h ++ [r]) ctx' /\
  (fo_ret o = 1 -> exists bytes, chain_from (h ++ [r]) (rv_uplink r) (fo_dirty o) bytes /\
     fo_len o = Z.of_nat (length bytes) /\ fo_payload o = blit (replicate 320 0) 0 bytes /\
     (length bytes <= 320)%nat).
Proof.
  intros [Hok H] Hr Hadm. pose proof Hr as [Hf Hfr Ht].
  pose proof (feed_ctx_ok ctx (rv_ida r) (crc_ok (rv_ida r)) (rv_uplink r) (rv_freq r) (rv_time r)
    (replicate 320 0) 320 Hok Hf Hfr Ht) as Hok'.
  pose proof (length_fragment_bytes _ Hf) as Hfl. pose proof (fk_len _ Hf) as Hpl.
  assert (H' : forall j, (j < 4)%nat -> session_from (h ++ [r]) (session ctx j))
    by (intros j Hj; by apply session_from_more, H).
  assert (Hlast : sublist [r] (h ++ [r])) by (apply sublist_inserts_l; reflexivity).
  rewrite feed_cases in * by done. cbv zeta in *.
  destruct (Z.eqb_spec (da_ctr (rv_ida r)) 0) as [Hc|Hc].
  - assert (Hcl : clean r = true) by (destruct Hadm as [|[_ Hx]]; [done|lia]).
    destruct (Z.eqb_spec (da_cont (rv_ida r)) 0) as [Hz|Hz].
    + split; [done|]. intros _. exists (fragment_bytes (rv_ida r)). cbn [fo_dirty fo_len fo_payload].
      rewrite Z.min_r by lia. split; [|split; [lia|split; [done|lia]]].
      exists [r]. split; [done|]. split; [by constructor|]. split.
      * cbn. by rewrite app_nil_r.
      * intros _. by constructor.
    + destruct (find_free_session ctx) as [i|] eqn:Ef; [|done]. apply find_free_bound in Ef as [Hi _].
      split; [|done]. split; [done|]. intros j Hj. rewrite session_count. revert j Hj.
      apply session_set_from; [done|done|done|]. intros _.
      exists [r]. cbn [rs_uplink rs_freq_hz rs_next_ctr rs_last_time_us rs_payload_len rs_payload rs_dirty].
      assert (Ec : chain_octets [r] = fragment_bytes (rv_ida r)) by (cbn; by rewrite app_nil_r).
      rewrite Ec. split; [done|]. split; [by constructor|]. split; [lia|]. split.
      * unfold blit. rewrite take_0. cbn [app]. by rewrite take_app_length.
      * intros _. by constructor.
  - destruct (find_matching_session _ _ _ _ _) as [i|] eqn:Em; [|done].
    destruct (matched_continues ctx (rv_uplink r) r i Hok Hr eq_refl Hc Em) as (Hi & Ha & Hu & Hcont).
    set (s := session ctx i) in *.
    destruct (Z.ltb_spec (IDA_REASM_MAX_BYTES - rs_payload_len s) (id_payload_len (rv_ida r))) as [Hfull|Hfit].
    + split; [|done]. split; [done|]. intros j Hj. rewrite session_count. revert j Hj.
      apply session_set_from; [done|done|done|]. by apply session_from_inactive.
    + rewrite <- Hu in Hcont.
      destruct (merged_from h s r (session_ok_at ctx i Hok) Hr Ha (H i Hi) Hfit Hcont Hadm)
        as (l & Hl & Hch & Elen & Ebytes & Hclean).
      destruct (Z.eqb_spec (da_cont (rv_ida r)) 0) as [Hz|Hz].
      * split.
        { split; [done|]. intros j Hj. rewrite session_bin_completed, session_count. revert j Hj.
          apply session_set_from; [done|done|done|]. by apply session_from_inactive. }
        intros _. exists (chain_octets (l ++ [r])). cbn [fo_dirty fo_len fo_payload].
        pose proof (so_len _ (session_ok_at ctx i Hok)) as Hsl. fold s in Hsl. unfold IDA_REASM_MAX_BYTES in *.
        rewrite Z.min_r by lia. split; [|split; [done|split; [|lia]]].
        -- exists (l ++ [r]). split; [done|]. split; [|done]. rewrite Hu in *. by econstructor.
        -- by rewrite Elen, Nat2Z.id, Ebytes.
      * split; [|done]. split; [done|]. intros j Hj. rewrite session_count. revert j Hj.
        apply session_set_from; [done|done|done|]. intros _. exists (l ++ [r]).
        cbn [rs_uplink rs_freq_hz rs_next_ctr rs_last_time_us rs_payload_len rs_payload rs_dirty].
        split; [done|]. split; [|done].
        pose proof Hcont as (_ & Ec & _). rewrite Ec. by econstructor.
Qed.

(** ** Messages *)

(** A trusted envelope: the octets of a clean chain, and how they parse. *)
Definition trusted_envelope (h : list received) (up : bool) (x : list Z * envelope) : Prop :=
  chain_from h up false (fst x) /\ feed_parse (fst x) (Z.of_nat (length (fst x))) up = Some (snd x).

Definition body_of (x : list Z * envelope) : list Z :=
  slice (fst x) (ev_off (snd x)) (Z.to_nat (ev_len (snd x))).

(** The payload of a message assembled from these envelopes. *)
Definition message_octets (es : list (list Z * envelope)) : list Z := take 320 (concat (map body_of es)).

(** Envelopes of one message: a short or single one, or frames numbered from 1. *)
Definition numbered_from_1 (es : list (list Z * envelope)) : Prop :=
  map (fun x => ev_msg_no (snd x)) es = map Z.of_nat (seq 1 (length es)).

Definition message_from (h : list received) (up : bool) (m : sbd_message) : Prop :=
  exists es, es <> [] /\ Forall (trusted_envelope h up) es /\
    (length es = 1%nat \/ numbered_from_1 es) /\
    m_payload_len m = Z.of_nat (length (message_octets es)) /\
    take (length (message_octets es)) (m_payload m) = message_octets es.

Definition sbd_session_from (h : list received) (s : sbd_session) : Prop :=
  ss_active s = true -> exists es, es <> [] /\ Forall (trusted_envelope h (ss_uplink s)) es /\ numbered_from_1 es /\
    ss_msg_no_next s = Z.of_nat (length es) + 1 /\ Z.of_nat (length es) + 1 <= ss_msg_cnt s /\
    m_payload_len (ss_msg s) = Z.of_nat (length (message_octets es)) /\
    take (length (message_octets es)) (m_payload (ss_msg s)) = message_octets es.

Definition sbd_from (h : list received) (ctx : sbd_reassembler) : Prop :=
  sbd_ok ctx /\ forall i, (i < 8)%nat -> sbd_session_from h (sbd_at ctx i).

Lemma chain_from_more h r up d b : chain_from h up d b -> chain_from (h ++ [r]) up d b.
Proof.
  intros (l & Hl & R). exists l. split; [|exact R]. etransitivity; [exact Hl|]. apply sublist_inserts_r. reflexivity.
Qed.

Lemma trusted_more h r up x : trusted_envelope h up x -> trusted_envelope (h ++ [r]) up x.
Proof. intros [H ?]. split; [by apply chain_from_more|done]. Qed.

Lemma sbd_from_more h r ctx : sbd_from h ctx -> sbd_from (h ++ [r]) ctx.
Proof.
  intros [Hok H]. split; [done|]. intros i Hi Ha. destruct (H i Hi Ha) as (es & Hne & Hes & R).
  exists es. split; [done|]. split; [|exact R]. eapply List.Forall_impl; [|exact Hes]. intros x. apply trusted_more.
Qed.

Lemma sbd_from_init : sbd_from [] sbd_reassembler_init.
Proof.
  split; [apply sbd_init_ok|]. intros i Hi. unfold sbd_session_from.
  do 8 (destruct i as [|i]; [done|]). lia.
Qed.

(** ** Feeding envelopes *)

Lemma tick_from h ctx now : sbd_from h ctx -> sbd_from h (sbd_reassembler_tick ctx now).
Proof.
  intros [Hok H]. destruct (tick_spec ctx now Hok) as (Hok' & Hat & _). split; [done|]. intros i Hi.
  rewrite Hat, decide_True by done. destruct (sbd_stale _ _); [done|by apply H].
Qed.

Lemma sbd_set_from h ctx i s a b c d e f :
  sbd_from h ctx -> (i < 8)%nat -> sbd_session_ok s -> sbd_session_from h s ->
  sbd_from h (sbd_count (sbd_set ctx i s) a b c d e f).
Proof.
  intros [Hok H] Hi Hs Hf. split; [by apply sbd_ok_count, sbd_ok_set|]. intros j Hj.
  rewrite sbd_at_count, sbd_at_set by done. destruct (decide (i = j)); [done|by apply H].
Qed.

Lemma sbd_count_from h ctx a b c d e f : sbd_from h ctx -> sbd_from h (sbd_count ctx a b c d e f).
Proof. done. Qed.

Lemma blit_prefix (l s : list Z) : take (length s) (blit l 0 s) = s.
Proof. unfold blit. rewrite take_0. cbn [app]. by rewrite take_app_length. Qed.

Lemma message_octets_one x : (length (body_of x) <= 320)%nat -> message_octets [x] = body_of x.
Proof. intros H. unfold message_octets. cbn. rewrite app_nil_r. by apply take_ge. Qed.

(** One more body appends as much as fits. *)
Lemma message_octets_snoc es x :
  message_octets (es ++ [x]) =
  message_octets es ++ take (320 - length (message_octets es)) (body_of x).
Proof.
  unfold message_octets. rewrite map_app, concat_app. cbn. rewrite app_nil_r, take_app. f_equal.
  rewrite length_take. destruct (Nat.le_ge_cases (length (concat (map body_of es))) 320).
  - by rewrite Nat.min_r by lia.
  - rewrite Nat.min_l by lia. by replace (320 - length (concat (map body_of es)))%nat with 0%nat by lia.
Qed.

Lemma slice_padded (bytes : list Z) off n :
  (off + n <= length bytes)%nat -> (length bytes <= 320)%nat ->
  slice (blit (replicate 320 0) 0 bytes) off n = slice bytes off n.
Proof.
  intros H Hl. unfold slice, blit. rewrite take_0. cbn [app].
  rewrite drop_app_le by lia. apply take_app_le. rewrite length_drop. lia.
Qed.

Lemma rd_padded (bytes : list Z) i : Z.of_nat i < Z.of_nat (length bytes) -> rd (blit (replicate 320 0) 0 bytes) i = rd bytes i.
Proof.
  intros H. unfold rd, blit. rewrite take_0. cbn [app]. apply app_nth1. lia.
Qed.

Lemma padded_bytes bytes : is_bytes bytes -> is_bytes (blit (replicate 320 0) 0 bytes).
Proof.
  intros H. unfold blit. rewrite !Forall_app. split; [done|]. split; [done|].
  apply Forall_drop, Forall_replicate. unfold is_u. lia.
Qed.

Lemma numbered_snoc_1 es x :
  numbered_from_1 es -> ev_msg_no (snd x) = Z.of_nat (length es) + 1 -> numbered_from_1 (es ++ [x]).
Proof.
  unfold numbered_from_1. intros H Hx. rewrite map_app, length_app, H. cbn [length map].
  rewrite Nat.add_1_r, seq_S, map_app. cbn [map]. do 2 f_equal. lia.
Qed.

(** An accepted continuation. *)
Lemma extend_from h s bytes e now :
  sbd_session_ok s -> sbd_session_from h s -> ss_active s = true ->
  ss_msg_no_next s = ev_msg_no e -> envelope_ok (Z.of_nat (length bytes)) e -> (length bytes <= 320)%nat ->
  trusted_envelope h (ss_uplink s) (bytes, e) ->
  let s' := extend s (blit (replicate 320 0) 0 bytes) e now in
  sbd_session_from h s' /\ message_from h (ss_uplink s) (ss_msg s').
Proof.
  intros Hs H Ha Hno He Hlen Ht. destruct (H Ha) as (es & Hne & Hes & Hnum & Hnext & Hcnt & Hl & Hb).
  cbv zeta. set (x := (bytes, e)) in *. destruct Hs as [K1 K2 K3 K4 K5]. destruct (K4 Ha) as [_ K6].
  pose proof He as [_ _ _ _ H5 H6 _]. unfold SBD_MAX_PAYLOAD in H5.
  assert (Hbody : length (body_of x) = Z.to_nat (ev_len e)) by (apply length_slice; cbn; lia).
  set (n := length (message_octets es)) in *.
  assert (Hn : (n <= 320)%nat) by (unfold n, message_octets; rewrite length_take; lia).
  assert (Hcopy : slice (blit (replicate 320 0) 0 bytes) (ev_off e) (Z.to_nat (Z.min (ev_len e) (320 - Z.of_nat n))) =
    take (320 - n) (body_of x)).
  { rewrite slice_padded by lia. unfold body_of, x, slice. cbn [fst snd]. rewrite take_take. f_equal. lia. }
  assert (Hl' : m_payload_len (ss_msg (extend s (blit (replicate 320 0) 0 bytes) e now)) =
    Z.of_nat (length (message_octets (es ++ [x])))).
  { unfold extend. cbn [ss_msg m_payload_len]. rewrite Hl, message_octets_snoc, length_app, length_take, Hbody. fold n. lia. }
  assert (Hb' : take (length (message_octets (es ++ [x]))) (m_payload (ss_msg (extend s (blit (replicate 320 0) 0 bytes) e now))) =
    message_octets (es ++ [x])).
  { unfold extend. cbn [ss_msg m_payload]. rewrite Hl, Nat2Z.id, Hcopy, message_octets_snoc. fold n.
    unfold blit. rewrite Hb. rewrite app_assoc. by rewrite take_app_length. }
  assert (Hes' : Forall (trusted_envelope h (ss_uplink s)) (es ++ [x])) 
    by (apply Forall_app; split; [done|]; apply Forall_cons_2; [done|apply Forall_nil_2]).
  assert (Hnum' : numbered_from_1 (es ++ [x])) by (apply numbered_snoc_1; [done|cbn; lia]).
  assert (Hne' : es ++ [x] <> []) by (by destruct es).
  split; [|exists (es ++ [x]); auto].
  intros Ha'. exists (es ++ [x]). split; [done|]. split; [done|]. split; [done|].
  unfold extend in Ha'. cbn [ss_active] in Ha'. apply negb_true_iff, Z.eqb_neq in Ha'.
  split; [|split; [|split; [exact Hl'|exact Hb']]]; rewrite length_app; cbn [length].
  - unfold extend. cbn [ss_msg_no_next]. rewrite u8_small by lia. lia.
  - unfold extend. cbn [ss_msg_cnt]. lia.
Qed.

(** One envelope of a clean chain. *)
Lemma sbd_feed_from h ctx bytes up now :
  sbd_from h ctx -> chain_from h up false bytes -> is_bytes bytes -> (length bytes <= 320)%nat -> is_u 64 now ->
  let '(rc, m, ctx') := sbd_reassembler_feed ctx (blit (replicate 320 0) 0 bytes) (Z.of_nat (length bytes)) up now
    sbd_message_zero in
  sbd_from h ctx' /\ (rc = 1 -> m_uplink m = up /\ message_from h up m).
Proof.
  intros Hfrom Hch Hby Hlen Hnow. set (payload := blit (replicate 320 0) 0 bytes).
  pose proof (padded_bytes bytes Hby) as Hpb. fold payload in Hpb.
  assert (Hpl : length payload = 320%nat) by (apply length_blit; rewrite length_replicate; lia).
  pose proof Hfrom as [Hok _].
  pose proof (sbd_feed_ok ctx payload (Z.of_nat (length bytes)) up now sbd_message_zero Hok Hpb ltac:(lia) Hnow eq_refl) as Hfok.
  assert (Hparse : feed_parse payload (Z.of_nat (length bytes)) up = feed_parse bytes (Z.of_nat (length bytes)) up)
    by (apply parse_local, rd_padded).
  unfold sbd_reassembler_feed in *. pose proof (parse_agree payload (Z.of_nat (length bytes)) up Hpb) as Hp.
  destruct (feed_parse payload (Z.of_nat (length bytes)) up) as [e|]; [|done].
  destruct Hp as (_ & He & _). rewrite (dispatch_cases _ _ (Z.of_nat (length bytes))) in * by done. cbv zeta in *.
  pose proof (tick_from h ctx now Hfrom) as Hf1. clear Hfrom Hok.
  revert Hfok Hf1. generalize (sbd_reassembler_tick ctx now). intros ctx1 Hfok Hf1.
  assert (Ht : trusted_envelope h up (bytes, e)) by (split; [done|by symmetry]).
  pose proof He as [_ K1 K2 _ K4 K5 _]. unfold SBD_MAX_PAYLOAD in K4.
  assert (Eb : slice payload (ev_off e) (Z.to_nat (ev_len e)) = body_of (bytes, e)) by (apply slice_padded; lia).
  rewrite Eb in *.
  assert (Hbl : length (body_of (bytes, e)) = Z.to_nat (ev_len e)) by (apply length_slice; cbn; lia).
  assert (Hone : message_octets [(bytes, e)] = body_of (bytes, e)) by (apply message_octets_one; lia).
  assert (Hm : forall o c no, length (m_payload o) = 320%nat ->
    let m := message_of o (ev_type e) up now (ev_len e) (body_of (bytes, e)) c no in
    m_payload_len m = Z.of_nat (length (message_octets [(bytes, e)])) /\
    take (length (message_octets [(bytes, e)])) (m_payload m) = message_octets [(bytes, e)]).
  { intros o c no Ho m. subst m. rewrite Hone. destruct (message_of_ok o (ev_type e) up now (ev_len e) (body_of (bytes, e)) c no)
      as [_ ->]; [done|lia|lia|]. split; [lia|]. apply blit_prefix. }
  destruct (Z.eqb_spec (ev_msg_no e) 0) as [E0|E0].
  { split; [done|]. intros _. split; [done|]. exists [(bytes, e)]. split; [done|].
    split; [by constructor|]. split; [by left|]. by apply Hm. }
  destruct ((ev_msg_cnt e =? 1) && (ev_msg_no e =? 1)).
  { split; [done|]. intros _. split; [done|]. exists [(bytes, e)]. split; [done|].
    split; [by constructor|]. split; [by left|]. by apply Hm. }
  destruct ((1 <? ev_msg_cnt e) && (ev_msg_cnt e <=? 32) && (ev_msg_no e =? 1)) eqn:Eo.
  { apply andb_true_iff in Eo as [Eo E1]. apply andb_true_iff in Eo as [Ec1 Ec2].
    apply Z.ltb_lt in Ec1. apply Z.eqb_eq in E1.
    destruct (sbd_find_free_session ctx1) as [i|] eqn:Ef; [|done].
    destruct (sbd_find_free_spec _ _ Ef) as [Hi _]. destruct Hfok as [Hok' _]. split; [|done].
    split; [done|]. destruct Hf1 as [Hok1 Hf1]. intros j Hj. rewrite sbd_at_count, sbd_at_set by done.
    destruct (decide (i = j)); [|by apply Hf1]. intros _. exists [(bytes, e)].
    cbn [ss_uplink ss_msg_no_next ss_msg_cnt ss_msg]. split; [done|]. split; [by constructor|].
    split; [unfold numbered_from_1; cbn; by rewrite E1|]. split; [done|]. split; [cbn; lia|].
    apply Hm. apply sbd_at_ok, Hok1. }
  destruct (Z.ltb_spec 1 (ev_msg_no e)); [|done].
  destruct (sbd_find_matching_session ctx1 (ev_msg_no e) up (ev_type e)) as [i|] eqn:Ef; [|done].
  apply sbd_find_matching_spec in Ef as [Hi Hmt]. apply sbd_matches_spec in Hmt as (A1 & A2 & A3 & A4).
  destruct Hf1 as [Hok1 Hf1]. rewrite <- A3 in Ht.
  destruct (extend_from h (sbd_at ctx1 i) bytes e now (sbd_at_ok _ i Hok1) (Hf1 i Hi) A1 A2 He Hlen Ht) as [Hs' Hm'].
  fold payload in Hs', Hm'.
  pose proof (extend_ok (sbd_at ctx1 i) payload _ e now A1 (sbd_at_ok _ i Hok1) He ltac:(lia) Hnow) as Hsok.
  destruct (ev_msg_no e =? ss_msg_cnt (sbd_at ctx1 i)).
  - split; [by apply sbd_set_from|]. intros _. rewrite <- A3. split; [|done].
    rewrite (proj2 (sk_type _ Hsok)). done.
  - split; [by apply sbd_set_from|done].
Qed.

(** ** Decoded frames are well formed *)

(** Packing any bytes, in range or not, stays within the width. *)
Lemma packbits_bound b off n : (n <= 32)%nat -> 0 <= packbits b off n < 2 ^ Z.of_nat n.
Proof.
  intros Hn. unfold packbits.
  apply (forN_inv (fun i v => 0 <= v < 2 ^ Z.of_nat i)); [done|].
  intros i v Hi Hv. rewrite lor_shiftl1_bit. pose proof (b2z_range (Z.odd (rd b (off + i)))).
  assert (2 ^ Z.of_nat i <= 2 ^ 31) by (apply Z.pow_le_mono_r; lia).
  rewrite u32_small by lia. rewrite Nat2Z.inj_succ, Z.pow_succ_r by lia. lia.
Qed.

Definition well_formed (ida : ida_decoded) : Prop := fragment_ok ida /\ is_bytes (id_payload ida).

Lemma zero_octets n : is_bytes (replicate n 0).
Proof. apply Forall_replicate. unfold is_u. lia. Qed.

Lemma clamp_range q a :
  0 <= q ->
  let m := if 24 <? q then 24 else q in let v := if a <? 0 then 0 else a in
  0 <= (if v <? m then v else m) <= 24.
Proof.
  intros Hq m v. assert (0 <= m <= 24) by (unfold m; destruct (24 <? q) eqn:E; lia).
  assert (0 <= v) by (unfold v; destruct (a <? 0) eqn:E; lia). clearbody m v. destruct (v <? m) eqn:E; lia.
Qed.

Lemma payload_max_len_range l n : 0 <= payload_max_len l n <= 24.
Proof.
  unfold payload_max_len. cbv zeta. apply clamp_range, Z.div_pos; [|lia].
  generalize (if 0 <? l then l * 8 else n - 20). intros b. destruct (b <? 0) eqn:E; lia.
Qed.

Lemma parse_well_formed o : well_formed o -> well_formed (ida_decode_parse_fields o).
Proof.
  intros [[K1 K2 K3] Hb]. unfold ida_decode_parse_fields. destruct (id_n_bits o <? 196); [done|]. cbv zeta.
  split.
  - constructor; cbn [id_payload id_payload_len da_ctr].
    + by rewrite length_write_payload.
    + apply payload_max_len_range.
    + apply (packbits_bound _ 5 3). lia.
  - cbn [id_payload]. apply (forN_inv (fun _ p => is_bytes p)); [done|]. intros i x _ Hx.
    apply Forall_insert; [done|]. apply (packbits_bound _ _ 8). lia.
Qed.

(** A record whose parsed fields are all zero. *)
Lemma blank_well_formed ok nb bok te n bits cu cc :
  well_formed (IdaDecoded ok nb bok te n bits 0 0 0 0 0 0 0 false (replicate 24 0) 0 0 0 false cu cc).
Proof. split; [by constructor|]. apply zero_octets. Qed.

Lemma ida_zero_well_formed : well_formed ida_zero.
Proof. apply blank_well_formed. Qed.

Lemma decode_well_formed f o st : well_formed o -> well_formed (ida_decode f o st).1.2.
Proof.
  intros Ho. unfold ida_decode. destruct (negb _ || negb _); [done|]. destruct (_ <? _)%nat; [done|].
  destruct (forN 10 _ _) as [[[bits bok] te] st']. cbn [fst snd]. apply parse_well_formed, blank_well_formed.
Qed.

Lemma search_well_formed fuel msgs failed cand n_cand odo checks stats o :
  well_formed o -> well_formed (chase_search fuel msgs failed cand n_cand odo checks stats o).1.2.
Proof.
  intros Ho. revert odo checks stats. induction fuel as [|fuel IH]; intros odo checks stats; [done|].
  cbn [chase_search]. destruct (header_ok _ && crc_ok _).
  - cbn [fst snd]. assert (Ht : well_formed (trial_of (assemble msgs cand odo)))
      by (apply parse_well_formed, blank_well_formed).
    revert Ht. generalize (trial_of (assemble msgs cand odo)). intros t [[K1 K2 K3] Hb].
    split; [by constructor|done].
  - destruct (odo_advance _ _ _) as [[] odo']; [apply IH|done].
Qed.

Lemma chase_well_formed f soft n o s st : well_formed o -> well_formed (ida_chase_decode f soft n o s st).1.1.2.
Proof.
  intros Ho. unfold ida_chase_decode. destruct (negb (s_enabled s)); [done|].
  destruct (negb _ || negb _); [done|]. destruct (id_ok o); [done|]. destruct soft as [soft|]; [|done].
  destruct (n <? _)%nat; [done|]. destruct (fr_n_bits f <? _)%nat; [done|].
  destruct (hard_pass _ _) as [[msgs failed] st1]. destruct (length failed =? 0)%nat; [done|].
  destruct (failed_pass _ _ _ _ _ _ _ _) as [[[cand n_cand]|] st2]; [|done].
  pose proof (search_well_formed (s_max_crc (with_stats (if s_map_built s then s else build_index_map s)
    (ChaseStats (u32 (attempts (s_stats (if s_map_built s then s else build_index_map s)) + 1))
     (recovered (s_stats (if s_map_built s then s else build_index_map s)))
     (crc_checks (s_stats (if s_map_built s then s else build_index_map s))))))
    msgs failed cand n_cand (replicate IDA_DECODE_N_CW 0%nat) 0
    (s_stats (with_stats (if s_map_built s then s else build_index_map s)
    (ChaseStats (u32 (attempts (s_stats (if s_map_built s then s else build_index_map s)) + 1))
     (recovered (s_stats (if s_map_built s then s else build_index_map s)))
     (crc_checks (s_stats (if s_map_built s then s else build_index_map s)))))) o Ho) as H.
  destruct (chase_search _ _ _ _ _ _ _ _ _) as [[r o'] st3]. exact H.
Qed.

(** ** Outputs *)

Section trust.
Context {Ctx : Type} {Hla : AcarsLibrary Ctx}.

(** The octets of a message assembled from what was received in direction
    [up], less the prefix, as libacars is given them. *)
Definition given (h : list received) (up : bool) (buf : list Z) : Prop :=
  exists es, es <> [] /\ Forall (trusted_envelope h up) es /\ (length es = 1%nat \/ numbered_from_1 es) /\
    buf = strip_acars_prefix (message_octets es).

(** What each output may be: a trusted message reports a complete ACARS block
    that libacars found in such octets; a partial row is marked as one. *)
Definition output_ok (h : list received) (o : output) : Prop :=
  match o with
  | Parsed buf up _ => given h up buf
  | Trusted m => exists la buf time la' nodes a snr,
      given h (am_uplink m) buf /\ la_acars_parse_and_reassemble la buf (am_uplink m) time = (la', Some nodes) /\
      find_acars_msg nodes = Some a /\ (la_reasm a = LA_REASM_COMPLETE \/ la_reasm a = LA_REASM_SKIPPED) /\
      m = message_out a (am_uplink m) (am_timestamp_us m) (am_peak_bin m) snr None
  | Partial m => am_partial m = true /\ am_crc_ok m = false /\ take 7 (am_txt m) = chars "PARTIAL"
  | HotPublish _ _ | HotClear _ => True
  end.

Definition octets_received (h : list received) : Prop := Forall (fun r => well_formed (rv_ida r)) h.

Record traced (h : list received) (d : decoder (Ctx := Ctx)) : Prop := {
  tr_octets : octets_received h; tr_ida : reasm_from h (de_ida d); tr_sbd : sbd_from h (de_sbd d);
  tr_out : Forall (output_ok h) (de_out d) }.

Lemma given_more h r up buf : given h up buf -> given (h ++ [r]) up buf.
Proof.
  intros (es & H1 & H2 & H3). exists es. split; [done|]. split; [|done].
  eapply List.Forall_impl; [|exact H2]. intros x. apply trusted_more.
Qed.

Lemma output_ok_more h r o : output_ok h o -> output_ok (h ++ [r]) o.
Proof.
  destruct o; cbn; try done; [apply given_more|].
  intros (la & buf & time & la' & nodes & a & snr & Hg & R). exists la, buf, time, la', nodes, a, snr.
  split; [by apply given_more|done].
Qed.

Lemma outputs_more h r l : Forall (output_ok h) l -> Forall (output_ok (h ++ [r])) l.
Proof. apply List.Forall_impl. intros o. apply output_ok_more. Qed.

(** A received frame that goes no further. *)
Lemma traced_more h r d : well_formed (rv_ida r) -> traced h d -> traced (h ++ [r]) d.
Proof.
  intros Hw [H1 H2 H3 H4]. constructor; [|by apply reasm_from_more|by apply sbd_from_more|by apply outputs_more].
  apply Forall_app. split; [done|]. by apply Forall_cons_2; [|apply Forall_nil_2].
Qed.

(** Only the reassemblers and the outputs matter. *)
Lemma traced_same h d d' :
  de_ida d' = de_ida d -> de_sbd d' = de_sbd d -> de_out d' = de_out d -> traced h d -> traced h d'.
Proof. intros E1 E2 E3 [H1 H2 H3 H4]. constructor; by rewrite ?E1, ?E2, ?E3. Qed.

Lemma traced_tick h c d : traced h d -> traced h (tick c d).
Proof. by apply traced_same. Qed.

Lemma traced_emit h o d : output_ok h o -> traced h d -> traced h (emit o d).
Proof.
  intros Ho [H1 H2 H3 H4]. constructor; [done..|]. cbn [emit de_out]. apply Forall_app. split; [done|].
  by apply Forall_cons_2; [|apply Forall_nil_2].
Qed.

Lemma traced_with_ida h x d : reasm_from h x -> traced h d -> traced h (with_ida x d).
Proof. intros Hx [H1 H2 H3 H4]. by constructor. Qed.

Lemma traced_with_sbd h x d : sbd_from h x -> traced h d -> traced h (with_sbd x d).
Proof. intros Hx [H1 H2 H3 H4]. by constructor. Qed.

(** ** Display rows *)

Lemma take_c_string s n : Forall (fun x => x <> 0) s -> take n (c_string s) = take n s.
Proof.
  intros H. f_equal. induction H as [|x s Hx _ IH]; [done|]. cbn. rewrite (proj2 (Z.eqb_neq _ _)) by done. by rewrite IH.
Qed.

Lemma c_string_app a b : Forall (fun x => x <> 0) a -> c_string (a ++ b) = a ++ c_string b.
Proof. induction 1 as [|x a Hx _ IH]; [done|]. cbn. rewrite (proj2 (Z.eqb_neq _ _)) by done. by rewrite IH. Qed.

(** A partial row starts with the word PARTIAL. *)
Lemma partial_row_ok h now up dirty frags info payload :
  output_ok h (Partial (partial_out now up (partial_text dirty up frags info payload))).
Proof.
  split; [done|]. split; [done|]. unfold partial_out. cbn [am_txt]. unfold partial_text. cbv zeta.
  generalize (chars (if dirty then " DIRTY" else "")). intros tl. set (rest := tl ++ _). clearbody rest. clear tl.
  rewrite take_app. change (length (chars "PARTIAL")) with 7%nat. rewrite (take_ge (chars "PARTIAL")) by (cbn; lia).
  unfold strlcpy. rewrite c_string_app by (apply (bool_decide_unpack _); vm_compute; reflexivity).
  rewrite take_app, (take_ge (chars "PARTIAL")) by (cbn; lia). unfold blit. rewrite take_0. cbn [app].
  rewrite <- app_assoc. by apply take_app_length'.
Qed.

Lemma traced_salvage h e payload len up frags dirty d :
  traced h d -> traced h (salvage_emit e payload len up frags dirty d).2.
Proof.
  intros H. unfold salvage_emit. destruct (sbd_salvage_parse payload len up) as [ret info].
  destruct (negb (ret =? 1)); [done|]. cbn [snd]. destruct (en_best_effort e); [|done].
  by apply traced_tick, traced_emit; [apply partial_row_ok|].
Qed.

Lemma traced_rounds fuel h e now sv d :
  length (sv_payload sv) = 320%nat -> traced h d -> traced h (salvage_rounds fuel e now sv d).
Proof.
  revert sv d. induction fuel as [|fuel IH]; intros sv d Hl H; [done|]. cbn [salvage_rounds].
  pose proof (reap_from h (de_ida d) now sv (tr_ida h d H) Hl) as Hr.
  destruct (ida_reassembler_reap (de_ida d) now sv) as [[r sv'] ida]. destruct Hr as [Hi Hl'].
  assert (H' : traced h (with_ida ida d)) by by apply traced_with_ida.
  destruct (r =? 0); [done|].
  pose proof (traced_salvage h e (sv_payload sv') (sv_payload_len sv') (sv_uplink sv') (sv_frags sv') (sv_dirty sv') _ H') as Hs.
  destruct (salvage_emit _ _ _ _ _ _ _) as [ok d']. apply IH; [done|]. by apply traced_tick.
Qed.

Lemma traced_drain h e now d : traced h d -> traced h (ida_salvage_drain e now d).
Proof. by apply traced_rounds. Qed.


(** ** Delivery *)

Lemma traced_deliver h buf up time bin snr d :
  given h up buf -> traced h d -> traced h (acars_deliver buf up time bin snr None d).
Proof.
  intros Hg H. unfold acars_deliver. destruct buf as [|x buf]; [done|].
  destruct (la_acars_parse_and_reassemble _ _ _ _) as [la nodes] eqn:Ep.
  assert (H' : traced h (emit (Parsed (x :: buf) up time) (with_la la d)))
    by (apply traced_emit; [done|by apply (traced_same h d)]).
  destruct nodes as [nodes|]; [|done]. destruct (find_acars_msg nodes) as [a|] eqn:Ea; [|done].
  assert (Ho : la_reasm a = LA_REASM_COMPLETE \/ la_reasm a = LA_REASM_SKIPPED ->
    output_ok h (Trusted (message_out a up time bin snr None))).
  { intros Hc. exists (de_la d), (x :: buf), (time / 1000000, time mod 1000000), la, nodes, a, snr. by split_and!. }
  destruct (la_reasm a); try done; try (by apply traced_tick);
    (apply traced_emit; [apply Ho; auto|by apply traced_tick]).
Qed.

(** A message assembled from what was received is handed on as such. *)
Lemma traced_try_acars h m bin snr d :
  message_from h (m_uplink m) m -> traced h d -> traced h (try_acars m bin snr d).
Proof.
  intros (es & H1 & H2 & H3 & El & Eb) H. unfold try_acars. destruct (m_payload_len m <? 8); [done|].
  destruct (_ <? 8)%nat; [done|]. apply traced_deliver; [|done]. rewrite El, Nat2Z.id, Eb. by exists es.
Qed.

Lemma Forall_sublist_of {A} (P : A -> Prop) l k : sublist l k -> Forall P k -> Forall P l.
Proof.
  intros Hl H. apply List.Forall_forall. intros x Hx. rewrite List.Forall_forall in H. apply H.
  apply list_elem_of_In in Hx. apply list_elem_of_In. by eapply sublist_subseteq.
Qed.

(** The octets of a received chain are bytes. *)
Lemma chain_bytes h up dirty bytes : octets_received h -> chain_from h up dirty bytes -> is_bytes bytes.
Proof.
  intros Hh (l & Hl & _ & -> & _). apply Forall_concat, Forall_map. apply (Forall_sublist_of _ _ _ Hl) in Hh. eapply List.Forall_impl; [|exact Hh]. intros r [_ Hb]. cbn.
  by apply Forall_take.
Qed.

(** ** DA frames *)

Definition of_item (it : frame_queue_item) (ida : ida_decoded) : received :=
  Received ida (it_direction it =? 1) (reasm_freq_key_hz (it_peak_bin it)) (it_timestamp_us it).

Lemma of_item_ok it ida : is_u 64 (it_timestamp_us it) -> well_formed ida -> frame_ok (of_item it ida).
Proof. intros Ht [Hf _]. constructor; [done|unfold reasm_freq_key_hz; apply Z.mod_pos_bound; lia|done]. Qed.

Lemma traced_chain h e it ida d :
  is_u 64 (it_timestamp_us it) -> well_formed ida -> admitted (of_item it ida) -> traced h d ->
  traced (h ++ [of_item it ida]) (da_chain e it ida d).
Proof.
  intros Ht Hw Hadm H. unfold da_chain. cbv zeta.
  apply (traced_drain _ e (it_timestamp_us it)) in H. set (d0 := ida_salvage_drain _ _ d) in *. clearbody d0.
  pose proof (feed_from h (de_ida d0) (of_item it ida) (tr_ida h d0 H) (of_item_ok it ida Ht Hw) Hadm) as Hf.
  cbn [rv_ida rv_uplink rv_freq rv_time of_item] in Hf. change (Z.to_nat IDA_REASM_MAX_BYTES) with 320%nat.
  change IDA_REASM_MAX_BYTES with 320. destruct (ida_reassembler_feed_ex _ _ _ _ _ _ _ _) as [r reasm].
  destruct Hf as [Hi Hret]. apply (traced_more _ (of_item it ida)) in H; [|done].
  set (h' := h ++ [of_item it ida]) in *. pose proof (tr_octets h' d0 H) as Hoct.
  assert (H1 : forall x, (x = HotPublish (Z.land (it_peak_bin it) 0xFFFF) (en_now e) \/ x = HotClear (Z.land (it_peak_bin it) 0xFFFF)) ->
    traced h' (emit x (with_ida reasm d0))).
  { intros x [->| ->]; by apply traced_emit, traced_with_ida. }
  assert (H0 : traced h' (with_ida reasm d0)) by by apply traced_with_ida.
  set (d1 := if fo_ret r =? 0 then _ else _).
  assert (Hd1 : traced h' d1).
  { unfold d1. destruct (fo_ret r =? 0); [by apply H1; left|]. destruct (_ && _); [by apply H1; right|done]. }
  clearbody d1. clear H0 H1 H d0 Hi.
  destruct (Z.eqb_spec (fo_ret r) 1) as [E|_]; [|done]. destruct (Hret E) as (bytes & Hch & El & Eb & Hlen).
  cbn [andb]. destruct (fo_dirty r).
  - pose proof (traced_salvage h' e (fo_payload r) (fo_len r) (it_direction it =? 1) 0 true d1 Hd1) as Hs.
    destruct (salvage_emit _ _ _ _ _ _ _) as [ok d2]. destruct (ok =? 1); [by apply traced_tick|done].
  - pose proof (sbd_feed_from h' (de_sbd d1) bytes _ (it_timestamp_us it) (tr_sbd h' d1 Hd1) Hch
      (chain_bytes _ _ _ _ Hoct Hch) Hlen Ht) as Hs. cbn [rv_uplink of_item] in Hs.
    rewrite El, Eb. destruct (sbd_reassembler_feed _ _ _ _ _ _) as [[rc m] sbds]. destruct Hs as [Hs Hm].
    apply (traced_with_sbd _ sbds) in Hd1; [|done]. destruct (Z.eqb_spec rc 1) as [Er|_]; [|done].
    destruct (Hm Er) as [Eu Hmf]. apply traced_try_acars; [by rewrite Eu|by apply traced_tick].
Qed.


(** What becomes of a burst classified as a DA frame: the frame decoded. *)
Definition da_received (e : env) (it : frame_queue_item) (d : decoder (Ctx := Ctx)) : option received :=
  let dir := if it_direction it =? 0 then IR_FRM_DIR_DOWNLINK else IR_FRM_DIR_UPLINK in
  let '(rc, f, bch) := iridium_frame_classify (it_bits it) (Z.to_nat (it_n_bits it)) dir (en_harder e) frame_zero (de_bch d) in
  if (rc =? 0) && bool_decide (fr_type f = IR_FRAME_LW /\ fr_lw_subtype f = IR_LW_DA) then
    let '(_, ida, _) := da_decode e it f (tick class_lw_da (with_bch bch d)) in Some (of_item it ida)
  else None.

(** Decoding touches none of what is traced. *)
Lemma da_decode_same e it f (d : decoder (Ctx := Ctx)) :
  let '(_, ida, d') := da_decode e it f d in
  well_formed ida /\ de_ida d' = de_ida d /\ de_sbd d' = de_sbd d /\ de_out d' = de_out d.
Proof.
  unfold da_decode. pose proof (decode_well_formed f ida_zero (de_bch d) ida_zero_well_formed) as Hw.
  destruct (ida_decode f ida_zero (de_bch d)) as [[rc ida] bch]. cbn [fst snd] in Hw.
  destruct (_ && _ && _); [|done]. destruct (en_chase2_decode e); [|done].
  match goal with |- context [ida_chase_decode ?a ?b ?c ?d ?e ?g] =>
    pose proof (chase_well_formed a b c d e g Hw) as Hc; destruct (ida_chase_decode a b c d e g) as [[[r ida'] ch] st] end.
  done.
Qed.

Lemma traced_process_da h e it f d :
  is_u 64 (it_timestamp_us it) -> traced h d ->
  traced (h ++ [of_item it (da_decode e it f (tick class_lw_da d)).1.2]) (process_da e it f d).
Proof.
  intros Ht H. unfold process_da. apply (traced_tick _ class_lw_da) in H.
  pose proof (da_decode_same e it f (tick class_lw_da d)) as Hs.
  destruct (da_decode e it f (tick class_lw_da d)) as [[rc ida] d1]. cbn [fst snd].
  destruct Hs as (Hw & E1 & E2 & E3). apply (traced_same _ _ d1) in H; [|done..]. clear E1 E2 E3.
  cbv zeta. destruct (rc =? 0); [|by apply traced_more]. cbn [andb].
  destruct (id_ok ida && header_ok ida) eqn:Ehdr; [|by apply traced_more]. cbn [andb].
  destruct (crc_ok ida) eqn:Ecrc; cbn [negb andb orb].
  - apply traced_chain; [done|done| |by apply traced_tick]. left. unfold clean. cbn [rv_ida of_item]. by rewrite Ehdr, Ecrc.
  - destruct (Z.ltb_spec 0 (da_ctr ida)) as [Hc|_]; [|by apply traced_more]. apply (traced_tick _ dirty_cont) in H.
    cbn [andb]. destruct (en_dirty e); [|by apply traced_more]. apply traced_chain; [done|done| |done]. by right.
Qed.

(** The frames received so far, one burst later. *)
Definition hear (e : env) (it : frame_queue_item) (d : decoder (Ctx := Ctx)) (h : list received) : list received :=
  match da_received e it d with Some r => h ++ [r] | None => h end.

Lemma traced_process_one h e it d :
  is_u 64 (it_timestamp_us it) -> traced h d -> traced (hear e it d h) (process_one e it d).
Proof.
  intros Ht H. unfold hear, da_received, process_one.
  destruct (iridium_frame_classify _ _ _ _ _ _) as [[rc f] bch].
  apply (traced_same _ _ (with_bch bch d)) in H; [|done..]. revert H. generalize (with_bch bch d). clear d. intros d H.
  destruct (rc =? 0); [|by apply traced_tick]. cbn [negb andb].
  destruct (decide (fr_type f = IR_FRAME_LW)) as [Et|Et].
  2:{ rewrite bool_decide_false by by intros [].
      destruct (fr_type f); try done; try by apply traced_tick.
      unfold process_unknown. destruct (ida_decode _ _ _) as [[? ?] ?].
      destruct (_ && _); try apply traced_tick; apply (traced_same h d); done. }
  rewrite Et. destruct (decide (fr_lw_subtype f = IR_LW_DA)) as [Es|Es].
  2:{ rewrite bool_decide_false by (by intros []). by apply traced_tick. }
  rewrite bool_decide_true by done. pose proof (traced_process_da h e it f d Ht H) as Hp.
  destruct (da_decode e it f (tick class_lw_da d)) as [[? ?] ?]. exact Hp.
Qed.


(** ** The task and its producer *)

(** A burst queued by the worker, or a turn of the task. *)
Inductive task_event := Queued (now : Z) (a : push_args) | Turned (e : env) (wall : Z).

Definition typed_event (ev : task_event) : Prop :=
  match ev with Queued now a => is_u 64 now /\ is_u 64 (pa_timestamp_us a) | Turned _ _ => True end.

(** Queue, task and the DA frames received so far. *)
Record task_run := TaskRun { tr_queue : frame_queue; tr_task : decoder_task (Ctx := Ctx); tr_heard : list received }.

Definition task_step (s : task_run) (ev : task_event) : task_run :=
  match ev with
  | Queued now a => TaskRun (frame_decoder_push true now (tr_queue s) a).1 (tr_task s) (tr_heard s)
  | Turned e wall =>
      let '(_, got, t) := decoder_wait e wall (tr_queue s) (tr_task s) in
      let '(q, t') := decoder_turn false e wall (tr_queue s) (tr_task s) in
      TaskRun q t' (if got then hear e (tk_item t) (tk_dec t) (tr_heard s) else tr_heard s)
  end.

(** The task at its start, on the static item and the first clock reading. *)
Definition task_start (q : frame_queue) (la : Ctx) (clock : Z) : task_run :=
  TaskRun q (Task (decoder_init la) 0 0 clock item_zero) [].

Definition typed_item (x : frame_queue_item) : Prop := is_u 64 (it_timestamp_us x).

Lemma item_zero_typed : typed_item item_zero.
Proof. unfold typed_item, item_zero, is_u. cbn [it_timestamp_us]. lia. Qed.

Record run_ok (s : task_run) : Prop := {
  ro_slots : Forall typed_item (fq_slots (tr_queue s)); ro_item : typed_item (tk_item (tr_task s));
  ro_traced : traced (tr_heard s) (tk_dec (tr_task s)) }.

Lemma typed_read_slot q i : Forall typed_item (fq_slots q) -> typed_item (read_slot q i).
Proof.
  intros H. unfold read_slot. rewrite nth_lookup. destruct (fq_slots q !! Z.to_nat i) as [x|] eqn:E.
  - exact (Forall_lookup_1 _ _ _ _ H E).
  - apply item_zero_typed.
Qed.

Lemma push_typed now q a :
  is_u 64 now -> is_u 64 (pa_timestamp_us a) -> Forall typed_item (fq_slots q) ->
  Forall typed_item (fq_slots (frame_decoder_push true now q a).1).
Proof.
  intros Hn Ha H. unfold frame_decoder_push, frame_queue_producer_reserve. cbn [negb].
  destruct (negb (push_guard a)); [done|]. destruct (_ =? fq_head q); [done|]. cbn [fst].
  unfold frame_queue_producer_commit, write_slot. cbn [fq_slots count_push commit_publish]. apply Forall_insert; [done|].
  unfold decoder_fill. destruct (match pa_soft a with Some _ => _ | None => _ end) as [ns soft].
  unfold typed_item. cbn [it_timestamp_us]. by destruct (_ =? 0).
Qed.

Lemma pop_typed q out :
  Forall typed_item (fq_slots q) -> typed_item out ->
  Forall typed_item (fq_slots (frame_queue_pop q out).1.1) /\ typed_item (frame_queue_pop q out).1.2.
Proof.
  intros H Ho. unfold frame_queue_pop. destruct (fq_head q =? fq_tail q); [done|]. cbn [fst snd].
  split; [done|]. unfold pop_copy, typed_item. cbn [it_timestamp_us]. by apply typed_read_slot.
Qed.

(** Waiting keeps the trace; so does the whole turn. *)
Lemma wait_ok s e wall :
  run_ok s ->
  let '(q, _, t) := decoder_wait e wall (tr_queue s) (tr_task s) in
  run_ok (TaskRun q t (tr_heard s)).
Proof.
  intros [H1 H2 H3]. unfold decoder_wait.
  pose proof (pop_typed (tr_queue s) (tk_item (tr_task s)) H1 H2) as [H1' H2'].
  destruct (frame_queue_pop _ _) as [[q item] got]. cbn [fst snd] in *.
  destruct (if got && _ then _ else _) as [rf wall_at]. destruct (1000000 <? _); [|by constructor].
  constructor; [done|done|]. cbn [tr_heard tr_task tk_dec]. apply traced_drain, traced_with_sbd; [|done].
  apply tick_from, H3.
Qed.

Lemma task_step_ok s ev : typed_event ev -> run_ok s -> run_ok (task_step s ev).
Proof.
  intros He H. destruct ev as [now a|e wall]; cbn [task_step].
  - destruct H as [H1 H2 H3]. constructor; [|done|done]. by apply push_typed; [apply He|apply He|].
  - unfold decoder_turn. pose proof (wait_ok s e wall H) as Hw.
    destruct (decoder_wait _ _ _ _) as [[q got] t]. destruct Hw as [H1 H2 H3]. cbn [tr_queue tr_task tr_heard] in *.
    destruct got; constructor; cbn [tr_queue tr_task tr_heard tk_dec tk_item]; try done. by apply traced_process_one.
Qed.

Lemma task_start_ok q la clock :
  fq_slots q = repeat item_zero (length (fq_slots q)) -> run_ok (task_start q la clock).
Proof.
  intros Hq. pose proof item_zero_typed as Hz.
  constructor; [|done|].
  - cbn [tr_queue task_start]. rewrite Hq. apply List.Forall_forall. intros x Hx. apply repeat_spec in Hx as ->. done.
  - constructor; [apply Forall_nil_2|apply reasm_from_init|apply sbd_from_init|apply Forall_nil_2].
Qed.

Lemma create_zero ok n q : frame_queue_create ok n = Some q -> fq_slots q = repeat item_zero (length (fq_slots q)).
Proof.
  unfold frame_queue_create. destruct (_ || _); [done|]. destruct (negb (fst ok)); [done|]. destruct (negb (snd ok)); [done|].
  intros [= <-]. cbn [fq_slots]. by rewrite repeat_length.
Qed.

(** C1: what the decoder may trust. Run the decoder task on the Iridium band
    from its start through any pushes and turns, whatever the bursts, clocks
    and other settings and whatever libacars answers. Then all that libacars
    was ever given is the payload, less the prefix, of a message put together
    from envelopes each of which is the octets of a complete chain of DA frames
    received in order, in that direction, all with a good CRC; every trusted
    message reports a complete block found in such octets; and every row made
    of timed-out or dirty chains is marked partial and never as verified. On
    the VDL2 band the task hands over AVLC payloads instead. *)
Theorem decoder_task_trusts ok n q la clock evs :
  frame_queue_create ok n = Some q -> Forall typed_event evs ->
  let s := fold_left task_step evs (task_start q la clock) in
  Forall (output_ok (tr_heard s)) (de_out (tk_dec (tr_task s))).
Proof.
  intros Hq Hevs s. apply create_zero in Hq. unfold s. clear s.
  pose proof (task_start_ok q la clock Hq) as H. revert H. generalize (task_start q la clock).
  induction Hevs as [|ev evs Hev _ IH]; intros s H; [apply (ro_traced s H)|]. cbn [fold_left].
  apply IH. by apply task_step_ok.
Qed.
End trust.

(** ** A run *)

(** A library that finds a complete block in anything. *)
Definition sample_block : la_acars_msg :=
  LaAcarsMsg LA_REASM_COMPLETE 0x32 [0x48; 0x31; 0] 0x31 [] [] true [] 0x15 0 true (Some [0x48; 0x49; 0]).
#[local] Instance sample_library : AcarsLibrary unit :=
  {| la_acars_parse_and_reassemble := fun la _ _ _ => (la, Some [None; Some sample_block]) |}.

(** One downlink DA frame that carries a whole short message. *)
Definition sample_sbd : list Z := [0x76; 0x09; 0x01; 0x32; 0x2E; 0x4E; 0x31; 0x32; 0x33; 0x48; 0x31; 0x31].
Definition sample_bits : list Z := default [] (snd <$> ida_encode_da_frame 0 0 sample_sbd 12 []).
Definition sample_env : env := Env true true true true 2000.
Definition sample_events : list task_event :=
  [Queued 5 (PushArgs sample_bits 382 None 0 true 1626000000 100 0 1000); Turned sample_env 1500].
Definition sample_queue : frame_queue := default (FrameQueue 0 0 0 0 0 0 0 []) (frame_queue_create (true, true) 4).
Definition sample_run : task_run := fold_left task_step sample_events (task_start sample_queue tt 0).

(** The run hears one frame, gives the block to libacars and publishes it. *)
Example sample_run_delivers :
  length (tr_heard sample_run) = 1%nat /\
  exists m, de_out (tk_dec (tr_task sample_run)) = [Parsed (drop 3 sample_sbd) false 1000; Trusted m].
Proof. split; [vm_compute; reflexivity|]. eexists. vm_compute. reflexivity. Qed.

Lemma decoder_task_trusts_witness : Forall (output_ok (tr_heard sample_run)) (de_out (tk_dec (tr_task sample_run))).
Proof.
  apply (decoder_task_trusts (true, true) 4 sample_queue tt 0 sample_events).
  - reflexivity.
  - repeat apply Forall_cons_2; [|exact I|apply Forall_nil_2]. unfold typed_event, is_u. cbn [pa_timestamp_us]. lia.
Defined.
