(* ===== verification/DecoderDelivery.v ===== *)
(** Delivery: a message sent in DA bursts reaches libacars.

    The encoder's bursts, with at most two bit errors in each codeword, are
    followed through the decoder task's handler: classified, decoded, chained,
    unwrapped and handed over. *)

From S2P Require Import Prelude Gf2 Bits Crc16 IridiumBch IridiumFrame IdaDecode IdaEncode IdaChase IdaReassembler.
From S2P Require Import SbdReassembler Avlc Vdl2L2 FrameQueue MsgRing FrameDecoder DecoderTrust.

#[local] Opaque iridium_bch_ndivide iridium_bch_repair1 iridium_bch_repair2 iridium_bch_repair1_ref
  iridium_bch_repair2_ref crc_stream.

(** ** One burst *)

(** The burst carries the DA frame of counter [r], continuation flag [c] and
    [payload]: the encoder's bits, with at most two errors in each codeword
    and none in the first 24 data bits, then whatever the slot held. *)
Record carries (it : frame_queue_item) (c r : Z) (payload : list Z) : Prop := {
  ca_bits : exists es bits tail, ida_encode_da_frame c r payload (Z.of_nat (length payload)) [] = Some (0, bits) /\
    it_bits it = flips (map (Nat.add 70) es) bits ++ tail /\
    NoDup es /\ (forall i, (i < 10)%nat -> (length (hits es i) <= 2)%nat) /\ Forall (fun p => (24 <= p)%nat) es;
  ca_count : it_n_bits it = 382;
  ca_downlink : it_direction it = 0;
  ca_time : is_u 64 (it_timestamp_us it);
  ca_payload : (1 <= length payload <= 20)%nat /\ is_bytes payload }.

(** A clean decode of that frame. *)
Record decodes_to (ida : ida_decoded) (c r : Z) (payload : list Z) : Prop := {
  dt_ok : id_ok ida = true; dt_header : header_ok ida = true; dt_crc : crc_ok ida = true;
  dt_cont : da_cont ida = bit c; dt_ctr : da_ctr ida = r;
  dt_fragment : fragment_ok ida; dt_len : id_payload_len ida = Z.of_nat (length payload);
  dt_bytes : fragment_bytes ida = payload }.

Lemma build_codewords_tail data tail :
  length data = 312%nat -> ida_decode_build_codewords (data ++ tail) = ida_decode_build_codewords data.
Proof.
  intros H. rewrite !build_codewords_gather. do 2 f_equal. unfold DATA_BITS_TOTAL.
  rewrite take_app_le by lia. done.
Qed.

(** What the classifier and the decoder make of the burst. *)
Lemma carried_frame it c r payload harder out st :
  syn_ok st -> 0 <= r <= 7 -> carries it c r payload ->
  exists st' f, syn_ok st' /\
    iridium_frame_classify (it_bits it) 382 IR_FRM_DIR_DOWNLINK harder out st = (0, f, st') /\
    fr_type f = IR_FRAME_LW /\ fr_lw_subtype f = IR_LW_DA /\
    forall st1, syn_ok st1 -> exists st2 ida, syn_ok st2 /\ ida_decode f ida_zero st1 = (0, ida, st2) /\
      decodes_to ida c r payload.
Proof.
  intros Hst Hr [(es & bits & tail & Eenc & Ebits & Hnd & Hh & Hpre) _ _ _ [Hn Hby]].
  rewrite encode_frame_eq in Eenc by done. apply (inj Some), (f_equal snd) in Eenc. cbn [snd] in Eenc. rewrite <- Eenc, frame_flips in Ebits. clear Eenc.
  set (M := message (bit c) r payload (length payload)) in *.
  rewrite <- !app_assoc in Ebits. set (D := flips es (encode_data M) ++ tail) in *.
  assert (Hl : length (flips es (encode_data M)) = 312%nat) by by rewrite length_flips, length_encode_data.
  destruct (classify_encoded M D harder out st (bit c) r (Z.of_nat (length payload)) Hst (bit_01 c) Hr ltac:(lia)
    (encode_block_header (bit c) r payload _ Hn)) as (st' & Hst' & Ec).
  { unfold D. rewrite take_app_le by lia. by apply take_flips. }
  rewrite Ebits. eexists st', _. split; [exact Hst'|]. split; [exact Ec|]. split; [done|]. split; [done|].
  intros st1 Hst1. set (f := IridiumFrame _ _ _ _ _ _).
  destruct (ida_decode_run f ida_zero st1 Hst1 eq_refl) as (st2 & Hst2 & Ed).
  eexists st2, _. split; [exact Hst2|]. split; [exact Ed|].
  change (drop 70 (fr_bits f)) with (drop 70 (UW_DL ++ build_lcw_raw_bits ++ D)).
  destruct lcw_raw_bits as [_ HlL]. rewrite app_assoc, drop_app_length' by (rewrite length_app, HlL; reflexivity).
  unfold D. rewrite build_codewords_tail by done.
  destruct (round_trip_fields (bit c) r payload es Hr Hn Hby Hnd Hh) as (A1 & A2 & A3 & A4 & A5 & _ & A6 & A7 & _).
  fold M in A1, A2, A3, A4, A5, A6, A7.
  rewrite (bit_bit (bit c)) in A4 by apply bit_01.
  destruct (decode_well_formed f ida_zero st1 ida_zero_well_formed) as [Hf _]. rewrite Ed in Hf. cbn [fst snd] in Hf.
  change (drop 70 (fr_bits f)) with (drop 70 (UW_DL ++ build_lcw_raw_bits ++ D)) in Hf.
  rewrite app_assoc, drop_app_length' in Hf by (rewrite length_app, HlL; reflexivity).
  unfold D in Hf. rewrite build_codewords_tail in Hf by done.
  constructor; try done. unfold fragment_bytes. by rewrite A6, Nat2Z.id.
Qed.

(** ** Around the chain *)

Section delivery.
Context {Ctx : Type} {Hla : AcarsLibrary Ctx}.
Implicit Types (d : decoder (Ctx := Ctx)).

(** Display rows and hot-bin notices, which are neither given to libacars nor
    trusted. *)
Definition aside (o : output) : Prop := match o with Parsed _ _ _ | Trusted _ => False | _ => True end.

(** [d'] comes after [d] and libacars has not been called in between. *)
Definition later (d d' : decoder (Ctx := Ctx)) : Prop :=
  de_la d' = de_la d /\ exists l, de_out d' = de_out d ++ l /\ Forall aside l.

#[export] Instance later_preorder : PreOrder later.
Proof.
  split.
  - intros d. split; [done|]. exists []. split; [by rewrite app_nil_r|apply Forall_nil_2].
  - intros d1 d2 d3 [E1 (l1 & O1 & H1)] [E2 (l2 & O2 & H2)]. split; [congruence|].
    exists (l1 ++ l2). rewrite O2, O1, app_assoc. split; [done|]. by apply Forall_app.
Qed.

(** What else of the decoder the path of a clean frame leaves alone. *)
Record apart (d d' : decoder (Ctx := Ctx)) : Prop := {
  ap_later : later d d'; ap_sbd : de_sbd d' = de_sbd d; ap_bch : syn_ok (de_bch d) -> syn_ok (de_bch d') }.

#[export] Instance apart_preorder : PreOrder apart.
Proof.
  split.
  - intros d. by split.
  - intros d1 d2 d3 [L1 S1 B1] [L2 S2 B2]. split; [by etransitivity|congruence|auto].
Qed.

Lemma later_same d d' : de_la d' = de_la d -> de_out d' = de_out d -> later d d'.
Proof. intros E O. split; [done|]. exists []. rewrite app_nil_r. split; [done|apply Forall_nil_2]. Qed.

Lemma apart_tick c d : apart d (tick c d).
Proof. split; [by apply later_same|done|done]. Qed.

Lemma apart_with_ida x d : apart d (with_ida x d).
Proof. split; [by apply later_same|done|done]. Qed.

Lemma apart_emit o d : aside o -> apart d (emit o d).
Proof. intros Ho. split; [|done|done]. split; [done|]. exists [o]. split; [done|]. by apply Forall_cons_2; [|apply Forall_nil_2]. Qed.

Lemma apart_salvage e payload len up frags dirty d :
  let d' := (salvage_emit e payload len up frags dirty d).2 in apart d d' /\ de_ida d' = de_ida d.
Proof.
  unfold salvage_emit. destruct (sbd_salvage_parse payload len up) as [ret info]. destruct (negb (ret =? 1)); [done|].
  cbn [snd]. destruct (en_best_effort e); [|done]. split; [|done]. etransitivity; [|apply apart_tick]. by apply apart_emit.
Qed.

(** The drain keeps whatever a reap keeps. *)
Lemma rounds_keep (P : ida_reassembler -> Prop) now :
  (forall ctx sv, P ctx -> length (sv_payload sv) = 320%nat ->
     P (ida_reassembler_reap ctx now sv).2 /\ length (sv_payload (ida_reassembler_reap ctx now sv).1.2) = 320%nat) ->
  forall fuel e sv d, length (sv_payload sv) = 320%nat -> P (de_ida d) ->
    let d' := salvage_rounds fuel e now sv d in P (de_ida d') /\ apart d d'.
Proof.
  intros HP fuel e. induction fuel as [|fuel IH]; intros sv d Hl H; [done|]. cbn [salvage_rounds].
  destruct (HP (de_ida d) sv H Hl) as [H' Hl'].
  destruct (ida_reassembler_reap (de_ida d) now sv) as [[r sv'] ida]. cbn [fst snd] in *.
  destruct (r =? 0); [split; [done|apply apart_with_ida]|].
  pose proof (apart_salvage e (sv_payload sv') (sv_payload_len sv') (sv_uplink sv') (sv_frags sv') (sv_dirty sv')
    (with_ida ida d)) as Hs. cbv zeta in Hs.
  destruct (salvage_emit _ _ _ _ _ _ _) as [ok d1]. cbn [snd] in Hs. destruct Hs as [Hs Ei].
  destruct (IH sv' (tick (if ok =? 1 then salvage_ok else salvage_rejected) d1) Hl') as [HP2 Ha].
  { cbn [tick de_ida]. by rewrite Ei. }
  split; [done|]. etransitivity; [apply (apart_with_ida ida)|]. etransitivity; [exact Hs|].
  etransitivity; [apply apart_tick|exact Ha].
Qed.

Lemma drain_keep (P : ida_reassembler -> Prop) e now d :
  (forall ctx sv, P ctx -> length (sv_payload sv) = 320%nat ->
     P (ida_reassembler_reap ctx now sv).2 /\ length (sv_payload (ida_reassembler_reap ctx now sv).1.2) = 320%nat) ->
  P (de_ida d) -> let d' := ida_salvage_drain e now d in P (de_ida d') /\ apart d d'.
Proof. intros HP H. by apply rounds_keep. Qed.

(** ** Before and during a chain *)

(** Room for a chain, and no other open one near the frequencies. *)
Record awaiting (fs : list Z) (ctx : ida_reassembler) : Prop := {
  aw_ok : ctx_ok ctx; aw_free : exists i, (i < 4)%nat /\ rs_active (session ctx i) = false;
  aw_clear : forall j f, (j < 4)%nat -> f ∈ fs -> rs_active (session ctx j) = true ->
    rs_uplink (session ctx j) = false -> in_deadband (session ctx j) f = false }.

Record following (fs : list Z) (i : nat) (f0 ctr t : Z) (bytes : list Z) (ctx : ida_reassembler) : Prop := {
  fw_ok : ctx_ok ctx; fw_holds : holds ctx i false f0 ctr t bytes false;
  fw_alone : forall f, f ∈ fs -> alone ctx i false f }.

(** A reap changes at most one session, a stale one, and only frees it. *)
Lemma reap_changes ctx now sv :
  ctx_ok ctx -> length (sv_payload sv) = 320%nat ->
  let ctx' := (ida_reassembler_reap ctx now sv).2 in
  ctx_ok ctx' /\ length (sv_payload (ida_reassembler_reap ctx now sv).1.2) = 320%nat /\
  forall j, (j < 4)%nat -> session ctx' j = session ctx j \/
    (session_stale (session ctx j) now = true /\ session ctx' j = set_active (session ctx j) false).
Proof.
  intros Hok Hl. pose proof (reap_ctx_ok ctx now sv Hok) as Hok'. pose proof (reap_spec ctx now sv Hok Hl) as Hs.
  destruct (ida_reassembler_reap ctx now sv) as [[r sv'] ctx']. cbn [fst snd] in *.
  destruct Hs as [Hl' Hs]. split; [done|]. split; [done|]. intros j Hj.
  destruct Hs as [(_ & _ & -> & _)|(i & _ & _ & Hst & Hs & _)]; [by left|].
  rewrite Hs by done. destruct (decide (i = j)) as [->|]; [by right|by left].
Qed.

Lemma reap_awaiting fs now ctx sv :
  awaiting fs ctx -> length (sv_payload sv) = 320%nat ->
  awaiting fs (ida_reassembler_reap ctx now sv).2 /\ length (sv_payload (ida_reassembler_reap ctx now sv).1.2) = 320%nat.
Proof.
  intros [Hok (i & Hi & Hf) Hc] Hl. destruct (reap_changes ctx now sv Hok Hl) as (Hok' & Hl' & Hs). split; [|done].
  split; [done| |].
  - exists i. split; [done|]. destruct (Hs i Hi) as [->|[_ ->]]; [done|reflexivity].
  - intros j f Hj Hin. destruct (Hs j Hj) as [->|[_ ->]]; [by apply Hc|discriminate].
Qed.

Lemma reap_following fs i f0 ctr t bytes now ctx sv :
  now <= t + IDA_REASM_SESSION_TIMEOUT_US -> is_u 64 now ->
  following fs i f0 ctr t bytes ctx -> length (sv_payload sv) = 320%nat ->
  following fs i f0 ctr t bytes (ida_reassembler_reap ctx now sv).2 /\
  length (sv_payload (ida_reassembler_reap ctx now sv).1.2) = 320%nat.
Proof.
  intros Hnow Hu [Hok Hh Hal] Hl. destruct (reap_changes ctx now sv Hok Hl) as (Hok' & Hl' & Hs). split; [|done].
  pose proof Hh as [Hi Ha Hup Hf Hctr Ht Hlen Hb Hd].
  assert (Ei : session (ida_reassembler_reap ctx now sv).2 i = session ctx i).
  { destruct (Hs i Hi) as [|[Hst _]]; [done|]. unfold session_stale in Hst. rewrite Ht in Hst.
    apply andb_true_iff in Hst as [Hst Hgap]. apply andb_true_iff in Hst as [_ Hlt].
    pose proof (so_time _ (session_ok_at ctx i Hok)) as Htt. rewrite Ht in Htt. unfold is_u in *.
    rewrite u64_small in Hgap by lia. unfold IDA_REASM_SESSION_TIMEOUT_US in *. lia. }
  split; [done|by constructor; rewrite ?Ei|].
  intros f Hin j Hj Hne. destruct (Hs j Hj) as [->|[_ ->]]; [by apply Hal|discriminate].
Qed.

(** ** A clean frame through the handler *)

Definition key (it : frame_queue_item) : Z := reasm_freq_key_hz (it_peak_bin it).
Definition arrival_of (it : frame_queue_item) (ida : ida_decoded) : arrival :=
  Arrival ida (crc_ok ida) (key it) (it_timestamp_us it).
Definition buf320 : list Z := replicate 320 0.

Lemma key_range it : is_u 32 (key it) /\ key it + IDA_REASM_FREQ_DEADBAND_HZ < 2 ^ 32.
Proof.
  unfold key, reasm_freq_key_hz, FS_DETECT_HZ, FFT_SIZE, IDA_REASM_FREQ_DEADBAND_HZ.
  assert (H : 0 <= Z.land (it_peak_bin it) 0xFFFF < 2 ^ 16).
  { change 0xFFFF with (Z.ones 16). rewrite Z.land_ones by lia. apply Z.mod_pos_bound. lia. }
  assert (Hd : 0 <= u64 (Z.land (it_peak_bin it) 0xFFFF * 2500000) / 2048 < 2 ^ 31).
  { rewrite u64_small by lia. split; [apply Z.div_pos; lia|]. apply Z.div_lt_upper_bound; lia. }
  rewrite u32_small by lia. unfold is_u. lia.
Qed.

Lemma arrival_of_ok it ida c r payload :
  carries it c r payload -> decodes_to ida c r payload -> arrival_ok (arrival_of it ida).
Proof. intros Hc Hd. split; [apply (dt_fragment _ _ _ _ Hd)|]. split; [apply key_range|apply (ca_time _ _ _ _ Hc)]. Qed.

(** The handler decodes the frame and passes it to the chain. *)
Lemma process_carried e it c r payload d :
  syn_ok (de_bch d) -> 0 <= r <= 7 -> carries it c r payload ->
  exists ida d1, process_one e it d = da_chain e it ida d1 /\ decodes_to ida c r payload /\
    apart d d1 /\ de_ida d1 = de_ida d.
Proof.
  intros Hs Hr Hc. destruct (carried_frame it c r payload (en_harder e) frame_zero (de_bch d) Hs Hr Hc)
    as (st1 & f & Hs1 & Ecl & Et & Esub & Hdec).
  destruct (Hdec st1 Hs1) as (st2 & ida & Hs2 & Ed & Hd). pose proof Hc as [_ Hn Hdir _ _].
  unfold process_one. rewrite Hn, Hdir. change (Z.to_nat 382) with 382%nat. cbn [Z.eqb]. rewrite Ecl. cbn [Z.eqb negb].
  rewrite Et, decide_True by done. unfold process_da, da_decode. cbn [de_bch tick with_bch]. rewrite Ed.
  rewrite (dt_ok _ _ _ _ Hd). cbn [negb andb]. rewrite andb_false_r. cbn [andb].
  rewrite (dt_ok _ _ _ _ Hd), (dt_header _ _ _ _ Hd), (dt_crc _ _ _ _ Hd). cbn [Z.eqb negb andb orb].
  eexists ida, _. split; [reflexivity|]. split; [done|]. split; [|done].
  split; [by apply later_same|done|done].
Qed.

Section step.
Context (e : env) (it : frame_queue_item) (c r : Z) (payload : list Z) (ida : ida_decoded).
Context (Hc : carries it c r payload) (Hd : decodes_to ida c r payload).

(** A fragment that is stored. *)
Lemma chain_stores d ctx :
  let d0 := ida_salvage_drain e (it_timestamp_us it) d in
  feed_arrival false buf320 320 (de_ida d0) (arrival_of it ida) = (FeedOut 0 buf320 0 false, ctx) ->
  let d' := da_chain e it ida d in apart d0 d' /\ de_ida d' = ctx.
Proof.
  intros d0 E. unfold da_chain. rewrite (ca_downlink _ _ _ _ Hc). change (0 =? 1) with false. fold d0.
  unfold feed_arrival, arrival_of in E. cbn [ar_ida ar_crc_ok ar_freq ar_time] in E.
  change (Z.to_nat IDA_REASM_MAX_BYTES) with 320%nat. change IDA_REASM_MAX_BYTES with 320.
  fold (key it) buf320. rewrite E. cbn [fo_ret fo_dirty Z.eqb andb]. split; [|done].
  etransitivity; [apply (apart_with_ida ctx)|]. by apply apart_emit.
Qed.

(** One that completes a clean chain. *)
Lemma chain_completes d ctx bytes :
  let d0 := ida_salvage_drain e (it_timestamp_us it) d in
  feed_arrival false buf320 320 (de_ida d0) (arrival_of it ida) =
    (FeedOut 1 (blit buf320 0 bytes) (Z.of_nat (length bytes)) false, ctx) ->
  exists d1, apart d0 d1 /\
    da_chain e it ida d =
    let '(rc, m, sbds) := sbd_reassembler_feed (de_sbd d1) (blit buf320 0 bytes) (Z.of_nat (length bytes)) false
      (it_timestamp_us it) sbd_message_zero in
    let d2 := with_sbd sbds d1 in
    if rc =? 1 then try_acars m (it_peak_bin it) (it_snr_db it) (tick sbd_complete d2) else d2.
Proof.
  intros d0 E. unfold da_chain. rewrite (ca_downlink _ _ _ _ Hc). change (0 =? 1) with false. fold d0.
  unfold feed_arrival, arrival_of in E. cbn [ar_ida ar_crc_ok ar_freq ar_time] in E.
  change (Z.to_nat IDA_REASM_MAX_BYTES) with 320%nat. change IDA_REASM_MAX_BYTES with 320.
  fold (key it) buf320. rewrite E. cbn [fo_ret fo_dirty fo_payload fo_len Z.eqb andb].
  eexists. split; [|reflexivity]. etransitivity; [apply (apart_with_ida ctx)|].
  destruct (negb _); [by apply apart_emit|done].
Qed.
End step.

(** ** The message *)

(** A message of its own: short, or the only one of its count. *)
Definition single (ev : envelope) : Prop := ev_msg_no ev = 0 \/ (ev_msg_cnt ev = 1 /\ ev_msg_no ev = 1).

Lemma single_message ctx bytes ev t :
  sbd_ok ctx -> is_bytes bytes -> (length bytes <= 320)%nat ->
  feed_parse bytes (Z.of_nat (length bytes)) false = Some ev -> single ev ->
  exists m ctx', sbd_reassembler_feed ctx (blit buf320 0 bytes) (Z.of_nat (length bytes)) false t sbd_message_zero =
      (1, m, ctx') /\
    m_payload_len m = ev_len ev /\ m_uplink m = false /\ m_timestamp_us m = t /\
    take (Z.to_nat (ev_len ev)) (m_payload m) = body_of (bytes, ev).
Proof.
  intros Hok Hb Hl Ep Hs. unfold sbd_reassembler_feed.
  rewrite (parse_local _ bytes) by apply rd_padded. rewrite Ep.
  pose proof (parse_agree bytes (Z.of_nat (length bytes)) false Hb) as Hp. rewrite Ep in Hp.
  destruct Hp as (_ & He & _). pose proof He as [_ K1 K2 _ K4 K5 _]. unfold SBD_MAX_PAYLOAD in K4.
  rewrite (dispatch_cases _ _ (Z.of_nat (length bytes))) by done. cbv zeta.
  assert (Eb : slice (blit buf320 0 bytes) (ev_off ev) (Z.to_nat (ev_len ev)) = body_of (bytes, ev))
    by (apply slice_padded; lia).
  rewrite Eb. assert (Hbl : length (body_of (bytes, ev)) = Z.to_nat (ev_len ev)) by (apply length_slice; cbn; lia).
  assert (Hm : forall n c, let m := message_of sbd_message_zero (ev_type ev) false t (ev_len ev) (body_of (bytes, ev)) c n in
    m_payload_len m = ev_len ev /\ m_uplink m = false /\ m_timestamp_us m = t /\
    take (Z.to_nat (ev_len ev)) (m_payload m) = body_of (bytes, ev)).
  { intros n c m. destruct (message_of_ok sbd_message_zero (ev_type ev) false t (ev_len ev) (body_of (bytes, ev)) c n)
      as [_ El]; [done|lia|lia|]. split; [exact El|]. split; [done|]. split; [done|]. rewrite <- Hbl. apply blit_prefix. }
  destruct (Z.eqb_spec (ev_msg_no ev) 0) as [_|Hn]; [eexists _, _; split; [reflexivity|apply Hm]|].
  destruct Hs as [|[Hs1 Hs2]]; [done|]. rewrite Hs1, Hs2. cbn [Z.eqb Pos.eqb andb].
  eexists _, _; split; [reflexivity|apply Hm].
Qed.

(** What is published of libacars' answer. *)
Definition published (t bin snr : Z) (nodes : option (list (option la_acars_msg))) : list output :=
  match nodes with
  | Some ns =>
      match find_acars_msg ns with
      | Some a =>
          match la_reasm a with
          | LA_REASM_COMPLETE | LA_REASM_SKIPPED => [Trusted (message_out a false t bin snr None)]
          | _ => []
          end
      | None => []
      end
  | None => []
  end.

(** Between [d] and [d'] libacars was given [buf], once, and its answer
    published. *)
Definition delivered (buf : list Z) (t bin snr : Z) (d d' : decoder (Ctx := Ctx)) : Prop :=
  let '(la, nodes) := la_acars_parse_and_reassemble (de_la d) buf false (t / 1000000, t mod 1000000) in
  de_la d' = la /\ exists pre, Forall aside pre /\
    de_out d' = de_out d ++ pre ++ Parsed buf false t :: published t bin snr nodes.

Lemma deliver_delivers buf t bin snr d : buf <> [] -> delivered buf t bin snr d (acars_deliver buf false t bin snr None d).
Proof.
  intros Hne. unfold delivered, acars_deliver. destruct buf as [|x buf]; [done|].
  destruct (la_acars_parse_and_reassemble _ _ _ _) as [la nodes].
  enough (H : forall d' : decoder (Ctx := Ctx), de_la d' = la ->
    de_out d' = de_out d ++ [] ++ Parsed (x :: buf) false t :: published t bin snr nodes ->
    de_la d' = la /\ exists pre, Forall aside pre /\
      de_out d' = de_out d ++ pre ++ Parsed (x :: buf) false t :: published t bin snr nodes).
  { unfold published in *. destruct nodes as [nodes|]; [|by apply H].
    destruct (find_acars_msg nodes) as [a|]; [|by apply H]. destruct (la_reasm a); apply H; try done.
    all: cbn [de_out emit tick with_la]; by rewrite <- app_assoc. }
  intros d' E O. split; [done|]. exists []. split; [apply Forall_nil_2|done].
Qed.

Lemma delivered_after buf t bin snr d1 d2 d' : later d1 d2 -> delivered buf t bin snr d2 d' -> delivered buf t bin snr d1 d'.
Proof.
  intros [El (l & Eo & Hl)] H. unfold delivered in *. rewrite El in H.
  destruct (la_acars_parse_and_reassemble _ _ _ _) as [la nodes]. destruct H as (E & pre & Hp & O). split; [done|].
  exists (l ++ pre). split; [by apply Forall_app|]. by rewrite O, Eo, <- !app_assoc.
Qed.

(** The octets of a complete clean chain that are a message of their own. *)
Lemma complete_delivers bytes ev it d d0 d' :
  apart d d0 -> sbd_ok (de_sbd d) -> is_bytes bytes -> (length bytes <= 320)%nat ->
  feed_parse bytes (Z.of_nat (length bytes)) false = Some ev -> single ev ->
  8 <= ev_len ev -> (8 <= length (strip_acars_prefix (body_of (bytes, ev))))%nat ->
  d' = (let '(rc, m, sbds) := sbd_reassembler_feed (de_sbd d0) (blit buf320 0 bytes) (Z.of_nat (length bytes)) false
      (it_timestamp_us it) sbd_message_zero in
    let d2 := with_sbd sbds d0 in
    if rc =? 1 then try_acars m (it_peak_bin it) (it_snr_db it) (tick sbd_complete d2) else d2) ->
  delivered (strip_acars_prefix (body_of (bytes, ev))) (it_timestamp_us it) (it_peak_bin it) (it_snr_db it) d d'.
Proof.
  intros [Hlat Es _] Hok Hb Hl Ep Hs H8 Hbuf ->. rewrite Es.
  destruct (single_message (de_sbd d) bytes ev (it_timestamp_us it) Hok Hb Hl Ep Hs) as (m & sbds & -> & E1 & E2 & E3 & E4).
  cbv zeta. cbn [Z.eqb Pos.eqb]. unfold try_acars. rewrite E1, E2, E3, E4.
  rewrite (proj2 (Z.ltb_ge _ 8)) by lia. rewrite (proj2 (Nat.ltb_ge _ 8)) by lia.
  eapply delivered_after; [exact Hlat|]. eapply delivered_after; [|apply deliver_delivers].
  - by apply later_same.
  - intros E. rewrite E in Hbuf. cbn in Hbuf. lia.
Qed.

(** ** The chain *)

(** A burst as it reaches the handler. *)
Record sent := Sent { se_env : env; se_item : frame_queue_item; se_payload : list Z }.

(** The rest of a chain: consecutive counters, the last frame final, each
    burst near [f0] and within the hop gap of its predecessor. *)
Fixpoint sent_from (f0 ctr t : Z) (l : list sent) {struct l} : Prop :=
  match l with
  | [] => False
  | x :: l' =>
      ctr <= 7 /\ carries (se_item x) (match l' with [] => 0 | _ => 1 end) ctr (se_payload x) /\
      t <= it_timestamp_us (se_item x) <= t + IDA_REASM_FRAG_GAP_US /\
      Z.abs (key (se_item x) - f0) <= IDA_REASM_FREQ_DEADBAND_HZ /\
      match l' with [] => True | _ => sent_from f0 (ctr + 1) (it_timestamp_us (se_item x)) l' end
  end.

Definition sent_bytes (l : list sent) : list Z := concat (map se_payload l).
Definition last_item (l : list sent) : frame_queue_item := List.last (map se_item l) item_zero.
Definition process_all (l : list sent) (d : decoder (Ctx := Ctx)) : decoder :=
  fold_left (fun d x => process_one (se_env x) (se_item x) d) l d.

(** The octets are a message of its own, long enough for libacars, and [buf]
    is what it will be given. *)
Definition carries_block (bytes buf : list Z) : Prop :=
  exists ev, feed_parse bytes (Z.of_nat (length bytes)) false = Some ev /\ single ev /\ 8 <= ev_len ev /\
    buf = strip_acars_prefix (body_of (bytes, ev)) /\ (8 <= length buf)%nat.

Lemma bit_01_cases : bit 0 = 0 /\ bit 1 = 1.
Proof. split; reflexivity. Qed.

Lemma sent_bytes_cons x l : sent_bytes (x :: l) = se_payload x ++ sent_bytes l.
Proof. done. Qed.

(** The drain before a frame of the chain. *)
Lemma drain_following fs i f0 ctr t got e it d :
  following fs i f0 ctr t got (de_ida d) -> is_u 64 (it_timestamp_us it) ->
  t <= it_timestamp_us it <= t + IDA_REASM_FRAG_GAP_US ->
  let d0 := ida_salvage_drain e (it_timestamp_us it) d in
  following fs i f0 ctr t got (de_ida d0) /\ apart d d0.
Proof.
  intros H Hu Hgap. apply drain_keep; [|done]. intros ctx sv. apply reap_following; [|done].
  unfold IDA_REASM_FRAG_GAP_US, IDA_REASM_SESSION_TIMEOUT_US in *. lia.
Qed.

Lemma rest_delivers fs i f0 buf l : forall d ctr t got,
  following fs i f0 ctr t got (de_ida d) -> (forall x, In x l -> key (se_item x) ∈ fs) -> 1 <= ctr ->
  f0 + IDA_REASM_FREQ_DEADBAND_HZ < 2 ^ 32 -> sent_from f0 ctr t l -> sbd_ok (de_sbd d) -> syn_ok (de_bch d) ->
  is_bytes got -> (length (got ++ sent_bytes l) <= 320)%nat -> carries_block (got ++ sent_bytes l) buf ->
  let it := last_item l in
  delivered buf (it_timestamp_us it) (it_peak_bin it) (it_snr_db it) d (process_all l d).
Proof.
  induction l as [|[e it p] l IH]; intros d ctr t got Hfw Hfs Hctr Hf0 Hin Hsbd Hbch Hgot Hlen Hblk; [done|].
  destruct Hin as (H7 & Hc & Hgap & Hdb & Hrest). cbn [se_env se_item se_payload] in *. rewrite sent_bytes_cons in *.
  cbn [se_payload] in *. rewrite app_assoc in *.
  destruct (process_carried e it _ ctr p d Hbch ltac:(lia) Hc) as (ida & d1 & Ep & Hd & Hap & Eida).
  rewrite <- Eida in Hfw.
  destruct (drain_following fs i f0 ctr t got e it d1 Hfw (ca_time _ _ _ _ Hc) Hgap) as [Hfw0 Hap0].
  pose proof (arrival_of_ok it ida _ ctr p Hc Hd) as Harr. pose proof Hfw0 as [Hok Hh Hal].
  assert (Hal1 : alone (de_ida (ida_salvage_drain e (it_timestamp_us it) d1)) i false (ar_freq (arrival_of it ida)))
    by (apply Hal; apply (Hfs (Sent e it p)); by left).
  assert (Ed : process_all (Sent e it p :: l) d = process_all l (da_chain e it ida d1)) by (unfold process_all; cbn; by rewrite Ep).
  rewrite Ed. clear Ed Ep. pose proof (ca_payload _ _ _ _ Hc) as [Hpl Hpb].
  assert (Hg' : is_bytes (got ++ p)) by (apply Forall_app; done).
  rewrite length_app in Hlen. destruct l as [|x l].
  - destruct (step_final _ i false f0 ctr t got false (arrival_of it ida) buf320 320 Hok Hh Hal1 Hctr Hf0 Harr
      (dt_ctr _ _ _ _ Hd) ltac:(cbn [ar_ida arrival_of]; rewrite (dt_cont _ _ _ _ Hd); reflexivity) Hgap Hdb) as (ctx & Ef & _ & _).
    { cbn [ar_ida arrival_of]. rewrite (dt_bytes _ _ _ _ Hd). lia. }
    { cbn [ar_ida arrival_of]. rewrite (dt_bytes _ _ _ _ Hd). lia. }
    cbn [ar_ida ar_crc_ok arrival_of] in Ef. rewrite (dt_bytes _ _ _ _ Hd), (dt_crc _ _ _ _ Hd) in Ef.
    destruct (chain_completes e it _ ctr p ida Hc d1 ctx (got ++ p) Ef) as (d2 & Hap2 & Ech).
    unfold sent_bytes in Hblk. cbn [map concat] in Hblk. rewrite app_nil_r in Hblk.
    destruct Hblk as (ev & Ep & Hs & H8 & -> & Hb8). cbn [process_all fold_left last_item map List.last].
    eapply (complete_delivers (got ++ p) ev it d d2); try done; [|lia].
    etransitivity; [exact Hap|]. etransitivity; [exact Hap0|exact Hap2].
  - assert (Hctr7 : ctr < 7) by (destruct Hrest; lia).
    destruct (step_middle _ i false f0 ctr t got false (arrival_of it ida) buf320 320 Hok Hh Hal1 ltac:(lia) Hf0 Harr
      (dt_ctr _ _ _ _ Hd) ltac:(cbn [ar_ida arrival_of]; rewrite (dt_cont _ _ _ _ Hd); discriminate) Hgap Hdb)
      as (ctx & Ef & Hok' & Hh' & Hal').
    { cbn [ar_ida arrival_of]. rewrite (dt_bytes _ _ _ _ Hd). lia. }
    cbn [ar_ida ar_crc_ok arrival_of ar_time] in Hh'. rewrite (dt_bytes _ _ _ _ Hd), (dt_crc _ _ _ _ Hd) in Hh'.
    destruct (chain_stores e it _ ctr p ida Hc d1 ctx Ef) as [Hap2 Ei].
    assert (Hall : apart d (da_chain e it ida d1)) by (etransitivity; [exact Hap|]; etransitivity; [exact Hap0|exact Hap2]).
    eapply delivered_after; [apply (ap_later _ _ Hall)|].
    change (last_item (Sent e it p :: x :: l)) with (last_item (x :: l)).
    apply (IH _ (ctr + 1) (it_timestamp_us it) (got ++ p)); try done; try lia.
    + rewrite Ei. split; [done|done|]. intros f Hf. apply Hal', Hal, Hf.
    + intros y Hy. apply Hfs. by right.
    + by rewrite (ap_sbd _ _ Hall).
    + apply (ap_bch _ _ Hall), Hbch.
    + rewrite length_app. lia.
Qed.

Lemma sent_length f0 l : forall ctr t, sent_from f0 ctr t l -> Z.of_nat (length (sent_bytes l)) <= 20 * (8 - ctr).
Proof.
  induction l as [|x l IH]; intros ctr t H; [done|]. destruct H as (H7 & Hc & _ & _ & Hr).
  pose proof (ca_payload _ _ _ _ Hc) as [Hp _]. rewrite sent_bytes_cons, length_app.
  destruct l as [|y l]; [cbn; lia|]. specialize (IH _ _ Hr). lia.
Qed.

Lemma drain_awaiting fs e now d :
  awaiting fs (de_ida d) -> let d0 := ida_salvage_drain e now d in awaiting fs (de_ida d0) /\ apart d d0.
Proof. intros H. apply drain_keep; [|done]. intros ctx sv. apply reap_awaiting. Qed.

(** A frame that stands alone is complete. *)
Lemma standalone_feed ctx it ida p :
  ctx_ok ctx -> decodes_to ida 0 0 p -> (length p <= 20)%nat ->
  feed_arrival false buf320 320 ctx (arrival_of it ida) =
  (FeedOut 1 (blit buf320 0 p) (Z.of_nat (length p)) false, count ctx 1 0 0 0 0 0 0 0).
Proof.
  intros Hok Hd Hp. unfold feed_arrival, arrival_of. cbn [ar_ida ar_crc_ok ar_freq ar_time].
  rewrite feed_cases by (apply Hok || apply (dt_fragment _ _ _ _ Hd)).
  rewrite (dt_ctr _ _ _ _ Hd), (dt_cont _ _ _ _ Hd). change (bit 0) with 0. cbn [Z.eqb]. cbv zeta.
  rewrite (dt_len _ _ _ _ Hd), Z.min_r by lia. rewrite <- (dt_len _ _ _ _ Hd).
  fold (fragment_bytes ida). by rewrite (dt_bytes _ _ _ _ Hd).
Qed.

(** C2: delivery. A downlink message of its own, of at least 8 bytes for
    libacars, is cut into one to eight DA frames, encoded, and received with at
    most two bit errors in each codeword and none in the first 24 data bits, in
    order, each burst within 5 kHz of the first and 700 ms of its predecessor.
    If the decoder, in any state its tables can be in, has a free chain session
    and no other open downlink chain near those frequencies, then processing
    these bursts one after the other gives libacars exactly the message's
    octets, once, and publishes exactly what libacars completes. *)
Theorem decoder_delivers d x l buf :
  ctx_ok (de_ida d) -> sbd_ok (de_sbd d) -> syn_ok (de_bch d) ->
  carries (se_item x) (match l with [] => 0 | _ => 1 end) 0 (se_payload x) ->
  (l <> [] -> sent_from (key (se_item x)) 1 (it_timestamp_us (se_item x)) l) ->
  (exists i, (i < 4)%nat /\ rs_active (session (de_ida d) i) = false) ->
  (forall j y, (j < 4)%nat -> In y (x :: l) -> rs_active (session (de_ida d) j) = true ->
     rs_uplink (session (de_ida d) j) = false -> in_deadband (session (de_ida d) j) (key (se_item y)) = false) ->
  carries_block (sent_bytes (x :: l)) buf ->
  let it := last_item (x :: l) in
  delivered buf (it_timestamp_us it) (it_peak_bin it) (it_snr_db it) d (process_all (x :: l) d).
Proof.
  intros Hok Hsbd Hbch Hc Hrest Hfree Hclear Hblk. destruct x as [e it p]. cbn [se_item se_payload] in *.
  set (fs := map (fun y => key (se_item y)) (Sent e it p :: l)).
  assert (Hfs : forall y, In y (Sent e it p :: l) -> key (se_item y) ∈ fs).
  { intros y Hy. apply list_elem_of_In. unfold fs. by apply (in_map (fun y => key (se_item y))). }
  assert (Haw : awaiting fs (de_ida d)).
  { split; [done|done|]. intros j f Hj Hf. apply list_elem_of_In in Hf. unfold fs in Hf.
    apply in_map_iff in Hf as (y & <- & Hy). by apply Hclear. }
  destruct (process_carried e it _ 0 p d Hbch ltac:(lia) Hc) as (ida & d1 & Ep & Hd & Hap & Eida).
  rewrite <- Eida in Haw. destruct (drain_awaiting fs e (it_timestamp_us it) d1 Haw) as [[Hok0 Hf0 Hc0] Hap0].
  pose proof (arrival_of_ok it ida _ 0 p Hc Hd) as Harr. pose proof (ca_payload _ _ _ _ Hc) as [Hpl Hpb].
  assert (Ed : process_all (Sent e it p :: l) d = process_all l (da_chain e it ida d1)) by (unfold process_all; cbn; by rewrite Ep).
  rewrite Ed. clear Ed Ep. destruct l as [|x l].
  - unfold sent_bytes in Hblk. cbn [map concat se_payload] in Hblk. rewrite app_nil_r in Hblk.
    destruct Hblk as (ev & Ep & Hs & H8 & -> & Hb8).
    destruct (chain_completes e it _ 0 p ida Hc d1 (count (de_ida (ida_salvage_drain e (it_timestamp_us it) d1)) 1 0 0 0 0 0 0 0) p)
      as (d2 & Hap2 & Ech).
    { apply standalone_feed; [done|done|lia]. }
    cbn [process_all fold_left last_item map List.last].
    eapply (complete_delivers p ev it d d2); try done; [|lia].
    etransitivity; [exact Hap|]. etransitivity; [exact Hap0|exact Hap2].
  - specialize (Hrest ltac:(done)).
    destruct (step_open _ false (arrival_of it ida) buf320 320 Hok0 Harr (dt_ctr _ _ _ _ Hd)
      ltac:(cbn [ar_ida arrival_of]; rewrite (dt_cont _ _ _ _ Hd); discriminate) Hf0) as (i & ctx & Ef & Hok' & Hh & Hal).
    cbn [ar_ida ar_freq ar_time arrival_of] in Hh. rewrite (dt_bytes _ _ _ _ Hd) in Hh.
    destruct (chain_stores e it _ 0 p ida Hc d1 ctx Ef) as [Hap2 Ei].
    assert (Hall : apart d (da_chain e it ida d1)) by (etransitivity; [exact Hap|]; etransitivity; [exact Hap0|exact Hap2]).
    eapply delivered_after; [apply (ap_later _ _ Hall)|].
    change (last_item (Sent e it p :: x :: l)) with (last_item (x :: l)).
    apply (rest_delivers fs i (key it) buf (x :: l) _ 1 (it_timestamp_us it) p); try done.
    + rewrite Ei. split; [done|done|]. intros f Hf. apply Hal. intros j Hj. by apply Hc0.
    + intros y Hy. apply Hfs. by right.
    + apply key_range.
    + by rewrite (ap_sbd _ _ Hall).
    + apply (ap_bch _ _ Hall), Hbch.
    + rewrite length_app. pose proof (sent_length _ _ _ _ Hrest). lia.
Qed.
End delivery.

(** ** A delivery *)

(** Two bursts, both with bit errors, of one message. *)
Definition sample_text : list Z := [0x76; 0x09; 0x01; 0x32; 0x2E; 0x4E; 0x31; 0x32; 0x33; 0x48; 0x31; 0x31; 0x02; 0x41; 0x42;
  0x43; 0x44; 0x45; 0x46; 0x47; 0x48; 0x49; 0x4A; 0x4B; 0x03; 0x0D].
Definition sample_errors : list nat := [30; 31; 100; 200; 311]%nat.
Definition sample_burst (c r : Z) (payload : list Z) (bin t : Z) : sent :=
  Sent (Env false false false false t)
    (Item t 1626000000 bin 0 382 0 0 0 []
       (flips (map (Nat.add 70) sample_errors)
          (default [] (snd <$> ida_encode_da_frame c r payload (Z.of_nat (length payload)) [])))) payload.
Definition burst1 : sent := sample_burst 1 0 (take 20 sample_text) 100 1000.
Definition burst2 : sent := sample_burst 0 1 (drop 20 sample_text) 102 91000.

Lemma sample_carries c r payload bin t :
  0 <= r <= 7 -> (1 <= length payload <= 20)%nat -> is_bytes payload -> is_u 64 t ->
  carries (se_item (sample_burst c r payload bin t)) c r payload.
Proof.
  intros Hr Hl Hb Ht. split; [|done|done|done|done].
  eexists sample_errors, _, []. split; [by apply encode_frame_eq|]. split.
  - cbn [sample_burst se_item it_bits]. rewrite encode_frame_eq by done. cbn [default fmap option_fmap option_map snd].
    by rewrite app_nil_r.
  - split; [apply (bool_decide_unpack _); vm_compute; reflexivity|]. split.
    + intros i Hi. apply Nat.leb_le.
      exact (forall_below (fun i => (length (hits sample_errors i) <=? 2)%nat) 10 ltac:(vm_compute; reflexivity) i Hi).
    + apply (bool_decide_unpack _). vm_compute. reflexivity.
Qed.

#[local] Existing Instance sample_library.

Lemma decoder_delivers_witness :
  delivered (drop 3 sample_text) 91000 102 0 (decoder_init tt) (process_all [burst1; burst2] (decoder_init tt)).
Proof.
  apply (decoder_delivers (decoder_init tt) burst1 [burst2] (drop 3 sample_text)).
  - apply ida_reassembler_init_ok.
  - apply sbd_init_ok.
  - apply syn_init_ok.
  - apply sample_carries; [lia|cbn; lia|apply (bool_decide_unpack _); vm_compute; reflexivity|unfold is_u; lia].
  - intros _. split; [lia|]. split.
    + apply sample_carries; [lia|cbn; lia|apply (bool_decide_unpack _); vm_compute; reflexivity|unfold is_u; lia].
    + split; [vm_compute; split; discriminate|]. split; [vm_compute; discriminate|exact I].
  - exists 0%nat. split; [lia|reflexivity].
  - intros j y Hj _ Ha. do 4 (destruct j as [|j]; [discriminate Ha|]). lia.
  - exists (Envelope SBD_TYPE_DATA_DL_7609 (-1) 0 2 24). split; [vm_compute; reflexivity|]. split; [by left|].
    split; [cbn; lia|]. split; [vm_compute; reflexivity|cbn; lia].
Defined.

(** ** The drain ends *)

Section drain.
Context {Ctx : Type}.

Definition stale_count (ctx : ida_reassembler) (now : Z) : nat :=
  length (List.filter (fun i => session_stale (session ctx i) now) (seq 0 4)).

Lemma filter_all_false {A} (p : A -> bool) l : (forall x, In x l -> p x = false) -> List.filter p l = [].
Proof.
  induction l as [|a l IH]; intros H; [done|]. cbn. rewrite (H a) by (by left). apply IH. intros x Hx. apply H. by right.
Qed.

Lemma filter_length_drop {A} (p q : A -> bool) l i :
  In i l -> p i = true -> q i = false -> (forall x, q x = true -> In x l -> p x = true) ->
  (length (List.filter q l) < length (List.filter p l))%nat.
Proof.
  intros Hi Hp Hq Hle.
  assert (Hmono : forall k, (forall x, In x k -> In x l) -> (length (List.filter q k) <= length (List.filter p k))%nat).
  { induction k as [|a k IH]; intros Hk; [done|]. cbn. specialize (IH (fun x Hx => Hk x (or_intror Hx))).
    destruct (q a) eqn:Eq; [rewrite (Hle a Eq (Hk a (or_introl eq_refl)))|destruct (p a)]; cbn; lia. }
  apply in_split in Hi as (l1 & l2 & ->). rewrite !List.filter_app, !length_app. cbn. rewrite Hp, Hq. cbn.
  pose proof (Hmono l1) as H1. pose proof (Hmono l2) as H2.
  specialize (H1 (fun x Hx => in_or_app _ _ _ (or_introl Hx))).
  specialize (H2 (fun x Hx => in_or_app l1 (i :: l2) x (or_intror (in_cons i x l2 Hx)))). lia.
Qed.

(** A reap that hands out a chain leaves one stale chain less; one that does
    not found none. *)
Lemma reap_counts ctx now sv :
  ctx_ok ctx -> length (sv_payload sv) = 320%nat ->
  let '(r, _, ctx') := ida_reassembler_reap ctx now sv in
  (r = 0 /\ ctx' = ctx /\ stale_count ctx now = 0%nat) \/ (r = 1 /\ (stale_count ctx' now < stale_count ctx now)%nat).
Proof.
  intros Hok Hl. pose proof (reap_spec ctx now sv Hok Hl) as Hs.
  destruct (ida_reassembler_reap ctx now sv) as [[r sv'] ctx']. destruct Hs as [_ Hs]. unfold stale_count.
  destruct Hs as [(-> & _ & -> & H)|(i & -> & Hi & Hst & Hs & _)].
  - left. split; [done|]. split; [done|]. rewrite filter_all_false; [done|]. intros j Hj%in_seq. apply H. lia.
  - right. split; [done|]. apply (filter_length_drop _ _ _ i); [apply in_seq; lia|done| |].
    + rewrite Hs, decide_True by done. reflexivity.
    + intros j Hj Hin%in_seq. rewrite Hs in Hj by lia. destruct (decide (i = j)); [discriminate|done].
Qed.

Lemma salvage_ida e payload len up frags dirty (d : decoder (Ctx := Ctx)) :
  de_ida (salvage_emit e payload len up frags dirty d).2 = de_ida d.
Proof.
  unfold salvage_emit. destruct (sbd_salvage_parse payload len up) as [ret info]. destruct (negb (ret =? 1)); [done|].
  cbn [snd]. by destruct (en_best_effort e).
Qed.

(** More rounds than stale chains drain them all, and further rounds add
    nothing. *)
Lemma rounds_enough e now fuel : forall sv (d : decoder (Ctx := Ctx)),
  ctx_ok (de_ida d) -> length (sv_payload sv) = 320%nat -> (stale_count (de_ida d) now < fuel)%nat ->
  stale_count (de_ida (salvage_rounds fuel e now sv d)) now = 0%nat /\
  forall fuel', (fuel <= fuel')%nat -> salvage_rounds fuel' e now sv d = salvage_rounds fuel e now sv d.
Proof.
  induction fuel as [|fuel IH]; intros sv d Hok Hl Hc; [lia|]. cbn [salvage_rounds].
  pose proof (reap_counts (de_ida d) now sv Hok Hl) as Hr. destruct (reap_changes (de_ida d) now sv Hok Hl) as (Hok' & Hl' & _).
  assert (Hlater : forall fuel', (S fuel <= fuel')%nat -> exists k, fuel' = S k /\ (fuel <= k)%nat)
    by (intros [|k]; [lia|]; exists k; lia).
  destruct (ida_reassembler_reap (de_ida d) now sv) as [[r sv'] ida] eqn:Er. cbn [fst snd] in *.
  destruct Hr as [(-> & -> & H0)|[-> Hlt]]; cbn [Z.eqb].
  - split; [done|]. intros fuel' (k & -> & _)%Hlater. cbn [salvage_rounds]. by rewrite Er.
  - pose proof (salvage_ida e (sv_payload sv') (sv_payload_len sv') (sv_uplink sv') (sv_frags sv') (sv_dirty sv')
      (with_ida ida d)) as Ei.
    destruct (salvage_emit e (sv_payload sv') (sv_payload_len sv') (sv_uplink sv') (sv_frags sv') (sv_dirty sv')
      (with_ida ida d)) as [ok d1] eqn:Es. cbn [snd de_ida with_ida] in Ei.
    destruct (IH sv' (tick (if ok =? 1 then salvage_ok else salvage_rejected) d1)) as [H1 H2];
      [cbn [tick de_ida]; by rewrite Ei|done|cbn [tick de_ida]; rewrite Ei; lia|].
    split; [exact H1|]. intros fuel' (k & -> & Hk)%Hlater. cbn [salvage_rounds]. rewrite Er. cbn [Z.eqb]. rewrite Es.
    by apply H2.
Qed.

Lemma stale_count_bound ctx now : (stale_count ctx now <= 4)%nat.
Proof. unfold stale_count. pose proof (List.filter_length_le (fun i => session_stale (session ctx i) now) (seq 0 4)) as H. exact H. Qed.

(** The drain ends.  Five rounds of the reap loop are enough: afterwards
    no chain is past its timeout, and any number of further rounds changes
    nothing. *)
Theorem ida_salvage_drain_ends e now (d : decoder (Ctx := Ctx)) :
  ctx_ok (de_ida d) ->
  stale_count (de_ida (ida_salvage_drain e now d)) now = 0%nat /\
  forall fuel, (5 <= fuel)%nat -> salvage_rounds fuel e now salvage_zero d = ida_salvage_drain e now d.
Proof.
  intros Hok. pose proof (stale_count_bound (de_ida d) now) as Hb.
  destruct (rounds_enough e now 5 salvage_zero d Hok eq_refl ltac:(lia)) as [H1 H2].
  split; [exact H1|exact H2].
Qed.
End drain.

(** A chain opened and left: the drain a second later hands it out. *)
Definition open_decoder : decoder (Ctx := unit) :=
  process_one (se_env burst1) (se_item burst1) (decoder_init tt).

Lemma ida_salvage_drain_ends_witness :
  stale_count (de_ida open_decoder) 1002000 = 1%nat /\
  stale_count (de_ida (ida_salvage_drain (se_env burst1) 1002000 open_decoder)) 1002000 = 0%nat.
Proof.
  split; [vm_compute; reflexivity|]. apply ida_salvage_drain_ends.
  apply (tr_ida _ _ (traced_process_one [] (se_env burst1) (se_item burst1) (decoder_init tt)
    ltac:(vm_compute; split; [discriminate|reflexivity])
    ltac:(constructor; [apply Forall_nil_2|apply reasm_from_init|apply sbd_from_init|apply Forall_nil_2]))).
Defined.
