(* ===== verification/SignalBuffer.v ===== *)
(** The ring of raw samples behind the burst detector
    (src/p4-usb-host/main/signal_buffer.c and signal_buffer_ring.h).

    The ingest task narrows samples to 8 bits, rounds each push down to whole
    cache lines, keeping the remainder for the next one, and hands the block to
    the DMA channel, which copies it into the ring on its own time.  Readers on
    the other core test a window with [signal_buffer_burst_valid] and read it
    back.  Because head, counter and data move at different moments, the push
    is cut at its shared effects: submission, the DMA's moves, their completion
    and the publication of the counters are separate steps.

    A complex sample is a pair and arrays of interleaved components are lists
    of pairs; offsets and lengths count complex samples, half the bytes.  The
    ring is a function from offsets.  The DMA channel is hardware: it performs
    the transfers submitted in order, sample by sample in any order, reading
    the scratch area when it moves a sample.  Cache maintenance and log lines
    are left out; submission failures and the semaphore's timeout are inputs. *)

From S2P Require Import Prelude.

(** ** Constants *)

Definition SIGNAL_BUF_SIZE : Z := 16 * 1024 * 1024.
Definition SIGNAL_BUF_CAPACITY_COMPLEX : Z := SIGNAL_BUF_SIZE / 2.
Definition ALIGN_COMPLEX : Z := 32.
Definition ALIGN_SCRATCH_MAX_BYTES : Z := 16 * 1024 * 2.

Definition signal_buffer_next_head (head aligned_count total_cap : Z) : Z := u32 (head + aligned_count) mod total_cap.

(** ** Samples *)

Definition complex : Type := Z * Z.

(** [(int8_t)(v >> 8)] under the assertion that the low byte is zero, and
    [(int16_t)((int32_t)b << 8)].  A failed assertion aborts: [None]. *)
Definition narrow1 (v : Z) : option Z :=
  if Z.land (u16 v) 0xFF =? 0 then Some (sN 8 (Z.shiftr v 8)) else None.
Definition widen1 (b : Z) : Z := sN 16 (Z.shiftl b 8).

Definition narrow (s : complex) : option complex := i ← narrow1 s.1; q ← narrow1 s.2; Some (i, q).
Definition widen (s : complex) : complex := (widen1 s.1, widen1 s.2).

(** ** State *)

(** A submitted copy: destination offset in the ring, source offset in the
    scratch area, the samples not yet moved, and whether its completion gives
    the semaphore. *)
Record transfer := Transfer { tx_dst : Z; tx_src : nat; tx_left : list nat; tx_cb : bool }.

(** [circular_buf], [head], [s_head_total], [s_stream_epoch_us],
    [s_align_scratch], the first [s_carry_n_complex] entries of [s_carry],
    [s_dma_done], the counters, and the channel's outstanding transfers. *)
Record sbuf := SBuf {
  sb_ring : Z -> complex; sb_head : Z; sb_total : Z; sb_epoch : Z; sb_scratch : list complex;
  sb_carry : list complex; sb_sem : bool; sb_fails : Z; sb_recoveries : Z; sb_timeouts : Z; sb_races : Z;
  sb_clamped : Z; sb_flight : list transfer }.

Definition signal_buffer_init : sbuf :=
  SBuf (fun _ => (0, 0)) 0 0 0 (replicate (Z.to_nat (ALIGN_SCRATCH_MAX_BYTES / 2)) (0, 0)) [] true 0 0 0 0 0 [].

Definition with_ring (ring : Z -> complex) (s : sbuf) : sbuf :=
  SBuf ring (sb_head s) (sb_total s) (sb_epoch s) (sb_scratch s) (sb_carry s) (sb_sem s) (sb_fails s)
    (sb_recoveries s) (sb_timeouts s) (sb_races s) (sb_clamped s) (sb_flight s).
Definition with_scratch (scratch : list complex) (s : sbuf) : sbuf :=
  SBuf (sb_ring s) (sb_head s) (sb_total s) (sb_epoch s) scratch (sb_carry s) (sb_sem s) (sb_fails s)
    (sb_recoveries s) (sb_timeouts s) (sb_races s) (sb_clamped s) (sb_flight s).
Definition with_carry (carry : list complex) (s : sbuf) : sbuf :=
  SBuf (sb_ring s) (sb_head s) (sb_total s) (sb_epoch s) (sb_scratch s) carry (sb_sem s) (sb_fails s)
    (sb_recoveries s) (sb_timeouts s) (sb_races s) (sb_clamped s) (sb_flight s).
Definition with_sem (sem : bool) (s : sbuf) : sbuf :=
  SBuf (sb_ring s) (sb_head s) (sb_total s) (sb_epoch s) (sb_scratch s) (sb_carry s) sem (sb_fails s)
    (sb_recoveries s) (sb_timeouts s) (sb_races s) (sb_clamped s) (sb_flight s).
Definition with_flight (flight : list transfer) (s : sbuf) : sbuf :=
  SBuf (sb_ring s) (sb_head s) (sb_total s) (sb_epoch s) (sb_scratch s) (sb_carry s) (sb_sem s) (sb_fails s)
    (sb_recoveries s) (sb_timeouts s) (sb_races s) (sb_clamped s) flight.
Definition sb_count (s : sbuf) (fails recoveries timeouts races clamped : Z) : sbuf :=
  SBuf (sb_ring s) (sb_head s) (sb_total s) (sb_epoch s) (sb_scratch s) (sb_carry s) (sb_sem s)
    (u32 (sb_fails s + fails)) (u32 (sb_recoveries s + recoveries)) (u32 (sb_timeouts s + timeouts))
    (u32 (sb_races s + races)) (u32 (sb_clamped s + clamped)) (sb_flight s).

(** ** Pushing *)

(** [memcpy] of a block into the ring by the processor. *)
Definition ring_write (ring : Z -> complex) (dst : Z) (src : list complex) : Z -> complex :=
  fun p => if (dst <=? p) && (p <? dst + Z.of_nat (length src)) then nth (Z.to_nat (p - dst)) src (0, 0) else ring p.

Definition give_dma_done_once (s : sbuf) : sbuf := if sb_sem s then sb_count s 0 0 0 1 0 else with_sem true s.

(** The rounding and the clamp: samples to commit, samples to carry, samples
    dropped. *)
Definition push_counts (total_avail : Z) : Z * Z * Z :=
  let aligned_count := Z.land total_avail (Z.lnot (ALIGN_COMPLEX - 1)) in
  let new_carry_count := total_avail - aligned_count in
  if ALIGN_SCRATCH_MAX_BYTES <? aligned_count * 2 then
    let aligned_count := Z.land ALIGN_SCRATCH_MAX_BYTES (Z.lnot 63) / 2 in
    let new_carry_count := total_avail - aligned_count in
    if ALIGN_COMPLEX - 1 <? new_carry_count
    then (aligned_count, ALIGN_COMPLEX - 1, new_carry_count - (ALIGN_COMPLEX - 1))
    else (aligned_count, new_carry_count, 0)
  else (aligned_count, new_carry_count, 0).

(** The submission of the block at the start of the scratch area, [r1] and
    [r2] saying whether the channel accepts each segment, and the recovery. *)
Definition push_submit (s : sbuf) (aligned_count : Z) (r1 r2 : bool) : sbuf :=
  let to_end := SIGNAL_BUF_CAPACITY_COMPLEX - sb_head s in
  let block := take (Z.to_nat aligned_count) (sb_scratch s) in
  if aligned_count <=? to_end then
    if r1 then with_flight (sb_flight s ++ [Transfer (sb_head s) 0 (seq 0 (Z.to_nat aligned_count)) true]) s
    else give_dma_done_once (with_ring (ring_write (sb_ring s) (sb_head s) block) (sb_count s 1 1 0 0 0))
  else
    let n1 := Z.to_nat to_end in
    let first := Transfer (sb_head s) 0 (seq 0 n1) false in
    if r1 then
      let second := Transfer 0 n1 (seq 0 (Z.to_nat aligned_count - n1)) true in
      if r2 then with_flight (sb_flight s ++ [first; second]) s
      else give_dma_done_once (with_flight (sb_flight s ++ [first]) (sb_count s 1 0 0 0 0))
    else
      give_dma_done_once
        (with_ring (ring_write (ring_write (sb_ring s) (sb_head s) (take n1 block)) 0 (drop n1 block)) (sb_count s 1 1 0 0 0)).

(** A push up to the submission: the new state and, when a block was
    submitted, its length and the new carry, still to be published.  [taken]
    says whether the semaphore came before the timeout; [None] is a failed
    assertion. *)
Definition push_begin (s : sbuf) (samples : list complex) (taken r1 r2 : bool)
  : option (sbuf * option (Z * list complex)) :=
  let n_samples := Z.of_nat (length samples) in
  let carry_n := Z.of_nat (length (sb_carry s)) in
  let total_avail := carry_n + n_samples in
  if total_avail <? ALIGN_COMPLEX then
    fresh ← mapM narrow samples; Some (with_carry (sb_carry s ++ fresh) s, None)
  else
    let '(aligned_count, new_carry_count, dropped) := push_counts total_avail in
    let s := sb_count s 0 0 0 0 dropped in
    let s := if taken then with_sem false s else sb_count s 0 0 1 0 0 in
    block ← mapM narrow (take (Z.to_nat (aligned_count - carry_n)) samples);
    tail ← mapM narrow (drop (Z.to_nat (n_samples - new_carry_count)) samples);
    let s := with_scratch (blit (sb_scratch s) 0 (sb_carry s ++ block)) s in
    Some (push_submit s aligned_count r1 r2, Some (aligned_count, tail)).

(** The rest of it: head, epoch, counter, carry. *)
Definition push_publish (s : sbuf) (aligned_count : Z) (tail : list complex) (now : Z) : sbuf :=
  SBuf (sb_ring s) (signal_buffer_next_head (sb_head s) aligned_count SIGNAL_BUF_CAPACITY_COMPLEX)
    (u64 (sb_total s + aligned_count)) (if sb_epoch s =? 0 then now else sb_epoch s) (sb_scratch s) tail (sb_sem s)
    (sb_fails s) (sb_recoveries s) (sb_timeouts s) (sb_races s) (sb_clamped s) (sb_flight s).

(** ** Reading *)

Definition signal_buffer_burst_valid (s : sbuf) (start_idx length : Z) : bool :=
  let total_cap := SIGNAL_BUF_CAPACITY_COMPLEX in
  if (length =? 0) || (total_cap <=? length) then false else
  let ht := sb_total s in
  let end_abs := u64 (start_idx + length) in
  if ht <? end_abs then false else u64 (ht - start_idx) <=? total_cap.

Definition signal_buffer_read_chunk (s : sbuf) (start_idx length : Z) : list complex :=
  let total_cap := SIGNAL_BUF_CAPACITY_COMPLEX in
  let actual_start := start_idx mod total_cap in
  if u32 (actual_start + length) <=? total_cap then
    map (fun i => widen (sb_ring s (actual_start + Z.of_nat i))) (seq 0 (Z.to_nat length))
  else
    let to_end := total_cap - actual_start in
    map (fun i => widen (sb_ring s (actual_start + Z.of_nat i))) (seq 0 (Z.to_nat to_end)) ++
    map (fun i => widen (sb_ring s (Z.of_nat i))) (seq 0 (Z.to_nat (length - to_end))).

(** ** Steps *)

(** The buffer and the push in progress. *)
Record sb_sys := SbSys { sy_buf : sbuf; sy_push : option (Z * list complex) }.

Definition sb_start : sb_sys := SbSys signal_buffer_init None.

(** A push is begun, or publishes; the channel moves a sample of its first
    transfer, or completes it. *)
Inductive sb_event :=
  | Push (samples : list complex) (taken r1 r2 : bool) | Publish (now : Z) | Move (k : nat) | Complete.

(** [None]: not possible in this state, or a failed assertion. *)
Definition sb_step (y : sb_sys) (ev : sb_event) : option sb_sys :=
  let s := sy_buf y in
  match ev with
  | Push samples taken r1 r2 =>
      match sy_push y with
      | Some _ => None
      | None =>
          if Bool.eqb taken (sb_sem s) || (Z.of_nat (length (sb_carry s) + length samples) <? ALIGN_COMPLEX) then
            '(s, push) ← push_begin s samples taken r1 r2; Some (SbSys s push)
          else None
      end
  | Publish now =>
      match sy_push y with
      | Some (n, tail) => Some (SbSys (push_publish s n tail now) None)
      | None => None
      end
  | Move k =>
      match sb_flight s with
      | t :: ts =>
          if existsb (Nat.eqb k) (tx_left t) then
            let ring := ring_write (sb_ring s) (tx_dst t + Z.of_nat k) [nth (tx_src t + k) (sb_scratch s) (0, 0)] in
            let t := Transfer (tx_dst t) (tx_src t) (List.filter (fun i => negb (i =? k)%nat) (tx_left t)) (tx_cb t) in
            Some (SbSys (with_flight (t :: ts) (with_ring ring s)) (sy_push y))
          else None
      | [] => None
      end
  | Complete =>
      match sb_flight s with
      | Transfer _ _ [] cb :: ts =>
          Some (SbSys (with_flight ts (if cb then with_sem true s else s)) (sy_push y))
      | _ => None
      end
  end.

Fixpoint sb_run (y : sb_sys) (evs : list sb_event) : option sb_sys :=
  match evs with [] => Some y | ev :: evs => y ← sb_step y ev; sb_run y evs end.

(** ** Samples survive *)

Notation CAP := SIGNAL_BUF_CAPACITY_COMPLEX.

Definition int16 (v : Z) : Prop := - 2 ^ 15 <= v < 2 ^ 15.
Definition int16_sample (s : complex) : Prop := int16 s.1 /\ int16 s.2.

Lemma narrow1_widen v b : int16 v -> narrow1 v = Some b -> widen1 b = v.
Proof.
  unfold int16, narrow1, widen1. intros Hv H. destruct (Z.eqb_spec (Z.land (u16 v) 0xFF) 0) as [E|]; [|done].
  injection H as <-. change 0xFF with (Z.ones 8) in E. rewrite Z.land_ones in E by lia.
  assert (Hd : v = 256 * (v / 256)).
  { rewrite (Z.div_mod v 256) at 1 by lia. enough (v mod 256 = 0) by lia.
    rewrite <- E. unfold u16. change (2 ^ 8) with 256. change (2 ^ 16) with (256 * 256).
    rewrite Z.rem_mul_r by lia. rewrite (Z.mul_comm 256 (_ mod 256)), Z.mod_add by lia. by rewrite Z.mod_mod by lia. }
  rewrite Z.shiftr_div_pow2 by lia. change (2 ^ 8) with 256. unfold sN. change (2 ^ (8 - 1)) with 128.
  change (2 ^ (16 - 1)) with 32768. rewrite (Z.mod_small (v / 256 + 128)) by lia.
  rewrite Z.shiftl_mul_pow2 by lia. rewrite Z.mod_small; lia.
Qed.

Lemma narrow_widen s b : int16_sample s -> narrow s = Some b -> widen b = s.
Proof.
  destruct s as [v w]. intros [H1 H2] H. unfold narrow in H. cbn [fst snd] in *.
  destruct (narrow1 v) as [x|] eqn:E1; [|done]. destruct (narrow1 w) as [z|] eqn:E2; [|done]. injection H as <-.
  unfold widen. cbn [fst snd]. by rewrite (narrow1_widen v x), (narrow1_widen w z).
Qed.

Lemma narrow_all_widen l bs : Forall int16_sample l -> mapM narrow l = Some bs -> map widen bs = l.
Proof.
  intros Hl H. apply mapM_Some_1 in H. induction H as [|s b l bs Hs _ IH]; [done|].
  apply Forall_cons_1 in Hl as [H1 H2]. cbn. by rewrite (narrow_widen s b), IH.
Qed.

(** ** Offsets *)

Lemma cap_value : CAP = 8388608.
Proof. reflexivity. Qed.

Lemma mod_offset T j : 0 <= T -> 0 <= j < CAP ->
  (T + j) mod CAP = if T mod CAP + j <? CAP then T mod CAP + j else T mod CAP + j - CAP.
Proof.
  rewrite cap_value. intros HT Hj. pose proof (Z.mod_pos_bound T 8388608 ltac:(lia)) as Hm.
  rewrite <- Zplus_mod_idemp_l. destruct (Z.ltb_spec (T mod 8388608 + j) 8388608); [by rewrite Z.mod_small by lia|].
  symmetry. apply (Z.mod_unique _ _ 1); lia.
Qed.

Lemma cap_distinct a b : a <> b -> Z.abs (a - b) < CAP -> a mod CAP <> b mod CAP.
Proof.
  rewrite cap_value. intros Hn Hd E. pose proof (Z.div_mod a 8388608 ltac:(lia)).
  pose proof (Z.div_mod b 8388608 ltac:(lia)). nia.
Qed.

Lemma ring_write_in ring dst src j : (j < length src)%nat -> ring_write ring dst src (dst + Z.of_nat j) = nth j src (0, 0).
Proof.
  intros Hj. unfold ring_write. rewrite (proj2 (Z.leb_le _ _)), (proj2 (Z.ltb_lt _ _)) by lia. cbn [andb].
  f_equal. lia.
Qed.

Lemma ring_write_one ring p x : ring_write ring p [x] p = x.
Proof.
  unfold ring_write. cbn [length]. rewrite (proj2 (Z.leb_le _ _)), (proj2 (Z.ltb_lt _ _)) by lia. cbn [andb].
  by rewrite Z.sub_diag.
Qed.

Lemma ring_write_out ring dst src p :
  p < dst \/ dst + Z.of_nat (length src) <= p -> ring_write ring dst src p = ring p.
Proof.
  intros H. unfold ring_write. destruct (Z.leb_spec dst p), (Z.ltb_spec p (dst + Z.of_nat (length src))); try done. lia.
Qed.

(** ** What the ring holds *)

(** The samples submitted but not yet counted, and the carry to come. *)
Definition pending (y : sb_sys) : Z := match sy_push y with Some (n, _) => n | None => 0 end.
Definition carried (y : sb_sys) : list complex := match sy_push y with Some (_, c) => c | None => sb_carry (sy_buf y) end.

(** Some transfer has yet to write position [p]. *)
Definition outstanding (s : sbuf) (p : Z) : Prop :=
  exists t k, In t (sb_flight s) /\ In k (tx_left t) /\ tx_dst t + Z.of_nat k = p.

Definition BLOCK : Z := 16384.

(** [S] is the stream committed: all submitted blocks, in 8 bits. *)
Record streams (y : sb_sys) (S : list complex) : Prop := {
  st_scratch : length (sb_scratch (sy_buf y)) = Z.to_nat BLOCK;
  st_carry : (length (carried y) < 32)%nat;
  st_total : sb_total (sy_buf y) = Z.of_nat (length S) - pending y;
  st_pending : 0 <= pending y <= BLOCK /\ pending y <= Z.of_nat (length S);
  st_head : sb_head (sy_buf y) = sb_total (sy_buf y) mod CAP;
  st_ring : forall a, 0 <= a -> Z.of_nat (length S) - CAP <= a < Z.of_nat (length S) ->
    sb_ring (sy_buf y) (a mod CAP) = nth (Z.to_nat a) S (0, 0) \/
    (Z.of_nat (length S) - BLOCK <= a /\ outstanding (sy_buf y) (a mod CAP));
  st_flight : forall t k, In t (sb_flight (sy_buf y)) -> In k (tx_left t) ->
    exists a, 0 <= a /\ Z.of_nat (length S) - BLOCK <= a < Z.of_nat (length S) /\
      tx_dst t + Z.of_nat k = a mod CAP /\ nth (tx_src t + k) (sb_scratch (sy_buf y)) (0, 0) = nth (Z.to_nat a) S (0, 0);
  st_sem : sb_sem (sy_buf y) = true -> sb_flight (sy_buf y) = [];
  st_last : Forall (fun t => tx_cb t = false) (removelast (sb_flight (sy_buf y))) }.

Lemma streams_start : streams sb_start [].
Proof.
  constructor; cbn [sy_buf sb_start signal_buffer_init sb_flight sb_ring sb_scratch]; try done.
  - unfold carried. cbn. lia.
  - cbn. lia.
Qed.

(** The channel moves a sample. *)
Lemma move_streams y S t ts k :
  streams y S -> sb_flight (sy_buf y) = t :: ts -> In k (tx_left t) ->
  streams (SbSys (with_flight (Transfer (tx_dst t) (tx_src t) (List.filter (fun i => negb (i =? k)%nat) (tx_left t)) (tx_cb t) :: ts)
    (with_ring (ring_write (sb_ring (sy_buf y)) (tx_dst t + Z.of_nat k) [nth (tx_src t + k) (sb_scratch (sy_buf y)) (0, 0)])
      (sy_buf y))) (sy_push y)) S.
Proof.
  intros [H1 H2 H3 H4 H5 H6 H7 H8 H9] Ef Hk. set (t' := Transfer _ _ _ _).
  assert (Hin : In t (sb_flight (sy_buf y))) by (rewrite Ef; by left).
  destruct (H7 t k Hin Hk) as (a0 & Ha0 & Hb0 & Ep & Ev).
  constructor; try done; cbn [sy_buf with_flight with_ring sb_ring sb_flight sb_scratch sb_sem].
  - intros a Ha Hw. destruct (decide (a = a0)) as [->|Hne].
    + left. by rewrite <- Ep, ring_write_one.
    + assert (Hd : a mod CAP <> a0 mod CAP) by (apply cap_distinct; [done|]; unfold BLOCK in *; rewrite cap_value in *; lia).
      rewrite ring_write_out by (cbn [length]; rewrite Ep; lia). destruct (H6 a Ha Hw) as [|[Hb (u & i & Hu & Hi & E)]]; [by left|].
      right. split; [done|]. rewrite Ef in Hu. destruct Hu as [<-|Hu].
      * exists t', i. split; [by left|]. split; [|done]. apply filter_In. split; [done|].
        apply negb_true_iff, Nat.eqb_neq. intros ->. congruence.
      * exists u, i. split; [by right|done].
  - intros u i [<-|Hu] Hi.
    + apply filter_In in Hi as [Hi _]. exact (H7 t i Hin Hi).
    + apply (H7 u i); [rewrite Ef; by right|done].
  - intros Hs. rewrite (H8 Hs) in Ef. discriminate.
  - rewrite Ef in H9. destruct ts; [done|]. apply Forall_cons_1 in H9 as [Hc H9]. by apply Forall_cons_2.
Qed.

(** It completes one. *)
Lemma complete_streams y S dst src cb ts :
  streams y S -> sb_flight (sy_buf y) = Transfer dst src [] cb :: ts ->
  streams (SbSys (with_flight ts (if cb then with_sem true (sy_buf y) else sy_buf y)) (sy_push y)) S.
Proof.
  intros [H1 H2 H3 H4 H5 H6 H7 H8 H9] Ef. set (s' := if cb then _ else _).
  assert (E1 : sb_ring s' = sb_ring (sy_buf y)) by (by destruct cb).
  assert (E2 : sb_scratch s' = sb_scratch (sy_buf y)) by (by destruct cb).
  assert (E3 : sb_total s' = sb_total (sy_buf y)) by (by destruct cb).
  assert (E4 : sb_head s' = sb_head (sy_buf y)) by (by destruct cb).
  assert (E5 : sb_carry s' = sb_carry (sy_buf y)) by (by destruct cb).
  assert (Hcarry : carried (SbSys (with_flight ts s') (sy_push y)) = carried y)
    by (unfold carried; cbn [sy_push sy_buf with_flight sb_carry]; by rewrite E5).
  constructor; cbn [sy_buf with_flight sb_ring sb_flight sb_scratch sb_sem sb_total sb_head];
    rewrite ?E1, ?E2, ?E3, ?E4, ?Hcarry; try done.
  - intros a Ha Hw. destruct (H6 a Ha Hw) as [|[Hb (u & i & Hu & Hi & E)]]; [by left|]. right. split; [done|].
    rewrite Ef in Hu. destruct Hu as [<-|Hu]; [by destruct Hi|]. by exists u, i.
  - intros u i Hu Hi. apply (H7 u i); [rewrite Ef; by right|done].
  - intros Hs. destruct ts as [|u ts]; [done|]. exfalso. rewrite Ef in H9. cbn [removelast] in H9.
    apply Forall_cons_1 in H9 as [Hc _]. cbn in Hc. subst cb. unfold s' in Hs. rewrite (H8 Hs) in Ef. discriminate.
  - rewrite Ef in H9. destruct ts; [apply Forall_nil_2|]. by apply Forall_cons_1 in H9 as [_ H9].
Qed.

(** ** Submission *)

(** What a submission of [n] samples at stream position [T] achieves. *)
Record submitted (s s' : sbuf) (T n : Z) : Prop := {
  sm_new : forall j, 0 <= j < n ->
    sb_ring s' ((T + j) mod CAP) = nth (Z.to_nat j) (sb_scratch s) (0, 0) \/ outstanding s' ((T + j) mod CAP);
  sm_old : forall p, (forall j, 0 <= j < n -> p <> (T + j) mod CAP) -> sb_ring s' p = sb_ring s p;
  sm_flight : forall t k, In t (sb_flight s') -> In k (tx_left t) ->
    exists j, 0 <= j < n /\ tx_dst t + Z.of_nat k = (T + j) mod CAP /\ (tx_src t + k)%nat = Z.to_nat j;
  sm_sem : sb_sem s' = true -> sb_flight s' = [];
  sm_last : Forall (fun t => tx_cb t = false) (removelast (sb_flight s'));
  sm_same : sb_scratch s' = sb_scratch s /\ sb_carry s' = sb_carry s /\ sb_total s' = sb_total s /\ sb_head s' = sb_head s }.

Lemma give_same s : let s' := give_dma_done_once s in
  sb_ring s' = sb_ring s /\ sb_scratch s' = sb_scratch s /\ sb_carry s' = sb_carry s /\ sb_total s' = sb_total s /\
  sb_head s' = sb_head s /\ sb_flight s' = sb_flight s.
Proof. unfold give_dma_done_once. by destruct (sb_sem s). Qed.

(** The processor's copy in place of a transfer. *)
Lemma recover_submitted s s0 T n ring :
  sb_flight s = [] -> sb_flight s0 = [] -> sb_scratch s0 = sb_scratch s -> sb_carry s0 = sb_carry s ->
  sb_total s0 = sb_total s -> sb_head s0 = sb_head s ->
  (forall j, 0 <= j < n -> ring ((T + j) mod CAP) = nth (Z.to_nat j) (sb_scratch s) (0, 0)) ->
  (forall p, (forall j, 0 <= j < n -> p <> (T + j) mod CAP) -> ring p = sb_ring s p) ->
  submitted s (give_dma_done_once (with_ring ring s0)) T n.
Proof.
  intros Hf Hf0 E1 E2 E3 E4 Hnew Hold. destruct (give_same (with_ring ring s0)) as (G1 & G2 & G3 & G4 & G5 & G6).
  constructor; rewrite ?G1, ?G2, ?G3, ?G4, ?G5, ?G6; cbn [with_ring sb_ring sb_flight sb_scratch sb_carry sb_total sb_head];
    rewrite ?Hf0; try done.
  intros j Hj. left. by apply Hnew.
Qed.

Lemma nth_take {A} (l : list A) n j d : (j < n)%nat -> nth j (take n l) d = nth j l d.
Proof. intros H. rewrite !nth_lookup. by rewrite lookup_take_lt. Qed.

Lemma nth_drop {A} (l : list A) n j d : nth j (drop n l) d = nth (n + j) l d.
Proof. by rewrite !nth_lookup, lookup_drop. Qed.

Section submit.
Context (s : sbuf) (T n : Z).
Context (Hs : sb_flight s = []) (Hsem : sb_sem s = false) (Hl : length (sb_scratch s) = Z.to_nat BLOCK).
Context (HT : 0 <= T) (Hn : 0 < n <= BLOCK) (Hh : sb_head s = T mod CAP).

Lemma head_range : 0 <= sb_head s < CAP.
Proof. rewrite Hh. apply Z.mod_pos_bound. rewrite cap_value. lia. Qed.

Lemma offset_of j : 0 <= j < n -> (T + j) mod CAP = if sb_head s + j <? CAP then sb_head s + j else sb_head s + j - CAP.
Proof. intros Hj. rewrite Hh. apply mod_offset; [done|]. rewrite cap_value. unfold BLOCK in Hn. lia. Qed.

(** The channel takes the block in one piece. *)
Lemma submit_one : n <= CAP - sb_head s ->
  submitted s (with_flight (sb_flight s ++ [Transfer (sb_head s) 0 (seq 0 (Z.to_nat n)) true]) s) T n.
Proof.
  intros Hfit. rewrite Hs. cbn [app]. pose proof head_range as Hr.
  constructor; cbn [with_flight sb_ring sb_flight sb_sem sb_scratch sb_carry sb_total sb_head removelast]; try done.
  - intros j Hj. right. exists (Transfer (sb_head s) 0 (seq 0 (Z.to_nat n)) true), (Z.to_nat j).
    split; [by left|]. split; [apply in_seq; lia|]. cbn [tx_dst]. rewrite offset_of by done.
    rewrite (proj2 (Z.ltb_lt _ _)) by lia. lia.
  - intros t k [<-|[]] Hk. cbn [tx_left tx_dst tx_src] in *. apply in_seq in Hk. exists (Z.of_nat k).
    split; [lia|]. rewrite offset_of, (proj2 (Z.ltb_lt _ _)) by lia. split; [done|lia].
  - by rewrite Hsem.
Qed.

(** In two pieces. *)
Lemma submit_two : CAP - sb_head s < n ->
  submitted s (with_flight (sb_flight s ++ [Transfer (sb_head s) 0 (seq 0 (Z.to_nat (CAP - sb_head s))) false;
    Transfer 0 (Z.to_nat (CAP - sb_head s)) (seq 0 (Z.to_nat n - Z.to_nat (CAP - sb_head s))) true]) s) T n.
Proof.
  intros Hwrap. rewrite Hs. cbn [app]. pose proof head_range as Hr.
  set (t1 := Transfer (sb_head s) 0 _ false). set (t2 := Transfer 0 _ _ true).
  constructor; cbn [with_flight sb_ring sb_flight sb_sem sb_scratch sb_carry sb_total sb_head removelast]; try done.
  - intros j Hj. right. rewrite offset_of by done. destruct (Z.ltb_spec (sb_head s + j) CAP).
    + exists t1, (Z.to_nat j). split; [by left|]. split; [apply in_seq; lia|]. cbn [tx_dst t1]. lia.
    + exists t2, (Z.to_nat (sb_head s + j - CAP)). split; [right; by left|]. split; [apply in_seq; lia|]. cbn [tx_dst t2]. lia.
  - intros t k [<-|[<-|[]]] Hk; cbn [tx_left tx_dst tx_src t1 t2] in *; apply in_seq in Hk.
    + exists (Z.of_nat k). split; [lia|]. rewrite offset_of, (proj2 (Z.ltb_lt _ _)) by lia. split; [done|lia].
    + exists (CAP - sb_head s + Z.of_nat k). split; [lia|]. rewrite offset_of, (proj2 (Z.ltb_ge _ _)) by lia. split; lia.
  - by rewrite Hsem.
  - apply Forall_cons_2; [done|apply Forall_nil_2].
Qed.

Lemma write_one : n <= CAP - sb_head s ->
  let ring := ring_write (sb_ring s) (sb_head s) (take (Z.to_nat n) (sb_scratch s)) in
  (forall j, 0 <= j < n -> ring ((T + j) mod CAP) = nth (Z.to_nat j) (sb_scratch s) (0, 0)) /\
  (forall p, (forall j, 0 <= j < n -> p <> (T + j) mod CAP) -> ring p = sb_ring s p).
Proof.
  intros Hfit ring. pose proof head_range as Hr. unfold BLOCK in *.
  assert (Ho : forall j, 0 <= j < n -> (T + j) mod CAP = sb_head s + j)
    by (intros j Hj; rewrite offset_of, (proj2 (Z.ltb_lt _ _)) by lia; done).
  split.
  - intros j Hj. rewrite Ho by done. unfold ring. rewrite <- (Z2Nat.id j) at 1 by lia.
    rewrite ring_write_in by (rewrite length_take; lia). apply nth_take. lia.
  - intros p Hp. unfold ring. apply ring_write_out. rewrite length_take.
    destruct (Z.lt_ge_cases p (sb_head s)) as [|H1]; [by left|]. right.
    destruct (Z.lt_ge_cases p (sb_head s + n)); [|lia]. destruct (Hp (p - sb_head s)); [lia|]. rewrite Ho; lia.
Qed.

Lemma write_two : CAP - sb_head s < n ->
  let n1 := Z.to_nat (CAP - sb_head s) in let block := take (Z.to_nat n) (sb_scratch s) in
  let ring := ring_write (ring_write (sb_ring s) (sb_head s) (take n1 block)) 0 (drop n1 block) in
  (forall j, 0 <= j < n -> ring ((T + j) mod CAP) = nth (Z.to_nat j) (sb_scratch s) (0, 0)) /\
  (forall p, (forall j, 0 <= j < n -> p <> (T + j) mod CAP) -> ring p = sb_ring s p).
Proof.
  intros Hwrap n1 block ring. pose proof head_range as Hr. unfold BLOCK in *. pose proof cap_value as Hcap.
  assert (Hb : length block = Z.to_nat n) by (unfold block; rewrite length_take; lia).
  assert (L1 : length (take n1 block) = n1) by (rewrite length_take; lia).
  assert (L2 : length (drop n1 block) = (Z.to_nat n - n1)%nat) by (rewrite length_drop; lia).
  split.
  - intros j Hj. rewrite offset_of by done. unfold ring. destruct (Z.ltb_spec (sb_head s + j) CAP).
    + rewrite ring_write_out by (rewrite L2; lia). rewrite <- (Z2Nat.id j) at 1 by lia.
      rewrite ring_write_in by (rewrite L1; lia). rewrite nth_take by lia. apply nth_take. lia.
    + replace (sb_head s + j - CAP) with (0 + Z.of_nat (Z.to_nat (sb_head s + j - CAP))) by lia.
      rewrite ring_write_in by (rewrite L2; lia). rewrite nth_drop.
      replace (n1 + Z.to_nat (sb_head s + j - CAP))%nat with (Z.to_nat j) by lia. apply nth_take. lia.
  - intros p Hp. unfold ring. rewrite !ring_write_out; [done| |].
    + rewrite L1. destruct (Z.lt_ge_cases p (sb_head s)) as [|H1]; [by left|]. right.
      destruct (Z.lt_ge_cases p CAP); [|lia]. destruct (Hp (p - sb_head s)); [lia|].
      rewrite offset_of, (proj2 (Z.ltb_lt _ _)) by lia. lia.
    + rewrite L2. destruct (Z.lt_ge_cases p 0) as [|H1]; [by left|]. right.
      destruct (Z.lt_ge_cases p (sb_head s + n - CAP)); [|lia]. destruct (Hp (p + CAP - sb_head s)); [lia|].
      rewrite offset_of, (proj2 (Z.ltb_ge _ _)) by lia. lia.
Qed.

(** Every submission but one that loses its second piece. *)
Lemma push_submit_ok r1 r2 : r1 = false \/ r2 = true -> submitted s (push_submit s n r1 r2) T n.
Proof.
  intros Hr. unfold push_submit. destruct (Z.leb_spec n (CAP - sb_head s)) as [Hfit|Hwrap].
  - destruct r1; [by apply submit_one|]. destruct (write_one Hfit) as [W1 W2]. by apply recover_submitted.
  - destruct r1.
    + destruct Hr as [?| ->]; [done|]. by apply submit_two.
    + destruct (write_two Hwrap) as [W1 W2]. by apply recover_submitted.
Qed.
End submit.

(** ** Pushes *)

Lemma round_down x : 0 <= x -> Z.land x (Z.lnot (ALIGN_COMPLEX - 1)) = x - x mod 32.
Proof.
  intros Hx. rewrite <- Z.ldiff_land. change (ALIGN_COMPLEX - 1) with (Z.ones 5).
  rewrite Z.ldiff_ones_r, Z.shiftl_mul_pow2, Z.shiftr_div_pow2 by lia. change (2 ^ 5) with 32.
  pose proof (Z.div_mod x 32 ltac:(lia)). lia.
Qed.

Lemma push_counts_eq total : 32 <= total < BLOCK + 32 -> push_counts total = (total - total mod 32, total mod 32, 0).
Proof.
  unfold BLOCK. intros Ht. unfold push_counts. rewrite round_down by lia. unfold ALIGN_SCRATCH_MAX_BYTES.
  pose proof (Z.mod_pos_bound total 32 ltac:(lia)). pose proof (Z.div_mod total 32 ltac:(lia)).
  rewrite (proj2 (Z.ltb_ge _ _)) by lia. do 2 f_equal. lia.
Qed.

Lemma length_mapM {A B} (f : A -> option B) l k : mapM f l = Some k -> length k = length l.
Proof. intros H. apply mapM_Some_1 in H. symmetry. by eapply Forall2_length. Qed.

(** A block of at most [BLOCK] samples joins the stream. *)
Lemma submit_streams y S n block tail s1 r1 r2 :
  streams y S -> sy_push y = None -> sb_sem (sy_buf y) = true -> (r1 = false \/ r2 = true) -> 0 < n <= BLOCK ->
  (length tail < 32)%nat -> length (sb_carry (sy_buf y) ++ block) = Z.to_nat n ->
  sb_ring s1 = sb_ring (sy_buf y) -> sb_flight s1 = [] -> sb_sem s1 = false -> sb_head s1 = sb_head (sy_buf y) ->
  sb_total s1 = sb_total (sy_buf y) -> sb_scratch s1 = blit (sb_scratch (sy_buf y)) 0 (sb_carry (sy_buf y) ++ block) ->
  streams (SbSys (push_submit s1 n r1 r2) (Some (n, tail))) (S ++ sb_carry (sy_buf y) ++ block).
Proof.
  intros [H1 H2 H3 H4 H5 H6 H7 H8 H9] Hp Hsem Hr Hn Htail Hx E1 E2 E3 E4 E5 E6.
  set (X := sb_carry (sy_buf y) ++ block) in *. specialize (H8 Hsem).
  unfold pending, carried in *. rewrite Hp in *. cbn [Z.sub] in *. rewrite Z.sub_0_r in H3.
  assert (Hl : length (sb_scratch s1) = Z.to_nat BLOCK) by (rewrite E6, length_blit; lia).
  set (T := Z.of_nat (length S)) in *.
  assert (Hnth : forall j, 0 <= j < n -> nth (Z.to_nat j) (sb_scratch s1) (0, 0) = nth (Z.to_nat (T + j)) (S ++ X) (0, 0)).
  { intros j Hj. rewrite E6. unfold blit. rewrite take_0. cbn [app]. rewrite app_nth1 by lia.
    rewrite app_nth2 by lia. f_equal. lia. }
  destruct (push_submit_ok s1 T n E2 E3 Hl ltac:(lia) Hn ltac:(congruence) r1 r2 Hr) as [M1 M2 M3 M4 M5 (M6 & M7 & M8 & M9)].
  assert (HT' : Z.of_nat (length (S ++ X)) = T + n) by (rewrite length_app; lia).
  constructor; cbn [sy_buf sy_push]; unfold pending, carried; cbn [sy_push sy_buf]; rewrite ?M6, ?M8, ?M9, ?HT'; try done.
  - rewrite E5, H3. lia.
  - lia.
  - rewrite E4, E5. exact H5.
  - intros a Ha Hw. destruct (Z.lt_ge_cases a T) as [Hlt|Hge].
    + left. rewrite M2.
      * rewrite E1, app_nth1 by lia. destruct (H6 a Ha ltac:(lia)) as [|[_ (t & k & Ht & _)]]; [done|].
        rewrite H8 in Ht. destruct Ht.
      * intros j Hj. apply cap_distinct; lia.
    + destruct (M1 (a - T) ltac:(lia)) as [Hv|Ho]; replace (T + (a - T)) with a in * by lia.
      * left. rewrite Hv, Hnth by lia. do 2 f_equal. lia.
      * right. split; [lia|done].
  - intros t k Ht Hk. destruct (M3 t k Ht Hk) as (j & Hj & Ep & Es). exists (T + j).
    clear - Hj Ep Es Hnth HT' Hn. split; [unfold T in *; lia|]. split; [lia|]. split; [done|]. rewrite Es. by apply Hnth.
Qed.

Lemma push_streams y S samples taken r1 r2 y' :
  streams y S -> Forall int16_sample samples -> (length samples <= Z.to_nat BLOCK)%nat ->
  taken = true -> (r1 = false \/ r2 = true) -> sb_step y (Push samples taken r1 r2) = Some y' ->
  exists S', streams y' S' /\ map widen (S' ++ carried y') = map widen (S ++ carried y) ++ samples /\
    (length S <= length S')%nat.
Proof.
  intros H Hs Hlen -> Hr E. cbn [sb_step] in E. destruct (sy_push y) as [|] eqn:Ep; [done|].
  assert (Ecar : carried y = sb_carry (sy_buf y)) by (unfold carried; by rewrite Ep).
  pose proof (st_carry _ _ H) as Hc. rewrite Ecar in Hc.
  destruct (Bool.eqb true (sb_sem (sy_buf y)) || _) eqn:Eg; [|done].
  unfold push_begin in E. rewrite <- Nat2Z.inj_add in E.
  destruct (Z.ltb_spec (Z.of_nat (length (sb_carry (sy_buf y)) + length samples)) ALIGN_COMPLEX) as [Hsmall|Hbig].
  - destruct (mapM narrow samples) as [fresh|] eqn:Em; [|done]. injection E as <-.
    pose proof (length_mapM _ _ _ Em) as Hf. unfold ALIGN_COMPLEX in Hsmall. exists S. split; [|split; [|done]].
    + destruct H as [H1 H2 H3 H4 H5 H6 H7 H8 H9]. unfold pending in *. rewrite Ep in *.
      constructor; try done. unfold carried. cbn [sy_push sy_buf with_carry sb_carry]. rewrite length_app. lia.
    + rewrite Ecar. unfold carried. cbn [sy_push sy_buf with_carry sb_carry].
      by rewrite app_assoc, map_app, (narrow_all_widen samples fresh).
  - rewrite orb_false_r in Eg. apply Bool.eqb_prop in Eg. symmetry in Eg. unfold ALIGN_COMPLEX, BLOCK in *.
    rewrite push_counts_eq in E by (unfold BLOCK; lia). cbv beta iota zeta in E.
    set (c := length (sb_carry (sy_buf y))) in *. set (t := Z.of_nat (c + length samples)) in *.
    pose proof (Z.mod_pos_bound t 32 ltac:(lia)) as Hm. pose proof (Z.div_mod t 32 ltac:(lia)) as Hdm.
    set (n := t - t mod 32) in *. assert (Hn : 32 <= n <= 16384) by lia.
    destruct (mapM narrow (take (Z.to_nat (n - Z.of_nat c)) samples)) as [block|] eqn:Eb; [|done].
    destruct (mapM narrow (drop (Z.to_nat (Z.of_nat (length samples) - t mod 32)) samples)) as [tail|] eqn:Et; [|done].
    injection E as <-. pose proof (length_mapM _ _ _ Eb) as Lb. pose proof (length_mapM _ _ _ Et) as Lt.
    rewrite length_take in Lb. rewrite length_drop in Lt.
    exists (S ++ sb_carry (sy_buf y) ++ block). split; [|split; [|rewrite length_app; lia]].
    + apply (submit_streams y S n block tail); try done; unfold BLOCK; try lia.
      * rewrite length_app. lia.
      * apply (st_sem _ _ H Eg).
    + unfold carried at 1. cbn [sy_push]. rewrite Ecar, !map_app, <- !app_assoc. do 2 f_equal.
      rewrite (narrow_all_widen _ _ (Forall_take _ _ _ Hs) Eb), (narrow_all_widen _ _ (Forall_drop _ _ _ Hs) Et).
      replace (Z.to_nat (Z.of_nat (length samples) - t mod 32)) with (Z.to_nat (n - Z.of_nat c)) by lia. apply take_drop.
Qed.

Lemma publish_streams y S n tail now :
  streams y S -> sy_push y = Some (n, tail) -> Z.of_nat (length S) < 2 ^ 64 ->
  streams (SbSys (push_publish (sy_buf y) n tail now) None) S.
Proof.
  intros [H1 H2 H3 H4 H5 H6 H7 H8 H9] Ep HS. unfold pending, carried in *. rewrite Ep in *.
  assert (Et : u64 (sb_total (sy_buf y) + n) = Z.of_nat (length S)) by (rewrite u64_small; lia).
  assert (Eh : signal_buffer_next_head (sb_head (sy_buf y)) n CAP = u64 (sb_total (sy_buf y) + n) mod CAP).
  { rewrite Et, H5. unfold signal_buffer_next_head. unfold BLOCK in *.
    pose proof (Z.mod_pos_bound (sb_total (sy_buf y)) CAP ltac:(rewrite cap_value; lia)) as Hm. pose proof cap_value.
    rewrite u32_small by lia. rewrite Zplus_mod_idemp_l. f_equal. lia. }
  constructor; try done; unfold pending, carried; cbn [sy_buf sy_push push_publish sb_total sb_head]; [lia|unfold BLOCK; lia].
Qed.

(** ** Runs *)

(** Pushes of at most one scratch area of 16-bit samples, no timeout, and no
    wrapped push whose second piece alone is refused. *)
Definition healthy (ev : sb_event) : Prop :=
  match ev with
  | Push samples taken r1 r2 =>
      Forall int16_sample samples /\ (length samples <= Z.to_nat BLOCK)%nat /\ taken = true /\ (r1 = false \/ r2 = true)
  | _ => True
  end.

Definition pushed (evs : list sb_event) : list complex :=
  concat (map (fun ev => match ev with Push samples _ _ _ => samples | _ => [] end) evs).

Lemma push_submit_total s n r1 r2 : sb_total (push_submit s n r1 r2) = sb_total s.
Proof.
  assert (Hg : forall s, sb_total (give_dma_done_once s) = sb_total s) by (intros s'; apply give_same).
  unfold push_submit. destruct (_ <=? _); destruct r1, r2; by rewrite ?Hg.
Qed.

Lemma step_streams y S ev y' :
  streams y S -> healthy ev -> Z.of_nat (length S) < 2 ^ 64 -> sb_step y ev = Some y' ->
  exists S', streams y' S' /\ map widen (S' ++ carried y') = map widen (S ++ carried y) ++ pushed [ev] /\
    (length S <= length S')%nat /\ sb_total (sy_buf y) <= sb_total (sy_buf y').
Proof.
  intros H Hh HS E. destruct ev as [samples taken r1 r2|now|k|]; cbn [sb_step] in E.
  - destruct Hh as (Hs & Hl & Ht & Hr). destruct (push_streams y S samples taken r1 r2 y' H Hs Hl Ht Hr E) as (S' & H' & Em & HL).
    exists S'. split; [done|]. split; [unfold pushed; cbn; by rewrite app_nil_r|]. split; [done|].
    assert (Ep : sy_push y = None) by (cbn [sb_step] in E; by destruct (sy_push y)).
    pose proof (st_total _ _ H) as Et. pose proof (st_total _ _ H') as Et'. unfold pending in Et at 1. rewrite Ep in Et.
    rewrite Ep in E. destruct (_ || _); [|done]. unfold push_begin in E.
    destruct (_ <? ALIGN_COMPLEX).
    { destruct (mapM narrow samples). { injection E as <-. cbn. lia. } cbv [mbind option_bind] in E. discriminate E. }
    destruct (push_counts _) as [[n c] dr].
    destruct (mapM narrow (take _ _)) as [block|]. 2:{ cbv [mbind option_bind] in E. discriminate E. }
    destruct (mapM narrow (drop _ _)) as [tail|]. 2:{ cbv [mbind option_bind] in E. discriminate E. }
    injection E as <-. cbn [sy_buf]. rewrite push_submit_total. destruct taken; cbn; lia.
  - destruct (sy_push y) as [[n tail]|] eqn:Ep; [|done]. injection E as <-. exists S.
    pose proof (publish_streams y S n tail now H Ep HS) as H'. split; [done|]. split.
    + unfold carried. rewrite Ep. cbn. by rewrite app_nil_r.
    + split; [done|]. rewrite (st_total _ _ H'), (st_total _ _ H). unfold pending at 2. cbn [sy_push].
      pose proof (st_pending _ _ H). lia.
  - destruct (sb_flight (sy_buf y)) as [|t ts] eqn:Ef; [done|]. destruct (existsb _ _) eqn:Ek; [|done]. injection E as <-.
    apply existsb_exists in Ek as (k' & Hk & ->%Nat.eqb_eq). exists S. split; [by apply (move_streams y S t ts k')|].
    split; [unfold pushed; cbn; by rewrite app_nil_r|]. done.
  - destruct (sb_flight (sy_buf y)) as [|[dst src [|] cb] ts] eqn:Ef; [done| |done]. injection E as <-.
    exists S. split; [by apply (complete_streams y S dst src cb ts)|].
    split; [unfold pushed; cbn; rewrite app_nil_r; unfold carried; cbn; by destruct cb|]. split; [done|]. by destruct cb.
Qed.

Lemma pushed_app a b : pushed (a ++ b) = pushed a ++ pushed b.
Proof. unfold pushed. by rewrite map_app, concat_app. Qed.

Lemma run_streams evs : forall y S y',
  streams y S -> Forall healthy evs -> Z.of_nat (length (S ++ carried y)) + Z.of_nat (length (pushed evs)) < 2 ^ 64 ->
  sb_run y evs = Some y' ->
  exists S', streams y' S' /\ map widen (S' ++ carried y') = map widen (S ++ carried y) ++ pushed evs /\
    sb_total (sy_buf y) <= sb_total (sy_buf y').
Proof.
  induction evs as [|ev evs IH]; intros y S y' H Hh Hb E; cbn [sb_run] in E.
  - injection E as <-. exists S. unfold pushed. cbn. rewrite app_nil_r. done.
  - apply Forall_cons_1 in Hh as [Hev Hh]. destruct (sb_step y ev) as [y1|] eqn:Es; [|done]. cbn in E.
    pose proof (length_app S (carried y)) as El. destruct (step_streams y S ev y1 H Hev ltac:(lia) Es) as (S1 & H1 & E1 & HL & Ht).
    change (ev :: evs) with ([ev] ++ evs) in Hb |- *. rewrite pushed_app, (length_app (pushed [ev])) in Hb.
    assert (EL : Z.of_nat (length (S1 ++ carried y1)) = Z.of_nat (length (S ++ carried y)) + Z.of_nat (length (pushed [ev]))).
    { apply (f_equal length) in E1. rewrite !length_app, !length_map, !length_app in E1. rewrite !length_app. lia. }
    destruct (IH y1 S1 y' H1 Hh ltac:(lia) E) as (S' & H' & E' & Ht').
    exists S'. split; [done|]. split; [|lia]. rewrite E', E1, pushed_app, app_assoc. done.
Qed.

(** ** Reading back *)

(** The window is wholly written and not being overwritten: nothing is in
    flight, or the window keeps a block's distance from both ends. *)
Definition settled (y : sb_sys) (start len : Z) : Prop :=
  (sy_push y = None /\ sb_flight (sy_buf y) = []) \/
  (start + len + BLOCK <= sb_total (sy_buf y) /\ sb_total (sy_buf y) + BLOCK <= start + CAP).

Lemma ring_at y S start len i :
  streams y S -> 0 <= start -> 0 < len -> start + len <= sb_total (sy_buf y) -> sb_total (sy_buf y) <= start + CAP ->
  settled y start len -> 0 <= i < len -> sb_ring (sy_buf y) ((start + i) mod CAP) = nth (Z.to_nat (start + i)) S (0, 0).
Proof.
  intros [H1 H2 H3 [H4 H4'] H5 H6 H7 H8 H9] Hs Hl He Hc Hset Hi. unfold BLOCK in *.
  assert (Hw : Z.of_nat (length S) <= start + CAP).
  { destruct Hset as [[Ep _]|[_ Hb]]; [|unfold BLOCK in *; lia]. unfold pending in H3. rewrite Ep in H3. lia. }
  destruct (H6 (start + i) ltac:(lia) ltac:(lia)) as [|[Hb Ho]]; [done|]. exfalso.
  destruct Hset as [[_ Ef]|[Hb' _]].
  - destruct Ho as (t & k & Ht & _). rewrite Ef in Ht. destruct Ht.
  - unfold BLOCK in *. lia.
Qed.

Lemma read_chunk_at s start len :
  0 <= start -> 0 < len <= CAP ->
  signal_buffer_read_chunk s (u32 start) len =
  map (fun i => widen (sb_ring s ((start + Z.of_nat i) mod CAP))) (seq 0 (Z.to_nat len)).
Proof.
  intros Hs Hl. unfold signal_buffer_read_chunk. cbv zeta.
  assert (Em : u32 start mod CAP = start mod CAP).
  { unfold u32. change (2 ^ 32) with (CAP * 512). rewrite Z.rem_mul_r by (rewrite ?cap_value; lia).
    rewrite (Z.mul_comm CAP (_ mod 512)), Z.mod_add by (rewrite cap_value; lia). apply Z.mod_mod. rewrite cap_value. lia. }
  rewrite Em. pose proof (Z.mod_pos_bound start CAP ltac:(rewrite cap_value; lia)) as Hm. pose proof cap_value as Hcap.
  rewrite u32_small by lia. destruct (Z.leb_spec (start mod CAP + len) CAP) as [Hfit|Hwrap].
  - apply map_ext_in. intros i Hi%in_seq. destruct (decide (Z.of_nat i = CAP)) as [|Hne]; [lia|].
    rewrite mod_offset by lia. by rewrite (proj2 (Z.ltb_lt _ _)) by lia.
  - replace (Z.to_nat len) with (Z.to_nat (CAP - start mod CAP) + Z.to_nat (len - (CAP - start mod CAP)))%nat by lia.
    rewrite seq_app, map_app. f_equal.
    + apply map_ext_in. intros i Hi%in_seq. rewrite mod_offset by lia. by rewrite (proj2 (Z.ltb_lt _ _)) by lia.
    + rewrite <- (Nat.add_0_r (0 + Z.to_nat (CAP - start mod CAP))) at 1.
      assert (Esh : forall m k, seq (m + 0) k = map (Nat.add m) (seq 0 k)).
      { intros m k. rewrite Nat.add_0_r. revert m. induction k as [|k IH] using nat_ind; intros m; [done|]. 
        rewrite !seq_S, map_app, IH. cbn. by rewrite ?Nat.add_0_r. }
      rewrite Esh, map_map. apply map_ext_in. intros i Hi%in_seq. rewrite mod_offset by lia.
      rewrite (proj2 (Z.ltb_ge _ _)) by lia. do 2 f_equal. lia.
Qed.

Lemma read_exact evs y start len :
  Forall healthy evs -> Z.of_nat (length (pushed evs)) < 2 ^ 64 -> sb_run sb_start evs = Some y ->
  0 <= start -> 0 < len <= CAP -> start + len <= sb_total (sy_buf y) -> sb_total (sy_buf y) <= start + CAP ->
  settled y start len ->
  signal_buffer_read_chunk (sy_buf y) (u32 start) len = slice (pushed evs) (Z.to_nat start) (Z.to_nat len).
Proof.
  intros Hh Hb E Hs Hl He Hc Hset. destruct (run_streams evs sb_start [] y streams_start Hh) as (S & H & Em & _); [cbn; lia|done|].
  cbn [app] in Em. change (map widen (carried sb_start)) with ([] : list complex) in Em. cbn [app] in Em.
  rewrite read_chunk_at by done. pose proof (st_total _ _ H) as Et. pose proof (st_pending _ _ H) as Hp.
  rewrite <- Em. apply list_eq. intros i. rewrite lookup_slice, list_lookup_fmap'.
  destruct (decide (i < Z.to_nat len)%nat) as [Hi|Hi].
  - rewrite lookup_seq_lt by done. cbn. rewrite (ring_at y S start len (Z.of_nat i)) by (done || lia).
    rewrite map_app, lookup_app_l by (rewrite length_map; lia). rewrite list_lookup_fmap'.
    replace (Z.to_nat (start + Z.of_nat i)) with (Z.to_nat start + i)%nat by lia.
    destruct (lookup_lt_is_Some_2 S (Z.to_nat start + i) ltac:(lia)) as [x Hx]. rewrite Hx. cbn. f_equal. f_equal.
    by apply nth_lookup_total.
  - by rewrite lookup_seq_ge by lia.
Qed.

Lemma burst_valid_iff s start len :
  is_u 64 (sb_total s) -> 0 <= start -> start + len < 2 ^ 64 -> 0 <= len ->
  signal_buffer_burst_valid s start len = true <->
  0 < len < CAP /\ start + len <= sb_total s /\ sb_total s <= start + CAP.
Proof.
  unfold is_u. intros Ht Hs Hb Hl. unfold signal_buffer_burst_valid. cbv zeta.
  destruct (Z.eqb_spec len 0) as [->|Hne]; cbn [orb]; [split; [done|lia]|].
  destruct (Z.leb_spec CAP len); [split; [done|lia]|]. rewrite u64_small by lia.
  destruct (Z.ltb_spec (sb_total s) (start + len)); [split; [done|lia]|]. rewrite u64_small by lia.
  rewrite Z.leb_le. lia.
Qed.

Lemma sb_run_app a b y : sb_run y (a ++ b) = (y' ← sb_run y a; sb_run y' b).
Proof.
  revert y. induction a as [|ev a IH]; intros y; [done|]. cbn [app sb_run]. destruct (sb_step y ev) as [y1|]; [|done]. apply IH.
Qed.

Lemma run_total evs y : Forall healthy evs -> Z.of_nat (length (pushed evs)) < 2 ^ 64 -> sb_run sb_start evs = Some y ->
  0 <= sb_total (sy_buf y) < 2 ^ 64.
Proof.
  intros Hh Hb E. destruct (run_streams evs sb_start [] y streams_start Hh) as (S & H & Em & _); [cbn; lia|done|].
  pose proof (st_total _ _ H). pose proof (st_pending _ _ H). cbn [app] in Em.
  change (map widen (carried sb_start)) with ([] : list complex) in Em. cbn [app] in Em.
  apply (f_equal length) in Em. rewrite length_map, length_app in Em. lia.
Qed.

(** C9: samples come back. Whatever the interleaving of pushes, DMA moves,
    completions and publications, if each push fits the scratch area, gets the
    DMA semaphore in time and has no second piece of a wrapped submission
    refused alone: a window that starts below the published count by more than
    its length plus a block, and is still within the ring less a block at a
    later moment, passes the validity test at both moments, and reading it at
    any moment in between returns exactly the samples pushed at those
    positions. A window that passes the test while nothing is in flight reads
    back exactly as well. *)
Theorem signal_buffer_reads_back evs1 evs2 evs3 y1 y2 y3 start len :
  Forall healthy (evs1 ++ evs2 ++ evs3) -> Z.of_nat (length (pushed (evs1 ++ evs2 ++ evs3))) < 2 ^ 64 ->
  sb_run sb_start evs1 = Some y1 -> sb_run y1 evs2 = Some y2 -> sb_run y2 evs3 = Some y3 ->
  0 <= start -> 0 < len < CAP ->
  (start + len + BLOCK <= sb_total (sy_buf y1) -> sb_total (sy_buf y3) + BLOCK <= start + CAP ->
     signal_buffer_burst_valid (sy_buf y1) start len = true /\ signal_buffer_burst_valid (sy_buf y3) start len = true /\
     signal_buffer_read_chunk (sy_buf y2) (u32 start) len = slice (pushed (evs1 ++ evs2)) (Z.to_nat start) (Z.to_nat len)) /\
  (sy_push y2 = None -> sb_flight (sy_buf y2) = [] -> start + len < 2 ^ 64 ->
     signal_buffer_burst_valid (sy_buf y2) start len = true ->
     signal_buffer_read_chunk (sy_buf y2) (u32 start) len = slice (pushed (evs1 ++ evs2)) (Z.to_nat start) (Z.to_nat len)).
Proof.
  intros Hh Hb E1 E2 E3 Hs Hl.
  apply Forall_app in Hh as [Hh1 Hh23]. apply Forall_app in Hh23 as [Hh2 Hh3].
  rewrite !pushed_app, !length_app in Hb.
  assert (E12 : sb_run sb_start (evs1 ++ evs2) = Some y2) by (by rewrite sb_run_app, E1).
  assert (Hh12 : Forall healthy (evs1 ++ evs2)) by by apply Forall_app.
  assert (Hb12 : Z.of_nat (length (pushed (evs1 ++ evs2))) < 2 ^ 64) by (rewrite pushed_app, length_app; lia).
  assert (E123 : sb_run sb_start ((evs1 ++ evs2) ++ evs3) = Some y3) by (by rewrite sb_run_app, E12).
  pose proof (run_total evs1 y1 Hh1 ltac:(lia) E1) as T1. pose proof (run_total _ y2 Hh12 Hb12 E12) as T2.
  pose proof (run_total ((evs1 ++ evs2) ++ evs3) y3 ltac:(by apply Forall_app) ltac:(rewrite !pushed_app, !length_app; lia) E123) as T3.
  destruct (run_streams evs1 sb_start [] y1 streams_start Hh1) as (S1 & H1 & Em1 & _); [cbn; lia|done|].
  assert (HL1 : Z.of_nat (length (S1 ++ carried y1)) = Z.of_nat (length (pushed evs1))).
  { apply (f_equal length) in Em1. rewrite length_map in Em1. rewrite Em1. done. }
  destruct (run_streams evs2 y1 S1 y2 H1 Hh2) as (S2 & H2 & Em2 & HT12); [lia|done|].
  assert (HL2 : Z.of_nat (length (S2 ++ carried y2)) = Z.of_nat (length (S1 ++ carried y1)) + Z.of_nat (length (pushed evs2))).
  { apply (f_equal length) in Em2. rewrite length_app, !length_map in Em2. lia. }
  destruct (run_streams evs3 y2 S2 y3 H2 Hh3) as (S3 & _ & _ & HT23); [lia|done|].
  split.
  - intros Hlo Hhi. rewrite !burst_valid_iff by (unfold is_u, BLOCK in *; lia).
    split; [unfold BLOCK in *; lia|]. split; [unfold BLOCK in *; lia|].
    apply (read_exact (evs1 ++ evs2) y2); try done; try (unfold BLOCK in *; lia). right. unfold BLOCK in *; lia.
  - intros Ep Ef H64 Hv. apply burst_valid_iff in Hv as (_ & Hv1 & Hv2); [|unfold is_u; lia|lia|lia|lia].
    apply (read_exact (evs1 ++ evs2) y2); try done; try lia. by left.
Qed.

(** ** Runs *)

Definition sample_push (n : nat) (v : Z) : sb_event := Push (replicate n (256 * v, - 256 * v)) true true true.
Definition sample_sb_events : list sb_event :=
  [sample_push 20 1; sample_push 30 2; Publish 5] ++ map Move (seq 0 32) ++ [Complete].

Lemma sample_sb_healthy : Forall healthy sample_sb_events.
Proof.
  apply Forall_app. split; [|apply Forall_app; split].
  - repeat apply Forall_cons_2; try apply Forall_nil_2; try exact I;
      (split; [apply Forall_replicate; unfold int16_sample, int16; cbn; lia|]; split; [rewrite length_replicate; unfold BLOCK; lia|by auto]).
  - apply Forall_map, List.Forall_forall. done.
  - by apply Forall_cons_2; [|apply Forall_nil_2].
Qed.

Definition sample_sb_end : sb_sys := default sb_start (sb_run sb_start sample_sb_events).

Lemma signal_buffer_reads_back_witness :
  signal_buffer_read_chunk (sy_buf sample_sb_end) 18 4 = [(256, -256); (256, -256); (512, -512); (512, -512)].
Proof.
  destruct (signal_buffer_reads_back sample_sb_events [] [] sample_sb_end sample_sb_end sample_sb_end 18 4
    ltac:(rewrite !app_nil_r; exact sample_sb_healthy) ltac:(vm_compute; reflexivity) ltac:(vm_compute; reflexivity)
    eq_refl eq_refl ltac:(lia) ltac:(rewrite cap_value; lia)) as [_ H].
  specialize (H ltac:(vm_compute; reflexivity) ltac:(vm_compute; reflexivity) ltac:(lia) ltac:(vm_compute; reflexivity)).
  change (u32 18) with 18 in H. transitivity (slice (pushed (sample_sb_events ++ [])) 18 4); [exact H|]. vm_compute. reflexivity.
Defined.

(** The test alone is not enough: it passes as soon as the counter is
    published, while the channel has moved nothing. *)
Example signal_buffer_valid_early :
  exists y, sb_run sb_start [sample_push 32 1; Publish 5] = Some y /\
    signal_buffer_burst_valid (sy_buf y) 0 32 = true /\
    signal_buffer_read_chunk (sy_buf y) 0 32 = replicate 32 (0, 0).
Proof. eexists. split; [reflexivity|]. split; vm_compute; reflexivity. Qed.
