(* ===== verification/SeqLock.v ===== *)
(** The sequence lock on the sample counter
    (src/p4-usb-host/main/signal_buffer.c, [read_head_total] and the counter's
    publication in [signal_buffer_push]).

    A 64-bit counter is two 32-bit words on this core.  The writer makes the
    sequence number odd, stores the words in either order and makes it even
    again; the reader reads number, words, number, and starts over unless the
    two numbers are equal and even.  The barriers keep each side's accesses in
    this order; the two sides interleave freely, word by word.  The sequence
    number is a [uint32_t] and wraps: the theorem says how long a reader may
    sleep. *)

From S2P Require Import Prelude.

(** ** State and steps *)

Inductive sl_writer := WIdle | WOpen (v : Z) | WLo (v : Z) | WHi (v : Z) | WBoth.

(** What the reader holds: [k], how often the number had been stepped when it
    was first read; [s1], what it read; the words read so far.  [RDone]: it
    returned [v] after [m] steps. *)
Inductive sl_reader :=
  | RIdle | RSeq (k s1 : Z) | RLo (k s1 lo : Z) | RHi (k s1 hi : Z) | RBoth (k s1 lo hi : Z) | RDone (k m v : Z).

(** The shared words, how often the number has been stepped, and the values
    written since the start, the last one perhaps in progress. *)
Record seqlock := Seqlock {
  sl_seq : Z; sl_lo : Z; sl_hi : Z; sl_w : sl_writer; sl_r : sl_reader; sl_steps : Z; sl_vals : list Z }.

Definition lo32 (v : Z) : Z := v mod 2 ^ 32.
Definition hi32 (v : Z) : Z := v / 2 ^ 32.
Definition word64 (lo hi : Z) : Z := hi * 2 ^ 32 + lo.

Definition sl_start : seqlock := Seqlock 0 0 0 WIdle RIdle 0 [0].

(** [while ((s1 & 1u) || s1 != s2)]. *)
Definition sl_retry (s1 s2 : Z) : bool := negb (Z.land s1 1 =? 0) || negb (s1 =? s2).

Inductive sl_step : seqlock -> seqlock -> Prop :=
  | w_open q l h r n vs v :
      sl_step (Seqlock q l h WIdle r n vs) (Seqlock (u32 (q + 1)) l h (WOpen v) r (n + 1) (vs ++ [v]))
  | w_lo q l h r n vs v : sl_step (Seqlock q l h (WOpen v) r n vs) (Seqlock q (lo32 v) h (WLo v) r n vs)
  | w_hi q l h r n vs v : sl_step (Seqlock q l h (WOpen v) r n vs) (Seqlock q l (hi32 v) (WHi v) r n vs)
  | w_lo_hi q l h r n vs v : sl_step (Seqlock q l h (WLo v) r n vs) (Seqlock q l (hi32 v) WBoth r n vs)
  | w_hi_lo q l h r n vs v : sl_step (Seqlock q l h (WHi v) r n vs) (Seqlock q (lo32 v) h WBoth r n vs)
  | w_close q l h r n vs : sl_step (Seqlock q l h WBoth r n vs) (Seqlock (u32 (q + 1)) l h WIdle r (n + 1) vs)
  | r_first q l h w n vs : sl_step (Seqlock q l h w RIdle n vs) (Seqlock q l h w (RSeq n q) n vs)
  | r_lo q l h w n vs k s1 : sl_step (Seqlock q l h w (RSeq k s1) n vs) (Seqlock q l h w (RLo k s1 l) n vs)
  | r_hi q l h w n vs k s1 : sl_step (Seqlock q l h w (RSeq k s1) n vs) (Seqlock q l h w (RHi k s1 h) n vs)
  | r_lo_hi q l h w n vs k s1 x : sl_step (Seqlock q l h w (RLo k s1 x) n vs) (Seqlock q l h w (RBoth k s1 x h) n vs)
  | r_hi_lo q l h w n vs k s1 x : sl_step (Seqlock q l h w (RHi k s1 x) n vs) (Seqlock q l h w (RBoth k s1 l x) n vs)
  | r_again q l h w n vs k s1 x y : sl_retry s1 q = true ->
      sl_step (Seqlock q l h w (RBoth k s1 x y) n vs) (Seqlock q l h w RIdle n vs)
  | r_return q l h w n vs k s1 x y : sl_retry s1 q = false ->
      sl_step (Seqlock q l h w (RBoth k s1 x y) n vs) (Seqlock q l h w (RDone k n (word64 x y)) n vs)
  | r_call q l h w n vs k m v : sl_step (Seqlock q l h w (RDone k m v) n vs) (Seqlock q l h w RIdle n vs).

Inductive sl_reachable : seqlock -> Prop :=
  | sl_init : sl_reachable sl_start
  | sl_next st st' : sl_reachable st -> sl_step st st' -> sl_reachable st'.

(** The value complete after [k] steps of the number. *)
Definition sl_value (vs : list Z) (k : Z) : Z := nth (Z.to_nat (k / 2)) vs 0.

(** ** The invariant *)

Lemma word64_split v : word64 (lo32 v) (hi32 v) = v.
Proof. unfold word64, lo32, hi32. pose proof (Z.div_mod v (2 ^ 32) ltac:(lia)). lia. Qed.

Lemma sl_value_snoc vs v k : 0 <= k <= 2 * (Z.of_nat (length vs) - 1) -> sl_value (vs ++ [v]) k = sl_value vs k.
Proof. intros Hk. unfold sl_value. rewrite app_nth1; [done|]. pose proof (Z.div_mod k 2 ltac:(lia)). lia. Qed.

Lemma sl_value_last vs v k : k = 2 * Z.of_nat (length vs) -> sl_value (vs ++ [v]) k = v.
Proof.
  intros ->. unfold sl_value. rewrite (Z.mul_comm 2), Z.div_mul by lia. rewrite Nat2Z.id, app_nth2, Nat.sub_diag; [done|lia].
Qed.

(** The words agree with the value being written as far as it is written. *)
Definition sl_written (st : seqlock) : Prop :=
  let n := sl_steps st in
  let vs := sl_vals st in
  let writing v lo hi := exists vs', vs = vs' ++ [v] /\ n = 2 * Z.of_nat (length vs') - 1 /\
    (lo = true -> sl_lo st = lo32 v) /\ (hi = true -> sl_hi st = hi32 v) in
  sl_seq st = u32 n /\ 0 <= n /\
  match sl_w st with
  | WIdle => n = 2 * (Z.of_nat (length vs) - 1) /\ sl_lo st = lo32 (sl_value vs n) /\ sl_hi st = hi32 (sl_value vs n)
  | WOpen v => writing v false false
  | WLo v => writing v true false
  | WHi v => writing v false true
  | WBoth => exists v, writing v true true
  end.

Lemma sl_written_start : sl_written sl_start.
Proof. repeat split. cbn. lia. Qed.

Lemma sl_written_step st st' : sl_step st st' -> sl_written st -> sl_written st'.
Proof.
  intros Hs (Hq & Hn & Hw). inversion Hs; subst; cbn [sl_seq sl_steps sl_vals sl_w sl_lo sl_hi] in *;
    try (split; [done|]; split; [done|]; exact Hw);
    unfold sl_written; cbn [sl_seq sl_steps sl_vals sl_w sl_lo sl_hi].
  - split; [by rewrite Hq, u32_add_u32|]. split; [lia|]. exists vs. repeat split; [lia|done|done].
  - destruct Hw as (vs' & -> & E & _). repeat split; [done|done|]. by exists vs'.
  - destruct Hw as (vs' & -> & E & _). repeat split; [done|done|]. by exists vs'.
  - destruct Hw as (vs' & -> & E & Hlo & _). repeat split; [done|done|]. by exists v, vs'.
  - destruct Hw as (vs' & -> & E & _ & Hhi). repeat split; [done|done|]. by exists v, vs'.
  - destruct Hw as (v & vs' & -> & E & Hlo & Hhi). split; [by rewrite Hq, u32_add_u32|]. split; [lia|].
    rewrite length_app. cbn [length]. split; [lia|]. rewrite sl_value_last by lia. by rewrite Hlo, Hhi.
Qed.

(** An even number of steps: nothing is being written. *)
Lemma sl_even_idle st : sl_written st -> Z.even (sl_steps st) = true ->
  sl_lo st = lo32 (sl_value (sl_vals st) (sl_steps st)) /\ sl_hi st = hi32 (sl_value (sl_vals st) (sl_steps st)).
Proof.
  intros (_ & _ & Hw) He. apply Z.even_spec in He as [c He].
  destruct (sl_w st); [by destruct Hw|destruct Hw as (vs' & _ & E & _); lia..|destruct Hw as (v & vs' & _ & E & _); lia].
Qed.

(** What a reader holds is good while the number stands still. *)
Definition sl_seen (st : seqlock) : Prop :=
  let still k := Z.even k = true /\ sl_steps st = k in
  let val k := sl_value (sl_vals st) k in
  match sl_r st with
  | RIdle => True
  | RSeq k s1 => 0 <= k <= sl_steps st /\ s1 = u32 k
  | RLo k s1 l => 0 <= k <= sl_steps st /\ s1 = u32 k /\ (still k -> l = lo32 (val k))
  | RHi k s1 h => 0 <= k <= sl_steps st /\ s1 = u32 k /\ (still k -> h = hi32 (val k))
  | RBoth k s1 l h => 0 <= k <= sl_steps st /\ s1 = u32 k /\ (still k -> l = lo32 (val k) /\ h = hi32 (val k))
  | RDone k m v => 0 <= k <= m /\ m <= sl_steps st /\ (m < k + 2 ^ 32 -> m = k /\ Z.even k = true /\ v = val k)
  end.

(** A step of the writer leaves it so. *)
Lemma sl_seen_writer q l h w n vs q' l' h' w' n' vs' r :
  n <= n' -> (Z.even n = true -> n < n') -> (forall k, 0 <= k <= n -> Z.even k = true -> sl_value vs' k = sl_value vs k) ->
  sl_seen (Seqlock q l h w r n vs) -> sl_seen (Seqlock q' l' h' w' r n' vs').
Proof.
  intros Hn He Hv. unfold sl_seen. cbn [sl_r sl_steps sl_vals]. destruct r as [|k s1|k s1 x|k s1 x|k s1 x y|k m v].
  - done.
  - intros [H1 H2]. split; [lia|done].
  - intros (H1 & H2 & H3). repeat split; [lia|lia|done|]. intros [E1 E2]. exfalso. assert (Hkn : n = k) by lia. rewrite <- Hkn in E1. specialize (He E1). lia.
  - intros (H1 & H2 & H3). repeat split; [lia|lia|done|]. intros [E1 E2]. exfalso. assert (Hkn : n = k) by lia. rewrite <- Hkn in E1. specialize (He E1). lia.
  - intros (H1 & H2 & H3). split; [lia|]. split; [done|]. intros [E1 E2]. exfalso. assert (Hkn : n = k) by lia. rewrite <- Hkn in E1. specialize (He E1). lia.
  - intros (H1 & H2 & H3). split; [done|]. split; [lia|]. intros Hm. destruct (H3 Hm) as (-> & E & ->).
    repeat split; [done|]. symmetry. apply Hv; [lia|done].
Qed.

Lemma u32_even k : Z.even (u32 k) = Z.even k.
Proof. unfold u32. rewrite !Zeven_mod. f_equal. apply Z.mod_mod_divide. by exists (2 ^ 31). Qed.

Lemma sl_retry_false s1 s2 : sl_retry s1 s2 = false -> Z.even s1 = true /\ s1 = s2.
Proof.
  unfold sl_retry. intros H. apply orb_false_iff in H as [H1 H2]. apply negb_false_iff, Z.eqb_eq in H1, H2.
  split; [|done]. change 1 with (Z.ones 1) in H1. rewrite Z.land_ones in H1 by lia. rewrite Zeven_mod. change (2 ^ 1) with 2 in H1. by rewrite H1.
Qed.

Lemma u32_near k n : k <= n < k + 2 ^ 32 -> u32 k = u32 n -> n = k.
Proof.
  unfold u32. intros H E. pose proof (Z.div_mod k (2 ^ 32) ltac:(lia)). pose proof (Z.div_mod n (2 ^ 32) ltac:(lia)). nia.
Qed.

(** The test of the loop: the words go together. *)
Lemma sl_seen_return q l h w n vs k s1 x y :
  sl_written (Seqlock q l h w (RBoth k s1 x y) n vs) -> sl_seen (Seqlock q l h w (RBoth k s1 x y) n vs) ->
  sl_retry s1 q = false -> sl_seen (Seqlock q l h w (RDone k n (word64 x y)) n vs).
Proof.
  intros (Hq & _) (H1 & -> & H3) Hr. cbn in Hq, H1, H3. apply sl_retry_false in Hr as [He E]. rewrite u32_even in He.
  unfold sl_seen. cbn [sl_r sl_steps sl_vals]. split; [done|]. split; [lia|]. intros Hm.
  assert (n = k) as -> by (apply u32_near; [lia|by rewrite E]). split; [done|]. split; [done|].
  destruct H3 as [-> ->]; [done|]. apply word64_split.
Qed.

Lemma sl_seen_step st st' : sl_step st st' -> sl_written st -> sl_seen st -> sl_seen st'.
Proof.
  intros Hs Hw Hr. pose proof (sl_even_idle _ Hw) as Hidle. pose proof Hw as (Hq & Hn & Hp).
  inversion Hs; subst; cbn [sl_seq sl_steps sl_vals sl_w sl_lo sl_hi] in *.
  2-5: destruct Hp as (vs' & _ & E & _); revert Hr; apply sl_seen_writer; [lia|intros [c Hc]%Z.even_spec; lia|done].
  - destruct Hp as (E & _). revert Hr. apply sl_seen_writer; [lia|lia|]. intros k Hk _. apply sl_value_snoc. lia.
  - revert Hr. by apply sl_seen_writer; [lia|lia|].
  - split; [cbn; lia|done].
  - destruct Hr as [H1 H2]. split; [done|]. split; [done|]. cbn. intros [E1 ->]. by apply Hidle.
  - destruct Hr as [H1 H2]. split; [done|]. split; [done|]. cbn. intros [E1 ->]. by apply Hidle.
  - destruct Hr as (H1 & H2 & H3). split; [done|]. split; [done|]. cbn. intros [E1 ->]. split; [by apply H3|by apply Hidle].
  - destruct Hr as (H1 & H2 & H3). split; [done|]. split; [done|]. cbn. intros [E1 ->]. split; [by apply Hidle|by apply H3].
  - done.
  - by apply (sl_seen_return _ _ _ _ _ _ _ s1).
  - done.
Qed.

Lemma sl_invariant st : sl_reachable st -> sl_written st /\ sl_seen st.
Proof.
  induction 1 as [|st st' _ [IH1 IH2] Hs]; [by split; [apply sl_written_start|]|].
  split; [by apply (sl_written_step st)|by apply (sl_seen_step st)].
Qed.

(** ** The theorem *)

(** C28: a reader that saw the sequence number stepped fewer than 2^32 times
    between its two reads of it returns a value the writer completed - never
    one made of words of two values - and that value was the current one the
    whole time: no write had begun when the reader returned. *)
Theorem read_head_total_atomic st k m v :
  sl_reachable st -> sl_r st = RDone k m v -> m < k + 2 ^ 32 ->
  m = k /\ Z.even k = true /\ v = sl_value (sl_vals st) k /\ In v (sl_vals st).
Proof.
  intros Hst Hr Hm. destruct (sl_invariant _ Hst) as [Hw Hs]. unfold sl_seen in Hs. rewrite Hr in Hs.
  destruct Hs as (H1 & H2 & H3). destruct (H3 Hm) as (-> & He & ->). repeat split; [done|].
  apply nth_In. destruct Hw as (_ & _ & Hw). pose proof (Z.div_mod k 2 ltac:(lia)).
  destruct (sl_w st); [lia|destruct Hw as (vs' & -> & E & _); rewrite length_app; cbn [length]; lia..|].
  destruct Hw as (u & vs' & -> & E & _). rewrite length_app. cbn [length]. lia.
Qed.

(** A reader starts while the counter goes from 2^32 - 1 to 2^32: it reads the
    old low word and a new high word, is sent back, and then reads the value
    whole. *)
Lemma read_head_total_atomic_witness :
  exists st, sl_r st = RDone 4 4 (2 ^ 32) /\ sl_reachable st /\ In (2 ^ 32) (sl_vals st).
Proof.
  assert (H : sl_reachable (Seqlock 4 0 1 WIdle (RDone 4 4 (2 ^ 32)) 4 [0; 2 ^ 32 - 1; 2 ^ 32])).
  { pose (run := fun st st' => sl_next st st'). pose proof sl_init as R.
    eapply run in R; [|apply (w_open _ _ _ _ _ _ (2 ^ 32 - 1))]. eapply run in R; [|apply w_lo].
    eapply run in R; [|apply w_lo_hi]. eapply run in R; [|apply w_close].
    eapply run in R; [|apply (w_open _ _ _ _ _ _ (2 ^ 32))]. eapply run in R; [|apply r_first].
    eapply run in R; [|apply r_lo]. eapply run in R; [|apply w_hi]. eapply run in R; [|apply r_lo_hi].
    eapply run in R; [|apply w_hi_lo]. eapply run in R; [|apply w_close].
    eapply run in R; [|apply r_again; reflexivity]. eapply run in R; [|apply r_first].
    eapply run in R; [|apply r_hi]. eapply run in R; [|apply r_hi_lo].
    eapply run in R; [|apply r_return; reflexivity]. exact R. }
  exists (Seqlock 4 0 1 WIdle (RDone 4 4 (2 ^ 32)) 4 [0; 2 ^ 32 - 1; 2 ^ 32]). split; [reflexivity|]. split; [exact H|].
  destruct (read_head_total_atomic _ 4 4 (2 ^ 32) H eq_refl ltac:(lia)) as (_ & _ & _ & Hin). exact Hin.
Defined.
