(* ===== verification/HotBins.v ===== *)
(** The table of hot bins
    (src/p4-usb-host/main/hot_bin_table.c): the detection bins of the chains
    now open, each with a deadline.

    The decoder task publishes and clears; the tagger and the worker ask
    whether a bin is near a live entry.  An entry is two 32-bit atomics, so a
    query is modelled twice: in one piece, and load by load beside the stores
    of the writer. *)

From S2P Require Import Prelude.

Definition HOT_BIN_ENTRIES : nat := 4.
Definition HOT_BIN_DEADBAND : Z := 4.
Definition UINT32_MAX : Z := 2 ^ 32 - 1.

Record hot_bin_entry := HotEntry { he_bin : Z; he_expiry : Z }.
Record hot_bin_table := HotTable { hb_e : list hot_bin_entry; hb_enabled : bool; hb_published : Z; hb_cleared : Z }.

Definition hot_entry_zero : hot_bin_entry := HotEntry 0 0.
Definition hb_get (t : hot_bin_table) (i : nat) : hot_bin_entry := nth i (hb_e t) hot_entry_zero.

(** [(uint32_t)abs((int)a - (int)b) <= HOT_BIN_DEADBAND]; bins are below 2^16
    at every call, so the difference of the two [int]s does not overflow. *)
Definition within (a b : Z) : bool := u32 (Z.abs (sN 32 a - sN 32 b)) <=? HOT_BIN_DEADBAND.

Definition hot_bin_table_init : hot_bin_table := HotTable (replicate HOT_BIN_ENTRIES hot_entry_zero) true 0 0.

Definition hb_live (now_ms : Z) (e : hot_bin_entry) : bool := negb (he_expiry e =? 0) && (now_ms <? he_expiry e).

Definition arm (t : hot_bin_table) (i : nat) (bin deadline : Z) : hot_bin_table :=
  HotTable (<[i := HotEntry bin deadline]> (hb_e t)) (hb_enabled t) (hb_published t) (hb_cleared t).
Definition hb_count (t : hot_bin_table) (p c : Z) : hot_bin_table :=
  HotTable (hb_e t) (hb_enabled t) (u32 (hb_published t + p)) (u32 (hb_cleared t + c)).

(** The scan from entry [i]: the entry to refresh, or where else to put it. *)
Fixpoint publish_slot (es : list hot_bin_entry) (i : nat) (bin now_ms : Z) (free_i : option nat) (soon_i : nat) (soon_exp : Z) : nat :=
  match es with
  | [] => match free_i with Some f => f | None => soon_i end
  | e :: es =>
      let live := hb_live now_ms e in
      if live && within (he_bin e) bin then i else
      let free_i := match free_i with None => if live then None else Some i | f => f end in
      let '(soon_exp, soon_i) := if he_expiry e <? soon_exp then (he_expiry e, i) else (soon_exp, soon_i) in
      publish_slot es (S i) bin now_ms free_i soon_i soon_exp
  end.

Definition hot_bin_table_publish (t : hot_bin_table) (bin now_ms ttl_ms : Z) : hot_bin_table :=
  let deadline := u32 (now_ms + ttl_ms) in
  hb_count (arm t (publish_slot (hb_e t) 0 bin now_ms None 0 UINT32_MAX) bin deadline) 1 0.

Fixpoint clear_slot (es : list hot_bin_entry) (i : nat) (bin now_ms : Z) : option nat :=
  match es with
  | [] => None
  | e :: es => if hb_live now_ms e && within (he_bin e) bin then Some i else clear_slot es (S i) bin now_ms
  end.

Definition hot_bin_table_clear (t : hot_bin_table) (bin now_ms : Z) : hot_bin_table :=
  match clear_slot (hb_e t) 0 bin now_ms with
  | Some i => hb_count (arm t i (he_bin (hb_get t i)) 0) 0 1
  | None => t
  end.

Definition hot_bin_table_clear_all (t : hot_bin_table) : hot_bin_table :=
  HotTable (map (fun e => HotEntry (he_bin e) 0) (hb_e t)) (hb_enabled t) (hb_published t) (hb_cleared t).

Definition hot_bin_table_match (t : hot_bin_table) (bin now_ms : Z) : bool :=
  hb_enabled t && existsb (fun e => hb_live now_ms e && within (he_bin e) bin) (hb_e t).

Definition hot_bin_table_set_enabled (t : hot_bin_table) (on : bool) : hot_bin_table :=
  HotTable (hb_e t) on (hb_published t) (hb_cleared t).

(** ** What a table answers *)

Definition hot_ok (t : hot_bin_table) : Prop := length (hb_e t) = HOT_BIN_ENTRIES.

(** How many entries are live. *)
Definition live_count (t : hot_bin_table) (now_ms : Z) : nat := length (List.filter (hb_live now_ms) (hb_e t)).

Lemma publish_slot_spec es i bin now free soon_i soon :
  (forall f, free = Some f -> (f < i)%nat) -> (soon_i <= i)%nat -> es <> [] \/ (soon_i < i)%nat ->
  let j := publish_slot es i bin now free soon_i soon in
  (j < i + length es)%nat /\
  ((exists k e, j = (i + k)%nat /\ es !! k = Some e /\ hb_live now e = true /\ within (he_bin e) bin = true) \/
   free = Some j \/
   (free = None /\ exists k e, j = (i + k)%nat /\ es !! k = Some e /\ hb_live now e = false) \/
   (free = None /\ forall e, In e es -> hb_live now e = true /\ within (he_bin e) bin = false)).
Proof.
  revert i free soon_i soon. induction es as [|e es IH]; intros i free soon_i soon Hf Hs Hn.
  - cbn [publish_slot length]. destruct Hn as [Hn|Hn]; [done|]. destruct free as [f|].
    + split; [specialize (Hf f eq_refl); lia|auto].
    + split; [lia|]. right. right. right. split; [done|]. by intros e [].
  - cbn [publish_slot]. destruct (hb_live now e && within (he_bin e) bin) eqn:E.
    + apply andb_prop in E as [E1 E2]. split; [cbn [length]; lia|]. left. exists 0%nat, e. by rewrite Nat.add_0_r.
    + set (free' := match free with None => _ | f => f end).
      set (pr := if he_expiry e <? soon then _ else _).
      assert (Hpr : (pr.2 <= i)%nat) by (unfold pr; destruct (he_expiry e <? soon); cbn; lia). destruct pr as [soon' soon_i']. cbn in Hpr.
      destruct (IH (S i) free' soon_i' soon') as [Hlt Hc]; [|lia|right; lia|].
      { intros f Ef. unfold free' in Ef. destruct free as [f'|]; [injection Ef as <-; specialize (Hf f' eq_refl); lia|].
        destruct (hb_live now e); [done|]. injection Ef as <-. lia. }
      cbn [length]. split; [lia|]. set (j := publish_slot _ _ _ _ _ _ _) in *.
      destruct Hc as [(k & e' & -> & Hk & H1 & H2)|[Hc|[(Hc & k & e' & Ej & Hk & H1)|[Hc Hall]]]].
      * left. exists (S k), e'. rewrite Nat.add_succ_r. done.
      * unfold free' in Hc. destruct free as [f|]; [auto|]. destruct (hb_live now e) eqn:El; [done|]. injection Hc as Ej.
        right. right. left. split; [done|]. exists 0%nat, e. by rewrite Nat.add_0_r.
      * unfold free' in Hc. destruct free as [f|]; [done|]. right. right. left. split; [done|]. exists (S k), e'. rewrite Nat.add_succ_r. done.
      * unfold free' in Hc. destruct free as [f|]; [done|]. destruct (hb_live now e) eqn:El; [|done].
        right. right. right. split; [done|]. intros e' [<-|He']; [done|by apply Hall].
Qed.

(** With every entry live and none near, the scan finds the soonest to
    expire. *)
Lemma publish_slot_soonest es i bin now soon_i soon :
  (forall e, In e es -> hb_live now e = true /\ within (he_bin e) bin = false) ->
  let j := publish_slot es i bin now None soon_i soon in
  (j = soon_i /\ forall e, In e es -> soon <= he_expiry e) \/
  (exists k e, j = (i + k)%nat /\ es !! k = Some e /\ he_expiry e < soon /\ forall e', In e' es -> he_expiry e <= he_expiry e').
Proof.
  revert i soon_i soon. induction es as [|e es IH]; intros i soon_i soon He; [left; split; [done|by intros e []]|].
  cbn [publish_slot]. destruct (He e (or_introl eq_refl)) as [-> ->]. cbn [andb].
  assert (He' : forall e', In e' es -> hb_live now e' = true /\ within (he_bin e') bin = false) by (intros e' H; apply He; by right).
  destruct (Z.ltb_spec (he_expiry e) soon) as [Hlt|Hge].
  - right. destruct (IH (S i) i (he_expiry e) He') as [[-> Hm]|(k & e' & -> & Hk & Hl & Hm)].
    + exists 0%nat, e. rewrite Nat.add_0_r. split_and!; [done|done|done|]. intros e' [<-|H]; [lia|by apply Hm].
    + exists (S k), e'. rewrite Nat.add_succ_r. split_and!; [done|done|lia|]. intros e'' [<-|H]; [lia|by apply Hm].
  - destruct (IH (S i) soon_i soon He') as [[-> Hm]|(k & e' & -> & Hk & Hl & Hm)]; [left|right].
    + split; [done|]. intros e' [<-|H]; [lia|by apply Hm].
    + exists (S k), e'. rewrite Nat.add_succ_r. split_and!; [done|done|done|]. intros e'' [<-|H]; [lia|by apply Hm].
Qed.

(** Which entry a publication takes, and from whom. *)
Definition slot_taken (t : hot_bin_table) (bin now : Z) (i : nat) : Prop :=
  let e := hb_get t i in
  (hb_live now e = true /\ within (he_bin e) bin = true) \/ hb_live now e = false \/
  ((forall e', In e' (hb_e t) -> hb_live now e' = true /\ within (he_bin e') bin = false) /\
   forall e', In e' (hb_e t) -> he_expiry e <= he_expiry e').

Lemma publish_slot_taken t bin now :
  hot_ok t -> Forall (fun e => is_u 32 (he_expiry e)) (hb_e t) ->
  let i := publish_slot (hb_e t) 0 bin now None 0 UINT32_MAX in (i < HOT_BIN_ENTRIES)%nat /\ slot_taken t bin now i.
Proof.
  intros Hok Hu i. assert (Hne : hb_e t <> []) by (unfold hot_ok in Hok; by destruct (hb_e t)).
  destruct (publish_slot_spec (hb_e t) 0 bin now None 0 UINT32_MAX) as [Hlt Hc]; [done|lia|by left|]. fold i in Hlt, Hc.
  rewrite Hok in Hlt. split; [exact Hlt|]. unfold slot_taken.
  assert (Hget : forall k e, hb_e t !! k = Some e -> hb_get t k = e) by (intros k e Hk; apply nth_lookup_total, Hk).
  destruct Hc as [(k & e & Ei & Hk & H1 & H2)|[Hc|[(_ & k & e & Ei & Hk & H1)|[_ Hall]]]]; cbn [Nat.add] in *; try done.
  - rewrite Ei, (Hget k e Hk). by left.
  - rewrite Ei, (Hget k e Hk). right. by left.
  - right. right. split; [exact Hall|].
    destruct (publish_slot_soonest (hb_e t) 0 bin now 0 UINT32_MAX Hall) as [[Ej Hm]|(k & e & Ej & Hk & _ & Hm)]; fold i in Ej; cbn [Nat.add] in Ej.
    + rewrite Ej. intros e' He'. specialize (Hm e' He'). rewrite List.Forall_forall in Hu.
      assert (H0 : In (hb_get t 0) (hb_e t)) by (apply nth_In; rewrite Hok; unfold HOT_BIN_ENTRIES; lia).
      specialize (Hu _ H0). unfold is_u, UINT32_MAX in *. lia.
    + rewrite Ej, (Hget k e Hk). exact Hm.
Qed.

Lemma within_near a b : is_u 16 a -> is_u 16 b -> Z.abs (a - b) <= 4 -> within a b = true.
Proof.
  unfold is_u, within, sN, u32, HOT_BIN_DEADBAND. intros Ha Hb H. change (2 ^ 16) with 65536 in *. change (2 ^ (32 - 1)) with 2147483648.
  change (2 ^ 32) with 4294967296. rewrite (Z.mod_small (a + _)), (Z.mod_small (b + _)) by lia.
  rewrite Z.mod_small by lia. apply Z.leb_le. lia.
Qed.

(** Publishing a bin takes one entry: one already live and near it, else
    one that is not live, else - all four live and none near - one that expires
    first; the others stay as they are.  From then until the deadline every
    query within four bins of it answers yes while the table is enabled. *)
Theorem hot_publish_spec t bin now ttl :
  hot_ok t -> Forall (fun e => is_u 32 (he_expiry e)) (hb_e t) -> is_u 16 bin -> 0 <= now -> 0 < ttl -> now + ttl < 2 ^ 32 ->
  let t' := hot_bin_table_publish t bin now ttl in
  hot_ok t' /\
  (exists i, (i < HOT_BIN_ENTRIES)%nat /\ slot_taken t bin now i /\ hb_e t' = <[i := HotEntry bin (now + ttl)]> (hb_e t)) /\
  (forall b at_ms, hb_enabled t = true -> is_u 16 b -> Z.abs (bin - b) <= 4 -> at_ms < now + ttl -> hot_bin_table_match t' b at_ms = true).
Proof.
  intros Hok Hu Hb Hn Ht Hs t'. destruct (publish_slot_taken t bin now Hok Hu) as [Hi Hst].
  set (i := publish_slot (hb_e t) 0 bin now None 0 UINT32_MAX) in *.
  assert (He : hb_e t' = <[i := HotEntry bin (now + ttl)]> (hb_e t)).
  { unfold t', hot_bin_table_publish. fold i. cbn [hb_count arm hb_e]. by rewrite u32_small by lia. }
  split; [unfold hot_ok; by rewrite He, length_insert|]. split; [by exists i|].
  intros b at_ms Hen Hub Hd Ha. unfold hot_bin_table_match. change (hb_enabled t') with (hb_enabled t). rewrite Hen, He. cbn [andb].
  apply existsb_exists. exists (HotEntry bin (now + ttl)). split.
  - apply list_elem_of_In, list_elem_of_lookup. exists i. apply list_lookup_insert_eq. by rewrite Hok.
  - unfold hb_live. cbn [he_expiry he_bin]. rewrite (proj2 (Z.eqb_neq _ _)), (proj2 (Z.ltb_lt _ _)) by lia. by apply within_near.
Qed.

Definition sample_hot : hot_bin_table :=
  HotTable [HotEntry 100 900; HotEntry 200 1500; HotEntry 300 0; HotEntry 400 1200] true 3 0.

Lemma hot_publish_spec_witness :
  hb_e (hot_bin_table_publish sample_hot 500 1000 700) = [HotEntry 500 1700; HotEntry 200 1500; HotEntry 300 0; HotEntry 400 1200] /\
  hot_bin_table_match (hot_bin_table_publish sample_hot 500 1000 700) 497 1699 = true.
Proof.
  destruct (hot_publish_spec sample_hot 500 1000 700 eq_refl
    ltac:(repeat (apply Forall_cons_2; [unfold is_u; cbn; lia|]); apply Forall_nil_2)
    ltac:(unfold is_u; lia) ltac:(lia) ltac:(lia) ltac:(lia)) as (_ & _ & H).
  split; [vm_compute; reflexivity|]. apply H; [reflexivity|unfold is_u; lia|lia|lia].
Defined.

(** Clearing everything silences the table. *)
Lemma clear_all_silent t bin now : hot_bin_table_match (hot_bin_table_clear_all t) bin now = false.
Proof.
  unfold hot_bin_table_match, hot_bin_table_clear_all. cbn [hb_enabled hb_e]. apply andb_false_iff. right.
  induction (hb_e t) as [|e es IH]; [done|]. cbn [map existsb]. by rewrite IH.
Qed.

(** ** A query beside a publication

    [arm] is three stores; a query loads the deadline, then the bin. *)

Definition arm_store (bin deadline : Z) (k : nat) (e : hot_bin_entry) : hot_bin_entry :=
  match k with
  | 0%nat => HotEntry (he_bin e) 0
  | 1%nat => HotEntry bin (he_expiry e)
  | _ => HotEntry (he_bin e) deadline
  end.
Definition after_stores (n : nat) (bin deadline : Z) (e : hot_bin_entry) : hot_bin_entry := forN n (arm_store bin deadline) e.

(** What a query sees that loads the deadline after [k1] stores and the bin
    after [k2]. *)
Definition query_view (e : hot_bin_entry) (bin deadline : Z) (k1 k2 : nat) : hot_bin_entry :=
  HotEntry (he_bin (after_stores k2 bin deadline e)) (he_expiry (after_stores k1 bin deadline e)).

(** The old entry, the new one, a closed one - or the new bin under the old
    deadline. *)
Lemma query_views e bin deadline k1 k2 : (k1 <= k2 <= 3)%nat ->
  let v := query_view e bin deadline k1 k2 in
  he_expiry v = 0 \/ v = e \/ v = HotEntry bin deadline \/ v = HotEntry bin (he_expiry e).
Proof.
  intros H. destruct e as [b x]. unfold query_view, after_stores.
  destruct k1 as [|[|[|[|k1]]]]; [..|lia]; destruct k2 as [|[|[|[|k2]]]]; try lia; cbn; auto.
Qed.

(** The last is possible: a live deadline paired with a bin it was never
    published for. *)
Example foreign_bin_under_live_deadline :
  query_view (HotEntry 100 5000) 900 9000 0 3 = HotEntry 900 5000 /\
  hb_live 4000 (query_view (HotEntry 100 5000) 900 9000 0 3) = true.
Proof. by split. Qed.
