(* ===== verification/WorkerQueue.v ===== *)
(** The worker's priority queue
    (src/p4-usb-host/main/worker_core1.c: [worker_core1_push_burst],
    [pq_insert_locked], [pq_extract_max_locked], the head of [worker_task]'s
    loop).

    A bounded array holds the bursts detected and not yet decoded; the tagger
    inserts under a lock and gives a counting semaphore when a slot became
    occupied, the worker takes the semaphore and removes the burst of highest
    priority under the lock.  Priorities are single-precision floats, computed
    as the C code computes them.  The table of hot bins may change while the
    lock is held, so each look at it is an input: [look i] for the priority of
    slot [i], [again i] for a counter.  The histograms are left out. *)

From Stdlib Require Import SpecFloat.
From S2P Require Import Prelude SignalBuffer.

(** ** Bursts and priorities *)

Definition BURST_PQ_CAP : nat := 64.
Definition BURST_NARROW_MAX_BINS : Z := 48.
Definition WB_PRE_PAD_SAMPLES : Z := 288.

(** Floats are binary32. *)
Definition float : Type := spec_float.
Definition float_of (z : Z) : float := binary_normalize 24 128 z 0 false.
Definition fadd : float -> float -> float := SFadd 24 128.
Definition fsub : float -> float -> float := SFsub 24 128.

Definition HOT_BOOST : float := float_of 100.
Definition WIDE_PENALTY : float := float_of 1000.

Record detected_burst := Burst {
  start_sample_idx : Z; length_samples : Z; rel_freq_hz : float; peak_snr_db : float;
  magnitude_db : float; noise_db : float; peak_bin : Z }.

Definition BURST_PEAK_BIN (b : detected_burst) : Z := Z.land (peak_bin b) 0xFFFF.
Definition BURST_WIDTH_BINS (b : detected_burst) : Z := Z.land (Z.shiftr (peak_bin b) 16) 0xFFFF.

(** [hot]: the answer of [hot_bin_table_match] for the burst's bin. *)
Definition burst_priority_at (b : detected_burst) (hot : bool) : float :=
  let p := peak_snr_db b in
  let p := if BURST_NARROW_MAX_BINS <? BURST_WIDTH_BINS b then fsub p WIDE_PENALTY else p in
  if hot then fadd p HOT_BOOST else p.

(** ** The queue *)

(** The occupied part of [s_pq], and the counters. *)
Record burst_pq := BurstPq {
  pq : list detected_burst; pq_queued : Z; pq_dropped : Z; pq_evicted : Z; pq_skipped : Z; pq_high_water : Z;
  hot_boost_pops : Z; hot_boost_inserts : Z; hot_cont_stale : Z; hot_cont_pri : Z }.

Definition burst_pq_init : burst_pq := BurstPq [] 0 0 0 0 0 0 0 0 0.

Definition b2c (b : bool) : Z := if b then 1 else 0.

Definition pq_set (l : list detected_burst) (s : burst_pq) : burst_pq :=
  BurstPq l (pq_queued s) (pq_dropped s) (pq_evicted s) (pq_skipped s) (pq_high_water s)
    (hot_boost_pops s) (hot_boost_inserts s) (hot_cont_stale s) (hot_cont_pri s).
Definition pq_hot (pops inserts stale pri : Z) (s : burst_pq) : burst_pq :=
  BurstPq (pq s) (pq_queued s) (pq_dropped s) (pq_evicted s) (pq_skipped s) (pq_high_water s)
    (u32 (hot_boost_pops s + pops)) (u32 (hot_boost_inserts s + inserts))
    (u32 (hot_cont_stale s + stale)) (u32 (hot_cont_pri s + pri)).
Definition pq_count (queued dropped evicted skipped : Z) (s : burst_pq) : burst_pq :=
  BurstPq (pq s) (u32 (pq_queued s + queued)) (u32 (pq_dropped s + dropped)) (u32 (pq_evicted s + evicted))
    (u32 (pq_skipped s + skipped)) (pq_high_water s)
    (hot_boost_pops s) (hot_boost_inserts s) (hot_cont_stale s) (hot_cont_pri s).
Definition pq_water (s : burst_pq) : burst_pq :=
  BurstPq (pq s) (pq_queued s) (pq_dropped s) (pq_evicted s) (pq_skipped s)
    (if pq_high_water s <? Z.of_nat (length (pq s)) then Z.of_nat (length (pq s)) else pq_high_water s)
    (hot_boost_pops s) (hot_boost_inserts s) (hot_cont_stale s) (hot_cont_pri s).

(** The slot's samples are overwritten. *)
Definition lapped (head : Z) (b : detected_burst) : bool :=
  (start_sample_idx b <? head) && (SIGNAL_BUF_CAPACITY_COMPLEX <? u64 (head - start_sample_idx b)).

(** The first slot of least, and of greatest, priority among [n]. *)
Definition pq_argmin (prio : nat -> float) (n : nat) : nat * float :=
  forN (n - 1) (fun k '(min_i, min_s) =>
    let p := prio (S k) in if SFltb p min_s then (S k, p) else (min_i, min_s)) (0%nat, prio 0%nat).
Definition pq_argmax (prio : nat -> float) (n : nat) : nat * float :=
  forN (n - 1) (fun k '(max_i, max_s) =>
    let p := prio (S k) in if SFltb max_s p then (S k, p) else (max_i, max_s)) (0%nat, prio 0%nat).

Definition burst_zero : detected_burst := Burst 0 0 (S754_zero false) (S754_zero false) (S754_zero false) (S754_zero false) 0.

(** The priority of slot [i]. *)
Definition slot_priority (l : list detected_burst) (look : nat -> bool) (i : nat) : float :=
  burst_priority_at (nth i l burst_zero) (look i).

(** [nb]: the newcomer's bin was hot when first looked at; [nlook]: when its
    priority was computed; [head]: [signal_buffer_head_total()]. *)
Definition pq_insert_locked (head : Z) (nb nlook : bool) (look again : nat -> bool) (b : detected_burst) (s : burst_pq) : Z * burst_pq :=
  if (length (pq s) <? BURST_PQ_CAP)%nat then (1, pq_hot 0 (b2c nb) 0 0 (pq_set (pq s ++ [b]) s)) else
  match list_find (fun e => lapped head e = true) (pq s) with
  | Some (i, _) => (0, pq_hot 0 (b2c nb) (b2c (again i)) 0 (pq_set (<[i := b]> (pq s)) s))
  | None =>
      let '(min_i, min_s) := pq_argmin (slot_priority (pq s) look) BURST_PQ_CAP in
      if SFltb min_s (burst_priority_at b nlook)
      then (0, pq_hot 0 (b2c nb) 0 (b2c (again min_i)) (pq_set (<[min_i := b]> (pq s)) s))
      else (-1, pq_hot 0 0 0 (b2c nb) s)
  end.

(** [*out = s_pq[max_i]; s_pq[max_i] = s_pq[--s_pq_count]]; with [s_pq_count]
    zero the code reads slot 0 and decrements to -1: [None]. *)
Definition pq_extract_max_locked (look again : nat -> bool) (s : burst_pq) : option (detected_burst * burst_pq) :=
  if (length (pq s) =? 0)%nat then None else
  let '(max_i, _) := pq_argmax (slot_priority (pq s) look) (length (pq s)) in
  let out := nth max_i (pq s) burst_zero in
  let last := (length (pq s) - 1)%nat in
  Some (out, pq_hot (b2c (again max_i)) 0 0 0 (pq_set (take last (<[max_i := nth last (pq s) burst_zero]> (pq s))) s)).

(** The check before the queue: whether the burst can still be decoded. *)
Definition push_stale (head : Z) (b : detected_burst) : bool :=
  let check_start := u64 (start_sample_idx b - WB_PRE_PAD_SAMPLES) in
  let check_len := length_samples b + WB_PRE_PAD_SAMPLES in
  (SIGNAL_BUF_CAPACITY_COMPLEX <=? check_len) ||
  ((check_start <? head) && (SIGNAL_BUF_CAPACITY_COMPLEX <? u64 (head - check_start))).

(** [worker_core1_push_burst] up to the unlock; the result says whether the
    semaphore is to be given. *)
Definition push_burst (head1 head2 : Z) (nb nlook : bool) (look again : nat -> bool) (b : detected_burst) (s : burst_pq)
  : bool * burst_pq :=
  let s := pq_count 1 0 0 0 s in
  if push_stale head1 b then (false, pq_count 0 0 0 1 s) else
  let '(r, s) := pq_insert_locked head2 nb nlook look again b s in
  let s := pq_water s in
  if 0 <? r then (true, s) else if r =? 0 then (false, pq_count 0 0 1 0 s) else (false, pq_count 0 1 0 0 s).

(** The worker's guards after a pop: whether the burst is decoded. *)
Definition pop_guard (sb : sbuf) (b : detected_burst) : bool :=
  if length_samples b <? 128 then false
  else signal_buffer_burst_valid sb (u64 (start_sample_idx b - WB_PRE_PAD_SAMPLES)) (u32 (length_samples b + WB_PRE_PAD_SAMPLES)).

(** ** Order *)

Lemma SFltb_trans a b c : SFltb a b = true -> SFltb b c = true -> SFltb a c = true.
Proof.
  unfold SFltb. destruct a as [sa|sa| |sa ma ea], b as [sb|sb| |sb mb eb], c as [sc|sc| |sc mc ec]; cbn [SFcompare]; try done;
    destruct sa; try destruct sb; try destruct sc; try done.
  all: repeat match goal with |- context [Z.compare ?x ?y] => destruct (Z.compare_spec x y) end; try done; try lia; subst; try lia.
  all: fold (Pos.compare ma mb) (Pos.compare mb mc) (Pos.compare ma mc).
  all: repeat match goal with |- context [Pos.compare ?x ?y] => destruct (Pos.compare_spec x y) end; cbn; try done; try lia.
Qed.

Lemma SFltb_irrefl a : SFltb a a <> true.
Proof.
  unfold SFltb. destruct a as [s|s| |s m e]; cbn [SFcompare]; try (by destruct s); [done|].
  rewrite Z.compare_refl. fold (Pos.compare m m). rewrite Pos.compare_refl. by destruct s.
Qed.

Lemma pq_argmin_spec prio n : (1 <= n)%nat ->
  let '(i, s) := pq_argmin prio n in (i < n)%nat /\ s = prio i /\ forall j, (j < n)%nat -> SFltb (prio j) s = false.
Proof.
  intros Hn. unfold pq_argmin.
  pose proof (forN_inv (fun k '(i, s) => (i < S k)%nat /\ s = prio i /\ forall j, (j < S k)%nat -> SFltb (prio j) s = false) (n - 1)
    (fun k '(min_i, min_s) => let p := prio (S k) in if SFltb p min_s then (S k, p) else (min_i, min_s)) (0%nat, prio 0%nat)) as H.
  destruct (forN (n - 1) _ _) as [i s]. replace n with (S (n - 1)) by lia. apply H; clear H.
  - split; [lia|]. split; [done|]. intros j Hj. replace j with 0%nat by lia. destruct (SFltb _ _) eqn:E; [|done].
    exfalso. by apply (SFltb_irrefl (prio 0%nat)).
  - intros k [mi ms] _ (H1 & -> & H3). cbv zeta. destruct (SFltb (prio (S k)) (prio mi)) eqn:E.
    + split; [lia|]. split; [done|]. intros j Hj. destruct (SFltb (prio j) (prio (S k))) eqn:Ej; [|done]. exfalso.
      destruct (decide (j = S k)) as [->|Hne]; [by apply (SFltb_irrefl (prio (S k)))|].
      pose proof (SFltb_trans _ _ _ Ej E) as Ht. by rewrite H3 in Ht by lia.
    + split; [lia|]. split; [done|]. intros j Hj. destruct (decide (j = S k)) as [->|Hne]; [done|apply H3; lia].
Qed.

Lemma pq_argmax_spec prio n : (1 <= n)%nat ->
  let '(i, s) := pq_argmax prio n in (i < n)%nat /\ s = prio i /\ forall j, (j < n)%nat -> SFltb s (prio j) = false.
Proof.
  intros Hn. unfold pq_argmax.
  pose proof (forN_inv (fun k '(i, s) => (i < S k)%nat /\ s = prio i /\ forall j, (j < S k)%nat -> SFltb s (prio j) = false) (n - 1)
    (fun k '(max_i, max_s) => let p := prio (S k) in if SFltb max_s p then (S k, p) else (max_i, max_s)) (0%nat, prio 0%nat)) as H.
  destruct (forN (n - 1) _ _) as [i s]. replace n with (S (n - 1)) by lia. apply H; clear H.
  - split; [lia|]. split; [done|]. intros j Hj. replace j with 0%nat by lia. destruct (SFltb _ _) eqn:E; [|done].
    exfalso. by apply (SFltb_irrefl (prio 0%nat)).
  - intros k [mi ms] _ (H1 & -> & H3). cbv zeta. destruct (SFltb (prio mi) (prio (S k))) eqn:E.
    + split; [lia|]. split; [done|]. intros j Hj. destruct (SFltb (prio (S k)) (prio j)) eqn:Ej; [|done]. exfalso.
      destruct (decide (j = S k)) as [->|Hne]; [by apply (SFltb_irrefl (prio (S k)))|].
      pose proof (SFltb_trans _ _ _ E Ej) as Ht. by rewrite H3 in Ht by lia.
    + split; [lia|]. split; [done|]. intros j Hj. destruct (decide (j = S k)) as [->|Hne]; [done|apply H3; lia].
Qed.

(** ** What the queue does *)

(** Moving the last element into the hole loses nothing else. *)
Lemma remove_swap {A} (d : A) l i : (i < length l)%nat ->
  nth i l d :: take (length l - 1) (<[i := nth (length l - 1) l d]> l) ≡ₚ l.
Proof.
  intros Hi. destruct l as [|x l _] using rev_ind; [cbn in Hi; lia|].
  rewrite length_app in *. cbn [length] in *. replace (length l + 1 - 1)%nat with (length l) by lia.
  rewrite (nth_middle l [] x d). destruct (decide (i = length l)) as [->|Hne].
  - rewrite (nth_middle l [] x d). rewrite insert_app_r_alt by lia. rewrite take_app_length.
    rewrite Permutation_app_comm. done.
  - rewrite app_nth1, insert_app_l by lia. rewrite <- (length_insert l i x) at 1. rewrite take_app_length.
    destruct (lookup_lt_is_Some_2 l i ltac:(lia)) as [y Hy]. rewrite (nth_lookup_total d l i y Hy).
    assert (E : l ≡ₚ y :: take i l ++ drop (S i) l).
    { rewrite <- (take_drop_middle l i y Hy) at 1. by rewrite Permutation_middle. }
    rewrite insert_take_drop by lia. transitivity (x :: y :: take i l ++ drop (S i) l).
    + rewrite <- (Permutation_middle (take i l)). apply perm_swap.
    + rewrite (Permutation_app_comm l [x]). apply perm_skip. by symmetry.
Qed.

(** C1: the worker gets the burst of highest priority: the one returned was in
    the queue, the others stay, and none of them - at the priorities computed
    for them - came before it. *)
Theorem pq_extract_strongest look again s :
  pq s <> [] ->
  exists i b s', pq_extract_max_locked look again s = Some (b, s') /\ pq s !! i = Some b /\ b :: pq s' ≡ₚ pq s /\
    forall j x, pq s !! j = Some x -> SFltb (burst_priority_at b (look i)) (burst_priority_at x (look j)) = false.
Proof.
  intros Hne. unfold pq_extract_max_locked. assert (Hl : (1 <= length (pq s))%nat) by (destruct (pq s); cbn; [done|lia]).
  rewrite (proj2 (Nat.eqb_neq _ _)) by lia.
  pose proof (pq_argmax_spec (slot_priority (pq s) look) (length (pq s)) Hl) as H.
  destruct (pq_argmax _ _) as [i m]. destruct H as (Hi & -> & Hmax).
  destruct (lookup_lt_is_Some_2 (pq s) i Hi) as [b Hb]. pose proof (nth_lookup_total burst_zero _ _ _ Hb) as Eb.
  exists i, b. eexists. split; [by rewrite Eb|]. split; [done|]. split.
  - cbn [pq_hot pq_set pq]. rewrite <- Eb. by apply remove_swap.
  - intros j x Hx. specialize (Hmax j (lookup_lt_Some _ _ _ Hx)). unfold slot_priority in Hmax.
    by rewrite Eb, (nth_lookup_total burst_zero _ _ _ Hx) in Hmax.
Qed.

(** C30: an insertion loses the least it can.  With a free slot it loses
    nothing; with a full queue it overwrites a burst whose samples are already
    gone, if there is one; otherwise a burst of least priority, and only for a
    newcomer that outranks it; otherwise the newcomer.  The queue never exceeds
    its capacity. *)
Theorem pq_insert_sheds_weakest head nb nlook look again b s :
  (length (pq s) <= BURST_PQ_CAP)%nat ->
  let '(r, s') := pq_insert_locked head nb nlook look again b s in
  (length (pq s') <= BURST_PQ_CAP)%nat /\
  ((length (pq s) < BURST_PQ_CAP)%nat /\ r = 1 /\ pq s' = pq s ++ [b] \/
   length (pq s) = BURST_PQ_CAP /\ exists i e, pq s !! i = Some e /\
     ((r = 0 /\ pq s' = <[i := b]> (pq s) /\ lapped head e = true) \/
      (Forall (fun x => lapped head x = false) (pq s) /\
       (forall j x, pq s !! j = Some x -> SFltb (burst_priority_at x (look j)) (burst_priority_at e (look i)) = false) /\
       (if SFltb (burst_priority_at e (look i)) (burst_priority_at b nlook)
        then r = 0 /\ pq s' = <[i := b]> (pq s) else r = -1 /\ pq s' = pq s)))).
Proof.
  intros Hcap. unfold pq_insert_locked. destruct (Nat.ltb_spec (length (pq s)) BURST_PQ_CAP) as [Hlt|Hge].
  { cbn [pq_hot pq_set pq]. rewrite length_app. cbn [length]. split; [lia|]. by left. }
  assert (Hl : length (pq s) = BURST_PQ_CAP) by lia.
  destruct (list_find _ (pq s)) as [[i e]|] eqn:Ef.
  - apply list_find_Some in Ef as (Hi & He & _). cbn [pq_hot pq_set pq]. rewrite length_insert. split; [lia|]. right. split; [done|].
    exists i, e. split; [done|]. by left.
  - apply list_find_None in Ef.
    pose proof (pq_argmin_spec (slot_priority (pq s) look) BURST_PQ_CAP ltac:(unfold BURST_PQ_CAP; lia)) as H.
    destruct (pq_argmin _ _) as [i m]. destruct H as (Hi & -> & Hmin).
    destruct (lookup_lt_is_Some_2 (pq s) i ltac:(lia)) as [e He]. pose proof (nth_lookup_total burst_zero _ _ _ He) as Ee.
    assert (Epri : slot_priority (pq s) look i = burst_priority_at e (look i)) by (unfold slot_priority; by rewrite Ee).
    rewrite Epri in *. assert (Hn : Forall (fun x => lapped head x = false) (pq s)).
    { eapply Forall_impl; [|exact Ef]. intros x Hx. by apply not_true_is_false. }
    assert (Hm : forall j x, pq s !! j = Some x -> SFltb (burst_priority_at x (look j)) (burst_priority_at e (look i)) = false).
    { intros j x Hx. specialize (Hmin j ltac:(rewrite <- Hl; by eapply lookup_lt_Some)). unfold slot_priority in Hmin.
      by rewrite (nth_lookup_total burst_zero _ _ _ Hx) in Hmin. }
    destruct (SFltb (burst_priority_at e (look i)) (burst_priority_at b nlook)) eqn:E; cbn [pq_hot pq_set pq]; rewrite ?length_insert;
      (split; [lia|]); right; (split; [done|]); exists i, e; (split; [done|]); right; rewrite E; done.
Qed.

(** Nothing decodable is given up as stale.  A burst refused at the push,
    and a queued burst overwritten because the ring has lapped it, would have
    been dropped by the worker's own guard however long it waited: the sample
    counter only grows. *)
Theorem stale_never_decodable head b sb :
  is_u 64 (start_sample_idx b) -> 0 <= length_samples b -> length_samples b + WB_PRE_PAD_SAMPLES < 2 ^ 32 ->
  0 <= head <= sb_total sb -> sb_total sb < 2 ^ 63 -> start_sample_idx b < 2 ^ 63 ->
  push_stale head b = true \/ lapped head b = true -> pop_guard sb b = false.
Proof.
  intros Hs Hl Hlen Hh Ht Hs63 H. unfold pop_guard. destruct (length_samples b <? 128); [done|].
  unfold signal_buffer_burst_valid. unfold is_u, WB_PRE_PAD_SAMPLES in *. rewrite (u32_small (_ + 288)) by lia.
  set (cap := SIGNAL_BUF_CAPACITY_COMPLEX) in *. assert (Hcap : cap = 8388608) by reflexivity.
  set (cs := u64 (start_sample_idx b - 288)) in *.
  assert (Hcs : start_sample_idx b >= 288 /\ cs = start_sample_idx b - 288 \/ start_sample_idx b < 288 /\ cs = start_sample_idx b - 288 + 2 ^ 64)
    by (unfold cs, u64; lia).
  destruct H as [H|H].
  - unfold push_stale, WB_PRE_PAD_SAMPLES in H. fold cs cap in H. apply orb_prop in H as [H|H].
    + apply Z.leb_le in H. by rewrite (proj2 (Z.leb_le _ _) H), orb_true_r.
    + apply andb_prop in H as [H1 H2]. apply Z.ltb_lt in H1, H2. destruct (_ || _); [done|]. destruct (_ <? u64 _); [done|].
      apply Z.leb_gt. unfold u64 in *. lia.
  - unfold lapped in H. fold cap in H. apply andb_prop in H as [H1 H2]. apply Z.ltb_lt in H1, H2.
    destruct (_ || _); [done|]. destruct (_ <? u64 _); [done|]. apply Z.leb_gt. unfold u64 in *. lia.
Qed.

(** ** Lock and semaphore *)

(** The queue, the semaphore's count, and where the two tasks are: the tagger
    between the unlock and its [xSemaphoreGive], the worker between its
    [xSemaphoreTake] and the extraction. *)
Record wq_sys := WqSys { wq : burst_pq; wq_items : nat; wq_give : bool; wq_taken : bool }.

Definition wq_start : wq_sys := WqSys burst_pq_init 0 false false.

Inductive wq_event :=
  | Insert (head1 head2 : Z) (nb nlook : bool) (look again : nat -> bool) (b : detected_burst)
  | Give | Take | Extract (look again : nat -> bool).

(** [None]: not possible in this state.  An extraction from an empty queue
    would be possible, and wrong: [wq_safe] says it does not arise. *)
Definition wq_step (y : wq_sys) (ev : wq_event) : option wq_sys :=
  match ev with
  | Insert head1 head2 nb nlook look again b =>
      if wq_give y then None else
      let '(give, q) := push_burst head1 head2 nb nlook look again b (wq y) in Some (WqSys q (wq_items y) give (wq_taken y))
  | Give =>
      if wq_give y then
        Some (WqSys (wq y) (if (wq_items y <? BURST_PQ_CAP)%nat then S (wq_items y) else wq_items y) false (wq_taken y))
      else None
  | Take =>
      match wq_items y with
      | S n => if wq_taken y then None else Some (WqSys (wq y) n (wq_give y) true)
      | O => None
      end
  | Extract look again =>
      if wq_taken y then
        match pq_extract_max_locked look again (wq y) with
        | Some (_, q) => Some (WqSys q (wq_items y) (wq_give y) false)
        | None => Some y
        end
      else None
  end.

Fixpoint wq_run (y : wq_sys) (evs : list wq_event) : option wq_sys :=
  match evs with [] => Some y | ev :: evs => y ← wq_step y ev; wq_run y evs end.

Definition wq_safe (y : wq_sys) : Prop :=
  (wq_items y + Nat.b2n (wq_give y) + Nat.b2n (wq_taken y))%nat = length (pq (wq y)) /\ (length (pq (wq y)) <= BURST_PQ_CAP)%nat.

Lemma insert_length head nb nlook look again b s : (length (pq s) <= BURST_PQ_CAP)%nat ->
  let '(r, s') := pq_insert_locked head nb nlook look again b s in
  (length (pq s') <= BURST_PQ_CAP)%nat /\ length (pq s') = (length (pq s) + Nat.b2n (0 <? r)%Z)%nat.
Proof.
  intros Hc. unfold pq_insert_locked. destruct (Nat.ltb_spec (length (pq s)) BURST_PQ_CAP).
  { cbn [pq_hot pq_set pq]. rewrite length_app. cbn. lia. }
  destruct (list_find _ (pq s)) as [[i e]|]; [cbn [pq_hot pq_set pq]; rewrite length_insert; cbn; lia|].
  destruct (pq_argmin _ _) as [i m]. destruct (SFltb m _); cbn [pq_hot pq_set pq]; rewrite ?length_insert; cbn; lia.
Qed.

Lemma wq_step_safe y ev y' : wq_safe y -> wq_step y ev = Some y' -> wq_safe y'.
Proof.
  intros [He Hc] H. unfold wq_safe. destruct ev as [h1 h2 nb nl look again b| | |look again]; cbn [wq_step] in H.
  - destruct (wq_give y); [done|]. unfold push_burst in H. cbn [Nat.b2n] in He.
    destruct (push_stale h1 b); [injection H as <-; cbn in *; lia|].
    pose proof (insert_length h2 nb nl look again b (pq_count 1 0 0 0 (wq y)) Hc) as Hi.
    destruct (pq_insert_locked _ _ _ _ _ _ _) as [r s']. destruct Hi as [Hi1 Hi2]. cbn [pq_count pq] in Hi2.
    destruct (0 <? r); [injection H as <-; cbn [wq wq_items wq_give wq_taken pq_water pq Nat.b2n] in *; lia|].
    destruct (r =? 0); injection H as <-; cbn [wq wq_items wq_give wq_taken pq_water pq_count pq Nat.b2n] in *; lia.
  - destruct (wq_give y); [|done]. injection H as <-. cbn [wq wq_items wq_give wq_taken Nat.b2n] in *.
    destruct (Nat.ltb_spec (wq_items y) BURST_PQ_CAP); lia.
  - destruct (wq_items y) as [|n] eqn:En; [done|]. destruct (wq_taken y); [done|]. injection H as <-. cbn [wq wq_items wq_give wq_taken Nat.b2n] in *. lia.
  - destruct (wq_taken y) eqn:Et; [|done]. cbn [Nat.b2n] in He. unfold pq_extract_max_locked in H.
    destruct (Nat.eqb_spec (length (pq (wq y))) 0) as [E0|E0]; [lia|].
    destruct (pq_argmax _ _) as [i m]. injection H as <-. cbn [wq wq_items wq_give wq_taken pq_hot pq_set pq Nat.b2n].
    rewrite length_take, length_insert. lia.
Qed.

Lemma wq_run_safe evs y y' : wq_safe y -> wq_run y evs = Some y' -> wq_safe y'.
Proof.
  revert y. induction evs as [|ev evs IH]; intros y Hs H; [by injection H as <-|]. cbn [wq_run] in H.
  destruct (wq_step y ev) as [y1|] eqn:E; [|cbv [mbind option_bind] in H; discriminate H]. apply (IH y1); [by apply (wq_step_safe y ev)|exact H].
Qed.

(** C14: the semaphore counts the queue.  In every interleaving of tagger and
    worker the count, with a give not yet made and a take not yet used, is the
    number of bursts queued, never above 64: no give is lost, the worker
    never takes from an empty queue, and while bursts are queued and no
    operation is under way it does not sleep. *)
Theorem worker_queue_safe evs y :
  wq_run wq_start evs = Some y ->
  (wq_items y + Nat.b2n (wq_give y) + Nat.b2n (wq_taken y))%nat = length (pq (wq y)) /\ (length (pq (wq y)) <= BURST_PQ_CAP)%nat /\
  (wq_give y = true -> (wq_items y < BURST_PQ_CAP)%nat) /\
  (wq_taken y = true -> pq (wq y) <> []) /\
  (pq (wq y) <> [] -> wq_give y = false -> wq_taken y = false -> exists y', wq_step y Take = Some y').
Proof.
  intros H. assert (Hs : wq_safe wq_start) by (split; cbn; unfold BURST_PQ_CAP; lia).
  destruct (wq_run_safe evs _ y Hs H) as [He Hc]. split; [done|]. split; [done|]. split; [|split].
  - intros Hg. rewrite Hg in He. cbn [Nat.b2n] in He. lia.
  - intros Ht E. rewrite Ht, E in He. cbn [Nat.b2n length] in He. lia.
  - intros Hne Hg Ht. rewrite Hg, Ht in He. cbn [Nat.b2n] in He. cbn [wq_step]. rewrite Ht.
    destruct (wq_items y) as [|n]; [|by eexists]. destruct (pq (wq y)); [done|cbn in He; lia].
Qed.

(** ** Runs *)

Definition no : nat -> bool := fun _ => false.
Definition sample_burst (start snr width : Z) : detected_burst :=
  Burst start 60000 (S754_zero false) (float_of snr) (S754_zero false) (S754_zero false) (Z.lor 700 (Z.shiftl width 16)).

(** Loud and wide, weak on a hot bin, and in between: the hot one first, the
    wide one last. *)
Lemma pq_extract_strongest_witness :
  exists s', pq_extract_max_locked (fun i => (i =? 1)%nat) no
    (pq_set [sample_burst 1000 30 90; sample_burst 1000 12 34; sample_burst 1000 20 34] burst_pq_init) =
    Some (sample_burst 1000 12 34, s') /\ pq s' = [sample_burst 1000 30 90; sample_burst 1000 20 34].
Proof.
  destruct (pq_extract_strongest (fun i => (i =? 1)%nat) no
    (pq_set [sample_burst 1000 30 90; sample_burst 1000 12 34; sample_burst 1000 20 34] burst_pq_init) ltac:(discriminate))
    as (i & b & s' & E & _). exists s'.
  assert (E' := E). vm_compute in E'. injection E' as <- <-. split; [exact E|vm_compute; reflexivity].
Defined.

Definition full_queue : burst_pq :=
  pq_set (replicate 20 (sample_burst 9000000 15 34) ++ sample_burst 9000000 11 34 :: replicate 43 (sample_burst 9000000 16 34)) burst_pq_init.

Lemma pq_insert_sheds_weakest_witness :
  let r := pq_insert_locked 9100000 false false no no (sample_burst 9050000 13 34) full_queue in
  r.1 = 0 /\ pq r.2 !! 20%nat = Some (sample_burst 9050000 13 34) /\ (length (pq r.2) <= BURST_PQ_CAP)%nat.
Proof.
  pose proof (pq_insert_sheds_weakest 9100000 false false no no (sample_burst 9050000 13 34) full_queue ltac:(apply Nat.leb_le; vm_compute; reflexivity)) as H.
  destruct (pq_insert_locked 9100000 false false no no (sample_burst 9050000 13 34) full_queue) as [r s'] eqn:E.
  destruct H as [H _]. cbn [fst snd]. split; [|split; [|exact H]]; vm_compute in E; injection E as <- <-; reflexivity.
Defined.

Lemma stale_never_decodable_witness :
  lapped 9000000 (sample_burst 600000 20 34) = true /\
  pop_guard (SBuf (fun _ => (0, 0)) 0 9100000 0 [] [] true 0 0 0 0 0 []) (sample_burst 600000 20 34) = false.
Proof.
  split; [vm_compute; reflexivity|].
  apply (stale_never_decodable 9000000); [unfold is_u; cbn; lia|cbn; lia|unfold WB_PRE_PAD_SAMPLES; cbn; lia|cbn; lia|cbn; lia|cbn; lia|right; vm_compute; reflexivity].
Defined.

Lemma worker_queue_safe_witness :
  exists y, wq_run wq_start [Insert 70000 70000 false false no no (sample_burst 1000 20 34); Give;
    Insert 80000 80000 false false no no (sample_burst 9000 25 34); Take] = Some y /\ pq (wq y) <> [].
Proof.
  destruct (wq_run wq_start [Insert 70000 70000 false false no no (sample_burst 1000 20 34); Give;
    Insert 80000 80000 false false no no (sample_burst 9000 25 34); Take]) as [y|] eqn:E; [|vm_compute in E; discriminate E].
  exists y. split; [reflexivity|]. destruct (worker_queue_safe _ y E) as (_ & _ & _ & H & _). apply H.
  vm_compute in E. by injection E as <-.
Defined.
