(* ===== verification/WorkerEmit.v ===== *)
(** The worker's frame sinks
    (src/p4-usb-host/main/worker_core1.c: [worker_emit_frame],
    [worker_emit_frame_vdl2] and the counters they keep).

    A demodulated Iridium frame has its first 64 payload bits de-interleaved
    and decoded as two ring-alert codewords, the soft decoder rescuing what the
    hard one cannot; if both succeed the frame is classified.  A worker ships
    frames of known type as PDUs, a standalone receiver hands every frame to its
    frame decoder.  The counters come twice: a window that a reader drains, and
    a running total.  Log lines and the timing sums are left out; the arrays on
    the stack, not initialised in C and not read before they are written, are
    zero. *)

From Stdlib Require Import SpecFloat.
From S2P Require Import Prelude Gf2 Bits IridiumBch IridiumFrame BchRa BchSoft FrameQueue FeedPipeline.
From S2P Require Import FrameLink IdaEncode FrameDecoder SignalBuffer WorkerQueue.
#[local] Open Scope Z_scope.

(** ** Floats as integers *)

(** A binary32's octets, as the PDU carries it. *)
Definition float_bits (f : float) : Z :=
  let sign (s : bool) := if s then 2 ^ 31 else 0 in
  match f with
  | S754_zero s => sign s
  | S754_infinity s => sign s + 0x7F800000
  | S754_nan => 0x7FC00000
  | S754_finite s m e => sign s + if Z.pos m <? 2 ^ 23 then Z.pos m else (e + 150) * 2 ^ 23 + (Z.pos m - 2 ^ 23)
  end.

(** [(int)f], truncation towards zero; undefined in C where the result does not
    fit. *)
Definition float_int (f : float) : Z :=
  match f with
  | S754_finite s m e => sN 32 (if s then - Z.shiftl (Z.pos m) e else Z.shiftl (Z.pos m) e)
  | _ => 0
  end.

(** ** State *)

Record band_frame := BandFrame {
  bf_bits : list Z; bf_n_bits : Z; bf_soft_bits : option (list Z); bf_direction : Z; bf_demod_ok : bool }.

(** [CONFIG_DEVICE_ROLE_WORKER] or [..._COMBINED_LOOPBACK], or neither. *)
Inductive device_role := ROLE_WORKER | ROLE_STANDALONE.

(** [s_bursts_bch_decoded], [_unknown], [_failed], [_chase_recovered], or their
    [_cum] counterparts. *)
Record bch_funnel := Funnel { fn_decoded : Z; fn_unknown : Z; fn_failed : Z; fn_chase : Z }.

Definition funnel_zero : bch_funnel := Funnel 0 0 0 0.
Definition funnel_add (f d : bch_funnel) : bch_funnel :=
  Funnel (u32 (fn_decoded f + fn_decoded d)) (u32 (fn_unknown f + fn_unknown d))
    (u32 (fn_failed f + fn_failed d)) (u32 (fn_chase f + fn_chase d)).

Definition HIST_SNR_BINS : nat := 32.
Definition HIST_BCH_BINS : nat := 16.

Definition hist_bump (i : Z) (hist : list Z) : list Z := alter (fun n => u32 (n + 1)) (Z.to_nat i) hist.

Definition hist_snr_record_into (hist : list Z) (snr_db : float) : list Z :=
  let bin := float_int snr_db in
  let bin := if bin <? 0 then 0 else bin in
  let bin := if Z.of_nat HIST_SNR_BINS <=? bin then Z.of_nat HIST_SNR_BINS - 1 else bin in
  hist_bump bin hist.

Definition hist_bch_record (e1 e2 : Z) (hist : list Z) : list Z :=
  let clamp e := if e <? -1 then -1 else if 2 <? e then 2 else e in
  hist_bump ((clamp e1 + 1) * 4 + (clamp e2 + 1)) hist.

Section Emit.
Context {Que : Type} `{Hque : MessageQueue Que iridium_frame_pdu}.

(** The counters, the histograms, the codecs' tables and the two ways out. *)
Record emitter := Emitter {
  em_window : bch_funnel; em_cum : bch_funnel; em_hist_bch : list Z; em_hist_bchok : list Z;
  em_ra : ra_state; em_syn : syn_state; em_pdus : @pdu_queue Que; em_frames : frame_queue }.

Definition em_count (d : bch_funnel) (s : emitter) : emitter :=
  Emitter (funnel_add (em_window s) d) (funnel_add (em_cum s) d) (em_hist_bch s) (em_hist_bchok s)
    (em_ra s) (em_syn s) (em_pdus s) (em_frames s).
Definition em_hists (h hok : list Z) (s : emitter) : emitter :=
  Emitter (em_window s) (em_cum s) h hok (em_ra s) (em_syn s) (em_pdus s) (em_frames s).
Definition em_codecs (ra : ra_state) (syn : syn_state) (s : emitter) : emitter :=
  Emitter (em_window s) (em_cum s) (em_hist_bch s) (em_hist_bchok s) ra syn (em_pdus s) (em_frames s).
Definition em_out (p : @pdu_queue Que) (f : frame_queue) (s : emitter) : emitter :=
  Emitter (em_window s) (em_cum s) (em_hist_bch s) (em_hist_bchok s) (em_ra s) (em_syn s) p f.

(** ** The two codewords *)

(** [if (e < 0) { int r = bch_decode_block_soft(soft, data, 3); if (r >= 0) {...} }] *)
Definition chase_retry (e : Z) (soft : list Z) (st : ra_state) : Z * bool * ra_state :=
  if 0 <=? e then (e, false, st) else
  let '(r, _, st) := bch_decode_block_soft soft (replicate 21 0) 3 st in
  if 0 <=? r then (r, true, st) else (e, false, st).

(** The hard decoder's results, those after the rescue, and [chase_used]. *)
Record verdict := Verdict { v_hard1 : Z; v_hard2 : Z; v_e1 : Z; v_e2 : Z; v_chase : bool }.

Definition decode_blocks (bits : list Z) (soft_bits : option (list Z)) (st : ra_state) : verdict * ra_state :=
  let '(block1, block2) := iridium_deinterleave (drop 24 bits) (replicate 32 0) (replicate 32 0) in
  let '(e1, _, st) := bch_decode_block block1 (replicate 21 0) st in
  let '(e2, _, st) := bch_decode_block block2 (replicate 21 0) st in
  match soft_bits with
  | Some soft =>
      if (e1 <? 0) || (e2 <? 0) then
        let '(soft1, soft2) := iridium_deinterleave_int16 (drop 24 soft) (replicate 32 0) (replicate 32 0) in
        let '(r1, c1, st) := chase_retry e1 soft1 st in
        let '(r2, c2, st) := chase_retry e2 soft2 st in
        (Verdict e1 e2 r1 r2 (c1 || c2), st)
      else (Verdict e1 e2 e1 e2 false, st)
  | None => (Verdict e1 e2 e1 e2 false, st)
  end.

Definition downlink (f : band_frame) : bool := bf_direction f =? 0.

(** The verdict, [real_known], and the state; [harder] is the classifier's
    switch. *)
Definition emit_check (harder : bool) (b : detected_burst) (f : band_frame) (s : emitter) : verdict * bool * emitter :=
  if bf_n_bits f <? 24 + 64 then (Verdict (-1) (-1) (-1) (-1) false, false, s) else
  let '(v, ra) := decode_blocks (bf_bits f) (bf_soft_bits f) (em_ra s) in
  let s := em_hists (hist_bch_record (v_hard1 v) (v_hard2 v) (em_hist_bch s)) (em_hist_bchok s) s in
  let s := em_codecs ra (em_syn s) s in
  if (0 <=? v_e1 v) && (0 <=? v_e2 v) then
    let chase := if v_chase v then 1 else 0 in
    let fdir := if downlink f then IR_FRM_DIR_DOWNLINK else IR_FRM_DIR_UPLINK in
    let '(rc, c, syn) := iridium_frame_classify (bf_bits f) (Z.to_nat (bf_n_bits f)) fdir harder frame_zero (em_syn s) in
    let s := em_codecs ra syn s in
    if (rc =? 0) && negb (bool_decide (fr_type c = IR_FRAME_UNKNOWN)) then
      (v, true, em_hists (em_hist_bch s) (hist_snr_record_into (em_hist_bchok s) (peak_snr_db b)) (em_count (Funnel 1 0 0 chase) s))
    else (v, false, em_count (Funnel 0 1 0 chase) s)
  else (v, false, em_count (Funnel 0 0 1 0) s).

(** [signal_buffer_stream_epoch_us() + start_sample_idx * 1000000ULL / FS_DETECT_HZ] *)
Definition capture_us (epoch : Z) (b : detected_burst) : Z :=
  u64 (epoch + u64 (start_sample_idx b * 1000000) / FS_DETECT_HZ).

Definition emit_args (epoch : Z) (b : detected_burst) (f : band_frame) : push_args :=
  PushArgs (bf_bits f) (u32 (bf_n_bits f)) (bf_soft_bits f) (match bf_soft_bits f with Some _ => u32 (bf_n_bits f) | None => 0 end)
    (downlink f) 0 (peak_bin b) (float_bits (peak_snr_db b)) (capture_us epoch b).

Definition emit_pdu (epoch src_id : Z) (b : detected_burst) (f : band_frame) (v : verdict) : iridium_frame_pdu :=
  worker_pdu (capture_us epoch b) src_id (float_int (rel_freq_hz b)) (float_bits (peak_snr_db b)) (peak_bin b)
    (downlink f) (v_e1 v) (v_e2 v) (v_chase v) (bf_bits f) (bf_n_bits f).

(** [now], [ini]: the clock and the initialisation flag [frame_decoder_push]
    reads. *)
Definition worker_emit_frame (role : device_role) (harder ini : bool) (now epoch src_id : Z)
  (b : detected_burst) (f : band_frame) (s : emitter) : emitter :=
  if negb (bf_demod_ok f) then s else
  let '(v, real_known, s) := emit_check harder b f s in
  match role with
  | ROLE_WORKER =>
      if real_known then em_out (frame_pdu_queue_push (em_pdus s) (emit_pdu epoch src_id b f v)).1 (em_frames s) s else s
  | ROLE_STANDALONE => em_out (em_pdus s) (frame_decoder_push ini now (em_frames s) (emit_args epoch b f)).1 s
  end.

Definition worker_emit_frame_vdl2 (role : device_role) (ini : bool) (now epoch : Z)
  (b : detected_burst) (f : band_frame) (s : emitter) : emitter :=
  if negb (bf_demod_ok f) then s else
  match role with
  | ROLE_WORKER => s
  | ROLE_STANDALONE => em_out (em_pdus s) (frame_decoder_push ini now (em_frames s) (emit_args epoch b f)).1 s
  end.

(** [worker_core1_get_stats], the funnel: the window read and reset. *)
Definition get_stats_funnel (s : emitter) : bch_funnel * emitter :=
  (em_window s, Emitter funnel_zero (em_cum s) (em_hist_bch s) (em_hist_bchok s) (em_ra s) (em_syn s) (em_pdus s) (em_frames s)).

(** ** When a frame is decodable *)

(** The block of the payload that starts from pair [first]. *)
Definition block_at (first : nat) (bits : list Z) : list Z := map (rd (drop 24 bits)) (half_idx first).

(** The hard decoder's reach, and the soft one's. *)
Definition hard_near (first : nat) (bits : list Z) : Prop :=
  exists w, ra_codeword w /\ hamming w (received (block_at first bits)) <= 2.
Definition soft_near (first : nat) (soft : list Z) : Prop :=
  let m := take 31 (block_at first soft) in exists w, ra_reach (map soft_mag m) (map soft_hard m) 3 w.
Definition decodable (first : nat) (f : band_frame) : Prop :=
  hard_near first (bf_bits f) \/ exists soft, bf_soft_bits f = Some soft /\ soft_near first soft.

Definition metrics_ok (f : band_frame) : Prop :=
  forall soft, bf_soft_bits f = Some soft -> Forall (fun m => -32768 < m < 32768) soft.

Lemma length_block_at first bits : length (block_at first bits) = 32%nat.
Proof. unfold block_at. by rewrite length_map. Qed.

Lemma block_at_range first soft : Forall (fun m => -32768 < m < 32768) soft ->
  Forall (fun m => -32768 < m < 32768) (block_at first soft).
Proof.
  intros H. apply List.Forall_map, List.Forall_forall. intros i _. unfold rd.
  destruct (nth_in_or_default i (drop 24 soft) 0) as [Hin|E]; [|rewrite E; lia].
  rewrite List.Forall_forall in H. apply H.
  revert Hin. generalize (nth i (drop 24 soft) 0). intros z Hz. rewrite <- (take_drop 24 soft). apply in_or_app. by right.
Qed.

Lemma hard_result first bits st : ra_ok st ->
  let '(e, _, st') := bch_decode_block (block_at first bits) (replicate 21 0) st in
  ra_ok st' /\ (0 <= e <-> hard_near first bits).
Proof.
  intros Hok. destruct (decode_block_spec (block_at first bits) (replicate 21 0) st Hok) as (r & Hr & ->);
    [rewrite length_block_at; lia|done|]. unfold hard_near. destruct r as [w|].
  - split; [exact ra_table_ok|]. destruct Hr as [Hw Hh]. split; [by exists w|]. intros _. apply hamming_nonneg.
  - split; [exact ra_table_ok|]. split; [lia|]. intros (w & Hw & Hh). specialize (Hr w Hw). lia.
Qed.

Lemma retry_result first soft e st : ra_ok st -> Forall (fun m => -32768 < m < 32768) soft ->
  let '(r, c, st') := chase_retry e (block_at first soft) st in
  ra_ok st' /\ (0 <= r <-> 0 <= e \/ soft_near first soft) /\ (0 <= r -> c = true <-> e < 0).
Proof.
  intros Hok Hs. unfold chase_retry. destruct (Z.leb_spec 0 e) as [He|He].
  { split; [done|]. split; [tauto|]. intros _. split; [done|lia]. }
  destruct (decode_soft_spec (block_at first soft) (replicate 21 0) 3 st Hok) as [Hok' (w & Hw & Er)];
    [rewrite length_block_at; lia|by apply block_at_range|].
  destruct (bch_decode_block_soft _ _ _ _) as [[r o] st']. cbn [fst snd] in *. change (Z.to_nat (Z.max 0 (Z.min 6 3))) with 3%nat in Hw.
  unfold soft_near. destruct w as [w|]; injection Er as -> ->.
  - destruct Hw as [Hw _]. pose proof (hamming_nonneg w (map soft_hard (take 31 (block_at first soft)))) as H0.
    rewrite (proj2 (Z.leb_le _ _)) by done. split; [done|]. split; [|by intros _]. split; [|by intros _]. intros _. right. by exists w.
  - cbn. split; [done|]. split; [|lia]. split; [lia|]. intros [?|(w & H)]; [lia|by destruct (Hw w)].
Qed.

(** The clauses about a verdict without a rescue. *)
Ltac lia_verdict := split_and!; first [tauto | by intros ? ?; split; [done | lia]].

Lemma two_blocks (P1 S1 P2 S2 : Prop) e1 e2 r1 r2 c1 c2 :
  (0 <= e1 <-> P1) -> (0 <= r1 <-> 0 <= e1 \/ S1) -> (0 <= r1 -> c1 = true <-> e1 < 0) ->
  (0 <= e2 <-> P2) -> (0 <= r2 <-> 0 <= e2 \/ S2) -> (0 <= r2 -> c2 = true <-> e2 < 0) ->
  (0 <= r1 <-> P1 \/ S1) /\ (0 <= r2 <-> P2 \/ S2) /\ (0 <= e1 <-> P1) /\ (0 <= e2 <-> P2) /\
  (0 <= r1 -> 0 <= r2 -> c1 || c2 = true <-> e1 < 0 \/ e2 < 0).
Proof. intros H1 R1 C1 H2 R2 C2. split_and!; [tauto..|]. intros D1 D2. rewrite orb_true_iff, (C1 D1), (C2 D2). tauto. Qed.

(** Both blocks: what the gate decides. *)
Lemma decode_blocks_spec f st : ra_ok st -> metrics_ok f ->
  let '(v, st') := decode_blocks (bf_bits f) (bf_soft_bits f) st in
  ra_ok st' /\ (0 <= v_e1 v <-> decodable 31 f) /\ (0 <= v_e2 v <-> decodable 30 f) /\
  (0 <= v_hard1 v <-> hard_near 31 (bf_bits f)) /\ (0 <= v_hard2 v <-> hard_near 30 (bf_bits f)) /\
  (0 <= v_e1 v -> 0 <= v_e2 v -> v_chase v = true <-> v_hard1 v < 0 \/ v_hard2 v < 0).
Proof.
  intros Hok Hm. unfold decode_blocks, iridium_deinterleave. rewrite !deinterleave_half_spec by done.
  fold (block_at 31 (bf_bits f)) (block_at 30 (bf_bits f)).
  pose proof (hard_result 31 (bf_bits f) st Hok) as H1. destruct (bch_decode_block _ _ st) as [[e1 o1] st1]. destruct H1 as [Hok1 H1].
  pose proof (hard_result 30 (bf_bits f) st1 Hok1) as H2. destruct (bch_decode_block _ _ st1) as [[e2 o2] st2]. destruct H2 as [Hok2 H2].
  unfold decodable. destruct (bf_soft_bits f) as [soft|] eqn:Es.
  2:{ assert (Hn : forall n, (exists s, None = Some s /\ soft_near n s) <-> False) by (intros n; split; [by intros (s & [=] & _)|done]).
    cbn [v_e1 v_e2 v_hard1 v_hard2 v_chase]. rewrite !Hn, <- H1, <- H2. split; [exact Hok2|]. clear. lia_verdict. }
  destruct ((e1 <? 0) || (e2 <? 0)) eqn:E.
  - unfold iridium_deinterleave_int16. rewrite !deinterleave_half_spec by done. fold (block_at 31 soft) (block_at 30 soft).
    pose proof (retry_result 31 soft e1 st2 Hok2 (Hm soft Es)) as R1. destruct (chase_retry e1 _ _) as [[r1 c1] st3]. destruct R1 as (Hok3 & R1 & C1).
    pose proof (retry_result 30 soft e2 st3 Hok3 (Hm soft Es)) as R2. destruct (chase_retry e2 _ _) as [[r2 c2] st4]. destruct R2 as (Hok4 & R2 & C2).
    cbn [v_e1 v_e2 v_hard1 v_hard2 v_chase]. split; [exact Hok4|].
    assert (Hsome : forall n, (exists s, Some soft = Some s /\ soft_near n s) <-> soft_near n soft)
      by (intros n; split; [by intros (s & [= <-] & H)|intros H; by exists soft]).
    rewrite !Hsome. exact (two_blocks _ _ _ _ _ _ _ _ _ _ H1 R1 C1 H2 R2 C2).
  - apply orb_false_iff in E as [E1 E2]. apply Z.ltb_ge in E1, E2. cbn [v_e1 v_e2 v_hard1 v_hard2 v_chase]. rewrite <- H1, <- H2. split; [exact Hok2|]. clear -E1 E2. lia_verdict.
Qed.

(** ** Outcomes *)

(** What the classifier says of a frame that passed the gate. *)
Definition known (harder : bool) (f : band_frame) (syn : syn_state) : bool :=
  let fdir := if downlink f then IR_FRM_DIR_DOWNLINK else IR_FRM_DIR_UPLINK in
  let '(rc, c, _) := iridium_frame_classify (bf_bits f) (Z.to_nat (bf_n_bits f)) fdir harder frame_zero syn in
  (rc =? 0) && negb (bool_decide (fr_type c = IR_FRAME_UNKNOWN)).

(** Which counters move: the gate failed; it passed and the type is unknown;
    or known. *)
Definition outcome (harder : bool) (f : band_frame) (syn : syn_state) (v : verdict) (d : bch_funnel) (ship : bool) : Prop :=
  let gate := decodable 31 f /\ decodable 30 f in
  (~ gate /\ d = Funnel 0 0 1 0 /\ ship = false) \/
  (gate /\ 0 <= v_e1 v /\ 0 <= v_e2 v /\
   (v_chase v = true <-> ~ hard_near 31 (bf_bits f) \/ ~ hard_near 30 (bf_bits f)) /\
   ship = known harder f syn /\
   d = Funnel (b2c ship) (b2c (negb ship)) 0 (b2c (v_chase v))).

#[local] Opaque decode_blocks iridium_frame_classify hard_near soft_near.

Lemma emit_check_spec harder b f s :
  88 <= bf_n_bits f -> ra_ok (em_ra s) -> metrics_ok f ->
  let '(v, ship, s') := emit_check harder b f s in
  exists d, outcome harder f (em_syn s) v d ship /\ ra_ok (em_ra s') /\
    em_window s' = funnel_add (em_window s) d /\ em_cum s' = funnel_add (em_cum s) d /\
    em_pdus s' = em_pdus s /\ em_frames s' = em_frames s.
Proof.
  intros Hn Hok Hm. unfold emit_check, outcome, known. rewrite (proj2 (Z.ltb_ge _ _)) by lia.
  pose proof (decode_blocks_spec f (em_ra s) Hok Hm) as H. destruct (decode_blocks _ _ _) as [v ra].
  destruct H as (Hok' & G1 & G2 & A1 & A2 & C). destruct ((0 <=? v_e1 v) && (0 <=? v_e2 v)) eqn:E.
  - apply andb_prop in E as [E1 E2]. apply Z.leb_le in E1, E2.
    assert (Hc : v_chase v = true <-> ~ hard_near 31 (bf_bits f) \/ ~ hard_near 30 (bf_bits f))
      by (rewrite (C E1 E2), <- A1, <- A2; lia). cbn [em_codecs em_hists em_syn].
    destruct (iridium_frame_classify _ _ _ _ _ _) as [[rc c] syn]. destruct ((rc =? 0) && negb _).
    + exists (Funnel 1 0 0 (if v_chase v then 1 else 0)). split; [right; by rewrite <- G1, <- G2|done].
    + exists (Funnel 0 1 0 (if v_chase v then 1 else 0)). split; [right; by rewrite <- G1, <- G2|done].
  - exists (Funnel 0 0 1 0). split; [left|done]. split; [|done]. rewrite <- G1, <- G2. intros [D1 D2].
    apply Z.leb_le in D1, D2. by rewrite D1, D2 in E.
Qed.

(** C13: the gate.  A demodulated frame of at least 88 bits is counted exactly
    once, in the window and in the total: as failed unless both its blocks are
    within reach of the hard or - with soft metrics - the soft decoder, else as
    decoded or unknown as the classifier says, and as rescued besides when a
    block was out of the hard decoder's reach.  A worker queues a PDU of it
    exactly when it was counted as decoded; a standalone receiver hands it to
    the frame decoder whatever the verdict. *)
Theorem worker_emit_gate role harder ini now epoch src b f s :
  bf_demod_ok f = true -> 88 <= bf_n_bits f -> ra_ok (em_ra s) -> metrics_ok f ->
  let s' := worker_emit_frame role harder ini now epoch src b f s in
  exists v d ship, outcome harder f (em_syn s) v d ship /\ ra_ok (em_ra s') /\
    em_window s' = funnel_add (em_window s) d /\ em_cum s' = funnel_add (em_cum s) d /\
    match role with
    | ROLE_WORKER => em_frames s' = em_frames s /\
        em_pdus s' = if ship then (frame_pdu_queue_push (em_pdus s) (emit_pdu epoch src b f v)).1 else em_pdus s
    | ROLE_STANDALONE => em_pdus s' = em_pdus s /\
        em_frames s' = (frame_decoder_push ini now (em_frames s) (emit_args epoch b f)).1
    end.
Proof.
  intros Hd Hn Hok Hm. unfold worker_emit_frame. rewrite Hd. cbn [negb].
  pose proof (emit_check_spec harder b f s Hn Hok Hm) as H. destruct (emit_check harder b f s) as [[v ship] s1].
  destruct H as (d & Ho & Hok1 & Hw & Hc & Hp & Hf). exists v, d, ship. rewrite <- Hp, <- Hf.
  destruct role; [destruct ship|]; cbn [em_out em_ra em_window em_cum em_pdus em_frames]; by split_and!.
Qed.

(** ** The two sets of counters *)

(** Frames of either band, and the reader draining the window. *)
Inductive emit_event :=
  | Frame (role : device_role) (harder ini : bool) (now epoch src_id : Z) (b : detected_burst) (f : band_frame)
  | Vdl2Frame (role : device_role) (ini : bool) (now epoch : Z) (b : detected_burst) (f : band_frame)
  | GetStats.

(** The state and the windows read. *)
Definition emit_step (x : emitter * list bch_funnel) (ev : emit_event) : emitter * list bch_funnel :=
  let '(s, out) := x in
  match ev with
  | Frame role harder ini now epoch src_id b f => (worker_emit_frame role harder ini now epoch src_id b f s, out)
  | Vdl2Frame role ini now epoch b f => (worker_emit_frame_vdl2 role ini now epoch b f s, out)
  | GetStats => let '(w, s) := get_stats_funnel s in (s, out ++ [w])
  end.

Definition funnel_sum (l : list bch_funnel) : bch_funnel := fold_left funnel_add l funnel_zero.

Lemma u32_u32 z : u32 (u32 z) = u32 z.
Proof. unfold u32. by rewrite Z.mod_mod. Qed.

Lemma funnel_add_assoc a b c : funnel_add (funnel_add a b) c = funnel_add a (funnel_add b c).
Proof. unfold funnel_add. cbn. unfold u32. f_equal; rewrite Zplus_mod_idemp_l, Zplus_mod_idemp_r; f_equal; lia. Qed.

Lemma emit_frame_counts role harder ini now epoch src b f s :
  let s' := worker_emit_frame role harder ini now epoch src b f s in
  (em_window s' = em_window s /\ em_cum s' = em_cum s) \/
  exists d, em_window s' = funnel_add (em_window s) d /\ em_cum s' = funnel_add (em_cum s) d.
Proof.
  unfold worker_emit_frame. destruct (negb (bf_demod_ok f)); [by left|]. unfold emit_check.
  destruct (bf_n_bits f <? 24 + 64); [left; by destruct role|]. right. destruct (decode_blocks _ _ _) as [v ra].
  destruct (_ && _); [|exists (Funnel 0 0 1 0); by destruct role]. cbn [em_codecs em_hists em_syn].
  destruct (iridium_frame_classify _ _ _ _ _ _) as [[rc c] syn].
  destruct (_ && _); eexists; by destruct role.
Qed.

(** C1: no count is lost to the two readers.  After any sequence of frames and
    reads, the windows read so far, added up, and the present window make the
    running total, each counter modulo 2^32. *)
Theorem funnel_conserved evs s :
  em_window s = em_cum s ->
  let '(s', out) := fold_left emit_step evs (s, []) in
  funnel_add (funnel_sum out) (em_window s') = funnel_add funnel_zero (em_cum s').
Proof.
  intros H0. enough (forall x, funnel_add (funnel_sum x.2) (em_window x.1) = funnel_add funnel_zero (em_cum x.1) ->
    let '(s', out) := fold_left emit_step evs x in funnel_add (funnel_sum out) (em_window s') = funnel_add funnel_zero (em_cum s')) as Hx
    by (apply (Hx (s, [])); cbn; by rewrite H0).
  clear. induction evs as [|ev evs IH]; intros [s out] H; [exact H|]. cbn [fold_left]. apply IH. clear IH. cbn [fst snd] in H.
  destruct ev as [role harder ini now epoch src b f|role ini now epoch b f|]; cbn [emit_step fst snd].
  - destruct (emit_frame_counts role harder ini now epoch src b f s) as [[-> ->]|(d & -> & ->)]; [exact H|].
    by rewrite <- !funnel_add_assoc, H.
  - unfold worker_emit_frame_vdl2. destruct (negb (bf_demod_ok f)); [exact H|]. destruct role; exact H.
  - cbn [get_stats_funnel fst snd em_window em_cum]. unfold funnel_sum. rewrite fold_left_app. cbn [fold_left].
    fold (funnel_sum out). rewrite H. unfold funnel_add. cbn. by rewrite !Z.add_0_r, !u32_u32.
Qed.

(** ** A worker's frame and a standalone receiver's *)

Lemma digits2_bound m : Z.pos m < 2 ^ Z.pos (digits2_pos m).
Proof.
  induction m as [m IH|m IH|]; cbn [digits2_pos]; [| |done]; rewrite Pos2Z.inj_succ, Z.pow_succ_r by done;
    [rewrite Pos2Z.inj_xI|rewrite Pos2Z.inj_xO]; lia.
Qed.

Lemma float_bits_range f : valid_binary 24 128 f = true -> is_u 32 (float_bits f).
Proof.
  intros H. unfold is_u, float_bits. change (2 ^ 31) with 2147483648. change (2 ^ 32) with 4294967296.
  change (2 ^ 23) with 8388608. destruct f as [s|s| |s m e]; [by destruct s|by destruct s|done|].
  cbn [valid_binary] in H. unfold bounded, canonical_mantissa, fexp, emin in H. apply andb_prop in H as [Hc He].
  apply Z.eqb_eq in Hc. apply Z.leb_le in He. pose proof (digits2_bound m) as Hm.
  assert (Hd : Z.pos (digits2_pos m) <= 24) by lia.
  pose proof (Z.pow_le_mono_r 2 (Z.pos (digits2_pos m)) 24 ltac:(lia) Hd) as Hp. change (2 ^ 24) with 16777216 in Hp.
  destruct s, (Z.ltb_spec (Z.pos m) 8388608); lia.
Qed.

Lemma float_int_range f : is_s 32 (float_int f).
Proof. unfold float_int. destruct f as [s|s| |s m e]; [..|by apply sN_range]; unfold is_s; cbn; lia. Qed.

(** The burst of [FrameLink] that a worker's PDU carries. *)
Definition link_burst (epoch : Z) (b : detected_burst) (f : band_frame) (v : verdict) : burst :=
  FrameLink.Burst (capture_us epoch b) (float_int (rel_freq_hz b)) (float_bits (peak_snr_db b)) (peak_bin b)
    (downlink f) (v_e1 v) (v_e2 v) (v_chase v) (bf_bits f) (bf_n_bits f).

(** A push as it looks after the link: hard bits, 512 at most, no soft metrics,
    and the low half of the packed bin and width. *)
Definition over_link (a : push_args) : push_args :=
  let n := Z.min (pa_n_bits a) 512 in
  PushArgs (map bit (take (Z.to_nat n) (pa_bits a))) n None 0 (pa_downlink a) (pa_freq_hz a)
    (sN 16 (pa_peak_bin a)) (pa_snr_db a) (pa_timestamp_us a).

(** C21: worker and aggregator together do what a standalone receiver does.  The
    PDU a worker queues for a frame, encoded, decoded and unpacked by the
    aggregator, makes the push the standalone receiver would have made, less
    what the link does not carry. *)
Theorem worker_pdu_reaches_decoder ini now q epoch src b f v buf junk bits01 :
  is_u 32 src -> valid_binary 24 128 (peak_snr_db b) = true ->
  0 <= bf_n_bits f < 2 ^ 31 -> (Z.to_nat (bf_n_bits f) <= length (bf_bits f))%nat ->
  is_bytes buf -> (98 <= length buf)%nat -> length bits01 = 512%nat ->
  let '(wirebuf, n) := frame_link_encode (emit_pdu epoch src b f v) buf (Z.of_nat (length buf)) in
  let '(ok, pdu) := frame_link_decode wirebuf (Z.of_nat (length buf)) junk in
  n = 98 /\ ok = true /\
  frame_decoder_push ini now q (ingest_args (frame_pdu_unpack_bits pdu bits01) pdu) =
  frame_decoder_push ini now q (over_link (emit_args epoch b f)).
Proof.
  intros Hsrc Hsnr Hn Hl Hby Hlen H01. change (emit_pdu epoch src b f v) with (burst_pdu src (link_burst epoch b f v)).
  assert (Hb : burst_ok (link_burst epoch b f v)).
  { constructor; cbn [link_burst bu_cap_us bu_freq bu_snr bu_n bu_bits]; [unfold capture_us, u64, is_u; lia|apply float_int_range|by apply float_bits_range|lia|lia]. }
  destruct (burst_pdu_ok src _ Hsrc Hb) as [Hp En]. cbn [link_burst bu_n] in En.
  pose proof (encode_decode _ buf junk Hp Hby Hlen) as H. destruct (frame_link_encode _ _ _) as [wirebuf n]. destruct H as (-> & _ & ->).
  split; [reflexivity|]. split; [rewrite En; apply Z.leb_le; lia|].
  destruct (ingest_push ini now q src _ bits01 Hsrc Hb H01) as [_ ->]. f_equal. unfold burst_args, over_link, emit_args.
  cbn [link_burst bu_n bu_bits bu_downlink bu_peak_bin bu_snr bu_cap_us pa_bits pa_n_bits pa_downlink pa_freq_hz pa_peak_bin pa_snr_db pa_timestamp_us].
  by rewrite !(u32_small (bf_n_bits f)) by lia.
Qed.
End Emit.

(** ** Runs *)

Definition demo_queue (l : list iridium_frame_pdu) : @pdu_queue (nat * list iridium_frame_pdu) := PduQueue (Some (32%nat, l)) 0.
Definition demo_emitter : @emitter (nat * list iridium_frame_pdu) :=
  Emitter funnel_zero funnel_zero (replicate HIST_BCH_BINS 0) (replicate HIST_SNR_BINS 0) ra_start syn_init
    (demo_queue []) (ln_fq demo_link).
Definition demo_burst : detected_burst := sample_burst 2500000 20 34.

(** A ring-alert frame whose first two blocks are zero codewords. *)
Definition demo_frame (bits : list Z) (soft : option (list Z)) : band_frame := BandFrame bits (Z.of_nat (length bits)) soft 0 true.
Definition zero_payload : list Z := UW_DL ++ replicate 140 0.

Lemma worker_emit_gate_witness :
  let f := demo_frame zero_payload None in
  let s' := worker_emit_frame ROLE_WORKER false true 5 9 7 demo_burst f demo_emitter in
  em_cum s' = Funnel 1 0 0 0 /\ em_frames s' = em_frames demo_emitter /\ decodable 31 f /\ decodable 30 f /\ known false f syn_init = true.
Proof.
  intros f s'. assert (Ec : em_cum s' = Funnel 1 0 0 0) by (vm_compute; reflexivity).
  destruct (worker_emit_gate ROLE_WORKER false true 5 9 7 demo_burst f demo_emitter eq_refl
    ltac:(apply Z.leb_le; vm_compute; reflexivity) ra_start_ok ltac:(intros soft E; discriminate E)) as (v & d & ship & Ho & _ & _ & Hc & Hf & _).
  fold s' in Hc, Hf. split; [exact Ec|]. split; [exact Hf|]. rewrite Ec in Hc. change (em_cum demo_emitter) with funnel_zero in Hc.
  clear Ec. clearbody s'.
  destruct Ho as [(_ & -> & _)|([G1 G2] & _ & _ & _ & Hs & ->)]; [discriminate Hc|].
  split; [exact G1|]. split; [exact G2|]. change (em_syn demo_emitter) with syn_init in Hs. rewrite <- Hs.
  destruct ship; [reflexivity|]. discriminate Hc.
Defined.

(** A DA frame is not made of ring-alert codewords.  This one, received without
    an error but without soft metrics, is of known type; the worker counts it as
    failed and does not ship it. *)
Definition da_frame : list Z :=
  match ida_encode_da_frame 0 0 ([0x76; 8] ++ map Z.of_nat (seq 1 18)) 20 (replicate 382 0) with Some (_, b) => b | None => [] end.

Example clean_da_frame_not_shipped :
  let f := demo_frame da_frame None in
  let s' := worker_emit_frame ROLE_WORKER false true 5 9 7 demo_burst f demo_emitter in
  known false f syn_init = true /\ em_cum s' = Funnel 0 0 1 0 /\ em_pdus s' = em_pdus demo_emitter.
Proof. split; [|split]; vm_compute; reflexivity. Qed.

Lemma funnel_conserved_witness :
  let fr bits := Frame ROLE_WORKER false true 5 9 7 demo_burst (demo_frame bits None) in
  let '(s', out) := fold_left emit_step [fr zero_payload; GetStats; fr da_frame; fr zero_payload; GetStats; fr da_frame] (demo_emitter, []) in
  out = [Funnel 1 0 0 0; Funnel 1 0 1 0] /\ em_window s' = Funnel 0 0 1 0 /\ funnel_add funnel_zero (em_cum s') = Funnel 2 0 2 0.
Proof.
  intros fr. pose proof (funnel_conserved [fr zero_payload; GetStats; fr da_frame; fr zero_payload; GetStats; fr da_frame] demo_emitter eq_refl) as H.
  destruct (fold_left emit_step _ _) as [s' out] eqn:E.
  assert (Eo : out = [Funnel 1 0 0 0; Funnel 1 0 1 0]) by (change out with (s', out).2; rewrite <- E; vm_compute; reflexivity).
  assert (Ew : em_window s' = Funnel 0 0 1 0) by (change s' with (s', out).1; rewrite <- E; vm_compute; reflexivity).
  split; [exact Eo|]. split; [exact Ew|]. rewrite <- H, Eo, Ew. reflexivity.
Defined.

Lemma worker_pdu_reaches_decoder_witness :
  let f := demo_frame zero_payload (Some (replicate 164 200)) in
  let pdu := emit_pdu 9 7 demo_burst f (Verdict 0 0 0 0 false) in
  let '(wirebuf, _) := frame_link_encode pdu (replicate 128 0) 128 in
  let '(ok, got) := frame_link_decode wirebuf 128 pdu_zero in
  ok = true /\ frame_decoder_push true 5 (ln_fq demo_link) (ingest_args (frame_pdu_unpack_bits got (replicate 512 7)) got) =
    frame_decoder_push true 5 (ln_fq demo_link) (PushArgs zero_payload 164 None 0 true 0 700 0x41A00000 1000009).
Proof.
  intros f pdu. assert (Hl : Z.of_nat (length (replicate 128%nat 0)) = 128) by reflexivity.
  pose proof (worker_pdu_reaches_decoder true 5 (ln_fq demo_link) 9 7 demo_burst f (Verdict 0 0 0 0 false) (replicate 128 0) pdu_zero (replicate 512 7)
    ltac:(unfold is_u; lia) ltac:(vm_compute; reflexivity) ltac:(split; [apply Z.leb_le|apply Z.ltb_lt]; vm_compute; reflexivity)
    ltac:(apply Nat.leb_le; vm_compute; reflexivity) ltac:(apply zeros_bytes) ltac:(rewrite length_replicate; lia) ltac:(apply length_replicate)) as H.
  fold pdu in H. rewrite Hl in H. destruct (frame_link_encode pdu _ _) as [wirebuf n]. destruct (frame_link_decode wirebuf _ _) as [ok got].
  destruct H as (_ & -> & H). split; [reflexivity|]. rewrite H. reflexivity.
Defined.
