(* ===== verification/Broadcast.v ===== *)
(** Broadcast, ring-alert, messaging and time-location frames
    (src/common/iridium_decoder/ibc_decode.c, ira_decode.c, ims_decode.c,
    tl_decode.c).

    Each parser takes a classified frame, undoes the pair swap and the
    interleaving, repairs the codewords it needs and reads fixed fields.  The
    latitude, longitude and altitude that [ira_decode] derives from the position
    with the C library's [atan2] and [sqrt] are left out, and so are NULL
    arguments. *)

From S2P Require Import Prelude Gf2 Bits IridiumBch IridiumFrame IdaDecode IdaEncode.

(** [v = (v << 1) | (bits[start + i] & 1u)] *)
Definition pick_bits (bits : list Z) (start n : nat) : Z := packbits bits start n.

(** The swap loop over the first [n] bits, [n] even. *)
Definition swapped (p : list Z) (n : nat) : list Z := pair_swap (map bit (take n p)).

(** ** Ring alert *)

Definition RA_HEAD : nat := 96.

Record ira_decoded := IraDecoded {
  ira_bch_ok : bool; ira_sv_id : Z; ira_beam_id : Z; ira_pos_x : Z; ira_pos_y : Z; ira_pos_z : Z;
  ra_int : Z; ra_ts : Z; ra_eip : Z; ra_bc_sb : Z }.

Definition ira_zero : ira_decoded := IraDecoded false 0 0 0 0 0 0 0 0 0.

Definition sign_extend_12 (bits : list Z) (sign_idx mag_start mag_n : nat) : Z :=
  pick_bits bits mag_start mag_n - Z.shiftl (bit (rd bits sign_idx)) 11.

Definition ira_fields (hdr : list Z) : ira_decoded :=
  IraDecoded true (pick_bits hdr 0 7) (pick_bits hdr 7 6)
    (sign_extend_12 hdr 13 14 11) (sign_extend_12 hdr 25 26 11) (sign_extend_12 hdr 37 38 11)
    (pick_bits hdr 49 7) (pick_bits hdr 56 1) (pick_bits hdr 57 1) (pick_bits hdr 58 5).

Definition ira_decode (frame : iridium_frame) (st : syn_state) : Z * ira_decoded * syn_state :=
  if negb (bool_decide (fr_type frame = IR_FRAME_RA)) then (-1, ira_zero, st) else
  if (fr_n_bits frame <? UW_BITS + RA_HEAD)%nat then (-1, ira_zero, st) else
  let s := swapped (drop UW_BITS (fr_bits frame)) RA_HEAD in
  let '(cw1, cw2, cw3) := de_interleave3 s RA_HEAD in
  let '(e1, cw1, st) := iridium_bch_repair2 1207 cw1 31 st in
  let '(e2, cw2, st) := iridium_bch_repair2 1207 cw2 31 st in
  let '(e3, cw3, st) := iridium_bch_repair2 1207 cw3 31 st in
  if (e1 <? 0) || (e2 <? 0) || (e3 <? 0) then (0, ira_zero, st)
  else (0, ira_fields (take 21 cw1 ++ take 21 cw2 ++ take 21 cw3), st).

(** ** Broadcast *)

Definition IBC_HDR_BITS : nat := 6.
Definition IBC_BLOCK_BITS : nat := 64.
Definition IBC_N_BLOCKS : nat := 4.
Definition IBC_DATA_PER_BLK : nat := 42.
Definition IBC_BODY_BITS : nat := IBC_HDR_BITS + IBC_N_BLOCKS * IBC_BLOCK_BITS.
Definition IBC_HDR_POLY : Z := 29.
Definition IBC_BLK_POLY : Z := 1207.

Record ibc_decoded := IbcDecoded {
  ibc_header_ok : bool; bc_type : Z; block0_ok : bool; block1_ok : bool; n_blocks_ok : Z;
  ibc_sv_id : Z; ibc_beam_id : Z; ibc_slot : Z; sv_blocking : Z;
  block1_subtype : Z; iri_time : Z; tmsi_expiry : Z }.

(** [memset], and the subtype -1. *)
Definition ibc_zero : ibc_decoded := IbcDecoded false 0 false false 0 0 0 0 0 (-1) 0 0.

(** The count, [out_data] after the call. *)
Definition decode_ibc_block (in64 out_data : list Z) (st : syn_state) : Z * list Z * syn_state :=
  let '(odd, even) := de_interleave_pair in64 IBC_BLOCK_BITS in
  let '(e_odd, odd, st) := iridium_bch_repair2 IBC_BLK_POLY odd 31 st in
  let '(e_even, even, st) := iridium_bch_repair2 IBC_BLK_POLY even 31 st in
  if (e_odd <? 0) && (e_even <? 0) then (0, out_data, st) else
  let half e (cw : list Z) := if 0 <=? e then take 21 cw else replicate 21 0 in
  ((if 0 <=? e_odd then 1 else 0) + (if 0 <=? e_even then 1 else 0),
   half e_odd odd ++ half e_even even, st).

Definition ibc_count (out : ibc_decoded) : ibc_decoded :=
  IbcDecoded (ibc_header_ok out) (bc_type out) (block0_ok out) (block1_ok out) (n_blocks_ok out + 1)
    (ibc_sv_id out) (ibc_beam_id out) (ibc_slot out) (sv_blocking out) (block1_subtype out) (iri_time out) (tmsi_expiry out).
Definition ibc_block0 (b : list Z) (out : ibc_decoded) : ibc_decoded :=
  IbcDecoded (ibc_header_ok out) (bc_type out) true (block1_ok out) (n_blocks_ok out)
    (pick_bits b 0 7) (pick_bits b 7 6) (pick_bits b 14 1) (pick_bits b 15 1) (block1_subtype out) (iri_time out) (tmsi_expiry out).
Definition ibc_block1 (b : list Z) (out : ibc_decoded) : ibc_decoded :=
  let subtype := pick_bits b 0 6 in
  IbcDecoded (ibc_header_ok out) (bc_type out) (block0_ok out) true (n_blocks_ok out)
    (ibc_sv_id out) (ibc_beam_id out) (ibc_slot out) (sv_blocking out) subtype
    (if subtype =? 1 then pick_bits b 10 32 else iri_time out)
    (if subtype =? 1 then tmsi_expiry out else if subtype =? 2 then pick_bits b 10 32 else tmsi_expiry out).
Definition ibc_fail (blk : nat) (out : ibc_decoded) : ibc_decoded :=
  IbcDecoded (ibc_header_ok out) (bc_type out) (if (blk =? 0)%nat then false else block0_ok out)
    (if (blk =? 1)%nat then false else block1_ok out) (n_blocks_ok out)
    (ibc_sv_id out) (ibc_beam_id out) (ibc_slot out) (sv_blocking out) (block1_subtype out) (iri_time out) (tmsi_expiry out).

(** One round of the loop over the blocks: the result, [block_data], the
    cache. *)
Definition ibc_round (blocks : list Z) (blk : nat) (s : ibc_decoded * list Z * syn_state) : ibc_decoded * list Z * syn_state :=
  let '(out, block_data, st) := s in
  let '(n_ok, block_data, st) := decode_ibc_block (slice blocks (blk * IBC_BLOCK_BITS) IBC_BLOCK_BITS) block_data st in
  if negb (n_ok =? 2) then (ibc_fail blk out, block_data, st) else
  let out := ibc_count out in
  let out :=
    if (blk =? 0)%nat && (bc_type out =? 0) then ibc_block0 block_data out
    else if (blk =? 1)%nat && (bc_type out =? 0) then ibc_block1 block_data out else out in
  (out, block_data, st).

(** [block_data] is not initialised in C and is read only when written. *)
Definition ibc_decode (frame : iridium_frame) (st : syn_state) : Z * ibc_decoded * syn_state :=
  if negb (bool_decide (fr_type frame = IR_FRAME_BC)) then (-1, ibc_zero, st) else
  if (fr_n_bits frame <? UW_BITS + IBC_BODY_BITS)%nat then (-1, ibc_zero, st) else
  let p := swapped (drop UW_BITS (fr_bits frame)) IBC_BODY_BITS in
  let '(e_hdr, hdr, st) := iridium_bch_repair1 IBC_HDR_POLY (take IBC_HDR_BITS p) IBC_HDR_BITS st in
  if e_hdr <? 0 then (0, IbcDecoded false (-1) false false 0 0 0 0 0 (-1) 0 0, st) else
  let out := IbcDecoded true (pick_bits hdr 0 2) false false 0 0 0 0 0 (-1) 0 0 in
  let '(out, _, st) := forN IBC_N_BLOCKS (ibc_round (drop IBC_HDR_BITS p)) (out, replicate IBC_DATA_PER_BLK 0, st) in
  (0, out, st).

Definition ibc_iri_time_to_unix (iri_time : Z) : Z :=
  if iri_time =? 0 then 0 else u64 (1739556857 + u64 (iri_time * 90) / 1000).

(** ** Messaging *)

Definition MS_HDR_BITS : nat := 32.
Definition MS_BLOCK_BITS : nat := 64.
Definition MS_BLOCK_POLY : Z := 1897.

Record ims_decoded := ImsDecoded {
  ims_bch_ok : bool; ms_type : Z; ims_block : Z; ims_frame : Z; bch_blocks : Z; ims_group : Z }.
Definition ims_zero : ims_decoded := ImsDecoded false 0 0 0 0 0.

Definition ims_fields (b : list Z) : ims_decoded :=
  ImsDecoded true (pick_bits b 0 1) (pick_bits b 5 4) (pick_bits b 9 6) (pick_bits b 15 4)
    (if pick_bits b 0 1 =? 1 then -1 else pick_bits b 19 2).

Definition ims_decode (frame : iridium_frame) (st : syn_state) : Z * ims_decoded * syn_state :=
  if negb (bool_decide (fr_type frame = IR_FRAME_MS)) then (-1, ims_zero, st) else
  if (fr_n_bits frame <? UW_BITS + MS_HDR_BITS + MS_BLOCK_BITS)%nat then (-1, ims_zero, st) else
  let s := swapped (drop (UW_BITS + MS_HDR_BITS) (fr_bits frame)) MS_BLOCK_BITS in
  let '(odd, _) := de_interleave_pair s MS_BLOCK_BITS in
  let '(e_odd, odd, st) := iridium_bch_repair2 MS_BLOCK_POLY odd 31 st in
  if e_odd <? 0 then (0, ims_zero, st) else (0, ims_fields odd, st).

(** ** Time and location *)

Definition PRS_HDR : list (list Z) :=
  [replicate 16 0x00;
   [0xe7; 0xd1; 0x96; 0xe0; 0xbc; 0xac; 0x4d; 0xca; 0x95; 0xd8; 0x5d; 0x39; 0x4c; 0x3c; 0xcb; 0x4b];
   [0xe5; 0x4d; 0x94; 0xce; 0xa9; 0x59; 0x76; 0x83; 0xf8; 0xe8; 0x67; 0x08; 0xb8; 0xd2; 0x54; 0xcf]].
Definition MAP_PLANE_V1 : list (list Z) :=
  [[0x67; 0x4b; 0x6c; 0xb1; 0xb8; 0x52; 0x34; 0x1d; 0xc3; 0x51; 0x0b; 0xe6; 0xd3; 0xcc; 0x85; 0x6a;
    0xb5; 0xc0; 0xb6; 0xc6; 0x91; 0x3f; 0x62; 0x82; 0xb4; 0xc1; 0x6f; 0x1c; 0x72; 0x5e; 0x8a; 0xaf];
   [0xb8; 0xd2; 0x97; 0x9c; 0x0a; 0x45; 0xa7; 0xe8; 0x97; 0x23; 0xb0; 0x95; 0x74; 0xab; 0xae; 0x4d;
    0x1b; 0x33; 0xe9; 0x1b; 0x88; 0x46; 0xc7; 0x49; 0x5d; 0xf7; 0x2c; 0xe0; 0xae; 0xf4; 0xf4; 0x62];
   [0xeb; 0xae; 0xd8; 0x65; 0x72; 0x9c; 0xda; 0xb4; 0x79; 0xb0; 0xaa; 0x37; 0x1d; 0x68; 0x7b; 0x00;
    0xab; 0x1b; 0x10; 0x87; 0x3b; 0x10; 0x88; 0xb9; 0x4b; 0xae; 0x6d; 0xa2; 0x44; 0xfa; 0x8f; 0x1c];
   [0x04; 0xf4; 0x94; 0x92; 0x54; 0x1b; 0x4c; 0xd3; 0xe3; 0x94; 0xd1; 0x51; 0x6a; 0x9d; 0x9a; 0xba;
    0x27; 0x50; 0x75; 0x18; 0x76; 0xd1; 0xdc; 0xd9; 0x7c; 0x16; 0xda; 0xcd; 0x81; 0xca; 0x81; 0xbc];
   [0xa7; 0xed; 0x60; 0x9b; 0x6a; 0xfd; 0x47; 0xdd; 0x52; 0xde; 0xfd; 0x2b; 0xb0; 0x3d; 0x38; 0x95;
    0xfa; 0xe7; 0x0a; 0x32; 0x55; 0x0c; 0xee; 0x8e; 0x57; 0x65; 0x12; 0x3b; 0x33; 0x56; 0x56; 0xd3];
   [0x59; 0x91; 0x4d; 0x0f; 0xf9; 0x02; 0x9c; 0x5c; 0xba; 0xa8; 0xd5; 0xb6; 0x40; 0x97; 0x51; 0x5c;
    0x48; 0x59; 0x97; 0x78; 0xca; 0x58; 0xad; 0xb8; 0xbb; 0x2c; 0x20; 0x4e; 0x9f; 0x37; 0x3a; 0x50]].
Definition MAP_PLANE_V2 : list (list Z) :=
  [[0xe7; 0x14; 0xd3; 0x14; 0xfd; 0x1c; 0x1d; 0x36; 0xb0; 0xbd; 0x51; 0xa6; 0x60; 0xd4; 0xc9; 0x52;
    0xee; 0xca; 0x58; 0x4c; 0xdd; 0x78; 0x32; 0xd4; 0x17; 0x52; 0x9c; 0xa4; 0xea; 0x3d; 0x63; 0xa1];
   [0x9c; 0xb1; 0x36; 0xe9; 0x0f; 0xe7; 0xc2; 0xf7; 0x60; 0xa1; 0x23; 0xa3; 0x30; 0x0d; 0x96; 0x9d;
    0x45; 0x58; 0xd1; 0xa2; 0x8f; 0x36; 0x41; 0x4f; 0x8e; 0x6d; 0x63; 0x31; 0xd4; 0x6f; 0x4c; 0x27];
   [0xa9; 0x4f; 0x0e; 0x49; 0xe1; 0x33; 0x71; 0x64; 0xdb; 0x42; 0x0c; 0xc7; 0xae; 0x38; 0x26; 0xe2;
    0x34; 0x9a; 0x23; 0x79; 0xb2; 0x5b; 0xf5; 0x48; 0x11; 0xea; 0xc8; 0x7a; 0x2f; 0x8b; 0x1e; 0xcc];
   [0x8c; 0xb9; 0xc8; 0xd5; 0x2a; 0x2c; 0xad; 0x2e; 0x53; 0x6f; 0xc1; 0x14; 0x65; 0x36; 0xe0; 0x09;
    0x3b; 0x37; 0x2e; 0x83; 0xaa; 0x25; 0x80; 0x56; 0x1e; 0xb6; 0x6d; 0x23; 0xb3; 0xc0; 0xa2; 0x5e];
   [0x11; 0xd3; 0x17; 0x04; 0x97; 0xfb; 0x8c; 0x42; 0xca; 0x88; 0xde; 0xd8; 0x5f; 0xa7; 0x9f; 0x47;
    0xd0; 0x63; 0x4a; 0x57; 0x27; 0x23; 0xc8; 0x84; 0xf4; 0x0a; 0x2d; 0xea; 0x14; 0x90; 0xe4; 0xac];
   [0x42; 0x37; 0xb9; 0x4f; 0x14; 0x4e; 0x64; 0x38; 0x37; 0x78; 0x5d; 0x0e; 0x9c; 0xa9; 0x95; 0xf5;
    0x33; 0x68; 0xe0; 0x2b; 0x32; 0x8f; 0xa3; 0xc6; 0xfb; 0x43; 0xde; 0x96; 0xd0; 0xe6; 0xd1; 0x43]].

Definition TL_HEADER_BITS : nat := 96.
Definition TL_VERSION_I_BYTES : nat := 16.
Definition TL_PLANE_I_BYTES : nat := 32.

Record tl_decoded := TlDecoded { tl_version : Z; tl_plane : Z; tl_header_ok : Z }.

Definition swapped_bit (bits : list Z) (off : nat) : Z :=
  if Nat.odd off then bit (rd bits (off - 1)) else bit (rd bits (off + 1)).

Definition pack_i_bits (post_uw : list Z) (sym_off n : nat) : list Z :=
  map (fun k => forN 8 (fun j b => u8 (Z.lor (Z.shiftl b 1) (swapped_bit post_uw ((sym_off + k * 8 + j) * 2)))) 0) (seq 0 (n / 8)).

(** [for (v = 0; ...; v++) if (memcmp(bytes, table[v], ...) == 0) { ...; break; }], or -1. *)
Fixpoint match_row (bytes : list Z) (table : list (list Z)) (v : Z) : Z :=
  match table with
  | [] => -1
  | row :: table => if bool_decide (bytes = row) then v else match_row bytes table (v + 1)
  end.

Definition tl_decode (frame : iridium_frame) : tl_decoded :=
  if negb (bool_decide (fr_type frame = IR_FRAME_TL)) then TlDecoded (-1) (-1) 0 else
  let post_uw := drop (fr_payload_off frame) (fr_bits frame) in
  if (fr_n_bits frame <? fr_payload_off frame + TL_HEADER_BITS + (TL_VERSION_I_BYTES + TL_PLANE_I_BYTES) * 16)%nat
  then TlDecoded (-1) (-1) 0 else
  let body_sym_off := (TL_HEADER_BITS / 2)%nat in
  let version := match_row (pack_i_bits post_uw body_sym_off (TL_VERSION_I_BYTES * 8)) PRS_HDR 0 in
  if version <? 1 then TlDecoded version (-1) 1 else
  let plane_bytes := pack_i_bits post_uw (body_sym_off + TL_VERSION_I_BYTES * 8) (TL_PLANE_I_BYTES * 8) in
  let plane_table := if version =? 1 then MAP_PLANE_V1 else MAP_PLANE_V2 in
  TlDecoded version (match_row plane_bytes plane_table 0) 1.

Lemma odd_b2z b : Z.odd (Z.b2z b) = b.
Proof. by destruct b. Qed.

(** ** Codewords through the channel *)

(** The bits of the codeword at the swapped places [idx] that the payload
    errors [es] hit; the parity bit after it is not repaired. *)
Definition hits_at (n : nat) (idx es : list nat) : list nat :=
  List.filter (fun k => hit es (swap_idx (nth k idx 0%nat))) (seq 0 n).

Lemma hits_at_spec n idx es :
  NoDup (hits_at n idx es) /\ Forall (fun k => (k < n)%nat) (hits_at n idx es) /\
  forall k, hit (hits_at n idx es) k = (k <? n)%nat && hit es (swap_idx (nth k idx 0%nat)).
Proof.
  unfold hits_at. split; [|split].
  - apply NoDup_ListNoDup, List.NoDup_filter, seq_NoDup.
  - apply Forall_forall. intros k Hk. apply List.filter_In in Hk as [Hk _]. apply in_seq in Hk. lia.
  - intros k. apply Bool.eq_iff_eq_true. rewrite hit_In, List.filter_In, in_seq, andb_true_iff, Nat.ltb_lt.
    split; intros [? ?]; (split; [lia|done]).
Qed.

(** The payload whose swapped form holds [ws] at the places [idx]. *)
Definition place (n : nat) (idx : list nat) (ws : list Z) : list Z := pair_swap (scatter (replicate n 0) (zip idx ws)).

Lemma length_place n idx ws : length (place n idx ws) = n.
Proof. unfold place. by rewrite length_pair_swap, length_scatter, length_replicate. Qed.

(** [data] carries [ws] at the places [idx]. *)
Definition carries (data : list Z) (idx : list nat) (ws : list Z) : Prop :=
  length idx = length ws /\ Forall (fun i => (i < length data)%nat) idx /\ gather (pair_swap data) idx = ws.

Lemma place_carries n idx ws : List.NoDup idx -> length idx = length ws -> Forall (fun i => (i < n)%nat) idx -> is_bits ws ->
  carries (place n idx ws) idx ws.
Proof.
  intros Hnd Hl Hb Hw. split; [done|]. rewrite length_place. split; [done|]. unfold place. rewrite pair_swap_involutive.
  rewrite gather_scatter by (rewrite ?length_replicate; done). by apply is_bits_map_bit.
Qed.

Lemma carries_app data i1 i2 w1 w2 : length i1 = length w1 -> carries data (i1 ++ i2) (w1 ++ w2) ->
  carries data i1 w1 /\ carries data i2 w2.
Proof.
  intros Hl (H1 & H2 & H3). rewrite !length_app in H1. apply Forall_app in H2 as [H2 H2'].
  rewrite gather_app in H3. apply app_inj_1 in H3 as [E1 E2]; [|by rewrite length_gather].
  split; (split; [lia|split; done]).
Qed.

(** What is received at the places of a word. *)
Lemma received_word_at n data es tail idx ws k :
  length data = n -> Nat.even n = true -> NoDup es -> carries data idx ws -> (k < length ws)%nat ->
  rd (gather (swapped (flips es data ++ tail) n) idx) k =
  if hit es (swap_idx (nth k idx 0%nat)) then Z.lxor (rd ws k) 1 else rd ws k.
Proof.
  intros Hn He Hnd (Hl & Hb & <-) Hk. rewrite length_gather in Hk. rewrite !rd_gather by done. unfold swapped.
  rewrite take_app_length' by (by rewrite length_flips). set (i := nth k idx 0%nat).
  assert (Hi : (i < n)%nat) by (rewrite List.Forall_forall in Hb; rewrite <- Hn; apply Hb, nth_In, Hk).
  assert (Hs : (swap_idx i < n)%nat).
  { unfold swap_idx. destruct (Nat.even i) eqn:E; [|lia]. apply Nat.even_spec in E as [a ->], He as [m ->]. lia. }
  rewrite !rd_pair_swap by (rewrite ?length_map, ?length_flips, Hn; done).
  replace (rd (map bit (flips es data)) (swap_idx i)) with (bit (rd (flips es data) (swap_idx i)))
    by (symmetry; exact (map_nth bit (flips es data) 0 (swap_idx i))).
  rewrite rd_flips; [|done|rewrite Hn; exact Hs]. destruct (hit es (swap_idx i)); [|apply bit_bit, bit_01].
  rewrite !bit_odd, odd_b2z, odd_lxor_1. by destruct (Z.odd _).
Qed.

Lemma ndivide_app poly a b n : (n <= length a)%nat -> iridium_bch_ndivide poly (a ++ b) n = iridium_bch_ndivide poly a n.
Proof.
  intros Hn. assert (E : bits_to_u32 (a ++ b) n = bits_to_u32 a n); [|unfold iridium_bch_ndivide; by rewrite E].
  apply forN_ext. intros i v Hi. unfold rd. rewrite app_nth1; [done|]. destruct (Nat.ltb_spec 32 n); lia.
Qed.

(** The word received at the places of a codeword with its parity bit. *)
Lemma received_codeword_at n data es tail idx cw p :
  length data = n -> Nat.even n = true -> NoDup es -> length cw = 31%nat -> carries data idx (cw ++ [p]) ->
  exists q, gather (swapped (flips es data ++ tail) n) idx = flips (hits_at 31 idx es) (cw ++ [q]).
Proof.
  intros Hn He Hnd Hc Hd. set (W := gather _ _). assert (Hl : length W = 32%nat).
  { unfold W. rewrite length_gather. destruct Hd as (-> & _ & _). rewrite length_app, Hc. reflexivity. }
  destruct (hits_at_spec 31 idx es) as (H1 & H2 & H3). exists (rd W 31).
  apply rd_ext; [rewrite length_flips, length_app, Hc; exact Hl|]. rewrite Hl. intros k Hk.
  rewrite rd_flips, H3 by (rewrite ?length_app, ?Hc; cbn [length]; done || lia).
  destruct (Nat.ltb_spec k 31) as [Hlt|Hge]; cbn [andb].
  - unfold W. rewrite (received_word_at n data es tail idx (cw ++ [p])) by (rewrite ?length_app, ?Hc; cbn [length]; done || lia).
    unfold rd. by rewrite !(app_nth1 cw) by lia.
  - replace k with 31%nat by lia. unfold rd at 2. rewrite app_nth2 by lia. by rewrite Hc.
Qed.

Lemma repair_sent poly n data es tail idx cw p st :
  In (poly, 31%nat) codes2 -> length data = n -> Nat.even n = true -> NoDup es -> carries data idx (cw ++ [p]) ->
  length cw = 31%nat -> iridium_bch_ndivide poly cw 31 = 0 -> (length (hits_at 31 idx es) <= 2)%nat -> syn_ok st ->
  exists e w st', iridium_bch_repair2 poly (gather (swapped (flips es data ++ tail) n) idx) 31 st = (e, w, st') /\
    0 <= e /\ syn_ok st' /\ take 21 w = take 21 cw.
Proof.
  intros Hin Hn He Hnd Hd Hc Hz Hh Hok. destruct (received_codeword_at n data es tail idx cw p Hn He Hnd Hc Hd) as [q ->].
  destruct (hits_at_spec 31 idx es) as (H1 & H2 & _).
  destruct (repair2_codes poly 31 (cw ++ [q]) (hits_at 31 idx es) st Hok Hin) as [E Hok'];
    [rewrite length_app; lia|by rewrite ndivide_app by lia|done|done|done|].
  destruct (iridium_bch_repair2 _ _ _ _) as [[e w] st']. injection E as -> ->.
  exists (Z.of_nat (length (hits_at 31 idx es))), (cw ++ [q]), st'. split_and!; [done|lia|done|]. by rewrite take_app_le by lia.
Qed.

(** A systematic codeword of 21 data bits. *)
Lemma encode21 poly data : degree poly 10 -> length data = 21%nat -> is_bits data ->
  let cw := bch_encode_block poly data 21 in
  length cw = 31%nat /\ is_bits cw /\ iridium_bch_ndivide poly cw 31 = 0 /\ take 21 cw = data.
Proof.
  intros Hd Hl Hb. destruct (bch_encode_block_ok poly 10 data 21 Hd ltac:(lia) ltac:(lia)) as (H1 & H2 & H3 & H4).
  split_and!; [exact H1|exact H2|exact H4|]. rewrite H3, <- Hl. by apply gather_all.
Qed.

(** ** Ring alert: the round trip *)

Definition ra_idx : list nat * list nat * list nat :=
  (symbol_idx (down_by 3 47), symbol_idx (down_by 3 46), symbol_idx (down_by 3 45)).

Lemma de_interleave3_gather l : de_interleave3 l 96 = (gather l ra_idx.1.1, gather l ra_idx.1.2, gather l ra_idx.2).
Proof. unfold de_interleave3. by rewrite !take_symbols_gather. Qed.

Definition signed_field (v : Z) : list Z := Z.b2z (v <? 0) :: unpack 11 (v mod 2048).

(** The 63 header bits. *)
Definition ira_header (f : ira_decoded) : list Z :=
  unpack 7 (ira_sv_id f) ++ unpack 6 (ira_beam_id f) ++ signed_field (ira_pos_x f) ++ signed_field (ira_pos_y f) ++
  signed_field (ira_pos_z f) ++ unpack 7 (ra_int f) ++ unpack 1 (ra_ts f) ++ unpack 1 (ra_eip f) ++ unpack 5 (ra_bc_sb f).

(** The 96 payload bits as demodulated: three codewords, each with a parity
    bit, interleaved by symbols. *)
Definition ira_payload (f : ira_decoded) (p1 p2 p3 : Z) : list Z :=
  let h := ira_header f in
  place 96 (ra_idx.1.1 ++ ra_idx.1.2 ++ ra_idx.2)
    ((bch_encode_block 1207 (slice h 0 21) 21 ++ [p1]) ++ (bch_encode_block 1207 (slice h 21 21) 21 ++ [p2]) ++
     (bch_encode_block 1207 (slice h 42 21) 21 ++ [p3])).

Record ira_ok (f : ira_decoded) : Prop := {
  io_ok : ira_bch_ok f = true; io_sv : 0 <= ira_sv_id f < 128; io_beam : 0 <= ira_beam_id f < 64;
  io_x : -2048 <= ira_pos_x f < 2048; io_y : -2048 <= ira_pos_y f < 2048; io_z : -2048 <= ira_pos_z f < 2048;
  io_int : 0 <= ra_int f < 128; io_ts : 0 <= ra_ts f < 2; io_eip : 0 <= ra_eip f < 2; io_sb : 0 <= ra_bc_sb f < 32 }.

Lemma pick_at h pre n v post : h = pre ++ unpack n v ++ post -> (n <= 32)%nat -> 0 <= v < 2 ^ Z.of_nat n -> pick_bits h (length pre) n = v.
Proof. intros -> Hn Hv. by apply packbits_unpack. Qed.

Lemma length_signed_field v : length (signed_field v) = 12%nat.
Proof. done. Qed.

Lemma signed_field_bits v : is_bits (signed_field v).
Proof. constructor; [destruct (v <? 0); cbn; lia|apply unpack_bits]. Qed.

Lemma signed_at h pre v post : h = pre ++ signed_field v ++ post -> -2048 <= v < 2048 ->
  sign_extend_12 h (length pre) (S (length pre)) 11 = v.
Proof.
  intros E Hv. unfold sign_extend_12.
  assert (El : S (length pre) = length (pre ++ [Z.b2z (v <? 0)])) by (rewrite length_app; cbn; lia).
  rewrite El. rewrite (pick_at h _ 11 (v mod 2048) post); [|by rewrite E, <- app_assoc|lia|cbn; lia].
  assert (Er : rd h (length pre) = Z.b2z (v <? 0)) by (rewrite E; unfold rd; rewrite app_nth2, Nat.sub_diag by lia; done).
  rewrite Er. destruct (Z.ltb_spec v 0); cbn [Z.b2z]; [change (Z.shiftl (bit 1) 11) with 2048|change (Z.shiftl (bit 0) 11) with 0]; lia.
Qed.

Lemma ira_header_fields f : ira_ok f -> length (ira_header f) = 63%nat /\ is_bits (ira_header f) /\ ira_fields (ira_header f) = f.
Proof.
  intros H. split; [reflexivity|]. split.
  { unfold ira_header. repeat (apply Forall_app; split); first [apply unpack_bits | apply signed_field_bits]. }
  destruct f as [ok sv beam x y z i ts eip sb]. destruct H as [Hok Hsv Hbeam Hx Hy Hz Hi Hts Heip Hsb].
  cbn [ira_bch_ok ira_sv_id ira_beam_id ira_pos_x ira_pos_y ira_pos_z ra_int ra_ts ra_eip ra_bc_sb] in *. subst ok.
  set (h := ira_header _). unfold ira_header in h. cbn [ira_sv_id ira_beam_id ira_pos_x ira_pos_y ira_pos_z ra_int ra_ts ra_eip ra_bc_sb] in h.
  unfold ira_fields. f_equal.
  - exact (pick_at h [] 7 sv _ eq_refl ltac:(lia) Hsv).
  - exact (pick_at h (unpack 7 sv) 6 beam _ eq_refl ltac:(lia) Hbeam).
  - exact (signed_at h (unpack 7 sv ++ unpack 6 beam) x _ eq_refl Hx).
  - exact (signed_at h (unpack 7 sv ++ unpack 6 beam ++ signed_field x) y _ eq_refl Hy).
  - exact (signed_at h (unpack 7 sv ++ unpack 6 beam ++ signed_field x ++ signed_field y) z _ eq_refl Hz).
  - exact (pick_at h (unpack 7 sv ++ unpack 6 beam ++ signed_field x ++ signed_field y ++ signed_field z) 7 i _ eq_refl ltac:(lia) Hi).
  - exact (pick_at h (unpack 7 sv ++ unpack 6 beam ++ signed_field x ++ signed_field y ++ signed_field z ++ unpack 7 i) 1 ts _ eq_refl ltac:(lia) Hts).
  - exact (pick_at h (unpack 7 sv ++ unpack 6 beam ++ signed_field x ++ signed_field y ++ signed_field z ++ unpack 7 i ++ unpack 1 ts) 1 eip _ eq_refl ltac:(lia) Heip).
  - exact (pick_at h (unpack 7 sv ++ unpack 6 beam ++ signed_field x ++ signed_field y ++ signed_field z ++ unpack 7 i ++ unpack 1 ts ++ unpack 1 eip) 5 sb [] eq_refl ltac:(lia) Hsb).
Qed.

Lemma ringalert_degree : degree 1207 10.
Proof. unfold degree. cbn. lia. Qed.

Lemma messaging_degree : degree 1897 10.
Proof. unfold degree. cbn. lia. Qed.

Lemma slice_length_bits (h : list Z) o n : is_bits h -> (o + n <= length h)%nat -> length (slice h o n) = n /\ is_bits (slice h o n).
Proof. intros Hb Hl. split; [by apply length_slice|]. by apply Forall_take, Forall_drop. Qed.

Lemma slices3 (h : list Z) : length h = 63%nat -> slice h 0 21 ++ slice h 21 21 ++ slice h 42 21 = h.
Proof.
  intros Hl. unfold slice. rewrite drop_0, (take_ge (drop 42 h)) by (rewrite length_drop; lia).
  replace (drop 42 h) with (drop 21 (drop 21 h)) by (by rewrite drop_drop). by rewrite !take_drop.
Qed.

Lemma ra_idx_facts : let idx := ra_idx.1.1 ++ ra_idx.1.2 ++ ra_idx.2 in
  List.NoDup idx /\ length ra_idx.1.1 = 32%nat /\ length ra_idx.1.2 = 32%nat /\ length ra_idx.2 = 32%nat /\ Forall (fun i => (i < 96)%nat) idx.
Proof. cbv zeta. split; [apply NoDup_ListNoDup|split_and!]; apply (bool_decide_unpack _); vm_compute; reflexivity. Qed.

Lemma ira_payload_carries f p1 p2 p3 : is_bits [p1; p2; p3] ->
  let h := ira_header f in let data := ira_payload f p1 p2 p3 in
  carries data ra_idx.1.1 (bch_encode_block 1207 (slice h 0 21) 21 ++ [p1]) /\
  carries data ra_idx.1.2 (bch_encode_block 1207 (slice h 21 21) 21 ++ [p2]) /\
  carries data ra_idx.2 (bch_encode_block 1207 (slice h 42 21) 21 ++ [p3]).
Proof.
  intros Hp h data. assert (Hb : is_bits h)
    by (unfold h, ira_header; repeat (apply Forall_app; split); first [apply unpack_bits | apply signed_field_bits]).
  assert (Hl : length h = 63%nat) by reflexivity.
  destruct ra_idx_facts as (Hnd & L1 & L2 & L3 & Hi).
  assert (Hw : forall o p, (o + 21 <= 63)%nat -> p = 0 \/ p = 1 -> let w := bch_encode_block 1207 (slice h o 21) 21 ++ [p] in
    length w = 32%nat /\ is_bits w).
  { intros o p Ho Hbp. destruct (slice_length_bits h o 21 Hb ltac:(lia)) as [Hs1 Hs2].
    destruct (encode21 1207 (slice h o 21) ringalert_degree Hs1 Hs2) as (E1 & E2 & _). cbv zeta. split; [rewrite length_app, E1; reflexivity|].
    apply Forall_app. split; [exact E2|apply Forall_cons; [exact Hbp|apply Forall_nil]]. }
  inversion Hp as [|? ? P1 Hp1]; subst. inversion Hp1 as [|? ? P2 Hp2]; subst. inversion Hp2 as [|? ? P3 _]; subst.
  destruct (Hw 0%nat p1 ltac:(lia) P1) as [W1 B1]. destruct (Hw 21%nat p2 ltac:(lia) P2) as [W2 B2]. destruct (Hw 42%nat p3 ltac:(lia) P3) as [W3 B3].
  assert (Hc : carries data (ra_idx.1.1 ++ ra_idx.1.2 ++ ra_idx.2)
    ((bch_encode_block 1207 (slice h 0 21) 21 ++ [p1]) ++ (bch_encode_block 1207 (slice h 21 21) 21 ++ [p2]) ++
     (bch_encode_block 1207 (slice h 42 21) 21 ++ [p3]))).
  { apply place_carries; [exact Hnd|by rewrite (length_app ra_idx.1.1), (length_app ra_idx.1.2), L1, L2, L3, (length_app (bch_encode_block _ _ _ ++ [p1])), (length_app (bch_encode_block _ _ _ ++ [p2])), W1, W2, W3|exact Hi|].
    apply Forall_app. split; [exact B1|]. apply Forall_app. by split. }
  apply carries_app in Hc as [C1 Hc]; [|by rewrite L1, W1]. apply carries_app in Hc as [C2 C3]; [|by rewrite L2, W2]. done.
Qed.

(** C27: a ring alert survives the channel.  Whatever the header fields within
    their widths, the frame that carries them - three ring-alert codewords,
    interleaved and swapped - decodes to exactly those fields if at most two bits
    of each codeword are wrong; the parity bits do not matter. *)
Theorem ira_round_trip f p1 p2 p3 es uw tail dir sub off n st :
  ira_ok f -> is_bits [p1; p2; p3] -> syn_ok st -> length uw = 24%nat -> (120 <= n)%nat -> NoDup es ->
  (length (hits_at 31 ra_idx.1.1 es) <= 2)%nat -> (length (hits_at 31 ra_idx.1.2 es) <= 2)%nat -> (length (hits_at 31 ra_idx.2 es) <= 2)%nat ->
  exists st', syn_ok st' /\
    ira_decode (IridiumFrame IR_FRAME_RA dir sub off (uw ++ flips es (ira_payload f p1 p2 p3) ++ tail) n) st = (0, f, st').
Proof.
  intros Hf Hp Hok Huw Hn Hnd H1 H2 H3. destruct (ira_header_fields f Hf) as (Hl & Hb & Ef). set (h := ira_header f) in *.
  destruct (ira_payload_carries f p1 p2 p3 Hp) as (C1 & C2 & C3). fold h in C1, C2, C3. set (data := ira_payload f p1 p2 p3) in *.
  assert (Hd : length data = 96%nat) by apply length_place.
  assert (Hin : In (1207, 31%nat) codes2) by (right; left; reflexivity).
  assert (Hs : forall o, (o + 21 <= 63)%nat -> length (bch_encode_block 1207 (slice h o 21) 21) = 31%nat /\
    iridium_bch_ndivide 1207 (bch_encode_block 1207 (slice h o 21) 21) 31 = 0 /\ take 21 (bch_encode_block 1207 (slice h o 21) 21) = slice h o 21).
  { intros o Ho. destruct (slice_length_bits h o 21 Hb ltac:(lia)) as [Hs1 Hs2].
    destruct (encode21 1207 (slice h o 21) ringalert_degree Hs1 Hs2) as (? & _ & ? & ?). split_and!; assumption. }
  destruct (Hs 0%nat ltac:(lia)) as (L1 & Z1 & T1). destruct (Hs 21%nat ltac:(lia)) as (L2 & Z2 & T2). destruct (Hs 42%nat ltac:(lia)) as (L3 & Z3 & T3).
  unfold ira_decode. cbn [fr_type fr_n_bits fr_bits]. rewrite bool_decide_eq_true_2 by done. cbn [negb]. unfold UW_BITS, RA_HEAD.
  rewrite (proj2 (Nat.ltb_ge _ _)) by lia. rewrite drop_app_length' by done. rewrite de_interleave3_gather.
  destruct (repair_sent 1207 96 data es tail ra_idx.1.1 _ p1 st Hin Hd eq_refl Hnd C1 L1 Z1 H1 Hok) as (e1 & w1 & st1 & -> & P1 & Hok1 & W1).
  destruct (repair_sent 1207 96 data es tail ra_idx.1.2 _ p2 st1 Hin Hd eq_refl Hnd C2 L2 Z2 H2 Hok1) as (e2 & w2 & st2 & -> & P2 & Hok2 & W2).
  destruct (repair_sent 1207 96 data es tail ra_idx.2 _ p3 st2 Hin Hd eq_refl Hnd C3 L3 Z3 H3 Hok2) as (e3 & w3 & st3 & -> & P3 & Hok3 & W3).
  rewrite (proj2 (Z.ltb_ge e1 0)), (proj2 (Z.ltb_ge e2 0)), (proj2 (Z.ltb_ge e3 0)) by done. cbn [orb].
  exists st3. split; [exact Hok3|]. rewrite W1, W2, W3, T1, T2, T3, slices3 by exact Hl. by rewrite Ef.
Qed.

(** ** Broadcast: the round trip *)

Lemma received_short n data es tail idx ws :
  length data = n -> Nat.even n = true -> NoDup es -> carries data idx ws ->
  gather (swapped (flips es data ++ tail) n) idx = flips (hits_at (length ws) idx es) ws.
Proof.
  intros Hn He Hnd Hd. assert (Hl : length idx = length ws) by apply Hd. destruct (hits_at_spec (length ws) idx es) as (H1 & H2 & H3).
  apply rd_ext; [by rewrite length_flips, length_gather|]. rewrite length_gather, Hl. intros k Hk.
  rewrite rd_flips, H3, (proj2 (Nat.ltb_lt _ _)) by done. cbn [andb]. by apply received_word_at.
Qed.

Lemma swapped_bits p n : is_bits (swapped p n).
Proof. apply pair_swap_bits, List.Forall_map, List.Forall_forall. intros x _. apply bit_01. Qed.

Lemma length_swapped p n : (n <= length p)%nat -> length (swapped p n) = n.
Proof. intros H. unfold swapped. by rewrite length_pair_swap, length_map, length_take_le. Qed.

Lemma take_gather p n : is_bits p -> (n <= length p)%nat -> take n p = gather p (seq 0 n).
Proof.
  intros Hb Hl. transitivity (gather (take n p) (seq 0 (length (take n p)))); [symmetry; apply gather_all, Forall_take, Hb|].
  rewrite length_take_le by done. apply map_ext_in. intros i [_ Hi]%in_seq. unfold rd. by rewrite !nth_lookup, lookup_take_lt.
Qed.

Lemma gather_slice_at (l : list Z) o n idx : Forall (fun i => (i < n)%nat) idx -> (o + n <= length l)%nat ->
  gather (slice l o n) idx = gather l (map (Nat.add o) idx).
Proof.
  intros Hb Hl. unfold gather. rewrite map_map. apply map_ext_in. intros i Hi. rewrite List.Forall_forall in Hb.
  by rewrite rd_slice by (by apply Hb).
Qed.

Definition pair_idx : list nat * list nat := (symbol_idx (down_by 2 31), symbol_idx (down_by 2 30)).

Lemma pair_gather l : de_interleave_pair l 64 = (gather l pair_idx.1, gather l pair_idx.2).
Proof. unfold de_interleave_pair. by rewrite !take_symbols_gather. Qed.

(** Where the two words of block [b] are in the body. *)
Definition block_idx (b : nat) : list nat * list nat :=
  (map (Nat.add (6 + b * 64)) pair_idx.1, map (Nat.add (6 + b * 64)) pair_idx.2).

(** The body's places: the header, then the words block by block. *)
Definition ibc_idx : list nat := seq 0 6 ++ flat_map (fun b => (block_idx b).1 ++ (block_idx b).2) (seq 0 4).

Lemma ibc_idx_facts : List.NoDup ibc_idx /\ Forall (fun i => (i < 262)%nat) ibc_idx /\
  Forall (fun i => (i < 64)%nat) (pair_idx.1 ++ pair_idx.2) /\ length pair_idx.1 = 32%nat /\ length pair_idx.2 = 32%nat.
Proof. split; [apply NoDup_ListNoDup|split_and!]; apply (bool_decide_unpack _); vm_compute; reflexivity. Qed.

(** The two words of a block of 42 data bits, with parity bits. *)
Definition block_words (d : list Z) (p : Z * Z) : list Z :=
  (bch_encode_block 1207 (take 21 d) 21 ++ [p.1]) ++ (bch_encode_block 1207 (drop 21 d) 21 ++ [p.2]).

Definition ibc_header (t : Z) : list Z := bch_encode_block 29 (unpack 2 t) 2.

Definition ibc_body (t : Z) (ds : list (list Z)) (ps : list (Z * Z)) : list Z :=
  place 262 ibc_idx (ibc_header t ++ concat (zip_with block_words ds ps)).

(** At most one wrong bit in the header and two in each word. *)
Definition ibc_errors_ok (es : list nat) : Prop :=
  (length (hits_at 6 (seq 0 6) es) <= 1)%nat /\
  forall b, (b < 4)%nat -> (length (hits_at 31 (block_idx b).1 es) <= 2)%nat /\ (length (hits_at 31 (block_idx b).2 es) <= 2)%nat.

Definition block_ok (d : list Z) (p : Z * Z) : Prop := length d = 42%nat /\ is_bits d /\ is_bits [p.1; p.2].

Lemma block_words_spec d p : block_ok d p ->
  let w1 := bch_encode_block 1207 (take 21 d) 21 in let w2 := bch_encode_block 1207 (drop 21 d) 21 in
  length w1 = 31%nat /\ length w2 = 31%nat /\ iridium_bch_ndivide 1207 w1 31 = 0 /\ iridium_bch_ndivide 1207 w2 31 = 0 /\
  take 21 w1 ++ take 21 w2 = d /\ length (block_words d p) = 64%nat /\ is_bits (block_words d p).
Proof.
  intros (Hl & Hb & Hp) w1 w2. inversion Hp as [|? ? P1 Hp1]; subst. inversion Hp1 as [|? ? P2 _]; subst.
  destruct (encode21 1207 (take 21 d) ringalert_degree) as (L1 & B1 & Z1 & T1); [rewrite length_take; lia|by apply Forall_take|].
  destruct (encode21 1207 (drop 21 d) ringalert_degree) as (L2 & B2 & Z2 & T2); [rewrite length_drop; lia|by apply Forall_drop|].
  fold w1 in L1, B1, Z1, T1. fold w2 in L2, B2, Z2, T2. rewrite T1, T2, take_drop. unfold block_words. fold w1 w2.
  split; [exact L1|]. split; [exact L2|]. split; [exact Z1|]. split; [exact Z2|]. split; [reflexivity|].
  split; [rewrite !length_app, L1, L2; reflexivity|].
  apply Forall_app; split; apply Forall_app; split; [exact B1| |exact B2|].
  - constructor; [exact P1|constructor].
  - constructor; [exact P2|constructor].
Qed.

(** One block of the body, whatever the word cache. *)
Lemma decode_block_sent data es tail b d p bd st :
  length data = 262%nat -> NoDup es -> (b < 4)%nat -> block_ok d p -> ibc_errors_ok es ->
  carries data ((block_idx b).1 ++ (block_idx b).2) (block_words d p) -> syn_ok st ->
  exists st', syn_ok st' /\
    decode_ibc_block (slice (drop 6 (swapped (flips es data ++ tail) 262)) (b * 64) 64) bd st = (2, d, st').
Proof.
  intros Hn Hnd Hb Hd [_ He] Hc Hok. destruct (He b Hb) as [E1 E2]. destruct ibc_idx_facts as (_ & _ & Hp & L1 & L2). apply Forall_app in Hp as [Hp1 Hp2].
  destruct (block_words_spec d p Hd) as (W1 & W2 & Z1 & Z2 & Ed & _ & _). unfold block_words in Hc.
  apply carries_app in Hc as [C1 C2]; [|unfold block_idx; cbn [fst]; rewrite length_map, L1, length_app, W1; reflexivity].
  assert (Hls : length (swapped (flips es data ++ tail) 262) = 262%nat) by (apply length_swapped; rewrite length_app, length_flips; lia).
  unfold decode_ibc_block, IBC_BLOCK_BITS. rewrite pair_gather.
  replace (slice (drop 6 (swapped (flips es data ++ tail) 262)) (b * 64) 64) with (slice (swapped (flips es data ++ tail) 262) (6 + b * 64) 64)
    by (unfold slice; by rewrite drop_drop).
  rewrite !gather_slice_at by (done || lia). fold (block_idx b).1 (block_idx b).2.
  change (map (Nat.add (6 + b * 64)) pair_idx.1) with (block_idx b).1. change (map (Nat.add (6 + b * 64)) pair_idx.2) with (block_idx b).2.
  assert (Hin : In (1207, 31%nat) codes2) by (right; left; reflexivity). unfold IBC_BLK_POLY.
  destruct (repair_sent 1207 262 data es tail (block_idx b).1 _ p.1 st Hin Hn eq_refl Hnd C1 W1 Z1 E1 Hok) as (e1 & w1 & st1 & -> & P1 & Hok1 & T1).
  destruct (repair_sent 1207 262 data es tail (block_idx b).2 _ p.2 st1 Hin Hn eq_refl Hnd C2 W2 Z2 E2 Hok1) as (e2 & w2 & st2 & -> & P2 & Hok2 & T2).
  rewrite (proj2 (Z.ltb_ge e1 0)), (proj2 (Z.leb_le 0 e1)), (proj2 (Z.leb_le 0 e2)) by done. cbn [andb].
  exists st2. split; [exact Hok2|]. by rewrite T1, T2, Ed.
Qed.

Lemma round_sent data es tail b d p out bd st :
  length data = 262%nat -> NoDup es -> (b < 4)%nat -> block_ok d p -> ibc_errors_ok es ->
  carries data ((block_idx b).1 ++ (block_idx b).2) (block_words d p) -> syn_ok st ->
  exists st', syn_ok st' /\
    ibc_round (drop 6 (swapped (flips es data ++ tail) 262)) b (out, bd, st) =
    (let out := ibc_count out in
     if (b =? 0)%nat && (bc_type out =? 0) then ibc_block0 d out
     else if (b =? 1)%nat && (bc_type out =? 0) then ibc_block1 d out else out, d, st').
Proof.
  intros Hn Hnd Hb Hd He Hc Hok. destruct (decode_block_sent data es tail b d p bd st Hn Hnd Hb Hd He Hc Hok) as (st' & Hok' & E).
  exists st'. split; [exact Hok'|]. unfold ibc_round, IBC_BLOCK_BITS. by rewrite E.
Qed.

Lemma header_word_spec t : 0 <= t < 4 ->
  length (ibc_header t) = 6%nat /\ is_bits (ibc_header t) /\ iridium_bch_ndivide 29 (ibc_header t) 6 = 0 /\ pick_bits (ibc_header t) 0 2 = t.
Proof.
  intros Ht. destruct (bch_encode_block_ok 29 4 (unpack 2 t) 2) as (H1 & H2 & _ & H4); [unfold degree; cbn; lia|lia|lia|].
  split; [exact H1|]. split; [exact H2|]. split; [exact H4|].
  assert (H : t = 0 \/ t = 1 \/ t = 2 \/ t = 3) by lia. destruct H as [->|[->|[->| ->]]]; vm_compute; reflexivity.
Qed.

Section Broadcast.
Variables (t : Z) (d0 d1 d2 d3 : list Z) (p0 p1 p2 p3 : Z * Z) (es : list nat).
Hypotheses (Ht : 0 <= t < 4) (B0 : block_ok d0 p0) (B1 : block_ok d1 p1) (B2 : block_ok d2 p2) (B3 : block_ok d3 p3).
Hypotheses (Hnd : NoDup es) (He : ibc_errors_ok es).
Let body := ibc_body t [d0; d1; d2; d3] [p0; p1; p2; p3].

Lemma body_carries :
  carries body (seq 0 6) (ibc_header t) /\ carries body ((block_idx 0).1 ++ (block_idx 0).2) (block_words d0 p0) /\
  carries body ((block_idx 1).1 ++ (block_idx 1).2) (block_words d1 p1) /\
  carries body ((block_idx 2).1 ++ (block_idx 2).2) (block_words d2 p2) /\
  carries body ((block_idx 3).1 ++ (block_idx 3).2) (block_words d3 p3).
Proof.
  destruct ibc_idx_facts as (Hn & Hb & _ & L1 & L2). destruct (header_word_spec t Ht) as (H1 & H2 & _).
  destruct (block_words_spec d0 p0 B0) as (_ & _ & _ & _ & _ & W0 & I0). destruct (block_words_spec d1 p1 B1) as (_ & _ & _ & _ & _ & W1 & I1).
  destruct (block_words_spec d2 p2 B2) as (_ & _ & _ & _ & _ & W2 & I2). destruct (block_words_spec d3 p3 B3) as (_ & _ & _ & _ & _ & W3 & I3).
  assert (Lb : forall b, length ((block_idx b).1 ++ (block_idx b).2) = 64%nat) by (intros b; unfold block_idx; cbn [fst snd]; by rewrite length_app, !length_map, L1, L2).
  assert (Hc : carries body ibc_idx (ibc_header t ++ block_words d0 p0 ++ block_words d1 p1 ++ block_words d2 p2 ++ block_words d3 p3)).
  { unfold body, ibc_body. cbn [zip_with concat]. rewrite app_nil_r. apply place_carries; [exact Hn| |exact Hb|].
    - rewrite !length_app, H1, W0, W1, W2, W3. reflexivity.
    - apply Forall_app; split; [exact H2|]. apply Forall_app; split; [exact I0|]. apply Forall_app; split; [exact I1|]. apply Forall_app; by split. }
  assert (Ei : ibc_idx = seq 0 6 ++ ((block_idx 0).1 ++ (block_idx 0).2) ++ ((block_idx 1).1 ++ (block_idx 1).2) ++
    ((block_idx 2).1 ++ (block_idx 2).2) ++ ((block_idx 3).1 ++ (block_idx 3).2)) by (vm_compute; reflexivity).
  rewrite Ei in Hc. apply carries_app in Hc as [C Hc]; [|by rewrite H1]. split; [exact C|].
  apply carries_app in Hc as [C0 Hc]; [|by rewrite W0]. split; [exact C0|].
  apply carries_app in Hc as [C1 Hc]; [|by rewrite W1]. split; [exact C1|].
  apply carries_app in Hc as [C2 C3]; [|by rewrite W2]. by split.
Qed.

#[local] Opaque block_idx.

(** The next round of the loop over the blocks. *)
Ltac next_block b d p B C :=
  match goal with |- context [ibc_round (drop _ (swapped (_ ++ ?tl) _)) b (?out, ?bd, ?st)] =>
    let st' := fresh "st" in let Hok := fresh "Hok" in
    destruct (round_sent body es tl b d p out bd st ltac:(assumption) Hnd ltac:(lia) B ltac:(assumption) C ltac:(assumption)) as (st' & Hok & ->);
    cbv zeta; cbn [Nat.eqb andb] end.

(** The parser's steps on what is received. *)
Lemma ibc_decode_sent uw tail dir sub off n st : syn_ok st -> length uw = 24%nat -> (286 <= n)%nat ->
  exists st', syn_ok st' /\ ibc_decode (IridiumFrame IR_FRAME_BC dir sub off (uw ++ flips es body ++ tail) n) st =
    (0, let out := ibc_count (ibc_count (IbcDecoded true t false false 0 0 0 0 0 (-1) 0 0)) in
        let out := if t =? 0 then ibc_block1 d1 (ibc_block0 d0 out) else out in ibc_count (ibc_count out), st').
Proof.
  intros Hok Huw Hn. destruct body_carries as (C & C0 & C1 & C2 & C3). destruct (header_word_spec t Ht) as (Hl & _ & Hz & Hp).
  assert (Hd : length body = 262%nat) by apply length_place. assert (He' := He). destruct He as [Hh _].
  unfold ibc_decode. cbn [fr_type fr_n_bits fr_bits]. rewrite bool_decide_eq_true_2 by reflexivity. cbn [negb].
  change (UW_BITS + IBC_BODY_BITS)%nat with 286%nat. change IBC_BODY_BITS with 262%nat. change UW_BITS with 24%nat. change IBC_HDR_BITS with 6%nat.
  change IBC_N_BLOCKS with 4%nat. change IBC_DATA_PER_BLK with 42%nat. rewrite (proj2 (Nat.ltb_ge _ _)) by lia. rewrite drop_app_length' by done.
  set (p := swapped (flips es body ++ tail) 262).
  assert (Hpl : length p = 262%nat) by (apply length_swapped; rewrite length_app, length_flips; lia).
  rewrite (take_gather p 6 (swapped_bits _ _)) by lia.
  unfold p. rewrite (received_short 262 body es tail (seq 0 6) _ Hd eq_refl Hnd C), Hl.
  destruct (hits_at_spec 6 (seq 0 6) es) as (N1 & N2 & _).
  destruct (repair1_codes 29 6 (ibc_header t) (hits_at 6 (seq 0 6) es) st Hok) as [E1 Hok1]; [right; right; left; reflexivity|lia|exact Hz|exact N1|exact N2|exact Hh|].
  unfold IBC_HDR_POLY. destruct (iridium_bch_repair1 _ _ _ _) as [[e w] st1]. cbn [fst snd] in E1, Hok1. injection E1 as -> ->.
  rewrite (proj2 (Z.ltb_ge _ 0)), Hp by lia. rewrite !forN_S, forN_0. set (out := IbcDecoded true t false false 0 0 0 0 0 (-1) 0 0).
  next_block 0%nat d0 p0 B0 C0. next_block 1%nat d1 p1 B1 C1. next_block 2%nat d2 p2 B2 C2. next_block 3%nat d3 p3 B3 C3.
  eexists. split; [eassumption|]. unfold out. cbn [ibc_count ibc_block0 bc_type]. destruct (t =? 0) eqn:E0; cbn [ibc_count ibc_block0 ibc_block1 bc_type]; rewrite ?E0; reflexivity.
Qed.
End Broadcast.

(** The satellite's block and the value's block of a type-0 broadcast. *)
Definition info_block (sv beam u slot acq : Z) (rest : list Z) : list Z :=
  unpack 7 sv ++ unpack 6 beam ++ [u] ++ unpack 1 slot ++ unpack 1 acq ++ rest.
Definition value_block (sub : Z) (u : list Z) (v : Z) : list Z := unpack 6 sub ++ u ++ unpack 32 v.

Lemma info_block_fields sv beam u slot acq rest :
  0 <= sv < 128 -> 0 <= beam < 64 -> 0 <= slot < 2 -> 0 <= acq < 2 ->
  let b := info_block sv beam u slot acq rest in
  pick_bits b 0 7 = sv /\ pick_bits b 7 6 = beam /\ pick_bits b 14 1 = slot /\ pick_bits b 15 1 = acq.
Proof.
  intros Hsv Hbeam Hslot Hacq b. split_and!.
  - exact (pick_at b [] 7 sv _ eq_refl ltac:(lia) Hsv).
  - exact (pick_at b (unpack 7 sv) 6 beam _ eq_refl ltac:(lia) Hbeam).
  - exact (pick_at b (unpack 7 sv ++ unpack 6 beam ++ [u]) 1 slot _ eq_refl ltac:(lia) Hslot).
  - exact (pick_at b (unpack 7 sv ++ unpack 6 beam ++ [u] ++ unpack 1 slot) 1 acq _ eq_refl ltac:(lia) Hacq).
Qed.

Lemma value_block_fields sub u v : 0 <= sub < 64 -> is_u 32 v -> length u = 4%nat ->
  let b := value_block sub u v in pick_bits b 0 6 = sub /\ pick_bits b 10 32 = v.
Proof.
  intros Hs Hv Hu b. split.
  - exact (pick_at b [] 6 sub _ eq_refl ltac:(lia) Hs).
  - pose proof (pick_at b (unpack 6 sub ++ u) 32 v []) as H. rewrite length_app, Hu in H. apply H; [|lia|exact Hv].
    unfold b, value_block. by rewrite app_nil_r, <- app_assoc.
Qed.

Lemma ibc_final b0 b1 :
  ibc_count (ibc_count (ibc_block1 b1 (ibc_block0 b0 (ibc_count (ibc_count (IbcDecoded true 0 false false 0 0 0 0 0 (-1) 0 0)))))) =
  IbcDecoded true 0 true true 4 (pick_bits b0 0 7) (pick_bits b0 7 6) (pick_bits b0 14 1) (pick_bits b0 15 1) (pick_bits b1 0 6)
    (if pick_bits b1 0 6 =? 1 then pick_bits b1 10 32 else 0)
    (if pick_bits b1 0 6 =? 1 then 0 else if pick_bits b1 0 6 =? 2 then pick_bits b1 10 32 else 0).
Proof. reflexivity. Qed.

(** C26: a broadcast survives the channel.  The frame built from a type, a
    satellite block, a value block and two more blocks decodes - with at most one
    wrong bit in the header and two in each of the eight words - to four good
    blocks, and for type 0 to exactly the satellite, beam, slot and blocking flag
    sent and to the value as time, as expiry or not at all, as the subtype
    says. *)
Theorem ibc_round_trip t sv beam u slot acq rest sub u4 v d2 d3 p0 p1 p2 p3 es uw tail dir lw off n st :
  0 <= t < 4 -> 0 <= sv < 128 -> 0 <= beam < 64 -> 0 <= slot < 2 -> 0 <= acq < 2 -> 0 <= sub < 64 -> is_u 32 v -> length u4 = 4%nat ->
  let b0 := info_block sv beam u slot acq rest in let b1 := value_block sub u4 v in
  block_ok b0 p0 -> block_ok b1 p1 -> block_ok d2 p2 -> block_ok d3 p3 ->
  NoDup es -> ibc_errors_ok es -> syn_ok st -> length uw = 24%nat -> (286 <= n)%nat ->
  exists st', syn_ok st' /\
    ibc_decode (IridiumFrame IR_FRAME_BC dir lw off (uw ++ flips es (ibc_body t [b0; b1; d2; d3] [p0; p1; p2; p3]) ++ tail) n) st =
    (0, if t =? 0 then IbcDecoded true 0 true true 4 sv beam slot acq sub (if sub =? 1 then v else 0) (if sub =? 2 then v else 0)
        else IbcDecoded true t false false 4 0 0 0 0 (-1) 0 0, st').
Proof.
  intros Ht Hsv Hbeam Hslot Hacq Hsub Hv Hu b0 b1 B0 B1 B2 B3 Hnd He Hok Huw Hn.
  destruct (ibc_decode_sent t b0 b1 d2 d3 p0 p1 p2 p3 es Ht B0 B1 B2 B3 Hnd He uw tail dir lw off n st Hok Huw Hn) as (st' & Hok' & ->).
  exists st'. split; [exact Hok'|]. cbv zeta. destruct (Z.eqb_spec t 0) as [->|_]; [|reflexivity].
  destruct (info_block_fields sv beam u slot acq rest Hsv Hbeam Hslot Hacq) as (E1 & E2 & E3 & E4).
  destruct (value_block_fields sub u4 v Hsub Hv Hu) as (F1 & F2). fold b0 in E1, E2, E3, E4. fold b1 in F1, F2. rewrite ibc_final, E1, E2, E3, E4, F1, F2.
  destruct (Z.eqb_spec sub 1) as [->|_]; [reflexivity|]. by destruct (sub =? 2).
Qed.

(** The clock of a broadcast: 90 ms per step, never wrapping. *)
Lemma iri_time_unix v : is_u 32 v -> v <> 0 -> ibc_iri_time_to_unix v = 1739556857 + v * 90 / 1000.
Proof. intros Hv H0. unfold ibc_iri_time_to_unix, is_u, u64 in *. rewrite (proj2 (Z.eqb_neq _ _)) by done. lia. Qed.

(** ** Messaging: the round trip *)

Definition ims_data (ty z blk fr blocks g : Z) : list Z :=
  unpack 1 ty ++ unpack 4 z ++ unpack 4 blk ++ unpack 6 fr ++ unpack 4 blocks ++ unpack 2 g.

(** A messaging header survives the channel.  Any 64-bit block whose first
    word carries the header fields decodes to them with at most two wrong bits in
    that word, whatever the second word holds; the group is given for type 0
    only. *)
Theorem ims_round_trip ty z blk fr blocks g p data es uw tail dir lw off n st :
  0 <= ty < 2 -> 0 <= blk < 16 -> 0 <= fr < 64 -> 0 <= blocks < 16 -> 0 <= g < 4 ->
  length data = 64%nat -> carries data pair_idx.1 (bch_encode_block 1897 (ims_data ty z blk fr blocks g) 21 ++ [p]) ->
  NoDup es -> (length (hits_at 31 pair_idx.1 es) <= 2)%nat -> syn_ok st -> length uw = 56%nat -> (120 <= n)%nat ->
  exists st', syn_ok st' /\
    ims_decode (IridiumFrame IR_FRAME_MS dir lw off (uw ++ flips es data ++ tail) n) st =
    (0, ImsDecoded true ty blk fr blocks (if ty =? 1 then -1 else g), st').
Proof.
  intros Hty Hblk Hfr Hblocks Hg Hd Hc Hnd Hh Hok Huw Hn. set (h := ims_data ty z blk fr blocks g) in *.
  assert (Hb : is_bits h) by (unfold h, ims_data; repeat (apply Forall_app; split); apply unpack_bits).
  destruct (encode21 1897 h messaging_degree eq_refl Hb) as (L & _ & Z0 & T).
  unfold ims_decode. cbn [fr_type fr_n_bits fr_bits]. rewrite bool_decide_eq_true_2 by reflexivity. cbn [negb].
  change (UW_BITS + MS_HDR_BITS + MS_BLOCK_BITS)%nat with 120%nat. change (UW_BITS + MS_HDR_BITS)%nat with 56%nat. change MS_BLOCK_BITS with 64%nat.
  rewrite (proj2 (Nat.ltb_ge _ _)) by lia. rewrite drop_app_length' by done. rewrite pair_gather. unfold MS_BLOCK_POLY.
  destruct (repair_sent 1897 64 data es tail pair_idx.1 _ p st ltac:(right; right; left; reflexivity) Hd eq_refl Hnd Hc L Z0 Hh Hok)
    as (e & w & st' & -> & He & Hok' & Tw).
  rewrite (proj2 (Z.ltb_ge e 0)) by done. exists st'. split; [exact Hok'|]. rewrite T in Tw. do 2 f_equal.
  assert (Ew : w = h ++ drop 21 w) by (rewrite <- Tw; by rewrite take_drop).
  unfold ims_fields. rewrite Ew. clear Ew. generalize (drop 21 w). intros r. set (W := h ++ r).
  rewrite (pick_at W [] 1 ty _ eq_refl ltac:(lia) Hty : pick_bits W 0 1 = ty).
  rewrite (pick_at W (unpack 1 ty ++ unpack 4 z) 4 blk _ eq_refl ltac:(lia) Hblk : pick_bits W 5 4 = blk).
  rewrite (pick_at W (unpack 1 ty ++ unpack 4 z ++ unpack 4 blk) 6 fr _ eq_refl ltac:(lia) Hfr : pick_bits W 9 6 = fr).
  rewrite (pick_at W (unpack 1 ty ++ unpack 4 z ++ unpack 4 blk ++ unpack 6 fr) 4 blocks _ eq_refl ltac:(lia) Hblocks : pick_bits W 15 4 = blocks).
  rewrite (pick_at W (unpack 1 ty ++ unpack 4 z ++ unpack 4 blk ++ unpack 6 fr ++ unpack 4 blocks) 2 g _ eq_refl ltac:(lia) Hg : pick_bits W 19 2 = g).
  reflexivity.
Qed.

(** ** Time and location: exact matching *)

Lemma match_row_spec bytes table v :
  (match_row bytes table v = -1 /\ bytes ∉ table) \/
  exists k, match_row bytes table v = v + Z.of_nat k /\ table !! k = Some bytes /\ forall j, (j < k)%nat -> table !! j <> Some bytes.
Proof.
  revert v. induction table as [|row table IH]; intros v; [left; split; [done|by intros ?%elem_of_nil]|]. cbn [match_row].
  case_bool_decide as E; [right; exists 0%nat; subst row; split_and!; [lia|done|lia]|].
  destruct (IH (v + 1)) as [[-> H]|(k & -> & Hk & Hj)]; [left|right].
  - split; [done|]. by intros [?|?]%elem_of_cons.
  - exists (S k). split; [lia|]. split; [done|]. intros [|j] Hlt; [cbn; congruence|apply Hj; lia].
Qed.

Lemma match_row_iff bytes table k : List.NoDup table -> match_row bytes table 0 = Z.of_nat k <-> table !! k = Some bytes.
Proof.
  intros Hnd. apply NoDup_ListNoDup in Hnd. destruct (match_row_spec bytes table 0) as [[-> H]|(m & -> & Hm & _)].
  - split; [lia|]. intros Hk. destruct H. by eapply list_elem_of_lookup_2.
  - split; [intros E; by replace k with m by lia|]. intros Hk. pose proof (NoDup_lookup _ _ _ _ Hnd Hm Hk). lia.
Qed.

Lemma tl_tables_distinct : List.NoDup PRS_HDR /\ List.NoDup MAP_PLANE_V1 /\ List.NoDup MAP_PLANE_V2.
Proof. split_and!; apply NoDup_ListNoDup, (bool_decide_unpack _); vm_compute; reflexivity. Qed.

#[local] Opaque match_row pack_i_bits PRS_HDR MAP_PLANE_V1 MAP_PLANE_V2.

(** A beacon is identified exactly.  A time-location frame long enough
    yields version [v] and plane [p] exactly when its in-phase bits are, byte for
    byte, the signature of version [v] and that of plane [p] in the version's
    table: no two signatures are confused, and nothing else matches. *)
Theorem tl_decode_exact frame v p :
  fr_type frame = IR_FRAME_TL -> (fr_payload_off frame + 864 <= fr_n_bits frame)%nat ->
  let post_uw := drop (fr_payload_off frame) (fr_bits frame) in
  (1 <= v)%nat ->
  tl_decode frame = TlDecoded (Z.of_nat v) (Z.of_nat p) 1 <->
  PRS_HDR !! v = Some (pack_i_bits post_uw 48 128) /\
  (if (v =? 1)%nat then MAP_PLANE_V1 else MAP_PLANE_V2) !! p = Some (pack_i_bits post_uw 176 256).
Proof.
  intros Ht Hn post_uw Hv. destruct tl_tables_distinct as (N0 & N1 & N2). unfold tl_decode. rewrite bool_decide_eq_true_2 by done. cbn [negb].
  change (TL_HEADER_BITS)%nat with 96%nat. change ((TL_VERSION_I_BYTES + TL_PLANE_I_BYTES) * 16)%nat with 768%nat. rewrite (proj2 (Nat.ltb_ge _ _)) by lia.
  change (96 / 2)%nat with 48%nat. change (TL_VERSION_I_BYTES * 8)%nat with 128%nat. change (TL_PLANE_I_BYTES * 8)%nat with 256%nat. change (48 + 128)%nat with 176%nat.
  fold post_uw. rewrite <- (match_row_iff _ PRS_HDR v N0). set (ver := match_row _ PRS_HDR 0). clearbody ver.
  destruct (Z.ltb_spec ver 1) as [Hlt|Hge].
  - split; [intros E; pose proof (f_equal tl_version E) as E1; cbn [tl_version] in E1; lia|intros [E _]; lia].
  - assert (Hp : forall k, match_row (pack_i_bits post_uw 176 256) (if ver =? 1 then MAP_PLANE_V1 else MAP_PLANE_V2) 0 = Z.of_nat k <->
      (if ver =? 1 then MAP_PLANE_V1 else MAP_PLANE_V2) !! k = Some (pack_i_bits post_uw 176 256)) by (intros k; apply match_row_iff; by destruct (ver =? 1)).
    assert (Ev : ver = Z.of_nat v -> (ver =? 1) = (v =? 1)%nat) by (intros ->; apply Bool.eq_iff_eq_true; rewrite Z.eqb_eq, Nat.eqb_eq; lia).
    split.
    + intros E. pose proof (f_equal tl_version E) as E1. pose proof (f_equal tl_plane E) as E2. cbn [tl_version tl_plane] in E1, E2. split; [exact E1|]. rewrite <- (Ev E1). by apply Hp.
    + intros [E1 E2]. rewrite <- (Ev E1) in E2. apply Hp in E2. by rewrite E2, E1.
Qed.

(** ** Runs *)

Definition sample_ira : ira_decoded := IraDecoded true 71 19 (-1034) 512 (-7) 50 1 0 13.

Ltac by_compute := first [reflexivity | apply (bool_decide_unpack _); vm_compute; reflexivity | apply Nat.leb_le; vm_compute; reflexivity].

Lemma ira_round_trip_witness :
  exists st', ira_decode (IridiumFrame IR_FRAME_RA IR_FRM_DIR_DOWNLINK IR_LW_NONE 24
    (UW_DL ++ flips [0; 2; 37; 50; 71; 95]%nat (ira_payload sample_ira 0 1 0) ++ []) 120) syn_init = (0, sample_ira, st').
Proof.
  destruct (ira_round_trip sample_ira 0 1 0 [0; 2; 37; 50; 71; 95]%nat UW_DL [] IR_FRM_DIR_DOWNLINK IR_LW_NONE 24 120 syn_init) as (st' & _ & E).
  - constructor; cbn; lia || reflexivity.
  - by_compute.
  - apply syn_init_ok.
  - by_compute.
  - by_compute.
  - by_compute.
  - by_compute.
  - by_compute.
  - by_compute.
  - exists st'. exact E.
Defined.

Definition sample_rest : list Z := replicate 26 0.
Definition sample_pages : list Z := replicate 21 1 ++ replicate 21 0.

Lemma ibc_round_trip_witness :
  exists st', ibc_decode (IridiumFrame IR_FRAME_BC IR_FRM_DIR_DOWNLINK IR_LW_NONE 24
    (UW_DL ++ flips [3; 6; 11; 100; 261]%nat (ibc_body 0 [info_block 66 12 0 1 0 sample_rest; value_block 1 [0; 0; 0; 0] 305419896; sample_pages; sample_pages]
      [(0, 0); (0, 1); (1, 1); (0, 0)]) ++ []) 286) syn_init =
    (0, IbcDecoded true 0 true true 4 66 12 1 0 1 305419896 0, st').
Proof.
  destruct (ibc_round_trip 0 66 12 0 1 0 sample_rest 1 [0; 0; 0; 0] 305419896 sample_pages sample_pages (0, 0) (0, 1) (1, 1) (0, 0)
    [3; 6; 11; 100; 261]%nat UW_DL [] IR_FRM_DIR_DOWNLINK IR_LW_NONE 24 286 syn_init) as (st' & _ & E).
  all: try (exists st'; exact E).
  all: try (unfold is_u; lia).
  all: try by_compute.
  all: try apply syn_init_ok.
  all: try (split_and!; by_compute).
  split; [by_compute|]. intros b Hb. do 4 (destruct b as [|b]; [split; by_compute|]). lia.
Defined.

Lemma ims_round_trip_witness :
  exists st', ims_decode (IridiumFrame IR_FRAME_MS IR_FRM_DIR_DOWNLINK IR_LW_NONE 24
    ((UW_DL ++ HEADER_MESSAGING) ++ flips [5; 60]%nat (place 64 pair_idx.1 (bch_encode_block 1897 (ims_data 0 0 9 33 7 2) 21 ++ [1])) ++ []) 120) syn_init =
    (0, ImsDecoded true 0 9 33 7 2, st').
Proof.
  destruct (ims_round_trip 0 0 9 33 7 2 1 (place 64 pair_idx.1 (bch_encode_block 1897 (ims_data 0 0 9 33 7 2) 21 ++ [1])) [5; 60]%nat
    (UW_DL ++ HEADER_MESSAGING) [] IR_FRM_DIR_DOWNLINK IR_LW_NONE 24 120 syn_init) as (st' & _ & E).
  all: try (exists st'; exact E).
  all: try lia.
  all: try by_compute.
  all: try apply syn_init_ok.
Defined.

(** A version 2 beacon of plane 3. *)
Definition beacon : iridium_frame :=
  let bits l := flat_map (fun z => unpack 8 z) l in
  IridiumFrame IR_FRAME_TL IR_FRM_DIR_DOWNLINK IR_LW_NONE 24
    (UW_DL ++ replicate 96 0 ++ flat_map (fun b => [0; b]) (bits (nth 2 PRS_HDR []) ++ bits (nth 3 MAP_PLANE_V2 []))) 888.

Lemma tl_decode_exact_witness : tl_decode beacon = TlDecoded 2 3 1.
Proof.
  apply (tl_decode_exact beacon 2 3); [reflexivity|apply Nat.leb_le; vm_compute; reflexivity|lia|].
  split; vm_compute; reflexivity.
Defined.
