(* ===== verification/BandHealth.v ===== *)
(** The band-health monitor
    (src/p4-usb-host/main/band_health_core.h, band_health.c).

    Once per hour of uptime the number of IDA frames decoded is put into a ring
    of 168 hours; the median of the first full ring becomes the baseline, and
    when the trailing median falls below 60 percent of it a re-survey is
    recommended, at most once per 24 hours.  The state is kept in flash, written
    before the survey the trigger may launch.  The flash driver, the scanner and
    the decoder's counter are inputs of the hourly task; log lines are left
    out. *)

From stdpp Require Import sorting.
From S2P Require Import Prelude Gf2 Bits.
#[local] Open Scope Z_scope.

Definition BH_HIST_HOURS : nat := 168.
Definition BH_BASELINE_HOURS : Z := 168.
Definition BH_MIN_EVAL_HOURS : Z := 48.
Definition BH_TRIGGER_PCT : Z := 60.
Definition BH_COOLDOWN_HOURS : Z := 24.

(** ** The median *)

(** [while (j > 0 && tmp[j - 1] > x) { tmp[j] = tmp[j - 1]; j--; } tmp[j] = x;] *)
Fixpoint sift (j : nat) (x : Z) (tmp : list Z) : list Z :=
  match j with
  | S j' => if x <? rd tmp j' then sift j' x (<[j := rd tmp j']> tmp) else <[j := x]> tmp
  | O => <[O := x]> tmp
  end.

(** [tmp] is not initialised in C and is read only where it was written. *)
Definition bh_median_u16 (v : list Z) (n : Z) : Z :=
  if n <=? 0 then 0 else
  let n := if Z.of_nat BH_HIST_HOURS <? n then BH_HIST_HOURS else Z.to_nat n in
  rd (forN n (fun i tmp => sift i (rd v i) tmp) (replicate BH_HIST_HOURS 0)) (n / 2).

Definition bh_below_baseline (trailing_median baseline : Z) : bool :=
  if baseline =? 0 then false else u32 (trailing_median * 100) <? u32 (baseline * BH_TRIGGER_PCT).

(** ** State *)

(** [bh_persist_t]; the magic number is implicit: a blob with another one is
    an invalid blob. *)
Record bh_persist := BhPersist {
  bh_count : Z; bh_head : Z; bh_baseline : Z; bh_cooldown : Z; bh_fired : Z; bh_hist : list Z }.

Definition bh_persist_zero : bh_persist := BhPersist 0 0 0 0 0 (replicate BH_HIST_HOURS 0).

(** [s_hist], [s_lwda_at_last_tick], [s_survey_done_flag], and the blob in
    flash. *)
Record bh_state := BhState { bh : bh_persist; lwda_last : Z; survey_done : bool; bh_flash : option bh_persist }.

(** [win[i] = hist[(head + BH_HIST_HOURS - i) % BH_HIST_HOURS]] *)
Definition bh_trailing_median (span : Z) (p : bh_persist) : Z :=
  let span := if bh_count p <? span then bh_count p else span in
  if span <=? 0 then 0 else
  bh_median_u16 (map (fun i => rd (bh_hist p) (Z.to_nat ((bh_head p + 168 - Z.of_nat i) mod 168))) (seq 0 (Z.to_nat span))) span.

(** Closing the hour's bucket. *)
Definition bh_close_bucket (sample : Z) (done_flag decode_running : bool) (p : bh_persist) : bh_persist :=
  let head := u16 ((bh_head p + 1) mod 168) in
  let hist := <[Z.to_nat head := sample]> (bh_hist p) in
  let count := if bh_count p <? 168 then u16 (bh_count p + 1) else bh_count p in
  let cooldown := if 0 <? bh_cooldown p then bh_cooldown p - 1 else bh_cooldown p in
  let cooldown := if done_flag then BH_COOLDOWN_HOURS else cooldown in
  let cooldown := if decode_running then BH_COOLDOWN_HOURS else cooldown in
  BhPersist count head (bh_baseline p) cooldown (bh_fired p) hist.

(** Freezing the baseline. *)
Definition bh_freeze (p : bh_persist) : bh_persist :=
  if (bh_baseline p =? 0) && (BH_BASELINE_HOURS <=? bh_count p) then
    let m := bh_trailing_median BH_BASELINE_HOURS p in
    if 0 <? m then BhPersist (bh_count p) (bh_head p) m (bh_cooldown p) (bh_fired p) (bh_hist p) else p
  else p.

(** The level, and whether to fire. *)
Definition bh_below (p : bh_persist) : bool :=
  if BH_MIN_EVAL_HOURS <=? bh_count p then bh_below_baseline (bh_trailing_median 168 p) (bh_baseline p) else false.

Definition bh_evaluate (scan_busy : bool) (p : bh_persist) : bh_persist * bool :=
  if bh_below p && (bh_cooldown p =? 0) && negb scan_busy then
    (BhPersist (bh_count p) (bh_head p) (bh_baseline p) BH_COOLDOWN_HOURS (u32 (bh_fired p + 1)) (bh_hist p), true)
  else (p, false).

(** [bh_hour_task]: the state, and whether it fired.  [lw_da] is the decoder's
    counter, [nvs_ok] the outcome of writing the blob. *)
Definition bh_hour_task (lw_da : Z) (decode_running scan_busy nvs_ok : bool) (s : bh_state) : bh_state * bool :=
  let delta := u64 (lw_da - lwda_last s) in
  let sample := if 0xFFFF <? delta then 0xFFFF else u16 delta in
  let p := bh_freeze (bh_close_bucket sample (survey_done s) decode_running (bh s)) in
  let '(p, fire) := bh_evaluate scan_busy p in
  (BhState p lw_da false (if nvs_ok then Some p else bh_flash s), fire).

(** The blob is used only if its ring indices are in range. *)
Definition bh_restore (blob : option bh_persist) : bh_persist :=
  match blob with
  | Some tmp => if (bh_count tmp <=? 168) && (bh_head tmp <? 168) then tmp else bh_persist_zero
  | None => bh_persist_zero
  end.

(** [band_health_init] after a boot: the decoder's counter starts from 0. *)
Definition band_health_init (blob : option bh_persist) : bh_state := BhState (bh_restore blob) 0 false blob.

Definition band_health_note_survey (n_sweeps : Z) (s : bh_state) : bh_state :=
  if 2 <=? n_sweeps then BhState (bh s) (lwda_last s) true (bh_flash s) else s.

(** ** Runs *)

Inductive bh_event :=
  | Hour (lw_da : Z) (decode_running scan_busy nvs_ok : bool)
  | NoteSurvey (n_sweeps : Z)
  | Reboot.

(** The state, and for each hour whether it fired, the latest first. *)
Definition bh_step (x : bh_state * list bool) (ev : bh_event) : bh_state * list bool :=
  let '(s, fires) := x in
  match ev with
  | Hour lw_da decode_running scan_busy nvs_ok => let '(s, fire) := bh_hour_task lw_da decode_running scan_busy nvs_ok s in (s, fire :: fires)
  | NoteSurvey n => (band_health_note_survey n s, fires)
  | Reboot => (band_health_init (bh_flash s), fires)
  end.

Definition bh_run (evs : list bh_event) : bh_state * list bool := fold_left bh_step evs (band_health_init None, []).

(** ** The median is the middle of the sorted hours *)

Definition middle (l : list Z) : Z := nth (length l / 2) (merge_sort Z.le l) 0.

Lemma length_sift j x tmp : length (sift j x tmp) = length tmp.
Proof. revert tmp. induction j as [|j IH]; intros tmp; cbn [sift]; [apply length_insert|]. destruct (x <? rd tmp j); [rewrite IH|]; apply length_insert. Qed.

(** Where [x] goes among the first [j]: after those not above it. *)
Lemma sift_spec j x tmp : (j < length tmp)%nat ->
  (forall i, (j < i)%nat -> sift j x tmp !! i = tmp !! i) /\
  exists k, (k <= j)%nat /\ take (S j) (sift j x tmp) = take k tmp ++ x :: drop k (take j tmp) /\
    Forall (fun y => x < y) (drop k (take j tmp)) /\ (forall k', k = S k' -> rd tmp k' <= x).
Proof.
  revert tmp. induction j as [|j IH]; intros tmp Hj; cbn [sift].
  { split; [intros i Hi; by rewrite list_lookup_insert_ne by lia|]. exists 0%nat. split; [lia|]. split; [|split; [constructor|lia]].
    rewrite insert_take_drop by lia. cbn. by rewrite take_0. }
  destruct (Z.ltb_spec x (rd tmp j)) as [Hx|Hx].
  - set (tmp' := <[S j := rd tmp j]> tmp). assert (Hl : length tmp' = length tmp) by apply length_insert.
    destruct (IH tmp' ltac:(lia)) as (Ho & k & Hk & Ht & Hf & Hp).
    assert (Et : forall n, (n <= S j)%nat -> take n tmp' = take n tmp) by (intros n Hn; apply take_insert_ge; lia).
    split; [intros i Hi; rewrite Ho by lia; unfold tmp'; by rewrite list_lookup_insert_ne by lia|].
    exists k. split; [lia|]. rewrite (Et k), (Et j) in * by lia.
    assert (Ej : tmp !! j = Some (rd tmp j)) by (unfold rd; rewrite nth_lookup; destruct (lookup_lt_is_Some_2 tmp j ltac:(lia)) as [z Hz]; by rewrite Hz).
    assert (El : sift j x tmp' !! S j = Some (rd tmp j)) by (rewrite Ho by lia; apply list_lookup_insert_eq; lia).
    assert (Ed : drop k (take (S j) tmp) = drop k (take j tmp) ++ [rd tmp j]).
    { rewrite (take_S_r tmp j _ Ej). rewrite drop_app_le; [done|]. rewrite length_take. lia. }
    rewrite (take_S_r _ _ _ El), Ht, Ed. split; [by rewrite <- app_assoc|]. split; [apply Forall_app; split; [done|by constructor]|].
    intros k' ->. rewrite <- (Hp k' eq_refl). unfold tmp', rd. rewrite !nth_lookup, list_lookup_insert_ne by lia. reflexivity.
  - split; [intros i Hi; by rewrite list_lookup_insert_ne by lia|]. exists (S j). split; [lia|]. split; [|split].
    + rewrite drop_ge by (rewrite length_take; lia). rewrite insert_take_drop by lia.
      rewrite take_app_ge by (rewrite length_take; lia). rewrite length_take, Nat.min_l by lia. replace (S (S j) - S j)%nat with 1%nat by lia. done.
    + rewrite drop_ge by (rewrite length_take; lia). constructor.
    + intros k' [= <-]. exact Hx.
Qed.

Lemma sift_sorted j x tmp : (j < length tmp)%nat -> StronglySorted Z.le (take j tmp) ->
  StronglySorted Z.le (take (S j) (sift j x tmp)) /\ take (S j) (sift j x tmp) ≡ₚ x :: take j tmp.
Proof.
  intros Hj Hs. destruct (sift_spec j x tmp Hj) as (_ & k & Hk & -> & Hf & Hp).
  assert (Es : take k tmp ++ drop k (take j tmp) = take j tmp).
  { rewrite <- (take_drop k (take j tmp)) at 2. by rewrite take_take, Nat.min_l by lia. }
  rewrite <- Es in Hs. split.
  - apply StronglySorted_app in Hs as (Hab & Ha & Hb). apply StronglySorted_app. split_and!.
    + intros y z Hy [->|Hz]%elem_of_cons; [|by apply Hab]. destruct k as [|k']; [by rewrite take_0 in Hy; apply elem_of_nil in Hy|].
      rewrite <- (Hp k' eq_refl). assert (Ek : tmp !! k' = Some (rd tmp k'))
        by (unfold rd; rewrite nth_lookup; destruct (lookup_lt_is_Some_2 tmp k' ltac:(lia)) as [w Hw]; by rewrite Hw).
      rewrite (take_S_r tmp k' _ Ek) in Hy, Ha. apply elem_of_app in Hy as [Hy|Hy].
      * apply (StronglySorted_app_1_elem_of Z.le _ _ _ _ Ha Hy). by left.
      * apply list_elem_of_singleton in Hy. by subst.
    + done.
    + apply StronglySorted_cons. split; [|done]. eapply list.Forall_impl; [exact Hf|]. cbn. lia.
  - transitivity (x :: take k tmp ++ drop k (take j tmp)); [symmetry; apply Permutation_middle|by rewrite Es].
Qed.

Lemma bh_median_middle v n : (1 <= n <= 168)%nat -> (n <= length v)%nat -> bh_median_u16 v (Z.of_nat n) = middle (take n v).
Proof.
  intros Hn Hl. unfold bh_median_u16. change (Z.of_nat BH_HIST_HOURS) with 168. rewrite (proj2 (Z.leb_gt _ _)), (proj2 (Z.ltb_ge _ _)), Nat2Z.id by lia.
  set (f := fun (i : nat) tmp => sift i (rd v i) tmp). unfold BH_HIST_HOURS.
  assert (H : forall m, (m <= n)%nat -> let t := forN m f (replicate 168 0) in
    length t = 168%nat /\ StronglySorted Z.le (take m t) /\ take m t ≡ₚ take m v).
  { induction m as [|m IH]; intros Hm; [cbv zeta; rewrite forN_0, !take_0; split; [done|split; [constructor|done]]|].
    cbv zeta. rewrite forN_S. destruct (IH ltac:(lia)) as (L & S & P). set (t := forN m f _) in *. unfold f.
    destruct (sift_sorted m (rd v m) t ltac:(lia) S) as [S' P']. split; [by rewrite length_sift|]. split; [done|].
    rewrite P', P. assert (Ev : v !! m = Some (rd v m)) by (unfold rd; rewrite nth_lookup; destruct (lookup_lt_is_Some_2 v m ltac:(lia)) as [w Hw]; by rewrite Hw).
    rewrite (take_S_r v m _ Ev). apply Permutation_cons_append. }
  destruct (H n ltac:(lia)) as (L & S & P). set (t := forN n f _) in *. unfold middle. rewrite length_take, Nat.min_l by lia.
  assert (E : merge_sort Z.le (take n v) = take n t).
  { apply (StronglySorted_unique Z.le); [apply StronglySorted_merge_sort; apply _|exact S|]. by rewrite merge_sort_Permutation. }
  rewrite E. unfold rd. rewrite !nth_lookup, lookup_take_lt; [done|]. apply Nat.div_lt; lia.
Qed.

(** ** The abstract monitor: a log instead of a ring *)

(** The hours tracked, the latest first; the baseline; the cooldown. *)
Record monitor := Monitor { mo_log : list Z; mo_base : Z; mo_cool : Z }.

Definition stale (m : monitor) : bool :=
  (48 <=? length (mo_log m))%nat && negb (mo_base m =? 0) && (middle (mo_log m) * 100 <? mo_base m * 60).

Definition monitor_hour (sample : Z) (done_flag decode_running scan_busy : bool) (m : monitor) : monitor * bool :=
  let log := take 168 (sample :: mo_log m) in
  let cool := if done_flag || decode_running then 24 else Z.max 0 (mo_cool m - 1) in
  let base := if (mo_base m =? 0) && (length log =? 168)%nat then middle log else mo_base m in
  let m := Monitor log base cool in
  if stale m && (cool =? 0) && negb scan_busy then (Monitor log base 24, true) else (m, false).

(** The ring and the log tell the same story. *)
Record bh_rel (p : bh_persist) (m : monitor) : Prop := {
  br_hist : length (bh_hist p) = 168%nat; br_log : (length (mo_log m) <= 168)%nat; br_count : bh_count p = Z.of_nat (length (mo_log m));
  br_head : 0 <= bh_head p < 168;
  br_ring : forall i, (i < length (mo_log m))%nat -> rd (bh_hist p) (Z.to_nat ((bh_head p + 168 - Z.of_nat i) mod 168)) = rd (mo_log m) i;
  br_u16 : Forall (fun x => is_u 16 x) (mo_log m);
  br_base : bh_baseline p = mo_base m; br_base16 : is_u 16 (mo_base m); br_cool : bh_cooldown p = mo_cool m; br_cool24 : 0 <= mo_cool m <= 24 }.

Lemma map_rd_take l n : (n <= length l)%nat -> map (rd l) (seq 0 n) = take n l.
Proof.
  intros Hn. apply rd_ext; [rewrite length_map, length_seq, length_take; lia|]. intros i Hi. rewrite length_map, length_seq in Hi.
  unfold rd. rewrite (nth_indep _ 0 (rd l 0)) by (rewrite length_map, length_seq; done). rewrite (map_nth (rd l)), seq_nth by done.
  unfold rd. cbn [Nat.add]. by rewrite !nth_lookup, lookup_take_lt.
Qed.

Lemma trailing_median_middle p m span : bh_rel p m -> mo_log m <> [] -> 168 <= span -> bh_trailing_median span p = middle (mo_log m).
Proof.
  intros R Hne Hs. unfold bh_trailing_median. rewrite (br_count p m R). pose proof (br_log p m R) as Hl.
  assert (H0 : (0 < length (mo_log m))%nat) by (destruct (mo_log m); [done|cbn; lia]).
  assert (E : (if Z.of_nat (length (mo_log m)) <? span then Z.of_nat (length (mo_log m)) else span) = Z.of_nat (length (mo_log m)))
    by (destruct (Z.ltb_spec (Z.of_nat (length (mo_log m))) span); lia).
  rewrite E, (proj2 (Z.leb_gt _ _)), Nat2Z.id by lia.
  rewrite bh_median_middle by (rewrite ?length_map, ?length_seq; lia). rewrite take_ge by (rewrite length_map, length_seq; lia).
  rewrite (map_ext_in _ (rd (mo_log m))) by (intros i [_ Hi]%in_seq; apply (br_ring p m R), Hi). by rewrite map_rd_take, take_ge by lia.
Qed.

Lemma middle_in l : l <> [] -> middle l ∈ l.
Proof.
  intros Hne. unfold middle. rewrite <- (merge_sort_Permutation Z.le l) at 3. apply list_elem_of_In, nth_In.
  rewrite (merge_sort_Permutation Z.le l). apply Nat.div_lt; [destruct l; [done|cbn; lia]|lia].
Qed.

Lemma close_bucket_rel p m sample done dr : bh_rel p m -> is_u 16 sample ->
  bh_rel (bh_close_bucket sample done dr p)
    (Monitor (take 168 (sample :: mo_log m)) (mo_base m) (if done || dr then 24 else Z.max 0 (mo_cool m - 1))).
Proof.
  intros R Hs. destruct R as [Hh Hl Hc Hhd Hr Hu Hb Hb16 Hco Hc24]. unfold bh_close_bucket, BH_COOLDOWN_HOURS.
  set (head := u16 ((bh_head p + 1) mod 168)). assert (Ehead : head = (bh_head p + 1) mod 168) by (unfold head; apply u16_small; lia).
  assert (Hlen : length (take 168 (sample :: mo_log m)) = Nat.min 168 (S (length (mo_log m)))) by (by rewrite length_take).
  constructor; cbn [bh_hist bh_count bh_head bh_baseline bh_cooldown mo_log mo_base mo_cool].
  - by rewrite length_insert.
  - lia.
  - rewrite Hc, Hlen. destruct (Z.ltb_spec (Z.of_nat (length (mo_log m))) 168); [rewrite u16_small; lia|lia].
  - lia.
  - rewrite Hlen. intros i Hi. assert (Er : rd (take 168 (sample :: mo_log m)) i = rd (sample :: mo_log m) i)
      by (unfold rd; by rewrite !nth_lookup, lookup_take_lt by lia). rewrite Er. rewrite rd_insert, Hh. destruct i as [|i].
    + replace (Z.to_nat ((head + 168 - Z.of_nat 0) mod 168)) with (Z.to_nat head) by lia. rewrite decide_True by lia. done.
    + rewrite decide_False by lia. change (rd (sample :: mo_log m) (S i)) with (rd (mo_log m) i). rewrite <- (Hr i) by lia. f_equal. lia.
  - apply Forall_take. by apply Forall_cons.
  - exact Hb.
  - exact Hb16.
  - rewrite Hco. destruct done, dr; cbn [orb]; try reflexivity. destruct (Z.ltb_spec 0 (mo_cool m)); lia.
  - destruct (done || dr); lia.
Qed.

Lemma freeze_rel p m : bh_rel p m -> mo_log m <> [] ->
  bh_rel (bh_freeze p) (Monitor (mo_log m) (if (mo_base m =? 0) && (length (mo_log m) =? 168)%nat then middle (mo_log m) else mo_base m) (mo_cool m)).
Proof.
  intros R Hne. pose proof R as R0. destruct R as [Hh Hl Hc Hhd Hr Hu Hb Hb16 Hco Hc24]. unfold bh_freeze, BH_BASELINE_HOURS.
  rewrite (trailing_median_middle p m 168 R0 Hne) by lia. rewrite Hb, Hc.
  assert (Hm : is_u 16 (middle (mo_log m))) by (pose proof (middle_in _ Hne) as Hi; rewrite list.Forall_forall in Hu; exact (Hu _ Hi)).
  assert (E : (168 <=? Z.of_nat (length (mo_log m))) = (length (mo_log m) =? 168)%nat) by (apply Bool.eq_iff_eq_true; rewrite Z.leb_le, Nat.eqb_eq; lia).
  rewrite E. destruct (Z.eqb_spec (mo_base m) 0) as [E0|E0]; cbn [andb]; [|by constructor].
  destruct (length (mo_log m) =? 168)%nat; [|by constructor]. unfold is_u in Hm.
  destruct (Z.ltb_spec 0 (middle (mo_log m))); constructor; cbn [bh_hist bh_count bh_head bh_baseline bh_cooldown mo_log mo_base mo_cool]; try done.
  lia.
Qed.

Lemma below_stale p m : bh_rel p m -> mo_log m <> [] -> bh_below p = stale m.
Proof.
  intros R Hne. unfold bh_below, stale, BH_MIN_EVAL_HOURS. rewrite (trailing_median_middle p m 168 R Hne) by lia.
  rewrite (br_count p m R), (br_base p m R).
  assert (Hm : is_u 16 (middle (mo_log m))) by (pose proof (middle_in _ Hne) as Hi; pose proof (br_u16 p m R) as Hu; rewrite list.Forall_forall in Hu; exact (Hu _ Hi)).
  pose proof (br_base16 p m R) as Hb. unfold is_u in Hm, Hb.
  assert (E : (48 <=? Z.of_nat (length (mo_log m))) = (48 <=? length (mo_log m))%nat) by (apply Bool.eq_iff_eq_true; rewrite Z.leb_le, Nat.leb_le; lia).
  rewrite E. destruct (48 <=? length (mo_log m))%nat; [|done]. unfold bh_below_baseline, BH_TRIGGER_PCT.
  destruct (mo_base m =? 0); [done|]. by rewrite !u32_small by lia.
Qed.

Lemma hour_rel p m sample done dr busy : bh_rel p m -> is_u 16 sample ->
  let '(p', fire) := bh_evaluate busy (bh_freeze (bh_close_bucket sample done dr p)) in
  let '(m', fire') := monitor_hour sample done dr busy m in fire = fire' /\ bh_rel p' m'.
Proof.
  intros R Hs. pose proof (close_bucket_rel p m sample done dr R Hs) as R1. pose proof (freeze_rel _ _ R1) as R2.
  cbn [mo_log mo_base mo_cool] in R2. specialize (R2 ltac:(discriminate)). clear R1. unfold bh_evaluate, monitor_hour. cbv zeta.
  match type of R2 with bh_rel _ ?m' => set (m2 := m') in * end. set (p2 := bh_freeze _) in *. rewrite (below_stale p2 m2 R2) by discriminate.
  rewrite (br_cool p2 m2 R2). fold m2. change (mo_cool m2) with (if done || dr then 24 else Z.max 0 (mo_cool m - 1)).
  destruct (stale m2 && _ && negb busy); [|by split]. split; [reflexivity|]. destruct R2 as [Hh Hl Hc Hhd Hr Hu Hb Hb16 Hco Hc24]. clearbody p2. by constructor.
Qed.

(** The monitor with the decoder's counter, the survey flag and the copy in
    flash. *)
Record monitor_sys := MonitorSys { ms : monitor; ms_last : Z; ms_done : bool; ms_flash : monitor }.

Definition monitor_zero : monitor := Monitor [] 0 0.

Definition monitor_step (x : monitor_sys * list bool) (ev : bh_event) : monitor_sys * list bool :=
  let '(s, fires) := x in
  match ev with
  | Hour lw_da decode_running scan_busy nvs_ok =>
      let sample := Z.min 0xFFFF ((lw_da - ms_last s) mod 2 ^ 64) in
      let '(m, fire) := monitor_hour sample (ms_done s) decode_running scan_busy (ms s) in
      (MonitorSys m lw_da false (if nvs_ok then m else ms_flash s), fire :: fires)
  | NoteSurvey n => (MonitorSys (ms s) (ms_last s) (ms_done s || (2 <=? n)) (ms_flash s), fires)
  | Reboot => (MonitorSys (ms_flash s) 0 false (ms_flash s), fires)
  end.

Definition monitor_run (evs : list bh_event) : monitor_sys * list bool :=
  fold_left monitor_step evs (MonitorSys monitor_zero 0 false monitor_zero, []).

Definition sys_rel (s : bh_state) (a : monitor_sys) : Prop :=
  bh_rel (bh s) (ms a) /\ lwda_last s = ms_last a /\ survey_done s = ms_done a /\ bh_rel (bh_restore (bh_flash s)) (ms_flash a).

Lemma zero_rel : bh_rel bh_persist_zero monitor_zero.
Proof. constructor; cbn; try done; lia. Qed.

Lemma restore_rel p m : bh_rel p m -> bh_rel (bh_restore (Some p)) m.
Proof.
  intros R. unfold bh_restore. pose proof (br_count p m R) as Hc. pose proof (br_log p m R). pose proof (br_head p m R).
  rewrite (proj2 (Z.leb_le _ _)), (proj2 (Z.ltb_lt _ _)) by lia. exact R.
Qed.

Lemma step_rel s a fires ev : sys_rel s a ->
  let '(s', f) := bh_step (s, fires) ev in let '(a', f') := monitor_step (a, fires) ev in f = f' /\ sys_rel s' a'.
Proof.
  intros (R & E1 & E2 & Rf). destruct ev as [lw dr busy ok|n|]; cbn [bh_step monitor_step].
  - unfold bh_hour_task. rewrite E1, E2. fold (u64 (lw - ms_last a)). set (d := u64 (lw - ms_last a)).
    assert (Hd : 0 <= d < 2 ^ 64) by (unfold d, u64; lia).
    assert (Es : (if 65535 <? d then 65535 else u16 d) = Z.min 65535 d)
      by (destruct (Z.ltb_spec 65535 d); [lia|rewrite u16_small by lia; lia]).
    rewrite Es. pose proof (hour_rel (bh s) (ms a) (Z.min 65535 d) (ms_done a) dr busy R ltac:(unfold is_u; lia)) as H.
    destruct (bh_evaluate _ _) as [p' fire]. destruct (monitor_hour _ _ _ _ _) as [m' fire']. destruct H as [-> R'].
    split; [reflexivity|]. split; [exact R'|]. split; [reflexivity|]. split; [reflexivity|]. cbn [bh_flash ms_flash].
    destruct ok; [by apply restore_rel|exact Rf].
  - split; [reflexivity|]. unfold band_health_note_survey, sys_rel. rewrite <- E2. destruct (2 <=? n); cbn; rewrite ?orb_true_r, ?orb_false_r; done.
  - split; [reflexivity|]. done.
Qed.

Lemma run_rel evs : (bh_run evs).2 = (monitor_run evs).2 /\ sys_rel (bh_run evs).1 (monitor_run evs).1.
Proof.
  unfold bh_run, monitor_run. induction evs as [|ev evs [IH1 IH2]] using rev_ind.
  - split; [reflexivity|]. split; [exact zero_rel|]. split; [reflexivity|]. split; [reflexivity|exact zero_rel].
  - rewrite !fold_left_app. cbn [fold_left]. destruct (fold_left bh_step _ _) as [s f]. destruct (fold_left monitor_step _ _) as [a f'].
    cbn [fst snd] in IH1, IH2. subst f'. pose proof (step_rel s a f ev IH2) as H. destruct (bh_step _ _) as [s' g]. by destruct (monitor_step _ _) as [a' g'].
Qed.

(** C15: the ring is a log.  Through hours, surveys, failed flash writes and
    reboots the monitor fires exactly when the abstract one does, which keeps the
    last 168 hours as a list and judges them by the middle of the sorted list:
    at least 48 hours tracked, a baseline frozen at the first full window with a
    positive median, the present median below 60 percent of it, no cooldown and
    no scan in progress. *)
Theorem band_health_refines evs :
  (bh_run evs).2 = (monitor_run evs).2 /\ bh_rel (bh (bh_run evs).1) (ms (monitor_run evs).1).
Proof. destruct (run_rel evs) as [H [H' _]]. by split. Qed.

(** ** Spacing *)

Lemma cool_hour sample done dr busy m : mo_cool m <= 24 ->
  let '(m', fire) := monitor_hour sample done dr busy m in
  (fire = true -> mo_cool m <= 1 /\ done = false /\ mo_cool m' = 24) /\ (fire = false -> mo_cool m - 1 <= mo_cool m') /\
  (done = true -> mo_cool m' = 24) /\ mo_cool m' <= 24.
Proof.
  intros H24. unfold monitor_hour. cbv zeta. set (m2 := Monitor _ _ _). destruct (stale m2); cbn [andb].
  2:{ split; [done|]. unfold m2. cbn [mo_cool]. split; [intros _; destruct (done || dr); lia|]. split; [by intros ->|destruct (done || dr); lia]. }
  destruct (Z.eqb_spec (if done || dr then 24 else Z.max 0 (mo_cool m - 1)) 0) as [E|E]; cbn [andb].
  - destruct done, dr; cbn [orb] in E; try lia. destruct (negb busy); cbn [mo_cool m2 orb].
    + split; [intros _; split; [lia|by split]|]. split; [done|]. split; [done|lia].
    + split; [done|]. split; [lia|]. split; [done|lia].
  - split; [done|]. unfold m2. cbn [mo_cool]. split; [intros _; destruct (done || dr); lia|]. split; [by intros ->|destruct (done || dr); lia].
Qed.

(** Every hour that fired wrote its state to flash. *)
Definition fires_written (evs : list bh_event) : Prop :=
  forall pre lw dr busy ok post, evs = pre ++ Hour lw dr busy ok :: post ->
    (bh_hour_task lw dr busy ok (bh_run pre).1).2 = true -> ok = true.

Definition cooling (m : monitor) (fires : list bool) : Prop :=
  forall k, fires !! k = Some true -> 24 - Z.of_nat k <= mo_cool m.

Definition fires_apart (fires : list bool) : Prop :=
  forall i j, (i < j)%nat -> fires !! i = Some true -> fires !! j = Some true -> (i + 24 <= j)%nat.

Lemma run_snoc evs ev : bh_run (evs ++ [ev]) = bh_step (bh_run evs) ev /\ monitor_run (evs ++ [ev]) = monitor_step (monitor_run evs) ev.
Proof. unfold bh_run, monitor_run. by rewrite !fold_left_app. Qed.

Lemma run_cooling evs : fires_written evs ->
  let '(a, fires) := monitor_run evs in fires_apart fires /\ cooling (ms a) fires /\ cooling (ms_flash a) fires.
Proof.
  induction evs as [|ev evs IH] using rev_ind; intros Hw; [split_and!; intros i; cbn; done|].
  specialize (IH ltac:(intros pre lw dr busy ok post E; apply (Hw pre lw dr busy ok (post ++ [ev])); rewrite E, <- app_assoc; reflexivity)).
  destruct (run_snoc evs ev) as [Es ->]. destruct (run_rel evs) as [Ef Hr].
  destruct (bh_run evs) as [s f] eqn:Eb. destruct (monitor_run evs) as [a fires] eqn:Em. cbn [fst snd] in Ef, Hr. subst f. destruct IH as (Ha & Hc & Hfl).
  destruct ev as [lw dr busy ok|n|]; cbn [monitor_step]; [|by split_and!..].
  pose proof (step_rel s a fires (Hour lw dr busy ok) Hr) as Hstep. cbn [bh_step monitor_step] in Hstep.
  assert (Hok : (bh_hour_task lw dr busy ok s).2 = true -> ok = true).
  { intros H. apply (Hw evs lw dr busy ok []); [done|]. by rewrite Eb. }
  set (x := Z.min _ _) in *. pose proof (cool_hour x (ms_done a) dr busy (ms a) (proj2 (br_cool24 _ _ (proj1 Hr)))) as Hcool.
  destruct (monitor_hour x (ms_done a) dr busy (ms a)) as [m' fire]. destruct (bh_hour_task lw dr busy ok s) as [s' fire0]. cbn [fst snd] in *.
  destruct Hstep as [Ehd _]. injection Ehd as ->. destruct Hcool as (Hf1 & Hf2 & _ & _). cbn [ms ms_flash].
  assert (Hc' : cooling m' (fire :: fires)).
  { intros [|k] Hk; cbn in Hk; [injection Hk as ->; destruct (Hf1 eq_refl) as (_ & _ & ->); lia|]. specialize (Hc k Hk).
    destruct fire; [destruct (Hf1 eq_refl) as (_ & _ & ->); lia|specialize (Hf2 eq_refl); lia]. }
  split; [|split; [exact Hc'|]].
  - intros [|i] [|j] Hij Hi Hj; cbn in Hi, Hj; [lia| |lia|specialize (Ha i j ltac:(lia) Hi Hj); lia].
    injection Hi as ->. specialize (Hc j Hj). destruct (Hf1 eq_refl) as (H1 & _). lia.
  - destruct ok; [exact Hc'|]. intros [|k] Hk; cbn in Hk; [injection Hk as ->; by specialize (Hok eq_refl)|]. specialize (Hfl k Hk). lia.
Qed.

(** C31: no two fires within 24 hours of uptime, across any reboots, as long as
    each hour that fired could write its state to flash; and none in the 24
    hours that follow an integrated survey, unless the receiver reboots before
    the first of them ends. *)
Theorem band_health_fires_apart evs :
  fires_written evs ->
  (forall i j, (i < j)%nat -> (bh_run evs).2 !! i = Some true -> (bh_run evs).2 !! j = Some true -> (i + 24 <= j)%nat) /\
  (forall pre n post, evs = pre ++ NoteSurvey n :: post -> 2 <= n -> Forall (fun ev => ev <> Reboot) post ->
    forall k, (k < 24)%nat -> (length (bh_run evs).2 <= length (bh_run pre).2 + 24)%nat ->
    (k + length (bh_run pre).2 < length (bh_run evs).2)%nat -> (bh_run evs).2 !! k = Some false).
Proof.
  intros Hw. split.
  - destruct (run_rel evs) as [-> _]. pose proof (run_cooling evs Hw) as H. destruct (monitor_run evs) as [a fires]. apply H.
  - intros pre n post -> Hn Hnr k Hk. pose proof (proj2 (br_cool24 _ _ (proj1 (proj2 (run_rel pre))))) as H24. rewrite (proj1 (run_rel pre)), (proj1 (run_rel _)). clear Hw Hk.
    unfold monitor_run in *. rewrite fold_left_app. cbn [fold_left monitor_step]. destruct (fold_left monitor_step pre _) as [a fires]. cbn [monitor_step fst snd] in *.
    rewrite (proj2 (Z.leb_le _ _) Hn), orb_true_r.
    assert (H : let '(a', f) := fold_left monitor_step post (MonitorSys (ms a) (ms_last a) true (ms_flash a), fires) in
      mo_cool (ms a') <= 24 /\ exists new, f = new ++ fires /\ (new = [] /\ ms_done a' = true \/ new <> [] /\ 25 - Z.of_nat (length new) <= mo_cool (ms a')) /\
        ((length new <= 24)%nat -> Forall (fun b => b = false) new)).
    { induction post as [|ev post IH] using rev_ind; [split; [exact H24|]; exists []; cbn; split_and!; [done|by left|constructor]|].
      apply Forall_app in Hnr as [Hnr Hev]. specialize (IH Hnr). rewrite fold_left_app. cbn [fold_left].
      destruct (fold_left monitor_step post _) as [a' f]. destruct IH as (H24' & new & -> & Hinv & Hall).
      destruct ev as [lw dr busy ok|m|]; cbn [monitor_step].
      - set (x := Z.min _ _). pose proof (cool_hour x (ms_done a') dr busy (ms a') H24') as Hcool. destruct (monitor_hour x _ dr busy _) as [m' fire].
        destruct Hcool as (H1 & H2 & H3 & H4). split; [exact H4|]. exists (fire :: new). split; [done|]. cbn [ms length]. split.
        + right. split; [done|]. destruct Hinv as [[-> Hd]|[Hne Hc]]; [rewrite (H3 Hd); cbn; lia|].
          destruct fire; [destruct (H1 eq_refl) as (_ & _ & ->); lia|specialize (H2 eq_refl); lia].
        + intros Hl. constructor; [|apply Hall; lia]. destruct fire; [|done]. destruct (H1 eq_refl) as (Hc1 & Hd & _).
          destruct Hinv as [[-> Hd']|[Hne Hc]]; [congruence|lia].
      - split; [exact H24'|]. exists new. split; [done|]. cbn [ms ms_done]. split; [|done]. destruct Hinv as [[-> Hd]|Hinv]; [left; by rewrite Hd|by right].
      - inversion Hev; done. }
    destruct (fold_left monitor_step post _) as [a' f]. destruct H as (_ & new & -> & _ & Hall). cbn [snd]. rewrite length_app. intros Hl1 Hl2.
    assert (Hkn : (k < length new)%nat) by lia. rewrite lookup_app_l by done.
    destruct (lookup_lt_is_Some_2 new k Hkn) as [b Hb]. specialize (Hall ltac:(lia)). rewrite list.Forall_forall in Hall.
    by rewrite Hb, (Hall b (list_elem_of_lookup_2 _ _ _ Hb)).
Qed.

(** ** Runs *)

(** A week at 10 frames an hour, then silence: it fires once the zeros are the
    majority, and again 24 hours later. *)
Definition silent_band : list bh_event :=
  map (fun i => Hour (10 * Z.of_nat (Nat.min (S i) 168)) false false true) (seq 0 280) .

Lemma hours_written evs : Forall (fun ev => match ev with Hour _ _ _ ok => ok = true | _ => True end) evs -> fires_written evs.
Proof. intros H pre lw dr busy ok post -> _. apply Forall_app in H as [_ H]. by apply Forall_cons_1 in H as [H _]. Qed.

Lemma band_health_fires_apart_witness :
  (bh_run silent_band).2 !! 3%nat = Some true /\ (bh_run silent_band).2 !! 27%nat = Some true /\
  (forall j, (3 < j)%nat -> (bh_run silent_band).2 !! j = Some true -> (27 <= j)%nat).
Proof.
  assert (Hw : fires_written silent_band)
    by (apply hours_written, List.Forall_forall; intros ev (i & <- & _)%in_map_iff; reflexivity).
  destruct (band_health_fires_apart silent_band Hw) as [H _].
  assert (E3 : (bh_run silent_band).2 !! 3%nat = Some true) by (vm_compute; reflexivity).
  split; [exact E3|]. split; [vm_compute; reflexivity|]. intros j Hj Ej. exact (H 3%nat j Hj E3 Ej).
Defined.

(** An hour folded into the next during commissioning can cause a fire.  From
    the same 167 hours the rates 50, 50, 40 do not fire; with the tick between
    the first two skipped they do. *)
Definition almost_commissioned : bh_state :=
  BhState (BhPersist 167 167 0 0 0 (0 :: replicate 83 100 ++ replicate 84 40)) 0 false None.

Example folded_hour_fires :
  (let '(s, f1) := bh_hour_task 50 false false true almost_commissioned in
   let '(s, f2) := bh_hour_task 100 false false true s in
   let '(s, f3) := bh_hour_task 140 false false true s in (f1, f2, f3)) = (false, false, false) /\
  (let '(s, f1) := bh_hour_task 100 false false true almost_commissioned in
   let '(s, f2) := bh_hour_task 140 false false true s in (f1, f2)) = (false, true).
Proof. split; vm_compute; reflexivity. Qed.
