(* ===== verification/Scanner.v ===== *)
(** The density scanner
    (src/p4-usb-host/main/scanner_map.c, scanner.c).

    A survey visits a grid of centre frequencies several times, adds up the
    bursts counted at each, publishes the sums as the last map and parks on the
    centre of highest narrowband rate, those in the ring-alert region counting a
    quarter.  The tuner and the burst counters are inputs: for each visit the
    counts, or nothing when the tuner could not be moved.  Rates are
    single-precision floats, each operation rounded on its own.  Log lines and
    the detector's resets are left out. *)

From Stdlib Require Import SpecFloat.
From S2P Require Import Prelude SignalBuffer WorkerQueue.

Definition SCANNER_MAX_POSITIONS : Z := 16.
Definition SCANNER_IRA_REGION_LO_HZ : Z := 1624000000.

Definition fmul : float -> float -> float := SFmul 24 128.
Definition fdiv : float -> float -> float := SFdiv 24 128.
Definition SCANNER_IRA_RANK_WEIGHT : float := fdiv (float_of 1) (float_of 4).

Record scanner_pos := ScannerPos {
  center_hz : Z; narrowband_bursts : Z; all_bursts : Z; mean_snr_db : float; pos_dwell_ms : Z }.

Definition pos_zero (hz : Z) : scanner_pos := ScannerPos hz 0 0 (float_of 0) 0.

(** ** The map *)

(** The loop from [f] with room for [room] more. *)
Fixpoint enumerate_from (room : nat) (f stop_hz step_hz : Z) : list Z :=
  match room with
  | O => []
  | S room => if f <=? stop_hz then f :: enumerate_from room (u32 (f + step_hz)) stop_hz step_hz else []
  end.

Definition scanner_enumerate_centers (start_hz stop_hz step_hz max : Z) : list Z :=
  if (step_hz =? 0) || (stop_hz <? start_hz) || (max <=? 0) then []
  else enumerate_from (Z.to_nat max) start_hz stop_hz step_hz.

Definition scanner_pos_narrowband_rate (p : scanner_pos) : float :=
  if pos_dwell_ms p =? 0 then float_of 0
  else fdiv (fmul (float_of (narrowband_bursts p)) (float_of 1000)) (float_of (pos_dwell_ms p)).

Definition scanner_pos_accumulate (acc p : scanner_pos) : scanner_pos :=
  let total := u32 (all_bursts acc + all_bursts p) in
  ScannerPos (center_hz acc) (u32 (narrowband_bursts acc + narrowband_bursts p)) total
    (if 0 <? all_bursts p then
       fdiv (fadd (fmul (mean_snr_db acc) (float_of (all_bursts acc))) (fmul (mean_snr_db p) (float_of (all_bursts p)))) (float_of total)
     else mean_snr_db acc)
    (u32 (pos_dwell_ms acc + pos_dwell_ms p)).

Definition scanner_pos_ranked_rate (p : scanner_pos) : float :=
  let r := scanner_pos_narrowband_rate p in
  if SCANNER_IRA_REGION_LO_HZ <=? center_hz p then fmul r SCANNER_IRA_RANK_WEIGHT else r.

(** [i] in range, as the callers keep it. *)
Definition pos_at (pos : list scanner_pos) (i : nat) : scanner_pos := nth i pos (pos_zero 0).

Definition rank_rate (ira_penalty : bool) (p : scanner_pos) : float :=
  if ira_penalty then scanner_pos_ranked_rate p else scanner_pos_narrowband_rate p.

Definition rank_by (pos : list scanner_pos) (ira_penalty : bool) : Z :=
  if (length pos =? 0)%nat then -1 else
  let rate i := rank_rate ira_penalty (pos_at pos i) in
  Z.of_nat (forN (length pos - 1) (fun k '(best, best_rate) =>
    let r := rate (S k) in if SFltb best_rate r then (S k, r) else (best, best_rate)) (0%nat, rate 0%nat)).1.

Definition scanner_rank_hottest (pos : list scanner_pos) : Z := rank_by pos true.
Definition scanner_rank_hottest_raw (pos : list scanner_pos) : Z := rank_by pos false.

(** ** The survey *)

(** [s_map] with its length, [s_last_hot_hz], [s_cur_hz], and the frequency in
    the configuration. *)
Record scanner := Scanner { s_map : list scanner_pos; s_last_hot_hz : Z; s_cur_hz : Z; nvs_lo_hz : Z }.

(** [ok]: [class_driver_retune] succeeded. *)
Definition scanner_hop (ok : bool) (hz : Z) (persist : bool) (s : scanner) : scanner :=
  if ok then Scanner (s_map s) (s_last_hot_hz s) hz (if persist then hz else nvs_lo_hz s) else s.

(** What one visit of a centre finds: the counts of its dwell, or no hop. *)
Record density := Density { d_narrowband : Z; d_all : Z; d_snr : float }.

(** One pass: the state and [out]. *)
Fixpoint sweep_once (centers : list Z) (dwell_ms : Z) (env : list (option density)) (s : scanner) : scanner * list scanner_pos :=
  match centers, env with
  | hz :: centers, Some d :: env =>
      let '(s, out) := sweep_once centers dwell_ms env (scanner_hop true hz false s) in
      (s, ScannerPos hz (d_narrowband d) (d_all d) (d_snr d) dwell_ms :: out)
  | hz :: centers, None :: env =>
      let '(s, out) := sweep_once centers dwell_ms env s in (s, pos_zero hz :: out)
  | _, _ => (s, [])
  end.

Definition survey_sweep (centers : list Z) (dwell_ms : Z) (x : scanner * list scanner_pos) (env : list (option density)) : scanner * list scanner_pos :=
  let '(s, acc) := x in
  let '(s, sweep) := sweep_once centers dwell_ms env s in
  (s, zip_with scanner_pos_accumulate acc sweep).

(** [env]: the visits of each sweep, one per sweep asked for (at least one);
    [park_ok]: the last hop succeeded.  The second result: whether the survey
    ran, in which case [band_health_note_survey] is told the number of sweeps. *)
Definition scanner_survey (start_hz stop_hz step_hz dwell_ms : Z) (env : list (list (option density))) (park_ok : bool) (s : scanner)
  : scanner * bool :=
  let centers := scanner_enumerate_centers start_hz stop_hz step_hz SCANNER_MAX_POSITIONS in
  if (length centers =? 0)%nat then (s, false) else
  let '(s, acc) := fold_left (survey_sweep centers dwell_ms) env (s, map pos_zero centers) in
  let s := Scanner acc (s_last_hot_hz s) (s_cur_hz s) (nvs_lo_hz s) in
  let hot := scanner_rank_hottest acc in
  if 0 <=? hot then
    let hz := center_hz (pos_at acc (Z.to_nat hot)) in
    let s := scanner_hop park_ok hz false s in
    (Scanner (s_map s) hz (s_cur_hz s) (nvs_lo_hz s), true)
  else (s, true).

Definition scanner_get_last_map (max : Z) (s : scanner) : list scanner_pos :=
  if max <=? 0 then [] else take (Z.to_nat max) (s_map s).

(** ** The grid *)

Lemma enumerate_progression room f stop step : 0 < step -> 0 <= f -> 0 <= stop -> stop + step < 2 ^ 32 ->
  enumerate_from room f stop step =
  map (fun i => f + Z.of_nat i * step) (seq 0 (Nat.min room (Z.to_nat ((stop + step - f) / step)))).
Proof.
  intros Hs Hf Hst Hw. revert f Hf. induction room as [|room IH]; intros f Hf; [done|]. cbn [enumerate_from].
  destruct (Z.leb_spec f stop) as [Hle|Hgt].
  - rewrite u32_small by lia. rewrite IH by lia.
    replace ((stop + step - f) / step) with ((stop + step - (f + step)) / step + 1)
      by (rewrite <- (Z.div_add _ 1 step) by lia; f_equal; lia).
    assert (0 <= (stop + step - (f + step)) / step) by (apply Z.div_pos; lia).
    rewrite Z2Nat.inj_add by lia. rewrite Nat.add_1_r. cbn [Nat.min seq map].
    f_equal; [lia|]. rewrite <- seq_shift, map_map. apply map_ext. intros i. lia.
  - assert (E : (stop + step - f) / step < 1) by (apply Z.div_lt_upper_bound; lia).
    replace (Z.to_nat ((stop + step - f) / step)) with 0%nat by lia. by rewrite Nat.min_0_r.
Qed.

(** The grid.  Unless the last step leaves 32 bits, the centres are start,
    start + step and so on, as far as stop and as many as there is room for. *)
Theorem scanner_grid start stop step max :
  0 < step -> is_u 32 start -> is_u 32 stop -> stop + step < 2 ^ 32 -> 0 <= max ->
  scanner_enumerate_centers start stop step max =
  map (fun i => start + Z.of_nat i * step) (seq 0 (Nat.min (Z.to_nat max) (Z.to_nat ((stop + step - start) / step)))).
Proof.
  unfold is_u. intros Hs Ha Hb Hw Hm. unfold scanner_enumerate_centers. rewrite (proj2 (Z.eqb_neq step 0)) by lia. cbn [orb].
  destruct (Z.ltb_spec stop start) as [H|H]; cbn [orb].
  - assert ((stop + step - start) / step < 1) by (apply Z.div_lt_upper_bound; lia).
    replace (Z.to_nat ((stop + step - start) / step)) with 0%nat by lia. by rewrite Nat.min_0_r.
  - destruct (Z.leb_spec max 0) as [H0|H0]; [by replace max with 0 by lia|]. by rewrite enumerate_progression by lia.
Qed.

Lemma scanner_grid_witness :
  scanner_enumerate_centers 1618000000 1626000000 1250000 16 =
  map (fun i => 1618000000 + Z.of_nat i * 1250000) (seq 0 7).
Proof.
  rewrite (scanner_grid 1618000000 1626000000 1250000 16);
    [reflexivity|reflexivity|split; [discriminate|reflexivity]|split; [discriminate|reflexivity]|reflexivity|discriminate].
Defined.

(** Near the end of the range the counter wraps and the grid goes on below its
    start. *)
Example scanner_grid_wraps : scanner_enumerate_centers 1618000000 4294967295 1500000000 16 !! 2%nat = Some 323032704.
Proof. reflexivity. Qed.

(** ** Sums *)

Definition zsum {A} (f : A -> Z) (l : list A) : Z := foldr Z.add 0 (map f l).

Section zsum.
Context {A : Type}.
Implicit Types (f g : A -> Z) (l : list A).

Lemma zsum_cons f x l : zsum f (x :: l) = f x + zsum f l.
Proof. done. Qed.

Lemma zsum_app f l1 l2 : zsum f (l1 ++ l2) = zsum f l1 + zsum f l2.
Proof. induction l1 as [|x l1 IH]; [done|]. cbn [app]. rewrite !zsum_cons, IH. lia. Qed.

Lemma zsum_ext f g l : (forall x, x ∈ l -> f x = g x) -> zsum f l = zsum g l.
Proof.
  induction l as [|x l IH]; intros H; [done|]. rewrite !zsum_cons. rewrite (H x) by (by left).
  rewrite IH; [done|]. intros y Hy. apply H. by right.
Qed.

Lemma zsum_le f g l : (forall x, x ∈ l -> f x <= g x) -> zsum f l <= zsum g l.
Proof.
  induction l as [|x l IH]; intros H; [done|]. rewrite !zsum_cons. pose proof (H x ltac:(by left)).
  specialize (IH (fun y Hy => H y ltac:(by right))). lia.
Qed.

Lemma zsum_zero l : zsum (fun _ => 0) l = 0.
Proof. induction l as [|x l IH]; [done|]. by rewrite zsum_cons, IH. Qed.

Lemma zsum_plus f g l : zsum (fun x => f x + g x) l = zsum f l + zsum g l.
Proof. induction l as [|x l IH]; [done|]. rewrite !zsum_cons, IH. lia. Qed.

Lemma zsum_nonneg f l : (forall x, 0 <= f x) -> 0 <= zsum f l.
Proof. intros H. rewrite <- (zsum_zero l). apply zsum_le. auto. Qed.
End zsum.

Lemma zsum_swap {A B} (f : A -> B -> Z) (l : list A) (m : list B) :
  zsum (fun x => zsum (f x) m) l = zsum (fun y => zsum (fun x => f x y) l) m.
Proof.
  induction l as [|x l IH]; [by rewrite zsum_zero|]. rewrite zsum_cons, IH, <- zsum_plus. by apply zsum_ext.
Qed.

(** ** The map is the sum of the sweeps *)

Definition visit_pos (dwell_ms hz : Z) (v : option density) : scanner_pos :=
  match v with Some d => ScannerPos hz (d_narrowband d) (d_all d) (d_snr d) dwell_ms | None => pos_zero hz end.

Lemma sweep_once_spec centers dwell env s : length env = length centers ->
  let '(s', out) := sweep_once centers dwell env s in
  out = zip_with (visit_pos dwell) centers env /\ s_map s' = s_map s /\ s_last_hot_hz s' = s_last_hot_hz s /\ nvs_lo_hz s' = nvs_lo_hz s.
Proof.
  revert env s. induction centers as [|hz centers IH]; intros [|v env] s Hl; try done. cbn [sweep_once length zip_with] in *.
  destruct v as [d|].
  - specialize (IH env (scanner_hop true hz false s) ltac:(lia)). destruct (sweep_once _ _ _ _) as [s' out].
    destruct IH as (-> & -> & -> & ->). done.
  - specialize (IH env s ltac:(lia)). destruct (sweep_once _ _ _ _) as [s' out]. destruct IH as (-> & -> & -> & ->). done.
Qed.

(** What was counted at centre [i] over all sweeps. *)
Definition visits (env : list (list (option density))) (i : nat) : list density := omap (fun sweep => mjoin (sweep !! i)) env.

Definition sums_to (dwell_ms : Z) (vs : list density) (hz : Z) (p : scanner_pos) : Prop :=
  center_hz p = hz /\ narrowband_bursts p = u32 (zsum d_narrowband vs) /\
  all_bursts p = u32 (zsum d_all vs) /\ pos_dwell_ms p = u32 (Z.of_nat (length vs) * dwell_ms).

Lemma accumulate_sums dwell vs hz p v : sums_to dwell vs hz p ->
  sums_to dwell (vs ++ match v with Some d => [d] | None => [] end) hz (scanner_pos_accumulate p (visit_pos dwell hz v)).
Proof.
  intros (H1 & H2 & H3 & H4). unfold sums_to, scanner_pos_accumulate. rewrite !zsum_app, length_app.
  destruct v as [d|]; cbn [visit_pos pos_zero zsum map foldr length center_hz narrowband_bursts all_bursts pos_dwell_ms]; rewrite H1, H2, H3, H4;
    (split; [done|]); unfold u32; rewrite !Zplus_mod_idemp_l; split_and!; f_equal; lia.
Qed.

Lemma survey_sums centers dwell env s : Forall (fun e => length e = length centers) env ->
  let '(s', acc) := fold_left (survey_sweep centers dwell) env (s, map pos_zero centers) in
  (s_map s' = s_map s /\ s_last_hot_hz s' = s_last_hot_hz s /\ nvs_lo_hz s' = nvs_lo_hz s) /\ length acc = length centers /\
  forall i hz, centers !! i = Some hz -> sums_to dwell (visits env i) hz (pos_at acc i).
Proof.
  induction env as [|e env IH] using rev_ind; intros Hl.
  - cbn [fold_left]. split; [done|]. rewrite length_map. split; [done|]. intros i hz Hi. unfold pos_at.
    assert (E : map pos_zero centers !! i = Some (pos_zero hz)) by (rewrite list_lookup_fmap'; by rewrite Hi).
    by rewrite (nth_lookup_total _ _ _ _ E).
  - apply Forall_app in Hl as [Hl He]. apply Forall_cons_1 in He as [He _]. specialize (IH Hl). rewrite fold_left_app. cbn [fold_left].
    destruct (fold_left _ env _) as [s1 acc]. destruct IH as ((E1 & E2 & E3) & Hla & Hs). unfold survey_sweep.
    pose proof (sweep_once_spec centers dwell e s1 He) as Hsw. destruct (sweep_once _ _ _ _) as [s2 out]. destruct Hsw as (-> & F1 & F2 & F3).
    rewrite F1, F2, F3. split; [done|]. rewrite length_zip_with, length_zip_with. split; [lia|]. intros i hz Hi.
    pose proof (lookup_lt_Some _ _ _ Hi) as Hil. destruct (lookup_lt_is_Some_2 acc i ltac:(lia)) as [p Hp].
    destruct (lookup_lt_is_Some_2 e i ltac:(lia)) as [v Hv]. specialize (Hs i hz Hi). unfold pos_at in Hs. rewrite (nth_lookup_total _ _ _ _ Hp) in Hs.
    assert (E : zip_with scanner_pos_accumulate acc (zip_with (visit_pos dwell) centers e) !! i =
      Some (scanner_pos_accumulate p (visit_pos dwell hz v))) by (rewrite !lookup_zip_with; by rewrite Hp, Hi, Hv).
    unfold pos_at. rewrite (nth_lookup_total _ _ _ _ E). unfold visits. rewrite omap_app. cbn [omap list_omap]. rewrite Hv.
    pose proof (accumulate_sums dwell _ hz p v Hs) as H. destruct v; exact H.
Qed.

(** ** Where it parks *)

Lemma rank_by_spec pos pen : pos <> [] ->
  exists i, rank_by pos pen = Z.of_nat i /\ (i < length pos)%nat /\
    forall j, (j < length pos)%nat -> SFltb (rank_rate pen (pos_at pos i)) (rank_rate pen (pos_at pos j)) = false.
Proof.
  intros Hne. unfold rank_by. assert (Hl : (1 <= length pos)%nat) by (destruct pos; cbn; [done|lia]).
  rewrite (proj2 (Nat.eqb_neq _ _)) by lia. cbv zeta.
  pose proof (pq_argmax_spec (fun i => rank_rate pen (pos_at pos i)) (length pos) Hl) as H. unfold pq_argmax in H.
  destruct (forN _ _ _) as [i r]. destruct H as (Hi & -> & Hmax). exists i. by split_and!.
Qed.

(** What a survey does.  The map it publishes holds, centre by centre, the
    sums over all sweeps of the bursts and of the dwell of the visits that
    succeeded; it reports a centre that no other outranks, moves the tuner there
    if the tuner can be moved, and never touches the configured frequency. *)
Theorem scanner_survey_integrates start stop step dwell env park_ok s :
  let centers := scanner_enumerate_centers start stop step SCANNER_MAX_POSITIONS in
  centers <> [] -> Forall (fun sweep => length sweep = length centers) env ->
  let '(s', ran) := scanner_survey start stop step dwell env park_ok s in
  ran = true /\ nvs_lo_hz s' = nvs_lo_hz s /\ length (s_map s') = length centers /\
  (forall i hz, centers !! i = Some hz -> sums_to dwell (visits env i) hz (pos_at (s_map s') i)) /\
  exists i hz, centers !! i = Some hz /\ s_last_hot_hz s' = hz /\ (park_ok = true -> s_cur_hz s' = hz) /\
    forall j, (j < length centers)%nat ->
      SFltb (scanner_pos_ranked_rate (pos_at (s_map s') i)) (scanner_pos_ranked_rate (pos_at (s_map s') j)) = false.
Proof.
  intros centers Hne Hl. unfold scanner_survey. fold centers.
  rewrite (proj2 (Nat.eqb_neq _ _)) by (destruct centers; cbn; [done|lia]).
  pose proof (survey_sums centers dwell env s Hl) as H. destruct (fold_left _ env _) as [s1 acc].
  destruct H as ((_ & _ & Hn) & Hla & Hs).
  destruct (rank_by_spec acc true) as (i & Ei & Hi & Hmax); [destruct acc, centers; cbn in Hla; done|].
  unfold scanner_rank_hottest. cbv zeta. rewrite Ei. rewrite (proj2 (Z.leb_le 0 _)) by lia. rewrite Nat2Z.id.
  destruct (lookup_lt_is_Some_2 centers i ltac:(lia)) as [hz Hz]. pose proof (proj1 (Hs i hz Hz)) as Ehz.
  split; [reflexivity|]. cbn [s_map nvs_lo_hz s_last_hot_hz s_cur_hz scanner_hop]. rewrite Ehz.
  assert (Em : s_map (scanner_hop park_ok hz false (Scanner acc (s_last_hot_hz s1) (s_cur_hz s1) (nvs_lo_hz s1))) = acc) by (by destruct park_ok).
  rewrite Em. split; [by destruct park_ok|]. split; [done|]. split; [exact Hs|].
  exists i, hz. split; [done|]. split; [reflexivity|]. split; [by intros ->|]. intros j Hj. apply Hmax. lia.
Qed.

Definition two_sweeps : list (list (option density)) :=
  [[Some (Density 10 12 (float_of 9)); None; Some (Density 30 40 (float_of 8))];
   [Some (Density 4 5 (float_of 9)); Some (Density 20 21 (float_of 7)); Some (Density 40 50 (float_of 8))]].

Lemma scanner_survey_integrates_witness :
  let '(s, ran) := scanner_survey 1621500000 1624000000 1250000 5000 two_sweeps true (Scanner [] 0 0 1622000000) in
  ran = true /\ nvs_lo_hz s = 1622000000 /\ s_cur_hz s = 1622750000 /\
  map narrowband_bursts (s_map s) = [14; 20; 70] /\ map pos_dwell_ms (s_map s) = [10000; 5000; 10000].
Proof.
  pose proof (scanner_survey_integrates 1621500000 1624000000 1250000 5000 two_sweeps true (Scanner [] 0 0 1622000000)
    ltac:(discriminate) ltac:(repeat constructor)) as H.
  destruct (scanner_survey _ _ _ _ _ _ _) as [s ran] eqn:E. destruct H as (Hr & Hn & _).
  split; [exact Hr|]. split; [exact Hn|]. revert E. vm_compute. intros E. injection E as <- <-. repeat split.
Defined.
