(* ===== verification/DecodeSurvey.v ===== *)
(** The decode-based band survey
    (src/p4-usb-host/main/decode_survey.c, decode_survey_core.h, and the
    frequency histogram of frame_decoder.c).

    A density pre-pass chooses up to eight centre frequencies; they are visited
    in turn, five minutes each, and the ACARS-bearing frames classified during a
    visit are credited to its centre and, by frequency, to a histogram of the
    band; centres that the leader provably beats are dropped; at the end the
    receiver parks where its window holds most of the histogram.  What the
    decoder counted, the clock, failed hops and abort requests are inputs.
    Floats are binary32 or binary64 as in the code, each operation rounded on
    its own.  Log lines, the status page's copies and the waits are left out,
    except for the lengths of the waits. *)

From Stdlib Require Import SpecFloat.
From S2P Require Import Prelude FrameDecoder SignalBuffer WorkerQueue WorkerEmit Scanner.

Definition double_of (z : Z) : float := binary_normalize 53 1024 z 0 false.
Definition dadd : float -> float -> float := SFadd 53 1024.
Definition dsub : float -> float -> float := SFsub 53 1024.
Definition dmul : float -> float -> float := SFmul 53 1024.
Definition ddiv : float -> float -> float := SFdiv 53 1024.
Definition dsqrt : float -> float := SFsqrt 53 1024.
Definition one_half : float := S754_finite false 1 (-1).

Definition DS_ELIM_Z : float := float_of 3.
Definition DS_FLOOR_DWELL_MS : Z := 2 * 3600 * 1000.
Definition DS_FLOOR_VISITS : Z := 24.
Definition DS_MAX_CENTERS : nat := 8.
Definition DS_DEFAULT_K : Z := 4.
Definition DS_DEFAULT_BUDGET_H : Z := 24.
Definition DS_VISIT_MS : Z := 300000.
Definition DS_PLACE_STEP_HZ : Z := 250000.
Definition SCAN_START_HZ : Z := 1618000000.
Definition SCAN_STOP_HZ : Z := 1626000000.
Definition SCAN_STEP_HZ : Z := 1250000.

(** ** Centres *)

Record ds_center := DsCenter {
  dc_hz : Z; lw_da : Z; lw_da_valid : Z; nb_bursts : Z; dc_dwell_ms : Z; dc_visits : Z; eliminated : bool }.

Definition ds_center_add_visit (c : ds_center) (lw_da_delta valid_delta nb_delta dwell_ms_delta : Z) : ds_center :=
  DsCenter (dc_hz c) (u32 (lw_da c + lw_da_delta)) (u32 (lw_da_valid c + valid_delta)) (u32 (nb_bursts c + nb_delta))
    (u64 (dc_dwell_ms c + dwell_ms_delta)) (u32 (dc_visits c + 1)) (eliminated c).

Definition ds_center_rate_per_h (c : ds_center) : float :=
  if dc_dwell_ms c =? 0 then float_of 0
  else fdiv (fmul (float_of (lw_da c)) (float_of 3600000)) (float_of (dc_dwell_ms c)).

Definition ds_lead_beats (lead_cnt lead_dwell_ms cand_cnt cand_dwell_ms : Z) (z : float) : bool :=
  if (lead_dwell_ms =? 0) || (cand_dwell_ms =? 0) then false else
  let tl := ddiv (double_of lead_dwell_ms) (double_of 3600000) in
  let tc := ddiv (double_of cand_dwell_ms) (double_of 3600000) in
  let rl := ddiv (double_of lead_cnt) tl in
  let rc := ddiv (double_of cand_cnt) tc in
  let var := dadd (ddiv (dadd (double_of lead_cnt) one_half) (dmul tl tl)) (ddiv (dadd (double_of cand_cnt) one_half) (dmul tc tc)) in
  SFltb (dmul z (dsqrt var)) (dsub rl rc).

(** [i] in range. *)
Definition center_zero : ds_center := DsCenter 0 0 0 0 0 0 false.
Definition center_at (c : list ds_center) (i : nat) : ds_center := nth i c center_zero.

(** [best = -1], [best_rate = -1.0f]. *)
Definition ds_leader_index (c : list ds_center) : Z :=
  (forN (length c) (fun i '(best, best_rate) =>
    if eliminated (center_at c i) then (best, best_rate) else
    let r := ds_center_rate_per_h (center_at c i) in
    if SFltb best_rate r then (Z.of_nat i, r) else (best, best_rate)) (-1, float_of (-1))).1.

Definition ds_alive_count (c : list ds_center) : Z :=
  forN (length c) (fun i a => if eliminated (center_at c i) then a else a + 1) 0.

Definition ds_center_eligible (c : ds_center) (floor_dwell_ms floor_visits : Z) : bool :=
  negb (eliminated c) && (floor_dwell_ms <=? dc_dwell_ms c) && (floor_visits <=? dc_visits c).

Definition eliminate (c : ds_center) : ds_center :=
  DsCenter (dc_hz c) (lw_da c) (lw_da_valid c) (nb_bursts c) (dc_dwell_ms c) (dc_visits c) true.

(** The table, and the number dropped. *)
Definition ds_eliminate_pass (c : list ds_center) (z : float) (floor_dwell_ms floor_visits : Z) : list ds_center * Z :=
  let lead := ds_leader_index c in
  if lead <? 0 then (c, 0) else
  forN (length c) (fun i '(c, dropped) =>
    let x := center_at c i in let l := center_at c (Z.to_nat lead) in
    if (Z.of_nat i =? lead) || eliminated x then (c, dropped) else
    if negb (ds_center_eligible x floor_dwell_ms floor_visits) then (c, dropped) else
    if ds_lead_beats (lw_da l) (dc_dwell_ms l) (lw_da x) (dc_dwell_ms x) z
    then (<[i := eliminate x]> c, dropped + 1) else (c, dropped)) (c, 0).

Definition ds_converged (c : list ds_center) : bool := ds_alive_count c <=? 1.

(** ** The histogram of the band *)

Definition DS_ABS_HIST_LO_HZ : Z := 1618000000.
Definition DS_ABS_HIST_HI_HZ : Z := 1626000000.
Definition DS_ABS_HIST_BIN_HZ : Z := 125000.
Definition DS_ABS_HIST_BINS : nat := Z.to_nat ((DS_ABS_HIST_HI_HZ - DS_ABS_HIST_LO_HZ) / DS_ABS_HIST_BIN_HZ).

Definition ds_abs_hist_bin (abs_hz : Z) : Z :=
  if (abs_hz <? DS_ABS_HIST_LO_HZ) || (DS_ABS_HIST_HI_HZ <=? abs_hz) then -1
  else (abs_hz - DS_ABS_HIST_LO_HZ) / DS_ABS_HIST_BIN_HZ.

Definition ds_abs_hist_bin_center_hz (bin : nat) : Z :=
  u32 (DS_ABS_HIST_LO_HZ + Z.of_nat bin * DS_ABS_HIST_BIN_HZ + DS_ABS_HIST_BIN_HZ / 2).

Definition ds_abs_hist_add (hist : list Z) (abs_hz count : Z) : list Z :=
  let b := ds_abs_hist_bin abs_hz in
  if 0 <=? b then alter (fun n => u32 (n + count)) (Z.to_nat b) hist else hist.

Definition ds_window_integral (hist : list Z) (nbins : nat) (cand_center_hz rx_bw_hz : Z) : Z :=
  let half := rx_bw_hz / 2 in
  let lo := if half <? cand_center_hz then cand_center_hz - half else 0 in
  let hi := u32 (cand_center_hz + half) in
  forN nbins (fun b sum =>
    let f := ds_abs_hist_bin_center_hz b in if (lo <=? f) && (f <=? hi) then u32 (sum + rd hist b) else sum) 0.

(** The loop over the grid from [c]; [None]: [fuel] rounds do not end it. *)
Fixpoint window_loop (fuel : nat) (integral : Z -> Z) (c hi step best_center best_sum : Z) : option (Z * Z) :=
  if c <=? hi then
    match fuel with
    | O => None
    | S fuel =>
        let s := integral c in
        if best_sum <? s then window_loop fuel integral (u32 (c + step)) hi step c s
        else window_loop fuel integral (u32 (c + step)) hi step best_center best_sum
    end
  else Some (best_center, best_sum).

(** The fuel is enough unless the counter wraps. *)
Definition ds_best_window_center (hist : list Z) (nbins : nat) (rx_bw_hz grid_lo_hz grid_hi_hz grid_step_hz : Z) : option (Z * Z) :=
  if (grid_step_hz =? 0) || (grid_hi_hz <? grid_lo_hz) then Some (grid_lo_hz, 0) else
  window_loop (Z.to_nat ((grid_hi_hz - grid_lo_hz) / grid_step_hz + 1)) (fun c => ds_window_integral hist nbins c rx_bw_hz)
    grid_lo_hz grid_hi_hz grid_step_hz grid_lo_hz 0.

(** ** The decoder's histogram *)

Definition FRAME_DECODER_LWDA_FREQ_BINS : nat := 40.

Definition lwda_freq_bin (packed_peak_bin : Z) : nat :=
  let signed_bin := Z.land packed_peak_bin 0xFFFF - FFT_SIZE / 2 in
  let rel_hz := fdiv (fmul (float_of signed_bin) (float_of FS_DETECT_HZ)) (float_of FFT_SIZE) in
  let b := float_int (fdiv (fadd rel_hz (fdiv (float_of FS_DETECT_HZ) (float_of 2)))
                           (fdiv (float_of FS_DETECT_HZ) (float_of (Z.of_nat FRAME_DECODER_LWDA_FREQ_BINS)))) in
  let b := if b <? 0 then 0 else b in
  if Z.of_nat FRAME_DECODER_LWDA_FREQ_BINS <=? b then (FRAME_DECODER_LWDA_FREQ_BINS - 1)%nat else Z.to_nat b.

Definition lwda_freq_record (packed_peak_bin : Z) (lwda_freq : list Z) : list Z :=
  alter (fun n => u32 (n + 1)) (lwda_freq_bin packed_peak_bin) lwda_freq.

Definition frame_decoder_lwda_freq_bin_center_hz (bin : nat) : Z :=
  let w := ddiv (double_of FS_DETECT_HZ) (double_of (Z.of_nat FRAME_DECODER_LWDA_FREQ_BINS)) in
  let c := dadd (ddiv (double_of (- FS_DETECT_HZ)) (double_of 2)) (dmul (dadd (double_of (Z.of_nat bin)) one_half) w) in
  float_int c.

(** ** The survey *)

Record survey := SurveyState { s_centers : list ds_center; s_abs_hist : list Z }.

(** [survey_fold_hist] of one bin. *)
Definition survey_fold_bin (lo_center_hz : Z) (before after : list Z) (b : nat) (hist : list Z) : list Z :=
  let d := u32 (rd after b - rd before b) in
  if d =? 0 then hist else
  let abs := lo_center_hz + frame_decoder_lwda_freq_bin_center_hz b in
  if 0 <? abs then ds_abs_hist_add hist (u32 abs) d else hist.

Definition survey_fold_hist (lo_center_hz : Z) (before after hist : list Z) : list Z :=
  forN FRAME_DECODER_LWDA_FREQ_BINS (survey_fold_bin lo_center_hz before after) hist.

(** A wait with the abort flag read before each of its steps, at the time given,
    and once more at its end. *)
Record wait_env := WaitEnv { we_abort : Z -> bool; we_end : bool }.

(** [for (e = 0; e < ms; e += 250)]: whether there was no abort, and how long it
    slept. *)
Fixpoint delay_loop (rounds : nat) (ms e : Z) (env : wait_env) : bool * Z :=
  match rounds with
  | O => (negb (we_end env), e)
  | S rounds => if we_abort env e then (false, e) else delay_loop rounds ms (e + (if ms - e <? 250 then ms - e else 250)) env
  end.
Definition survey_delay_ms (ms : Z) (env : wait_env) : bool * Z := delay_loop (Z.to_nat ((ms + 249) / 250)) ms 0 env.

Definition DS_GUARD_MIN_MS : Z := 2500.
Definition DS_GUARD_MAX_MS : Z := 4000.

(** [pushed] at entry, [popped w] after waiting [w]. *)
Fixpoint guard_loop (rounds : nat) (pushed : Z) (popped : Z -> Z) (waited : Z) (env : wait_env) : bool * Z :=
  match rounds with
  | O => (negb (we_end env), waited)
  | S rounds =>
      if we_abort env waited then (false, waited) else
      if (pushed <=? popped waited) && (DS_GUARD_MIN_MS <=? waited) then (negb (we_end env), waited)
      else guard_loop rounds pushed popped (waited + 100) env
  end.
Definition survey_drain_guard (pushed : Z) (popped : Z -> Z) (env : wait_env) : bool * Z :=
  guard_loop (Z.to_nat (DS_GUARD_MAX_MS / 100)) pushed popped 0 env.

(** What one visit meets: the hop, the four waits, the decoder's counters
    before and after the dwell, the abort flag at the end. *)
Record counts := Counts { ct_lw_da : Z; ct_valid : Z; ct_hist : list Z }.
Record visit_env := VisitEnv {
  ve_hop : bool; ve_settle : wait_env; ve_pushed1 : Z; ve_popped1 : Z -> Z; ve_guard1 : wait_env; ve_before : counts;
  ve_dwell : wait_env; ve_pushed2 : Z; ve_popped2 : Z -> Z; ve_guard2 : wait_env; ve_after : counts; ve_abort : bool }.

Definition SCAN_SETTLE_MS : Z := 500.

(** Whether the visit reaches its second snapshot. *)
Definition visit_measured (env : visit_env) : bool :=
  ve_hop env && (survey_delay_ms SCAN_SETTLE_MS (ve_settle env)).1 && (survey_drain_guard (ve_pushed1 env) (ve_popped1 env) (ve_guard1 env)).1 &&
  (survey_delay_ms DS_VISIT_MS (ve_dwell env)).1 && (survey_drain_guard (ve_pushed2 env) (ve_popped2 env) (ve_guard2 env)).1.

Definition visit_fold (env : visit_env) (i : nat) (s : survey) : survey :=
  let c := center_at (s_centers s) i in
  SurveyState
    (<[i := ds_center_add_visit c (u32 (ct_lw_da (ve_after env) - ct_lw_da (ve_before env)))
              (u32 (ct_valid (ve_after env) - ct_valid (ve_before env))) 0 DS_VISIT_MS]> (s_centers s))
    (survey_fold_hist (dc_hz c) (ct_hist (ve_before env)) (ct_hist (ve_after env)) (s_abs_hist s)).

(** The state, and whether to go on. *)
Definition survey_visit (env : visit_env) (i : nat) (s : survey) : survey * bool :=
  if negb (ve_hop env) then (s, negb (ve_abort env)) else
  if negb (visit_measured env) then (s, false) else (visit_fold env i s, negb (ve_abort env)).

(** ** Phase A *)

Definition pos_cleared (p : scanner_pos) : scanner_pos := ScannerPos (center_hz p) 0 (all_bursts p) (mean_snr_db p) 0.

Fixpoint pick_top (rounds : nat) (work : list scanner_pos) (shortlist : list Z) : list Z :=
  match rounds with
  | O => shortlist
  | S rounds =>
      if negb (length shortlist <? DS_MAX_CENTERS)%nat then shortlist else
      let idx := scanner_rank_hottest_raw work in
      if (idx <? 0) || (pos_dwell_ms (pos_at work (Z.to_nat idx)) =? 0) then shortlist else
      let p := pos_at work (Z.to_nat idx) in
      pick_top rounds (<[Z.to_nat idx := pos_cleared p]> work) (shortlist ++ [center_hz p])
  end.

Definition add_neighbour (map : list scanner_pos) (neigh : Z) (shortlist : list Z) : list Z :=
  if negb (length shortlist <? DS_MAX_CENTERS)%nat then shortlist else
  if existsb (fun p => center_hz p =? neigh) map && negb (existsb (fun hz => hz =? neigh) shortlist)
  then shortlist ++ [neigh] else shortlist.

Definition survey_shortlist (k : nat) (map : list scanner_pos) : list Z :=
  if (length map =? 0)%nat then [] else
  let shortlist := pick_top k map [] in
  let peak := scanner_rank_hottest_raw map in
  if 0 <=? peak then
    let pc := center_hz (pos_at map (Z.to_nat peak)) in
    add_neighbour map (u32 (pc + SCAN_STEP_HZ)) (add_neighbour map (u32 (pc - SCAN_STEP_HZ)) shortlist)
  else shortlist.

Definition survey_start (shortlist : list Z) : survey :=
  SurveyState (map (fun hz => DsCenter hz 0 0 0 0 0 false) shortlist) (replicate DS_ABS_HIST_BINS 0).

(** ** Phase B *)

(** What one turn of the loop meets: the abort flag, the clock in seconds since
    the phase began, and the visits. *)
Record cycle_env := CycleEnv { cy_abort : bool; cy_elapsed : Z; cy_visit : nat -> visit_env }.

Definition survey_cycle (visit : nat -> visit_env) (s : survey) : survey * bool :=
  forN (length (s_centers s)) (fun i '(s, go) =>
    if negb go then (s, go) else
    if eliminated (center_at (s_centers s) i) then (s, go) else survey_visit (visit i) i s) (s, true).

Definition survey_eliminate (s : survey) : survey :=
  SurveyState (ds_eliminate_pass (s_centers s) DS_ELIM_Z DS_FLOOR_DWELL_MS DS_FLOOR_VISITS).1 (s_abs_hist s).

(** [false]: aborted; the last component is [s_leader_hz]. *)
Fixpoint survey_rr (fuel : nat) (env : nat -> cycle_env) (cyc : nat) (budget_s leader_hz : Z) (s : survey) : option (bool * survey * Z) :=
  if ds_converged (s_centers s) then Some (true, s, leader_hz) else
  match fuel with
  | O => None
  | S fuel =>
      if cy_abort (env cyc) then Some (false, s, leader_hz) else
      if budget_s <=? cy_elapsed (env cyc) then Some (true, s, leader_hz) else
      let '(s, go) := survey_cycle (cy_visit (env cyc)) s in
      if negb go then Some (false, s, leader_hz) else
      let s := survey_eliminate s in
      let lead := ds_leader_index (s_centers s) in
      survey_rr fuel env (S cyc) budget_s (if 0 <=? lead then dc_hz (center_at (s_centers s) (Z.to_nat lead)) else leader_hz) s
  end.

(** ** Phase C and the task *)

Record ds_result := DsResult { r_pick_hz : Z; r_leader_hz : Z; r_best_sum : Z; r_budget_s : Z; r_centers : list ds_center }.

(** How the task ended, the frequencies it asked the tuner for after its
    visits, and the record it wrote. *)
Inductive ds_phase := DS_PHASE_DONE | DS_PHASE_ABORTED.
Record survey_end := SurveyEnd { e_phase : ds_phase; e_hops : list Z; e_blob : option ds_result; e_state : survey }.

Definition survey_pick (nvs_lo : Z) (s : survey) : option (Z * Z) :=
  '(pick, best_sum) ← ds_best_window_center (s_abs_hist s) DS_ABS_HIST_BINS FS_DETECT_HZ SCAN_START_HZ SCAN_STOP_HZ DS_PLACE_STEP_HZ;
  if best_sum =? 0 then
    let lead := ds_leader_index (s_centers s) in
    Some (if 0 <=? lead then dc_hz (center_at (s_centers s) (Z.to_nat lead)) else nvs_lo, best_sum)
  else Some (pick, best_sum).

(** [map]: the scanner's map after the pre-pass; [abort]: the flag then. *)
Definition survey_task (fuel : nat) (env : nat -> cycle_env) (budget_h : Z) (k : nat) (nvs_lo : Z) (map : list scanner_pos) (abort : bool)
  : option survey_end :=
  let budget_s := u32 (budget_h * 3600) in
  let shortlist := survey_shortlist k map in
  if (length shortlist =? 0)%nat then Some (SurveyEnd DS_PHASE_DONE [] None (survey_start [])) else
  let s := survey_start shortlist in
  if abort then Some (SurveyEnd DS_PHASE_ABORTED [nvs_lo] None s) else
  '(done, s, leader_hz) ← survey_rr fuel env 0 budget_s 0 s;
  if negb done then Some (SurveyEnd DS_PHASE_ABORTED [nvs_lo] None s) else
  '(pick, best_sum) ← survey_pick nvs_lo s;
  Some (SurveyEnd DS_PHASE_DONE [pick] (Some (DsResult pick leader_hz best_sum budget_s (s_centers s))) s).

(** ** Starting and stopping *)

(** [s_running], [s_abort], [s_arg_budget_h], [s_arg_k]. *)
Record ds_flags := DsFlags { ds_running : bool; ds_abort : bool; arg_budget_h : Z; arg_k : Z }.

Inductive survey_err := ESP_OK | ESP_ERR_INVALID_STATE | ESP_FAIL.

(** [decode_survey_start] in two pieces, up to the claim of [s_running] and the
    rest, since a stop may come between; [busy]: a scan is in progress;
    [spawned]: the task was created. *)
Definition start_claim (f : ds_flags) : option ds_flags :=
  if ds_running f then None else Some (DsFlags true (ds_abort f) (arg_budget_h f) (arg_k f)).
Definition start_arm (busy spawned : bool) (budget_h k : Z) (f : ds_flags) : survey_err * ds_flags :=
  if busy then (ESP_ERR_INVALID_STATE, DsFlags false (ds_abort f) (arg_budget_h f) (arg_k f)) else
  let f := DsFlags (ds_running f) false (if 0 <? budget_h then budget_h else DS_DEFAULT_BUDGET_H)
             (if (1 <=? k) && (k <=? Z.of_nat DS_MAX_CENTERS) then k else DS_DEFAULT_K) in
  if spawned then (ESP_OK, f) else (ESP_FAIL, DsFlags false (ds_abort f) (arg_budget_h f) (arg_k f)).
Definition decode_survey_start (busy spawned : bool) (budget_h k : Z) (f : ds_flags) : survey_err * ds_flags :=
  match start_claim f with None => (ESP_ERR_INVALID_STATE, f) | Some f => start_arm busy spawned budget_h k f end.

Definition decode_survey_stop (f : ds_flags) : ds_flags :=
  if ds_running f then DsFlags (ds_running f) true (arg_budget_h f) (arg_k f) else f.

(** The task's last stores. *)
Definition survey_finish (f : ds_flags) : ds_flags := DsFlags false false (arg_budget_h f) (arg_k f).

(** ** The histogram and the window *)

Lemma rd_alter (f : Z -> Z) l i j : (i < length l)%nat -> rd (alter f i l) j = if decide (i = j) then f (rd l i) else rd l j.
Proof.
  intros Hi. unfold rd. rewrite !nth_lookup, list_lookup_alter. destruct (decide (i = j)) as [<-|Hne]; [|done].
  destruct (lookup_lt_is_Some_2 l i Hi) as [x Hx]. by rewrite Hx.
Qed.

Lemma abs_hist_bin_range hz : let b := ds_abs_hist_bin hz in b = -1 \/ 0 <= b < 64.
Proof.
  cbv zeta. unfold ds_abs_hist_bin, DS_ABS_HIST_LO_HZ, DS_ABS_HIST_HI_HZ, DS_ABS_HIST_BIN_HZ.
  destruct (Z.ltb_spec hz 1618000000); [by left|]. destruct (Z.leb_spec 1626000000 hz); [by left|]. right. cbn [orb].
  split; [apply Z.div_pos; lia|apply Z.div_lt_upper_bound; lia].
Qed.

(** The decoder's bins are 62.5 kHz wide and centred as the comment says; the
    floating-point computation is exact. *)
Lemma lwda_bin_center b : (b < 40)%nat -> frame_decoder_lwda_freq_bin_center_hz b = 62500 * Z.of_nat b - 1218750.
Proof.
  revert b. apply (forall_below_eqb frame_decoder_lwda_freq_bin_center_hz (fun b => 62500 * Z.of_nat b - 1218750) 40).
  vm_compute. reflexivity.
Qed.

Definition u32s (l : list Z) : Prop := Forall (is_u 32) l.

Lemma u32s_rd l b : u32s l -> u32 (rd l b) = rd l b.
Proof.
  unfold u32s. rewrite list.Forall_forall. intros Hu. apply u32_small. unfold rd. rewrite nth_lookup.
  destruct (l !! b) as [y|] eqn:Hy; [|cbn; lia]. exact (Hu y (list_elem_of_lookup_2 _ _ _ Hy)).
Qed.

(** One bin folded in adds its count to the cell of its frequency. *)
Lemma fold_bin_spec hz before after x hist : is_u 32 hz -> (x < 40)%nat -> length hist = 64%nat -> u32s hist ->
  let hist' := survey_fold_bin hz before after x hist in
  length hist' = 64%nat /\ u32s hist' /\
  forall b, (b < 64)%nat -> rd hist' b =
    u32 (rd hist b + if ds_abs_hist_bin (hz + 62500 * Z.of_nat x - 1218750) =? Z.of_nat b then u32 (rd after x - rd before x) else 0).
Proof.
  unfold is_u. intros Hhz Hx Hl Hu. cbv zeta. unfold survey_fold_bin. rewrite lwda_bin_center by done. cbv zeta.
  set (d := u32 (rd after x - rd before x)). set (a := hz + 62500 * Z.of_nat x - 1218750).
  replace (hz + (62500 * Z.of_nat x - 1218750)) with a by (unfold a; lia).
  destruct (Z.eqb_spec d 0) as [->|Hd].
  { split; [done|]. split; [done|]. intros b Hb. destruct (_ =? _); by rewrite Z.add_0_r, u32s_rd. }
  assert (Ebin : (if 0 <? a then ds_abs_hist_bin (u32 a) else -1) = ds_abs_hist_bin a).
  { unfold ds_abs_hist_bin, DS_ABS_HIST_LO_HZ, DS_ABS_HIST_HI_HZ. destruct (Z.ltb_spec 0 a) as [Ha|Ha].
    - destruct (Z.lt_ge_cases a (2 ^ 32)) as [Hs|Hs]; [by rewrite u32_small by lia|].
      assert (E : u32 a = a - 2 ^ 32) by (unfold u32; lia). rewrite E.
      rewrite (proj2 (Z.ltb_lt (a - 2 ^ 32) _)), (proj2 (Z.leb_le _ a)) by lia. by rewrite orb_true_r.
    - by rewrite (proj2 (Z.ltb_lt a _)) by lia. }
  pose proof (abs_hist_bin_range a) as Hr. cbv zeta in Hr. rewrite <- Ebin in *.
  unfold ds_abs_hist_add. destruct (0 <? a).
  2:{ split; [done|]. split; [done|]. intros b Hb. rewrite (proj2 (Z.eqb_neq (-1) _)) by lia. by rewrite Z.add_0_r, u32s_rd. }
  destruct (Z.leb_spec 0 (ds_abs_hist_bin (u32 a))) as [H0|H0].
  - split; [by rewrite length_alter|]. split.
    + apply Forall_alter; [done|]. intros y _ _. unfold is_u. apply Z.mod_pos_bound. lia.
    + intros b Hb. rewrite rd_alter by lia. destruct (Z.eqb_spec (ds_abs_hist_bin (u32 a)) (Z.of_nat b)) as [E|E].
      * rewrite decide_True by lia. by replace (Z.to_nat (ds_abs_hist_bin (u32 a))) with b by lia.
      * rewrite decide_False by lia. by rewrite Z.add_0_r, u32s_rd.
  - split; [done|]. split; [done|]. intros b Hb. rewrite (proj2 (Z.eqb_neq _ (Z.of_nat b))) by lia. by rewrite Z.add_0_r, u32s_rd.
Qed.

(** What a visit credits to cell [b]. *)
Definition credit (hz : Z) (before after : list Z) (b : nat) : Z :=
  zsum (fun x => if ds_abs_hist_bin (hz + 62500 * Z.of_nat x - 1218750) =? Z.of_nat b then u32 (rd after x - rd before x) else 0) (seq 0 40).

Lemma fold_hist_spec hz before after hist : is_u 32 hz -> length hist = 64%nat -> u32s hist ->
  let hist' := survey_fold_hist hz before after hist in
  length hist' = 64%nat /\ u32s hist' /\ forall b, (b < 64)%nat -> rd hist' b = u32 (rd hist b + credit hz before after b).
Proof.
  intros Hhz Hl Hu. cbv zeta. unfold survey_fold_hist, credit, FRAME_DECODER_LWDA_FREQ_BINS.
  apply (forN_inv (fun n h => length h = 64%nat /\ u32s h /\ forall b, (b < 64)%nat -> rd h b = u32 (rd hist b +
    zsum (fun x => if ds_abs_hist_bin (hz + 62500 * Z.of_nat x - 1218750) =? Z.of_nat b then u32 (rd after x - rd before x) else 0) (seq 0 n)))).
  - split; [done|]. split; [done|]. intros b Hb. cbn. by rewrite Z.add_0_r, u32s_rd.
  - intros n h Hn (H1 & H2 & H3). destruct (fold_bin_spec hz before after n h Hhz Hn H1 H2) as (G1 & G2 & G3).
    split; [exact G1|]. split; [exact G2|]. intros b Hb. rewrite G3, H3 by done. rewrite seq_S, zsum_app. cbn [zsum map foldr].
    unfold u32. rewrite Zplus_mod_idemp_l. f_equal. cbn. lia.
Qed.

(** ** The best window *)

Definition in_window (cand f : Z) : bool := (cand - 1250000 <=? f) && (f <=? cand + 1250000).

Lemma window_integral_sum hist cand : length hist = 64%nat -> u32s hist -> 1250000 < cand -> cand + 1250000 < 2 ^ 32 ->
  zsum (fun b => rd hist b) (seq 0 64) < 2 ^ 32 ->
  ds_window_integral hist 64 cand FS_DETECT_HZ =
  zsum (fun b => if in_window cand (1618062500 + 125000 * Z.of_nat b) then rd hist b else 0) (seq 0 64).
Proof.
  intros Hl Hu Hlo Hhi Hsum. unfold ds_window_integral. change (FS_DETECT_HZ / 2) with 1250000. cbv zeta.
  rewrite (proj2 (Z.ltb_lt 1250000 cand)) by lia. rewrite (u32_small (cand + 1250000)) by lia.
  set (w := fun b : nat => in_window cand (1618062500 + 125000 * Z.of_nat b)).
  assert (Hpos : forall b, 0 <= rd hist b) by (intros b; rewrite <- (u32s_rd hist b Hu); apply Z.mod_pos_bound; lia).
  enough (H : forall n, (n <= 64)%nat -> forN n (fun b sum => let f := ds_abs_hist_bin_center_hz b in
      if (cand - 1250000 <=? f) && (f <=? cand + 1250000) then u32 (sum + rd hist b) else sum) 0 =
    zsum (fun b => if w b then rd hist b else 0) (seq 0 n)) by (apply (H 64%nat); lia).
  induction n as [|n IH]; intros Hn; [done|]. rewrite forN_S, IH by lia. rewrite (seq_S n 0), zsum_app. cbn [Nat.add].
  assert (Ef : ds_abs_hist_bin_center_hz n = 1618062500 + 125000 * Z.of_nat n).
  { unfold ds_abs_hist_bin_center_hz, DS_ABS_HIST_LO_HZ, DS_ABS_HIST_BIN_HZ. change (125000 / 2) with 62500. rewrite u32_small by lia. lia. }
  cbv zeta. rewrite Ef. change ((cand - 1250000 <=? 1618062500 + 125000 * Z.of_nat n) && (1618062500 + 125000 * Z.of_nat n <=? cand + 1250000)) with (w n).
  rewrite zsum_cons. change (zsum _ []) with 0. destruct (w n); [|lia]. rewrite Z.add_0_r. apply u32_small.
  assert (H : zsum (fun b => if w b then rd hist b else 0) (seq 0 n) <= zsum (fun b => rd hist b) (seq 0 n)).
  { apply zsum_le. intros b _. cbv beta. pose proof (Hpos b). destruct (w b); lia. }
  replace 64%nat with (n + S (63 - n))%nat in Hsum by lia. rewrite seq_app, zsum_app in Hsum. cbn [seq Nat.add] in Hsum. rewrite zsum_cons in Hsum.
  pose proof (zsum_nonneg (fun b => rd hist b) (seq (S n) (63 - n)) Hpos).
  pose proof (zsum_nonneg (fun b => if w b then rd hist b else 0) (seq 0 n) ltac:(intros b; cbv beta; pose proof (Hpos b); destruct (w b); lia)).
  pose proof (Hpos n). lia.
Qed.

(** The loop finds the first greatest integral of the grid. *)
Lemma window_loop_spec integral step hi n c bc bs :
  0 < step -> 0 <= c -> hi + step < 2 ^ 32 -> (forall i, (i < n)%nat <-> c + Z.of_nat i * step <= hi) ->
  exists bc' bs', window_loop n integral c hi step bc bs = Some (bc', bs') /\ bs <= bs' /\
    (forall i, (i < n)%nat -> integral (c + Z.of_nat i * step) <= bs') /\
    (bs' = bs /\ bc' = bc \/
     bs < bs' /\ exists i, (i < n)%nat /\ bc' = c + Z.of_nat i * step /\ bs' = integral bc' /\
       forall j, (j < i)%nat -> integral (c + Z.of_nat j * step) < bs').
Proof.
  intros Hs Hc Hw. revert c bc bs Hc. induction n as [|n IH]; intros c bc bs Hc Hn.
  - cbn [window_loop]. assert (~ c <= hi) by (intros H; pose proof (proj2 (Hn 0%nat) ltac:(lia)); lia).
    rewrite (proj2 (Z.leb_gt _ _)) by lia. exists bc, bs. split; [done|]. split; [lia|]. split; [lia|]. by left.
  - cbn [window_loop]. assert (Hle : c <= hi) by (pose proof (proj1 (Hn 0%nat) ltac:(lia)); lia).
    rewrite (proj2 (Z.leb_le _ _)) by lia. rewrite u32_small by lia.
    assert (Hn' : forall i, (i < n)%nat <-> c + step + Z.of_nat i * step <= hi).
    { intros i. specialize (Hn (S i)). replace (c + step + Z.of_nat i * step) with (c + Z.of_nat (S i) * step) by lia. lia. }
    assert (Hi0 : integral (c + Z.of_nat 0 * step) = integral c) by (f_equal; lia).
    destruct (Z.ltb_spec bs (integral c)) as [Hlt|Hge].
    + destruct (IH (c + step) c (integral c) ltac:(lia) Hn') as (bc' & bs' & -> & H1 & H2 & H3).
      exists bc', bs'. split; [done|]. split; [lia|]. split.
      * intros [|i] Hi; [lia|]. specialize (H2 i ltac:(lia)). by replace (c + Z.of_nat (S i) * step) with (c + step + Z.of_nat i * step) by lia.
      * right. destruct H3 as [[-> ->]|(H3 & i & Hi & -> & H4 & H5)].
        -- split; [lia|]. exists 0%nat. split; [lia|]. split; [lia|]. split; [done|]. lia.
        -- split; [lia|]. exists (S i). split; [lia|]. split; [lia|]. split; [done|]. intros [|j] Hj; [lia|].
           specialize (H5 j ltac:(lia)). by replace (c + Z.of_nat (S j) * step) with (c + step + Z.of_nat j * step) by lia.
    + destruct (IH (c + step) bc bs ltac:(lia) Hn') as (bc' & bs' & -> & H1 & H2 & H3).
      exists bc', bs'. split; [done|]. split; [lia|]. split.
      * intros [|i] Hi; [lia|]. specialize (H2 i ltac:(lia)). by replace (c + Z.of_nat (S i) * step) with (c + step + Z.of_nat i * step) by lia.
      * destruct H3 as [H3|(H3 & i & Hi & -> & H4 & H5)]; [by left|]. right. split; [lia|].
        exists (S i). split; [lia|]. split; [lia|]. split; [done|]. intros [|j] Hj; [lia|].
        specialize (H5 j ltac:(lia)). by replace (c + Z.of_nat (S j) * step) with (c + step + Z.of_nat j * step) by lia.
Qed.

(** The placement grid: every 250 kHz of the band. *)
Definition place_grid (i : nat) : Z := 1618000000 + Z.of_nat i * 250000.

Lemma best_window hist : length hist = 64%nat -> u32s hist -> zsum (fun b => rd hist b) (seq 0 64) < 2 ^ 32 ->
  let heard cand := zsum (fun b => if in_window cand (1618062500 + 125000 * Z.of_nat b) then rd hist b else 0) (seq 0 64) in
  exists pick best, ds_best_window_center hist DS_ABS_HIST_BINS FS_DETECT_HZ SCAN_START_HZ SCAN_STOP_HZ DS_PLACE_STEP_HZ = Some (pick, best) /\
    (forall i, (i < 33)%nat -> heard (place_grid i) <= best) /\
    (best = 0 \/ 0 < best /\ exists i, (i < 33)%nat /\ pick = place_grid i /\ best = heard pick /\
       forall j, (j < i)%nat -> heard (place_grid j) < best).
Proof.
  intros Hl Hu Hsum heard. unfold ds_best_window_center, DS_PLACE_STEP_HZ, SCAN_START_HZ, SCAN_STOP_HZ. cbn [orb Z.eqb Z.ltb Z.compare Pos.compare Pos.compare_cont].
  change (Z.to_nat ((1626000000 - 1618000000) / 250000 + 1)) with 33%nat. change DS_ABS_HIST_BINS with 64%nat.
  destruct (window_loop_spec (fun c => ds_window_integral hist 64 c FS_DETECT_HZ) 250000 1626000000 33 1618000000 1618000000 0)
    as (pick & best & E & H0 & H1 & H2); [lia|lia|lia|intros i; lia|].
  assert (Hh : forall i, (i < 33)%nat -> ds_window_integral hist 64 (place_grid i) FS_DETECT_HZ = heard (place_grid i))
    by (intros i Hi; apply (window_integral_sum hist (place_grid i) Hl Hu); [unfold place_grid; lia|unfold place_grid; lia|exact Hsum]).
  exists pick, best. split; [exact E|]. split; [intros i Hi; rewrite <- Hh by done; by apply H1|].
  destruct H2 as [[H2 _]|(H2 & i & Hi & -> & H3 & H4)]; [by left|]. right. split; [done|].
  exists i. split; [done|]. split; [done|]. fold (place_grid i) in *. split; [by rewrite <- Hh|].
  intros j Hj. rewrite <- Hh by lia. by apply H4.
Qed.

(** ** Elimination *)

Lemma leader_alive c : let lead := ds_leader_index c in
  lead = -1 \/ exists i x, lead = Z.of_nat i /\ c !! i = Some x /\ eliminated x = false.
Proof.
  cbv zeta. unfold ds_leader_index.
  pose proof (forN_inv (fun n '(best, rate) => best = -1 \/ exists i x, best = Z.of_nat i /\ c !! i = Some x /\ eliminated x = false) (length c)
    (fun i '(best, best_rate) => if eliminated (center_at c i) then (best, best_rate) else
      let r := ds_center_rate_per_h (center_at c i) in if SFltb best_rate r then (Z.of_nat i, r) else (best, best_rate)) (-1, float_of (-1))) as H.
  destruct (forN _ _ _) as [best rate]. apply H; clear H; [by left|]. intros i [b r] Hi IH.
  destruct (lookup_lt_is_Some_2 c i Hi) as [x Hx]. unfold center_at. rewrite (nth_lookup_total _ _ _ _ Hx).
  destruct (eliminated x) eqn:Ex; [done|]. cbv zeta. destruct (SFltb _ _); [|done]. right. by exists i, x.
Qed.

(** What one pass does to a centre. *)
Definition drops (l : ds_center) (z : float) (fd fv : Z) (x x' : ds_center) : Prop :=
  x' = x \/ x' = eliminate x /\ eliminated x = false /\ fd <= dc_dwell_ms x /\ fv <= dc_visits x /\
    ds_lead_beats (lw_da l) (dc_dwell_ms l) (lw_da x) (dc_dwell_ms x) z = true.

Lemma eliminate_pass_spec c z fd fv :
  let c' := (ds_eliminate_pass c z fd fv).1 in
  c' = c \/ exists lead l, c !! lead = Some l /\ eliminated l = false /\ c' !! lead = Some l /\ length c' = length c /\
    forall i x, c !! i = Some x -> exists x', c' !! i = Some x' /\ drops l z fd fv x x'.
Proof.
  cbv zeta. unfold ds_eliminate_pass. destruct (leader_alive c) as [->|(lead & l & -> & Hl & Hal)]; [by left|].
  cbv zeta. rewrite (proj2 (Z.ltb_ge _ _)) by lia. rewrite Nat2Z.id. right. exists lead, l. split; [done|]. split; [done|].
  pose proof (forN_inv (fun n '(ck, _) => ck !! lead = Some l /\ length ck = length c /\ (forall i, (n <= i)%nat -> ck !! i = c !! i) /\
      forall i x, c !! i = Some x -> exists x', ck !! i = Some x' /\ drops l z fd fv x x') (length c)
    (fun i '(c, dropped) => let x := center_at c i in let l := center_at c lead in
      if (Z.of_nat i =? Z.of_nat lead) || eliminated x then (c, dropped) else
      if negb (ds_center_eligible x fd fv) then (c, dropped) else
      if ds_lead_beats (lw_da l) (dc_dwell_ms l) (lw_da x) (dc_dwell_ms x) z then (<[i := eliminate x]> c, dropped + 1) else (c, dropped)) (c, 0)) as H.
  destruct (forN _ _ _) as [c' d]. cbn [fst].
  enough (c' !! lead = Some l /\ length c' = length c /\ (forall i, (length c <= i)%nat -> c' !! i = c !! i) /\
    forall i x, c !! i = Some x -> exists x', c' !! i = Some x' /\ drops l z fd fv x x') as (? & ? & _ & ?) by done.
  apply H; clear H; [split_and!; try done; intros i x Hx; exists x; split; [done|by left]|].
  intros i [ck dk] Hi (H1 & H2 & H3 & H4). cbv zeta.
  destruct (lookup_lt_is_Some_2 c i Hi) as [x Hx]. pose proof (H3 i ltac:(lia)) as Hck. rewrite Hx in Hck.
  unfold center_at. rewrite (nth_lookup_total _ _ _ _ Hck), (nth_lookup_total _ _ _ _ H1).
  assert (Hkeep : ck !! lead = Some l /\ length ck = length c /\ (forall j, (S i <= j)%nat -> ck !! j = c !! j) /\
    forall j y, c !! j = Some y -> exists x', ck !! j = Some x' /\ drops l z fd fv y x') by (split_and!; try done; intros j Hj; apply H3; lia).
  destruct (Z.eqb_spec (Z.of_nat i) (Z.of_nat lead)) as [|Hne]; [done|]. cbn [orb]. destruct (eliminated x) eqn:Ex; [done|].
  destruct (ds_center_eligible x fd fv) eqn:Ee; [|done]. cbn [negb]. destruct (ds_lead_beats _ _ _ _ _) eqn:Eb; [|done]. clear Hkeep.
  split; [by rewrite list_lookup_insert_ne by lia|]. split; [by rewrite length_insert|].
  split; [intros j Hj; rewrite list_lookup_insert_ne by lia; apply H3; lia|].
  intros j y Hy. destruct (decide (j = i)) as [->|Hji]; [|rewrite list_lookup_insert_ne by done; by apply H4].
  rewrite Hx in Hy. injection Hy as <-. exists (eliminate x). rewrite list_lookup_insert_eq by lia. split; [done|]. right. split; [done|]. split; [done|].
  unfold ds_center_eligible in Ee. rewrite Ex in Ee. cbn [negb andb] in Ee. apply andb_prop in Ee as [E1 E2]. apply Z.leb_le in E1, E2. by split_and!.
Qed.

(** ** The tally *)

(** A visit: cycle and centre.  [log]: the visits measured so far. *)
Definition visit_of (env : nat -> cycle_env) (e : nat * nat) : visit_env := cy_visit (env e.1) e.2.
Definition delta (v : visit_env) : Z := u32 (ct_lw_da (ve_after v) - ct_lw_da (ve_before v)).
Definition credited (i : nat) (log : list (nat * nat)) : list (nat * nat) := List.filter (fun e => (e.2 =? i)%nat) log.
Definition visit_credit (env : nat -> cycle_env) (shortlist : list Z) (b : nat) (e : nat * nat) : Z :=
  credit (nth e.2 shortlist 0) (ct_hist (ve_before (visit_of env e))) (ct_hist (ve_after (visit_of env e))) b.

Record center_tally (env : nat -> cycle_env) (log : list (nat * nat)) (i : nat) (hz : Z) (c : ds_center) : Prop := {
  ct_hz : dc_hz c = hz;
  ct_da : lw_da c = u32 (zsum (fun e => delta (visit_of env e)) (credited i log));
  ct_visits : dc_visits c = u32 (Z.of_nat (length (credited i log)));
  ct_dwell : dc_dwell_ms c = u64 (Z.of_nat (length (credited i log)) * DS_VISIT_MS);
  ct_floors : eliminated c = true -> DS_FLOOR_VISITS <= dc_visits c /\ DS_FLOOR_DWELL_MS <= dc_dwell_ms c }.

Record tally (env : nat -> cycle_env) (shortlist : list Z) (log : list (nat * nat)) (s : survey) : Prop := {
  ta_len : length (s_centers s) = length shortlist;
  ta_centers : forall i hz, shortlist !! i = Some hz -> exists c, s_centers s !! i = Some c /\ center_tally env log i hz c;
  ta_alive : exists i c, s_centers s !! i = Some c /\ eliminated c = false;
  ta_hist_len : length (s_abs_hist s) = 64%nat;
  ta_hist_u : u32s (s_abs_hist s);
  ta_hist : forall b, (b < 64)%nat -> rd (s_abs_hist s) b = u32 (zsum (visit_credit env shortlist b) log) }.

Lemma tally_start env shortlist : shortlist <> [] -> tally env shortlist [] (survey_start shortlist).
Proof.
  intros Hne. constructor; cbn [survey_start s_centers s_abs_hist].
  - apply length_map.
  - intros i hz Hi. eexists. rewrite list_lookup_fmap', Hi. split; [reflexivity|]. by constructor.
  - destruct shortlist as [|hz l]; [done|]. by exists 0%nat, (DsCenter hz 0 0 0 0 0 false).
  - reflexivity.
  - apply Forall_replicate. unfold is_u. lia.
  - intros b Hb. unfold rd. change DS_ABS_HIST_BINS with 64%nat. rewrite nth_lookup. rewrite lookup_replicate_2 by done. done.
Qed.

Lemma tally_eliminate env shortlist log s : tally env shortlist log s -> tally env shortlist log (survey_eliminate s).
Proof.
  intros [H1 H2 H3 H4 H5 H6]. unfold survey_eliminate.
  destruct (eliminate_pass_spec (s_centers s) DS_ELIM_Z DS_FLOOR_DWELL_MS DS_FLOOR_VISITS) as [E|(lead & l & Hl & Hal & Hl' & Hlen & Hd)].
  { rewrite E. by constructor. }
  constructor; cbn [s_centers s_abs_hist]; try done.
  - by rewrite Hlen.
  - intros i hz Hi. destruct (H2 i hz Hi) as (c & Hc & [G1 G2 G3 G4 G5]). destruct (Hd i c Hc) as (c' & Hc' & [->|(-> & _ & D1 & D2 & _)]).
    + exists c. by split.
    + exists (eliminate c). split; [done|]. by constructor.
  - by exists lead, l.
Qed.

Lemma tally_visit env shortlist log s cyc i : Forall (is_u 32) shortlist -> tally env shortlist log s -> (i < length shortlist)%nat ->
  eliminated (center_at (s_centers s) i) = false ->
  tally env shortlist (log ++ [(cyc, i)]) (visit_fold (cy_visit (env cyc) i) i s).
Proof.
  intros Hu [H1 H2 H3 H4 H5 H6] Hi He. destruct (lookup_lt_is_Some_2 shortlist i Hi) as [hz Hz].
  destruct (H2 i hz Hz) as (c & Hc & [G1 G2 G3 G4 G5]). unfold visit_fold. unfold center_at in *. rewrite (nth_lookup_total _ _ _ _ Hc) in *.
  set (v := cy_visit (env cyc) i). assert (Ehz : is_u 32 (dc_hz c)) by (rewrite G1; rewrite list.Forall_forall in Hu; apply Hu; by eapply list_elem_of_lookup_2).
  destruct (fold_hist_spec (dc_hz c) (ct_hist (ve_before v)) (ct_hist (ve_after v)) (s_abs_hist s) Ehz H4 H5) as (F1 & F2 & F3).
  assert (Ecr : forall j, credited j (log ++ [(cyc, i)]) = credited j log ++ if (i =? j)%nat then [(cyc, i)] else [])
    by (intros j; unfold credited; rewrite List.filter_app; cbn; by destruct (i =? j)%nat).
  constructor; cbn [s_centers s_abs_hist]; try done.
  - by rewrite length_insert.
  - intros j hz' Hj. destruct (decide (j = i)) as [->|Hne].
    + rewrite list_lookup_insert_eq by lia. eexists. split; [reflexivity|]. rewrite Hz in Hj. injection Hj as <-.
      constructor; cbn [ds_center_add_visit dc_hz lw_da dc_visits dc_dwell_ms eliminated]; rewrite ?Ecr, ?Nat.eqb_refl, ?zsum_app, ?length_app; try done.
      * rewrite G2. cbn [zsum map foldr length]. change (visit_of env (cyc, i)) with v. fold (delta v). rewrite u32_add_u32. f_equal. lia.
      * rewrite G3, u32_add_u32. f_equal. cbn [length]. lia.
      * rewrite G4. unfold u64. rewrite Zplus_mod_idemp_l. f_equal. cbn [length]. lia.
      * by rewrite He.
    + rewrite list_lookup_insert_ne by done. destruct (H2 j hz' Hj) as (c' & Hc' & [K1 K2 K3 K4 K5]). exists c'. split; [done|].
      constructor; try done; by rewrite Ecr, (proj2 (Nat.eqb_neq i j)), app_nil_r by done.
  - destruct H3 as (j & d & Hd & Hde). destruct (decide (j = i)) as [->|Hne].
    + eexists i, _. rewrite list_lookup_insert_eq by lia. split; [reflexivity|]. exact He.
    + exists j, d. by rewrite list_lookup_insert_ne.
  - intros b Hb. rewrite F3, H6 by done. rewrite zsum_app. cbn [zsum map foldr]. unfold visit_credit. cbn [snd].
    rewrite (nth_lookup_total _ _ _ _ Hz), <- G1. change (visit_of env (cyc, i)) with v.
    rewrite u32_add_u32. f_equal. lia.
Qed.

(** ** Round-robin *)

Lemma center_at_insert l i j c : (i < length l)%nat -> center_at (<[i := c]> l) j = if decide (j = i) then c else center_at l j.
Proof.
  intros Hi. unfold center_at. rewrite !nth_lookup. destruct (decide (j = i)) as [->|Hne]; [by rewrite list_lookup_insert_eq|by rewrite list_lookup_insert_ne].
Qed.

(** One cycle measures some of the centres alive, each at most once, and if it
    is not aborted all those the tuner could be moved to. *)
Lemma cycle_spec env shortlist log cyc s : Forall (is_u 32) shortlist -> tally env shortlist log s ->
  let visit := cy_visit (env cyc) in
  let '(s', go) := survey_cycle visit s in
  exists l, tally env shortlist (log ++ map (pair cyc) l) s' /\ NoDup l /\ Forall (fun i => visit_measured (visit i) = true) l /\
    (forall i, eliminated (center_at (s_centers s') i) = eliminated (center_at (s_centers s) i)) /\
    (go = true -> forall i, (i < length shortlist)%nat -> eliminated (center_at (s_centers s) i) = false -> i ∈ l \/ ve_hop (visit i) = false).
Proof.
  intros Hu Ht visit. unfold survey_cycle. rewrite (ta_len _ _ _ _ Ht).
  pose proof (forN_inv (fun n '(s', go) => exists l, tally env shortlist (log ++ map (pair cyc) l) s' /\ NoDup l /\ Forall (fun i => (i < n)%nat) l /\
      Forall (fun i => visit_measured (visit i) = true) l /\
      (forall i, eliminated (center_at (s_centers s') i) = eliminated (center_at (s_centers s) i)) /\
      (go = true -> forall i, (i < n)%nat -> eliminated (center_at (s_centers s) i) = false -> i ∈ l \/ ve_hop (visit i) = false)) (length shortlist)
    (fun i '(s, go) => if negb go then (s, go) else if eliminated (center_at (s_centers s) i) then (s, go) else survey_visit (visit i) i s) (s, true)) as H.
  destruct (forN _ _ _) as [s' go].
  enough (exists l, tally env shortlist (log ++ map (pair cyc) l) s' /\ NoDup l /\ Forall (fun i => (i < length shortlist)%nat) l /\
      Forall (fun i => visit_measured (visit i) = true) l /\
      (forall i, eliminated (center_at (s_centers s') i) = eliminated (center_at (s_centers s) i)) /\
      (go = true -> forall i, (i < length shortlist)%nat -> eliminated (center_at (s_centers s) i) = false -> i ∈ l \/ ve_hop (visit i) = false))
    as (l & ? & ? & _ & ? & ? & ?) by (by exists l).
  apply H; clear H s' go.
  - exists []. cbn [map]. rewrite app_nil_r. split_and!; try done; try constructor. lia.
  - intros n [s1 go] Hn (l & T & Hnd & Hlt & Hm & He & Hc). destruct go; cbn [negb].
    2:{ exists l. split_and!; try done. eapply List.Forall_impl; [|exact Hlt]. cbn. lia. }
    assert (Hskip : forall go', (go' = true -> eliminated (center_at (s_centers s) n) = true \/ ve_hop (visit n) = false) ->
      exists l, tally env shortlist (log ++ map (pair cyc) l) s1 /\ NoDup l /\ Forall (fun i => (i < S n)%nat) l /\
      Forall (fun i => visit_measured (visit i) = true) l /\ (forall i, eliminated (center_at (s_centers s1) i) = eliminated (center_at (s_centers s) i)) /\
      (go' = true -> forall i, (i < S n)%nat -> eliminated (center_at (s_centers s) i) = false -> i ∈ l \/ ve_hop (visit i) = false)).
    { intros go' Hgo. exists l. split_and!; try done; [eapply List.Forall_impl; [|exact Hlt]; cbn; lia|].
      intros -> i Hi Hal. destruct (decide (i = n)) as [->|Hne]; [destruct (Hgo eq_refl) as [E|E]; [congruence|by right]|]. apply Hc; [done|lia|done]. }
    rewrite He. destruct (eliminated (center_at (s_centers s) n)) eqn:Ee; [by apply Hskip; left|].
    unfold survey_visit. destruct (ve_hop (visit n)) eqn:Eh; cbn [negb]; [|by apply Hskip; right].
    destruct (visit_measured (visit n)) eqn:Em; cbn [negb]; [|by apply Hskip].
    exists (l ++ [n]). rewrite map_app, app_assoc. split; [apply tally_visit; [done|done|done|by rewrite He]|].
    split; [apply list.NoDup_app; split; [done|]; split; [|apply NoDup_singleton]; intros x Hx ->%list_elem_of_singleton;
      rewrite List.Forall_forall in Hlt; specialize (Hlt n ltac:(by apply list_elem_of_In)); cbn in Hlt; lia|].
    split; [apply Forall_app; split; [eapply List.Forall_impl; [|exact Hlt]; cbn; lia|repeat constructor]|].
    split; [apply Forall_app; by repeat constructor|]. split.
    + intros i. rewrite <- He. unfold visit_fold. cbn [s_centers]. rewrite center_at_insert by (rewrite (ta_len _ _ _ _ T); lia).
      destruct (decide (i = n)) as [->|]; [by cbn|done].
    + intros _ i Hi Hal. destruct (decide (i = n)) as [->|Hne]; [left; apply elem_of_app; right; by left|].
      destruct (Hc eq_refl i ltac:(lia) Hal) as [?|?]; [left; apply elem_of_app; by left|by right].
Qed.

(** After [n] whole cycles. *)
Record rr_inv (env : nat -> cycle_env) (shortlist : list Z) (log : list (nat * nat)) (n : nat) (s : survey) : Prop := {
  ri_tally : tally env shortlist log s;
  ri_once : NoDup log;
  ri_measured : forall c i, (c, i) ∈ log -> (c < n)%nat /\ visit_measured (cy_visit (env c) i) = true;
  ri_all : forall i, (i < length shortlist)%nat -> eliminated (center_at (s_centers s) i) = false ->
    forall c, (c < n)%nat -> (c, i) ∈ log \/ ve_hop (cy_visit (env c) i) = false }.

Lemma eliminate_alive s i : (i < length (s_centers s))%nat -> eliminated (center_at (s_centers (survey_eliminate s)) i) = false -> eliminated (center_at (s_centers s) i) = false.
Proof.
  intros Hi. unfold survey_eliminate. cbn [s_centers].
  destruct (eliminate_pass_spec (s_centers s) DS_ELIM_Z DS_FLOOR_DWELL_MS DS_FLOOR_VISITS) as [->|(lead & l & _ & _ & _ & _ & Hd)]; [done|].
  destruct (lookup_lt_is_Some_2 _ _ Hi) as [x Hx]. destruct (Hd i x Hx) as (x' & Hx' & D). unfold center_at.
  rewrite (nth_lookup_total _ _ _ _ Hx), (nth_lookup_total _ _ _ _ Hx'). destruct D as [->|(-> & E & _)]; [done|by intros _].
Qed.

Lemma rr_spec fuel env shortlist log cyc budget leader s fin s' leader' : Forall (is_u 32) shortlist -> rr_inv env shortlist log cyc s ->
  survey_rr fuel env cyc budget leader s = Some (fin, s', leader') ->
  fin = true -> exists log' n, rr_inv env shortlist log' n s' /\ (ds_converged (s_centers s') = true \/ budget <= cy_elapsed (env n)).
Proof.
  intros Hu. revert log cyc leader s. induction fuel as [|fuel IH]; intros log cyc leader s Hinv; cbn [survey_rr];
    (destruct (ds_converged (s_centers s)) eqn:Ec; [intros [= <- <- _] _; exists log, cyc; split; [done|by left]|]); [done|].
  destruct (cy_abort (env cyc)); [by intros [= <- _ _]|].
  destruct (Z.leb_spec budget (cy_elapsed (env cyc))); [intros [= <- <- _] _; exists log, cyc; split; [done|by right]|].
  pose proof (cycle_spec env shortlist log cyc s Hu (ri_tally _ _ _ _ _ Hinv)) as Hcy. cbv zeta in Hcy.
  destruct (survey_cycle _ s) as [s1 go]. destruct Hcy as (l & T & Hnd & Hm & He & Hall). destruct go; cbn [negb]; [|by intros [= <- _ _]].
  intros E. refine (IH (log ++ map (pair cyc) l) (S cyc) _ _ _ E). destruct Hinv as [T0 H1 H2 H3]. constructor.
  - by apply tally_eliminate.
  - apply list.NoDup_app. split; [done|]. split.
    + intros [c i] Hci Hin. apply H2 in Hci as [Hlt _]. apply list_elem_of_In, in_map_iff in Hin as (j & [= <- <-] & _). lia.
    + by apply (NoDup_fmap_2 (pair cyc)).
  - intros c i [Hci|Hci]%elem_of_app; [destruct (H2 c i Hci); split; [lia|done]|].
    apply list_elem_of_In, in_map_iff in Hci as (j & [= <- <-] & Hj). split; [lia|]. rewrite List.Forall_forall in Hm. by apply Hm.
  - intros i Hi Hal c Hc. apply eliminate_alive in Hal; [|by rewrite (ta_len _ _ _ _ T)]. rewrite He in Hal.
    destruct (decide (c = cyc)) as [->|Hne].
    + destruct (Hall eq_refl i Hi Hal) as [?|?]; [|by right]. left. apply elem_of_app. right. by apply (list_elem_of_fmap_2 (pair cyc)).
    + destruct (H3 i Hi Hal c ltac:(lia)) as [?|?]; [left; apply elem_of_app; by left|by right].
Qed.

Lemma rr_ends fuel env cyc budget leader s n : (cyc <= n < cyc + fuel)%nat -> budget <= cy_elapsed (env n) ->
  exists r, survey_rr fuel env cyc budget leader s = Some r.
Proof.
  intros Hn Hb. revert cyc leader s Hn. induction fuel as [|fuel IH]; intros cyc leader s Hn; [lia|]. cbn [survey_rr].
  destruct (ds_converged _); [by eexists|]. destruct (cy_abort _); [by eexists|].
  destruct (Z.leb_spec budget (cy_elapsed (env cyc))); [by eexists|].
  assert (cyc <> n) by (intros ->; lia). destruct (survey_cycle _ _) as [s1 go]. destruct go; cbn [negb]; [|by eexists].
  apply IH. lia.
Qed.

(** ** The shortlist *)

Definition raw_rate (p : scanner_pos) : float := scanner_pos_narrowband_rate p.

(** The working copy: a centre already picked is cleared. *)
Definition worked (map work : list scanner_pos) (sl : list Z) : Prop :=
  length work = length map /\ forall i p, map !! i = Some p ->
    work !! i = Some p /\ center_hz p ∉ sl \/ work !! i = Some (pos_cleared p) /\ center_hz p ∈ sl.

Definition picks_ok (m : list scanner_pos) (rounds : nat) (l more : list Z) : Prop :=
  (forall hz, hz ∈ more -> exists p, p ∈ m /\ center_hz p = hz /\
     forall q, q ∈ m -> center_hz q ∉ l -> SFltb (raw_rate p) (raw_rate q) = false) /\
  ((length more < rounds)%nat -> length l = DS_MAX_CENTERS \/
     forall q, q ∈ m -> center_hz q ∉ l -> SFltb (float_of 0) (raw_rate q) = false).

Lemma pick_top_spec m rounds work sl : m <> [] -> NoDup (map center_hz m) -> worked m work sl -> NoDup sl -> (length sl <= DS_MAX_CENTERS)%nat ->
  exists more, pick_top rounds work sl = sl ++ more /\ NoDup (sl ++ more) /\ (length (sl ++ more) <= DS_MAX_CENTERS)%nat /\
    (length more <= rounds)%nat /\ picks_ok m rounds (sl ++ more) more.
Proof.
  intros Hne Hnd. revert work sl. induction rounds as [|rounds IH]; intros work sl [Hwl Hw] Hsl Hlen; cbn [pick_top].
  { exists []. rewrite app_nil_r. split_and!; try done. split; [by intros hz Hhz%not_elem_of_nil|intros H; cbn in H; lia]. }
  destruct (Nat.ltb_spec (length sl) DS_MAX_CENTERS) as [Hroom|Hfull]; cbn [negb].
  2:{ exists []. rewrite app_nil_r. split_and!; try done; [cbn; lia|]. split; [by intros hz Hhz%not_elem_of_nil|intros _; left; lia]. }
  destruct (rank_by_spec work false) as (i & Ei & Hi & Hmax); [destruct work, m; cbn in Hwl; done|]. unfold scanner_rank_hottest_raw. rewrite Ei.
  rewrite (proj2 (Z.ltb_ge _ _)) by lia. rewrite Nat2Z.id. cbn [orb].
  destruct (lookup_lt_is_Some_2 m i ltac:(lia)) as [p Hp].
  assert (Hothers : forall q, q ∈ m -> center_hz q ∉ sl -> SFltb (raw_rate (pos_at work i)) (raw_rate q) = false).
  { intros q Hq Hqs. apply list_elem_of_lookup in Hq as [j Hj]. destruct (Hw j q Hj) as [[Hjw _]|[_ Hin]]; [|done].
    specialize (Hmax j ltac:(rewrite Hwl; by eapply lookup_lt_Some)). unfold pos_at in Hmax at 2. by rewrite (nth_lookup_total _ _ _ _ Hjw) in Hmax. }
  destruct (Z.eqb_spec (pos_dwell_ms (pos_at work i)) 0) as [Ez|Ez].
  - exists []. rewrite app_nil_r. split_and!; try done; [cbn; lia|]. split; [by intros hz Hhz%not_elem_of_nil|]. intros _. right. intros q Hq Hqs.
    specialize (Hothers q Hq Hqs). unfold raw_rate in Hothers at 1. unfold scanner_pos_narrowband_rate in Hothers at 1. by rewrite Ez in Hothers.
  - assert (Hwi : work !! i = Some p /\ center_hz p ∉ sl).
    { destruct (Hw i p Hp) as [?|[Hc _]]; [done|]. exfalso. apply Ez. unfold pos_at. by rewrite (nth_lookup_total _ _ _ _ Hc). }
    destruct Hwi as [Hwi Hps]. unfold pos_at in Hothers |- *. rewrite (nth_lookup_total _ _ _ _ Hwi) in Hothers |- *.
    destruct (IH (<[i := pos_cleared p]> work) (sl ++ [center_hz p])) as (more & -> & H1 & H2 & H3 & H4 & H5).
    + split; [by rewrite length_insert|]. intros j q Hj. destruct (decide (j = i)) as [->|Hji].
      * right. rewrite Hp in Hj. injection Hj as <-. rewrite list_lookup_insert_eq by lia. split; [done|]. apply elem_of_app. right. by left.
      * rewrite list_lookup_insert_ne by done. destruct (Hw j q Hj) as [[? Hn]|[? ?]]; [left; split; [done|]|right; split; [done|apply elem_of_app; by left]].
        intros [?|E%list_elem_of_singleton]%elem_of_app; [done|]. apply Hji.
        apply (NoDup_lookup (map center_hz m) j i (center_hz q)); [done|by rewrite list_lookup_fmap', Hj|by rewrite list_lookup_fmap', Hp, E].
    + apply list.NoDup_app. split; [done|]. split; [|apply NoDup_singleton]. by intros x Hx ->%list_elem_of_singleton.
    + rewrite length_app. cbn. lia.
    + exists (center_hz p :: more). rewrite <- app_assoc in *. cbn [app] in *. split; [done|]. split; [done|]. split; [done|]. split; [cbn; lia|]. split.
      * intros hz [->|Hhz]%elem_of_cons; [|by apply H4]. exists p. split; [by eapply list_elem_of_lookup_2|]. split; [done|].
        intros q Hq Hql. apply Hothers; [done|]. intros Hin. apply Hql, elem_of_app. by left.
      * intros Hlt. apply H5. cbn in Hlt. lia.
Qed.

Lemma add_neighbour_spec m hz sl : NoDup sl -> (length sl <= DS_MAX_CENTERS)%nat ->
  exists more, add_neighbour m hz sl = sl ++ more /\ NoDup (sl ++ more) /\ (length (sl ++ more) <= DS_MAX_CENTERS)%nat /\ (length more <= 1)%nat /\
    (forall x, x ∈ more -> exists p, p ∈ m /\ center_hz p = x) /\
    ((length sl < DS_MAX_CENTERS)%nat -> (exists p, p ∈ m /\ center_hz p = hz) -> hz ∈ sl ++ more).
Proof.
  intros Hnd Hl. unfold add_neighbour.
  assert (Hkeep : ((length sl < DS_MAX_CENTERS)%nat -> (exists p, p ∈ m /\ center_hz p = hz) -> hz ∈ sl) ->
    exists more, sl = sl ++ more /\ NoDup (sl ++ more) /\ (length (sl ++ more) <= DS_MAX_CENTERS)%nat /\ (length more <= 1)%nat /\
    (forall x, x ∈ more -> exists p, p ∈ m /\ center_hz p = x) /\
    ((length sl < DS_MAX_CENTERS)%nat -> (exists p, p ∈ m /\ center_hz p = hz) -> hz ∈ sl ++ more)).
  { intros H. exists []. rewrite app_nil_r. split_and!; try done; [cbn; lia|by intros x Hx%not_elem_of_nil]. }
  destruct (Nat.ltb_spec (length sl) DS_MAX_CENTERS) as [Hroom|Hfull]; cbn [negb]; [|apply Hkeep; lia].
  destruct (existsb (fun p => center_hz p =? hz) m) eqn:Em; cbn [andb].
  2:{ apply Hkeep. intros _ (p & Hp & E). exfalso. rewrite <- not_true_iff_false in Em. apply Em, existsb_exists. exists p.
      split; [by apply list_elem_of_In|by apply Z.eqb_eq]. }
  apply existsb_exists in Em as (p & Hp%list_elem_of_In & Ep%Z.eqb_eq).
  destruct (existsb (fun x => x =? hz) sl) eqn:Es; cbn [negb].
  - apply Hkeep. intros _ _. apply existsb_exists in Es as (x & Hx & <-%Z.eqb_eq). by apply list_elem_of_In.
  - assert (Hn : hz ∉ sl). { intros Hin. rewrite <- not_true_iff_false in Es. apply Es, existsb_exists. exists hz. split; [by apply list_elem_of_In|apply Z.eqb_refl]. }
    exists [hz]. split; [done|]. split; [apply list.NoDup_app; split; [done|]; split; [by intros x Hx ->%list_elem_of_singleton|apply NoDup_singleton]|].
    split; [rewrite length_app; cbn; lia|]. split; [done|]. split; [intros x ->%list_elem_of_singleton; by exists p|].
    intros _ _. apply elem_of_app. right. by left.
Qed.

Lemma survey_shortlist_facts k m :
  m <> [] -> NoDup (map center_hz m) ->
  exists top more peak, survey_shortlist k m = top ++ more /\ NoDup (top ++ more) /\ (length (top ++ more) <= DS_MAX_CENTERS)%nat /\
    (length top <= k)%nat /\ (length more <= 2)%nat /\ picks_ok m k top top /\
    (forall hz, hz ∈ more -> exists p, p ∈ m /\ center_hz p = hz) /\
    peak ∈ m /\ (forall q, q ∈ m -> SFltb (raw_rate peak) (raw_rate q) = false) /\
    ((length top + 2 <= DS_MAX_CENTERS)%nat -> forall hz, hz = u32 (center_hz peak - SCAN_STEP_HZ) \/ hz = u32 (center_hz peak + SCAN_STEP_HZ) ->
      (exists p, p ∈ m /\ center_hz p = hz) -> hz ∈ top ++ more).
Proof.
  intros Hne Hnd. unfold survey_shortlist. rewrite (proj2 (Nat.eqb_neq _ _)) by (destruct m; cbn; [done|lia]).
  destruct (pick_top_spec m k m [] Hne Hnd) as (top & -> & H1 & H2 & H3 & H4);
    [split; [done|]; intros i p Hp; left; split; [done|by intros ?%not_elem_of_nil]|constructor|cbn; lia|].
  cbn [app] in *. destruct (rank_by_spec m false Hne) as (i & Ei & Hi & Hmax). unfold scanner_rank_hottest_raw. rewrite Ei.
  rewrite (proj2 (Z.leb_le _ _)) by lia. rewrite Nat2Z.id. destruct (lookup_lt_is_Some_2 m i Hi) as [peak Hpk].
  unfold pos_at in *. rewrite (nth_lookup_total _ _ _ _ Hpk) in *.
  destruct (add_neighbour_spec m (u32 (center_hz peak - SCAN_STEP_HZ)) top H1 H2) as (m1 & -> & A1 & A2 & A3 & A4 & A5).
  destruct (add_neighbour_spec m (u32 (center_hz peak + SCAN_STEP_HZ)) (top ++ m1) A1 A2) as (m2 & -> & B1 & B2 & B3 & B4 & B5).
  exists top, (m1 ++ m2), peak. rewrite <- app_assoc in *. split; [done|]. split; [done|]. split; [done|]. split; [done|].
  split; [rewrite length_app; lia|]. split; [done|]. split; [intros hz [?|?]%elem_of_app; auto|].
  split; [by eapply list_elem_of_lookup_2|]. split.
  - intros q Hq. apply list_elem_of_lookup in Hq as [j Hj]. specialize (Hmax j (lookup_lt_Some _ _ _ Hj)).
    by rewrite (nth_lookup_total _ _ _ _ Hj) in Hmax.
  - intros Hroom hz [->| ->] Hin.
    + specialize (A5 ltac:(lia) Hin). rewrite app_assoc. apply elem_of_app. by left.
    + apply B5; [rewrite length_app; lia|done].
Qed.

(** The shortlist.  At most eight different centres of the map: first up to
    [k] that none left out outranks by raw burst rate - fewer only if the list
    is full or nothing left out was heard at all - then, if there is room, the
    peak's neighbours on the grid. *)
Theorem survey_shortlist_spec k m :
  m <> [] -> NoDup (map center_hz m) ->
  exists top more peak, survey_shortlist k m = top ++ more /\ NoDup (top ++ more) /\ (length (top ++ more) <= DS_MAX_CENTERS)%nat /\
    (length top <= k)%nat /\ (length more <= 2)%nat /\ picks_ok m k top top /\
    (forall hz, hz ∈ more -> exists p, p ∈ m /\ center_hz p = hz) /\
    peak ∈ m /\ (forall q, q ∈ m -> SFltb (raw_rate peak) (raw_rate q) = false) /\
    ((length top + 2 <= DS_MAX_CENTERS)%nat -> forall hz, hz = u32 (center_hz peak - SCAN_STEP_HZ) \/ hz = u32 (center_hz peak + SCAN_STEP_HZ) ->
      (exists p, p ∈ m /\ center_hz p = hz) -> hz ∈ top ++ more).
Proof. exact (survey_shortlist_facts k m). Qed.

(** ** What a survey delivers *)

Lemma shortlist_u32 k m : Forall (is_u 32) (map center_hz m) -> NoDup (map center_hz m) -> Forall (is_u 32) (survey_shortlist k m).
Proof.
  intros Hu Hnd. destruct m as [|p m]; [constructor|].
  destruct (survey_shortlist_facts k (p :: m) ltac:(done) Hnd) as (top & more & peak & -> & _ & _ & _ & _ & [Hp _] & Hm & _).
  rewrite list.Forall_forall in Hu |- *. intros hz [Hhz|Hhz]%elem_of_app.
  - destruct (Hp hz Hhz) as (q & Hq & <- & _). apply Hu. by apply (list_elem_of_fmap_2 center_hz).
  - destruct (Hm hz Hhz) as (q & Hq & <-). apply Hu. by apply (list_elem_of_fmap_2 center_hz).
Qed.

Lemma pick_some nvs s : exists r, survey_pick nvs s = Some r.
Proof.
  unfold survey_pick, ds_best_window_center, DS_PLACE_STEP_HZ, SCAN_START_HZ, SCAN_STOP_HZ. cbn [orb Z.eqb Z.ltb Z.compare Pos.compare Pos.compare_cont].
  change (Z.to_nat ((1626000000 - 1618000000) / 250000 + 1)) with 33%nat.
  destruct (window_loop_spec (fun c => ds_window_integral (s_abs_hist s) DS_ABS_HIST_BINS c FS_DETECT_HZ) 250000 1626000000 33 1618000000 1618000000 0)
    as (pick & best & -> & _); [lia|lia|lia|intros i; lia|]. cbn [mbind option_bind]. destruct (best =? 0); by eexists.
Qed.

(** C32: a survey ends.  Once the clock reaches the budget the task is over: it
    was aborted, and asks the tuner for the frequency it found in the
    configuration and writes nothing; or there was nothing to survey; or it asks
    for the frequency of the record it writes, and the record's table is the
    survey's. *)
Theorem survey_task_ends fuel env budget_h k nvs m abort n :
  (n < fuel)%nat -> u32 (budget_h * 3600) <= cy_elapsed (env n) ->
  exists e, survey_task fuel env budget_h k nvs m abort = Some e /\
    match e_phase e, e_blob e with
    | DS_PHASE_ABORTED, None => e_hops e = [nvs]
    | DS_PHASE_ABORTED, Some _ => False
    | DS_PHASE_DONE, None => e_hops e = [] /\ survey_shortlist k m = []
    | DS_PHASE_DONE, Some r => e_hops e = [r_pick_hz r] /\ r_centers r = s_centers (e_state e) /\ survey_shortlist k m <> []
    end.
Proof.
  intros Hn Hb. unfold survey_task. cbv zeta. destruct (survey_shortlist k m) as [|hz sl] eqn:Es; [by eexists|].
  cbn [length Nat.eqb]. destruct abort; [by eexists|].
  destruct (rr_ends fuel env 0 (u32 (budget_h * 3600)) 0 (survey_start (hz :: sl)) n ltac:(lia) Hb) as [[[fin s] leader] ->].
  cbn [mbind option_bind]. destruct fin; cbn [negb]; [|by eexists].
  destruct (pick_some nvs s) as [[pick best] ->]. by eexists.
Qed.

(** The frames of a log that the window at [cand] would have held. *)
Definition heard (env : nat -> cycle_env) (shortlist : list Z) (log : list (nat * nat)) (cand : Z) : Z :=
  zsum (fun e => zsum (fun b => if in_window cand (1618062500 + 125000 * Z.of_nat b) then visit_credit env shortlist b e else 0) (seq 0 64)) log.

Definition heard_all (env : nat -> cycle_env) (shortlist : list Z) (log : list (nat * nat)) : Z :=
  zsum (fun e => zsum (fun b => visit_credit env shortlist b e) (seq 0 64)) log.

Lemma visit_credit_nonneg env sl b e : 0 <= visit_credit env sl b e.
Proof. unfold visit_credit, credit. apply zsum_nonneg. intros x. destruct (_ =? _); [apply Z.mod_pos_bound|]; lia. Qed.

Lemma tally_cells env sl log s : tally env sl log s -> heard_all env sl log < 2 ^ 32 ->
  forall b, (b < 64)%nat -> rd (s_abs_hist s) b = zsum (visit_credit env sl b) log.
Proof.
  intros T Hsum b Hb. rewrite (ta_hist _ _ _ _ T b Hb). apply u32_small.
  split; [apply zsum_nonneg; intros e; apply visit_credit_nonneg|]. eapply Z.le_lt_trans; [|exact Hsum]. unfold heard_all.
  apply zsum_le. intros e _. replace 64%nat with (b + S (63 - b))%nat by lia. rewrite seq_app, zsum_app. cbn [seq Nat.add]. rewrite zsum_cons.
  pose proof (zsum_nonneg (fun b => visit_credit env sl b e) (seq 0 b) (fun b => visit_credit_nonneg env sl b e)).
  pose proof (zsum_nonneg (fun b => visit_credit env sl b e) (seq (S b) (63 - b)) (fun b => visit_credit_nonneg env sl b e)). lia.
Qed.

#[local] Opaque ds_best_window_center survey_shortlist ds_leader_index place_grid credit.

(** Phase C on a tally. *)
Lemma place_tally env sl log s nvs pick best : tally env sl log s -> survey_pick nvs s = Some (pick, best) ->
  heard_all env sl log < 2 ^ 32 ->
  (forall i, (i < 33)%nat -> heard env sl log (place_grid i) <= best) /\
  (0 < best -> exists i, (i < 33)%nat /\ pick = place_grid i /\ best = heard env sl log (place_grid i) /\
     forall j, (j < i)%nat -> heard env sl log (place_grid j) < best).
Proof.
  intros T Ep Hsum. pose proof (tally_cells _ _ _ _ T Hsum) as Hcell.
  assert (Hheard : forall cand, zsum (fun b => if in_window cand (1618062500 + 125000 * Z.of_nat b) then rd (s_abs_hist s) b else 0) (seq 0 64) = heard env sl log cand).
  { intros cand. unfold heard. rewrite zsum_swap. apply zsum_ext. intros b Hb. apply elem_of_seq in Hb. rewrite Hcell by lia.
    destruct (in_window _ _); [done|]. symmetry. apply zsum_zero. }
  assert (Htotal : zsum (fun b => rd (s_abs_hist s) b) (seq 0 64) < 2 ^ 32).
  { replace (zsum _ (seq 0 64)) with (heard_all env sl log); [done|]. unfold heard_all. rewrite zsum_swap. apply zsum_ext. intros b Hb.
    apply elem_of_seq in Hb. symmetry. apply Hcell. lia. }
  destruct (best_window _ (ta_hist_len _ _ _ _ T) (ta_hist_u _ _ _ _ T) Htotal) as (pick' & best' & Ew & H1 & H2).
  unfold survey_pick in Ep. rewrite Ew in Ep. cbn [mbind option_bind] in Ep.
  assert (E : best = best' /\ (best' <> 0 -> pick = pick')).
  { destruct (Z.eqb_spec best' 0); injection Ep as E1 E2; split; congruence. }
  destruct E as [-> Hpick]. clear Ep Ew.
  split; [intros i Hi; rewrite <- Hheard; by apply H1|]. intros Hpos. destruct H2 as [H2|(_ & i & Hi & Hp & H3 & H4)]; [lia|].
  exists i. split; [exact Hi|]. split; [rewrite Hpick by lia; exact Hp|]. split; [rewrite <- Hheard, <- Hp; exact H3|].
  intros j Hj. rewrite <- Hheard. by apply H4.
Qed.

(** With nothing heard: the leader, or the configured frequency. *)
Lemma place_fallback nvs s pick : survey_pick nvs s = Some (pick, 0) ->
  (ds_leader_index (s_centers s) = -1 /\ pick = nvs) \/
  exists i c, ds_leader_index (s_centers s) = Z.of_nat i /\ s_centers s !! i = Some c /\ eliminated c = false /\ pick = dc_hz c.
Proof.
  intros E. unfold survey_pick in E. destruct (ds_best_window_center _ _ _ _ _ _) as [[p b]|]; [|discriminate E]. cbn [mbind option_bind] in E.
  destruct (Z.eqb_spec b 0) as [Eb|Hb]; [|injection E as _ E2; contradiction (Hb E2)].
  destruct (leader_alive (s_centers s)) as [El|(i & c & El & Hc & Hal)]; rewrite El in E; [left|right].
  - injection E as <-. split; [exact El|reflexivity].
  - exists i, c. rewrite (proj2 (Z.leb_le 0 (Z.of_nat i)) (Nat2Z.is_nonneg i)), Nat2Z.id in E. unfold center_at in E. rewrite (nth_lookup_total _ _ _ _ Hc) in E.
    injection E as <-. split; [exact El|]. split; [exact Hc|]. split; [exact Hal|reflexivity].
Qed.

(** C20: where it parks.  A record written is the tally of visits that were made
    - each cycle and centre at most once, every wait of the visit run to its end,
    and of the centres still alive all that the tuner could be moved to: the
    frames counted during them, their number and their time.  No centre was
    dropped before 24 visits and two hours, and one is left.  If fewer than 2^32
    frames were counted the record's sum is the greatest number that a window of
    the placement grid would have held.  The tuner is parked on the record's
    frequency: the first of the grid to reach that sum if it is not zero, else
    the leading centre among those left, or the configured frequency if none
    leads. *)
Theorem survey_parks_best fuel env budget_h k nvs m abort e r :
  Forall (is_u 32) (map center_hz m) -> NoDup (map center_hz m) ->
  survey_task fuel env budget_h k nvs m abort = Some e -> e_blob e = Some r ->
  let sl := survey_shortlist k m in
  exists log n, rr_inv env sl log n (e_state e) /\ r_centers r = s_centers (e_state e) /\
    (ds_converged (r_centers r) = true \/ u32 (budget_h * 3600) <= cy_elapsed (env n)) /\
    (heard_all env sl log < 2 ^ 32 ->
      (forall i, (i < 33)%nat -> heard env sl log (place_grid i) <= r_best_sum r) /\
      (0 < r_best_sum r -> exists i, (i < 33)%nat /\ r_pick_hz r = place_grid i /\ r_best_sum r = heard env sl log (place_grid i) /\
        forall j, (j < i)%nat -> heard env sl log (place_grid j) < r_best_sum r)) /\
    e_hops e = [r_pick_hz r] /\
    (r_best_sum r = 0 -> (ds_leader_index (r_centers r) = -1 /\ r_pick_hz r = nvs) \/
      exists i c, ds_leader_index (r_centers r) = Z.of_nat i /\ r_centers r !! i = Some c /\ eliminated c = false /\ r_pick_hz r = dc_hz c).
Proof.
  intros Hu Hnd E Eb sl. unfold survey_task in E. cbv zeta in E. fold sl in E.
  pose proof (shortlist_u32 k m Hu Hnd) as Hsl. fold sl in Hsl. clearbody sl.
  destruct (Nat.eqb_spec (length sl) 0) as [Hz|Hz]; [injection E as <-; discriminate Eb|].
  destruct abort; [injection E as <-; discriminate Eb|].
  assert (H0 : rr_inv env sl [] 0 (survey_start sl)).
  { constructor; [apply tally_start; intros ->; by apply Hz|constructor|intros c i H; by apply not_elem_of_nil in H|lia]. }
  destruct (survey_rr fuel env 0 _ 0 (survey_start sl)) as [[[fin s] leader]|] eqn:Err; [|discriminate E].
  pose proof (rr_spec _ _ _ _ _ _ _ _ _ _ _ Hsl H0 Err) as Hrr. clear Err H0. cbn [mbind option_bind] in E.
  destruct fin; cbn [negb] in E; [|injection E as <-; discriminate Eb].
  destruct (Hrr eq_refl) as (log & n & Hinv & Hend). clear Hrr.
  destruct (survey_pick nvs s) as [[pick best]|] eqn:Ep; [|discriminate E]. cbn [mbind option_bind] in E.
  injection E as <-. cbn [e_blob] in Eb. injection Eb as <-. cbn [e_state e_hops r_centers r_best_sum r_pick_hz].
  exists log, n. split; [exact Hinv|]. split; [reflexivity|]. split; [exact Hend|].
  split; [exact (place_tally _ _ _ _ _ _ _ (ri_tally _ _ _ _ _ Hinv) Ep)|]. split; [reflexivity|]. intros ->. exact (place_fallback _ _ _ Ep).
Qed.

(** ** Waits *)

Lemma delay_full ms env t : 0 <= ms -> survey_delay_ms ms env = (true, t) -> t = ms.
Proof.
  intros Hms. unfold survey_delay_ms. set (n := Z.to_nat ((ms + 249) / 250)).
  enough (H : forall k e, 0 <= e <= ms -> (ms - e + 249) / 250 = Z.of_nat k -> delay_loop k ms e env = (true, t) -> t = ms).
  { intros E. apply (H n 0); [lia|unfold n; rewrite Z2Nat.id by (apply Z.div_pos; lia); f_equal; lia|exact E]. }
  induction k as [|k IH]; intros e He Hk; cbn [delay_loop].
  - intros [= _ <-]. assert (ms - e + 249 < 250); [|lia]. destruct (Z.lt_ge_cases (ms - e + 249) 250) as [|Hge]; [done|].
    pose proof (Z.div_le_lower_bound (ms - e + 249) 250 1 ltac:(lia) ltac:(lia)). lia.
  - destruct (we_abort env e); [by intros [= ? _]|]. destruct (Z.ltb_spec (ms - e) 250) as [Hlt|Hge].
    + intros E. apply (IH (e + (ms - e))); [lia| |exact E]. replace (ms - (e + (ms - e)) + 249) with 249 by lia.
      assert (Hq : (ms - e + 249) / 250 <= 1) by (apply Z.lt_succ_r, Z.div_lt_upper_bound; lia). change (249 / 250) with 0. lia.
    + intros E. apply (IH (e + 250)); [lia| |exact E]. replace (ms - (e + 250) + 249) with (ms - e + 249 + (-1) * 250) by lia.
      rewrite Z.div_add by lia. lia.
Qed.

(** The guard before a snapshot waits until the frames queued at its start have
    been decoded and at least 2.5 s, or for 4 s. *)
Lemma drain_guard_waits pushed popped env t : survey_drain_guard pushed popped env = (true, t) ->
  DS_GUARD_MIN_MS <= t <= DS_GUARD_MAX_MS /\ (t = DS_GUARD_MAX_MS \/ pushed <= popped t).
Proof.
  unfold survey_drain_guard. change (Z.to_nat (DS_GUARD_MAX_MS / 100)) with 40%nat. unfold DS_GUARD_MIN_MS, DS_GUARD_MAX_MS.
  enough (H : forall k w, 0 <= w -> w + 100 * Z.of_nat k = 4000 -> guard_loop k pushed popped w env = (true, t) ->
    2500 <= t <= 4000 /\ (t = 4000 \/ pushed <= popped t)) by (intros E; apply (H 40%nat 0); [lia|lia|exact E]).
  induction k as [|k IH]; intros w Hw Hk; cbn [guard_loop].
  - intros [= _ <-]. lia.
  - destruct (we_abort env w); [by intros [= ? _]|]. unfold DS_GUARD_MIN_MS.
    destruct (Z.leb_spec pushed (popped w)), (Z.leb_spec 2500 w); cbn [andb]; try (apply IH; lia).
    intros [= _ <-]. lia.
Qed.

(** The histogram loses less than one of its bins: the frequency at which a
    frame is credited is within half a bin of that of the detector's bin. *)
Lemma lwda_hist_accurate k : (k < 2048)%nat ->
  Z.abs (2048 * frame_decoder_lwda_freq_bin_center_hz (lwda_freq_bin (Z.of_nat k)) - (Z.of_nat k - 1024) * FS_DETECT_HZ) <= 2048 * 31250.
Proof.
  intros Hk. apply Z.leb_le. revert k Hk. apply (forall_below (fun k => Z.abs (2048 * frame_decoder_lwda_freq_bin_center_hz (lwda_freq_bin (Z.of_nat k)) - (Z.of_nat k - 1024) * FS_DETECT_HZ) <=? 2048 * 31250)).
  vm_compute. reflexivity.
Qed.

(** ** A survey *)

Definition calm : wait_env := WaitEnv (fun _ => false) false.

(** The counters rise by [d] frames, in bin [x]. *)
Definition calm_visit (d : Z) (x : nat) : visit_env :=
  VisitEnv true calm 7 (fun _ => 7) calm (Counts 100 90 (replicate 40 5)) calm 9 (fun _ => 9) calm
    (Counts (100 + d) (90 + d) (<[x := 5 + d]> (replicate 40 5))) false.

(** The first centre of the shortlist hears 10 frames a visit, the others 2. *)
Definition sample_cycles (n : nat) : cycle_env :=
  CycleEnv false (1000 * Z.of_nat n) (fun i => if (i =? 0)%nat then calm_visit 10 30 else calm_visit 2 10).

Definition sample_map : list scanner_pos :=
  [ScannerPos 1619250000 100 120 (float_of 8) 50000; ScannerPos 1620500000 400 420 (float_of 9) 50000;
   ScannerPos 1621750000 300 320 (float_of 9) 50000; ScannerPos 1625500000 900 900 (float_of 9) 0].

Definition sample_survey : option survey_end := survey_task 200 sample_cycles 24 2 1622000000 sample_map false.

(** The two centres heard most and the neighbour of the first; after 24 cycles
    the two worse ones go. *)
Example sample_survey_runs :
  option_map (fun e => (e_hops e, map (fun c => (dc_hz c, lw_da c, dc_visits c, eliminated c)) (s_centers (e_state e)))) sample_survey =
  Some ([1620000000], [(1620500000, 240, 24, false); (1621750000, 48, 24, true); (1619250000, 48, 24, true)]).
Proof. vm_compute. reflexivity. Qed.

Lemma sample_map_ok : Forall (is_u 32) (map center_hz sample_map) /\ NoDup (map center_hz sample_map).
Proof. split; [|apply (bool_decide_unpack _); vm_compute; exact I]. repeat (constructor; [split; [discriminate|reflexivity]|]). constructor. Qed.

Lemma survey_shortlist_spec_witness :
  survey_shortlist 2 sample_map = [1620500000; 1621750000; 1619250000] /\ NoDup (survey_shortlist 2 sample_map).
Proof.
  destruct (survey_shortlist_spec 2 sample_map ltac:(discriminate) (proj2 sample_map_ok)) as (top & more & peak & E & Hnd & _).
  split; [vm_compute; reflexivity|]. rewrite E. exact Hnd.
Defined.

Lemma survey_task_ends_witness : exists e, sample_survey = Some e /\ e_phase e = DS_PHASE_DONE.
Proof.
  destruct (survey_task_ends 200 sample_cycles 24 2 1622000000 sample_map false 100) as (e & E & H);
    [apply Nat.ltb_lt; reflexivity|apply Z.leb_le; vm_compute; reflexivity|].
  exists e. split; [exact E|]. clear H. vm_compute in E. injection E as <-. reflexivity.
Defined.

Lemma survey_parks_best_witness :
  exists e r log n, sample_survey = Some e /\ e_blob e = Some r /\ rr_inv sample_cycles (survey_shortlist 2 sample_map) log n (e_state e) /\
    (heard_all sample_cycles (survey_shortlist 2 sample_map) log < 2 ^ 32 ->
     exists i, (i < 33)%nat /\ r_pick_hz r = place_grid i /\ r_best_sum r = heard sample_cycles (survey_shortlist 2 sample_map) log (place_grid i)).
Proof.
  assert (H : match sample_survey with Some (SurveyEnd _ _ (Some r) _) => 0 <? r_best_sum r | _ => false end = true) by (vm_compute; reflexivity).
  destruct sample_survey as [[ph hops [r|] s]|] eqn:E; try discriminate H. apply Z.ltb_lt in H.
  destruct (survey_parks_best 200 sample_cycles 24 2 1622000000 sample_map false _ r (proj1 sample_map_ok) (proj2 sample_map_ok) E eq_refl)
    as (log & n & Hinv & _ & _ & Hbest & _).
  exists (SurveyEnd ph hops (Some r) s), r, log, n. split; [reflexivity|]. split; [reflexivity|]. split; [exact Hinv|].
  intros Hsum. destruct (proj2 (Hbest Hsum) H) as (i & Hi & H1 & H2 & _). exists i. split; [exact Hi|]. split; [exact H1|exact H2].
Defined.

(** When the tuner cannot be moved, a round over the centres neither waits nor
    changes anything, so the loop repeats it at once until the budget is spent. *)
Example failed_hops_spin s visit : (forall i, ve_hop (visit i) = false /\ ve_abort (visit i) = false) -> survey_cycle visit s = (s, true).
Proof.
  intros H. unfold survey_cycle. apply (forN_inv (fun _ x => x = (s, true))); [reflexivity|]. intros i x _ ->. cbn [negb].
  unfold survey_visit. destruct (H i) as [-> ->]. by destruct (eliminated _).
Qed.

(** A stop request that arrives while a survey is being started is lost. *)
Example stop_lost budget_h k f f1 : start_claim f = Some f1 -> ds_abort (start_arm false true budget_h k (decode_survey_stop f1)).2 = false.
Proof. done. Qed.
