(* ===== verification/BurstTagger.v ===== *)
(** The burst tagger
    (src/common/iridium_decoder/fft_burst_tagger.c).

    Every 2048 samples the detector looks at the spectrum: it keeps, per bin,
    the sum of the last 512 squared magnitudes as the noise floor, opens a burst
    where a bin stands out against it, follows the bursts it has opened, and
    closes those that have been quiet or open for too long.  The floor is frozen
    while a burst is open.  When too many bursts are open at once they are all
    dropped, and after repeated drops the floor is learnt anew.

    The spectrum is an input: a step takes the output of the transform.  [qsort]
    and [log10f] belong to the C library and are parameters.  The helper task of
    the pipelined path is disabled in this firmware and not modelled; timing,
    log lines and the diagnostic trace are left out, and so are NULL arguments
    and the allocations, except that of the clamp table, whose failure the code
    works with.  The DC mask is part of the configuration, so it stays the same
    through a run of steps. *)

From Stdlib Require Import SpecFloat.
From stdpp Require Import sorting.
From S2P Require Import Prelude SignalBuffer WorkerQueue Scanner.
#[local] Open Scope Z_scope.

Definition FBT_FFT_SIZE : nat := 2048.
Definition FBT_MAX_BURSTS : nat := 64.
Definition FBT_HISTORY_SIZE : nat := 512.
Definition FBT_MAX_BURST_LEN : Z := 225000.
Definition FBT_SQUELCH_MAX_BURSTS : nat := 49.
Definition FBT_EMA_SLOT_CLAMP : Z := (2 ^ 31 - 1) / 512.
Definition WIDTH_SCAN_CAP : nat := 96.

(** ** State *)

Record fbt_burst := FbtBurst {
  b_id : Z; width_bins : Z; b_start : Z; last_active : Z; b_stop : Z; center_bin : nat; magnitude_db : float; noise_db : float }.

Record fbt_clamp_run := ClampRun { last_write : Z; run_len : Z }.

(** The noise floor: [baseline_sum], the ring of slots, and the clamp table
    with the number of the last write; [None]: the table was not allocated. *)
Record floor := Floor {
  baseline_sum : list Z; baseline_history : list (list Z); history_index : nat; history_primed : bool;
  s_clamp_run : option (list fbt_clamp_run); s_ema_write_no : Z }.

(** What was set at initialisation, and the exclusion window round DC;
    [screen_shift]: the pre-screen's shift, [None] where the scan is scalar. *)
Record fbt_config := FbtConfig {
  burst_pre_len : Z; burst_post_len : Z; burst_width : Z; threshold_q15 : Z; window_enbw : float;
  screen_shift : option Z; s_dc_mask_lo : Z; s_dc_mask_hi : Z; s_trace_band_vdl2 : bool }.

(** The bursts being followed, and the counters. *)
Record tracker := Tracker {
  burst_mask : list bool; bursts : list fbt_burst; squelch_count : Z; d_index : Z; burst_id : Z;
  s_acc_squelch_events : Z; s_acc_squelch_dropped : Z; s_acc_noise_resets : Z }.

Definition clamp_zero : list fbt_clamp_run := replicate FBT_FFT_SIZE (ClampRun 0 0).
Definition all_bins : list bool := replicate FBT_FFT_SIZE true.

(** [table]: the clamp table could be allocated; [write_no]: the number of the
    last write, which an initialisation does not reset. *)
Definition fft_burst_tagger_init (table : bool) (write_no : Z) : floor * tracker :=
  (Floor (replicate FBT_FFT_SIZE 0) (replicate FBT_HISTORY_SIZE (replicate FBT_FFT_SIZE 0)) 0 false (if table then Some clamp_zero else None) write_no,
   Tracker all_bins [] 0 0 0 0 0 0).

(** The pre-screen's shift: [31 - clz] is the logarithm. *)
Definition screen_shift_of (threshold_q15 : Z) : option Z :=
  if 0 <? threshold_q15 then
    let s := 24 - Z.log2 threshold_q15 in Some (if s <? 0 then 0 else if 24 <? s then 24 else s)
  else None.

(** ** Spectrum and threshold *)

(** [re * re + im * im], which leaves 32 bits when both parts are -32768. *)
Definition mag_sq (x : Z * Z) : Z := sN 32 (x.1 * x.1 + x.2 * x.2).

Definition compute_magnitude_shifted (fb : list (Z * Z)) : list Z :=
  map mag_sq (slice fb (FBT_FFT_SIZE / 2) (FBT_FFT_SIZE / 2)) ++ map mag_sq (slice fb 0 (FBT_FFT_SIZE / 2)).

Definition above_threshold (mag2 base thr : Z) : bool :=
  Z.shiftr (base * thr) 15 <? mag2 * Z.of_nat FBT_HISTORY_SIZE.

Section Step.
Context (conf : fbt_config) (mag : list Z).

Definition integrated_active (f : floor) (center : nat) : bool :=
  let half := Z.to_nat (burst_width conf / 2) in
  let lo := (center - half)%nat in
  let hi := Nat.min (center + half) (FBT_FFT_SIZE - 1) in
  let bins := seq lo (hi + 1 - lo) in
  let sum_mag := zsum (rd mag) bins in
  let sum_base := zsum (rd (baseline_sum f)) bins in
  Z.shiftr (sum_base * threshold_q15 conf) 15 <? sum_mag * Z.of_nat FBT_HISTORY_SIZE.

Definition run_at (runs : list fbt_clamp_run) (bin : nat) : fbt_clamp_run := nth bin runs (ClampRun 0 0).

Definition bin_carrier_saturated (f : floor) (bin : nat) : bool :=
  match s_clamp_run f with
  | None => false
  | Some runs => (Z.of_nat FBT_HISTORY_SIZE <=? run_len (run_at runs bin)) && (last_write (run_at runs bin) =? s_ema_write_no f)
  end.

Definition bin_in_dc_mask (bin : nat) : bool :=
  (Z.of_nat FBT_FFT_SIZE / 2 + s_dc_mask_lo conf <=? Z.of_nat bin) && (Z.of_nat bin <=? Z.of_nat FBT_FFT_SIZE / 2 + s_dc_mask_hi conf).

Definition bin_above (f : floor) (bin : nat) : bool := above_threshold (rd mag bin) (rd (baseline_sum f) bin) (threshold_q15 conf).

(** ** Following *)

(** The bins [cb - 1], [cb], [cb + 1] that exist. *)
Definition near_bins (cb : nat) : list nat :=
  List.filter (fun b => (b <? FBT_FFT_SIZE)%nat) (match cb with O => [0; 1]%nat | S p => [p; cb; S cb] end).

Definition burst_heard (f : floor) (cb : nat) : bool :=
  existsb (fun bin => bin_above f bin && negb (bin_carrier_saturated f bin)) (near_bins cb) ||
  (s_trace_band_vdl2 conf && integrated_active f cb && negb (bin_carrier_saturated f cb)).

Definition touch (d : Z) (b : fbt_burst) : fbt_burst :=
  FbtBurst (b_id b) (width_bins b) (b_start b) d (b_stop b) (center_bin b) (magnitude_db b) (noise_db b).
Definition close (d : Z) (b : fbt_burst) : fbt_burst :=
  FbtBurst (b_id b) (width_bins b) (b_start b) (last_active b) d (center_bin b) (magnitude_db b) (noise_db b).

Definition update_bursts_internal (f : floor) (d : Z) (l : list fbt_burst) : list fbt_burst :=
  map (fun b => if burst_heard f (center_bin b) then touch d b else b) l.

(** ** Masks *)

Definition masked_by (center k : nat) : bool :=
  let half := burst_width conf / 2 in
  (Z.of_nat center - half <=? Z.of_nat k) && (Z.of_nat k <=? Z.of_nat center + half).

(** [for (k = lo; k <= hi; k++) burst_mask[k] = 0] *)
Definition mask_burst (center : nat) (mask : list bool) : list bool := imap (fun k m => if masked_by center k then false else m) mask.

Definition rebuild_burst_mask (l : list fbt_burst) : list bool := fold_left (fun m b => mask_burst (center_bin b) m) l all_bins.

(** ** Peaks *)

Record fbt_peak := FbtPeak { pk_bin : nat; sort_key : Z }.

(** The order of the sort: the strongest peak first. *)
Definition peak_cmp_desc (a b : fbt_peak) : Z :=
  if sort_key b <? sort_key a then -1 else if sort_key a <? sort_key b then 1 else 0.

Definition open_bin (mask : list bool) (bin : nat) : bool := nth bin mask false && negb (bin_in_dc_mask bin).

(** [(mag2 * HISTORY) / (base + 1)], C's division. *)
Definition peak_of (f : floor) (bin : nat) : fbt_peak :=
  FbtPeak bin (Z.quot (rd mag bin * Z.of_nat FBT_HISTORY_SIZE) (rd (baseline_sum f) bin + 1)).

Definition peak_bin_ok (f : floor) (mask : list bool) (bin : nat) : bool :=
  open_bin mask bin && bin_above f bin && negb (bin_carrier_saturated f bin).

Definition margin : nat := Z.to_nat (burst_width conf / 2).

(** The scalar scan. *)
Definition scan_peaks (f : floor) (mask : list bool) : list fbt_peak :=
  map (peak_of f) (List.filter (peak_bin_ok f mask) (seq margin (FBT_FFT_SIZE - margin - margin))).

(** The vector kernel's flag of group [g]: one of its 16 bins exceeds the
    shifted floor. *)
Definition fbt_detect_screen (f : floor) (s : Z) (g : nat) : bool :=
  existsb (fun bin => Z.shiftr (rd (baseline_sum f) bin) s <? rd mag bin) (seq (16 * g) 16).

(** The scan of the flagged groups. *)
Definition screened_peaks (f : floor) (mask : list bool) (s : Z) : list fbt_peak :=
  flat_map (fun g =>
    if fbt_detect_screen f s g then
      let lo := Nat.max (16 * g) margin in
      let hi := Nat.min (16 * g + 16) (FBT_FFT_SIZE - margin) in
      map (peak_of f) (List.filter (peak_bin_ok f mask) (seq lo (hi - lo)))
    else []) (seq 0 (FBT_FFT_SIZE / 16)).

Definition find_peaks (f : floor) (mask : list bool) : list fbt_peak :=
  match screen_shift conf with Some s => screened_peaks f mask s | None => scan_peaks f mask end.

(** ** Opening *)

(** [while (w_lo > 0 && ...) w_lo--] and [while (w_hi < N - 1 && ...) w_hi++],
    at most [fuel] bins: the bound of the code. *)
Fixpoint width_down (fuel : nat) (f : floor) (w : nat) : nat :=
  match fuel, w with
  | S fuel, S w' => if bin_above f w' then width_down fuel f w' else w
  | _, _ => w
  end.
Fixpoint width_up (fuel : nat) (f : floor) (w : nat) : nat :=
  match fuel with
  | S fuel => if (w <? FBT_FFT_SIZE - 1)%nat && bin_above f (S w) then width_up fuel f (S w) else w
  | O => w
  end.
Definition width_of (f : floor) (bin : nat) : Z :=
  Z.of_nat (width_up WIDTH_SCAN_CAP f bin) - Z.of_nat (width_down WIDTH_SCAN_CAP f bin) + 1.

Context (log10f : float -> float) (eps : float).

(** [1e-12f] is [eps]. *)
Definition burst_magnitude_db (m base : Z) : float :=
  let rel := fdiv (fmul (float_of m) (float_of (Z.of_nat FBT_HISTORY_SIZE))) (fadd (float_of base) (float_of 1)) in
  fmul (float_of 10) (log10f (fadd (fmul rel (window_enbw conf)) eps)).
Definition burst_noise_db (base : Z) : float :=
  fmul (float_of 10) (log10f (fadd (fdiv (float_of base) (float_of (Z.of_nat FBT_HISTORY_SIZE))) eps)).

Definition new_burst (f : floor) (d id : Z) (bin : nat) : fbt_burst :=
  let start := u64 (d - burst_pre_len conf) in
  FbtBurst (u32 id) (width_of f bin) start start 0 bin
    (burst_magnitude_db (rd mag bin) (rd (baseline_sum f) bin)) (burst_noise_db (rd (baseline_sum f) bin)).

(** The loop over the sorted peaks: mask, bursts, next id, and the bursts
    opened. *)
Fixpoint open_bursts (f : floor) (d : Z) (peaks : list fbt_peak) (mask : list bool) (l : list fbt_burst) (id : Z) (opened : list fbt_burst)
  : list bool * list fbt_burst * Z * list fbt_burst :=
  match peaks with
  | [] => (mask, l, id, opened)
  | p :: peaks =>
      if negb (nth (pk_bin p) mask false) then open_bursts f d peaks mask l id opened else
      if (FBT_MAX_BURSTS <=? length l)%nat then (mask, l, id, opened) else
      let b := new_burst f d id (pk_bin p) in
      open_bursts f d peaks (mask_burst (pk_bin p) mask) (l ++ [b]) (u64 (id + 10)) (opened ++ [b])
  end.
End Step.

(** ** The floor *)

(** Writing one slot. [n]: the number of this write. *)
Definition clamped (m : Z) : Z := if FBT_EMA_SLOT_CLAMP <? m then FBT_EMA_SLOT_CLAMP else m.

Definition ema_step_inner (bsum slot mag : list Z) : list Z * list Z :=
  (imap (fun k b => sN 32 (b - rd slot k + clamped (rd mag k))) bsum, map clamped mag).
Definition ema_step_inner_prime (bsum mag : list Z) : list Z * list Z :=
  (imap (fun k b => sN 32 (b + clamped (rd mag k))) bsum, map clamped mag).

Definition ema_clamp_track (write_no : Z) (mag : list Z) (runs : list fbt_clamp_run) : list fbt_clamp_run :=
  imap (fun k cr =>
    if FBT_EMA_SLOT_CLAMP <=? rd mag k then
      ClampRun write_no (if u32 (last_write cr + 1) =? write_no
                         then if run_len cr <? Z.of_nat FBT_HISTORY_SIZE then run_len cr + 1 else run_len cr else 1)
    else cr) runs.

(** One executed write. *)
Definition ema_write (mag : list Z) (f : floor) : floor :=
  let write_no := u32 (s_ema_write_no f + 1) in
  let slot := nth (history_index f) (baseline_history f) [] in
  let '(bsum, slot) := if history_primed f then ema_step_inner (baseline_sum f) slot mag else ema_step_inner_prime (baseline_sum f) mag in
  let index := S (history_index f) in
  let wrap := (FBT_HISTORY_SIZE <=? index)%nat in
  Floor bsum (<[history_index f := slot]> (baseline_history f)) (if wrap then 0%nat else index) (wrap || history_primed f)
    (option_map (ema_clamp_track write_no mag) (s_clamp_run f)) write_no.

Definition update_baseline_ema (mag : list Z) (n_bursts : nat) (force : bool) (f : floor) : floor :=
  if (0 <? n_bursts)%nat && negb force then f else ema_write mag f.

Definition reset_floor (f : floor) : floor :=
  Floor (replicate FBT_FFT_SIZE 0) (baseline_history f) 0 false (option_map (fun _ => clamp_zero) (s_clamp_run f)) (s_ema_write_no f).

Definition reset_tracker (t : tracker) : tracker :=
  Tracker all_bins [] 0 (d_index t) (burst_id t) (s_acc_squelch_events t) (s_acc_squelch_dropped t) (s_acc_noise_resets t).

Definition fft_burst_tagger_reset_baseline (x : floor * tracker) : floor * tracker := (reset_floor x.1, reset_tracker x.2).

(** ** One step *)

Section Detect.
Context (qsort : list fbt_peak -> list fbt_peak) (log10f : float -> float) (eps : float).
Context (conf : fbt_config).

(** A burst of this step: [start == d_index - burst_pre_len]. *)
Definition just_opened (d : Z) (b : fbt_burst) : bool := b_start b =? u64 (d - burst_pre_len conf).

(** What the squelch does with the bursts: those it closes, and the number it
    drops. *)
Definition squelch_gone (d : Z) (l : list fbt_burst) : list fbt_burst :=
  map (close d) (List.filter (fun b => negb (just_opened d b) && negb (last_active b =? d)) l).
Definition squelch_dropped (d : Z) (l : list fbt_burst) : list fbt_burst :=
  List.filter (fun b => negb (just_opened d b) && (last_active b =? d)) l.

(** The tagger and the two output arrays, [max_new] and [max_gone] long. *)
Definition create_new_bursts_internal (mag : list Z) (max_new max_gone : nat) (x : floor * tracker)
  : (floor * tracker) * list fbt_burst * list fbt_burst :=
  let '(f, t) := x in
  let d := d_index t in
  let peaks := qsort (find_peaks conf mag f (burst_mask t)) in
  let '(mask, l, id, opened) := open_bursts conf mag log10f eps f d peaks (burst_mask t) (bursts t) (burst_id t) [] in
  if (FBT_SQUELCH_MAX_BURSTS <? length l)%nat then
    let dropped := Z.of_nat (length (squelch_dropped d l)) in
    let gone := take max_gone (squelch_gone d l) in
    let count := (squelch_count t + 3) mod 256 in
    let t' := Tracker (rebuild_burst_mask conf []) [] count d id (u32 (s_acc_squelch_events t + 1)) (u32 (s_acc_squelch_dropped t + dropped)) (s_acc_noise_resets t) in
    if 10 <=? count then
      let '(f, t') := fft_burst_tagger_reset_baseline (f, t') in
      ((f, Tracker (burst_mask t') (bursts t') 0 d id (s_acc_squelch_events t') (s_acc_squelch_dropped t') (u32 (s_acc_noise_resets t' + 1))), [], gone)
    else ((f, t'), [], gone)
  else
    ((f, Tracker mask l (if 0 <? squelch_count t then squelch_count t - 1 else 0) d id
           (s_acc_squelch_events t) (s_acc_squelch_dropped t) (s_acc_noise_resets t)), take max_new opened, []).

Definition long_burst (b : fbt_burst) : bool := FBT_MAX_BURST_LEN <? u64 (last_active b - b_start b).
Definition burst_over (d : Z) (b : fbt_burst) : bool := (u64 (last_active b + burst_post_len conf) <=? d) || long_burst b.

Definition with_bursts (mask : list bool) (l : list fbt_burst) (t : tracker) : tracker :=
  Tracker mask l (squelch_count t) (d_index t) (burst_id t) (s_acc_squelch_events t) (s_acc_squelch_dropped t) (s_acc_noise_resets t).
Definition at_index (d : Z) (t : tracker) : tracker :=
  Tracker (burst_mask t) (bursts t) (squelch_count t) d (burst_id t) (s_acc_squelch_events t) (s_acc_squelch_dropped t) (s_acc_noise_resets t).

(** The bursts that end are removed whether or not the array has room. *)
Definition delete_gone_bursts_internal (mag : list Z) (max_gone : nat) (x : floor * tracker) : (floor * tracker) * list fbt_burst :=
  let '(f, t) := x in
  let over := List.filter (burst_over (d_index t)) (bursts t) in
  let kept := List.filter (fun b => negb (burst_over (d_index t) b)) (bursts t) in
  let mask := if (0 <? length over)%nat then rebuild_burst_mask conf kept else burst_mask t in
  let f := if existsb long_burst (bursts t) then update_baseline_ema mag (length kept) true f else f in
  ((f, with_bursts mask kept t), take max_gone (map (close (d_index t)) over)).

(** [fft_burst_tagger_step] on the transform's output: the state, whether the
    floor was learnt, and the two arrays. *)
Definition fft_burst_tagger_step (fb : list (Z * Z)) (max_new max_gone : nat) (x : floor * tracker)
  : (floor * tracker) * bool * list fbt_burst * list fbt_burst :=
  let mag := compute_magnitude_shifted fb in
  let '(f, t) := x in
  if negb (history_primed f) then
    ((update_baseline_ema mag (length (bursts t)) false f, at_index (u64 (d_index t + Z.of_nat FBT_FFT_SIZE)) t), false, [], [])
  else
    let t := with_bursts (burst_mask t) (update_bursts_internal conf mag f (d_index t) (bursts t)) t in
    let '(x, new, gone) := create_new_bursts_internal mag max_new max_gone (f, t) in
    let '(x, gone') := delete_gone_bursts_internal mag (max_gone - length gone) x in
    let '(f, t) := x in
    ((update_baseline_ema mag (length (bursts t)) false f, at_index (u64 (d_index t + Z.of_nat FBT_FFT_SIZE)) t), true, new, gone ++ gone').

Definition fft_burst_tagger_flush (max_gone : nat) (x : floor * tracker) : (floor * tracker) * list fbt_burst :=
  let '(f, t) := x in ((f, with_bursts all_bins [] t), take max_gone (map (close (d_index t)) (bursts t))).

Definition fft_burst_tagger_set_start (start : Z) (x : floor * tracker) : floor * tracker := (x.1, at_index start x.2).
End Detect.

Definition fft_burst_tagger_set_dc_mask (lo hi : Z) (conf : fbt_config) : fbt_config :=
  FbtConfig (burst_pre_len conf) (burst_post_len conf) (burst_width conf) (threshold_q15 conf) (window_enbw conf) (screen_shift conf)
    (if lo <? - (Z.of_nat FBT_FFT_SIZE / 2) then - (Z.of_nat FBT_FFT_SIZE / 2) else lo)
    (if Z.of_nat FBT_FFT_SIZE / 2 - 1 <? hi then Z.of_nat FBT_FFT_SIZE / 2 - 1 else hi) (s_trace_band_vdl2 conf).

(** ** Events *)

Inductive tagger_event :=
  | Step (fb : list (Z * Z)) (max_new max_gone : nat)
  | Flush (max_gone : nat)
  | ResetBaseline.

(** A spectrum of int16 parts, no bin of which is -32768 in both. *)
Definition fft_ok (fb : list (Z * Z)) : Prop :=
  length fb = FBT_FFT_SIZE /\ Forall (fun x => - 2 ^ 15 <= x.1 < 2 ^ 15 /\ - 2 ^ 15 <= x.2 < 2 ^ 15 /\ ~ (x.1 = - 2 ^ 15 /\ x.2 = - 2 ^ 15)) fb.
Definition event_ok (e : tagger_event) : Prop := match e with Step fb _ _ => fft_ok fb | _ => True end.

Section Run.
Context (qsort : list fbt_peak -> list fbt_peak) (log10f : float -> float) (eps : float) (conf : fbt_config).

Definition tagger_do (e : tagger_event) (x : floor * tracker) : floor * tracker :=
  match e with
  | Step fb max_new max_gone => (fft_burst_tagger_step qsort log10f eps conf fb max_new max_gone x).1.1.1
  | Flush max_gone => (fft_burst_tagger_flush max_gone x).1
  | ResetBaseline => fft_burst_tagger_reset_baseline x
  end.

(** The spectra the floor was learnt from since it was last reset, the latest
    first: a step's spectrum as often as the step wrote it. *)
Definition spectra_do (e : tagger_event) (x : floor * tracker) (ws : list (list Z)) : list (list Z) :=
  match e with
  | Step fb _ _ =>
      let x' := tagger_do e x in
      replicate (Z.to_nat (u32 (s_ema_write_no x'.1 - s_ema_write_no x.1))) (compute_magnitude_shifted fb) ++
      (if s_acc_noise_resets x'.2 =? s_acc_noise_resets x.2 then ws else [])
  | Flush _ => ws
  | ResetBaseline => []
  end.
Fixpoint spectra_of (evs : list tagger_event) (x : floor * tracker) (ws : list (list Z)) : list (list Z) :=
  match evs with [] => ws | e :: evs => spectra_of evs (tagger_do e x) (spectra_do e x ws) end.

Definition tagger_run (evs : list tagger_event) (x : floor * tracker) : floor * tracker := fold_left (fun x e => tagger_do e x) evs x.
End Run.

(** What the C library says of [qsort] with this comparison. *)
Definition before (p q : fbt_peak) : Prop := peak_cmp_desc p q <= 0.
Definition sorts_peaks (qsort : list fbt_peak -> list fbt_peak) : Prop :=
  forall l, qsort l ≡ₚ l /\ StronglySorted before (qsort l).

Lemma before_spec p q : before p q <-> sort_key q <= sort_key p.
Proof. unfold before, peak_cmp_desc. destruct (Z.ltb_spec (sort_key q) (sort_key p)), (Z.ltb_spec (sort_key p) (sort_key q)); lia. Qed.

#[export] Instance before_dec : RelDecision before.
Proof. intros p q. unfold before. apply _. Defined.
#[export] Instance before_trans : Transitive before.
Proof. intros p q r. rewrite !before_spec. lia. Qed.
#[export] Instance before_total : Total before.
Proof. intros p q. rewrite !before_spec. lia. Qed.

(** ** A concrete tagger

    The Iridium band's parameters: 14 dB, and the pre-screen's shift for it. *)
Definition iridium_conf : fbt_config := FbtConfig 4096 40000 32 823095 (float_of 2) (Some 5) 1 (-1) false.
Definition sorted_peaks : list fbt_peak -> list fbt_peak := merge_sort before.
Definition quiet_fft : list (Z * Z) := replicate FBT_FFT_SIZE (30, -40).
Definition loud_fft : list (Z * Z) := replicate FBT_FFT_SIZE (-30000, 20000).
Definition primed_evs : list tagger_event := replicate FBT_HISTORY_SIZE (Step quiet_fft 16 16).
Lemma sorted_peaks_ok : sorts_peaks sorted_peaks.
Proof. intros l. split; [apply merge_sort_Permutation|apply (StronglySorted_merge_sort before); apply _]. Qed.
