(* ===== verification/TaggerFloor.v ===== *)
(** The tagger's noise floor
    (src/common/iridium_decoder/fft_burst_tagger.c).

    The floor is kept incrementally, in a ring of 512 slots which a reset does
    not clear.  Here: it equals the sum that recomputing it would give, and a
    carrier of any strength is absorbed. *)

From stdpp Require Import sorting.
From S2P Require Import Prelude SignalBuffer WorkerQueue Scanner BurstTagger.
#[local] Open Scope Z_scope.

(** ** The floor is the sum of a window *)

(** A spectrum whose magnitudes fit: the parts of no bin are both -32768. *)
Definition is_mag (w : list Z) : Prop := length w = FBT_FFT_SIZE /\ Forall (is_u 31) w.

(** [ws]: the spectra written since the floor was last reset, the latest
    first. *)
Definition window_sum (ws : list (list Z)) (k : nat) : Z := zsum (fun w => clamped (rd w k)) (take FBT_HISTORY_SIZE ws).

(** How many of the latest writes in a row were at the clamp in bin [k]. *)
Fixpoint clamp_streak (ws : list (list Z)) (k : nat) : nat :=
  match ws with
  | w :: ws => if FBT_EMA_SLOT_CLAMP <=? rd w k then S (clamp_streak ws k) else 0%nat
  | [] => 0%nat
  end.

Definition run_ok (write_no : Z) (streak : nat) (cr : fbt_clamp_run) : Prop :=
  0 <= last_write cr <= write_no /\
  (if (0 <? streak)%nat then last_write cr = write_no /\ run_len cr = Z.of_nat (Nat.min FBT_HISTORY_SIZE streak)
   else last_write cr <> write_no \/ run_len cr = 0).

Record floor_ok (ws : list (list Z)) (f : floor) : Prop := {
  fo_mags : Forall is_mag ws;
  fo_len : length (baseline_sum f) = FBT_FFT_SIZE;
  fo_sum : forall k, (k < FBT_FFT_SIZE)%nat -> rd (baseline_sum f) k = window_sum ws k;
  fo_index : history_index f = (length ws mod FBT_HISTORY_SIZE)%nat;
  fo_primed : history_primed f = (FBT_HISTORY_SIZE <=? length ws)%nat;
  fo_hist : length (baseline_history f) = FBT_HISTORY_SIZE;
  fo_slots : forall j w, (j < FBT_HISTORY_SIZE)%nat -> ws !! j = Some w ->
    baseline_history f !! ((length ws - 1 - j) mod FBT_HISTORY_SIZE)%nat = Some (map clamped w);
  fo_write_no : is_u 32 (s_ema_write_no f);
  fo_runs : forall runs, s_clamp_run f = Some runs -> length runs = FBT_FFT_SIZE /\
    forall k, (k < FBT_FFT_SIZE)%nat -> run_ok (s_ema_write_no f) (clamp_streak ws k) (run_at runs k) }.

Lemma is_mag_rd w k : is_mag w -> is_u 31 (rd w k).
Proof.
  intros [_ Hw]. unfold rd. rewrite nth_lookup. destruct (w !! k) as [m|] eqn:E; [|cbn; unfold is_u; lia].
  rewrite list.Forall_forall in Hw. exact (Hw m (list_elem_of_lookup_2 _ _ _ E)).
Qed.

Lemma clamp_value : FBT_EMA_SLOT_CLAMP = 4194303.
Proof. reflexivity. Qed.

Lemma clamped_range w k : is_mag w -> 0 <= clamped (rd w k) <= FBT_EMA_SLOT_CLAMP.
Proof.
  intros Hw. pose proof (is_mag_rd w k Hw) as H. unfold is_u in H. unfold clamped.
  pose proof clamp_value. destruct (Z.ltb_spec FBT_EMA_SLOT_CLAMP (rd w k)); lia.
Qed.

Lemma clamped_rd w k : rd (map clamped w) k = clamped (rd w k).
Proof. unfold rd. rewrite !nth_lookup, list_lookup_fmap'. by destruct (w !! k). Qed.

Lemma window_range ws k : Forall is_mag ws -> 0 <= window_sum ws k <= Z.of_nat (Nat.min FBT_HISTORY_SIZE (length ws)) * FBT_EMA_SLOT_CLAMP.
Proof.
  intros Hm. unfold window_sum. rewrite <- length_take. assert (H : Forall is_mag (take FBT_HISTORY_SIZE ws)) by (by apply Forall_take).
  revert H. generalize (take FBT_HISTORY_SIZE ws) as l. intros l Hl. induction Hl as [|w l Hw Hl IH]; [cbn; lia|].
  rewrite zsum_cons. cbn [length]. pose proof (clamped_range w k Hw). lia.
Qed.

Lemma window_fits ws k : Forall is_mag ws -> 0 <= window_sum ws k < 2 ^ 31.
Proof.
  intros Hm. pose proof (window_range ws k Hm) as H. rewrite clamp_value in H.
  assert (Z.of_nat (Nat.min FBT_HISTORY_SIZE (length ws)) <= 512) by (unfold FBT_HISTORY_SIZE; lia). lia.
Qed.

Lemma sN32_small z : - 2 ^ 31 <= z < 2 ^ 31 -> sN 32 z = z.
Proof. intros H. unfold sN. rewrite Z.mod_small; lia. Qed.

Lemma rd_imap (f : nat -> Z -> Z) l k : (k < length l)%nat -> rd (imap f l) k = f k (rd l k).
Proof.
  intros Hk. destruct (lookup_lt_is_Some_2 l k Hk) as [x Hx]. unfold rd.
  rewrite (nth_lookup_total _ l k x Hx). apply nth_lookup_total. by rewrite list_lookup_imap, Hx.
Qed.

Lemma window_push w ws k : (length ws < FBT_HISTORY_SIZE)%nat -> window_sum (w :: ws) k = clamped (rd w k) + window_sum ws k.
Proof. intros Hl. unfold window_sum. rewrite !take_ge by (cbn [length]; lia). exact (zsum_cons (fun w => clamped (rd w k)) w ws). Qed.

Lemma window_slide w ws k old : ws !! (FBT_HISTORY_SIZE - 1)%nat = Some old ->
  window_sum (w :: ws) k = clamped (rd w k) + window_sum ws k - clamped (rd old k).
Proof.
  intros Ho. unfold window_sum.
  assert (E1 : take FBT_HISTORY_SIZE (w :: ws) = w :: take (FBT_HISTORY_SIZE - 1) ws) by reflexivity.
  assert (E2 : take FBT_HISTORY_SIZE ws = take (FBT_HISTORY_SIZE - 1) ws ++ [old]) by exact (take_S_r _ _ _ Ho).
  rewrite E1, E2, zsum_app, !zsum_cons.
  assert (E0 : zsum (fun w => clamped (rd w k)) [] = 0) by reflexivity. lia.
Qed.

(** The new sum, in range. *)
Lemma write_sum ws f mag k : floor_ok ws f -> is_mag mag -> (k < FBT_FFT_SIZE)%nat ->
  rd (baseline_sum (ema_write mag f)) k = window_sum (mag :: ws) k /\ length (baseline_sum (ema_write mag f)) = FBT_FFT_SIZE.
Proof.
  intros F Hm Hk. pose proof (window_fits (mag :: ws) k ltac:(constructor; [exact Hm|exact (fo_mags _ _ F)])) as Hr.
  unfold ema_write. cbv zeta. rewrite (fo_primed _ _ F). destruct (Nat.leb_spec FBT_HISTORY_SIZE (length ws)) as [Hp|Hp].
  - destruct (lookup_lt_is_Some_2 ws (FBT_HISTORY_SIZE - 1)%nat ltac:(unfold FBT_HISTORY_SIZE in *; lia)) as [old Ho].
    pose proof (fo_slots _ _ F (FBT_HISTORY_SIZE - 1)%nat old ltac:(unfold FBT_HISTORY_SIZE; lia) Ho) as Hs.
    assert (Ei : ((length ws - 1 - (FBT_HISTORY_SIZE - 1)) mod FBT_HISTORY_SIZE)%nat = history_index f).
    { rewrite (fo_index _ _ F). replace (length ws) with (length ws - 1 - (FBT_HISTORY_SIZE - 1) + 1 * FBT_HISTORY_SIZE)%nat at 2
        by (unfold FBT_HISTORY_SIZE in *; lia). by rewrite Nat.Div0.mod_add. }
    rewrite Ei in Hs. rewrite (nth_lookup_total _ _ _ _ Hs). unfold ema_step_inner. cbn [baseline_sum]. rewrite length_imap.
    split; [|exact (fo_len _ _ F)]. rewrite rd_imap by (rewrite (fo_len _ _ F); exact Hk). rewrite clamped_rd, (fo_sum _ _ F k Hk).
    rewrite (window_slide _ _ k _ Ho) in Hr. rewrite (window_slide _ _ k _ Ho). rewrite sN32_small; lia.
  - unfold ema_step_inner_prime. cbn [baseline_sum]. rewrite length_imap. split; [|exact (fo_len _ _ F)].
    rewrite rd_imap by (rewrite (fo_len _ _ F); exact Hk). rewrite (fo_sum _ _ F k Hk). rewrite window_push in Hr |- * by exact Hp.
    rewrite sN32_small; lia.
Qed.

(** Ring indices. *)
Lemma mod_succ n a : (0 < n)%nat -> (S a mod n)%nat = if (n <=? S (a mod n))%nat then 0%nat else S (a mod n).
Proof.
  intros Hn. pose proof (Nat.mod_upper_bound a n ltac:(lia)) as Hb. rewrite <- Nat.add_1_r, <- Nat.Div0.add_mod_idemp_l, Nat.add_1_r.
  destruct (Nat.leb_spec n (S (a mod n))) as [H|H]; [|apply Nat.mod_small; lia].
  replace (S (a mod n))%nat with n by lia. apply Nat.Div0.mod_same.
Qed.

Lemma mod_back n a j : (S j < n)%nat -> (S j <= a)%nat -> (a mod n)%nat <> ((a - S j) mod n)%nat.
Proof.
  intros Hn Ha E. assert (Hd : (a = a - S j + S j)%nat) by lia. rewrite Hd in E at 1. rewrite Nat.Div0.add_mod in E.
  rewrite (Nat.mod_small (S j)) in E by lia. pose proof (Nat.mod_upper_bound (a - S j) n ltac:(lia)) as Hr.
  set (r := ((a - S j) mod n)%nat) in *. destruct (Nat.lt_ge_cases (r + S j) n); [rewrite Nat.mod_small in E by lia; lia|].
  replace (r + S j)%nat with (r + S j - n + 1 * n)%nat in E by lia. rewrite Nat.Div0.mod_add, Nat.mod_small in E by lia. lia.
Qed.

Lemma run_push write_no streak cr (clamp : bool) : run_ok write_no streak cr -> 0 <= write_no -> write_no + 1 < 2 ^ 32 ->
  run_ok (write_no + 1) (if clamp then S streak else 0%nat)
    (if clamp then ClampRun (write_no + 1) (if u32 (last_write cr + 1) =? write_no + 1
       then if run_len cr <? Z.of_nat FBT_HISTORY_SIZE then run_len cr + 1 else run_len cr else 1) else cr).
Proof.
  unfold run_ok, FBT_HISTORY_SIZE. intros [Hl Hs] H0 Hw. destruct clamp.
  - cbn [last_write run_len]. split; [lia|]. rewrite (proj2 (Nat.ltb_lt 0 (S streak))) by lia. split; [done|].
    rewrite u32_small by lia. destruct (Nat.ltb_spec 0 streak) as [Hst|Hst].
    + destruct Hs as [-> ->]. rewrite Z.eqb_refl. destruct (Z.ltb_spec (Z.of_nat (Nat.min 512 streak)) (Z.of_nat 512)); lia.
    + replace streak with 0%nat by lia. destruct (Z.eqb_spec (last_write cr + 1) (write_no + 1)) as [E|E]; [|reflexivity].
      destruct Hs as [Hs|Hs]; [lia|]. rewrite Hs. reflexivity.
  - split; [lia|]. cbn [Nat.ltb Nat.leb]. left. lia.
Qed.

Lemma ema_write_ok ws f mag : floor_ok ws f -> is_mag mag -> s_ema_write_no f + 1 < 2 ^ 32 -> floor_ok (mag :: ws) (ema_write mag f).
Proof.
  intros F Hm Hw. pose proof (fo_write_no _ _ F) as Hu. unfold is_u in Hu.
  assert (Ew : s_ema_write_no (ema_write mag f) = s_ema_write_no f + 1)
    by (unfold ema_write; cbv zeta; destruct (if history_primed f then _ else _); cbn [s_ema_write_no]; apply u32_small; lia).
  assert (Eh : baseline_history (ema_write mag f) = <[history_index f := map clamped mag]> (baseline_history f))
    by (unfold ema_write; cbv zeta; by destruct (history_primed f)).
  assert (Ei : history_index (ema_write mag f) = if (FBT_HISTORY_SIZE <=? S (history_index f))%nat then 0%nat else S (history_index f))
    by (unfold ema_write; cbv zeta; by destruct (history_primed f)).
  assert (Ep : history_primed (ema_write mag f) = (FBT_HISTORY_SIZE <=? S (history_index f))%nat || history_primed f)
    by (unfold ema_write; cbv zeta; by destruct (history_primed f)).
  assert (Er : s_clamp_run (ema_write mag f) = option_map (ema_clamp_track (s_ema_write_no f + 1) mag) (s_clamp_run f))
    by (rewrite <- Ew; unfold ema_write; cbv zeta; by destruct (history_primed f)).
  pose proof (fo_index _ _ F) as Hi. assert (Hlt : (history_index f < FBT_HISTORY_SIZE)%nat) by (rewrite Hi; apply Nat.mod_upper_bound; done).
  assert (Hmod : (S (length ws) mod FBT_HISTORY_SIZE)%nat = if (FBT_HISTORY_SIZE <=? S (history_index f))%nat then 0%nat else S (history_index f))
    by (rewrite Hi; apply mod_succ, Nat.lt_0_succ).
  constructor.
  - constructor; [exact Hm|exact (fo_mags _ _ F)].
  - exact (proj2 (write_sum _ _ _ 0%nat F Hm ltac:(unfold FBT_FFT_SIZE; lia))).
  - intros k Hk. exact (proj1 (write_sum _ _ _ k F Hm Hk)).
  - rewrite Ei. cbn [length]. by rewrite Hmod.
  - rewrite Ep, (fo_primed _ _ F). cbn [length]. apply Bool.eq_iff_eq_true. rewrite orb_true_iff, !Nat.leb_le.
    assert (Hd : (length ws = FBT_HISTORY_SIZE * (length ws / FBT_HISTORY_SIZE) + history_index f)%nat) by (rewrite Hi; apply Nat.div_mod; done).
    destruct (length ws / FBT_HISTORY_SIZE)%nat as [|q]; [rewrite Nat.mul_0_r in Hd|rewrite Nat.mul_succ_r in Hd]; lia.
  - by rewrite Eh, length_insert, (fo_hist _ _ F).
  - intros [|j] w Hj Hw'; cbn [lookup list_lookup] in Hw'; rewrite Eh; cbn [length].
    + injection Hw' as <-. replace (S (length ws) - 1 - 0)%nat with (length ws) by lia. rewrite <- Hi.
      rewrite list_lookup_insert_eq by (rewrite (fo_hist _ _ F); lia). done.
    + change (ws !! j = Some w) in Hw'. pose proof (lookup_lt_Some _ _ _ Hw') as Hjl. replace (S (length ws) - 1 - S j)%nat with (length ws - 1 - j)%nat by lia.
      rewrite list_lookup_insert_ne; [apply (fo_slots _ _ F); [lia|exact Hw']|].
      rewrite Hi. replace (length ws - 1 - j)%nat with (length ws - S j)%nat by lia. apply mod_back; lia.
  - rewrite Ew. unfold is_u. lia.
  - intros runs Hr. rewrite Er in Hr. destruct (s_clamp_run f) as [runs0|] eqn:E0; [|discriminate Hr]. injection Hr as <-.
    destruct (fo_runs _ _ F runs0 E0) as [Hl Hk]. unfold ema_clamp_track. rewrite length_imap. split; [exact Hl|]. intros k Hkl. rewrite Ew.
    destruct (lookup_lt_is_Some_2 runs0 k ltac:(lia)) as [cr Hcr]. specialize (Hk k Hkl). unfold run_at in *. rewrite (nth_lookup_total _ _ _ _ Hcr) in Hk.
    erewrite (nth_lookup_total _ (imap _ _)) by (rewrite list_lookup_imap, Hcr; reflexivity).
    pose proof (run_push _ _ _ (FBT_EMA_SLOT_CLAMP <=? rd mag k) Hk ltac:(lia) Hw) as H. cbn [clamp_streak]. by destruct (FBT_EMA_SLOT_CLAMP <=? rd mag k).
Qed.

(** One step on the floor: how often it writes the spectrum, on which floor. *)
Definition writes (n : nat) (mag : list Z) (f : floor) : floor := Nat.iter n (ema_write mag) f.
Definition pushes (n : nat) (mag : list Z) (ws : list (list Z)) : list (list Z) := replicate n mag ++ ws.

Lemma update_baseline_writes mag n force f : update_baseline_ema mag n force f = writes (if (0 <? n)%nat && negb force then 0 else 1) mag f.
Proof. unfold update_baseline_ema. by destruct ((0 <? n)%nat && negb force). Qed.

Lemma ema_write_no mag f : s_ema_write_no (ema_write mag f) = u32 (s_ema_write_no f + 1).
Proof. unfold ema_write. cbv zeta. by destruct (if history_primed f then _ else _). Qed.

Lemma writes_ok n ws f mag : floor_ok ws f -> is_mag mag -> s_ema_write_no f + Z.of_nat n < 2 ^ 32 ->
  floor_ok (pushes n mag ws) (writes n mag f) /\ s_ema_write_no (writes n mag f) = s_ema_write_no f + Z.of_nat n.
Proof.
  intros F Hm Hn. pose proof (fo_write_no _ _ F) as Hu. unfold is_u in Hu. induction n as [|n IH]; [cbn; split; [exact F|lia]|].
  destruct IH as [IH1 IH2]; [lia|]. change (writes (S n) mag f) with (ema_write mag (writes n mag f)).
  change (pushes (S n) mag ws) with (mag :: pushes n mag ws). split; [apply ema_write_ok; [exact IH1|exact Hm|lia]|].
  rewrite ema_write_no, u32_small; lia.
Qed.

Lemma clamp_streak_le ws k : (clamp_streak ws k <= length ws)%nat.
Proof. induction ws as [|w ws IH]; [done|]. cbn [clamp_streak length]. destruct (_ <=? _); lia. Qed.

Lemma reset_floor_ok ws f : floor_ok ws f -> floor_ok [] (reset_floor f).
Proof.
  intros F. constructor; cbn [reset_floor baseline_sum history_index history_primed baseline_history s_ema_write_no s_clamp_run length]; try done.
  - intros k Hk. unfold rd. rewrite nth_lookup, lookup_replicate_2 by exact Hk. done.
  - exact (fo_hist _ _ F).
  - exact (fo_write_no _ _ F).
  - intros runs Hr. destruct (s_clamp_run f); [|discriminate Hr]. injection Hr as <-. split; [done|]. intros k Hk.
    unfold run_at, clamp_zero. rewrite nth_lookup, lookup_replicate_2 by exact Hk. cbn [default from_option].
    pose proof (fo_write_no _ _ F) as Hu. unfold is_u in Hu. split; [cbn; lia|]. right. done.
Qed.

Lemma init_floor_ok table write_no : is_u 32 write_no -> floor_ok [] (fft_burst_tagger_init table write_no).1.
Proof.
  intros Hu. constructor; cbn [fft_burst_tagger_init fst baseline_sum history_index history_primed baseline_history s_ema_write_no s_clamp_run length]; try done.
  - intros k Hk. unfold rd. rewrite nth_lookup, lookup_replicate_2 by exact Hk. done.
  - intros runs Hr. destruct table; [|discriminate Hr]. injection Hr as <-. split; [done|]. intros k Hk.
    unfold run_at, clamp_zero. rewrite nth_lookup, lookup_replicate_2 by exact Hk. cbn [default from_option]. unfold is_u in Hu.
    split; [cbn; lia|]. right. done.
Qed.

(** Saturation: the last 512 writes were all at the clamp. *)
Lemma saturated_streak ws f runs k : floor_ok ws f -> s_clamp_run f = Some runs -> (k < FBT_FFT_SIZE)%nat ->
  bin_carrier_saturated f k = (FBT_HISTORY_SIZE <=? clamp_streak ws k)%nat.
Proof.
  intros F Er Hk. unfold bin_carrier_saturated. rewrite Er. destruct (fo_runs _ _ F runs Er) as [_ H]. destruct (H k Hk) as [_ H1].
  unfold FBT_HISTORY_SIZE in *. destruct (Nat.ltb_spec 0 (clamp_streak ws k)) as [Hs|Hs].
  - destruct H1 as [-> ->]. rewrite Z.eqb_refl, andb_true_r. apply Bool.eq_iff_eq_true. rewrite Z.leb_le, Nat.leb_le. lia.
  - replace (clamp_streak ws k) with 0%nat by lia. destruct H1 as [H1| ->]; [|done].
    apply Z.eqb_neq in H1. by rewrite H1, andb_false_r.
Qed.

Lemma mag_sq_range x : - 2 ^ 15 <= x.1 < 2 ^ 15 -> - 2 ^ 15 <= x.2 < 2 ^ 15 -> ~ (x.1 = - 2 ^ 15 /\ x.2 = - 2 ^ 15) -> is_u 31 (mag_sq x).
Proof.
  intros H1 H2 Hn. unfold is_u, mag_sq. destruct x as [a b]. cbn [fst snd] in *.
  assert (Ha : 0 <= a * a <= 2 ^ 30) by nia. assert (Hb : 0 <= b * b <= 2 ^ 30) by nia.
  assert (Hs : a * a + b * b < 2 ^ 31).
  { destruct (Z.eq_dec a (- 2 ^ 15)) as [->|Ea]; [|assert (a * a <= (2 ^ 15 - 1) * (2 ^ 15 - 1)) by nia; lia].
    destruct (Z.eq_dec b (- 2 ^ 15)) as [->|Eb]; [tauto|]. assert (b * b <= (2 ^ 15 - 1) * (2 ^ 15 - 1)) by nia. lia. }
  rewrite sN32_small; lia.
Qed.

Lemma magnitude_is_mag fb : fft_ok fb -> is_mag (compute_magnitude_shifted fb).
Proof.
  intros [Hl Hf]. assert (Hm : Forall (is_u 31) (map mag_sq fb)).
  { apply list.Forall_fmap. eapply list.Forall_impl; [exact Hf|]. intros x (H1 & H2 & H3). by apply mag_sq_range. }
  unfold compute_magnitude_shifted, slice. split.
  - rewrite length_app, !length_map, !length_take, !length_drop, Hl. done.
  - apply list.Forall_app. split; rewrite <- firstn_map, <- skipn_map; apply Forall_take, Forall_drop; exact Hm.
Qed.

Lemma u32_succ_ne z : (u32 (z + 1) =? z) = false.
Proof.
  apply Z.eqb_neq. unfold u32. intros E. pose proof (Z.div_mod (z + 1) (2 ^ 32) ltac:(lia)) as H. rewrite E in H. lia.
Qed.

Section Facts.
Context (qsort : list fbt_peak -> list fbt_peak) (log10f : float -> float) (eps : float) (conf : fbt_config).
Notation step := (fft_burst_tagger_step qsort log10f eps conf).
Notation create := (create_new_bursts_internal qsort log10f eps conf).

(** The counter tells whether the floor was reset. *)
Lemma create_floor mag max_new max_gone f t : let x := (create mag max_new max_gone (f, t)).1.1 in
  x.1 = if s_acc_noise_resets x.2 =? s_acc_noise_resets t then f else reset_floor f.
Proof.
  unfold create_new_bursts_internal. destruct (open_bursts _ _ _ _ _ _ _ _ _ _ _) as [[[mask l] id] opened].
  destruct (FBT_SQUELCH_MAX_BURSTS <? length l)%nat; [|cbn [fst snd s_acc_noise_resets]; by rewrite Z.eqb_refl]. cbv zeta.
  destruct (10 <=? _); cbn [fst snd fft_burst_tagger_reset_baseline reset_tracker s_acc_noise_resets]; [by rewrite u32_succ_ne|by rewrite Z.eqb_refl].
Qed.

Lemma delete_floor mag max_gone f t : exists n, (n <= 1)%nat /\ (delete_gone_bursts_internal conf mag max_gone (f, t)).1.1 = writes n mag f /\
  s_acc_noise_resets (delete_gone_bursts_internal conf mag max_gone (f, t)).1.2 = s_acc_noise_resets t.
Proof.
  unfold delete_gone_bursts_internal. cbv zeta. cbn [fst]. destruct (existsb _ _); [|exists 0%nat; split; [lia|done]].
  exists 1%nat. split; [lia|]. rewrite update_baseline_writes. cbn [negb]. by rewrite andb_false_r.
Qed.

Lemma step_floor fb max_new max_gone f t : let x := (step fb max_new max_gone (f, t)).1.1.1 in exists n, (n <= 2)%nat /\
  x.1 = writes n (compute_magnitude_shifted fb) (if s_acc_noise_resets x.2 =? s_acc_noise_resets t then f else reset_floor f).
Proof.
  unfold fft_burst_tagger_step. cbv zeta. destruct (history_primed f); cbn [negb].
  - set (mag := compute_magnitude_shifted fb). set (t0 := with_bursts _ _ _).
    pose proof (create_floor mag max_new max_gone f t0) as Hr. cbv zeta in Hr. destruct (create mag max_new max_gone (f, t0)) as [[[f1 t1] new] gone].
    cbn [fst snd] in Hr. destruct (delete_floor mag (max_gone - length gone) f1 t1) as (n & Hn & E & En).
    destruct (delete_gone_bursts_internal _ _ _ _) as [[f2 t2] gone']. cbn [fst snd] in E, En |- *. change (s_acc_noise_resets t0) with (s_acc_noise_resets t) in Hr.
    cbn [at_index s_acc_noise_resets]. rewrite En, <- Hr, E. rewrite update_baseline_writes. unfold writes. rewrite <- Nat.iter_add. eexists. split; [|reflexivity].
    destruct ((0 <? length (bursts t2))%nat && negb false); lia.
  - cbn [fst snd at_index s_acc_noise_resets]. rewrite Z.eqb_refl, update_baseline_writes. eexists. split; [|reflexivity].
    destruct ((0 <? length (bursts t))%nat && negb false); lia.
Qed.

Lemma flush_floor max_gone x : (fft_burst_tagger_flush max_gone x).1.1 = x.1.
Proof. by destruct x as [f t]. Qed.

Lemma run_floor evs x ws : floor_ok ws x.1 -> Forall event_ok evs -> s_ema_write_no x.1 + 2 * Z.of_nat (length evs) < 2 ^ 32 ->
  floor_ok (spectra_of qsort log10f eps conf evs x ws) (tagger_run qsort log10f eps conf evs x).1.
Proof.
  revert x ws. induction evs as [|e evs IH]; intros [f t] ws F He Hn; [exact F|].
  pose proof (Forall_inv He) as He0. pose proof (Forall_inv_tail He) as He1. cbn [length fst] in Hn. rewrite Nat2Z.inj_succ in Hn.
  cbn [fst] in F. pose proof (fo_write_no _ _ F) as Hu. unfold is_u in Hu.
  assert (H : floor_ok (spectra_do qsort log10f eps conf e (f, t) ws) (tagger_do qsort log10f eps conf e (f, t)).1 /\
    s_ema_write_no (tagger_do qsort log10f eps conf e (f, t)).1 <= s_ema_write_no f + 2).
  { destruct e as [fb mn mg|mg|]; cbn [spectra_do tagger_do].
    - destruct (step_floor fb mn mg f t) as (n & Hn2 & E). cbv zeta in E |- *. cbn [fst snd] in *. rewrite E. apply magnitude_is_mag in He0.
      set (same := s_acc_noise_resets _ =? s_acc_noise_resets t) in *.
      assert (Fr : floor_ok (if same then ws else []) (if same then f else reset_floor f)) by (destruct same; [exact F|by apply (reset_floor_ok ws)]).
      assert (Er : s_ema_write_no (if same then f else reset_floor f) = s_ema_write_no f) by by destruct same.
      destruct (writes_ok n _ _ _ Fr He0) as [G1 G2]; [rewrite Er; lia|]. rewrite G2, Er. split; [|lia].
      replace (Z.to_nat (u32 (s_ema_write_no f + Z.of_nat n - s_ema_write_no f))) with n; [exact G1|]. rewrite u32_small; lia.
    - split; [exact F|cbn [fst fft_burst_tagger_flush]; lia].
    - split; [by apply (reset_floor_ok ws)|cbn [fst reset_floor fft_burst_tagger_reset_baseline s_ema_write_no]; lia]. }
  destruct H as [F1 N1]. unfold tagger_run. cbn [spectra_of fold_left]. apply IH; [exact F1|exact He1|lia].
Qed.
End Facts.

(** The clamp table stays as the initialisation got it. *)
Definition has_table (f : floor) : bool := if s_clamp_run f then true else false.

Lemma has_table_write mag f : has_table (ema_write mag f) = has_table f.
Proof. unfold has_table, ema_write. cbv zeta. destruct (if history_primed f then _ else _). cbn [s_clamp_run]. by destruct (s_clamp_run f). Qed.
Lemma has_table_writes n mag f : has_table (writes n mag f) = has_table f.
Proof. induction n as [|n IH]; [done|]. change (writes (S n) mag f) with (ema_write mag (writes n mag f)). by rewrite has_table_write. Qed.
Lemma has_table_reset f : has_table (reset_floor f) = has_table f.
Proof. unfold has_table, reset_floor. cbn [s_clamp_run]. by destruct (s_clamp_run f). Qed.

Lemma has_table_run qsort log10f eps conf evs x : has_table (tagger_run qsort log10f eps conf evs x).1 = has_table x.1.
Proof.
  revert x. induction evs as [|e evs IH]; intros [f t]; [done|]. unfold tagger_run in *. cbn [fold_left]. rewrite IH. clear IH.
  destruct e as [fb mn mg|mg|]; cbn [tagger_do].
  - destruct (step_floor qsort log10f eps conf fb mn mg f t) as (n & _ & ->). rewrite has_table_writes.
    destruct (_ =? _); [done|apply has_table_reset].
  - done.
  - apply has_table_reset.
Qed.

Lemma saturated_spec ws f k : floor_ok ws f -> (k < FBT_FFT_SIZE)%nat ->
  bin_carrier_saturated f k = has_table f && (FBT_HISTORY_SIZE <=? clamp_streak ws k)%nat.
Proof.
  intros F Hk. unfold has_table. destruct (s_clamp_run f) as [runs|] eqn:E; [by rewrite (saturated_streak ws f runs k F E Hk)|].
  unfold bin_carrier_saturated. by rewrite E.
Qed.

(** A floor under every term. *)
Lemma zsum_floor m (l : list (list Z)) k : m <= FBT_EMA_SLOT_CLAMP -> Forall (fun w => m <= rd w k) l ->
  m * Z.of_nat (length l) <= zsum (fun w => clamped (rd w k)) l.
Proof.
  intros Hm H. induction H as [|w l Hw H IH]; [cbn; lia|]. rewrite zsum_cons. cbn [length]. rewrite Nat2Z.inj_succ.
  assert (m <= clamped (rd w k)) by (unfold clamped; destruct (_ <? _); lia). lia.
Qed.

Lemma streak_floor n ws k : Forall (fun w => FBT_EMA_SLOT_CLAMP <= rd w k) (take n ws) -> (length (take n ws) <= clamp_streak ws k)%nat.
Proof.
  revert ws. induction n as [|n IH]; intros [|w ws] H; cbn [take length]; try lia. cbn [take] in H.
  pose proof (Forall_inv H) as Hw. cbv beta in Hw. cbn [clamp_streak]. rewrite (proj2 (Z.leb_le _ _) Hw). pose proof (IH ws (Forall_inv_tail H)). lia.
Qed.

(** ** A concrete floor *)

Lemma quiet_ok : fft_ok quiet_fft.
Proof. split; [done|]. apply Forall_replicate. cbn. lia. Qed.
Lemma loud_ok : fft_ok loud_fft.
Proof. split; [done|]. apply Forall_replicate. cbn. lia. Qed.
Lemma primed_evs_ok : Forall event_ok primed_evs.
Proof. apply Forall_replicate. exact quiet_ok. Qed.
Lemma primed_evs_length : Z.of_nat (length primed_evs) = 512.
Proof. reflexivity. Qed.

(** A floor that has learnt the loud spectrum 600 times. *)
Definition loud_mag : list Z := compute_magnitude_shifted loud_fft.
Definition loud_floor : floor := writes 600 loud_mag (fft_burst_tagger_init true 0).1.
Lemma loud_floor_ok : floor_ok (pushes 600 loud_mag []) loud_floor.
Proof. apply writes_ok; [apply init_floor_ok; unfold is_u; lia|apply magnitude_is_mag, loud_ok|cbn; lia]. Qed.
Lemma loud_is_mag : is_mag loud_mag.
Proof. apply magnitude_is_mag, loud_ok. Qed.
Lemma loud_floor_table : has_table loud_floor = true.
Proof. unfold loud_floor. by rewrite has_table_writes. Qed.
Lemma loud_pushes_length : (FBT_HISTORY_SIZE <= length (pushes 600 loud_mag []))%nat.
Proof. unfold pushes. rewrite app_nil_r, length_replicate. unfold FBT_HISTORY_SIZE. lia. Qed.
Lemma loud_pushes_same : Forall (fun w => rd loud_mag 700 <= rd w 700) (take FBT_HISTORY_SIZE (pushes 600 loud_mag [])).
Proof. apply Forall_take. unfold pushes. rewrite app_nil_r. apply Forall_replicate. lia. Qed.
Lemma bin_700 : (700 < FBT_FFT_SIZE)%nat.
Proof. unfold FBT_FFT_SIZE. lia. Qed.

(** Three steps and a reset in between. *)
Definition mixed_evs : list tagger_event := [Step quiet_fft 16 16; Step loud_fft 16 16; ResetBaseline; Step loud_fft 16 16].
Lemma mixed_evs_ok : Forall event_ok mixed_evs.
Proof. constructor; [exact quiet_ok|]. constructor; [exact loud_ok|]. constructor; [exact I|]. constructor; [exact loud_ok|]. constructor. Qed.

#[local] Opaque primed_evs mixed_evs loud_floor loud_mag.

(** ** Properties *)

(** C16: after any run of steps, flushes and resets the incremental noise floor
    is what recomputing it would give: with [ws] the spectra written since the
    last reset, every bin's [baseline_sum] is the sum of the clamped magnitudes
    of the last 512 of them and stays inside 31 bits, the floor counts as primed
    exactly from 512 writes on, and a bin counts as saturated exactly where the
    clamp table exists and the last 512 writes were all at the clamp.  So a reset
    need not clear the ring of slots. *)
Theorem tagger_floor_is_window qsort log10f eps conf evs table write_no :
  is_u 32 write_no -> Forall event_ok evs -> write_no + 2 * Z.of_nat (length evs) < 2 ^ 32 ->
  let x := fft_burst_tagger_init table write_no in
  let f := (tagger_run qsort log10f eps conf evs x).1 in
  let ws := spectra_of qsort log10f eps conf evs x [] in
  history_primed f = (FBT_HISTORY_SIZE <=? length ws)%nat /\
  forall k, (k < FBT_FFT_SIZE)%nat ->
    rd (baseline_sum f) k = zsum (fun w => clamped (rd w k)) (take FBT_HISTORY_SIZE ws) /\ 0 <= rd (baseline_sum f) k < 2 ^ 31 /\
    bin_carrier_saturated f k = table && (FBT_HISTORY_SIZE <=? clamp_streak ws k)%nat.
Proof.
  intros Hw He Hn. cbv zeta. set (x := fft_burst_tagger_init table write_no).
  pose proof (run_floor qsort log10f eps conf evs x [] (init_floor_ok table write_no Hw) He Hn) as F.
  split; [exact (fo_primed _ _ F)|]. intros k Hk. rewrite (fo_sum _ _ F k Hk). split; [done|].
  split; [apply window_fits, (fo_mags _ _ F)|]. rewrite (saturated_spec _ _ _ F Hk), has_table_run. by destruct table.
Qed.

Lemma tagger_floor_is_window_witness :
  let f := (tagger_run sorted_peaks (fun x => x) (float_of 1) iridium_conf (primed_evs ++ mixed_evs) (fft_burst_tagger_init true 7)).1 in
  let ws := spectra_of sorted_peaks (fun x => x) (float_of 1) iridium_conf (primed_evs ++ mixed_evs) (fft_burst_tagger_init true 7) [] in
  history_primed f = (FBT_HISTORY_SIZE <=? length ws)%nat /\
    forall k, (k < FBT_FFT_SIZE)%nat ->
    rd (baseline_sum f) k = zsum (fun w => clamped (rd w k)) (take FBT_HISTORY_SIZE ws) /\ 0 <= rd (baseline_sum f) k < 2 ^ 31 /\
    bin_carrier_saturated f k = true && (FBT_HISTORY_SIZE <=? clamp_streak ws k)%nat.
Proof.
  apply (tagger_floor_is_window sorted_peaks (fun x => x) (float_of 1) iridium_conf (primed_evs ++ mixed_evs) true 7).
  - split; reflexivity || discriminate.
  - apply list.Forall_app. split; [exact primed_evs_ok|exact mixed_evs_ok].
  - rewrite length_app, Nat2Z.inj_add, primed_evs_length. reflexivity.
Defined.

(** C25: a carrier is absorbed.  Once the last 512 spectra the floor was learnt
    from were at least as strong in a bin as the present one, the bin is not
    above the threshold any more or counts as saturated, so that it neither
    opens a burst nor passes the test by which a burst's own bins keep it open.
    With the clamp table this holds however strong the carrier is; where the
    table could not be allocated, for magnitudes up to the clamp.  (The
    integrated test of the VDL2 band looks at the other bins too.) *)
Theorem carrier_absorbed conf mag ws f k :
  floor_ok ws f -> has_table f = true \/ rd mag k <= FBT_EMA_SLOT_CLAMP -> 2 ^ 15 <= threshold_q15 conf -> is_mag mag -> (k < FBT_FFT_SIZE)%nat -> (FBT_HISTORY_SIZE <= length ws)%nat ->
  Forall (fun w => rd mag k <= rd w k) (take FBT_HISTORY_SIZE ws) ->
  bin_above conf mag f k && negb (bin_carrier_saturated f k) = false.
Proof.
  intros F Ht Hthr Hm Hk Hl Hw. pose proof (fo_mags _ _ F) as Hms. rewrite (saturated_spec _ _ _ F Hk).
  assert (Hlen : length (take FBT_HISTORY_SIZE ws) = FBT_HISTORY_SIZE) by (rewrite length_take; lia).
  destruct (Z.le_gt_cases (rd mag k) FBT_EMA_SLOT_CLAMP) as [Hc|Hc].
  - replace (bin_above conf mag f k) with false; [done|]. symmetry. unfold bin_above, above_threshold. apply Z.ltb_ge. rewrite (fo_sum _ _ F k Hk).
    assert (Hs : rd mag k * Z.of_nat FBT_HISTORY_SIZE <= window_sum ws k) by (rewrite <- Hlen; by apply zsum_floor).
    pose proof (window_fits ws k Hms) as Hr. rewrite Z.shiftr_div_pow2 by lia. apply Z.div_le_lower_bound; [lia|]. nia.
  - destruct Ht as [->|Ht]; [|lia]. cbn [andb].
    replace (FBT_HISTORY_SIZE <=? clamp_streak ws k)%nat with true; [by rewrite andb_false_r|]. symmetry. apply Nat.leb_le.
    rewrite <- Hlen at 1. apply streak_floor. eapply list.Forall_impl; [exact Hw|]. cbv beta. intros w Hww. lia.
Qed.

Lemma carrier_absorbed_witness : bin_above iridium_conf loud_mag loud_floor 700 && negb (bin_carrier_saturated loud_floor 700) = false.
Proof.
  apply (carrier_absorbed iridium_conf loud_mag (pushes 600 loud_mag []) loud_floor 700).
  - exact loud_floor_ok.
  - left. exact loud_floor_table.
  - discriminate.
  - exact loud_is_mag.
  - exact bin_700.
  - exact loud_pushes_length.
  - exact loud_pushes_same.
Defined.
