(* ===== verification/TaggerBursts.v ===== *)
(** The bursts the tagger follows
    (src/common/iridium_decoder/fft_burst_tagger.c).

    Here: the bursts followed never crowd each other, every burst opened, ended
    or dropped in a step is accounted for, new bursts go to the strongest peaks,
    and the vector pre-screen finds the peaks that the plain scan finds. *)

From Stdlib Require Import Sorted.
From stdpp Require Import sorting.
From S2P Require Import Prelude SignalBuffer WorkerQueue Scanner BurstTagger TaggerFloor.
#[local] Open Scope Z_scope.

(** ** The bursts being followed *)

Record conf_ok (conf : fbt_config) : Prop := {
  co_pre : 0 <= burst_pre_len conf <= 512 * 2048;
  co_post : 0 <= burst_post_len conf < 2 ^ 31;
  co_width : 0 <= burst_width conf < 2048;
  co_thr : 0 <= threshold_q15 conf < 2 ^ 31 }.

(** A burst at the beginning of a step. *)
Record burst_ok (conf : fbt_config) (d : Z) (b : fbt_burst) : Prop := {
  bo_center : (margin conf <= center_bin b < FBT_FFT_SIZE - margin conf)%nat;
  bo_start : 0 <= b_start b /\ b_start b + burst_pre_len conf <= d - 2048;
  bo_active : b_start b <= last_active b <= d - 2048;
  bo_long : last_active b - b_start b <= FBT_MAX_BURST_LEN;
  bo_post : d - 2048 < last_active b + burst_post_len conf }.

(** Bin [k] is kept free by burst [b]. *)
Definition covers (conf : fbt_config) (k : nat) (b : fbt_burst) : bool := masked_by conf (center_bin b) k.

Definition apart (conf : fbt_config) (l : list fbt_burst) : Prop := StronglySorted (fun a b => covers conf (center_bin b) a = false) l.

Definition mask_ok (conf : fbt_config) (mask : list bool) (l : list fbt_burst) : Prop :=
  length mask = FBT_FFT_SIZE /\ forall k, (k < FBT_FFT_SIZE)%nat -> nth k mask false = negb (existsb (covers conf k) l).

Record tracker_ok (conf : fbt_config) (f : floor) (t : tracker) : Prop := {
  to_mask : mask_ok conf (burst_mask t) (bursts t);
  to_count : (length (bursts t) <= FBT_SQUELCH_MAX_BURSTS)%nat;
  to_apart : apart conf (bursts t);
  to_each : Forall (burst_ok conf (d_index t)) (bursts t);
  to_primed : history_primed f = false -> bursts t = [];
  to_index : (if history_primed f then 512 else Z.of_nat (history_index f)) * 2048 <= d_index t < 2 ^ 63;
  to_squelch : 0 <= squelch_count t < 10 }.

Lemma masked_by_spec conf c k : masked_by conf c k = true <-> Z.abs (Z.of_nat k - Z.of_nat c) <= burst_width conf / 2.
Proof. unfold masked_by. cbv zeta. rewrite andb_true_iff, !Z.leb_le. lia. Qed.

Lemma masked_by_free conf c k : masked_by conf c k = false <-> burst_width conf / 2 < Z.abs (Z.of_nat k - Z.of_nat c).
Proof. rewrite <- not_true_iff_false, masked_by_spec. lia. Qed.

Lemma all_bins_ok conf : mask_ok conf all_bins [].
Proof. split; [done|]. intros k Hk. unfold all_bins. by rewrite nth_lookup, lookup_replicate_2. Qed.

Lemma mask_burst_nth conf c mask k : (k < length mask)%nat -> nth k (mask_burst conf c mask) false = negb (masked_by conf c k) && nth k mask false.
Proof.
  intros Hk. destruct (lookup_lt_is_Some_2 mask k Hk) as [m Hm]. rewrite !nth_lookup. unfold mask_burst.
  rewrite list_lookup_imap, Hm. cbn [option_map default fmap option_fmap]. by destruct (masked_by conf c k).
Qed.

Lemma mask_burst_ok conf c mask l b : mask_ok conf mask l -> center_bin b = c -> mask_ok conf (mask_burst conf c mask) (l ++ [b]).
Proof.
  intros [Hl Hm] Hb. split; [unfold mask_burst; by rewrite length_imap|]. intros k Hk.
  rewrite mask_burst_nth by lia. rewrite (Hm k Hk), existsb_app, negb_orb. cbn [existsb]. unfold covers at 3. rewrite Hb, orb_false_r. apply andb_comm.
Qed.

Lemma rebuild_ok conf l : mask_ok conf (rebuild_burst_mask conf l) l.
Proof.
  unfold rebuild_burst_mask. pose proof (all_bins_ok conf) as H. revert H. generalize all_bins. change l with ([] ++ l) at 2.
  generalize (@nil fbt_burst) as pre. induction l as [|b l IH]; intros pre mask H; cbn [fold_left]; [by rewrite app_nil_r|].
  rewrite cons_middle, app_assoc. apply IH, (mask_burst_ok _ _ _ _ _ H). done.
Qed.

(** Apart is symmetric, so both orders say the same. *)
Lemma covers_sym conf a b : covers conf (center_bin a) b = covers conf (center_bin b) a.
Proof. unfold covers. apply Bool.eq_iff_eq_true. rewrite !masked_by_spec. lia. Qed.

Lemma apart_snoc conf l b : apart conf l -> existsb (covers conf (center_bin b)) l = false -> apart conf (l ++ [b]).
Proof.
  unfold apart. induction l as [|a l IH]; intros Ha Hb; [repeat constructor|]. cbn [existsb app] in *. apply orb_false_iff in Hb as [Hb1 Hb2].
  inversion Ha as [|? ? Ha1 Ha2]; subst. constructor; [by apply IH|]. apply list.Forall_app. split; [exact Ha2|]. constructor; [exact Hb1|constructor].
Qed.

Lemma apart_filter conf g l : apart conf l -> apart conf (List.filter g l).
Proof.
  unfold apart. induction l as [|a l IH]; intros Ha; [constructor|]. inversion Ha as [|? ? Ha1 Ha2]; subst. cbn [List.filter].
  destruct (g a); [|by apply IH]. constructor; [by apply IH|]. apply List.Forall_forall. intros x Hx. apply filter_In in Hx as [Hx _].
  exact (proj1 (List.Forall_forall _ _) Ha2 x Hx).
Qed.

(** What following does not change. *)
Lemma update_centers conf mag f d l : map center_bin (update_bursts_internal conf mag f d l) = map center_bin l.
Proof. unfold update_bursts_internal. rewrite map_map. apply map_ext. intros b. by destruct (burst_heard _ _ _ _). Qed.

Lemma apart_centers conf l l' : map center_bin l = map center_bin l' -> apart conf l -> apart conf l'.
Proof.
  unfold apart. revert l'. induction l as [|a l IH]; intros [|a' l'] E H; try discriminate E; [constructor|]. cbn [map] in E.
  injection E as E1 E2. inversion H as [|? ? H1 H2]; subst. constructor; [by apply IH|]. clear IH H H1. revert l' E2. induction l as [|b l IH]; intros [|b' l'] E2; try discriminate E2; [constructor|].
  cbn [map] in E2. injection E2 as E3 E4. inversion H2; subst. constructor; [unfold covers in *; by rewrite <- E1, <- E3|by apply IH].
Qed.

Lemma existsb_centers conf k l l' : map center_bin l = map center_bin l' -> existsb (covers conf k) l = existsb (covers conf k) l'.
Proof.
  revert l'. induction l as [|a l IH]; intros [|a' l'] E; try discriminate E; [done|]. cbn [map] in E. injection E as E1 E2.
  cbn [existsb]. unfold covers at 1 3. by rewrite E1, (IH l' E2).
Qed.

Section Opening.
Context (log10f : float -> float) (eps : float) (conf : fbt_config) (mag : list Z) (f : floor) (d : Z).

Definition peak_in (p : fbt_peak) : Prop := (margin conf <= pk_bin p < FBT_FFT_SIZE - margin conf)%nat.

(** A burst opened at [d] on one of [peaks]. *)
Definition opened_on (peaks : list fbt_peak) (b : fbt_burst) : Prop :=
  exists p id, p ∈ peaks /\ b = new_burst conf mag log10f eps f d id (pk_bin p).

(** Why a peak has no burst of its own or is one: a burst covers it that was
    open before, or one opened on a peak at least as strong, or all are used. *)
Definition settled (peaks : list fbt_peak) (l new : list fbt_burst) (p : fbt_peak) : Prop :=
  existsb (covers conf (pk_bin p)) l = true \/ (FBT_MAX_BURSTS <= length (l ++ new))%nat \/
  exists q b, q ∈ peaks /\ b ∈ new /\ center_bin b = pk_bin q /\ covers conf (pk_bin p) b = true /\ sort_key p <= sort_key q.

Lemma covers_self c b : 0 <= burst_width conf -> center_bin b = c -> covers conf c b = true.
Proof. intros Hw Hb. apply masked_by_spec. rewrite Hb. replace (_ - _) with 0 by lia. cbn. apply Z.div_pos; lia. Qed.

Lemma open_bursts_ok peaks : 0 <= burst_width conf -> Forall peak_in peaks -> StronglySorted before peaks ->
  forall mask l id opened, mask_ok conf mask l -> apart conf l -> (length l <= FBT_MAX_BURSTS)%nat ->
  exists new mask' id', open_bursts conf mag log10f eps f d peaks mask l id opened = (mask', l ++ new, id', opened ++ new) /\
    mask_ok conf mask' (l ++ new) /\ apart conf (l ++ new) /\ (length (l ++ new) <= FBT_MAX_BURSTS)%nat /\
    Forall (opened_on peaks) new /\ Forall (settled peaks l new) peaks.
Proof.
  intros Hw. induction peaks as [|p peaks IH]; intros Hp Hs mask l id opened Hm Ha Hl.
  { exists [], mask, id. rewrite !app_nil_r. repeat split; try done; try apply Hm; constructor. }
  pose proof (Forall_inv Hp) as Hp0. inversion Hs as [|? ? Hs1 Hs2]; subst. specialize (IH (Forall_inv_tail Hp) Hs1). unfold peak_in in Hp0.
  assert (Hk : (pk_bin p < FBT_FFT_SIZE)%nat) by lia. cbn [open_bursts]. rewrite (proj2 Hm _ Hk), negb_involutive.
  assert (Hmore : forall new, Forall (opened_on peaks) new -> Forall (opened_on (p :: peaks)) new).
  { intros new H. eapply list.Forall_impl; [exact H|]. intros b (q & i & Hq & E). exists q, i. split; [by right|exact E]. }
  destruct (existsb (covers conf (pk_bin p)) l) eqn:Ec.
  - destruct (IH mask l id opened Hm Ha Hl) as (new & mask' & id' & E & H1 & H2 & H3 & H4 & H5). exists new, mask', id'.
    split; [exact E|]. do 3 (split; [assumption|]). split; [by apply Hmore|]. constructor; [by left|].
    eapply list.Forall_impl; [exact H5|]. intros x [Hx|[Hx|(q & b & Hq & Hr)]]; [by left|by right; left|]. right. right. exists q, b. split; [by right|exact Hr].
  - destruct (Nat.leb_spec FBT_MAX_BURSTS (length l)) as [Hf|Hf].
    { exists [], mask, id. rewrite !app_nil_r. split; [done|]. do 3 (split; [assumption|]). split; [constructor|].
      apply list.Forall_forall. intros x _. right. left. by rewrite app_nil_r. }
    set (b := new_burst conf mag log10f eps f d id (pk_bin p)). assert (Hb : center_bin b = pk_bin p) by done.
    destruct (IH (mask_burst conf (pk_bin p) mask) (l ++ [b]) (u64 (id + 10)) (opened ++ [b])) as (new & mask' & id' & E & H1 & H2 & H3 & H4 & H5).
    { by apply mask_burst_ok. } { apply apart_snoc; [exact Ha|by rewrite Hb]. } { rewrite length_app. cbn [length]. lia. }
    exists (b :: new), mask', id'. rewrite <- !app_assoc in E, H1, H2, H3. cbn [app] in E, H1, H2, H3.
    split; [rewrite E, <- app_assoc; reflexivity|]. do 3 (split; [assumption|]).
    split; [constructor; [exists p, id; split; [by left|done]|by apply Hmore]|].
    assert (Hcov : forall x, sort_key x <= sort_key p -> covers conf (pk_bin x) b = true -> settled (p :: peaks) l (b :: new) x).
    { intros x Hx Hcx. right. right. exists p, b. split; [by left|]. split; [by left|]. done. }
    constructor; [apply Hcov; [lia|by apply covers_self]|]. apply list.Forall_forall. intros x Hx.
    destruct (proj1 (list.Forall_forall _ _) H5 x Hx) as [H6|[H6|(q & b' & Hq & Hb' & Hr)]].
    + rewrite existsb_app in H6. apply orb_true_iff in H6 as [H6|H6]; [by left|]. cbn [existsb] in H6. rewrite orb_false_r in H6.
      apply Hcov; [apply before_spec; exact (proj1 (list.Forall_forall _ _) Hs2 x Hx)|exact H6].
    + right. left. by rewrite <- app_assoc in H6.
    + right. right. exists q, b'. split; [by right|]. split; [by right|exact Hr].
Qed.
End Opening.

Lemma scan_peaks_in conf mag f mask : Forall (peak_in conf) (scan_peaks conf mag f mask).
Proof.
  unfold scan_peaks. apply List.Forall_forall. intros p Hp. apply in_map_iff in Hp as (k & <- & Hk). apply filter_In in Hk as [Hk _].
  apply in_seq in Hk. unfold peak_in, FBT_FFT_SIZE in *. cbn [peak_of pk_bin]. lia.
Qed.

Lemma screened_peaks_in conf mag f mask s : Forall (peak_in conf) (screened_peaks conf mag f mask s).
Proof.
  unfold screened_peaks. apply List.Forall_forall. intros p Hp. apply in_flat_map in Hp as (g & _ & Hp).
  destruct (fbt_detect_screen _ _ _ _); [|destruct Hp]. cbv zeta in Hp. apply in_map_iff in Hp as (k & <- & Hk). apply filter_In in Hk as [Hk _].
  apply in_seq in Hk. unfold peak_in, FBT_FFT_SIZE in *. cbn [peak_of pk_bin]. lia.
Qed.

Lemma find_peaks_in conf mag f mask : Forall (peak_in conf) (find_peaks conf mag f mask).
Proof. unfold find_peaks. destruct (screen_shift conf); [apply screened_peaks_in|apply scan_peaks_in]. Qed.

(** ** The two outcomes of a step *)

Lemma delete_none conf mag max_gone f t : bursts t = [] -> delete_gone_bursts_internal conf mag max_gone (f, t) = ((f, t), []).
Proof.
  intros Hb. unfold delete_gone_bursts_internal. cbv zeta. rewrite Hb. cbn [List.filter length existsb map]. rewrite take_nil.
  destruct t; cbn in Hb; subst; reflexivity.
Qed.

Section Outcome.
Context (qsort : list fbt_peak -> list fbt_peak) (log10f : float -> float) (eps : float) (conf : fbt_config).
Notation step := (fft_burst_tagger_step qsort log10f eps conf).
Context (fb : list (Z * Z)) (f : floor) (t : tracker).
Notation mag := (compute_magnitude_shifted fb).
Notation d := (d_index t).

(** The bursts followed, and the peaks in the order they are taken. *)
Definition followed : list fbt_burst := update_bursts_internal conf mag f d (bursts t).
Definition taken : list fbt_peak := qsort (find_peaks conf mag f (burst_mask t)).

Definition opened_as (new : list fbt_burst) (mask : list bool) (id : Z) : Prop :=
  open_bursts conf mag log10f eps f d taken (burst_mask t) followed (burst_id t) [] = (mask, followed ++ new, id, new).

Lemma step_squelched new mask id max_new max_gone : history_primed f = true -> opened_as new mask id ->
  (FBT_SQUELCH_MAX_BURSTS < length (followed ++ new))%nat ->
  let count := (squelch_count t + 3) mod 256 in let r := 10 <=? count in
  step fb max_new max_gone (f, t) =
    ((ema_write mag (if r then reset_floor f else f),
      Tracker all_bins [] (if r then 0 else count) (u64 (d + Z.of_nat FBT_FFT_SIZE)) id (u32 (s_acc_squelch_events t + 1))
        (u32 (s_acc_squelch_dropped t + Z.of_nat (length (squelch_dropped conf d (followed ++ new)))))
        (if r then u32 (s_acc_noise_resets t + 1) else s_acc_noise_resets t)),
     true, [], take max_gone (squelch_gone conf d (followed ++ new))).
Proof.
  intros Hp Ho Hl. cbv zeta. unfold fft_burst_tagger_step, create_new_bursts_internal. cbv zeta. rewrite Hp. cbn [negb burst_mask bursts d_index burst_id with_bursts].
  unfold opened_as, taken, followed in Ho. rewrite Ho. fold followed. rewrite (proj2 (Nat.ltb_lt _ _) Hl).
  cbn [squelch_count s_acc_squelch_events s_acc_squelch_dropped s_acc_noise_resets].
  change (rebuild_burst_mask conf []) with all_bins.
  unfold fft_burst_tagger_reset_baseline, reset_tracker, with_bursts.
  cbn [fst snd burst_mask bursts squelch_count d_index burst_id s_acc_squelch_events s_acc_squelch_dropped s_acc_noise_resets].
  destruct (10 <=? (squelch_count t + 3) mod 256); cbv beta iota; rewrite delete_none by reflexivity; rewrite app_nil_r; reflexivity.
Qed.

Definition over (new : list fbt_burst) : list fbt_burst := List.filter (burst_over conf d) (followed ++ new).
Definition kept (new : list fbt_burst) : list fbt_burst := List.filter (fun b => negb (burst_over conf d b)) (followed ++ new).

Lemma step_followed new mask id max_new max_gone : history_primed f = true -> opened_as new mask id ->
  (length (followed ++ new) <= FBT_SQUELCH_MAX_BURSTS)%nat ->
  step fb max_new max_gone (f, t) =
    ((update_baseline_ema mag (length (kept new)) false (if existsb long_burst (followed ++ new) then ema_write mag f else f),
      Tracker (if (0 <? length (over new))%nat then rebuild_burst_mask conf (kept new) else mask) (kept new)
        (if 0 <? squelch_count t then squelch_count t - 1 else 0) (u64 (d + Z.of_nat FBT_FFT_SIZE)) id
        (s_acc_squelch_events t) (s_acc_squelch_dropped t) (s_acc_noise_resets t)),
     true, take max_new new, take max_gone (map (close d) (over new))).
Proof.
  intros Hp Ho Hl. unfold fft_burst_tagger_step, create_new_bursts_internal. cbv zeta. rewrite Hp. cbn [negb burst_mask bursts d_index burst_id with_bursts].
  unfold opened_as, taken, followed in Ho. rewrite Ho. fold followed. rewrite (proj2 (Nat.ltb_ge _ _) Hl).
  unfold delete_gone_bursts_internal. cbv zeta. cbn [bursts d_index burst_mask squelch_count burst_id s_acc_squelch_events s_acc_squelch_dropped s_acc_noise_resets with_bursts at_index length app].
  rewrite Nat.sub_0_r. fold (over new) (kept new). unfold update_baseline_ema at 2. cbn [negb]. rewrite andb_false_r. reflexivity.
Qed.
End Outcome.

Lemma step_priming qsort log10f eps conf fb f t max_new max_gone : history_primed f = false ->
  fft_burst_tagger_step qsort log10f eps conf fb max_new max_gone (f, t) =
    ((update_baseline_ema (compute_magnitude_shifted fb) (length (bursts t)) false f, at_index (u64 (d_index t + Z.of_nat FBT_FFT_SIZE)) t), false, [], []).
Proof. intros Hp. unfold fft_burst_tagger_step. cbv zeta. by rewrite Hp. Qed.

(** ** The invariant *)

Lemma ema_write_primed mag f : history_primed (ema_write mag f) = (FBT_HISTORY_SIZE <=? S (history_index f))%nat || history_primed f.
Proof. unfold ema_write. cbv zeta. by destruct (history_primed f). Qed.
Lemma ema_write_index mag f : history_index (ema_write mag f) = if (FBT_HISTORY_SIZE <=? S (history_index f))%nat then 0%nat else S (history_index f).
Proof. unfold ema_write. cbv zeta. by destruct (history_primed f). Qed.

(** The floor learnt by [d]. *)
Definition learnt (f : floor) (d : Z) : Prop := (if history_primed f then 512 else Z.of_nat (history_index f)) * 2048 <= d.

Lemma learnt_write mag f d : learnt f d -> learnt (ema_write mag f) (d + 2048).
Proof.
  unfold learnt. rewrite ema_write_primed, ema_write_index. unfold FBT_HISTORY_SIZE.
  destruct (Nat.leb_spec 512 (S (history_index f))); cbn [orb]; destruct (history_primed f); lia.
Qed.
Lemma learnt_reset f d : 0 <= d -> learnt (reset_floor f) d.
Proof. unfold learnt. cbn [reset_floor history_primed history_index]. lia. Qed.
Lemma learnt_primed mag f d : history_primed f = true -> learnt f d -> history_primed (ema_write mag f) = true /\ learnt (ema_write mag f) d.
Proof. intros Hp. unfold learnt. rewrite ema_write_primed, Hp, orb_true_r. done. Qed.

Section Invariant.
Context (qsort : list fbt_peak -> list fbt_peak) (log10f : float -> float) (eps : float) (conf : fbt_config).
Context (Hsort : sorts_peaks qsort) (Hconf : conf_ok conf).
Notation step := (fft_burst_tagger_step qsort log10f eps conf).

(** A burst in the middle of a step. *)
Record followed_ok (d : Z) (b : fbt_burst) : Prop := {
  fb_center : (margin conf <= center_bin b < FBT_FFT_SIZE - margin conf)%nat;
  fb_start : 0 <= b_start b /\ b_start b + burst_pre_len conf <= d;
  fb_active : b_start b <= last_active b <= d;
  fb_age : d - b_start b < FBT_MAX_BURST_LEN + burst_post_len conf + 2048 \/ d - b_start b = burst_pre_len conf }.

Lemma followed_bursts_ok fb f t : Forall (burst_ok conf (d_index t)) (bursts t) -> Forall (followed_ok (d_index t)) (followed conf fb f t).
Proof.
  intros H. unfold followed, update_bursts_internal. apply list.Forall_fmap. eapply list.Forall_impl; [exact H|].
  intros b [H1 [H2 H2'] H3 H4 H5]. pose proof (co_pre _ Hconf). cbn [compose].
  destruct (burst_heard _ _ _ _); constructor; cbn [touch center_bin b_start last_active]; try exact H1; lia.
Qed.

Lemma opened_followed fb f d peaks b : 512 * 2048 <= d < 2 ^ 63 -> Forall (peak_in conf) peaks ->
  opened_on log10f eps conf (compute_magnitude_shifted fb) f d peaks b -> followed_ok d b /\ b_start b = d - burst_pre_len conf.
Proof.
  intros Hd Hp (p & id & Hin & ->). pose proof (co_pre _ Hconf) as Hpre. pose proof (proj1 (list.Forall_forall _ _) Hp p Hin) as Hc. unfold peak_in in Hc.
  assert (E : u64 (d - burst_pre_len conf) = d - burst_pre_len conf) by (apply u64_small; lia).
  split; [|exact E]. constructor; unfold new_burst; cbv zeta; cbn [center_bin b_start last_active]; rewrite ?E; try exact Hc; lia.
Qed.

Lemma kept_ok d b : 0 <= d < 2 ^ 63 -> followed_ok d b -> burst_over conf d b = false -> burst_ok conf (d + 2048) b.
Proof.
  intros Hd [H1 [H2 H2'] H3 H4] Ho. unfold burst_over, long_burst in Ho. apply orb_false_iff in Ho as [Ho1 Ho2]. apply Z.leb_gt in Ho1. apply Z.ltb_ge in Ho2.
  pose proof (co_post _ Hconf). rewrite u64_small in Ho1 by lia. rewrite u64_small in Ho2 by lia. constructor; [exact H1|lia..].
Qed.

(** What is known when the step has opened its bursts. *)
Record opening (fb : list (Z * Z)) (f : floor) (t : tracker) (new : list fbt_burst) (mask : list bool) (id : Z) : Prop := {
  op_eq : opened_as qsort log10f eps conf fb f t new mask id;
  op_mask : mask_ok conf mask (followed conf fb f t ++ new);
  op_apart : apart conf (followed conf fb f t ++ new);
  op_all : Forall (followed_ok (d_index t)) (followed conf fb f t ++ new);
  op_old : Forall (fun b => just_opened conf (d_index t) b = false) (followed conf fb f t);
  op_new : Forall (fun b => just_opened conf (d_index t) b = true) new;
  op_on : Forall (opened_on log10f eps conf (compute_magnitude_shifted fb) f (d_index t) (taken qsort conf fb f t)) new;
  op_settled : Forall (settled conf (taken qsort conf fb f t) (followed conf fb f t) new) (taken qsort conf fb f t) }.

Lemma step_opening fb f t : tracker_ok conf f t -> history_primed f = true -> exists new mask id, opening fb f t new mask id.
Proof.
  intros T Hp. pose proof (to_index _ _ _ T) as Hd. rewrite Hp in Hd. pose proof (co_pre _ Hconf) as Hpre.
  destruct (Hsort (find_peaks conf (compute_magnitude_shifted fb) f (burst_mask t))) as [Hperm Hss].
  assert (Hpk : Forall (peak_in conf) (taken qsort conf fb f t)) by (unfold taken; rewrite Hperm; apply find_peaks_in).
  pose proof (update_centers conf (compute_magnitude_shifted fb) f (d_index t) (bursts t)) as Hc. fold (followed conf fb f t) in Hc.
  destruct (open_bursts_ok log10f eps conf (compute_magnitude_shifted fb) f (d_index t) (taken qsort conf fb f t) ltac:(apply Hconf) Hpk Hss
    (burst_mask t) (followed conf fb f t) (burst_id t) []) as (new & mask & id & E & H1 & H2 & H3 & H4 & H5).
  { destruct (to_mask _ _ _ T) as [Hm1 Hm2]. split; [exact Hm1|]. intros k Hk. rewrite (Hm2 k Hk). f_equal. by apply existsb_centers. }
  { eapply apart_centers; [symmetry; exact Hc|exact (to_apart _ _ _ T)]. }
  { pose proof (to_count _ _ _ T) as Hn. unfold followed, update_bursts_internal. rewrite length_map. unfold FBT_SQUELCH_MAX_BURSTS, FBT_MAX_BURSTS in *. lia. }
  assert (Hnew : Forall (fun b => followed_ok (d_index t) b /\ b_start b = d_index t - burst_pre_len conf) new).
  { eapply list.Forall_impl; [exact H4|]. intros b. by apply opened_followed. }
  assert (Hst : u64 (d_index t - burst_pre_len conf) = d_index t - burst_pre_len conf) by (apply u64_small; lia).
  exists new, mask, id. constructor; [exact E|exact H1|exact H2|..]; try assumption.
  - apply list.Forall_app. split; [apply followed_bursts_ok, T|]. eapply list.Forall_impl; [exact Hnew|]. tauto.
  - unfold followed, update_bursts_internal. apply list.Forall_fmap. eapply list.Forall_impl; [exact (to_each _ _ _ T)|]. intros b [_ [_ Hb] _ _ _].
    cbn [compose]. unfold just_opened. rewrite Hst. destruct (burst_heard _ _ _ _); cbn [touch b_start]; apply Z.eqb_neq; lia.
  - eapply list.Forall_impl; [exact Hnew|]. intros b [_ Hb]. unfold just_opened. rewrite Hst, Hb. apply Z.eqb_refl.
Qed.

Lemma kept_all d l : 0 <= d < 2 ^ 63 -> Forall (followed_ok d) l -> Forall (burst_ok conf (d + 2048)) (List.filter (fun b => negb (burst_over conf d b)) l).
Proof.
  intros Hd H. apply List.Forall_forall. intros b Hb. apply filter_In in Hb as [Hb1 Hb2]. apply negb_true_iff in Hb2.
  apply kept_ok; [exact Hd| |exact Hb2]. by apply (proj1 (List.Forall_forall _ _) H).
Qed.

Lemma filter_all {A} (g : A -> bool) l : length (List.filter g l) = 0%nat -> List.filter (fun x => negb (g x)) l = l.
Proof. induction l as [|a l IH]; [done|]. cbn [List.filter]. destruct (g a); [done|]. intros H. cbn [negb]. by rewrite (IH H). Qed.

Lemma filter_length_le' {A} (g : A -> bool) l : (length (List.filter g l) <= length l)%nat.
Proof. induction l as [|a l IH]; [done|]. cbn [List.filter length]. destruct (g a); cbn [length]; lia. Qed.

Lemma step_ok fb max_new max_gone f t : tracker_ok conf f t -> d_index t + 2048 < 2 ^ 63 ->
  tracker_ok conf (step fb max_new max_gone (f, t)).1.1.1.1 (step fb max_new max_gone (f, t)).1.1.1.2 /\
  d_index (step fb max_new max_gone (f, t)).1.1.1.2 = d_index t + 2048.
Proof.
  intros T Hlt. pose proof (to_index _ _ _ T) as Hd. fold (learnt f (d_index t)) in Hd. pose proof (to_squelch _ _ _ T) as Hq.
  assert (Hd0 : 0 <= d_index t) by (destruct Hd as [Hd _]; unfold learnt in Hd; destruct (history_primed f); lia).
  assert (Eu : u64 (d_index t + Z.of_nat FBT_FFT_SIZE) = d_index t + 2048) by (apply u64_small; unfold FBT_FFT_SIZE; lia).
  destruct (history_primed f) eqn:Hp.
  - destruct (step_opening fb f t T Hp) as (new & mask & id & O). pose proof (op_eq _ _ _ _ _ _ O) as E.
    destruct (Nat.le_gt_cases (length (followed conf fb f t ++ new)) FBT_SQUELCH_MAX_BURSTS) as [Hn|Hn].
    + rewrite (step_followed _ _ _ _ _ _ _ _ _ _ _ _ Hp E Hn). cbn [fst snd]. rewrite Eu. cbn [d_index]. split; [|done].
      set (f1 := if existsb long_burst _ then _ else f).
      assert (H1 : history_primed f1 = true /\ learnt f1 (d_index t)) by (unfold f1; destruct (existsb _ _); [apply learnt_primed; [exact Hp|apply Hd]|split; [exact Hp|apply Hd]]).
      assert (H2 : forall n, history_primed (update_baseline_ema (compute_magnitude_shifted fb) n false f1) = true /\ learnt (update_baseline_ema (compute_magnitude_shifted fb) n false f1) (d_index t))
        by (intros n; unfold update_baseline_ema; destruct ((0 <? n)%nat && negb false); [exact H1|apply learnt_primed; apply H1]).
      destruct (H2 (length (kept conf fb f t new))) as [H3 H4]. constructor; cbn [burst_mask bursts d_index squelch_count].
      * destruct (Nat.ltb_spec 0 (length (over conf fb f t new))) as [Ho|Ho]; [apply rebuild_ok|].
        unfold kept. rewrite filter_all by (unfold over in Ho; lia). exact (op_mask _ _ _ _ _ _ O).
      * etransitivity; [apply filter_length_le'|exact Hn].
      * apply apart_filter, O.
      * apply kept_all; [lia|apply O].
      * rewrite H3. done.
      * fold (learnt (update_baseline_ema (compute_magnitude_shifted fb) (length (kept conf fb f t new)) false f1) (d_index t + 2048)).
        split; [|lia]. unfold learnt in *. rewrite H3 in *. lia.
      * destruct (Z.ltb_spec 0 (squelch_count t)); lia.
    + rewrite (step_squelched _ _ _ _ _ _ _ _ _ _ _ _ Hp E Hn). cbn [fst snd]. rewrite Eu. cbn [d_index]. split; [|done].
      assert (Em : (squelch_count t + 3) mod 256 = squelch_count t + 3) by (apply Z.mod_small; lia). rewrite Em.
      assert (Hl : learnt (ema_write (compute_magnitude_shifted fb) (if 10 <=? squelch_count t + 3 then reset_floor f else f)) (d_index t + 2048))
        by (apply learnt_write; destruct (10 <=? _); [by apply learnt_reset|apply Hd]).
      constructor; cbn [burst_mask bursts d_index squelch_count]; [apply all_bins_ok|cbn; lia|constructor|constructor|done| |destruct (Z.leb_spec 10 (squelch_count t + 3)); lia].
      split; [exact Hl|lia].
  - rewrite (step_priming _ _ _ _ _ _ _ _ _ Hp). cbn [fst snd]. rewrite Eu. cbn [d_index at_index]. split; [|done].
    pose proof (to_primed _ _ _ T Hp) as Hb. rewrite Hb. unfold update_baseline_ema. cbn [length Nat.ltb Nat.leb andb].
    pose proof (learnt_write (compute_magnitude_shifted fb) f (d_index t) ltac:(apply Hd)) as Hl. destruct T as [T1 T2 T3 T4 T5 T6 T7].
    rewrite Hb in T1. constructor; cbn [at_index burst_mask bursts d_index squelch_count]; rewrite ?Hb; [exact T1|cbn; lia|constructor|constructor|done| |exact T7].
    split; [exact Hl|lia].
Qed.
End Invariant.

Lemma tracker_empty conf f t : learnt f (d_index t) -> d_index t < 2 ^ 63 -> 0 <= squelch_count t < 10 -> tracker_ok conf f (with_bursts all_bins [] t).
Proof. intros Hl Hd Hq. constructor; cbn [with_bursts burst_mask bursts d_index squelch_count]; [apply all_bins_ok|cbn; lia|constructor|constructor|done|split; [exact Hl|exact Hd]|exact Hq]. Qed.

Lemma init_ok conf table write_no : tracker_ok conf (fft_burst_tagger_init table write_no).1 (fft_burst_tagger_init table write_no).2.
Proof. apply (tracker_empty conf _ (Tracker all_bins [] 0 0 0 0 0 0)); [done|reflexivity|split; done]. Qed.

Section Runs.
Context (qsort : list fbt_peak -> list fbt_peak) (log10f : float -> float) (eps : float) (conf : fbt_config).
Context (Hsort : sorts_peaks qsort) (Hconf : conf_ok conf).
Notation do_event := (tagger_do qsort log10f eps conf).
Notation run := (tagger_run qsort log10f eps conf).

Lemma do_ok e x : tracker_ok conf x.1 x.2 -> d_index x.2 + 2048 < 2 ^ 63 ->
  tracker_ok conf (do_event e x).1 (do_event e x).2 /\ d_index (do_event e x).2 <= d_index x.2 + 2048.
Proof.
  destruct x as [f t]. cbn [fst snd]. intros T Hd. pose proof (to_index _ _ _ T) as [Hi Hi']. pose proof (to_squelch _ _ _ T) as Hq.
  destruct e as [fb mn mg|mg|]; cbn [tagger_do].
  - destruct (step_ok qsort log10f eps conf Hsort Hconf fb mn mg f t T Hd) as [H1 H2]. split; [exact H1|]. rewrite H2. lia.
  - cbn [fft_burst_tagger_flush fst snd]. split; [by apply tracker_empty|cbn [with_bursts d_index]; lia].
  - unfold fft_burst_tagger_reset_baseline. cbn [fst snd]. split; [|cbn [reset_tracker d_index]; lia].
    apply (tracker_empty conf (reset_floor f) (reset_tracker t)); cbn [reset_tracker d_index squelch_count]; [apply learnt_reset; destruct (history_primed f); lia|lia|lia].
Qed.

Lemma run_ok_from evs x : tracker_ok conf x.1 x.2 -> d_index x.2 + 2048 * Z.of_nat (length evs) < 2 ^ 63 ->
  tracker_ok conf (run evs x).1 (run evs x).2 /\ d_index (run evs x).2 <= d_index x.2 + 2048 * Z.of_nat (length evs).
Proof.
  revert x. induction evs as [|e evs IH]; intros x T Hd; [cbn [length] in *; split; [exact T|cbn; lia]|].
  cbn [length] in *. rewrite Nat2Z.inj_succ in *. destruct (do_ok e x T ltac:(lia)) as [T1 D1].
  destruct (IH (do_event e x) T1 ltac:(lia)) as [T2 D2]. unfold tagger_run in *. cbn [fold_left]. split; [exact T2|lia].
Qed.

Lemma run_tracker evs table write_no : Z.of_nat (length evs) < 2 ^ 31 ->
  tracker_ok conf (run evs (fft_burst_tagger_init table write_no)).1 (run evs (fft_burst_tagger_init table write_no)).2 /\
  d_index (run evs (fft_burst_tagger_init table write_no)).2 <= 2048 * Z.of_nat (length evs).
Proof. intros He. apply (run_ok_from evs (fft_burst_tagger_init table write_no)); [apply init_ok|cbn [fft_burst_tagger_init snd d_index]; lia]. Qed.
End Runs.

(** ** The pre-screen *)

Lemma shiftr_lt z n m : 0 <= n -> Z.shiftr z n < m <-> z < m * 2 ^ n.
Proof.
  intros Hn. rewrite Z.shiftr_div_pow2 by exact Hn. assert (0 < 2 ^ n) by (apply Z.pow_pos_nonneg; lia). split; intros H1.
  - pose proof (Z.mod_pos_bound z (2 ^ n) ltac:(lia)). pose proof (Z.div_mod z (2 ^ n) ltac:(lia)). nia.
  - apply Z.div_lt_upper_bound; lia.
Qed.

(** A bin over the threshold is over the shifted floor. *)
Lemma screen_superset m base thr s : 0 <= base -> screen_shift_of thr = Some s -> above_threshold m base thr = true -> Z.shiftr base s < m.
Proof.
  intros Hb Hs Ha. unfold screen_shift_of in Hs. cbv zeta in Hs. destruct (Z.ltb_spec 0 thr) as [Ht|]; [|discriminate Hs].
  unfold above_threshold in Ha. apply Z.ltb_lt, (shiftr_lt _ 15) in Ha; [|lia]. change (Z.of_nat FBT_HISTORY_SIZE) with 512 in Ha.
  pose proof (Z.log2_spec thr Ht) as [Hl _]. pose proof (Z.log2_nonneg thr) as Hl0. set (a := Z.log2 thr) in *.
  assert (Hm : base * 2 ^ a < m * 2 ^ 24) by (change (2 ^ 24) with (512 * 2 ^ 15); nia).
  destruct (Z.ltb_spec (24 - a) 0) as [H24|H24].
  - injection Hs as <-. apply shiftr_lt; [lia|]. rewrite Z.mul_1_r. assert (2 ^ 24 <= 2 ^ a) by (apply Z.pow_le_mono_r; lia). nia.
  - destruct (Z.ltb_spec 24 (24 - a)); [lia|]. injection Hs as <-. apply shiftr_lt; [lia|].
    assert (E : 2 ^ 24 = 2 ^ (24 - a) * 2 ^ a) by (rewrite <- Z.pow_add_r by lia; f_equal; lia). rewrite E in Hm.
    assert (0 < 2 ^ a) by (apply Z.pow_pos_nonneg; lia). nia.
Qed.

Lemma filter_range (P : nat -> bool) lo hi a n :
  List.filter (fun k => (lo <=? k)%nat && (k <? hi)%nat && P k) (seq a n) = List.filter P (seq (Nat.max a lo) (Nat.min (a + n) hi - Nat.max a lo)).
Proof.
  induction n as [|n IH]; [replace (Nat.min (a + 0) hi - Nat.max a lo)%nat with 0%nat by lia; done|].
  rewrite seq_S, filter_app, IH. cbn [List.filter]. destruct (Nat.leb_spec lo (a + n)), (Nat.ltb_spec (a + n) hi); cbn [andb].
  - replace (Nat.min (a + S n) hi - Nat.max a lo)%nat with (S (Nat.min (a + n) hi - Nat.max a lo)) by lia. rewrite seq_S, filter_app.
    replace (Nat.max a lo + (Nat.min (a + n) hi - Nat.max a lo))%nat with (a + n)%nat by lia. done.
  - rewrite app_nil_r. f_equal. f_equal. lia.
  - rewrite app_nil_r. f_equal. f_equal. lia.
  - rewrite app_nil_r. f_equal. f_equal. lia.
Qed.

Lemma seq_groups w n a : flat_map (fun g => seq (w * g) w) (seq a n) = seq (w * a) (w * n).
Proof.
  revert a. induction n as [|n IH]; intros a; [by rewrite Nat.mul_0_r|]. cbn [seq flat_map]. rewrite IH.
  replace (w * S n)%nat with (w + w * n)%nat by lia. rewrite seq_app. do 2 f_equal. lia.
Qed.

Lemma filter_flat_map {A B} (P : B -> bool) (g : A -> list B) l : List.filter P (flat_map g l) = flat_map (fun a => List.filter P (g a)) l.
Proof. induction l as [|a l IH]; [done|]. cbn [flat_map]. by rewrite filter_app, IH. Qed.

Lemma map_flat_map' {A B C} (h : B -> C) (g : A -> list B) l : map h (flat_map g l) = flat_map (fun a => map h (g a)) l.
Proof. induction l as [|a l IH]; [done|]. cbn [flat_map]. by rewrite map_app, IH. Qed.

Lemma filter_nothing {A} (P : A -> bool) l : (forall x, In x l -> P x = false) -> List.filter P l = [].
Proof. induction l as [|a l IH]; intros H; [done|]. cbn [List.filter]. rewrite (H a) by (by left). apply IH. intros x Hx. apply H. by right. Qed.

Lemma screen_equal conf mag f mask s : screen_shift_of (threshold_q15 conf) = Some s -> (forall k, 0 <= rd (baseline_sum f) k) ->
  screened_peaks conf mag f mask s = scan_peaks conf mag f mask.
Proof.
  intros Hs Hb. unfold scan_peaks, screened_peaks.
  assert (E : List.filter (peak_bin_ok conf mag f mask) (seq (margin conf) (FBT_FFT_SIZE - margin conf - margin conf)) =
    flat_map (fun g => List.filter (fun k => (margin conf <=? k)%nat && (k <? FBT_FFT_SIZE - margin conf)%nat && peak_bin_ok conf mag f mask k) (seq (16 * g) 16))
      (seq 0 (FBT_FFT_SIZE / 16))).
  { rewrite <- filter_flat_map, (seq_groups 16 (FBT_FFT_SIZE / 16) 0). change (16 * (FBT_FFT_SIZE / 16))%nat with FBT_FFT_SIZE. rewrite filter_range.
    f_equal. f_equal; lia. }
  rewrite E, map_flat_map'. apply flat_map_ext. intros g. rewrite filter_range. destruct (fbt_detect_screen mag f s g) eqn:Ed; [done|].
  rewrite filter_nothing; [done|]. intros k Hk. apply in_seq in Hk. unfold peak_bin_ok. destruct (bin_above conf mag f k) eqn:Ea; [|by rewrite andb_false_r].
  exfalso. apply not_true_iff_false in Ed. apply Ed. unfold fbt_detect_screen. apply existsb_exists. exists k.
  split; [apply in_seq; lia|]. apply Z.ltb_lt. exact (screen_superset _ _ _ _ (Hb k) Hs Ea).
Qed.

(** ** Accounts *)

Lemma filter_split {A} (g : A -> bool) l : l ≡ₚ List.filter (fun x => negb (g x)) l ++ List.filter g l.
Proof.
  induction l as [|a l IH]; [done|]. cbn [List.filter]. destruct (g a); cbn [negb]; [|cbn [app]; by apply perm_skip].
  rewrite <- Permutation_middle. by apply perm_skip.
Qed.

Lemma filter_filter {A} (g h : A -> bool) l : List.filter g (List.filter h l) = List.filter (fun x => h x && g x) l.
Proof. induction l as [|a l IH]; [done|]. cbn [List.filter]. destruct (h a); cbn [List.filter andb]; [destruct (g a); by rewrite IH|exact IH]. Qed.

Lemma filter_id {A} (g : A -> bool) l : Forall (fun x => g x = true) l -> List.filter g l = l.
Proof. intros H. induction H as [|a l Ha H IH]; [done|]. cbn [List.filter]. by rewrite Ha, IH. Qed.

Lemma filter_nil {A} (g : A -> bool) l : Forall (fun x => g x = false) l -> List.filter g l = [].
Proof. intros H. apply filter_nothing. intros x Hx. by apply (proj1 (List.Forall_forall _ _) H). Qed.

(** The squelch leaves the bursts just opened out of both. *)
Lemma squelch_split conf d old new : Forall (fun b => just_opened conf d b = false) old -> Forall (fun b => just_opened conf d b = true) new ->
  squelch_gone conf d (old ++ new) = map (close d) (List.filter (fun b => negb (last_active b =? d)) old) /\
  squelch_dropped conf d (old ++ new) = List.filter (fun b => last_active b =? d) old.
Proof.
  intros Ho Hn. unfold squelch_gone, squelch_dropped. rewrite !filter_app.
  assert (E : forall g : fbt_burst -> bool, List.filter (fun b => negb (just_opened conf d b) && g b) new = [] /\
    List.filter (fun b => negb (just_opened conf d b) && g b) old = List.filter g old).
  { intros g. rewrite <- !(filter_filter g). split.
    - rewrite (filter_nil _ new); [done|]. eapply list.Forall_impl; [exact Hn|]. intros b Hb. cbv beta in *. by rewrite Hb.
    - rewrite (filter_id _ old); [done|]. eapply list.Forall_impl; [exact Ho|]. intros b Hb. cbv beta in *. by rewrite Hb. }
  destruct (E (fun b => negb (last_active b =? d))) as [E1 E2]. destruct (E (fun b => last_active b =? d)) as [E3 E4].
  by rewrite E1, E2, E3, E4, !app_nil_r.
Qed.

Lemma in_followed_age d conf b : conf_ok conf -> followed_ok conf d b ->
  0 <= b_start b <= d /\ d - b_start b < FBT_MAX_BURST_LEN + burst_post_len conf + 2048 + burst_pre_len conf.
Proof. intros C [_ [H1 H1'] H2 H3]. pose proof (co_pre _ C). pose proof (co_post _ C). unfold FBT_MAX_BURST_LEN in *. lia. Qed.

Lemma in_close d l b : b ∈ map (close d) l -> exists b0, b0 ∈ l /\ b = close d b0.
Proof. intros H. apply list_elem_of_In, in_map_iff in H as (b0 & E & H). exists b0. split; [by apply list_elem_of_In|done]. Qed.

Lemma in_take {A} (x : A) n l : x ∈ take n l -> x ∈ l.
Proof. intros H. rewrite <- (take_drop n l). apply elem_of_app. by left. Qed.

Lemma in_filter {A} (g : A -> bool) (x : A) l : x ∈ List.filter g l -> x ∈ l /\ g x = true.
Proof. intros H. apply list_elem_of_In, filter_In in H as [H1 H2]. split; [by apply list_elem_of_In|exact H2]. Qed.

(** The whole burst, for the reader of the arrays. *)
Definition whole (conf : fbt_config) (d : Z) (b : fbt_burst) : Prop :=
  (margin conf <= center_bin b < FBT_FFT_SIZE - margin conf)%nat /\ b_stop b = d /\ 0 <= b_start b <= b_stop b /\
  b_stop b - b_start b < FBT_MAX_BURST_LEN + burst_post_len conf + 2048 + burst_pre_len conf.

Lemma close_whole conf d b : conf_ok conf -> followed_ok conf d b -> whole conf d (close d b).
Proof. intros C H. pose proof (in_followed_age d conf b C H) as [H1 H2]. destruct H as [H _ _ _]. unfold whole. cbn [close center_bin b_stop b_start]. repeat split; try apply H; lia. Qed.

(** The bins the scan finds. *)
Lemma find_peaks_exact conf mag f mask : screen_shift conf = None \/ screen_shift conf = screen_shift_of (threshold_q15 conf) ->
  (forall k, 0 <= rd (baseline_sum f) k) -> find_peaks conf mag f mask = scan_peaks conf mag f mask.
Proof.
  intros Hs Hb. unfold find_peaks. destruct (screen_shift conf) as [s|]; [|done]. destruct Hs as [Hs|Hs]; [discriminate Hs|].
  apply screen_equal; [symmetry; exact Hs|exact Hb].
Qed.

Lemma in_scan conf mag f mask p : p ∈ scan_peaks conf mag f mask <->
  exists k, (margin conf <= k < FBT_FFT_SIZE - margin conf)%nat /\ peak_bin_ok conf mag f mask k = true /\ p = peak_of mag f k.
Proof.
  unfold scan_peaks. rewrite list_elem_of_In, in_map_iff. split.
  - intros (k & E & H). apply filter_In in H as [H1 H2]. apply in_seq in H1. exists k. split; [lia|]. by split.
  - intros (k & H1 & H2 & ->). exists k. split; [done|]. apply filter_In. split; [apply in_seq; lia|exact H2].
Qed.

Lemma floor_nonneg ws f : floor_ok ws f -> forall k, 0 <= rd (baseline_sum f) k.
Proof.
  intros F k. destruct (Nat.lt_ge_cases k FBT_FFT_SIZE) as [Hk|Hk].
  - rewrite (fo_sum _ _ F k Hk). apply (window_fits _ k (fo_mags _ _ F)).
  - unfold rd. rewrite nth_overflow; [lia|]. by rewrite (fo_len _ _ F).
Qed.

(** After 512 spectra from rest the floor is primed. *)
Lemma run_primes_from qsort log10f eps conf fb mn mg n : forall x, history_primed x.1 = false -> bursts x.2 = [] ->
  (history_index x.1 + S n = FBT_HISTORY_SIZE)%nat -> history_primed (tagger_run qsort log10f eps conf (replicate (S n) (Step fb mn mg)) x).1 = true.
Proof.
  induction n as [|n IH]; intros [f t] Hp Hb Hi; cbn [fst snd] in *.
  - unfold tagger_run. cbn [replicate fold_left tagger_do]. rewrite (step_priming _ _ _ _ _ _ _ _ _ Hp), Hb. cbn [fst].
    unfold update_baseline_ema. cbn [length Nat.ltb Nat.leb andb]. rewrite ema_write_primed, Hp, orb_false_r. apply Nat.leb_le. lia.
  - change (replicate (S (S n)) (Step fb mn mg)) with (Step fb mn mg :: replicate (S n) (Step fb mn mg)). unfold tagger_run. cbn [fold_left tagger_do].
    rewrite (step_priming _ _ _ _ _ _ _ _ _ Hp), Hb. cbn [fst]. unfold update_baseline_ema. cbn [length Nat.ltb Nat.leb andb].
    assert (Hlt : (FBT_HISTORY_SIZE <=? S (history_index f))%nat = false) by (apply Nat.leb_gt; lia).
    apply IH; cbn [fst snd at_index bursts]; [by rewrite ema_write_primed, Hp, orb_false_r|exact Hb|rewrite ema_write_index, Hlt; lia].
Qed.

Lemma run_primes qsort log10f eps conf fb mn mg table wn :
  history_primed (tagger_run qsort log10f eps conf (replicate FBT_HISTORY_SIZE (Step fb mn mg)) (fft_burst_tagger_init table wn)).1 = true.
Proof. exact (run_primes_from qsort log10f eps conf fb mn mg 511 (fft_burst_tagger_init table wn) eq_refl eq_refl eq_refl). Qed.

Lemma sorted_lookup {A} (R : A -> A -> Prop) l : StronglySorted R l -> forall i j a b, (i < j)%nat -> l !! i = Some a -> l !! j = Some b -> R a b.
Proof.
  induction 1 as [|x l Hs IH Hf]; intros i j a b Hij Ha Hb; [discriminate Ha|]. destruct j as [|j]; [lia|]. cbn [lookup list_lookup] in Hb.
  change (l !! j = Some b) in Hb. destruct i as [|i].
  - injection Ha as <-. exact (proj1 (list.Forall_forall _ _) Hf b (list_elem_of_lookup_2 _ _ _ Hb)).
  - change (l !! i = Some a) in Ha. apply (IH i j a b); [lia|exact Ha|exact Hb].
Qed.

Lemma existsb_false {A} (g : A -> bool) l : existsb g l = false <-> Forall (fun x => g x = false) l.
Proof.
  induction l as [|a l IH]; cbn [existsb]; [split; [constructor|done]|]. rewrite orb_false_iff, IH. split.
  - intros [H1 H2]. by constructor.
  - intros H. inversion H; subst. done.
Qed.

Section StepFacts.
Context (qsort : list fbt_peak -> list fbt_peak) (log10f : float -> float) (eps : float) (conf : fbt_config).
Context (Hsort : sorts_peaks qsort) (Hconf : conf_ok conf).
Notation step := (fft_burst_tagger_step qsort log10f eps conf).

Lemma closed_whole d l n : Forall (followed_ok conf d) l -> forall ended, (forall b, b ∈ ended -> b ∈ l) -> Forall (whole conf d) (take n (map (close d) ended)).
Proof.
  intros H ended Hsub. apply list.Forall_forall. intros b Hb. apply in_take, in_close in Hb as (b0 & Hb0 & ->).
  apply close_whole; [exact Hconf|]. exact (proj1 (list.Forall_forall _ _) H b0 (Hsub _ Hb0)).
Qed.

Lemma opened_start fb f d peaks new : opened_on log10f eps conf (compute_magnitude_shifted fb) f d peaks new ->
  b_start new = u64 (d - burst_pre_len conf) /\ last_active new = b_start new.
Proof. by intros (p & id & _ & ->). Qed.

Lemma opening_starts fb f t new mask id : opening qsort log10f eps conf fb f t new mask id -> tracker_ok conf f t -> history_primed f = true ->
  Forall (fun b => b_start b = d_index t - burst_pre_len conf /\ last_active b = b_start b) new.
Proof.
  intros O T Hp. pose proof (to_index _ _ _ T) as Hd. rewrite Hp in Hd. pose proof (co_pre _ Hconf).
  eapply list.Forall_impl; [exact (op_on _ _ _ _ _ _ _ _ _ _ O)|]. intros b Hb. apply opened_start in Hb as [H1 H2].
  rewrite u64_small in H1 by lia. done.
Qed.

Lemma step_accounts fb max_new max_gone f t : tracker_ok conf f t -> d_index (step fb max_new max_gone (f, t)).1.1.1.2 = d_index t + 2048 ->
  let held := update_bursts_internal conf (compute_magnitude_shifted fb) f (d_index t) (bursts t) in
  let '(x', ok, new, gone) := step fb max_new max_gone (f, t) in
  Forall (whole conf (d_index t)) gone /\ d_index x'.2 = d_index t + 2048 /\ exists opened ended,
    Forall (fun b => b_start b = d_index t - burst_pre_len conf /\ last_active b = b_start b) opened /\
    new = (if (length (held ++ opened) <=? FBT_SQUELCH_MAX_BURSTS)%nat then take max_new opened else []) /\
    gone = take max_gone (map (close (d_index t)) ended) /\
    if (length (held ++ opened) <=? FBT_SQUELCH_MAX_BURSTS)%nat then
      held ++ opened ≡ₚ bursts x'.2 ++ ended /\ s_acc_squelch_events x'.2 = s_acc_squelch_events t
    else
      bursts x'.2 = [] /\ s_acc_squelch_events x'.2 = u32 (s_acc_squelch_events t + 1) /\
      exists heard, held ≡ₚ ended ++ heard /\ Forall (fun b => last_active b = d_index t) heard /\ Forall (fun b => last_active b <> d_index t) ended /\
        s_acc_squelch_dropped x'.2 = u32 (s_acc_squelch_dropped t + Z.of_nat (length heard)).
Proof.
  intros T Ed. cbv zeta. fold (followed conf fb f t). set (held := followed conf fb f t) in *. destruct (history_primed f) eqn:Hp.
  - destruct (step_opening qsort log10f eps conf Hsort Hconf fb f t T Hp) as (new & mask & id & O). pose proof (op_eq _ _ _ _ _ _ _ _ _ _ O) as E.
    pose proof (opening_starts _ _ _ _ _ _ O T Hp) as Hst. pose proof (op_all _ _ _ _ _ _ _ _ _ _ O) as Hall. fold held in Hall.
    destruct (Nat.leb_spec (length (held ++ new)) FBT_SQUELCH_MAX_BURSTS) as [Hn|Hn].
    + rewrite (step_followed _ _ _ _ _ _ _ _ _ _ _ _ Hp E Hn) in *. cbn [fst snd] in *.
      split; [apply (closed_whole _ _ _ Hall); intros b Hb; by apply in_filter in Hb as [Hb _]|]. split; [exact Ed|].
      exists new, (over conf fb f t new). rewrite (proj2 (Nat.leb_le _ _) Hn). split; [exact Hst|]. split; [done|]. split; [done|].
      split; [|done]. apply (filter_split (burst_over conf (d_index t))).
    + rewrite (step_squelched _ _ _ _ _ _ _ _ _ _ _ _ Hp E Hn) in *. cbn [fst snd] in *. fold held in Ed |- *.
      destruct (squelch_split conf (d_index t) held new (op_old _ _ _ _ _ _ _ _ _ _ O) (op_new _ _ _ _ _ _ _ _ _ _ O)) as [E1 E2]. rewrite E1, E2.
      apply list.Forall_app in Hall as [Hall _].
      split; [apply (closed_whole _ _ _ Hall); intros b Hb; by apply in_filter in Hb as [Hb _]|]. split; [exact Ed|].
      exists new, (List.filter (fun b => negb (last_active b =? d_index t)) held). rewrite (proj2 (Nat.leb_gt _ _) Hn). split; [exact Hst|].
      split; [done|]. split; [done|]. split; [done|]. split; [done|]. exists (List.filter (fun b => last_active b =? d_index t) held).
      split; [apply filter_split|]. split; [|split; [|done]]; apply list.Forall_forall; intros b Hb; apply in_filter in Hb as [_ Hb].
      * by apply Z.eqb_eq.
      * apply negb_true_iff in Hb. by apply Z.eqb_neq.
  - rewrite (step_priming _ _ _ _ _ _ _ _ _ Hp) in *. cbn [fst snd] in *. pose proof (to_primed _ _ _ T Hp) as Hb.
    assert (Eh : held = []) by (unfold held, followed; by rewrite Hb). rewrite Eh. split; [constructor|]. split; [exact Ed|]. exists [], [].
    cbn [app length map Nat.leb]. rewrite !take_nil. split; [constructor|]. split; [done|]. split; [done|]. split; [|done]. cbn [at_index bursts]. by rewrite Hb.
Qed.

Lemma step_strongest (Hsc : screen_shift conf = None \/ screen_shift conf = screen_shift_of (threshold_q15 conf)) fb max_new max_gone f t :
  tracker_ok conf f t -> (forall k, 0 <= rd (baseline_sum f) k) ->
  let mag := compute_magnitude_shifted fb in
  let could k := (margin conf <= k < FBT_FFT_SIZE - margin conf)%nat /\ peak_bin_ok conf mag f (burst_mask t) k = true in
  let strength k := sort_key (peak_of mag f k) in
  let '(x', ok, new, gone) := step fb max_new max_gone (f, t) in
  ok = true -> s_acc_squelch_events x'.2 = s_acc_squelch_events t ->
  exists opened ended, new = take max_new opened /\ gone = take max_gone (map (close (d_index t)) ended) /\
    followed conf fb f t ++ opened ≡ₚ bursts x'.2 ++ ended /\ Forall (fun b => could (center_bin b)) opened /\
    forall k, could k -> exists b, b ∈ opened /\ Z.abs (Z.of_nat k - Z.of_nat (center_bin b)) <= burst_width conf / 2 /\ strength k <= strength (center_bin b).
Proof.
  intros T Hb. cbv zeta. destruct (history_primed f) eqn:Hp; [|by rewrite (step_priming _ _ _ _ _ _ _ _ _ Hp)].
  destruct (step_opening qsort log10f eps conf Hsort Hconf fb f t T Hp) as (new & mask & id & O). pose proof (op_eq _ _ _ _ _ _ _ _ _ _ O) as E.
  destruct (Nat.le_gt_cases (length (followed conf fb f t ++ new)) FBT_SQUELCH_MAX_BURSTS) as [Hn|Hn].
  2: { rewrite (step_squelched _ _ _ _ _ _ _ _ _ _ _ _ Hp E Hn). cbn [fst snd s_acc_squelch_events]. intros _ Eq.
       pose proof (u32_succ_ne (s_acc_squelch_events t)) as H. apply Z.eqb_neq in H. tauto. }
  rewrite (step_followed _ _ _ _ _ _ _ _ _ _ _ _ Hp E Hn). intros _ _. rewrite length_app in Hn.
  exists new, (over conf fb f t new). split; [done|]. split; [done|]. split; [apply (filter_split (burst_over conf (d_index t)))|].
  assert (Hin : forall p, p ∈ taken qsort conf fb f t <-> p ∈ scan_peaks conf (compute_magnitude_shifted fb) f (burst_mask t)).
  { intros p. unfold taken. rewrite (proj1 (Hsort _)), find_peaks_exact by assumption. done. }
  split.
  - eapply list.Forall_impl; [exact (op_on _ _ _ _ _ _ _ _ _ _ O)|]. intros b (p & i & Hpin & ->). cbn [new_burst center_bin].
    apply Hin, in_scan in Hpin as (k & H1 & H2 & ->). by split.
  - intros k [Hk1 Hk2]. assert (Hpk : peak_of (compute_magnitude_shifted fb) f k ∈ taken qsort conf fb f t) by (apply Hin, in_scan; by exists k).
    destruct (proj1 (list.Forall_forall _ _) (op_settled _ _ _ _ _ _ _ _ _ _ O) _ Hpk) as [H|[H|(q & b & Hq & Hb' & H1 & H2 & H3)]].
    + exfalso. cbn [peak_of pk_bin] in H. unfold peak_bin_ok, open_bin in Hk2. apply andb_true_iff in Hk2 as [Hk2 _]. apply andb_true_iff in Hk2 as [Hk2 _].
      apply andb_true_iff in Hk2 as [Hk2 _]. rewrite (proj2 (to_mask _ _ _ T) k ltac:(lia)) in Hk2.
      rewrite <- (existsb_centers conf k (followed conf fb f t) (bursts t) (update_centers _ _ _ _ _)) in Hk2.
      rewrite H in Hk2. discriminate Hk2.
    + exfalso. rewrite length_app in H. unfold FBT_SQUELCH_MAX_BURSTS, FBT_MAX_BURSTS in *. lia.
    + exists b. split; [exact Hb'|]. cbn [peak_of pk_bin] in H2. split; [by apply masked_by_spec in H2|].
      apply Hin, in_scan in Hq as (kq & _ & _ & ->). cbn [peak_of pk_bin] in H1. by rewrite H1.
Qed.
End StepFacts.

Lemma iridium_conf_ok : conf_ok iridium_conf.
Proof. constructor; cbn; lia. Qed.
#[local] Opaque primed_evs mixed_evs.

(** C18: after any run from the initialisation: at most 49 bursts are followed,
    and none before the floor is primed; two of them are always more than half a
    burst width apart; a bin may open a burst exactly where it is as far from
    every burst followed; each burst starts at least the pre-roll before the step
    that opened it, was heard within the post-roll of the last step and for no
    longer than the limit; and the squelch count stays below 10. *)
Theorem tagger_bursts_apart qsort log10f eps conf evs table write_no :
  sorts_peaks qsort -> conf_ok conf -> Z.of_nat (length evs) < 2 ^ 31 ->
  let x := tagger_run qsort log10f eps conf evs (fft_burst_tagger_init table write_no) in
  (length (bursts x.2) <= FBT_SQUELCH_MAX_BURSTS)%nat /\ (history_primed x.1 = false -> bursts x.2 = []) /\
  (forall i j a b, (i < j)%nat -> bursts x.2 !! i = Some a -> bursts x.2 !! j = Some b ->
     burst_width conf / 2 < Z.abs (Z.of_nat (center_bin a) - Z.of_nat (center_bin b))) /\
  (forall k, (k < FBT_FFT_SIZE)%nat -> nth k (burst_mask x.2) false = true <->
     Forall (fun b => burst_width conf / 2 < Z.abs (Z.of_nat k - Z.of_nat (center_bin b))) (bursts x.2)) /\
  Forall (burst_ok conf (d_index x.2)) (bursts x.2) /\ 0 <= squelch_count x.2 < 10.
Proof.
  intros Hs Hc He. cbv zeta. destruct (run_tracker qsort log10f eps conf Hs Hc evs table write_no He) as [T _].
  set (x := tagger_run _ _ _ _ _ _) in *. destruct T as [T1 T2 T3 T4 T5 _ T7]. split; [exact T2|]. split; [exact T5|]. split; [|split; [|by split]].
  - intros i j a b Hij Ha Hb. pose proof (sorted_lookup _ _ T3 i j a b Hij Ha Hb) as H. cbv beta in H. apply masked_by_free in H. lia.
  - intros k Hk. rewrite (proj2 T1 k Hk), negb_true_iff, existsb_false. apply list.Forall_iff. intros b. apply masked_by_free.
Qed.

Lemma tagger_bursts_apart_witness :
  let x := (tagger_run sorted_peaks (fun x => x) (float_of 1) iridium_conf (primed_evs ++ mixed_evs) (fft_burst_tagger_init true 0)) in
  (length (bursts x.2) <= FBT_SQUELCH_MAX_BURSTS)%nat /\ (history_primed x.1 = false -> bursts x.2 = []) /\
  (forall i j a b, (i < j)%nat -> bursts x.2 !! i = Some a -> bursts x.2 !! j = Some b ->
     burst_width iridium_conf / 2 < Z.abs (Z.of_nat (center_bin a) - Z.of_nat (center_bin b))) /\
  (forall k, (k < FBT_FFT_SIZE)%nat -> nth k (burst_mask x.2) false = true <->
     Forall (fun b => burst_width iridium_conf / 2 < Z.abs (Z.of_nat k - Z.of_nat (center_bin b))) (bursts x.2)) /\
  Forall (burst_ok iridium_conf (d_index x.2)) (bursts x.2) /\ 0 <= squelch_count x.2 < 10.
Proof.
  apply (tagger_bursts_apart sorted_peaks (fun x => x) (float_of 1) iridium_conf (primed_evs ++ mixed_evs) true 0).
  - exact sorted_peaks_ok.
  - exact iridium_conf_ok.
  - rewrite length_app, Nat2Z.inj_add, primed_evs_length. reflexivity.
Defined.

(** C17: no burst appears from nowhere or is lost unseen inside a step.  With
    [held] the bursts followed so far, marked as heard where they were: a step
    that opens [opened] either keeps following some of them and ends the others,
    or, where they are more than 49, drops every one, ends those not heard in
    this step, counts those heard, and takes back the ones just opened.  What it
    hands out of either are the first that its arrays have room for, each ended
    at this step's index and of bounded length. *)
Theorem tagger_step_accounts qsort log10f eps conf evs table write_no fb max_new max_gone :
  sorts_peaks qsort -> conf_ok conf -> Z.of_nat (length evs) < 2 ^ 31 ->
  let x := tagger_run qsort log10f eps conf evs (fft_burst_tagger_init table write_no) in
  let d := d_index x.2 in
  let held := update_bursts_internal conf (compute_magnitude_shifted fb) x.1 d (bursts x.2) in
  let '(x', ok, new, gone) := fft_burst_tagger_step qsort log10f eps conf fb max_new max_gone x in
  Forall (whole conf d) gone /\ d_index x'.2 = d + 2048 /\ exists opened ended,
    Forall (fun b => b_start b = d - burst_pre_len conf /\ last_active b = b_start b) opened /\
    new = (if (length (held ++ opened) <=? FBT_SQUELCH_MAX_BURSTS)%nat then take max_new opened else []) /\
    gone = take max_gone (map (close d) ended) /\
    if (length (held ++ opened) <=? FBT_SQUELCH_MAX_BURSTS)%nat then
      held ++ opened ≡ₚ bursts x'.2 ++ ended /\ s_acc_squelch_events x'.2 = s_acc_squelch_events x.2
    else
      bursts x'.2 = [] /\ s_acc_squelch_events x'.2 = u32 (s_acc_squelch_events x.2 + 1) /\
      exists heard, held ≡ₚ ended ++ heard /\ Forall (fun b => last_active b = d) heard /\ Forall (fun b => last_active b <> d) ended /\
        s_acc_squelch_dropped x'.2 = u32 (s_acc_squelch_dropped x.2 + Z.of_nat (length heard)).
Proof.
  intros Hs Hc He. cbv zeta. destruct (run_tracker qsort log10f eps conf Hs Hc evs table write_no He) as [T Hd].
  destruct (tagger_run _ _ _ _ _ _) as [f t]. cbn [fst snd] in *. pose proof (to_index _ _ _ T) as [Hi1 Hi2].
  assert (Hdn : d_index t + 2048 < 2 ^ 63) by lia. destruct (step_ok qsort log10f eps conf Hs Hc fb max_new max_gone f t T Hdn) as [_ Ed].
  exact (step_accounts qsort log10f eps conf Hs Hc fb max_new max_gone f t T Ed).
Qed.

Lemma tagger_step_accounts_witness :
  let x := (tagger_run sorted_peaks (fun x => x) (float_of 1) iridium_conf primed_evs (fft_burst_tagger_init true 0)) in
  let d := d_index x.2 in
  let held := update_bursts_internal iridium_conf (compute_magnitude_shifted loud_fft) x.1 d (bursts x.2) in
  let '(x', ok, new, gone) := fft_burst_tagger_step sorted_peaks (fun x => x) (float_of 1) iridium_conf loud_fft 16 16 x in
  Forall (whole iridium_conf d) gone /\ d_index x'.2 = d + 2048 /\ exists opened ended,
    Forall (fun b => b_start b = d - burst_pre_len iridium_conf /\ last_active b = b_start b) opened /\
    new = (if (length (held ++ opened) <=? FBT_SQUELCH_MAX_BURSTS)%nat then take 16 opened else []) /\
    gone = take 16 (map (close d) ended) /\
    if (length (held ++ opened) <=? FBT_SQUELCH_MAX_BURSTS)%nat then
      held ++ opened ≡ₚ bursts x'.2 ++ ended /\ s_acc_squelch_events x'.2 = s_acc_squelch_events x.2
    else
      bursts x'.2 = [] /\ s_acc_squelch_events x'.2 = u32 (s_acc_squelch_events x.2 + 1) /\
      exists heard, held ≡ₚ ended ++ heard /\ Forall (fun b => last_active b = d) heard /\ Forall (fun b => last_active b <> d) ended /\
        s_acc_squelch_dropped x'.2 = u32 (s_acc_squelch_dropped x.2 + Z.of_nat (length heard)).
Proof.
  apply (tagger_step_accounts sorted_peaks (fun x => x) (float_of 1) iridium_conf primed_evs true 0 loud_fft 16 16).
  - exact sorted_peaks_ok.
  - exact iridium_conf_ok.
  - rewrite primed_evs_length. reflexivity.
Defined.

(** C19: where the squelch does not strike, the step opens bursts on the
    strongest peaks, however small its arrays are: of the bursts it adds to
    those followed, to be followed on or ended at once, the centre of each could
    open one - free, outside the DC window, above the threshold, no absorbed
    carrier, a half width from the band's ends - and every bin that could lies
    within half a width of the centre of one that stands out at least as much.
    The arrays get the first of the bursts opened and ended.  The vector
    pre-screen changes none of it. *)
Theorem tagger_opens_strongest qsort log10f eps conf evs table write_no fb max_new max_gone :
  sorts_peaks qsort -> conf_ok conf -> screen_shift conf = None \/ screen_shift conf = screen_shift_of (threshold_q15 conf) ->
  Forall event_ok evs -> is_u 32 write_no -> write_no + 2 * Z.of_nat (length evs) < 2 ^ 32 ->
  let x := tagger_run qsort log10f eps conf evs (fft_burst_tagger_init table write_no) in
  let mag := compute_magnitude_shifted fb in
  let held := update_bursts_internal conf mag x.1 (d_index x.2) (bursts x.2) in
  let could k := (margin conf <= k < FBT_FFT_SIZE - margin conf)%nat /\ peak_bin_ok conf mag x.1 (burst_mask x.2) k = true in
  let strength k := sort_key (peak_of mag x.1 k) in
  let '(x', ok, new, gone) := fft_burst_tagger_step qsort log10f eps conf fb max_new max_gone x in
  ok = true -> s_acc_squelch_events x'.2 = s_acc_squelch_events x.2 ->
  exists opened ended, new = take max_new opened /\ gone = take max_gone (map (close (d_index x.2)) ended) /\
    held ++ opened ≡ₚ bursts x'.2 ++ ended /\ Forall (fun b => could (center_bin b)) opened /\
    forall k, could k -> exists b, b ∈ opened /\ Z.abs (Z.of_nat k - Z.of_nat (center_bin b)) <= burst_width conf / 2 /\ strength k <= strength (center_bin b).
Proof.
  intros Hs Hc Hsc He Hw Hn. cbv zeta.
  assert (He' : Z.of_nat (length evs) < 2 ^ 31) by (unfold is_u in Hw; lia).
  destruct (run_tracker qsort log10f eps conf Hs Hc evs table write_no He') as [T _].
  pose proof (run_floor qsort log10f eps conf evs _ [] (init_floor_ok table write_no Hw) He Hn) as F.
  destruct (tagger_run _ _ _ _ _ _) as [f t]. cbn [fst snd] in *.
  exact (step_strongest qsort log10f eps conf Hs Hc Hsc fb max_new max_gone f t T (floor_nonneg _ _ F)).
Qed.

Lemma tagger_opens_strongest_witness :
  let x := (tagger_run sorted_peaks (fun x => x) (float_of 1) iridium_conf primed_evs (fft_burst_tagger_init true 0)) in
  let mag := compute_magnitude_shifted loud_fft in
  let held := update_bursts_internal iridium_conf mag x.1 (d_index x.2) (bursts x.2) in
  let could k := (margin iridium_conf <= k < FBT_FFT_SIZE - margin iridium_conf)%nat /\ peak_bin_ok iridium_conf mag x.1 (burst_mask x.2) k = true in
  let strength k := sort_key (peak_of mag x.1 k) in
  let '(x', ok, new, gone) := fft_burst_tagger_step sorted_peaks (fun x => x) (float_of 1) iridium_conf loud_fft 16 16 x in
  ok = true -> s_acc_squelch_events x'.2 = s_acc_squelch_events x.2 ->
  exists opened ended, new = take 16 opened /\ gone = take 16 (map (close (d_index x.2)) ended) /\
    held ++ opened ≡ₚ bursts x'.2 ++ ended /\ Forall (fun b => could (center_bin b)) opened /\
    forall k, could k -> exists b, b ∈ opened /\ Z.abs (Z.of_nat k - Z.of_nat (center_bin b)) <= burst_width iridium_conf / 2 /\ strength k <= strength (center_bin b).
Proof.
  apply (tagger_opens_strongest sorted_peaks (fun x => x) (float_of 1) iridium_conf primed_evs true 0 loud_fft 16 16).
  - exact sorted_peaks_ok.
  - exact iridium_conf_ok.
  - right. reflexivity.
  - exact primed_evs_ok.
  - split; reflexivity || discriminate.
  - rewrite primed_evs_length. reflexivity.
Defined.
